(* ===== verification/_CoqProject ===== *)
-Q . S2P
Prelude.v
DList.v
MemRegion.v
MemRegionInv.v
MemRegionCreate.v
MemRegionFree.v
MemRegionLife.v
Ids.v
FileDesc.v
FileDescInv.v
FileDescThms.v
Access.v
AccessThms.v
Sched.v
SchedQueue.v
Bkl.v
BklSteps.v
Pid.v
Timer.v
Signal.v
SignalThms.v
Cstring.v
Dnlc.v
DnlcThms.v
Pipe.v
PipeThms.v
PipeOpen.v
Lookup.v
LookupThms.v
UserMem.v
Event.v
EventThms.v
Frames.v
Msg.v
MsgThms.v
MsgData.v
MsgDataThms.v
Futex.v
FutexThms.v
Cache.v
CacheInv.v
CacheThms.v
FileIo.v
FileIoThms.v
Proc.v
ProcInv.v
ProcFork.v
ProcThms.v
ProcPid.v
MemRegionFrame.v
Pmap.v
PmapInv.v
PmapOps.v
Vm.v
VmInv.v
VmPages.v
VmStore.v
VmFork.v
VmMap.v
VmSpec.v
VmCalls.v
VmThms.v
Irq.v
IrqThms.v
ExecArgs.v
ExecArgsThms.v
