(* ===== verification/Prelude.v ===== *)
(** * The Cheviot kernel: a verification of its core

    Cheviot is a small kernel for the Raspberry Pi, in C. File systems, device
    drivers and the network run as user processes, to which the kernel sends
    messages. One big lock protects the kernel: a thread that is inside holds
    it, and gives it up when it sleeps or leaves.

    ** The parts of the program and the files that model them

    - Intrusive lists (include/kernel/lists.h). Nearly every table of the
      kernel is an array whose entries are linked on lists by fields they
      contain. [DList] has the DLIST and CIRCLEQ macros as pointer programs and
      proves that they implement operations on sequences. The other files use
      these sequences: a list header is a [list nat] of indices, and a macro is
      one of the [dl_*] operations below, which fault when the macro's
      precondition does not hold (removal of an entry that is not on the list,
      a second insertion).
    - Address spaces (vm/memregion.c): [MemRegion] is the model, and
      [MemRegionInv], [MemRegionCreate], [MemRegionFree] and [MemRegionLife]
      are the invariant and the theorems.
    - Credentials (proc/id.c, proc/privileges.c): [Ids].
    - Descriptors and open files (fs/filedesc.c, fs/filp.c, fs/fproc.c,
      fs/close.c): [FileDesc], [FileDescInv], [FileDescThms].
    - Permission checks and open (fs/access.c, fs/open.c): [Access],
      [AccessThms], on top of the two above.
    - Scheduling, the big lock, sleep and wakeup (proc/sched.c,
      proc/thread_sched.c, proc/sleep_wakeup_bkl.c): [Sched] is the model,
      [SchedQueue] the run queues, [Bkl] and [BklSteps] the kernel as a step
      system.
    - Pids, sessions and process groups (proc/pid.c): [Pid].
    - Timers (proc/timer.c): [Timer].
    - Signals (proc/signal.c): [Signal], [SignalThms], over [Pid] and [Sched].
    - Strings (utility/string.c): [Cstring].
    - The directory name cache (fs/dnlc.c): [Dnlc], [DnlcThms].
    - Pipes (fs/pipe.c and the pipe part of fs/vnode.c): [Pipe], [PipeThms],
      and [PipeOpen], which composes them with the descriptor tables.
    - Path lookup (fs/lookup.c): [Lookup], [LookupThms].
    - User memory (vm/bounds.c, vm/ipcopy.c): [UserMem].
    - Thread events (proc/thread_events.c): [Event], [EventThms], over [Sched].
    - Messages (fs/msg.c and the ports of fs/msgport.c): [Msg] has the ports,
      sending, taking, replying and aborting, over [Event] and [FileDesc], and
      [MsgThms] the protocol they implement; [MsgData] has the calls that read
      and write the data of a message, over a [channel] between two memories
      of which [ipcopy] is an instance, and [MsgDataThms] what they copy.
    - What kernel calls leave alone: [Frames], for the components that keep
      threads on rendez of their own.
    - Futexes (proc/thread_futex.c): [Futex], [FutexThms], over [Sched].
    - The block cache and the pages (fs/cache.c, vm/page.c, and the hash of
      include/kernel/hash.h): [Cache] is the model, [CacheInv] the invariant of
      the pages and [CacheThms] the cache as a step system in which the servers
      answer requests.
    - Reading and writing files (fs/file.c): [FileIo], [FileIoThms], over the
      cache.
    - Processes and threads (proc/proc.c, proc/thread.c): [Proc] is the model,
      over [Sched] and an interface of the pid table; [ProcInv] and [ProcFork]
      have the invariant and what each call does to it, [ProcThms] the
      processes as a step system, and [ProcPid] shows that the table of
      proc/pid.c, with threads in it, is an instance of the interface.
    - Virtual memory (boards/raspberry_pi_4/pmap.c, vm/as.c, vm/mmap.c,
      vm/pagefault.c): [Pmap] has the page directories, page tables and page
      frames, [PmapInv] and [PmapOps] what they mean and what the operations
      on them do; [MemRegionFrame] shows that the operations on the regions
      of one address space leave the others alone; [Vm] has address spaces,
      mappings, page faults and the accesses of processes; [VmInv],
      [VmPages], [VmStore], [VmFork] and [VmMap] what they do to the pages of
      processes; [VmSpec] the abstract machine, [VmCalls] each call and
      [VmThms] the theorem.
    - Interrupt servers (proc/interrupt.c and the top half of
      boards/raspberry_pi_4/interrupt.c): [Irq] and [IrqThms], over [Event].
    - The arguments of a new program (fs/exec.c and the copies of
      boards/raspberry_pi_4/copyin.S): [ExecArgs] and [ExecArgsThms].

    ** How the code is translated

    The state a component keeps in C globals and tables is a record; a table
    is a function from indices to records, updated with [<[i := _]>] or [::=].
    A pointer to a table entry is its index, NULL is [None]. A C function is a
    definition of the same name in the monad [M state]: it returns [Ok], stops
    in [Panic] (kernelpanic, a failed kassert) or in [Fault] (behaviour that C
    leaves undefined: NULL dereferences, array overruns, lists that would be
    corrupted). Loops are structural on the list they walk or take a bound.
    A result [-E] is [RErr E], any other int [RVal v]. Integers are [Z]; where
    the code wraps or truncates, the model does ([wrap32], [u32], [ssize]).
    Calls to klog_* are left out. Code outside src/ (the libc constants such as
    O_RDONLY, S_ISDIR and PAGE_SIZE, user memory, the file-system servers) is
    a class ([Board], [FsConsts], [MsgConsts], [Vfs]) or a section variable.

    A call that may sleep is modelled from the point where its thread holds
    the lock to the switch; what it does when its thread runs again is a
    separate definition, and [BklSteps] interleaves the pieces.

    ** What the theorems show

    - Refinement: the list macros implement sequences ([dlist_refines],
      [circleq_refines]); the name cache is a partial map
      ([dname_enter_lookup], [dname_purge_correct]); path lookup is the walk
      of the components ([lookup_resolves]); [ipcopy] is a byte-wise copy;
      message passing is a protocol of requests that are sent, taken and
      answered ([msg_refines_spec], [msg_delivery]), whose data is the
      concatenation of its buffers ([readmsg_correct], [writemsg_correct]);
      futexes are queues of threads ([futex_refines]); reads and writes of a
      file through the cache read and change its bytes
      ([read_from_file_correct], [write_to_file_correct]); processes are a
      table of pids with statuses and parents ([process_table_refines]),
      their memory is their own, though page frames are shared until they are
      written ([private_memory]), and the arguments given to exec are those
      the new program finds on its stack ([exec_args_roundtrip]).
    - Invariants under every sequence of operations: the holder of the lock is
      the only thread that runs in the kernel, and no assertion of the lock
      fails ([bkl_mutual_exclusion]); reference counts of filps are exact
      ([fd_refcounts_exact]); unprivileged processes gain no real,
      effective or saved ids ([no_id_escalation]); privileges shrink ([privileges_monotone]); the
      block cache agrees with the files ([cache_coherent]); no
      wakeup of a pipe and no thread event is lost ([pipe_no_lost_wakeup],
      [thread_events_not_lost]), and interrupts reach their servers
      ([interrupts_delivered]).
    - Functional behaviour of the operations, errors included: regions are
      created, split, freed and forked as the address map says; the scheduler
      runs the highest ready thread; timers fire once, on their tick, in order;
      signals go to a thread that accepts them; descriptors are duplicated,
      inherited and closed; and so on.
    - Refinements and invariants of components with such defects are about
      the executions that avoid them: the comment before each theorem says
      which calls its step system has, and which lemmas show what the code
      does outside of it.
    - Where the code does not do what it means to, a theorem says what it does
      instead: for instance [pipe_close_both_panics],
      [memregion_free_leaves_stale], [check_access_owner_inverted],
      [dname_purge_all_breaks], [futex_exit_deadlocks], [btruncate_keeps_busy],
      [exit_leaves_threads], [group_wait_misses], [walk_of_other_run],
      [fault_race_run].

    ** Bounds

    [free_loop] and [free_all_loop] of [MemRegion] are bounded by the number
    of regions, and the theorems show that they end before the bound. The loop
    of [lookup_path] is bounded by the length of the path, of which each turn
    consumes a character. The loops of the pipe transfers take the number of
    turns: two are enough for a transfer of at least one byte
    ([pipe_transfers_correct]), and no number is for one of length zero
    ([pipe_zero_length_spins]). [ipcopy_loop] takes the number of bytes left,
    since each turn copies at least one.
    The loop of [ksendmsg] goes round at most twice, since the second failure
    to wait ends it. [iov_loop] takes a turn for each vector. The loops of
    [fini_msgport] are bounded by the lengths of the lists they empty. The
    loops of [sys_readmsgiov] and [sys_writemsgiov] take the number of turns
    and say whether they are over ([readmsgiov_hangs]: they may not be).
    [requeue_loop] takes [n + m] turns, of which each moves a thread;
    [btruncate_from] and [binvalidate_loop] a turn for each page of the file;
    [read_loop] a turn for each byte left, and each turn takes
    one at least; [detach_loop] a turn for each child.
    The loops over addresses run over the list [upto], of every address that
    the C loop visits.
    [do_free_all_isrhandlers] takes the number of turns and says whether it is
    over: one for each handler is enough ([free_all_ok]), unless the thread
    has been given to another process ([free_all_hangs]).
    [copyin], [copyinstring] and [copyout] of [ExecArgs] take the number of
    bytes, [copy_strings] and [relocate] the number of entries, as the loops
    in C do.

    ** Not modelled

    The requests of fs/vfs.c and fs/char.c (they fill in a message and return the
    server's answer), the calls built on lookup and one request (fs/dir.c,
    fs/link.c, fs/rename.c, fs/stat.c and the like), the mounting of a server
    (sys_createmsgport), the loading of ELF files and the
    composition of exec, caches and the TLB, the
    reader-writer locks (disabled by the preprocessor);
    the sockets, which are stubs; start-up, board code and assembly; debugging
    output; and the third-party hash of utility/lookup3.c.

    This file has the outcome monad with its rules, the operations on
    intrusive lists, the machine integers, and the tactics and hints that the
    other files share. *)

From stdpp Require Export base tactics functions list numbers option gmap.
From Stdlib Require Export ZArith Lia.
From Corelib Require Export ssreflect.

#[global] Open Scope general_if_scope.
Declare Scope kernel_scope.
Delimit Scope kernel_scope with K.

(** ** Outcomes

    A kernel function either returns ([Ok]), stops in [kernelpanic()] or a
    failed [kassert] ([Panic]), or leaves the behaviour C defines ([Fault]):
    a NULL dereference, an array index out of range, or an intrusive-list
    macro applied to an entry that is not in the state the macro needs. *)
Inductive outcome (A : Type) : Type :=
| Ok (a : A)
| Panic
| Fault.
Arguments Ok {A} a.
Arguments Panic {A}.
Arguments Fault {A}.

#[export] Instance outcome_ret : MRet outcome := @Ok.
#[export] Instance outcome_bind : MBind outcome := fun A B f m =>
  match m with Ok a => f a | Panic => Panic | Fault => Fault end.

#[export] Instance outcome_fmap : FMap outcome := fun A B f m =>
  match m with Ok a => Ok (f a) | Panic => Panic | Fault => Fault end.

(** Errors the system calls return, by their C names; a C function that
    returns [-E] is modelled as returning [RErr E], any other int as
    [RVal v]. *)
Inductive errno : Type :=
| EPERM | ESRCH | EINTR | EDEADLK | EIO | E2BIG | EBADF | ENOMEM | EACCES | EFAULT
| EINVAL | EMFILE | ENOSYS | ETIMEDOUT | ENOTDIR | ENOENT | ENOTSUP | EAGAIN
| ESPIPE | EPIPE | ENAMETOOLONG | EOVERFLOW | ECONNABORTED | EEXIST | EXDEV
| EBUSY | ENOTEMPTY | EISDIR | EROFS | ENXIO | ENODEV | ENOEXEC | ECHILD | ERANGE.

Inductive ret : Type :=
| RVal (v : Z)
| RErr (e : errno).

#[export] Instance errno_eq_dec : EqDecision errno.
Proof. solve_decision. Defined.
#[export] Instance ret_eq_dec : EqDecision ret.
Proof. solve_decision. Defined.

(** ** The state monad over outcomes *)
Definition M (S A : Type) : Type := S -> outcome (A * S).

#[export] Instance M_ret S : MRet (M S) := fun A a s => Ok (a, s).
#[export] Instance M_bind S : MBind (M S) := fun A B f m s =>
  match m s with
  | Ok (a, s') => f a s'
  | Panic => Panic
  | Fault => Fault
  end.

Definition gets {S A} (f : S -> A) : M S A := fun s => Ok (f s, s).
Definition modify {S} (f : S -> S) : M S unit := fun s => Ok (tt, f s).
Definition panic {S A} : M S A := fun _ => Panic.
Definition fault {S A} : M S A := fun _ => Fault.

(** A computation without the state. *)
Definition lift {S A} (m : outcome A) : M S A := fun s =>
  match m with Ok a => Ok (a, s) | Panic => Panic | Fault => Fault end.

(** [kassert(b)] *)
Definition kassert {S} (b : bool) : M S unit := if b then mret tt else panic.

(** A computation that may fault, lifted from a partial update of a part of
    the state. *)
Definition update {S T} (get : S -> T) (put : T -> S -> S) (f : T -> outcome T) : M S unit :=
  fun s => match f (get s) with
           | Ok t => Ok (tt, put t s)
           | Panic => Panic
           | Fault => Fault
           end.

(** [for (...)] over the elements of a list. *)
Fixpoint mfor {S A} (l : list A) (body : A -> M S unit) : M S unit :=
  match l with
  | [] => mret tt
  | a :: l' => _ ← body a; mfor l' body
  end.

(** *** Weakest preconditions: total correctness *)
Definition wp {S A} (m : M S A) (Q : A -> S -> Prop) (s : S) : Prop :=
  match m s with Ok (a, s') => Q a s' | _ => False end.

Section wp.
Context {S : Type}.

Lemma wp_ret {A} (a : A) (Q : A -> S -> Prop) s : Q a s -> wp (mret a) Q s.
Proof. done. Qed.

Lemma wp_bind {A B} (m : M S A) (k : A -> M S B) Q s :
  wp m (fun a s' => wp (k a) Q s') s -> wp (m ≫= k) Q s.
Proof. rw /wp /mbind /M_bind. by destruct (m s) as [[a s']| |]. Qed.

Lemma wp_gets {A} (f : S -> A) Q s : Q (f s) s -> wp (gets f) Q s.
Proof. done. Qed.

Lemma wp_modify (f : S -> S) Q s : Q tt (f s) -> wp (modify f) Q s.
Proof. done. Qed.

Lemma wp_lift {A} (m : outcome A) a (Q : A -> S -> Prop) s : m = Ok a -> Q a s -> wp (lift m) Q s.
Proof. by intros ->. Qed.

Lemma wp_kassert b (Q : unit -> S -> Prop) s : b = true -> Q tt s -> wp (kassert b) Q s.
Proof. by intros ->. Qed.

Lemma wp_update {T} (get : S -> T) put f t Q s :
  f (get s) = Ok t -> Q tt (put t s) -> wp (update get put f) Q s.
Proof. rw /wp /update. by intros ->. Qed.

Lemma wp_mono {A} (m : M S A) (P Q : A -> S -> Prop) s :
  wp m P s -> (forall a s', P a s' -> Q a s') -> wp m Q s.
Proof. rw /wp. destruct (m s) as [[a s']| |]; auto. Qed.

Lemma wp_ok {A} (m : M S A) (Q : A -> S -> Prop) s :
  wp m Q s <-> exists a s', m s = Ok (a, s') /\ Q a s'.
Proof.
  rw /wp. split.
  - destruct (m s) as [[a s']| |]; naive_solver.
  - by intros (a & s' & -> & ?).
Qed.

Lemma wp_unit (m : M S unit) (P : S -> Prop) s :
  wp m (fun _ s' => P s') s -> exists s', m s = Ok (tt, s') /\ P s'.
Proof. intros ([] & s' & ? & ?)%wp_ok. eauto. Qed.

(** A loop over a list keeps an invariant indexed by what is still to do. *)
Lemma wp_mfor {A} (I : list A -> S -> Prop) (l : list A) (body : A -> M S unit) Q s :
  I l s ->
  (forall a l' s', I (a :: l') s' -> wp (body a) (fun _ => I l') s') ->
  (forall s', I [] s' -> Q tt s') ->
  wp (mfor l body) Q s.
Proof.
  intros HI Hstep Hend. revert s HI. induction l as [|a l IH]; intros s HI; simpl.
  - by apply wp_ret, Hend.
  - apply wp_bind. eapply wp_mono; [apply Hstep, HI|]. intros [] s' ?; by apply IH.
Qed.
End wp.

(** ** Record update: [r <| f := v |>]

    [Setter f] is the functional update of one field; [solve_setter eta]
    builds it from the record's eta-expansion. *)
Class Setter {R T : Type} (f : R -> T) : Type := setf : (T -> T) -> R -> R.
#[global] Hint Mode Setter - - + : typeclass_instances.

Ltac solve_setter eta :=
  lazymatch goal with
  | |- Setter ?f =>
    let go := constr:(fun g r => ltac:(
      let e := eval cbv beta delta [eta] in (eta r) in
      let e := eval pattern (f r) in e in
      lazymatch e with ?F _ => let t := eval cbv beta in (F (g (f r))) in exact t end)) in
    exact go
  end.

Notation "r <| f := v |>" := (setf (f := f) (fun _ => v) r)
  (at level 1, left associativity, f at next level, v at level 200,
   format "r  '<|'  f  :=  v  '|>'") : kernel_scope.
Notation "r <| f ::= g |>" := (setf (f := f) g r)
  (at level 1, left associativity, f at next level, g at level 200,
   format "r  '<|'  f  ::=  g  '|>'") : kernel_scope.

(** ** Intrusive lists as sequences

    The DLIST macros link objects of a static table, named here by their
    index. [dl_*] is what a macro does to the sequence of objects when its
    use is sound; adding an object that is already on the list, and removing
    one that is not, make the links inconsistent and are [Fault]. [DList.v]
    proves that the pointer macros of include/kernel/lists.h implement these. *)
Definition dl_add_head (x : nat) (l : list nat) : outcome (list nat) :=
  if decide (x ∈ l) then Fault else Ok (x :: l).
Definition dl_add_tail (x : nat) (l : list nat) : outcome (list nat) :=
  if decide (x ∈ l) then Fault else Ok (l ++ [x]).
Definition dl_rem_head (l : list nat) : outcome (list nat) :=
  match l with [] => Fault | _ :: l' => Ok l' end.

Fixpoint list_remove1 (x : nat) (l : list nat) : list nat :=
  match l with
  | [] => []
  | y :: l' => if decide (x = y) then l' else y :: list_remove1 x l'
  end.
Definition dl_rem (x : nat) (l : list nat) : outcome (list nat) :=
  if decide (x ∈ l) then Ok (list_remove1 x l) else Fault.

Fixpoint list_insert_after (p x : nat) (l : list nat) : list nat :=
  match l with
  | [] => []
  | y :: l' => if decide (p = y) then y :: x :: l' else y :: list_insert_after p x l'
  end.
Fixpoint list_insert_before (p x : nat) (l : list nat) : list nat :=
  match l with
  | [] => []
  | y :: l' => if decide (p = y) then x :: y :: l' else y :: list_insert_before p x l'
  end.
Definition dl_insert_after (p x : nat) (l : list nat) : outcome (list nat) :=
  if decide (p ∈ l /\ x ∉ l) then Ok (list_insert_after p x l) else Fault.
Definition dl_insert_before (p x : nat) (l : list nat) : outcome (list nat) :=
  if decide (p ∈ l /\ x ∉ l) then Ok (list_insert_before p x l) else Fault.

(** [CIRCLEQ_FORWARD]: the ring read from the next entry. *)
Definition cq_forward (l : list nat) : outcome (list nat) :=
  match l with [] => Fault | x :: l' => Ok (l' ++ [x]) end.

(** [DLIST_NEXT] and [DLIST_PREV] of an entry of the list. *)
Fixpoint dl_next (x : nat) (l : list nat) : option nat :=
  match l with
  | [] => None
  | y :: l' => if decide (x = y) then head l' else dl_next x l'
  end.
Fixpoint dl_prev_from (p : option nat) (x : nat) (l : list nat) : option nat :=
  match l with
  | [] => None
  | y :: l' => if decide (x = y) then p else dl_prev_from (Some y) x l'
  end.
Definition dl_prev (x : nat) (l : list nat) : option nat := dl_prev_from None x l.

(** The link fields of an entry that is on no list still hold the neighbours it
    had when it was removed. [DLIST_REM_ENTRY] of such an entry links these to
    each other: that changes nothing if they are next to each other, as they
    are right after the removal, and corrupts the list otherwise
    ([REM_ENTRY_stale] of [DList]). *)
Definition stale : Type := option nat * option nat.
Definition dl_adjacent (o : stale) (l : list nat) : Prop :=
  match o.1 with None => head l = o.2 | Some y => y ∈ l /\ dl_next y l = o.2 end.
#[export] Instance dl_adjacent_dec o l : Decision (dl_adjacent o l).
Proof. rewrite /dl_adjacent. destruct (o.1); apply _. Defined.
Definition dl_unlink (x : nat) (o : stale) (l : list nat) : outcome (list nat * stale) :=
  if decide (x ∈ l) then Ok (list_remove1 x l, (dl_prev x l, dl_next x l))
  else if decide (dl_adjacent o l) then Ok (l, o) else Fault.

Section dl_lemmas.
Implicit Types (x p : nat) (l : list nat).

Lemma dl_add_head_ok x l : x ∉ l -> dl_add_head x l = Ok (x :: l).
Proof. intros. rw /dl_add_head. by case_decide. Qed.

Lemma dl_add_tail_ok x l : x ∉ l -> dl_add_tail x l = Ok (l ++ [x]).
Proof. intros. rw /dl_add_tail. by case_decide. Qed.

Lemma dl_rem_ok x l : x ∈ l -> dl_rem x l = Ok (list_remove1 x l).
Proof. intros. rw /dl_rem. by case_decide. Qed.

Lemma list_remove1_app x l1 l2 : x ∉ l1 -> list_remove1 x (l1 ++ x :: l2) = l1 ++ l2.
Proof.
  induction l1 as [|y l1 IH]; simpl; intros Hx; [by rw decide_True|].
  rw decide_False; [set_solver|]. f_equal. apply IH. set_solver.
Qed.

Lemma list_insert_after_app p x l1 l2 :
  p ∉ l1 -> list_insert_after p x (l1 ++ p :: l2) = l1 ++ p :: x :: l2.
Proof.
  induction l1 as [|y l1 IH]; simpl; intros Hx; [by rw decide_True|].
  rw decide_False; [set_solver|]. f_equal. apply IH. set_solver.
Qed.

Lemma list_insert_before_app p x l1 l2 :
  p ∉ l1 -> list_insert_before p x (l1 ++ p :: l2) = l1 ++ x :: p :: l2.
Proof.
  induction l1 as [|y l1 IH]; simpl; intros Hx; [by rw decide_True|].
  rw decide_False; [set_solver|]. f_equal. apply IH. set_solver.
Qed.

Lemma dl_next_app x l1 l2 : x ∉ l1 -> dl_next x (l1 ++ x :: l2) = head l2.
Proof.
  induction l1 as [|y l1 IH]; simpl; intros Hx; [by rw decide_True|].
  rw decide_False; [set_solver|]. apply IH. set_solver.
Qed.

Lemma dl_prev_from_app q x l1 l2 :
  x ∉ l1 -> dl_prev_from q x (l1 ++ x :: l2) = match last l1 with Some y => Some y | None => q end.
Proof.
  revert q. induction l1 as [|y l1 IH]; simpl; intros q Hx; [by rw decide_True|].
  rw decide_False; [set_solver|]. rw IH; [set_solver|].
  rw last_cons. by destruct (last l1).
Qed.

Lemma dl_prev_app x l1 l2 : x ∉ l1 -> dl_prev x (l1 ++ x :: l2) = last l1.
Proof. intros ?. rw /dl_prev dl_prev_from_app //. by destruct (last l1). Qed.

(** Every member splits the list at its first occurrence. *)
Lemma elem_split x l : x ∈ l -> exists l1 l2, l = l1 ++ x :: l2 /\ x ∉ l1.
Proof. intros (l1 & l2 & ? & ?)%list_elem_of_split_l. eauto. Qed.

Lemma list_remove1_perm x l : x ∈ l -> x :: list_remove1 x l ≡ₚ l.
Proof.
  intros (l1 & l2 & -> & ?)%elem_split. rw list_remove1_app //.
  by rw -Permutation_middle.
Qed.

Lemma elem_of_list_remove1 x y l : NoDup l -> y ∈ list_remove1 x l <-> y ∈ l /\ y <> x.
Proof.
  intros Hl. destruct (decide (x ∈ l)) as [(l1 & l2 & -> & Hx)%elem_split|Hx].
  - rw list_remove1_app //. apply NoDup_app in Hl as (? & ? & [? ?]%NoDup_cons).
    set_solver.
  - induction l as [|z l IH]; simpl; [set_solver|].
    rw decide_False; [set_solver|]. apply NoDup_cons in Hl as [? ?].
    rw !elem_of_cons IH; set_solver.
Qed.

Lemma NoDup_list_remove1 x l : NoDup l -> NoDup (list_remove1 x l).
Proof.
  intros Hl. destruct (decide (x ∈ l)) as [Hx|Hx].
  - rw -(list_remove1_perm x l Hx) in Hl. by apply NoDup_cons in Hl as [??].
  - replace (list_remove1 x l) with l; [done|].
    clear Hl. induction l as [|z l IH]; simpl; [done|].
    rw decide_False; [set_solver|]. f_equal. apply IH. set_solver.
Qed.
Lemma dl_unlink_ok x o l : x ∈ l -> dl_unlink x o l = Ok (list_remove1 x l, (dl_prev x l, dl_next x l)).
Proof. intros. rw /dl_unlink. by case_decide. Qed.
(** Removing it again at once. *)
Lemma dl_unlink_again x l : NoDup l -> x ∈ l ->
  dl_unlink x (dl_prev x l, dl_next x l) (list_remove1 x l) = Ok (list_remove1 x l, (dl_prev x l, dl_next x l)).
Proof.
  intros Hn (l1 & l2 & -> & Hx)%elem_split. rw list_remove1_app // dl_prev_app // dl_next_app //. apply NoDup_app in Hn as (Hn1 & Hd & Hn2).
  apply NoDup_cons in Hn2 as [Hx2 _]. rw /dl_unlink decide_False; [set_solver|]. rw decide_True //. rw /dl_adjacent /=.
  destruct (last l1) as [y|] eqn:El; [|by apply last_None in El as ->]. apply last_Some in El as [l1' ->]. split; [set_solver|].
  apply NoDup_app in Hn1 as (_ & Hd1 & _). rw -app_assoc /= dl_next_app //. intros Hy. by apply (Hd1 y Hy), list_elem_of_singleton.
Qed.
End dl_lemmas.

Lemma list_filter_ext {A} (P Q : A -> Prop) `{!forall x, Decision (P x), !forall x, Decision (Q x)} (l : list A) :
  (forall x, x ∈ l -> P x <-> Q x) -> filter P l = filter Q l.
Proof.
  induction l as [|x l IH]; intros HPQ; [done|]. rw !filter_cons IH; [intros; apply HPQ; set_solver|].
  assert (P x <-> Q x) by (apply HPQ; set_solver). repeat case_decide; tauto.
Qed.

Lemma list_filter_none {A} (P : A -> Prop) `{!forall x, Decision (P x)} (l : list A) :
  (forall x, x ∈ l -> ~ P x) -> filter P l = [].
Proof.
  induction l as [|x l IH]; intros Hn; [done|]. rw filter_cons decide_False; [apply Hn; set_solver|].
  apply IH. set_solver.
Qed.

(** ** Fixed-width arithmetic *)
Section words.
Local Open Scope Z_scope.
Definition wrap32 (z : Z) : Z := z mod 2 ^ 32.
Definition u32 (z : Z) : Prop := 0 <= z < 2 ^ 32.

Lemma wrap32_id z : u32 z -> wrap32 z = z.
Proof. intros. by apply Z.mod_small. Qed.
Lemma wrap32_u32 z : u32 (wrap32 z).
Proof. apply Z.mod_pos_bound. lia. Qed.

(** Bit [n] of a word, as [1 << n]. *)
Definition bit (n : Z) : Z := Z.shiftl 1 n.
Definition has (flags mask : Z) : bool := negb (Z.land flags mask =? 0).

Lemma bit_testbit n m : 0 <= n -> Z.testbit (bit n) m = bool_decide (n = m).
Proof.
  intros Hn. rw /bit Z.shiftl_1_l. destruct (decide (n = m)) as [->|].
  - rw bool_decide_true //. by rw Z.pow2_bits_true.
  - rw bool_decide_false //. by rw Z.pow2_bits_false.
Qed.
Lemma has_bit z n : 0 <= n -> has z (bit n) = Z.testbit z n.
Proof.
  intros Hn. rw /has.
  destruct (Z.testbit z n) eqn:E.
  - apply negb_true_iff, Z.eqb_neq. intros H0.
    assert (Z.testbit (Z.land z (bit n)) n = true) as H1.
    { rw Z.land_spec E bit_testbit // bool_decide_true //. }
    by rw H0 Z.bits_0 in H1.
  - apply negb_false_iff, Z.eqb_eq, Z.bits_inj'. intros m Hm.
    rw Z.land_spec bit_testbit // Z.bits_0.
    case_bool_decide; subst; rw ?E ?andb_false_r //.
Qed.
End words.

(** ** Automation *)
Create HintDb kernel.
#[export] Hint Resolve wp_ret wp_gets wp_modify : kernel.
#[export] Hint Resolve dl_add_head_ok dl_add_tail_ok dl_rem_ok : kernel.
#[export] Hint Resolve NoDup_list_remove1 wrap32_u32 : kernel.

(** One step of a monadic program in a [wp] goal. *)
Ltac wp_step :=
  lazymatch goal with
  | |- wp (mbind _ _) _ _ => apply wp_bind
  | |- wp (mret _) _ _ => apply wp_ret
  | |- wp (gets _) _ _ => apply wp_gets
  | |- wp (modify _) _ _ => apply wp_modify
  | |- wp (kassert _) _ _ => apply wp_kassert
  end.
Ltac wp_steps := repeat (wp_step; simpl).

(** Unfold the monad, to run a program on a symbolic state. *)
Ltac mrun := cbv [mbind M_bind mret M_ret gets modify panic fault lift kassert update outcome_bind outcome_ret id].
Ltac mrun_in H := cbv [mbind M_bind mret M_ret gets modify panic fault lift kassert update outcome_bind outcome_ret id] in H.

(** Read tables through updates of other entries. *)
Ltac reads :=
  repeat first
    [ progress simpl
    | rewrite ->fn_lookup_insert
    | rewrite ->fn_lookup_insert_ne by congruence ].

(** [g] is [f] with the value [v] at [a]. *)
Definition changed {A B : Type} (f : A -> B) (a : A) (v : B) (g : A -> B) : Prop := g a = v /\ forall b, b <> a -> g b = f b.
Lemma changed_insert {A B} `{!EqDecision A} (f : A -> B) a v : changed f a v (<[a := v]> f).
Proof. split; [by rw fn_lookup_insert|]. intros b Hb. rw fn_lookup_insert_ne; congruence. Qed.
Lemma changed_trans {A B} (f g h : A -> B) a v w : changed f a v g -> changed g a w h -> changed f a w h.
Proof. intros [_ E1] [E2 E3]. split; [done|]. intros b Hb. by rw E3 // E1. Qed.

(** Split a boolean comparison of the code into its arithmetic cases. *)
Ltac zcases :=
  repeat match goal with
  | |- context [Z.ltb ?a ?b] => destruct (Z.ltb_spec a b)
  | |- context [Z.leb ?a ?b] => destruct (Z.leb_spec a b)
  | |- context [Z.eqb ?a ?b] => destruct (Z.eqb_spec a b)
  end.
