(* ===== verification/DList.v ===== *)
(** * DList: the intrusive list macros of include/kernel/lists.h

    The macros as pointer programs over a table of link fields, and the
    proof that each implements the sequence operation the other files use
    in its place ([dl_*] of [Prelude.v] for DLIST, lists read from the head
    for CIRCLEQ). The kernel includes these macros as <sys/queue2.h>; the
    repository's definitions are in include/kernel/lists.h. *)

From S2P Require Import Prelude.

(** ** DLIST: head and tail pointers, NULL-terminated *)
Module DLIST.

(** An object's [entrytype] field, and the list's [headertype]. Objects are
    named by their index in their table; NULL is [None]. *)
Record link := Link { next : option nat; prev : option nat }.
Record header := Header { hd : option nat; tl : option nat }.
Abbreviation links := (nat -> link).

Definition set_next (x : nat) (v : option nat) (lk : links) : links :=
  <[x := Link v (prev (lk x))]> lk.
Definition set_prev (x : nat) (v : option nat) (lk : links) : links :=
  <[x := Link (next (lk x)) v]> lk.

Definition DLIST_INIT : header := Header None None.
Definition DLIST_EMPTY (h : header) : bool := match hd h with None => true | Some _ => false end.
Definition DLIST_HEAD (h : header) : option nat := hd h.
Definition DLIST_TAIL (h : header) : option nat := tl h.
Definition DLIST_NEXT (x : nat) (lk : links) : option nat := next (lk x).
Definition DLIST_PREV (x : nat) (lk : links) : option nat := prev (lk x).

Definition DLIST_ADD_HEAD (x : nat) (h : header) (lk : links) : header * links :=
  let lk := set_next x (hd h) lk in
  let lk := set_prev x None lk in
  match hd h with
  | Some y => (Header (Some x) (tl h), set_prev y (Some x) lk)
  | None => (Header (Some x) (Some x), lk)
  end.

Definition DLIST_ADD_TAIL (x : nat) (h : header) (lk : links) : header * links :=
  let lk := set_next x None lk in
  let lk := set_prev x (tl h) lk in
  match tl h with
  | Some y => (Header (hd h) (Some x), set_next y (Some x) lk)
  | None => (Header (Some x) (Some x), lk)
  end.

Definition DLIST_REM_HEAD (h : header) (lk : links) : outcome (header * links) :=
  match hd h with
  | None => Fault
  | Some x =>
    match next (lk x) with
    | Some y => Ok (Header (Some y) (tl h), set_prev y None lk)
    | None => Ok (Header None None, lk)
    end
  end.

Definition DLIST_REM_TAIL (h : header) (lk : links) : outcome (header * links) :=
  match tl h with
  | None => Fault
  | Some x =>
    match prev (lk x) with
    | Some y => Ok (Header (hd h) (Some y), set_next y None lk)
    | None => Ok (Header None None, lk)
    end
  end.

Definition DLIST_INSERT_AFTER (p x : nat) (h : header) (lk : links) : header * links :=
  let lk := set_next x (next (lk p)) lk in
  let lk := set_prev x (Some p) lk in
  let lk := set_next p (Some x) lk in
  match next (lk x) with
  | Some y => (h, set_prev y (Some x) lk)
  | None => (Header (hd h) (Some x), lk)
  end.

Definition DLIST_INSERT_BEFORE (n x : nat) (h : header) (lk : links) : header * links :=
  let lk := set_prev x (prev (lk n)) lk in
  let lk := set_next x (Some n) lk in
  let lk := set_prev n (Some x) lk in
  match prev (lk x) with
  | Some y => (h, set_next y (Some x) lk)
  | None => (Header (Some x) (tl h), lk)
  end.

Definition DLIST_REM_ENTRY (x : nat) (h : header) (lk : links) : header * links :=
  let '(h, lk) :=
    match prev (lk x) with
    | Some y => (h, set_next y (next (lk x)) lk)
    | None => (Header (next (lk x)) (tl h), lk)
    end in
  match next (lk x) with
  | Some y => (h, set_prev y (prev (lk x)) lk)
  | None => (Header (hd h) (prev (lk x)), lk)
  end.

(** ** The sequence a list represents *)

(** The links of [l] in order, entered from [p] and leaving to [q]. *)
Fixpoint dseg (lk : links) (p : option nat) (l : list nat) (q : option nat) : Prop :=
  match l with
  | [] => True
  | x :: l' => lk x = Link (match l' with [] => q | y :: _ => Some y end) p
               /\ dseg lk (Some x) l' q
  end.

Record rep (h : header) (lk : links) (l : list nat) : Prop := {
  rep_nodup : NoDup l;
  rep_head : hd h = head l;
  rep_tail : tl h = last l;
  rep_seg : dseg lk None l None }.

Definition orelse (a b : option nat) : option nat := match a with Some _ => a | None => b end.

Section dseg.
Implicit Types (lk : links) (l : list nat) (p q : option nat).

Lemma dseg_app lk p l1 l2 q :
  dseg lk p (l1 ++ l2) q <->
  dseg lk p l1 (orelse (head l2) q) /\ dseg lk (orelse (last l1) p) l2 q.
Proof.
  revert p. induction l1 as [|x l1 IH]; intros p; simpl; [tauto|].
  rw IH. destruct l1 as [|y l1]; simpl.
  - destruct l2; naive_solver.
  - replace (orelse _ p) with (orelse (last (y :: l1)) (Some x)); [tauto|].
    by destruct (last (y :: l1)) eqn:E; [|apply last_None in E].
Qed.

Lemma dseg_frame lk lk' p l q :
  (forall x, x ∈ l -> lk' x = lk x) -> dseg lk p l q -> dseg lk' p l q.
Proof.
  revert p. induction l as [|x l IH]; intros p Hag; simpl; [done|]. intros [H1 H2].
  split; [rw Hag //; set_solver|]. apply IH; [|done]. intros y ?. apply Hag. set_solver.
Qed.

Lemma set_next_ne x v lk y : y <> x -> set_next x v lk y = lk y.
Proof. intros. rw /set_next fn_lookup_insert_ne //. congruence. Qed.
Lemma set_prev_ne x v lk y : y <> x -> set_prev x v lk y = lk y.
Proof. intros. rw /set_prev fn_lookup_insert_ne //. congruence. Qed.
Lemma set_next_eq x v lk : set_next x v lk x = Link v (prev (lk x)).
Proof. by rw /set_next fn_lookup_insert. Qed.
Lemma set_prev_eq x v lk : set_prev x v lk x = Link (next (lk x)) v.
Proof. by rw /set_prev fn_lookup_insert. Qed.

(** Re-linking the far end, or the near end, of a segment. *)
Definition set_next_o (o : option nat) v lk : links :=
  match o with Some y => set_next y v lk | None => lk end.
Definition set_prev_o (o : option nat) v lk : links :=
  match o with Some y => set_prev y v lk | None => lk end.

Lemma set_next_o_frame o v lk y : o <> Some y -> set_next_o o v lk y = lk y.
Proof. destruct o; simpl; [|done]. intros. apply set_next_ne. congruence. Qed.
Lemma set_prev_o_frame o v lk y : o <> Some y -> set_prev_o o v lk y = lk y.
Proof. destruct o; simpl; [|done]. intros. apply set_prev_ne. congruence. Qed.

Lemma dseg_relink_end lk p l q q' :
  NoDup l -> dseg lk p l q -> dseg (set_next_o (last l) q' lk) p l q'.
Proof.
  revert p. induction l as [|x l IH]; intros p Hnd; [done|].
  apply NoDup_cons in Hnd as [Hx Hl]. intros [Hlx Hs]. rw last_cons. destruct l as [|y l].
  - simpl. rw set_next_eq Hlx. done.
  - specialize (IH _ Hl Hs). destruct (last (y :: l)) as [z|] eqn:Hz; [|by apply last_None in Hz].
    apply last_Some_elem_of in Hz.
    split; [|done]. rw /= set_next_ne //. intros ->. done.
Qed.

Lemma dseg_relink_start lk p p' l q :
  NoDup l -> dseg lk p l q -> dseg (set_prev_o (head l) p' lk) p' l q.
Proof.
  destruct l as [|x l]; [done|]. intros [Hx Hl]%NoDup_cons [Hlx Hs]. simpl.
  split; [by rw set_prev_eq Hlx|]. eapply dseg_frame, Hs.
  intros y Hy. apply set_prev_ne. intros ->. done.
Qed.
End dseg.

(** The parts of a represented list around one of its entries. *)
Lemma rep_split h lk l1 x l2 :
  rep h lk (l1 ++ x :: l2) ->
  NoDup (l1 ++ x :: l2) /\ (x ∉ l1) /\ (x ∉ l2) /\ NoDup l1 /\ NoDup l2 /\
  (forall y, y ∈ l1 -> y ∉ l2) /\
  dseg lk None l1 (Some x) /\ lk x = Link (head l2) (last l1) /\ dseg lk (Some x) l2 None.
Proof.
  intros [Hnd _ _ Hs]. pose proof Hnd as (Hl1 & Hdis & [Hx2 Hl2]%NoDup_cons)%NoDup_app.
  apply dseg_app in Hs as [Hs1 [Hx Hs2]]. split_and!; try done.
  - set_solver.
  - set_solver.
  - rw Hx. by destruct l2, (last l1).
Qed.

Lemma last_app_orelse (l1 l2 : list nat) : last (l1 ++ l2) = orelse (last l2) (last l1).
Proof. rw last_app. by destruct (last l2). Qed.

Lemma head_app_orelse (l1 l2 : list nat) : head (l1 ++ l2) = orelse (head l1) (head l2).
Proof. by destruct l1. Qed.

Lemma orelse_None_r o : orelse o None = o.
Proof. by destruct o. Qed.

Lemma head_last_cases (l : list nat) :
  (l = [] /\ head l = None /\ last l = None) \/
  exists a b, head l = Some a /\ last l = Some b /\ a ∈ l /\ b ∈ l.
Proof.
  destruct l as [|a l]; [by left|right]. destruct (last (a :: l)) as [b|] eqn:Hb.
  - exists a, b. split_and!; try done; [set_solver|by apply last_Some_elem_of].
  - by apply last_None in Hb.
Qed.

(** Case analysis on whether the part of the list on one side of an entry is
    empty; reading a link field through updates of other objects. *)
Ltac ends l :=
  let Ha := fresh "Ha" in let Hb := fresh "Hb" in
  destruct (head_last_cases l) as [(-> & _ & _)|(? & ? & Ha & Hb & ? & ?)];
    [|rewrite ->?Ha, ?Hb in *]; simpl in *.
Ltac links :=
  repeat first
    [ progress simpl
    | rewrite ->set_next_eq | rewrite ->set_prev_eq | rewrite ->fn_lookup_insert
    | rewrite ->fn_lookup_insert_ne by congruence
    | rewrite ->set_next_ne by (first [congruence | intros ?; subst; done])
    | rewrite ->set_prev_ne by (first [congruence | intros ?; subst; done]) ].

Lemma rep_remove h lk l1 x l2 :
  rep h lk (l1 ++ x :: l2) ->
  rep (Header (orelse (head l1) (head l2)) (orelse (last l2) (last l1)))
      (set_prev_o (head l2) (last l1) (set_next_o (last l1) (head l2) lk)) (l1 ++ l2).
Proof.
  intros (Hnd & Hx1 & Hx2 & Hn1 & Hn2 & Hdis & Hs1 & Hx & Hs2)%rep_split.
  split; simpl.
  - apply NoDup_app. split_and!; auto.
  - by rw head_app_orelse.
  - by rw last_app_orelse.
  - rw dseg_app !orelse_None_r. split.
    + eapply dseg_frame, dseg_relink_end; [|done|exact Hs1].
      intros y Hy. apply set_prev_o_frame. ends l2; naive_solver.
    + eapply dseg_relink_start; [done|]. eapply dseg_frame, Hs2.
      intros y Hy. apply set_next_o_frame. ends l1; naive_solver.
Qed.

Lemma DLIST_REM_ENTRY_eq h lk l1 x l2 :
  rep h lk (l1 ++ x :: l2) ->
  DLIST_REM_ENTRY x h lk =
    (Header (orelse (head l1) (head l2)) (orelse (last l2) (last l1)),
     set_prev_o (head l2) (last l1) (set_next_o (last l1) (head l2) lk)).
Proof.
  intros Hr. pose proof (rep_split _ _ _ _ _ Hr) as (_ & Hx1 & Hx2 & _ & _ & _ & _ & Hx & _).
  destruct Hr as [_ Hh Ht _]. rw head_app_orelse in Hh. rw last_app_orelse last_cons in Ht.
  rw /DLIST_REM_ENTRY Hx /=.
  destruct h as [hh ht]; ends l1; ends l2; subst; links; by rw Hx.
Qed.

(** The links after entry [x] is put between [l1] and [l2]. *)
Lemma rep_insert h lk lk' l1 x l2 :
  rep h lk (l1 ++ l2) -> x ∉ l1 ++ l2 ->
  (forall y, lk' y = set_prev_o (head l2) (Some x) (set_next_o (last l1) (Some x)
                       (<[x := Link (head l2) (last l1)]> lk)) y) ->
  rep (Header (orelse (head l1) (Some x)) (orelse (last l2) (Some x))) lk' (l1 ++ x :: l2).
Proof.
  intros [(Hn1 & Hdis & Hn2)%NoDup_app _ _ [Hs1 Hs2]%dseg_app] Hx Hlk'.
  rw orelse_None_r in Hs1. rw orelse_None_r in Hs2. rw elem_of_app in Hx.
  assert (forall y, y ∈ l2 -> last l1 <> Some y) as Hd1 by (intros; ends l1; naive_solver).
  assert (forall y, y ∈ l1 -> head l2 <> Some y) as Hd2 by (intros; ends l2; naive_solver).
  assert (last l1 <> Some x) by (ends l1; naive_solver).
  assert (head l2 <> Some x) by (ends l2; naive_solver).
  split; simpl.
  - apply NoDup_app. split_and!; [done|set_solver|apply NoDup_cons; set_solver].
  - by rw head_app_orelse.
  - rw last_app_orelse last_cons. by destruct (last l2).
  - eapply dseg_frame; [intros; apply Hlk'|]. apply dseg_app; split; simpl.
    + eapply dseg_frame, dseg_relink_end; [|done|eapply dseg_frame, Hs1]; intros y Hy.
      * by apply set_prev_o_frame, Hd2.
      * apply fn_lookup_insert_ne. set_solver.
    + split.
      * rewrite ->set_prev_o_frame, set_next_o_frame, fn_lookup_insert by done.
        by destruct l2, (last l1).
      * eapply dseg_relink_start; [done|]. eapply dseg_frame, Hs2. intros y Hy.
        rewrite ->set_next_o_frame by (by apply Hd1). apply fn_lookup_insert_ne. set_solver.
Qed.

(** ** Refinement: every macro implements its sequence operation *)
Inductive op : Type :=
| AddHead (x : nat) | AddTail (x : nat) | RemHead | RemTail
| InsertAfter (p x : nat) | InsertBefore (n x : nat) | RemEntry (x : nat).

Definition run (o : op) (st : header * links) : outcome (header * links) :=
  let '(h, lk) := st in
  match o with
  | AddHead x => Ok (DLIST_ADD_HEAD x h lk)
  | AddTail x => Ok (DLIST_ADD_TAIL x h lk)
  | RemHead => DLIST_REM_HEAD h lk
  | RemTail => DLIST_REM_TAIL h lk
  | InsertAfter p x => Ok (DLIST_INSERT_AFTER p x h lk)
  | InsertBefore n x => Ok (DLIST_INSERT_BEFORE n x h lk)
  | RemEntry x => Ok (DLIST_REM_ENTRY x h lk)
  end.

Definition spec (o : op) (l : list nat) : outcome (list nat) :=
  match o with
  | AddHead x => dl_add_head x l
  | AddTail x => dl_add_tail x l
  | RemHead => dl_rem_head l
  | RemTail => match last l with None => Fault | Some _ => Ok (removelast l) end
  | InsertAfter p x => dl_insert_after p x l
  | InsertBefore n x => dl_insert_before n x l
  | RemEntry x => dl_rem x l
  end.

(** What running a macro must leave behind: the new sequence, and the links
    of every object that is on neither sequence untouched. *)
Definition implements (l l' : list nat) (lk : links) (r : outcome (header * links)) : Prop :=
  exists h' lk', r = Ok (h', lk') /\ rep h' lk' l' /\
    (forall y, y ∉ l -> y ∉ l' -> lk' y = lk y).

Lemma frame_links (l : list nat) (y : nat) lk lk1 a b v w :
  y ∉ l -> (forall z, a = Some z -> z ∈ l) -> (forall z, b = Some z -> z ∈ l) ->
  lk1 y = lk y -> set_prev_o a v (set_next_o b w lk1) y = lk y.
Proof. intros Hy Ha Hb H. rewrite ->set_prev_o_frame, set_next_o_frame by naive_solver. done. Qed.

Lemma head_elem (l : list nat) z : head l = Some z -> z ∈ l.
Proof. destruct l; simpl; [done|]. intros [= ->]. set_solver. Qed.

Lemma insert_implements h lk h' lk' l1 x l2 :
  rep h lk (l1 ++ l2) -> x ∉ l1 ++ l2 ->
  h' = Header (orelse (head l1) (Some x)) (orelse (last l2) (Some x)) ->
  (forall y, lk' y = set_prev_o (head l2) (Some x) (set_next_o (last l1) (Some x)
                       (<[x := Link (head l2) (last l1)]> lk)) y) ->
  implements (l1 ++ l2) (l1 ++ x :: l2) lk (Ok (h', lk')).
Proof.
  intros Hr Hx -> Hlk. exists (Header (orelse (head l1) (Some x)) (orelse (last l2) (Some x))), lk'.
  split_and!; [done|by eapply rep_insert; eauto|]. intros y Hy Hy'. rw Hlk.
  apply (frame_links (l1 ++ l2)); [done|..].
  - intros z Hz%head_elem. set_solver.
  - intros z Hz%last_Some_elem_of. set_solver.
  - apply fn_lookup_insert_ne. set_solver.
Qed.

Lemma remove_implements h lk l1 x l2 :
  rep h lk (l1 ++ x :: l2) ->
  implements (l1 ++ x :: l2) (l1 ++ l2) lk (Ok (DLIST_REM_ENTRY x h lk)).
Proof.
  intros Hr. rw (DLIST_REM_ENTRY_eq _ _ _ _ _ Hr). do 2 eexists. split_and!; [done|by eapply rep_remove; eauto|].
  intros y Hy Hy'. apply (frame_links (l1 ++ l2)); [done|..|done].
  - intros z Hz%head_elem. set_solver.
  - intros z Hz%last_Some_elem_of. set_solver.
Qed.

Lemma REM_HEAD_entry h lk x l :
  rep h lk (x :: l) -> DLIST_REM_HEAD h lk = Ok (DLIST_REM_ENTRY x h lk).
Proof.
  intros Hr. pose proof (DLIST_REM_ENTRY_eq h lk [] x l Hr) as ->.
  pose proof (rep_split h lk [] x l Hr) as (_ & _ & _ & _ & _ & _ & _ & Hx & _).
  destruct Hr as [_ Hh Ht _], h as [hh ht]. rw last_cons in Ht.
  ends l; subst; rw /DLIST_REM_HEAD /= Hx //=.
Qed.

Lemma REM_TAIL_entry h lk l x :
  rep h lk (l ++ [x]) -> DLIST_REM_TAIL h lk = Ok (DLIST_REM_ENTRY x h lk).
Proof.
  intros Hr. pose proof (DLIST_REM_ENTRY_eq h lk l x [] Hr) as ->.
  pose proof (rep_split h lk l x [] Hr) as (_ & _ & _ & _ & _ & _ & _ & Hx & _).
  destruct Hr as [_ Hh Ht _], h as [hh ht]. rw last_snoc in Ht. rw head_app_orelse in Hh.
  ends l; subst; rw /DLIST_REM_TAIL /= Hx //=.
Qed.

(** The values the insertion macros leave in the links, read back. *)
Ltac read_links :=
  links;
  repeat (match goal with
  | |- context [set_next ?a _ _ ?y] =>
      destruct (decide (y = a)) as [->|?]; [rewrite ->set_next_eq|rewrite ->set_next_ne by done]
  | |- context [set_prev ?a _ _ ?y] =>
      destruct (decide (y = a)) as [->|?]; [rewrite ->set_prev_eq|rewrite ->set_prev_ne by done]
  | |- context [(<[?a := _]> _) ?y] =>
      destruct (decide (y = a)) as [->|?]; [rewrite ->fn_lookup_insert|rewrite ->fn_lookup_insert_ne by congruence]
  end; links); try congruence; try done.
Ltac relink := intros ?; read_links.

Lemma add_head_implements h lk x l :
  rep h lk l -> x ∉ l -> implements l (x :: l) lk (Ok (DLIST_ADD_HEAD x h lk)).
Proof.
  intros Hr Hx. destruct (DLIST_ADD_HEAD x h lk) as [h' lk'] eqn:E.
  apply (insert_implements h lk h' lk' [] x l Hr Hx); destruct Hr as [_ Hh Ht _], h as [hh ht];
    simpl in *; subst; rw /DLIST_ADD_HEAD /= in E; ends l; simplify_eq; try done; relink.
Qed.

Lemma add_tail_implements h lk x l :
  rep h lk l -> x ∉ l -> implements l (l ++ [x]) lk (Ok (DLIST_ADD_TAIL x h lk)).
Proof.
  intros Hr Hx. destruct (DLIST_ADD_TAIL x h lk) as [h' lk'] eqn:E. rw -{1}(app_nil_r l).
  apply (insert_implements h lk h' lk' l x []); rw ?app_nil_r //;
    destruct Hr as [_ Hh Ht _], h as [hh ht];
    simpl in *; subst; rw /DLIST_ADD_TAIL /= in E; ends l; simplify_eq; try done; relink.
Qed.

Lemma insert_after_implements h lk l1 p x l2 :
  rep h lk (l1 ++ p :: l2) -> x ∉ l1 ++ p :: l2 ->
  implements (l1 ++ p :: l2) (l1 ++ p :: x :: l2) lk (Ok (DLIST_INSERT_AFTER p x h lk)).
Proof.
  intros Hr Hx. destruct (DLIST_INSERT_AFTER p x h lk) as [h' lk'] eqn:E.
  pose proof (rep_split _ _ _ _ _ Hr) as (_ & Hp1 & Hp2 & _ & _ & _ & _ & Hp & _).
  rw (app_assoc l1 [p] l2) (app_assoc l1 [p] (x :: l2)).
  apply (insert_implements h lk h' lk' (l1 ++ [p]) x l2); rw -?app_assoc //;
    rw ?last_snoc ?head_app_orelse; destruct Hr as [_ Hh Ht _], h as [hh ht];
    rw last_app last_cons in Ht; rw head_app_orelse in Hh; simpl in *; subst;
    rw /DLIST_INSERT_AFTER in E; assert (p <> x) by set_solver; revert E; links; rw Hp; ends l2;
    intros E; simplify_eq/=; try done; try (by destruct (head l1)); relink.
Qed.

Lemma insert_before_implements h lk l1 n x l2 :
  rep h lk (l1 ++ n :: l2) -> x ∉ l1 ++ n :: l2 ->
  implements (l1 ++ n :: l2) (l1 ++ x :: n :: l2) lk (Ok (DLIST_INSERT_BEFORE n x h lk)).
Proof.
  intros Hr Hx. destruct (DLIST_INSERT_BEFORE n x h lk) as [h' lk'] eqn:E.
  pose proof (rep_split _ _ _ _ _ Hr) as (_ & Hp1 & Hp2 & _ & _ & _ & _ & Hp & _).
  apply (insert_implements h lk h' lk' l1 x (n :: l2) Hr Hx);
    destruct Hr as [_ Hh Ht _], h as [hh ht];
    rw last_app last_cons in Ht; rw head_app_orelse in Hh; simpl in *; subst;
    rw /DLIST_INSERT_BEFORE in E; assert (n <> x) by set_solver; revert E; links; rw Hp; ends l1;
    intros E; simplify_eq/=; try done; try (by rw last_cons; destruct (last l2)); relink.
Qed.

Lemma op_implements (o : op) h lk l l' :
  rep h lk l -> spec o l = Ok l' -> implements l l' lk (run o (h, lk)).
Proof.
  intros Hr Hs. destruct o as [x|x| | |p x|n x|x]; simpl in *.
  - rw /dl_add_head in Hs. case_decide; simplify_eq. by apply add_head_implements.
  - rw /dl_add_tail in Hs. case_decide; simplify_eq. by apply add_tail_implements.
  - destruct l as [|x l]; simplify_eq/=. rw (REM_HEAD_entry _ _ _ _ Hr).
    by apply (remove_implements h lk [] x l').
  - destruct l as [|x l _] using rev_ind; [done|]. rw last_snoc removelast_last in Hs. simplify_eq.
    rw -{2}(app_nil_r l').
    rw (REM_TAIL_entry _ _ _ _ Hr). by apply remove_implements.
  - rw /dl_insert_after in Hs. case_decide as Hd; simplify_eq. destruct Hd as [(l1 & l2 & -> & ?)%elem_split ?].
    rw list_insert_after_app //. by apply insert_after_implements.
  - rw /dl_insert_before in Hs. case_decide as Hd; simplify_eq. destruct Hd as [(l1 & l2 & -> & ?)%elem_split ?].
    rw list_insert_before_app //. by apply insert_before_implements.
  - rw /dl_rem in Hs. case_decide as Hd; simplify_eq. apply elem_split in Hd as (l1 & l2 & -> & ?).
    rw list_remove1_app //. by apply remove_implements.
Qed.

(** *** Sequences of macros, and the loops that traverse the result *)
Fixpoint run_all (os : list op) (st : header * links) : outcome (header * links) :=
  match os with [] => Ok st | o :: os' => st' ← run o st; run_all os' st' end.
Fixpoint spec_all (os : list op) (l : list nat) : outcome (list nat) :=
  match os with [] => Ok l | o :: os' => l' ← spec o l; spec_all os' l' end.

(** Removing an entry that is not on the list, but has neighbours there. *)
Lemma dseg_entry lk l1 x l2 : dseg lk None (l1 ++ x :: l2) None -> lk x = Link (head l2) (last l1).
Proof. intros [_ [Hx _]]%dseg_app. rw Hx orelse_None_r. by destruct l2. Qed.
Lemma REM_ENTRY_stale x h lk l :
  rep h lk l -> x ∉ l -> dl_adjacent (prev (lk x), next (lk x)) l -> exists lk', DLIST_REM_ENTRY x h lk = (h, lk') /\ rep h lk' l /\ forall y, lk' y = lk y.
Proof.
  intros Hr Hx Ha. pose proof Hr as [Hn Hh Ht Hs]. rw /DLIST_REM_ENTRY. destruct h as [hd0 tl0]. simpl in *.
  assert (forall lk', (forall y, lk' y = lk y) -> rep (Header hd0 tl0) lk' l) as Hframe.
  { intros lk' E. split; try done. eapply dseg_frame; [|exact Hs]. intros y _. apply E. }
  assert (forall k y n, (forall z, k z = lk z) -> next (lk y) = n -> forall z, set_next y n k z = lk z) as Hsn.
  { intros k y n E En z. rw /set_next /insert /fn_insert. case_decide; [|done]. subst z. rw E -En. by destruct (lk y). }
  assert (forall k y p, (forall z, k z = lk z) -> prev (lk y) = p -> forall z, set_prev y p k z = lk z) as Hsp.
  { intros k y p E En z. rw /set_prev /insert /fn_insert. case_decide; [|done]. subst z. rw E -En. by destruct (lk y). }
  destruct (prev (lk x)) as [y|] eqn:Ep.
  - destruct Ha as [Hy Hny]. apply elem_split in Hy as (l1 & l2 & -> & Hy1). rw dl_next_app // in Hny. pose proof (dseg_entry lk l1 y l2 Hs) as Ey.
    assert (forall z, set_next y (next (lk x)) lk z = lk z) as E1. { apply Hsn; [done|]. by rw Ey. } rw E1 Ep.
    destruct (next (lk x)) as [z|] eqn:En.
    + destruct l2 as [|z' l2]; [done|]. injection Hny as ->. eexists. split; [done|]. assert (forall w, set_prev z (Some y) (set_next y (Some z) lk) w = lk w) as E2.
      { apply Hsp; [done|]. change (l1 ++ y :: z :: l2) with (l1 ++ [y] ++ z :: l2) in Hs. rw app_assoc in Hs. by rw (dseg_entry _ _ _ _ Hs) last_snoc. }
      by split; [apply Hframe|].
    + destruct l2; [|done]. eexists. split; [|by split; [apply Hframe|]]. rw last_snoc in Ht. by rw Ht.
  - rw Ep. destruct (next (lk x)) as [z|] eqn:En.
    + destruct l as [|z' l]; [done|]. injection Ha as ->. eexists. split; [by rw Hh|]. assert (forall w, set_prev z None lk w = lk w) as E2.
      { apply Hsp; [done|]. by rw (dseg_entry lk [] z l Hs). }
      by split; [apply Hframe|].
    + destruct l; [|done]. exists lk. simpl in Hh, Ht. subst. done.
Qed.

(** [for (x = DLIST_HEAD(h); x != NULL; x = DLIST_NEXT(x))] and its mirror
    image, [fuel] objects at most. *)
Fixpoint walk (step : nat -> links -> option nat) (fuel : nat) (lk : links) (o : option nat) : list nat :=
  match fuel, o with
  | S f, Some x => x :: walk step f lk (step x lk)
  | _, _ => []
  end.

Lemma walk_next lk p l n : dseg lk p l None -> length l <= n -> walk DLIST_NEXT n lk (head l) = l.
Proof.
  revert p n. induction l as [|x l IH]; intros p n; [by destruct n|].
  intros [Hx Hs] Hn. destruct n as [|n]; simpl in *; [lia|].
  rw /DLIST_NEXT Hx /=. f_equal. destruct l as [|y l]; [by destruct n|]. eapply (IH _ n Hs). simpl in *. lia.
Qed.

Lemma walk_prev lk l q n :
  dseg lk None l q -> length l <= n -> walk DLIST_PREV n lk (last l) = reverse l.
Proof.
  revert q n. induction l as [|x l IH] using rev_ind; intros q n; [by destruct n|].
  intros [Hs [Hx _]]%dseg_app Hn. rw length_app /= in Hn. destruct n as [|n]; [lia|].
  rw last_snoc reverse_snoc /= /DLIST_PREV Hx /=. f_equal. rw orelse_None_r.
  eapply IH; [exact Hs|lia].
Qed.

(** C13: after any sequence of DLIST macros whose sequence operations are all
    defined, starting from links that represent [l], the links represent the
    resulting sequence: traversing from the head by DLIST_NEXT visits exactly
    its objects in order and stops at NULL, and from the tail by DLIST_PREV
    in the reverse order. *)
Theorem dlist_refines (os : list op) h lk l l' :
  rep h lk l -> spec_all os l = Ok l' ->
  exists h' lk', run_all os (h, lk) = Ok (h', lk') /\ rep h' lk' l' /\
    forall n, length l' <= n ->
      walk DLIST_NEXT n lk' (DLIST_HEAD h') = l' /\
      walk DLIST_PREV n lk' (DLIST_TAIL h') = reverse l'.
Proof.
  revert h lk l. induction os as [|o os IH]; intros h lk l Hr; cbn [run_all spec_all].
  - intros [= ->]. exists h, lk. split_and!; [done..|]. intros n Hn. destruct Hr as [_ Hh Ht Hs].
    rw /DLIST_HEAD /DLIST_TAIL Hh Ht. split; [eapply walk_next; eauto|eapply walk_prev; eauto].
  - destruct (spec o l) as [l1| |] eqn:Ho; [|done..]. intros Hs.
    destruct (op_implements o h lk l l1 Hr Ho) as (h1 & lk1 & Hrun & Hr1 & _).
    rw /mbind /outcome_bind Hrun. eapply IH; eauto.
Qed.

Lemma dlist_refines_witness :
  exists h' lk',
    run_all [AddTail 1; AddHead 2; InsertAfter 2 3; RemEntry 1; InsertBefore 2 1; RemHead]
      (DLIST_INIT, fun _ => Link None None) = Ok (h', lk') /\ rep h' lk' [2; 3] /\
    forall n, 2 <= n -> walk DLIST_NEXT n lk' (DLIST_HEAD h') = [2; 3] /\
      walk DLIST_PREV n lk' (DLIST_TAIL h') = [3; 2].
Proof.
  apply (dlist_refines _ _ _ [] [2; 3]); [|reflexivity].
  split; [constructor|reflexivity|reflexivity|exact I].
Defined.
End DLIST.

(** ** CIRCLEQ: a ring with a pointer to its current head *)
Module CIRCLEQ.
Import DLIST.

(** The header is the head pointer; the sequence is read from it. *)
Definition CIRCLEQ_INIT : option nat := None.
Definition CIRCLEQ_HEAD (h : option nat) : option nat := h.

Definition CIRCLEQ_FORWARD (h : option nat) (lk : links) : outcome (option nat) :=
  match h with None => Fault | Some x => Ok (next (lk x)) end.

Definition CIRCLEQ_ADD_TAIL (x : nat) (h : option nat) (lk : links) : outcome (option nat * links) :=
  match h with
  | Some y =>
    let lk := set_next x (Some y) lk in
    let lk := set_prev x (prev (lk y)) lk in
    let lk := set_prev y (Some x) lk in
    match prev (lk x) with
    | Some z => Ok (h, set_next z (Some x) lk)
    | None => Fault
    end
  | None => Ok (Some x, set_prev x (Some x) (set_next x (Some x) lk))
  end.

Definition CIRCLEQ_REM_ENTRY (x : nat) (h : option nat) (lk : links) : outcome (option nat * links) :=
  if decide (next (lk x) = Some x) then Ok (None, lk)
  else
    match next (lk x) with
    | None => Fault
    | Some n =>
      let lk := set_prev n (prev (lk x)) lk in
      match prev (lk x) with
      | None => Fault
      | Some p =>
        let lk := set_next p (next (lk x)) lk in
        Ok (if decide (h = Some x) then next (lk x) else h, lk)
      end
    end.

Definition CIRCLEQ_REM_HEAD (h : option nat) (lk : links) : outcome (option nat * links) :=
  match h with
  | None => Fault
  | Some x =>
    if decide (next (lk x) = Some x) then Ok (None, lk)
    else
      match next (lk x) with
      | None => Fault
      | Some n =>
        let lk := set_prev n (prev (lk x)) lk in
        match prev (lk x) with
        | None => Fault
        | Some p => let lk := set_next p (next (lk x)) lk in Ok (next (lk x), lk)
        end
      end
  end.

(** The ring [l], read from the head: the links close up at both ends. *)
Record ring (h : option nat) (lk : links) (l : list nat) : Prop := {
  ring_nodup : NoDup l;
  ring_head : h = head l;
  ring_seg : dseg lk (last l) l (head l) }.

Section ring.
Implicit Types (lk : links) (l : list nat).

Lemma dseg_rotate lk l1 l2 :
  dseg lk (last (l1 ++ l2)) (l1 ++ l2) (head (l1 ++ l2)) ->
  dseg lk (last (l2 ++ l1)) (l2 ++ l1) (head (l2 ++ l1)).
Proof.
  rw !dseg_app !head_app_orelse !last_app_orelse.
  ends l1; ends l2; naive_solver.
Qed.

(** Redirecting both ends of a segment. *)
Lemma dseg_relink lk p p' l q q' :
  NoDup l -> dseg lk p l q ->
  dseg (set_next_o (last l) q' (set_prev_o (head l) p' lk)) p' l q'.
Proof. intros Hl Hs. eapply dseg_relink_end; [done|]. eapply dseg_relink_start; eauto. Qed.

Lemma ring_entry h lk l1 x l2 :
  ring h lk (l1 ++ x :: l2) ->
  (x ∉ l2 ++ l1) /\ NoDup (l2 ++ l1) /\
  lk x = Link (orelse (head (l2 ++ l1)) (Some x)) (orelse (last (l2 ++ l1)) (Some x)) /\
  dseg lk (Some x) (l2 ++ l1) (Some x).
Proof.
  intros [Hnd _ Hs]. apply (dseg_rotate lk l1 (x :: l2)) in Hs.
  rw (Permutation_app_comm l1) /= in Hnd. apply NoDup_cons in Hnd as [Hx Hnd].
  simpl in Hs. rw last_cons in Hs. destruct Hs as [Hlx Hs]. split_and!; try done.
  rw Hlx. destruct (l2 ++ l1) as [|n m]; [done|]. simpl. by case_match.
Qed.

Lemma FORWARD_ring h lk x l :
  ring h lk (x :: l) -> exists h', CIRCLEQ_FORWARD h lk = Ok h' /\ ring h' lk (l ++ [x]).
Proof.
  intros Hr. pose proof (ring_entry h lk [] x l Hr) as (_ & _ & Hx & _). destruct Hr as [Hnd -> Hs].
  rw app_nil_r in Hx. exists (head (l ++ [x])). split.
  - rw /= Hx /= head_app_orelse. done.
  - split; [|done|by apply (dseg_rotate lk [x] l)]. rw Permutation_app_comm. done.
Qed.

Lemma ADD_TAIL_ring h lk x l :
  ring h lk l -> x ∉ l ->
  exists h' lk', CIRCLEQ_ADD_TAIL x h lk = Ok (h', lk') /\ ring h' lk' (l ++ [x]).
Proof.
  intros [Hnd -> Hs] Hx.
  assert (NoDup (l ++ [x])) as Hnd'.
  { apply NoDup_app. split_and!; [done|set_solver|apply NoDup_singleton]. }
  destruct l as [|y l]; simpl.
  - do 2 eexists. split; [done|]. split; [done..|]. simpl. split; [|done]. by links.
  - assert (y <> x) by set_solver. destruct Hs as [Hy Hs].
    destruct (last (y :: l)) as [z|] eqn:Hz; [|by apply last_None in Hz].
    assert (z <> x) by (apply last_Some_elem_of in Hz; intros ->; done).
    links. rw Hy /=. do 2 eexists. split; [done|]. split; [done|done|].
    change (y :: l ++ [x]) with ((y :: l) ++ [x]). rw last_snoc. apply dseg_app. split.
    + pose proof (dseg_relink lk (Some z) (Some x) (y :: l) (Some y) (Some x) Hnd (conj Hy Hs)) as Hd.
      rw Hz /= in Hd. eapply dseg_frame, Hd. intros w Hw.
      assert (w <> x) by (intros ->; done). read_links.
    + rw Hz /=. split; [|done]. by links.
Qed.

Lemma REM_ENTRY_ring h lk l1 x l2 :
  ring h lk (l1 ++ x :: l2) ->
  exists h' lk', CIRCLEQ_REM_ENTRY x h lk = Ok (h', lk') /\ ring h' lk' (l1 ++ l2).
Proof.
  intros Hr. pose proof (ring_entry _ _ _ _ _ Hr) as (Hx & Hnd & Hlx & Hs). destruct Hr as [Hnd0 -> _].
  rw /CIRCLEQ_REM_ENTRY Hlx /=.
  destruct (l2 ++ l1) as [|n m] eqn:Hm; simpl.
  - rw decide_True //. apply app_nil in Hm as [-> ->]. do 2 eexists. split; [done|]. split; [constructor|done..].
  - assert (n <> x) by set_solver. rewrite ->decide_False by congruence.
    destruct (last (n :: m)) as [p|] eqn:Hp; [|by apply last_None in Hp].
    assert (p <> x) by (apply last_Some_elem_of in Hp; intros ->; done).
    repeat (links; rewrite ->?Hlx; simpl).
    do 2 eexists. split; [done|]. split.
    + rw Permutation_app_comm Hm. done.
    + destruct l1 as [|y l1]; simpl.
      * rewrite ->decide_True by done. rw app_nil_r in Hm. by subst.
      * rewrite ->decide_False; [done|]. apply NoDup_cons in Hnd0 as [??]. set_solver.
    + apply dseg_rotate. rw Hm Hp /=.
      pose proof (dseg_relink lk (Some x) (Some p) (n :: m) (Some x) (Some n) Hnd Hs) as Hd.
      rw Hp /= in Hd. exact Hd.
Qed.

Lemma REM_HEAD_ring h lk x l :
  ring h lk (x :: l) ->
  exists h' lk', CIRCLEQ_REM_HEAD h lk = Ok (h', lk') /\ ring h' lk' l.
Proof.
  intros Hr. destruct (REM_ENTRY_ring h lk [] x l Hr) as (h' & lk' & He & Hr').
  destruct Hr as [_ -> _]. exists h', lk'. split; [|done].
  rw /CIRCLEQ_REM_HEAD /= -He /CIRCLEQ_REM_ENTRY /=. case_decide; [done|].
  destruct (next (lk x)); [|done]. case_match; [|done]. by rewrite ->decide_True by done.
Qed.
End ring.

Inductive op : Type := AddTail (x : nat) | RemEntry (x : nat) | RemHead | Forward.

Definition run (o : op) (st : option nat * links) : outcome (option nat * links) :=
  let '(h, lk) := st in
  match o with
  | AddTail x => CIRCLEQ_ADD_TAIL x h lk
  | RemEntry x => CIRCLEQ_REM_ENTRY x h lk
  | RemHead => CIRCLEQ_REM_HEAD h lk
  | Forward => h' ← CIRCLEQ_FORWARD h lk; Ok (h', lk)
  end.

(** The queue operations on sequences: a ring read from its head. *)
Definition spec (o : op) (l : list nat) : outcome (list nat) :=
  match o with
  | AddTail x => dl_add_tail x l
  | RemEntry x => dl_rem x l
  | RemHead => dl_rem_head l
  | Forward => cq_forward l
  end.

(** C14: on links that form the ring [l] read from its head, every CIRCLEQ
    macro the scheduler uses yields the ring of the sequence operation: tail
    insertion, removal of any entry or of the head, and rotation by one. *)
Theorem circleq_refines (o : op) h lk l l' :
  ring h lk l -> spec o l = Ok l' ->
  exists h' lk', run o (h, lk) = Ok (h', lk') /\ ring h' lk' l'.
Proof.
  intros Hr Hs. destruct o as [x|x| |]; simpl in *.
  - rw /dl_add_tail in Hs. case_decide; simplify_eq. by apply ADD_TAIL_ring.
  - rw /dl_rem in Hs. case_decide as Hd; simplify_eq. apply elem_split in Hd as (l1 & l2 & -> & ?).
    rw list_remove1_app //. by apply REM_ENTRY_ring.
  - destruct l as [|x l]; simplify_eq/=. eapply REM_HEAD_ring; eauto.
  - destruct l as [|x l]; simplify_eq/=. destruct (FORWARD_ring _ _ _ _ Hr) as (h' & -> & ?). eauto.
Qed.

Lemma circleq_refines_witness :
  exists h' lk', run (RemEntry 2) (Some 1, fun x => if decide (x = 1) then Link (Some 2) (Some 2) else Link (Some 1) (Some 1))
    = Ok (h', lk') /\ ring h' lk' [1].
Proof.
  apply (circleq_refines (RemEntry 2) _ _ [1; 2] [1]); [|reflexivity].
  split; [|reflexivity|vm_compute; tauto].
  apply NoDup_ListNoDup. repeat constructor; simpl; lia.
Defined.
End CIRCLEQ.
