(* ===== verification/MemRegion.v ===== *)
(** * MemRegion: address-space regions, vm/memregion.c

    An address space is a list of regions, sorted by address, that tile the
    user range; the free ones are also on a free list, and a hint caches the
    last region found. The files' regions come from one static table, whose
    unused entries are on a third list. *)

From S2P Require Import Prelude.
Local Open Scope Z_scope.
Local Open Scope kernel_scope.

(** ** What the board's headers provide

    <machine/cheviot_hal.h> and <sys/mman.h> give the layout of the user
    address range, the page size and the bits of the mapping flags. *)
Class Board := {
  PAGE_SIZE : Z;
  VM_USER_BASE : Z;
  VM_USER_CEILING : Z;
  MAP_FIXED : Z;
  page_size_pos : 0 < PAGE_SIZE;
  user_base_nonneg : 0 <= VM_USER_BASE;
  user_base_aligned : VM_USER_BASE mod PAGE_SIZE = 0;
  user_ceiling_aligned : VM_USER_CEILING mod PAGE_SIZE = 0;
  user_range : VM_USER_BASE < VM_USER_CEILING;
  user_ceiling_u32 : VM_USER_CEILING + PAGE_SIZE < 2 ^ 32 }.

(** The values of boards/raspberry_pi_1/include/kernel/board/arm.h. *)
Definition rpi1_board : Board.
Proof.
  refine {| PAGE_SIZE := 4096; VM_USER_BASE := 0x00400000; VM_USER_CEILING := 0x7F000000;
            MAP_FIXED := 16 |}; vm_compute; first [reflexivity | intros [=] | done].
Defined.

Module Types.
Inductive mrtype : Type := MR_TYPE_UNALLOCATED | MR_TYPE_FREE | MR_TYPE_ALLOC | MR_TYPE_PHYS.
#[export] Instance mrtype_eq_dec : EqDecision mrtype.
Proof. solve_decision. Defined.

(** [struct MemRegion], less its three list links. *)
Record MemRegion := mkMemRegion {
  base_addr : Z;
  ceiling_addr : Z;
  mr_as : option nat;
  mr_type : mrtype;
  mr_flags : Z;
  phys_base_addr : Z }.

(** The memory-region part of [struct AddressSpace]. *)
Record AddressSpace := mkAddressSpace {
  sorted_memregion_list : list nat;
  free_memregion_list : list nat;
  hint : option nat }.

(** The region table and its unused list, and the address spaces. *)
Record vm := mkVm {
  mr : nat -> MemRegion;
  unused_memregion_list : list nat;
  asp : nat -> AddressSpace }.
End Types.
Export Types.

Definition eta_MemRegion r := mkMemRegion (base_addr r) (ceiling_addr r) (mr_as r) (mr_type r) (mr_flags r) (phys_base_addr r).
#[export] Instance set_base_addr : Setter base_addr := ltac:(solve_setter eta_MemRegion).
#[export] Instance set_ceiling_addr : Setter ceiling_addr := ltac:(solve_setter eta_MemRegion).
#[export] Instance set_mr_as : Setter mr_as := ltac:(solve_setter eta_MemRegion).
#[export] Instance set_mr_type : Setter mr_type := ltac:(solve_setter eta_MemRegion).
#[export] Instance set_mr_flags : Setter mr_flags := ltac:(solve_setter eta_MemRegion).
#[export] Instance set_phys_base_addr : Setter phys_base_addr := ltac:(solve_setter eta_MemRegion).
Definition eta_AddressSpace a := mkAddressSpace (sorted_memregion_list a) (free_memregion_list a) (hint a).
#[export] Instance set_sorted : Setter sorted_memregion_list := ltac:(solve_setter eta_AddressSpace).
#[export] Instance set_free : Setter free_memregion_list := ltac:(solve_setter eta_AddressSpace).
#[export] Instance set_hint : Setter hint := ltac:(solve_setter eta_AddressSpace).
Definition eta_vm s := mkVm (mr s) (unused_memregion_list s) (asp s).
#[export] Instance set_mr : Setter mr := ltac:(solve_setter eta_vm).
#[export] Instance set_unused : Setter unused_memregion_list := ltac:(solve_setter eta_vm).
#[export] Instance set_asp : Setter asp := ltac:(solve_setter eta_vm).

Module Ops.
Section ops.
Context `{Board}.

(** [ALIGN_UP] and [ALIGN_DOWN] of include/kernel/vm.h, on 32-bit operands. *)
Definition ALIGN_UP (val alignment : Z) : Z := wrap32 (wrap32 (val + alignment - 1) / alignment * alignment).
Definition ALIGN_DOWN (val alignment : Z) : Z := val - val mod alignment.

(** *** State access *)
Definition upd_mr (x : nat) (f : MemRegion -> MemRegion) : M vm unit :=
  modify (fun s => s <| mr ::= fun t => <[x := f (t x)]> t |>).
Definition upd_as (a : nat) (f : AddressSpace -> AddressSpace) : M vm unit :=
  modify (fun s => s <| asp ::= fun t => <[a := f (t a)]> t |>).
Definition on_sorted (a : nat) (f : list nat -> outcome (list nat)) : M vm unit :=
  update (fun s => sorted_memregion_list (asp s a))
         (fun l s => s <| asp ::= fun t => <[a := (t a) <| sorted_memregion_list := l |>]> t |>) f.
Definition on_free (a : nat) (f : list nat -> outcome (list nat)) : M vm unit :=
  update (fun s => free_memregion_list (asp s a))
         (fun l s => s <| asp ::= fun t => <[a := (t a) <| free_memregion_list := l |>]> t |>) f.
Definition on_unused (f : list nat -> outcome (list nat)) : M vm unit :=
  update unused_memregion_list (fun l s => s <| unused_memregion_list := l |>) f.

Definition covers (r : MemRegion) (addr : Z) : bool := (base_addr r <=? addr) && (addr <? ceiling_addr r).

(** [while (mr != NULL) { if covers break; mr = DLIST_NEXT(mr) }] *)
Fixpoint find_covering (t : nat -> MemRegion) (l : list nat) (addr : Z) : option nat :=
  match l with
  | [] => None
  | x :: l' => if covers (t x) addr then Some x else find_covering t l' addr
  end.

Definition memregion_find (list_of : AddressSpace -> list nat) (a : nat) (addr : Z) : M vm (option nat) :=
  s ← gets id;
  let search :=
    match find_covering (mr s) (list_of (asp s a)) addr with
    | Some x => _ ← upd_as a (fun b => b <| hint := Some x |>); mret (Some x)
    | None => mret None
    end in
  match hint (asp s a) with
  | Some h => if covers (mr s h) addr then mret (Some h) else search
  | None => search
  end.
Definition memregion_find_free := memregion_find free_memregion_list.
Definition memregion_find_sorted := memregion_find sorted_memregion_list.

(** The first-fit search of [memregion_create]: the region and the address. *)
Fixpoint first_fit (t : nat -> MemRegion) (l : list nat) (size : Z) : option (nat * Z) :=
  match l with
  | [] => None
  | x :: l' =>
    let aligned := ALIGN_UP (base_addr (t x)) PAGE_SIZE in
    if bool_decide (mr_type (t x) = MR_TYPE_FREE) && (base_addr (t x) <=? aligned)
       && (aligned <? ceiling_addr (t x)) && (size <=? ceiling_addr (t x) - aligned)
    then Some (x, aligned)
    else first_fit t l' size
  end.

(** The region to carve from, and the address to carve at. *)
Definition create_choose (a : nat) (addr size flags : Z) : M vm (option (nat * Z)) :=
  if has flags MAP_FIXED then
    o ← memregion_find_free a addr;
    match o with
    | None => mret None
    | Some x =>
      r ← gets (fun s => mr s x);
      mret (if (ceiling_addr r <? wrap32 (addr + size)) || negb (bool_decide (mr_type r = MR_TYPE_FREE))
            then None else Some (x, addr))
    end
  else gets (fun s => first_fit (mr s) (free_memregion_list (asp s a)) size).

(** [DLIST_HEAD] then [DLIST_REM_HEAD] of the unused list, or NULL. *)
Definition alloc_memregion : M vm (option nat) :=
  l ← gets unused_memregion_list;
  match l with
  | [] => mret None
  | x :: _ => _ ← on_unused dl_rem_head; mret (Some x)
  end.

(** Carving [addr, addr+size) out of the free region [x], with [mrbase] and
    [mrtail] available for the parts below and above. *)
Definition create_carve (a x mrbase mrtail : nat) (addr size flags : Z) (type : mrtype) : M vm unit :=
  r ← gets (fun s => mr s x);
  _ ← (if base_addr r <? addr then
         _ ← on_free a (dl_add_head mrbase);
         _ ← on_sorted a (dl_insert_before x mrbase);
         upd_mr mrbase (fun m => m <| base_addr := base_addr r |> <| ceiling_addr := addr |>
                                   <| mr_as := Some a |> <| mr_type := MR_TYPE_FREE |> <| mr_flags := 0 |>)
       else on_unused (dl_add_head mrbase));
  _ ← (if wrap32 (addr + size) <? ceiling_addr r then
         _ ← on_free a (dl_add_head mrtail);
         _ ← on_sorted a (dl_insert_after x mrtail);
         _ ← upd_mr mrtail (fun m => m <| base_addr := wrap32 (addr + size) |>
                                       <| ceiling_addr := ceiling_addr r |>);
         _ ← upd_mr mrbase (fun m => m <| mr_as := Some a |>);
         upd_mr mrtail (fun m => m <| mr_type := MR_TYPE_FREE |> <| mr_flags := 0 |>)
       else on_unused (dl_add_head mrtail));
  _ ← on_free a (dl_rem x);
  upd_mr x (fun m => m <| base_addr := addr |> <| ceiling_addr := wrap32 (addr + size) |>
                       <| mr_as := Some a |> <| mr_type := type |> <| mr_flags := flags |>).

Definition memregion_create (a : nat) (addr size flags : Z) (type : mrtype) : M vm (option nat) :=
  c ← create_choose a addr size flags;
  match c with
  | None => mret None
  | Some (x, addr) =>
    b ← alloc_memregion;
    match b with
    | None => mret None
    | Some mrbase =>
      t ← alloc_memregion;
      match t with
      | None => _ ← on_unused (dl_add_head mrbase); mret None
      | Some mrtail => _ ← create_carve a x mrbase mrtail addr size flags type; mret (Some x)
      end
    end
  end.

Definition memregion_split (a : nat) (addr : Z) : M vm ret :=
  o ← memregion_find_sorted a addr;
  match o with
  | None => mret (RErr EINVAL)
  | Some x =>
    r ← gets (fun s => mr s x);
    if (addr =? base_addr r) || (addr =? ceiling_addr r) then mret (RVal 0)
    else
      l ← gets unused_memregion_list;
      match l with
      | [] => mret (RErr ENOMEM)
      | new_mr :: _ =>
        _ ← upd_as a (fun b => b <| hint := None |>);
        _ ← on_unused dl_rem_head;
        _ ← on_sorted a (dl_insert_after x new_mr);
        _ ← upd_mr new_mr (fun m => m <| base_addr := addr |> <| ceiling_addr := ceiling_addr r |>
                                       <| mr_type := mr_type r |> <| mr_flags := mr_flags r |>
                                       <| mr_as := Some a |>);
        _ ← (if bool_decide (mr_type r = MR_TYPE_FREE) then on_free a (dl_add_head new_mr) else mret tt);
        _ ← upd_mr new_mr (fun m => m <| phys_base_addr :=
              if bool_decide (mr_type r = MR_TYPE_PHYS)
              then wrap32 (phys_base_addr r + (addr - base_addr r)) else 0 |>);
        _ ← upd_mr x (fun m => m <| ceiling_addr := addr |>);
        mret (RVal 0)
      end
  end.

(** Destroy region [x] after its predecessor absorbed its range. *)
Definition absorb (a p x : nat) : M vm unit :=
  c ← gets (fun s => ceiling_addr (mr s x));
  _ ← upd_mr p (fun m => m <| ceiling_addr := c |>);
  _ ← upd_mr x (fun m => m <| mr_as := None |> <| mr_type := MR_TYPE_UNALLOCATED |>);
  _ ← on_sorted a (dl_rem x);
  on_unused (dl_add_head x).

Definition is_free (s : vm) (o : option nat) : option nat :=
  match o with
  | Some p => if bool_decide (mr_type (mr s p) = MR_TYPE_FREE) then Some p else None
  | None => None
  end.

(** One iteration of the loop of [memregion_free] on region [x]. *)
Definition free_one (a x : nat) (addr ceil : Z) : M vm unit :=
  s ← gets id;
  let r := mr s x in
  if (addr <=? base_addr r) && (ceiling_addr r <=? ceil) then
    match is_free s (dl_prev x (sorted_memregion_list (asp s a))) with
    | Some p => absorb a p x
    | None =>
      _ ← upd_mr x (fun m => m <| mr_type := MR_TYPE_FREE |> <| mr_flags := 0 |>);
      on_free a (dl_add_head x)
    end
  else mret tt.

(** [while (mr != NULL && mr->base_addr < addr + size)]; returns the region
    the loop stops at. [fuel] is one more than the length of the sorted list. *)
Fixpoint free_loop (fuel : nat) (a : nat) (o : option nat) (addr ceil : Z) : M vm (option nat) :=
  match fuel, o with
  | O, _ => fault
  | S f, None => mret None
  | S f, Some x =>
    s ← gets id;
    if base_addr (mr s x) <? ceil then
      let nxt := dl_next x (sorted_memregion_list (asp s a)) in
      _ ← free_one a x addr ceil;
      free_loop f a nxt addr ceil
    else mret (Some x)
  end.

Definition memregion_free (a : nat) (addr size : Z) : M vm ret :=
  let ceil := wrap32 (addr + size) in
  sc1 ← memregion_split a addr;
  sc2 ← memregion_split a ceil;
  if negb (bool_decide (sc1 = RVal 0)) || negb (bool_decide (sc2 = RVal 0)) then mret (RErr ENOMEM)
  else
    o ← memregion_find_sorted a addr;
    match o with
    | None => mret (RErr EINVAL)
    | Some x =>
      _ ← upd_as a (fun b => b <| hint := None |>);
      n ← gets (fun s => length (sorted_memregion_list (asp s a)));
      o ← free_loop (S n) a (Some x) addr ceil;
      match o with
      | None => mret (RVal 0)
      | Some y =>
        s ← gets id;
        _ ← (if bool_decide (mr_type (mr s y) = MR_TYPE_FREE) then
               match is_free s (dl_prev y (sorted_memregion_list (asp s a))) with
               | Some p => absorb a p y
               | None => mret tt
               end
             else mret tt);
        mret (RVal 0)
      end
    end.

Definition memregion_protect (a : nat) (addr size : Z) : M vm ret := mret (RVal 0).

Definition free_all_one (a x : nat) : M vm unit :=
  r ← gets (fun s => mr s x);
  _ ← (if bool_decide (mr_type r = MR_TYPE_FREE) then on_free a (dl_rem x) else mret tt);
  _ ← on_sorted a dl_rem_head;
  _ ← upd_mr x (fun m => m <| mr_as := None |> <| mr_type := MR_TYPE_UNALLOCATED |>);
  on_unused (dl_add_head x).

(** [while ((mr = DLIST_HEAD(sorted)) != NULL)]: each turn removes the head. *)
Fixpoint free_all_loop (fuel : nat) (a : nat) : M vm unit :=
  l ← gets (fun s => sorted_memregion_list (asp s a));
  match fuel, l with
  | _, [] => mret tt
  | O, _ => fault
  | S f, x :: _ => _ ← free_all_one a x; free_all_loop f a
  end.

Definition memregion_free_all (a : nat) : M vm unit :=
  n ← gets (fun s => length (sorted_memregion_list (asp s a)));
  _ ← free_all_loop n a;
  upd_as a (fun b => b <| hint := None |>).

Definition init_memregions (a : nat) : M vm ret :=
  _ ← upd_as a (fun _ => mkAddressSpace [] [] None);
  l ← gets unused_memregion_list;
  match l with
  | [] => mret (RErr ENOMEM)
  | x :: _ =>
    _ ← on_unused dl_rem_head;
    _ ← on_sorted a (dl_add_tail x);
    _ ← on_free a (dl_add_tail x);
    _ ← upd_mr x (fun m => m <| base_addr := VM_USER_BASE |> <| ceiling_addr := VM_USER_CEILING |>
                             <| mr_type := MR_TYPE_FREE |> <| mr_as := Some a |> <| mr_flags := 0 |>
                             <| phys_base_addr := 0 |>);
    mret (RVal 0)
  end.

(** The loop of [fork_memregions] over the old sorted list; [false] is the
    jump to [cleanup]. *)
Fixpoint fork_loop (new : nat) (l : list nat) : M vm bool :=
  match l with
  | [] => mret true
  | old_mr :: l' =>
    o ← alloc_memregion;
    match o with
    | None => mret false
    | Some new_mr =>
      _ ← on_sorted new (dl_add_tail new_mr);
      r ← gets (fun s => mr s old_mr);
      _ ← upd_mr new_mr (fun m => m <| base_addr := base_addr r |> <| ceiling_addr := ceiling_addr r |>
             <| mr_type := mr_type r |> <| mr_flags := mr_flags r |>
             <| phys_base_addr := phys_base_addr r |> <| mr_as := Some new |>);
      _ ← (if bool_decide (mr_type r = MR_TYPE_FREE) then on_free new (dl_add_tail new_mr) else mret tt);
      fork_loop new l'
    end
  end.

Definition fork_memregions (new old : nat) : M vm ret :=
  _ ← upd_as new (fun _ => mkAddressSpace [] [] None);
  l ← gets (fun s => sorted_memregion_list (asp s old));
  ok ← fork_loop new l;
  if (ok : bool) then mret (RVal 0)
  else _ ← memregion_free_all new; mret (RErr ENOMEM).
End ops.
End Ops.

