(* ===== verification/MemRegionInv.v ===== *)
(** * MemRegionInv: the invariant of vm/memregion.c and what its steps do

    The tiling of the user range by the sorted regions, the abstract address
    map, and the lemma every operation is an instance of: replacing some
    consecutive regions by others over the same range. *)

From S2P Require Import Prelude MemRegion.
Local Open Scope Z_scope.
Local Open Scope kernel_scope.

(** ** The invariant of an address space *)
Module Inv.
Import Ops.
Abbreviation sorted s a := (sorted_memregion_list (asp s a)).
Abbreviation free s a := (free_memregion_list (asp s a)).
Abbreviation FREE t := (fun x => mr_type (t x) = MR_TYPE_FREE).

Section inv.
Context `{Board}.
Implicit Types (t : nat -> MemRegion) (l : list nat) (s : vm) (a x y : nat).

(** The regions of [l] tile the range from [lo] to [hi] without gaps. *)
Fixpoint tiles t (lo : Z) l (hi : Z) : Prop :=
  match l with
  | [] => lo = hi
  | x :: l' => base_addr (t x) = lo /\ lo < ceiling_addr (t x) /\ tiles t (ceiling_addr (t x)) l' hi
  end.


(** Everything but the free list. *)
Record core s a : Prop := {
  inv_nodup : NoDup (sorted s a);
  inv_tiles : tiles (mr s) VM_USER_BASE (sorted s a) VM_USER_CEILING;
  inv_type : forall x, x ∈ sorted s a -> mr_type (mr s x) <> MR_TYPE_UNALLOCATED;
  inv_flags : forall x, x ∈ sorted s a -> mr_type (mr s x) = MR_TYPE_FREE -> mr_flags (mr s x) = 0;
  inv_hint : forall h, hint (asp s a) = Some h -> h ∈ sorted s a;
  inv_unused : NoDup (unused_memregion_list s);
  inv_disj : forall x, x ∈ unused_memregion_list s -> x ∉ sorted s a }.

(** The free list holds exactly the free regions. *)
Definition free_ok s a : Prop := free s a ≡ₚ filter (FREE (mr s)) (sorted s a).

Definition as_inv s a : Prop := core s a /\ free_ok s a.

(** The abstract address space: what is mapped at each address. *)
Definition view s a (addr : Z) : option (mrtype * Z) :=
  match find_covering (mr s) (sorted s a) addr with
  | Some x => Some (mr_type (mr s x), mr_flags (mr s x))
  | None => None
  end.

(** *** Tilings *)
Lemma covers_iff r addr : covers r addr = true <-> base_addr r <= addr < ceiling_addr r.
Proof. rw /covers andb_true_iff. lia. Qed.

Lemma tiles_app t lo l1 l2 hi :
  tiles t lo (l1 ++ l2) hi <-> exists mid, tiles t lo l1 mid /\ tiles t mid l2 hi.
Proof.
  revert lo. induction l1 as [|x l1 IH]; intros lo; simpl.
  - split; [eauto|]. by intros (mid & -> & ?).
  - rw IH. naive_solver.
Qed.

Lemma tiles_le t lo l hi : tiles t lo l hi -> lo <= hi.
Proof.
  revert lo. induction l as [|x l IH]; intros lo; simpl; [lia|].
  intros (? & ? & Ht%IH). lia.
Qed.

Lemma tiles_frame t t' lo l hi :
  (forall x, x ∈ l -> base_addr (t' x) = base_addr (t x) /\ ceiling_addr (t' x) = ceiling_addr (t x)) ->
  tiles t lo l hi -> tiles t' lo l hi.
Proof.
  revert lo. induction l as [|x l IH]; intros lo Hag; simpl; [done|].
  destruct (Hag x) as [-> ->]; [set_solver|]. intros (? & ? & ?). split_and!; [done..|].
  apply IH; [|done]. intros y Hy. apply Hag. set_solver.
Qed.

Lemma find_covering_frame t t' l addr :
  (forall x, x ∈ l -> base_addr (t' x) = base_addr (t x) /\ ceiling_addr (t' x) = ceiling_addr (t x)) ->
  find_covering t' l addr = find_covering t l addr.
Proof.
  induction l as [|x l IH]; intros Hag; simpl; [done|].
  rw IH; [intros y Hy; apply Hag; set_solver|]. rw /covers.
  by destruct (Hag x) as [-> ->]; [set_solver|].
Qed.

Lemma find_covering_Some t l addr x : find_covering t l addr = Some x -> x ∈ l /\ covers (t x) addr = true.
Proof.
  induction l as [|y l IH]; simpl; [done|]. case_match eqn:E; [intros [= ->]; set_solver|].
  intros [? ?]%IH. set_solver.
Qed.

(** Below the start of a tiling nothing covers; inside, something does. *)
Lemma find_covering_below t lo l hi addr :
  tiles t lo l hi -> addr < lo -> find_covering t l addr = None.
Proof.
  revert lo. induction l as [|x l IH]; intros lo; simpl; [done|]. intros (Hb & Hc & Ht) Ha.
  replace (covers (t x) addr) with false; [eapply IH; [exact Ht|lia]|].
  symmetry. apply not_true_is_false. rw covers_iff. lia.
Qed.

Lemma find_covering_above t lo l hi addr :
  tiles t lo l hi -> hi <= addr -> find_covering t l addr = None.
Proof.
  revert lo. induction l as [|x l IH]; intros lo; simpl; [done|]. intros (Hb & Hc & Ht) Ha.
  replace (covers (t x) addr) with false; [eapply IH; [exact Ht|lia]|].
  symmetry. apply not_true_is_false. rw covers_iff. apply tiles_le in Ht. lia.
Qed.

Lemma find_covering_app t lo l1 mid l2 hi addr :
  tiles t lo l1 mid -> tiles t mid l2 hi ->
  find_covering t (l1 ++ l2) addr =
    if decide (addr < mid) then find_covering t l1 addr else find_covering t l2 addr.
Proof.
  intros H1 H2. assert (find_covering t (l1 ++ l2) addr =
    match find_covering t l1 addr with Some x => Some x | None => find_covering t l2 addr end) as ->.
  { clear. induction l1 as [|x l1 IH]; simpl; [done|]. rw IH. by destruct (covers (t x) addr). }
  case_decide.
  - rw (find_covering_below _ _ _ _ _ H2) //. by destruct (find_covering t l1 addr).
  - rw (find_covering_above _ _ _ _ _ H1) //; lia.
Qed.

Lemma find_covering_split t lo l hi addr :
  tiles t lo l hi -> lo <= addr < hi ->
  exists l1 x l2, l = l1 ++ x :: l2 /\ base_addr (t x) <= addr < ceiling_addr (t x)
    /\ find_covering t l addr = Some x.
Proof.
  revert lo. induction l as [|x l IH]; intros lo; simpl; [lia|]. intros (Hb & Hc & Ht) Ha.
  destruct (covers (t x) addr) eqn:E.
  - apply covers_iff in E. exists [], x, l. done.
  - apply not_true_iff_false in E. rw covers_iff in E.
    destruct (IH _ Ht) as (l1 & y & l2 & -> & ? & ?); [lia|]. exists (x :: l1), y, l2. done.
Qed.

(** The tiling around one of its regions. *)
Lemma tiles_mid t lo l1 x l2 hi :
  tiles t lo (l1 ++ x :: l2) hi <->
  tiles t lo l1 (base_addr (t x)) /\ base_addr (t x) < ceiling_addr (t x) /\
  tiles t (ceiling_addr (t x)) l2 hi.
Proof. rw tiles_app /=. naive_solver. Qed.

Lemma tiles_bounds t lo l hi x :
  tiles t lo l hi -> x ∈ l -> lo <= base_addr (t x) /\ base_addr (t x) < ceiling_addr (t x) <= hi.
Proof.
  intros Ht (l1 & l2 & -> & _)%elem_split. apply tiles_mid in Ht as (H1%tiles_le & ? & H2%tiles_le). lia.
Qed.

(** The region of a tiling that covers an address is the one [find_covering]
    returns. *)
Lemma find_covering_unique t lo l1 x l2 hi addr :
  tiles t lo (l1 ++ x :: l2) hi -> base_addr (t x) <= addr < ceiling_addr (t x) ->
  find_covering t (l1 ++ x :: l2) addr = Some x.
Proof.
  intros Ht Ha. pose proof Ht as (H1 & Hx & H2)%tiles_mid.
  rw (find_covering_app _ lo l1 (base_addr (t x)) (x :: l2) hi) //.
  rewrite ->decide_False by lia. simpl. by rewrite ->(proj2 (covers_iff (t x) addr)) by done.
Qed.

(** *** What the primitive steps do *)
Lemma wp_on_sorted a f l Q s :
  f (sorted s a) = Ok l ->
  Q tt (s <| asp ::= fun m => <[a := (m a) <| sorted_memregion_list := l |>]> m |>) -> wp (on_sorted a f) Q s.
Proof. intros. eapply wp_update; eauto. Qed.
Lemma wp_on_free a f l Q s :
  f (free s a) = Ok l ->
  Q tt (s <| asp ::= fun m => <[a := (m a) <| free_memregion_list := l |>]> m |>) -> wp (on_free a f) Q s.
Proof. intros. eapply wp_update; eauto. Qed.
Lemma wp_on_unused f l Q s :
  f (unused_memregion_list s) = Ok l -> Q tt (s <| unused_memregion_list := l |>) -> wp (on_unused f) Q s.
Proof. intros. eapply wp_update; eauto. Qed.

Lemma wp_upd_mr x f Q s :
  Q tt (s <| mr ::= fun m => <[x := f (m x)]> m |>) -> wp (upd_mr x f) Q s.
Proof. done. Qed.
Lemma wp_upd_as a f Q s :
  Q tt (s <| asp ::= fun m => <[a := f (m a)]> m |>) -> wp (upd_as a f) Q s.
Proof. done. Qed.

Lemma dl_insert_before_ok p x l1 l2 :
  p ∉ l1 -> x ∉ l1 ++ p :: l2 -> dl_insert_before p x (l1 ++ p :: l2) = Ok (l1 ++ x :: p :: l2).
Proof. intros. rw /dl_insert_before decide_True; [set_solver|]. by rw list_insert_before_app. Qed.
Lemma dl_insert_after_ok p x l1 l2 :
  p ∉ l1 -> x ∉ l1 ++ p :: l2 -> dl_insert_after p x (l1 ++ p :: l2) = Ok (l1 ++ p :: x :: l2).
Proof. intros. rw /dl_insert_after decide_True; [set_solver|]. by rw list_insert_after_app. Qed.

End inv.

(** One primitive step of a region operation; list steps leave their side
    condition first. *)
Ltac vstep :=
  lazymatch goal with
  | |- wp (mbind _ _) _ _ => apply wp_bind
  | |- wp (mret _) _ _ => apply wp_ret
  | |- wp (gets _) _ _ => apply wp_gets
  | |- wp (upd_mr _ _) _ _ => apply wp_upd_mr
  | |- wp (upd_as _ _) _ _ => apply wp_upd_as
  | |- wp (on_sorted _ _) _ _ => eapply wp_on_sorted
  | |- wp (on_free _ _) _ _ => eapply wp_on_free
  | |- wp (on_unused _) _ _ => eapply wp_on_unused
  end.
Ltac vsteps tac := repeat first [vstep; [solve [reads; tac] | ] | vstep].

Section resplice.
Context `{Board}.
Implicit Types (t : nat -> MemRegion) (l : list nat) (s : vm) (a x y : nat).

(** [s'] is [s] with the regions [old] of address space [a] replaced by [new],
    and the free list changed to [fl] and the unused list to [ul]. *)
Record respliced s s' a l1 old new l2 fl ul : Prop := {
  rs_old : sorted s a = l1 ++ old ++ l2;
  rs_new : sorted s' a = l1 ++ new ++ l2;
  rs_free : free s' a ≡ₚ fl;
  rs_unused : unused_memregion_list s' = ul;
  rs_mr : forall y, y ∉ old -> y ∉ new -> y ∉ unused_memregion_list s -> mr s' y = mr s y;
  rs_as : forall b, b <> a -> asp s' b = asp s b }.

Definition view_of t l (addr : Z) : option (mrtype * Z) :=
  match find_covering t l addr with
  | Some x => Some (mr_type (t x), mr_flags (t x))
  | None => None
  end.

Lemma respliced_outside s s' a l1 old new l2 fl ul :
  core s a -> respliced s s' a l1 old new l2 fl ul ->
  (forall y, y ∈ new -> y ∈ old \/ y ∈ unused_memregion_list s) ->
  forall y, y ∈ l1 \/ y ∈ l2 -> (y ∉ new) /\ mr s' y = mr s y.
Proof.
  intros Hc Hr Hnew y Hy. pose proof (inv_nodup _ _ Hc) as Hnd. rw (rs_old _ _ _ _ _ _ _ _ _ Hr) in Hnd.
  apply NoDup_app in Hnd as (_ & Hd1 & (_ & Hd2 & _)%NoDup_app).
  assert (y ∉ unused_memregion_list s) as Hu.
  { intros Hu. apply (inv_disj _ _ Hc y Hu). rw (rs_old _ _ _ _ _ _ _ _ _ Hr). set_solver. }
  assert (y ∉ old) by set_solver. assert (y ∉ new) by naive_solver.
  split; [done|]. by apply (rs_mr _ _ _ _ _ _ _ _ _ Hr).
Qed.

Lemma respliced_core s s' a l1 old new l2 fl ul lo hi :
  core s a -> respliced s s' a l1 old new l2 fl ul -> old <> [] ->
  tiles (mr s) lo old hi -> tiles (mr s') lo new hi -> NoDup new ->
  (forall y, y ∈ new -> y ∈ old \/ y ∈ unused_memregion_list s) ->
  (forall y, y ∈ new -> mr_type (mr s' y) <> MR_TYPE_UNALLOCATED /\
                        (mr_type (mr s' y) = MR_TYPE_FREE -> mr_flags (mr s' y) = 0)) ->
  (forall h, hint (asp s' a) = Some h -> h ∈ l1 ++ new ++ l2) ->
  NoDup ul ->
  (forall y, y ∈ ul -> (y ∈ old \/ y ∈ unused_memregion_list s) /\ y ∉ new) ->
  core s' a /\ forall addr, view s' a addr =
    if decide (lo <= addr < hi) then view_of (mr s') new addr else view s a addr.
Proof.
  intros Hc Hr Hne Ht Ht' Hnn Hnew Hty Hh Hul Hulu.
  pose proof (respliced_outside _ _ _ _ _ _ _ _ _ Hc Hr Hnew) as Hout.
  destruct Hc as [Hnd Htiles Htype Hfl _ Hun Hdj]. destruct Hr as [Hso Hsn _ Hu Hm _].
  rw Hso in Hnd Htiles Htype Hfl Hdj. pose proof Htiles as (m1 & T1 & (m2 & T2 & T3)%tiles_app)%tiles_app.
  assert (m1 = lo /\ m2 = hi) as [-> ->].
  { destruct old as [|o old]; [done|]. destruct T2 as (<- & _ & T2), Ht as (<- & _ & Ht). split; [done|].
    clear -T2 Ht. revert T2 Ht. generalize (ceiling_addr (mr s o)).
    induction old as [|x old IH]; intros z; simpl; [congruence|]. naive_solver. }
  assert (tiles (mr s') VM_USER_BASE l1 lo) as T1'.
  { eapply tiles_frame, T1. intros x Hx. by destruct (Hout x) as [_ ->]; [left|]. }
  assert (tiles (mr s') hi l2 VM_USER_CEILING) as T3'.
  { eapply tiles_frame, T3. intros x Hx. by destruct (Hout x) as [_ ->]; [right|]. }
  assert (tiles (mr s') lo (new ++ l2) VM_USER_CEILING) as T23' by (apply tiles_app; eauto).
  assert (tiles (mr s) lo (old ++ l2) VM_USER_CEILING) as T23 by (apply tiles_app; eauto).
  apply NoDup_app in Hnd as (Hn1 & Hd1 & (Hno & Hd2 & Hn2)%NoDup_app).
  split; [split|]; rw ?Hsn ?Hu //.
  - apply NoDup_app; split_and!; [done| |apply NoDup_app; split_and!; [done| |done]]; set_solver.
  - apply tiles_app. eauto.
  - intros x. rw !elem_of_app. intros [Hx|[Hx|Hx]]; [|by apply Hty|].
    + destruct (Hout x) as [_ ->]; [by left|]. apply Htype. set_solver.
    + destruct (Hout x) as [_ ->]; [by right|]. apply Htype. set_solver.
  - intros x. rw !elem_of_app. intros [Hx|[Hx|Hx]]; [|by apply Hty|].
    + destruct (Hout x) as [_ ->]; [by left|]. apply Hfl. set_solver.
    + destruct (Hout x) as [_ ->]; [by right|]. apply Hfl. set_solver.
  - intros x [Hx Hxn]%Hulu. rw !elem_of_app. intros [Hx1|[?|Hx2]]; [|done|].
    + destruct Hx as [Hx|Hx]; [set_solver|]. apply (Hdj x Hx). set_solver.
    + destruct Hx as [Hx|Hx]; [set_solver|]. apply (Hdj x Hx). set_solver.
  - intros addr. rw /view Hsn Hso.
    rw (find_covering_app _ _ _ _ _ _ addr T1' T23') (find_covering_app _ _ _ _ _ _ addr T1 T23).
    rw (find_covering_app _ _ _ _ _ _ addr Ht' T3') (find_covering_app _ _ _ _ _ _ addr T2 T3).
    assert (forall l, (forall y, y ∈ l -> mr s' y = mr s y) ->
      match find_covering (mr s') l addr with Some x => Some (mr_type (mr s' x), mr_flags (mr s' x)) | None => None end =
      match find_covering (mr s) l addr with Some x => Some (mr_type (mr s x), mr_flags (mr s x)) | None => None end) as Hv.
    { intros l Hl. rw (find_covering_frame (mr s) (mr s')); [by intros x Hx; rw Hl|].
      destruct (find_covering (mr s) l addr) as [x|] eqn:E; [|done].
      apply find_covering_Some in E as [? _]. by rw Hl. }
    repeat case_decide; try lia; try done; apply Hv; naive_solver.
Qed.

Lemma respliced_free_ok s s' a l1 old new l2 fl ul :
  core s a -> free_ok s a -> respliced s s' a l1 old new l2 fl ul ->
  (forall y, y ∈ new -> y ∈ old \/ y ∈ unused_memregion_list s) ->
  fl ++ filter (FREE (mr s)) old ≡ₚ free s a ++ filter (FREE (mr s')) new ->
  free_ok s' a.
Proof.
  intros Hc Hf Hr Hnew Hp. pose proof (respliced_outside _ _ _ _ _ _ _ _ _ Hc Hr Hnew) as Hout.
  rw /free_ok (rs_free _ _ _ _ _ _ _ _ _ Hr) (rs_new _ _ _ _ _ _ _ _ _ Hr) !filter_app.
  assert (filter (FREE (mr s')) l1 = filter (FREE (mr s)) l1) as ->.
  { apply list_filter_ext. intros y Hy. by destruct (Hout y) as [_ ->]; [left|]. }
  assert (filter (FREE (mr s')) l2 = filter (FREE (mr s)) l2) as ->.
  { apply list_filter_ext. intros y Hy. by destruct (Hout y) as [_ ->]; [right|]. }
  rw /free_ok (rs_old _ _ _ _ _ _ _ _ _ Hr) !filter_app in Hf.
  apply (Permutation_app_inv_r (filter (FREE (mr s)) old)). rw Hp Hf. solve_Permutation.
Qed.

Definition opt_list (b : bool) (x : nat) : list nat := if b then [x] else [].

(** [create_carve] as a resplice of the free region it is given. *)
Lemma create_carve_spec s a x b (t : nat) addr size flags type l1 l2 ul :
  core s a -> free_ok s a -> sorted s a = l1 ++ x :: l2 -> unused_memregion_list s = b :: t :: ul ->
  mr_type (mr s x) = MR_TYPE_FREE ->
  0 < size -> base_addr (mr s x) <= addr -> addr + size <= ceiling_addr (mr s x) ->
  let s0 := s <| unused_memregion_list := ul |> in
  let kb := base_addr (mr s x) <? addr in
  let kt := addr + size <? ceiling_addr (mr s x) in
  exists s', create_carve a x b t addr size flags type s0 = Ok (tt, s') /\
    respliced s s' a l1 [x] (opt_list kb b ++ x :: opt_list kt t) l2
      (opt_list kt t ++ opt_list kb b ++ list_remove1 x (free s a))
      (opt_list (negb kt) t ++ opt_list (negb kb) b ++ ul) /\
    hint (asp s' a) = hint (asp s a) /\
    mr s' x = mkMemRegion addr (addr + size) (Some a) type flags (phys_base_addr (mr s x)) /\
    (kb = true -> base_addr (mr s' b) = base_addr (mr s x) /\ ceiling_addr (mr s' b) = addr /\
       mr_type (mr s' b) = MR_TYPE_FREE /\ mr_flags (mr s' b) = 0) /\
    (kt = true -> base_addr (mr s' t) = addr + size /\ ceiling_addr (mr s' t) = ceiling_addr (mr s x) /\
       mr_type (mr s' t) = MR_TYPE_FREE /\ mr_flags (mr s' t) = 0 /\ mr_as (mr s' t) = mr_as (mr s t)).
Proof.
  intros Hc Hf Hso Hun Hx Hsz Hb Ht s0 kb kt.
  assert (wrap32 (addr + size) = addr + size) as Hw.
  { apply wrap32_id. pose proof (tiles_bounds _ _ _ _ x (inv_tiles _ _ Hc)) as Hbd.
    rw Hso in Hbd. pose proof user_base_nonneg. pose proof user_ceiling_u32. pose proof page_size_pos.
    rw /u32. assert (x ∈ l1 ++ x :: l2) by set_solver. naive_solver lia. }
  assert (x ∈ free s a) as Hxf. { rw Hf list_elem_of_filter Hso. set_solver. }
  assert (forall y, y ∈ free s a -> y ∈ sorted s a) as Hfs. { intros y. rw Hf list_elem_of_filter. tauto. }
  pose proof (inv_nodup _ _ Hc) as Hnd. pose proof (inv_unused _ _ Hc) as Hnu. pose proof (inv_disj _ _ Hc) as Hdj.
  rw Hun in Hnu Hdj. rw Hso in Hnd Hdj Hfs. apply NoDup_app in Hnd as (_ & Hd & [Hx2 _]%NoDup_cons).
  apply NoDup_cons in Hnu as [Hbu [Htu _]%NoDup_cons].
  assert (b ∉ l1 ++ x :: l2) as Hbs by (apply Hdj; set_solver).
  assert (t ∉ l1 ++ x :: l2) as Hts by (apply Hdj; set_solver).
  assert (b <> t /\ b <> x /\ t <> x) as (Hbt & Hbx & Htx) by set_solver.
  assert (x ∉ l1) as Hx1 by set_solver.
  apply wp_unit. rw /create_carve. wp_steps. rw Hw.
  change (base_addr (mr s x) <? addr) with kb. change (addr + size <? ceiling_addr (mr s x)) with kt.
  assert (b ∉ free s a) as Hbf by naive_solver. assert (t ∉ free s a) as Htf by naive_solver.
  assert (x ∈ b :: free s a) by set_solver. assert (x ∈ t :: b :: free s a) by set_solver.
  assert (x ∈ t :: free s a) by set_solver.
  assert (t ∉ b :: free s a) by set_solver. assert (t ∉ b :: ul) by set_solver.
  assert (b ∉ ul) by set_solver. assert (t ∉ ul) by set_solver.
  assert (t ∉ l1 ++ b :: x :: l2) by set_solver. assert (x ∉ l1 ++ [b]) by set_solver.
  assert (forall y, y ∉ unused_memregion_list s -> y <> b /\ y <> t) as Hy by (rw Hun; set_solver).
  (* the four ways of splitting, each run to its final state *)
  destruct kb, kt;
  vsteps ltac:(rw ?Hso; first
    [ by apply dl_add_head_ok | by apply dl_rem_ok | by apply dl_insert_before_ok
    | by apply dl_insert_after_ok
    | rw (app_assoc l1 [b] (x :: l2)); (by apply dl_insert_after_ok; rw -?app_assoc) ]).
  all: (split; [split|split_and!]); try done.
  all: intros; reads; rw ?Hso -?app_assoc; try done.
  all: try (repeat rewrite ->decide_False by congruence; done).
  all: match goal with Ho : ?y ∉ [?z], Hn : ?y ∉ unused_memregion_list _ |- _ =>
    assert (y <> z) by set_solver; destruct (Hy _ Hn) end; reads; done.
Qed.

(** *** Finding regions *)

(** At most the hint changed, to a region of the address space. *)
Definition hinted s s' a : Prop :=
  s' = s \/ exists x, x ∈ sorted s a /\ s' = s <| asp ::= fun m => <[a := (m a) <| hint := Some x |>]> m |>.

Lemma hinted_facts s s' a :
  hinted s s' a ->
  sorted s' a = sorted s a /\ free s' a = free s a /\ mr s' = mr s /\
  unused_memregion_list s' = unused_memregion_list s /\
  (forall b, b <> a -> asp s' b = asp s b) /\
  (forall addr, view s' a addr = view s a addr) /\
  (core s a -> core s' a) /\ (free_ok s a -> free_ok s' a).
Proof.
  intros [->|(x & Hx & ->)]; [tauto|]. rw /view /free_ok. reads. split_and!; try done.
  - intros b Hb. by reads.
  - intros [????? ? ?]. split; reads; try done. intros h [= <-]. done.
Qed.

Lemma find_sorted_spec s a addr :
  core s a ->
  exists s', memregion_find_sorted a addr s = Ok (find_covering (mr s) (sorted s a) addr, s') /\ hinted s s' a.
Proof.
  intros Hc. rw /memregion_find_sorted /memregion_find /mbind /M_bind /gets /=.
  destruct (hint (asp s a)) as [h|] eqn:Hh; [destruct (covers (mr s h) addr) eqn:Hcv|].
  - exists s. split; [|by left].
    apply (inv_hint _ _ Hc), elem_split in Hh as (l1 & l2 & Hso & _). pose proof (inv_tiles _ _ Hc) as Ht.
    rw Hso in Ht |- *. erewrite find_covering_unique; [done|exact Ht|]. by apply covers_iff.
  - destruct (find_covering _ _ _) as [x|] eqn:Hf; (eexists; split; [done|]); [|by left].
    right. exists x. split; [|done]. by apply find_covering_Some in Hf as [? _].
  - destruct (find_covering _ _ _) as [x|] eqn:Hf; (eexists; split; [done|]); [|by left].
    right. exists x. split; [|done]. by apply find_covering_Some in Hf as [? _].
Qed.

Lemma find_covering_free s a addr x :
  core s a -> free_ok s a -> find_covering (mr s) (free s a) addr = Some x ->
  find_covering (mr s) (sorted s a) addr = Some x /\ mr_type (mr s x) = MR_TYPE_FREE.
Proof.
  intros Hc Hf [Hx Hcv]%find_covering_Some. rw Hf list_elem_of_filter in Hx.
  destruct Hx as [Hty (l1 & l2 & Hso & _)%elem_split]. split; [|done].
  pose proof (inv_tiles _ _ Hc) as Ht. rw Hso in Ht |- *. apply (find_covering_unique _ _ _ _ _ _ _ Ht).
  by apply covers_iff.
Qed.

Lemma find_covering_None t l addr : find_covering t l addr = None -> forall x, x ∈ l -> covers (t x) addr = false.
Proof.
  induction l as [|y l IH]; simpl; [set_solver|]. destruct (covers (t y) addr) eqn:E; [done|].
  intros Hn x [->|Hx]%elem_of_cons; [done|]. by apply IH.
Qed.

(** [memregion_find_free] returns the region at [addr] when it is free; when
    it returns another region (the hint), that one is not free. *)
Lemma find_free_spec s a addr :
  as_inv s a ->
  exists o s', memregion_find_free a addr s = Ok (o, s') /\ hinted s s' a /\
    match o with
    | Some x => find_covering (mr s) (sorted s a) addr = Some x
    | None => forall x, find_covering (mr s) (sorted s a) addr = Some x -> mr_type (mr s x) <> MR_TYPE_FREE
    end.
Proof.
  intros [Hc Hf]. rw /memregion_find_free /memregion_find /mbind /M_bind /gets /=.
  assert (forall x, find_covering (mr s) (free s a) addr = None ->
    find_covering (mr s) (sorted s a) addr = Some x -> mr_type (mr s x) <> MR_TYPE_FREE) as HN.
  { intros x HN [Hx Hcv]%find_covering_Some Hty.
    assert (x ∈ free s a) as Hxf by (rw Hf list_elem_of_filter; done).
    by rw (find_covering_None _ _ _ HN x Hxf) in Hcv. }
  assert (forall x, find_covering (mr s) (free s a) addr = Some x ->
    find_covering (mr s) (sorted s a) addr = Some x /\ x ∈ sorted s a) as HS.
  { intros x Hx. destruct (find_covering_free _ _ _ _ Hc Hf Hx) as [Hs _]. split; [done|].
    by apply find_covering_Some in Hs as [? _]. }
  destruct (hint (asp s a)) as [h|] eqn:Hh; [destruct (covers (mr s h) addr) eqn:Hcv|].
  - exists (Some h), s. split_and!; [done|by left|].
    apply (inv_hint _ _ Hc), elem_split in Hh as (l1 & l2 & Hso & _). pose proof (inv_tiles _ _ Hc) as Ht.
    rw Hso in Ht |- *. apply (find_covering_unique _ _ _ _ _ _ _ Ht). by apply covers_iff.
  - destruct (find_covering _ (free s a) _) as [x|] eqn:Hfx; do 2 eexists; (split_and!; [done| |]);
      [right; exists x; naive_solver|naive_solver|by left|naive_solver].
  - destruct (find_covering _ (free s a) _) as [x|] eqn:Hfx; do 2 eexists; (split_and!; [done| |]);
      [right; exists x; naive_solver|naive_solver|by left|naive_solver].
Qed.

(** *** Creating regions *)
Lemma ALIGN_UP_spec v :
  0 <= v -> v + PAGE_SIZE < 2 ^ 32 ->
  v <= ALIGN_UP v PAGE_SIZE < v + PAGE_SIZE /\ ALIGN_UP v PAGE_SIZE mod PAGE_SIZE = 0.
Proof.
  intros Hv Hp. pose proof page_size_pos. rw /ALIGN_UP (wrap32_id (v + PAGE_SIZE - 1)); [rw /u32; lia|].
  pose proof (Z_div_mod_eq_full (v + PAGE_SIZE - 1) PAGE_SIZE).
  pose proof (Z.mod_pos_bound (v + PAGE_SIZE - 1) PAGE_SIZE page_size_pos).
  rw wrap32_id; [rw /u32; nia|]. split; [nia|]. apply Z.mod_mul. lia.
Qed.

(** The region [x] is free and has room for [size] bytes at [ad]. *)
Definition fits s x (ad size : Z) : Prop :=
  mr_type (mr s x) = MR_TYPE_FREE /\ base_addr (mr s x) <= ad /\ ad + size <= ceiling_addr (mr s x).

(** Where a request may be placed in region [x]. *)
Definition place s x (addr flags : Z) : Z :=
  if has flags MAP_FIXED then addr else ALIGN_UP (base_addr (mr s x)) PAGE_SIZE.

Lemma first_fit_spec s l size :
  0 < size -> (forall x, x ∈ l -> 0 <= base_addr (mr s x) /\ ceiling_addr (mr s x) + PAGE_SIZE < 2 ^ 32 /\
                                base_addr (mr s x) < ceiling_addr (mr s x)) ->
  match first_fit (mr s) l size with
  | Some (x, ad) => x ∈ l /\ ad = ALIGN_UP (base_addr (mr s x)) PAGE_SIZE /\ fits s x ad size
  | None => forall x, x ∈ l -> ~ fits s x (ALIGN_UP (base_addr (mr s x)) PAGE_SIZE) size
  end.
Proof.
  intros Hsz. induction l as [|x l IH]; intros Hl; simpl; [set_solver|].
  destruct (Hl x) as (? & ? & ?); [set_solver|].
  destruct (ALIGN_UP_spec (base_addr (mr s x))) as [? ?]; [lia..|].
  destruct (bool_decide _ && _ && _ && _) eqn:E.
  - rw !andb_true_iff bool_decide_eq_true in E. destruct E as [[[? ?] ?] ?].
    rw /fits. split_and!; [set_solver|done|done|lia|lia].
  - destruct (first_fit (mr s) l size) as [[y ad]|].
    + destruct IH as (? & ? & ?); [intros; apply Hl; set_solver|]. set_solver.
    + intros y [->|Hy]%elem_of_cons; [|apply IH; [intros; apply Hl; set_solver|done]].
      rw /fits. intros (Hty & ? & ?). rw bool_decide_true // /= in E.
      rw !andb_false_iff in E. lia.
Qed.

Lemma create_choose_spec s a addr size flags :
  as_inv s a -> 0 < size -> (has flags MAP_FIXED = true -> 0 <= addr /\ addr + size < 2 ^ 32) ->
  exists o s', create_choose a addr size flags s = Ok (o, s') /\ hinted s s' a /\
    match o with
    | Some (x, ad) => x ∈ sorted s a /\ ad = place s x addr flags /\ fits s x ad size
    | None => forall x, x ∈ sorted s a -> ~ fits s x (place s x addr flags) size
    end.
Proof.
  intros [Hc Hf] Hsz Has. rw /create_choose /place. destruct (has flags MAP_FIXED).
  - destruct (Has eq_refl) as [Ha Has']. destruct (find_free_spec s a addr (conj Hc Hf)) as (o & s' & Hff & Hh & Ho).
    destruct (hinted_facts _ _ _ Hh) as (_ & _ & Hmr & _).
    rw /mbind /M_bind Hff. pose proof (inv_tiles _ _ Hc) as Ht. destruct o as [x|].
    + rw /gets /= Hmr (wrap32_id (addr + size)); [rw /u32; lia|]. do 2 eexists. split_and!; [done|done|].
      pose proof (find_covering_Some _ _ _ _ Ho) as [Hx Hcv]. apply covers_iff in Hcv.
      destruct (Z.ltb_spec (ceiling_addr (mr s x)) (addr + size)); simpl.
      * intros y Hy (Hty & ? & ?). pose proof (elem_split y _ Hy) as (l1 & l2 & Hso & _).
        rw Hso in Ht Ho. rw (find_covering_unique _ _ _ _ _ _ addr Ht) in Ho; [lia|]. simplify_eq. lia.
      * case_bool_decide as Hty; simpl; [rw /fits; split_and!; [done..|lia|lia]|].
        intros y Hy (Hty' & ? & ?). pose proof (elem_split y _ Hy) as (l1 & l2 & Hso & _).
        rw Hso in Ht Ho. rw (find_covering_unique _ _ _ _ _ _ addr Ht) in Ho; [lia|]. simplify_eq.
    + do 2 eexists. split_and!; [done|done|]. intros y Hy (Hty & ? & ?).
      pose proof (elem_split y _ Hy) as (l1 & l2 & Hso & _). rw Hso in Ht Ho.
      apply (Ho y); [|done]. apply (find_covering_unique _ _ _ _ _ _ addr Ht). lia.
  - exists (first_fit (mr s) (free s a) size), s. split_and!; [done|by left|].
    assert (forall x, x ∈ free s a <-> mr_type (mr s x) = MR_TYPE_FREE /\ x ∈ sorted s a) as Hfree.
    { intros x. by rw Hf list_elem_of_filter. }
    pose proof (first_fit_spec s (free s a) size Hsz) as Hff.
    pose proof user_base_nonneg. pose proof user_ceiling_u32.
    destruct (first_fit _ _ _) as [[x ad]|].
    + destruct Hff as (Hx & ? & ?); [|naive_solver]. intros y [_ Hy]%Hfree.
      pose proof (tiles_bounds _ _ _ _ y (inv_tiles _ _ Hc) Hy). lia.
    + intros x Hx Hfit. eapply Hff; [|apply Hfree; split; [apply Hfit|done]|done]. intros y [_ Hy]%Hfree.
      pose proof (tiles_bounds _ _ _ _ y (inv_tiles _ _ Hc) Hy). lia.
Qed.
End resplice.
End Inv.
