(* ===== verification/MemRegionCreate.v ===== *)
(** * MemRegionCreate: correctness of memregion_create of vm/memregion.c *)

From S2P Require Import Prelude MemRegion MemRegionInv.
Import Ops Inv.
Local Open Scope Z_scope.
Local Open Scope kernel_scope.

Section props.
Context `{Board}.
Implicit Types (l : list nat) (s : vm) (a x y : nat).


Lemma create_carve_inv s a x b (t : nat) addr size flags type ul :
  as_inv s a -> x ∈ sorted s a -> unused_memregion_list s = b :: t :: ul ->
  fits s x addr size -> 0 < size -> type <> MR_TYPE_UNALLOCATED -> type <> MR_TYPE_FREE ->
  exists s', create_carve a x b t addr size flags type (s <| unused_memregion_list := ul |>) = Ok (tt, s') /\
    as_inv s' a /\ (forall c, c <> a -> asp s' c = asp s c) /\
    mr s' x = mkMemRegion addr (addr + size) (Some a) type flags (phys_base_addr (mr s x)) /\
    forall z, view s' a z = if decide (addr <= z < addr + size) then Some (type, flags) else view s a z.
Proof.
  intros [Hc Hf] Hx Hun (Hty & Hb & Ht) Hsz Htype Hflags.
  pose proof (inv_flags _ _ Hc x Hx Hty) as Hfx.
  pose proof (tiles_bounds _ _ _ _ x (inv_tiles _ _ Hc) Hx) as Hbx.
  pose proof (inv_disj _ _ Hc) as Hdj. pose proof (inv_unused _ _ Hc) as Hnu. rw Hun in Hdj Hnu.
  assert (b <> x /\ t <> x /\ b <> t) as (Hbx' & Htx & Hbt).
  { assert (x ∉ b :: t :: ul) by (intros Hxu; by apply (Hdj x Hxu)).
    apply NoDup_cons in Hnu as [? _]. set_solver. }
  assert (x ∈ free s a) as Hxf by (rw Hf list_elem_of_filter; done).
  pose proof Hx as (l1 & l2 & Hso & _)%elem_split.
  destruct (create_carve_spec s a x b t addr size flags type l1 l2 ul) as
    (s' & Hrun & Hr & Hhint & Hmx & Hmb & Hmt); try done.
  exists s'. split; [done|].
  set kb := base_addr (mr s x) <? addr in Hr Hmb. set kt := addr + size <? ceiling_addr (mr s x) in Hr Hmt.
  assert (if kb then base_addr (mr s x) < addr else base_addr (mr s x) = addr) as Hkb.
  { rw /kb. destruct (Z.ltb_spec (base_addr (mr s x)) addr); lia. }
  assert (if kt then addr + size < ceiling_addr (mr s x) else addr + size = ceiling_addr (mr s x)) as Hkt.
  { rw /kt. destruct (Z.ltb_spec (addr + size) (ceiling_addr (mr s x))); lia. }
  assert (forall y, y ∈ opt_list kb b ++ x :: opt_list kt t -> y ∈ [x] \/ y ∈ unused_memregion_list s) as Hnew.
  { rw Hun. destruct kb, kt; set_solver. }
  assert (tiles (mr s') (base_addr (mr s x)) (opt_list kb b ++ x :: opt_list kt t) (ceiling_addr (mr s x))) as Htl.
  { clearbody kb kt. destruct kb, kt; simpl; rw ?Hmx /=;
      try (destruct Hmb as (-> & -> & _); [done|]); try (destruct Hmt as (-> & -> & _); [done|]); lia. }
  destruct (respliced_core s s' a l1 [x] (opt_list kb b ++ x :: opt_list kt t) l2 _ _
              (base_addr (mr s x)) (ceiling_addr (mr s x)) Hc Hr) as [Hc' Hv]; try done.
  - simpl. lia.
  - apply NoDup_ListNoDup. destruct kb, kt; repeat constructor; simpl; intuition congruence.
  - intros y Hy. assert (y = x \/ (kb = true /\ y = b) \/ (kt = true /\ y = t)) as [->|[[? ->]|[? ->]]].
    { destruct kb, kt; set_solver. }
    + by rw Hmx.
    + by destruct Hmb as (_ & _ & -> & ->).
    + by destruct Hmt as (_ & _ & -> & -> & _).
  - intros h. rw Hhint. intros Hh%(inv_hint _ _ Hc). rw Hso in Hh. set_solver.
  - apply NoDup_cons in Hnu as [? [? ?]%NoDup_cons].
    destruct kb, kt; simpl; rw ?NoDup_cons; set_solver.
  - rw Hun. apply NoDup_cons in Hnu as [? [? ?]%NoDup_cons].
    assert (x ∉ ul) by (intros ?; eapply Hdj; [|exact Hx]; set_solver).
    destruct kb, kt; simpl; set_solver.
  - split_and!; [split; [done|]|by apply (rs_as _ _ _ _ _ _ _ _ _ Hr)|done|].
    + eapply respliced_free_ok; [exact Hc|exact Hf|exact Hr|exact Hnew|].
      assert (filter (FREE (mr s')) (opt_list kb b ++ x :: opt_list kt t) = opt_list kb b ++ opt_list kt t) as ->.
      { rw filter_app filter_cons Hmx /= decide_False //. f_equal; [destruct kb|destruct kt]; try done;
          simpl; rw filter_cons decide_True //; [by apply Hmb|by apply Hmt]. }
      rw filter_cons decide_True // filter_nil -{2}(list_remove1_perm x (free s a)) //. solve_Permutation.
    + intros z. rw Hv. case_decide as Hz.
      * rw /view_of. destruct (decide (addr <= z < addr + size)) as [Hz'|Hz'].
        -- rw (find_covering_unique _ _ (opt_list kb b) x (opt_list kt t) _ z Htl) Hmx //=.
        -- destruct (find_covering_split _ _ _ _ z Htl Hz) as (n1 & y & n2 & Hn & Hy & ->).
           assert (y = x \/ (kb = true /\ y = b) \/ (kt = true /\ y = t)) as Hcase.
           { assert (y ∈ opt_list kb b ++ x :: opt_list kt t) by (rw Hn; set_solver). destruct kb, kt; set_solver. }
           assert (view s a z = Some (MR_TYPE_FREE, 0)) as ->.
           { pose proof (inv_tiles _ _ Hc) as Hts. rw /view Hso. rw Hso in Hts.
             rw (find_covering_unique _ _ _ _ _ _ z Hts) // Hty Hfx //. }
           destruct Hcase as [->|[[? ->]|[? ->]]].
           ++ rw Hmx /= in Hy. lia.
           ++ by destruct Hmb as (_ & _ & -> & ->).
           ++ by destruct Hmt as (_ & _ & -> & -> & _).
      * rw decide_False //. lia.
Qed.

Lemma hinted_place s s' a x addr flags : hinted s s' a -> place s' x addr flags = place s x addr flags.
Proof. intros (_ & _ & Hmr & _)%hinted_facts. by rw /place Hmr. Qed.

Lemma alloc_memregion_run s :
  alloc_memregion s =
    match unused_memregion_list s with
    | [] => Ok (None, s)
    | x :: l => Ok (Some x, s <| unused_memregion_list := l |>)
    end.
Proof.
  rw /alloc_memregion /mbind /M_bind /gets /=.
  destruct (unused_memregion_list s) as [|x l] eqn:E; [done|]. by rw /on_unused /update E.
Qed.

Lemma unused_again s : s <| unused_memregion_list := unused_memregion_list s |> = s.
Proof. by destruct s. Qed.

(** What [memregion_create] returns and does to the address map. *)
Definition created s s' a (addr size flags : Z) (type : mrtype) (r : option nat) : Prop :=
  match r with
  | Some x => exists ad,
        base_addr (mr s' x) = ad /\ ceiling_addr (mr s' x) = ad + size /\ mr_as (mr s' x) = Some a /\
        (if has flags MAP_FIXED then ad = addr else ad mod PAGE_SIZE = 0) /\
        (forall z, ad <= z < ad + size -> view s a z = Some (MR_TYPE_FREE, 0)) /\
        (forall z, view s' a z = if decide (ad <= z < ad + size) then Some (type, flags) else view s a z)
  | None =>
        (forall z, view s' a z = view s a z) /\
        ((length (unused_memregion_list s) < 2)%nat \/
         forall x, x ∈ sorted s a -> ~ fits s x (place s x addr flags) size)
  end.
Lemma memregion_create_run s a addr size flags type :
  as_inv s a -> 0 < size -> (has flags MAP_FIXED = true -> 0 <= addr /\ addr + size < 2 ^ 32) ->
  type <> MR_TYPE_UNALLOCATED -> type <> MR_TYPE_FREE ->
  exists r s', memregion_create a addr size flags type s = Ok (r, s') /\
    as_inv s' a /\ (forall c, c <> a -> asp s' c = asp s c) /\ created s s' a addr size flags type r.
Proof.
  rw /created. intros Hinv Hsz Has Hty1 Hty2.
  destruct (create_choose_spec s a addr size flags Hinv Hsz Has) as (o & s1 & Hch & Hh & Ho).
  pose proof (hinted_facts _ _ _ Hh) as (Hso & Hfr & Hmr & Hun & Has1 & Hv & Hc1 & Hf1).
  destruct Hinv as [Hc Hf]. assert (as_inv s1 a) as Hinv1 by (split; auto).
  rw /memregion_create {1}/mbind {1}/M_bind Hch. destruct o as [[x ad]|]; [|naive_solver].
  rw {1}/mbind {1}/M_bind alloc_memregion_run Hun.
  destruct (unused_memregion_list s) as [|b [|t ul]] eqn:Eun.
  - do 2 eexists. split; [done|]. split_and!; [done|done|done|]. left. simpl. lia.
  - rw {1}/mbind {1}/M_bind alloc_memregion_run /=. do 2 eexists. split; [done|].
    replace (s1 <| unused_memregion_list := [] |> <| unused_memregion_list := [b] |>) with s1;
      [|by destruct s1; simplify_eq/=].
    split_and!; [done|done|done|]. left. simpl. lia.
  - rw {1}/mbind {1}/M_bind alloc_memregion_run /=.
    destruct Ho as (Hx & Hpl & Hfit). rw -Hso in Hx.
    assert (fits s1 x ad size) as Hfit1 by (by rw /fits Hmr).
    destruct (create_carve_inv s1 a x b t ad size flags type ul) as (s' & Hrun & Hinv' & Hfr' & Hmx & Hv'); try done.
    rw {1}/mbind {1}/M_bind. replace (s1 <| unused_memregion_list := t :: ul |> <| unused_memregion_list := ul |>)
      with (s1 <| unused_memregion_list := ul |>) by (by destruct s1).
    rw Hrun. do 2 eexists. split; [done|]. split_and!; [done|by intros; rw Hfr' // Has1|].
    exists ad. rw Hmx. split_and!; try done.
    + rw /place in Hpl. destruct (has flags MAP_FIXED); [done|]. rw Hpl.
      pose proof (tiles_bounds _ _ _ _ x (inv_tiles _ _ Hc)) as Hbx. rw -Hso in Hbx.
      pose proof user_base_nonneg. pose proof user_ceiling_u32. apply ALIGN_UP_spec; naive_solver lia.
    + intros z Hz. destruct Hfit as (Htx & Hb & Hcl). rw /view. rw Hso in Hx.
      pose proof (inv_tiles _ _ Hc) as Ht. pose proof Hx as (l1 & l2 & Hsplit & _)%elem_split. rw Hsplit in Ht |- *.
      rw (find_covering_unique _ _ _ _ _ _ z Ht); [lia|]. by rw Htx (inv_flags _ _ Hc x).
    + intros z. rw Hv'. case_decide; [done|]. apply Hv.
Qed.

(** C10: [memregion_create] of a size that is not 0 and, with MAP_FIXED, of a
    range that does not wrap around the address space never faults on a
    well-formed address space and keeps it well formed (the sorted regions tile
    the user range, the free list holds exactly the free ones, the unused list
    is disjoint). When it returns a region, the region covers exactly [size]
    bytes that were free, at [addr] for MAP_FIXED and page-aligned otherwise,
    and the address map changes there and nowhere else. When it returns NULL,
    the address map is unchanged and either fewer than two region structures
    were left or no free region had room for the request. Neither condition is
    checked by the caller: see [create_wraps_run] and [create_empty_run]. *)
Theorem memregion_create_correct s a addr size flags type :
  as_inv s a -> 0 < size -> (has flags MAP_FIXED = true -> 0 <= addr /\ addr + size < 2 ^ 32) ->
  type <> MR_TYPE_UNALLOCATED -> type <> MR_TYPE_FREE ->
  exists r s', memregion_create a addr size flags type s = Ok (r, s') /\
    as_inv s' a /\ (forall c, c <> a -> asp s' c = asp s c) /\
    match r with
    | Some x => exists ad,
        base_addr (mr s' x) = ad /\ ceiling_addr (mr s' x) = ad + size /\ mr_as (mr s' x) = Some a /\
        (if has flags MAP_FIXED then ad = addr else ad mod PAGE_SIZE = 0) /\
        (forall z, ad <= z < ad + size -> view s a z = Some (MR_TYPE_FREE, 0)) /\
        (forall z, view s' a z = if decide (ad <= z < ad + size) then Some (type, flags) else view s a z)
    | None =>
        (forall z, view s' a z = view s a z) /\
        ((length (unused_memregion_list s) < 2)%nat \/
         forall x, x ∈ sorted s a -> ~ fits s x (place s x addr flags) size)
    end.
Proof. apply memregion_create_run. Qed.
End props.
