(* ===== verification/MemRegionFree.v ===== *)
(** * MemRegionFree: splitting, freeing, initialising and forking regions, vm/memregion.c *)

From S2P Require Import Prelude MemRegion MemRegionInv.
Import Ops Inv.
Local Open Scope Z_scope.
Local Open Scope kernel_scope.

Section props.
Context `{Board}.
Implicit Types (l : list nat) (s : vm) (a x y : nat).


(** *** Splitting *)
Lemma view_at s a l1 x l2 z :
  core s a -> sorted s a = l1 ++ x :: l2 -> base_addr (mr s x) <= z < ceiling_addr (mr s x) ->
  view s a z = Some (mr_type (mr s x), mr_flags (mr s x)).
Proof.
  intros Hc Hso Hz. pose proof (inv_tiles _ _ Hc) as Ht. rw /view. rw Hso in Ht |- *.
  by rw (find_covering_unique _ _ _ _ _ _ z Ht).
Qed.

(** Splitting region [x] at an inner address, with [n] available. *)
Lemma split_inner s a x n addr ul l1 l2 :
  as_inv s a -> sorted s a = l1 ++ x :: l2 -> unused_memregion_list s = n :: ul ->
  base_addr (mr s x) < addr < ceiling_addr (mr s x) -> find_covering (mr s) (sorted s a) addr = Some x ->
  exists s', memregion_split a addr s = Ok (RVal 0, s') /\ as_inv s' a /\ hint (asp s' a) = None /\
    (forall c, c <> a -> asp s' c = asp s c) /\ (forall z, view s' a z = view s a z) /\
    sorted s' a = l1 ++ x :: n :: l2 /\ unused_memregion_list s' = ul /\
    (forall y, y <> x -> y ∉ unused_memregion_list s -> mr s' y = mr s y) /\
    base_addr (mr s' n) = addr /\ ceiling_addr (mr s' n) = ceiling_addr (mr s x) /\
    base_addr (mr s' x) = base_addr (mr s x) /\ ceiling_addr (mr s' x) = addr /\
    mr_type (mr s' x) = mr_type (mr s x) /\ mr_type (mr s' n) = mr_type (mr s x).
Proof.
  intros [Hc Hf] Hso Hun Ha Hfc.
  destruct (find_sorted_spec s a addr Hc) as (s1 & Hfs & Hh). rw Hfc in Hfs.
  pose proof (hinted_facts _ _ _ Hh) as (Hso1 & Hfr1 & Hmr1 & Hun1 & Has1 & Hv1 & Hc1 & Hf1).
  specialize (Hc1 Hc). specialize (Hf1 Hf). rw -Hso1 in Hso. rw -Hun1 in Hun.
  pose proof (inv_nodup _ _ Hc1) as Hnd. pose proof (inv_unused _ _ Hc1) as Hnu. pose proof (inv_disj _ _ Hc1) as Hdj.
  rw Hso in Hnd. rw Hun in Hnu. rw Hun Hso in Hdj. apply NoDup_cons in Hnu as [Hnul Hul].
  pose proof Hnd as (_ & Hd & [Hx2 _]%NoDup_cons)%NoDup_app.
  assert (x ∉ l1) as Hx1 by set_solver. assert (n ∉ l1 ++ x :: l2) as Hn by (apply Hdj; set_solver).
  assert (n <> x) as Hnx by set_solver.
  assert (n ∉ free s1 a) as Hnf. { rw Hf1 list_elem_of_filter Hso. tauto. }
  assert (wp (memregion_split a addr) (fun r s' => r = RVal 0 /\
      respliced s1 s' a l1 [x] [x; n] l2
        ((if decide (mr_type (mr s x) = MR_TYPE_FREE) then [n] else []) ++ free s1 a) ul /\
      hint (asp s' a) = None /\
      mr s' x = (mr s x) <| ceiling_addr := addr |> /\
      base_addr (mr s' n) = addr /\ ceiling_addr (mr s' n) = ceiling_addr (mr s x) /\
      mr_type (mr s' n) = mr_type (mr s x) /\ mr_flags (mr s' n) = mr_flags (mr s x)) s) as Hwp.
  { rw /memregion_split. apply wp_bind. rw /wp Hfs -/(wp _ _ _). rw -/(wp _ _ s1).
    wp_steps. rw Hmr1. rewrite ->(proj2 (Z.eqb_neq _ _)), (proj2 (Z.eqb_neq addr _)) by lia. simpl.
    wp_steps. rw Hun. repeat case_bool_decide;
    vsteps ltac:(rw ?Hso ?Hun; first [done | by apply dl_insert_after_ok | by apply dl_add_head_ok]).
    all: split_and!; [done|split|..]; intros; reads; rw ?Hmr1 ?Hso -?app_assoc; try done.
    all: try (rewrite ->decide_True by done; done). all: try (rewrite ->decide_False by done; done).
    all: rewrite ->!fn_lookup_insert_ne by set_solver; rw ?Hmr1 //. }
  apply wp_ok in Hwp as (r & s' & Hrun & -> & Hr & Hh' & Hmx & Hbn & Hcn & Htn & Hfn).
  assert (forall y, y ∈ [x; n] -> y ∈ [x] \/ y ∈ unused_memregion_list s1) as Hnew by (rw Hun; set_solver).
  destruct (respliced_core s1 s' a l1 [x] [x; n] l2 _ _ (base_addr (mr s x)) (ceiling_addr (mr s x)) Hc1 Hr)
    as [Hc' Hv']; try done.
  - simpl. rw Hmr1. lia.
  - simpl. rw Hmx Hbn Hcn /=. lia.
  - apply NoDup_ListNoDup. repeat constructor; simpl; intuition.
  - assert (x ∈ sorted s a) as Hxs by (rw -Hso1 Hso; set_solver).
    intros y [->|[->|?]%elem_of_cons]%elem_of_cons; [rw Hmx /=|rw Htn Hfn|set_solver];
      (split; [by apply (inv_type _ _ Hc)|by apply (inv_flags _ _ Hc)]).
  - by rw Hh'.
  - rw Hun. intros y Hy. split; [set_solver|]. intros [->|[->|?]%elem_of_cons]%elem_of_cons; [|done|set_solver].
    apply (Hdj x); set_solver.
  - exists s'. split_and!; try done.
    + split; [done|]. eapply respliced_free_ok; [exact Hc1|exact Hf1|exact Hr|exact Hnew|].
      rw !filter_cons !filter_nil Hmr1 Htn Hmx /=. repeat case_decide; try done; simpl; solve_Permutation.
    + intros c Hcn'. by rw (rs_as _ _ _ _ _ _ _ _ _ Hr) // Has1.
    + intros z. rw Hv'. destruct (decide (base_addr (mr s x) <= z < ceiling_addr (mr s x))) as [Hz|Hz]; [|apply Hv1]. rw -Hv1. rewrite ->(view_at s1 a l1 x l2 z) by (rw ?Hmr1; done). rw Hmr1.
      rw /view_of /= /covers Hmx Hbn Hcn /=. zcases; simpl; rw ?Hmx ?Htn ?Hfn /=; first [done|lia].
    + by rw (rs_new _ _ _ _ _ _ _ _ _ Hr).
    + by rw (rs_unused _ _ _ _ _ _ _ _ _ Hr).
    + intros y Hyx Hyu. rw -Hun1 in Hyu. rw (rs_mr _ _ _ _ _ _ _ _ _ Hr y) ?Hmr1 //; clear -Hyx Hyu Hun;
        [set_solver|rw Hun in Hyu; set_solver].
    + by rw Hmx.
    + by rw Hmx.
    + by rw Hmx.
Qed.

(** [memregion_split] in general: on success a region starts at [addr], and
    every region that was there still starts where it did. *)
Lemma split_spec s a addr :
  as_inv s a ->
  exists r s', memregion_split a addr s = Ok (r, s') /\ as_inv s' a /\
    (forall c, c <> a -> asp s' c = asp s c) /\ (forall z, view s' a z = view s a z) /\
    (forall y, y ∈ sorted s a -> y ∈ sorted s' a /\ base_addr (mr s' y) = base_addr (mr s y)) /\
    (length (unused_memregion_list s) <= S (length (unused_memregion_list s')))%nat /\
    ((r = RErr EINVAL /\ ~ (VM_USER_BASE <= addr < VM_USER_CEILING)) \/
     (r = RErr ENOMEM /\ unused_memregion_list s = []) \/
     (r = RVal 0 /\ exists x, x ∈ sorted s' a /\ base_addr (mr s' x) = addr)).
Proof.
  intros Hinv. pose proof Hinv as [Hc Hf]. pose proof (inv_tiles _ _ Hc) as Ht.
  destruct (find_sorted_spec s a addr Hc) as (s1 & Hfs & Hh).
  pose proof (hinted_facts _ _ _ Hh) as (Hso1 & Hfr1 & Hmr1 & Hun1 & Has1 & Hv1 & Hc1 & Hf1).
  assert (as_inv s1 a) as Hinv1 by (split; auto).
  destruct (find_covering (mr s) (sorted s a) addr) as [x|] eqn:Hfc.
  - pose proof (find_covering_Some _ _ _ _ Hfc) as [Hx Hcv]. apply covers_iff in Hcv.
    destruct (decide (addr = base_addr (mr s x))) as [->|Hne].
    { exists (RVal 0), s1. split.
      { rw /memregion_split /mbind /M_bind Hfs /gets Hmr1 Z.eqb_refl //. }
      split_and!; try done; [rw Hso1 Hmr1; done|rw Hun1; lia|]. right; right. split; [done|]. exists x. by rw Hso1 Hmr1. }
    destruct (unused_memregion_list s) as [|n ul] eqn:Hun.
    + exists (RErr ENOMEM), s1. split.
      { rw /memregion_split /mbind /M_bind Hfs /gets Hmr1.
        rewrite ->(proj2 (Z.eqb_neq _ _)), (proj2 (Z.eqb_neq addr _)) by lia. simpl. by rw Hun1. }
      split_and!; try done; [rw Hso1 Hmr1; done|simpl; lia|]. right; left. done.
    + pose proof Hx as (l1 & l2 & Hso & _)%elem_split.
      destruct (split_inner s a x n addr ul l1 l2) as
        (s' & Hrun & Hinv' & _ & Hfr & Hv & Hso' & Hun' & Hm & Hbn & Hcn & Hbx & Hcx & _ & _); [done..|lia|done|].
      exists (RVal 0), s'. split_and!; try done.
      * intros y Hy. split; [rw Hso'; rw Hso in Hy; clear -Hy; set_solver|].
        destruct (decide (y = x)) as [->|]; [done|]. rw Hm //. intros Hyu. by apply (inv_disj _ _ Hc y).
      * rw Hun'. simpl. lia.
      * right; right. split; [done|]. exists n. split; [|done]. rw Hso'. clear. set_solver.
  - exists (RErr EINVAL), s1. split; [by rw /memregion_split /mbind /M_bind Hfs|].
    split_and!; try done; [rw Hso1 Hmr1; done|rw Hun1; lia|]. left. split; [done|]. intros Hr.
    by destruct (find_covering_split _ _ _ _ addr Ht Hr) as (? & ? & ? & _ & _ & ?); simplify_eq.
Qed.

(** The regions between two region boundaries. *)
Lemma between s a x1 x2 :
  core s a -> x1 ∈ sorted s a -> x2 ∈ sorted s a -> base_addr (mr s x1) < base_addr (mr s x2) ->
  exists l1 m l2, sorted s a = l1 ++ (x1 :: m) ++ x2 :: l2 /\
    tiles (mr s) (base_addr (mr s x1)) (x1 :: m) (base_addr (mr s x2)).
Proof.
  intros Hc (l1 & r & Hso & _)%elem_split Hx2 Hlt. pose proof (inv_tiles _ _ Hc) as Ht.
  rw Hso in Ht Hx2. apply tiles_mid in Ht as (T1 & Hb1 & T2).
  apply elem_of_app in Hx2 as [Hx2|[->|Hx2]%elem_of_cons]; [|lia|].
  - pose proof (tiles_bounds _ _ _ _ _ T1 Hx2). lia.
  - apply elem_split in Hx2 as (m & l2 & -> & _). apply tiles_mid in T2 as (T2 & _ & _).
    exists l1, m, l2. split; [done|]. simpl. done.
Qed.

(** *** Freeing *)
Lemma absorb_spec s a p x pre post :
  core s a -> hint (asp s a) = None -> sorted s a = pre ++ p :: x :: post ->
  exists s', absorb a p x s = Ok (tt, s') /\
    respliced s s' a pre [p; x] [p] post (free s a) (x :: unused_memregion_list s) /\
    hint (asp s' a) = None /\ mr s' p = (mr s p) <| ceiling_addr := ceiling_addr (mr s x) |> /\
    free s' a = free s a.
Proof.
  intros Hc Hh Hso. pose proof (inv_nodup _ _ Hc) as Hnd. rw Hso in Hnd.
  assert (x ∉ unused_memregion_list s) as Hxu.
  { intros Hxu. apply (inv_disj _ _ Hc x Hxu). rw Hso. set_solver. }
  apply NoDup_app in Hnd as (_ & Hd & [Hp [Hx _]%NoDup_cons]%NoDup_cons).
  assert (x <> p) as Hxp by set_solver. assert (x ∉ pre ++ [p]) as Hxpre by set_solver.
  apply wp_unit. rw /absorb.
  vsteps ltac:(rw ?Hso; first [by apply dl_rem_ok; set_solver | by apply dl_add_head_ok]).
  split_and!; [split|..]; intros; reads; rw ?Hso //.
  - rw (app_assoc pre [p] (x :: post)) list_remove1_app // -app_assoc //.
  - rewrite ->!fn_lookup_insert_ne by set_solver. done.
Qed.

(** What one step of freeing leaves: region [x] gone or turned free, the
    address map free over its range, its predecessor or itself free. *)
Record freed s s' a x post : Prop := {
  fr_core : core s' a;
  fr_hint : hint (asp s' a) = None;
  fr_as : forall c, c <> a -> asp s' c = asp s c;
  fr_sorted : exists pre' p, sorted s' a = pre' ++ p :: post /\ mr_type (mr s' p) = MR_TYPE_FREE;
  fr_post : forall y, y ∈ post -> mr s' y = mr s y;
  fr_view : forall z, view s' a z =
    if decide (base_addr (mr s x) <= z < ceiling_addr (mr s x)) then Some (MR_TYPE_FREE, 0) else view s a z }.

Lemma absorb_inv s a p x pre post :
  core s a -> hint (asp s a) = None -> sorted s a = pre ++ p :: x :: post ->
  mr_type (mr s p) = MR_TYPE_FREE ->
  exists s', absorb a p x s = Ok (tt, s') /\ freed s s' a x post /\
    unused_memregion_list s' = x :: unused_memregion_list s /\
    (free_ok s a -> free s' a ≡ₚ (if decide (mr_type (mr s x) = MR_TYPE_FREE) then [x] else []) ++
                                  filter (FREE (mr s')) (sorted s' a)).
Proof.
  intros Hc Hh Hso Hp. destruct (absorb_spec s a p x pre post Hc Hh Hso) as (s' & Hrun & Hr & Hh' & Hmp & Hfr).
  exists s'. split; [done|].
  pose proof (inv_tiles _ _ Hc) as Ht. rw Hso in Ht. apply tiles_mid in Ht as (T1 & Hbp & Hbx & Hcx & T2).
  pose proof (inv_nodup _ _ Hc) as Hnd. rw Hso in Hnd. apply NoDup_app in Hnd as (_ & Hd & [Hp1 [Hxpost _]%NoDup_cons]%NoDup_cons).
  assert (mr_flags (mr s p) = 0) as Hfp. { apply (inv_flags _ _ Hc); [rw Hso; set_solver|done]. }
  destruct (respliced_core s s' a pre [p; x] [p] post _ _ (base_addr (mr s p)) (ceiling_addr (mr s x)) Hc Hr)
    as [Hc' Hv]; try done.
  - simpl. rw Hmp /=. lia.
  - apply NoDup_singleton.
  - set_solver.
  - intros y ->%list_elem_of_singleton. by rw Hmp /= Hp.
  - by rw Hh'.
  - apply NoDup_cons. split; [|apply (inv_unused _ _ Hc)]. intros Hxu. apply (inv_disj _ _ Hc x Hxu). rw Hso. set_solver.
  - intros y [->|Hy]%elem_of_cons; [set_solver|]. split; [by right|]. intros ->%list_elem_of_singleton.
    apply (inv_disj _ _ Hc p Hy). rw Hso. set_solver.
  - pose proof (rs_new _ _ _ _ _ _ _ _ _ Hr) as Hn. simpl in Hn. split; [split|split; [apply (rs_unused _ _ _ _ _ _ _ _ _ Hr)|]].
    + done.
    + done.
    + apply (rs_as _ _ _ _ _ _ _ _ _ Hr).
    + exists pre, p. by rw Hmp.
    + intros y Hy. apply (rs_mr _ _ _ _ _ _ _ _ _ Hr).
      * clear -Hy Hp1 Hxpost. set_solver.
      * clear -Hy Hp1. set_solver.
      * intros Hyu. apply (inv_disj _ _ Hc y Hyu). rw Hso. clear -Hy. set_solver.
    + intros z. rw Hv. destruct (decide (base_addr (mr s p) <= z < ceiling_addr (mr s x))) as [Hz|Hz].
      * rw /view_of /= /covers Hmp /=. rewrite ->(proj2 (Z.leb_le _ _)), (proj2 (Z.ltb_lt _ _)) by lia.
        rw /= Hmp /= Hp Hfp. case_decide; [done|]. rewrite ->(view_at s a pre p (x :: post) z), Hp, Hfp by (done || lia). done.
      * rewrite ->decide_False by lia. done.
    + intros Hf. rw Hfr Hf Hso Hn !filter_app !filter_cons Hmp /=.
      assert (forall l, (forall y, y ∈ l -> y ∈ pre \/ y ∈ post) -> filter (FREE (mr s')) l = filter (FREE (mr s)) l) as Hfe.
      { intros l Hl. apply list_filter_ext. intros y Hy.
        destruct (respliced_outside _ _ _ _ _ _ _ _ _ Hc Hr ltac:(set_solver) y (Hl y Hy)) as [_ ->]. done. }
      rw !Hfe; [clear; set_solver..|]. repeat case_decide; try done; simpl; solve_Permutation.
Qed.

(** One iteration of the freeing loop on an allocated region of the range. *)
Lemma free_one_spec s a x pre post addr ceil :
  as_inv s a -> hint (asp s a) = None -> sorted s a = pre ++ x :: post ->
  mr_type (mr s x) <> MR_TYPE_FREE -> addr <= base_addr (mr s x) -> ceiling_addr (mr s x) <= ceil ->
  exists s', free_one a x addr ceil s = Ok (tt, s') /\ freed s s' a x post /\ free_ok s' a.
Proof.
  intros [Hc Hf] Hh Hso Hty Ha Hcl. pose proof (inv_nodup _ _ Hc) as Hnd. rw Hso in Hnd.
  pose proof Hnd as (_ & Hd & [Hxp _]%NoDup_cons)%NoDup_app.
  assert (x ∉ pre) as Hxpre by set_solver.
  rw /free_one {1}/mbind {1}/M_bind /gets. rewrite ->(proj2 (Z.leb_le _ _)), (proj2 (Z.leb_le _ _)) by done.
  rw /= Hso dl_prev_app //.
  destruct (is_free s (last pre)) as [p|] eqn:Hif.
  - rw /is_free in Hif. destruct (last pre) as [p'|] eqn:Hl; [|done]. case_bool_decide as Hp; simplify_eq.
    apply last_Some in Hl as [pre' ->]. rw -app_assoc /= in Hso.
    destruct (absorb_inv s a p x pre' post Hc Hh Hso Hp) as (s' & Hrun & Hfr & _ & Hfree).
    exists s'. split_and!; [done|done|]. rw /free_ok Hfree // decide_False //.
  - assert (x ∉ free s a) as Hxf. { rw Hf list_elem_of_filter. tauto. }
    assert (wp (_ ← upd_mr x (fun m => m <| mr_type := MR_TYPE_FREE |> <| mr_flags := 0 |>);
                on_free a (dl_add_head x)) (fun _ s' =>
       respliced s s' a pre [x] [x] post (x :: free s a) (unused_memregion_list s) /\
       hint (asp s' a) = None /\ mr s' x = (mr s x) <| mr_type := MR_TYPE_FREE |> <| mr_flags := 0 |>) s) as Hwp.
    { vsteps ltac:(by apply dl_add_head_ok). split_and!; [split|..]; intros; reads; rw ?Hso //.
      rewrite ->!fn_lookup_insert_ne by set_solver. done. }
    apply wp_unit in Hwp as (s' & Hrun & Hr & Hh' & Hmx). exists s'. split; [done|].
    assert (forall y, y ∈ [x] -> y ∈ [x] \/ y ∈ unused_memregion_list s) as Hnew by tauto.
    pose proof (inv_tiles _ _ Hc) as Ht. rw Hso in Ht. apply tiles_mid in Ht as (T1 & Hbx & T2).
    destruct (respliced_core s s' a pre [x] [x] post _ _ (base_addr (mr s x)) (ceiling_addr (mr s x)) Hc Hr)
      as [Hc' Hv]; try done.
    + simpl. rw Hmx /=. done.
    + apply NoDup_singleton.
    + intros y ->%list_elem_of_singleton. by rw Hmx.
    + by rw Hh'.
    + apply (inv_unused _ _ Hc).
    + intros y Hy. split; [by right|]. intros ->%list_elem_of_singleton. apply (inv_disj _ _ Hc x Hy). rw Hso. set_solver.
    + pose proof (respliced_outside _ _ _ _ _ _ _ _ _ Hc Hr Hnew) as Hout.
      split; [split|].
      * done.
      * done.
      * apply (rs_as _ _ _ _ _ _ _ _ _ Hr).
      * exists pre, x. rw (rs_new _ _ _ _ _ _ _ _ _ Hr) Hmx. done.
      * intros y Hy. apply Hout. by right.
      * intros z. rw Hv. case_decide as Hz; [|done]. rw /view_of /= /covers Hmx /=.
        rewrite ->(proj2 (Z.leb_le _ _)), (proj2 (Z.ltb_lt _ _)) by lia. by rw /= Hmx.
      * eapply respliced_free_ok; [exact Hc|exact Hf|exact Hr|exact Hnew|].
        rw !filter_cons !filter_nil Hmx /= decide_False //. solve_Permutation.
Qed.

Lemma free_loop_spec m : forall s a pre y post lo hi addr fuel,
  as_inv s a -> hint (asp s a) = None -> sorted s a = pre ++ m ++ y :: post ->
  tiles (mr s) lo m hi -> base_addr (mr s y) = hi -> addr <= lo ->
  (forall x, x ∈ m -> mr_type (mr s x) <> MR_TYPE_FREE) ->
  (m = [] -> exists pre' p, pre = pre' ++ [p] /\ mr_type (mr s p) = MR_TYPE_FREE) ->
  (length m < fuel)%nat ->
  exists s', free_loop fuel a (head (m ++ y :: post)) addr hi s = Ok (Some y, s') /\
    as_inv s' a /\ hint (asp s' a) = None /\ (forall c, c <> a -> asp s' c = asp s c) /\
    (exists pre' p, sorted s' a = pre' ++ p :: y :: post /\ mr_type (mr s' p) = MR_TYPE_FREE) /\
    mr s' y = mr s y /\
    (forall z, view s' a z = if decide (lo <= z < hi) then Some (MR_TYPE_FREE, 0) else view s a z).
Proof.
  induction m as [|x m IH]; intros s a pre y post lo hi addr fuel Hinv Hh Hso Htl Hy Ha Hnf Hpre Hfuel;
    (destruct fuel as [|fuel]; [simpl in Hfuel; lia|]); simpl.
  - exists s. rw /mbind /M_bind /gets /= Hy Z.ltb_irrefl. simpl in Htl.
    destruct (Hpre eq_refl) as (pre' & p & -> & Hp). split_and!; try done.
    + exists pre', p. by rw Hso -app_assoc.
    + intros z. rewrite ->decide_False by lia. done.
  - destruct Htl as (Hbx & Hcx & Htl). pose proof (tiles_le _ _ _ _ Htl).
    assert (mr_type (mr s x) <> MR_TYPE_FREE) as Hx by (apply Hnf; set_solver).
    destruct (free_one_spec s a x pre (m ++ y :: post) addr hi) as (s1 & Hrun & Hfr & Hf1); [done..|lia|done|].
    rw {1}/mbind {1}/M_bind /gets /= Hbx. rewrite ->(proj2 (Z.ltb_lt _ _)) by lia.
    rw {1}/mbind {1}/M_bind Hrun Hso dl_next_app.
    { pose proof Hinv as [Hc _]. pose proof (inv_nodup _ _ Hc) as Hnd. rw Hso in Hnd.
      apply NoDup_app in Hnd as (_ & Hd & _). intros Hxp. apply (Hd x Hxp). clear. set_solver. }
    destruct (fr_sorted _ _ _ _ _ Hfr) as (pre1 & p & Hso1 & Hp).
    pose proof (fr_post _ _ _ _ _ Hfr) as Hpost.
    assert (forall w, w ∈ m -> mr s1 w = mr s w) as Hm by (intros w Hw; apply Hpost; clear -Hw; set_solver).
    destruct (IH s1 a (pre1 ++ [p]) y post (ceiling_addr (mr s x)) hi addr fuel) as
      (s' & Hrun' & Hinv' & Hh' & Has' & Hso' & Hmy & Hv').
    + split; [apply (fr_core _ _ _ _ _ Hfr)|done].
    + apply (fr_hint _ _ _ _ _ Hfr).
    + by rw Hso1 -app_assoc.
    + eapply tiles_frame, Htl. intros w Hw. by rw Hm.
    + rw Hpost //. clear. set_solver.
    + lia.
    + intros w Hw. rw Hm //. apply Hnf. clear -Hw. set_solver.
    + intros ->. by exists pre1, p.
    + simpl in Hfuel. lia.
    + exists s'. split_and!; try done.
      * intros c Hc. rw Has' //. by apply (fr_as _ _ _ _ _ Hfr).
      * rw Hmy Hpost //. clear. set_solver.
      * intros z. rw Hv' (fr_view _ _ _ _ _ Hfr) Hbx. repeat case_decide; try done; lia.
Qed.

Lemma unhint s a :
  as_inv s a -> let s' := s <| asp ::= fun m => <[a := (m a) <| hint := None |>]> m |> in
  as_inv s' a /\ hint (asp s' a) = None /\ sorted s' a = sorted s a /\ mr s' = mr s /\
  (forall c, c <> a -> asp s' c = asp s c) /\ forall z, view s' a z = view s a z.
Proof.
  intros [[????? ??] Hf] s'. rw /s' /view. reads. split_and!; try done.
  - split; [split|rw /free_ok]; reads; try done.
  - intros c Hc. by reads.
Qed.

(** After the two splits, the range is a whole number of regions. *)
Lemma free_ready s a addr size :
  as_inv s a -> 0 < size -> VM_USER_BASE <= addr -> addr + size < VM_USER_CEILING ->
  (2 <= length (unused_memregion_list s))%nat ->
  exists s1 s2 x1 m x2 l1 l2,
    memregion_split a addr s = Ok (RVal 0, s1) /\ memregion_split a (addr + size) s1 = Ok (RVal 0, s2) /\
    as_inv s2 a /\ (forall c, c <> a -> asp s2 c = asp s c) /\ (forall z, view s2 a z = view s a z) /\
    sorted s2 a = l1 ++ (x1 :: m) ++ x2 :: l2 /\ base_addr (mr s2 x2) = addr + size /\
    tiles (mr s2) addr (x1 :: m) (addr + size).
Proof.
  intros Hinv Hsz Hb Hcl Hun.
  destruct (split_spec s a addr Hinv) as (r1 & s1 & Hrun1 & Hinv1 & Has1 & Hv1 & Hk1 & Hu1 & Hr1).
  destruct Hr1 as [[_ ?]|[[_ Hu]|[-> (x1 & Hx1 & Hbx1)]]]; [lia|rw Hu in Hun; simpl in Hun; lia|].
  destruct (split_spec s1 a (addr + size) Hinv1) as (r2 & s2 & Hrun2 & Hinv2 & Has2 & Hv2 & Hk2 & Hu2 & Hr2).
  destruct Hr2 as [[_ ?]|[[_ Hu]|[-> (x2 & Hx2 & Hbx2)]]]; [lia|rw Hu in Hu1; simpl in Hu1; lia|].
  destruct (Hk2 x1 Hx1) as [Hx1' Hb1]. rw Hbx1 in Hb1.
  destruct (between s2 a x1 x2) as (l1 & m & l2 & Hso & Htl); [apply Hinv2|done|done|lia|].
  rw Hb1 Hbx2 in Htl. exists s1, s2, x1, m, x2, l1, l2. split_and!; try done.
  - intros c Hc. by rw Has2 // Has1.
  - intros z. by rw Hv2.
Qed.

(** [memregion_free] on a range of allocated memory, in full: the last clause
    is about the region above the range. *)
Lemma memregion_free_run s a addr size :
  as_inv s a -> 0 < size -> VM_USER_BASE <= addr -> addr + size < VM_USER_CEILING ->
  (2 <= length (unused_memregion_list s))%nat ->
  (forall z, addr <= z < addr + size -> forall fl, view s a z <> Some (MR_TYPE_FREE, fl)) ->
  exists s', memregion_free a addr size s = Ok (RVal 0, s') /\ core s' a /\
    (forall c, c <> a -> asp s' c = asp s c) /\
    (forall z, view s' a z = if decide (addr <= z < addr + size) then Some (MR_TYPE_FREE, 0) else view s a z) /\
    ((forall fl, view s a (addr + size) <> Some (MR_TYPE_FREE, fl)) -> free_ok s' a) /\
    (forall fl, view s a (addr + size) = Some (MR_TYPE_FREE, fl) ->
       exists y, y ∈ free s' a /\ y ∈ unused_memregion_list s').
Proof.
  intros Hinv Hsz Hb Hcl Hun Halloc.
  destruct (free_ready s a addr size Hinv Hsz Hb Hcl Hun) as
    (s1 & s2 & x1 & m & x2 & l1 & l2 & Hrun1 & Hrun2 & Hinv2 & Has2 & Hv2 & Hso2 & Hbx2 & Htl).
  pose proof Hinv2 as [Hc2 _].
  assert (wrap32 (addr + size) = addr + size) as Hw.
  { apply wrap32_id. pose proof user_base_nonneg. pose proof user_ceiling_u32. pose proof page_size_pos. rw /u32. lia. }
  destruct (find_sorted_spec s2 a addr Hc2) as (s3 & Hfs & Hh).
  assert (find_covering (mr s2) (sorted s2 a) addr = Some x1) as Hfc.
  { pose proof (inv_tiles _ _ Hc2) as Ht. destruct Htl as (Hb1 & Hc1 & _). rw Hso2 /= in Ht |- *.
    apply (find_covering_unique _ _ _ _ _ _ addr Ht). lia. }
  rw Hfc in Hfs. pose proof (hinted_facts _ _ _ Hh) as (Hso3 & _ & Hmr3 & _ & Has3 & Hv3 & Hc3 & Hf3).
  assert (as_inv s3 a) as Hinv3 by (destruct Hinv2; split; auto).
  destruct (unhint s3 a Hinv3) as (Hinv4 & Hh4 & Hso4 & Hmr4 & Has4 & Hv4).
  set s4 := s3 <| asp ::= fun m => <[a := (m a) <| hint := None |>]> m |> in Hinv4 Hh4 Hso4 Hmr4 Has4 Hv4.
  assert (forall z, view s4 a z = view s a z) as Hv by (intros z; by rw Hv4 Hv3 Hv2).
  rw Hso3 Hso2 in Hso4. rw Hmr3 in Hmr4.
  destruct (free_loop_spec (x1 :: m) s4 a l1 x2 l2 addr (addr + size) addr (S (length (sorted s4 a)))) as
    (s5 & Hrun5 & Hinv5 & Hh5 & Has5 & (pre' & p & Hso5 & Hp) & Hmy & Hv5); try done.
  - by rw Hmr4.
  - by rw Hmr4.
  - lia.
  - intros w Hw' Hty. pose proof (tiles_bounds _ _ _ _ w Htl Hw') as Hbw.
    apply elem_split in Hw' as (m1 & m2 & Hm & _).
    apply (Halloc (base_addr (mr s4 w)) ltac:(rw Hmr4; lia) (mr_flags (mr s4 w))).
    rw -Hv -Hty. apply (view_at s4 a (l1 ++ m1) w (m2 ++ x2 :: l2)); [apply Hinv4|by rw Hso4 Hm -!app_assoc|].
    rw Hmr4. lia.
  - rw Hso4 !length_app /=. lia.
  - assert (memregion_free a addr size s =
      (_ ← (if bool_decide (mr_type (mr s5 x2) = MR_TYPE_FREE) then
              match is_free s5 (dl_prev x2 (sorted s5 a)) with Some p => absorb a p x2 | None => mret tt end
            else mret tt); mret (RVal 0)) s5) as ->.
    { rw /memregion_free Hw {1}/mbind {1}/M_bind Hrun1 {1}/mbind {1}/M_bind Hrun2 bool_decide_true //.
      cbn [negb orb]. rw {1}/mbind {1}/M_bind Hfs {1}/mbind {1}/M_bind {1}/upd_as {1}/modify.
      rw {1}/mbind {1}/M_bind {1}/gets {1}/mbind {1}/M_bind.
      change (head ((x1 :: m) ++ x2 :: l2)) with (Some x1) in Hrun5. rw Hrun5. done. }
    destruct Hinv5 as [Hc5 Hf5].
    assert (x2 ∉ pre' ++ [p]) as Hx2.
    { pose proof (inv_nodup _ _ Hc5) as Hnd. rw Hso5 (app_assoc pre' [p] (x2 :: l2)) in Hnd.
      apply NoDup_app in Hnd as (_ & Hd & _). intros Hi. apply (Hd x2 Hi). clear. set_solver. }
    assert (dl_prev x2 (sorted s5 a) = Some p) as ->.
    { rw Hso5 (app_assoc pre' [p] (x2 :: l2)) dl_prev_app // last_snoc //. }
    assert (view s a (addr + size) = Some (mr_type (mr s2 x2), mr_flags (mr s2 x2))) as Hvx.
    { rw -Hv2. apply (view_at s2 a (l1 ++ x1 :: m) x2 l2); [done|by rw Hso2 -app_assoc|].
      rw Hbx2. pose proof (inv_tiles _ _ Hc2) as Ht. rw Hso2 (app_assoc l1 (x1 :: m) (x2 :: l2)) in Ht.
      apply tiles_mid in Ht as (_ & Ht & _). lia. }
    rw Hmy Hmr4 /is_free (bool_decide_true (mr_type (mr s5 p) = MR_TYPE_FREE)) //. rw Hmr4 in Hmy.
    case_bool_decide as Hfx.
    + destruct (absorb_inv s5 a p x2 pre' l2 Hc5 Hh5 Hso5 Hp) as (s' & Hrun & Hfr & Hu' & Hfree).
      exists s'. split; [by rw /mbind /M_bind Hrun|]. split_and!.
      * apply (fr_core _ _ _ _ _ Hfr).
      * intros c Hc. rw (fr_as _ _ _ _ _ Hfr) // Has5 // Has4 // Has3 // Has2 //.
      * clear Hfree. intros z. rw (fr_view _ _ _ _ _ Hfr) Hv5 Hv Hmy Hbx2. repeat case_decide; try done; try lia.
        assert (mr_flags (mr s2 x2) = 0) as Hfl. { apply (inv_flags _ _ Hc2); [rw Hso2; clear; set_solver|done]. }
        assert (sorted s2 a = (l1 ++ x1 :: m) ++ x2 :: l2) as Hso2' by (by rw Hso2 -app_assoc).
        rw -Hv2 (view_at s2 a _ x2 l2 z Hc2 Hso2') ?Hfx ?Hfl //. lia.
      * intros Hn. exfalso. eapply Hn. by rw Hvx Hfx.
      * intros _ _. exists x2. rw Hfree // Hmy decide_True // Hu'. clear. set_solver.
    + exists s5. split; [done|]. split_and!; try done.
      * intros c Hc. rw Has5 // Has4 // Has3 // Has2 //.
      * intros z. by rw Hv5 Hv.
      * intros fl Hfl. congruence.
Qed.
End props.
