(* ===== verification/MemRegionLife.v ===== *)
(** * MemRegionLife: creation, fork and teardown of an address space

    [init_memregions], [fork_memregions] and [memregion_free_all] of
    vm/memregion.c, and the properties of splitting, freeing and finding. *)

From S2P Require Import Prelude MemRegion MemRegionInv MemRegionCreate MemRegionFree.
Local Open Scope Z_scope.
Local Open Scope kernel_scope.
Import Ops Inv.

Section life.
Context `{Board}.
Implicit Types (s : vm) (a x y : nat) (l : list nat).

(** *** Teardown *)

(** What the loop needs: the lists hold what they should, whatever the
    regions cover. *)
Record lists_ok s a : Prop := {
  lo_nodup : NoDup (sorted s a);
  lo_free : free_ok s a;
  lo_unused : NoDup (unused_memregion_list s);
  lo_disj : forall x, x ∈ unused_memregion_list s -> x ∉ sorted s a }.

Lemma as_inv_lists_ok s a : as_inv s a -> lists_ok s a.
Proof. by intros [[] ?]. Qed.

Lemma free_all_unlink s a x l :
  NoDup (x :: l) -> sorted s a = x :: l -> free s a ≡ₚ filter (FREE (mr s)) l ->
  NoDup (x :: unused_memregion_list s) -> (forall y, y ∈ unused_memregion_list s -> y ∉ l) ->
  wp (_ ← on_sorted a dl_rem_head;
      _ ← upd_mr x (fun m => m <| mr_as := None |> <| mr_type := MR_TYPE_UNALLOCATED |>);
      on_unused (dl_add_head x)) (fun _ s' => lists_ok s' a /\ sorted s' a = l /\
    unused_memregion_list s' = x :: unused_memregion_list s /\
    (forall c, c <> a -> asp s' c = asp s c) /\ (forall y, y <> x -> mr s' y = mr s y)) s.
Proof.
  intros [Hxl Hnd]%NoDup_cons Hso Hfl [Hxu Hu]%NoDup_cons Hd.
  apply wp_bind. eapply wp_on_sorted; [by rw Hso|].
  apply wp_bind, wp_upd_mr. eapply wp_on_unused; [reads; by apply dl_add_head_ok|].
  split_and!; [|by reads|done|by intros; reads|by intros; reads].
  split; [by reads| | |].
  - rw /free_ok. reads. rw Hfl. apply Permutation_refl', list_filter_ext. intros y Hy.
    assert (x <> y) by set_solver. by reads.
  - reads. by apply NoDup_cons.
  - reads. intros y [->|Hy]%elem_of_cons; [done|]. by apply Hd.
Qed.

Lemma free_all_one_spec s a x l :
  lists_ok s a -> sorted s a = x :: l ->
  exists s', free_all_one a x s = Ok (tt, s') /\ lists_ok s' a /\ sorted s' a = l /\
    unused_memregion_list s' = x :: unused_memregion_list s /\
    (forall c, c <> a -> asp s' c = asp s c) /\ (forall y, y <> x -> mr s' y = mr s y).
Proof.
  intros [Hnd Hf Hu Hd] Hso. rw /free_ok Hso in Hf. rw Hso in Hnd Hd.
  assert (NoDup (x :: unused_memregion_list s)) as Hxu.
  { apply NoDup_cons. split; [|done]. intros Hi. apply (Hd x Hi). set_solver. }
  assert (forall y, y ∈ unused_memregion_list s -> y ∉ l) as Hd'. { intros y Hy. apply Hd in Hy. set_solver. }
  apply wp_unit. rw /free_all_one. wp_steps.
  case_bool_decide as Hty.
  - rw filter_cons decide_True // in Hf. eapply wp_on_free; [apply dl_rem_ok; rw Hf; set_solver|].
    eapply wp_mono; [apply (free_all_unlink _ a x l)|]; try (by reads).
    + reads. apply (Permutation_cons_inv (a := x)). rw list_remove1_perm; [rw Hf; set_solver|done].
    + reads. intros [] s' (? & ? & ? & Hc & ?). split_and!; try done. intros c ?. rw Hc //. by reads.
  - rw filter_cons decide_False // in Hf. apply wp_ret. by apply free_all_unlink.
Qed.

Lemma free_all_loop_spec l : forall s a n,
  lists_ok s a -> sorted s a = l -> n = length l ->
  exists s', free_all_loop n a s = Ok (tt, s') /\ lists_ok s' a /\ sorted s' a = [] /\
    unused_memregion_list s' = reverse l ++ unused_memregion_list s /\
    (forall c, c <> a -> asp s' c = asp s c) /\ (forall y, y ∉ l -> mr s' y = mr s y).
Proof.
  induction l as [|x l IH]; intros s a n Hok Hso ->; simpl; rw /mbind /M_bind /gets Hso.
  - exists s. by split_and!.
  - destruct (free_all_one_spec s a x l Hok Hso) as (s1 & -> & Hok1 & Hso1 & Hu1 & Hc1 & Hm1).
    destruct (IH s1 a _ Hok1 Hso1 eq_refl) as (s2 & -> & Hok2 & Hso2 & Hu2 & Hc2 & Hm2).
    exists s2. split_and!; try done.
    + by rw Hu2 Hu1 reverse_cons -app_assoc.
    + intros c ?. by rw Hc2 // Hc1.
    + intros y Hy. rw Hm2; [set_solver|]. apply Hm1. set_solver.
Qed.

Lemma memregion_free_all_run s a :
  lists_ok s a ->
  exists s', memregion_free_all a s = Ok (tt, s') /\ asp s' a = mkAddressSpace [] [] None /\
    unused_memregion_list s' = reverse (sorted s a) ++ unused_memregion_list s /\
    (forall c, c <> a -> asp s' c = asp s c) /\ (forall y, y ∉ sorted s a -> mr s' y = mr s y).
Proof.
  intros Hok. rw /memregion_free_all {1}/mbind {1}/M_bind /gets.
  destruct (free_all_loop_spec _ s a _ Hok eq_refl eq_refl) as (s1 & Hrun & Hok1 & Hso1 & Hu1 & Hc1 & Hm1).
  rw /mbind /M_bind Hrun. eexists. split; [done|]. split_and!; try done.
  - reads. pose proof (lo_free _ _ Hok1) as Hf. rw /free_ok Hso1 filter_nil in Hf.
    apply Permutation_nil_r in Hf. destruct (asp s1 a). by simplify_eq/=.
  - intros c ?. reads. by apply Hc1.
Qed.

(** *** Fork *)

(** The regions [ns] are copies for address space [new] of the regions [os]. *)
Definition copies (t t' : nat -> MemRegion) (new : nat) (os ns : list nat) : Prop :=
  Forall2 (fun o n => t' n = (t o) <| mr_as := Some new |>) os ns.

Lemma copies_tiles t t' new os ns : copies t t' new os ns -> forall lo hi,
  tiles t lo os hi -> tiles t' lo ns hi.
Proof.
  induction 1 as [|o n os ns Hon Hos IH]; intros lo hi; simpl; [done|].
  rw Hon /=. intros (? & ? & ?). auto.
Qed.

Lemma copies_find t t' new os ns addr : copies t t' new os ns ->
  match find_covering t os addr, find_covering t' ns addr with
  | Some o, Some n => t' n = (t o) <| mr_as := Some new |>
  | None, None => True
  | _, _ => False
  end.
Proof.
  induction 1 as [|o n os ns Hon Hos IH]; simpl; [done|].
  rw Hon /covers /=. by destruct (_ && _).
Qed.

Lemma fork_one_spec s new o n (k : M vm bool) (Q : bool -> vm -> Prop) :
  n <> o -> n ∉ sorted s new -> n ∉ free s new ->
  (forall s1, unused_memregion_list s1 = unused_memregion_list s -> mr s1 n = (mr s o) <| mr_as := Some new |> ->
     (forall y, y <> n -> mr s1 y = mr s y) -> sorted s1 new = sorted s new ++ [n] ->
     free s1 new = free s new ++ opt_list (bool_decide (mr_type (mr s o) = MR_TYPE_FREE)) n ->
     hint (asp s1 new) = hint (asp s new) -> (forall c, c <> new -> asp s1 c = asp s c) -> wp k Q s1) ->
  wp (_ ← on_sorted new (dl_add_tail n);
      r ← gets (fun s => mr s o);
      _ ← upd_mr n (fun m => m <| base_addr := base_addr r |> <| ceiling_addr := ceiling_addr r |>
             <| mr_type := mr_type r |> <| mr_flags := mr_flags r |>
             <| phys_base_addr := phys_base_addr r |> <| mr_as := Some new |>);
      _ ← (if bool_decide (mr_type r = MR_TYPE_FREE) then on_free new (dl_add_tail n) else mret tt);
      k) Q s.
Proof.
  intros Hno Hns Hnf Hk. apply wp_bind. eapply wp_on_sorted; [by apply dl_add_tail_ok|].
  apply wp_bind, wp_gets, wp_bind, wp_upd_mr, wp_bind. reads. rw /opt_list in Hk.
  case_bool_decide; [eapply wp_on_free; [reads; by apply dl_add_tail_ok|]|apply wp_ret];
    apply Hk; try (by reads); try (by intros; reads); reads; try by destruct (mr s o).
  by rw app_nil_r.
Qed.

Lemma fork_loop_spec l : forall s new,
  NoDup (unused_memregion_list s) -> (forall x, x ∈ unused_memregion_list s -> x ∉ sorted s new) ->
  (forall x, x ∈ unused_memregion_list s -> x ∉ l) -> free s new = filter (FREE (mr s)) (sorted s new) ->
  wp (fork_loop new l) (fun ok s' => exists ns,
    ok = bool_decide (length l <= length (unused_memregion_list s))%nat /\
    unused_memregion_list s = ns ++ unused_memregion_list s' /\ sorted s' new = sorted s new ++ ns /\
    free s' new = filter (FREE (mr s')) (sorted s' new) /\ hint (asp s' new) = hint (asp s new) /\
    copies (mr s) (mr s') new (take (length ns) l) ns /\ (ok = true -> length ns = length l) /\
    (forall c, c <> new -> asp s' c = asp s c) /\ (forall y, y ∉ unused_memregion_list s -> mr s' y = mr s y)) s.
Proof.
  induction l as [|o l IH]; intros s new Hu Hd Hdl Hf.
  { apply wp_ret. exists []. rw app_nil_r. by split_and!. }
  simpl. apply wp_bind. rw /wp alloc_memregion_run.
  destruct (unused_memregion_list s) as [|n ul] eqn:Eu.
  { exists []. rw Eu. split_and!; rw ?app_nil_r //. }
  apply NoDup_cons in Hu as [Hnu Hu]. assert (n <> o) as Hno by set_solver.
  assert (n ∉ sorted s new) as Hnn by (apply Hd; set_solver).
  apply fork_one_spec; [done..| |].
  { simpl. rw Hf. intros [_ Hi]%list_elem_of_filter. done. }
  simpl. intros s1 Hu1 Hn1 Hm1 Hso1 Hf1 Hh1 Hc1.
  assert (forall y, y ∈ sorted s new -> mr s1 y = mr s y) as Hms by (intros y Hy; apply Hm1; set_solver).
  eapply wp_mono; [apply (IH s1 new)|].
  - by rw Hu1.
  - rw Hu1 Hso1. set_solver.
  - rw Hu1. set_solver.
  - rw Hf1 Hso1 filter_app (list_filter_ext (FREE (mr s1)) (FREE (mr s)) (sorted s new)).
    { intros y Hy. by rw Hms. }
    rw -Hf filter_cons filter_nil Hn1 /=. by case_bool_decide; case_decide.
  - intros ok s2 (ns & Hok & Hus & Hso & Hfr & Hh & Hcp & Hlen & Hc & Hm). rw Hu1 in Hok Hus Hm.
    exists (n :: ns). split_and!; try done.
    + rw Hok /=. apply bool_decide_ext. lia.
    + simpl. by f_equal.
    + by rw Hso Hso1 -app_assoc.
    + by rw Hh Hh1.
    + simpl. constructor; [by rw Hm|].
      apply Forall2_same_length_lookup. apply Forall2_same_length_lookup in Hcp as [Hl Hcp].
      split; [done|]. intros i x y Hx Hy. rw (Hcp i x y Hx Hy) Hm1 //.
      intros ->. apply (Hdl n); [set_solver|]. apply list_elem_of_lookup_2 in Hx.
      apply elem_of_take in Hx as (j & Hj & _). apply list_elem_of_lookup_2 in Hj. set_solver.
    + intros Ht. simpl. f_equal. auto.
    + intros c ?. by rw Hc // Hc1.
    + intros y Hy. rw Hm; [set_solver|]. apply Hm1. set_solver.
Qed.

(** What happens to other regions does not concern an address space. *)
Lemma as_inv_frame s s' a :
  as_inv s a -> asp s' a = asp s a -> (forall x, x ∈ sorted s a -> mr s' x = mr s x) ->
  NoDup (unused_memregion_list s') -> (forall x, x ∈ unused_memregion_list s' -> x ∈ unused_memregion_list s) ->
  as_inv s' a /\ (forall z, view s' a z = view s a z).
Proof.
  intros [[] Hf] Ha Hm Hu Hsub. split; [split; [split|]|].
  all: rw ?/free_ok ?Ha; try done.
  - eapply tiles_frame; [|eassumption]. intros x Hx. by rw Hm.
  - intros x Hx. rw Hm //; auto.
  - intros x Hx. rw Hm //; auto.
  - auto.
  - rw Hf. apply Permutation_refl', list_filter_ext. intros x Hx. by rw Hm.
  - intros z. rw /view Ha (find_covering_frame (mr s) (mr s')). { intros x Hx. by rw Hm. }
    case_match eqn:E; [|done]. apply find_covering_Some in E as [? _]. by rw Hm.
Qed.

(** An address space made of copies of another's regions. *)
Lemma copies_inv s s' new old :
  as_inv s old -> copies (mr s) (mr s') new (sorted s old) (sorted s' new) ->
  NoDup (sorted s' new) -> free_ok s' new -> hint (asp s' new) = None -> NoDup (unused_memregion_list s') ->
  (forall x, x ∈ sorted s' new -> x ∉ unused_memregion_list s') ->
  as_inv s' new /\ (forall z, view s' new z = view s old z) /\
  (forall x, x ∈ sorted s' new -> mr_as (mr s' x) = Some new).
Proof.
  intros [[] _] Hcp Hnd Hf Hh Hu Hd.
  assert (forall x, x ∈ sorted s' new -> exists o, o ∈ sorted s old /\ mr s' x = (mr s o) <| mr_as := Some new |>) as Hx.
  { intros x Hx. apply list_elem_of_lookup_1 in Hx as [i Hi].
    destruct (Forall2_lookup_r _ _ _ _ _ Hcp Hi) as (o & Ho & Heq). apply list_elem_of_lookup_2 in Ho. eauto. }
  split; [split; [split|]; try done|split].
  - eapply copies_tiles; eassumption.
  - intros x (o & Ho & ->)%Hx. simpl. auto.
  - intros x (o & Ho & ->)%Hx. simpl. auto.
  - intros h. by rw Hh.
  - intros x Hi Hs. by apply (Hd x Hs).
  - intros z. rw /view. pose proof (copies_find _ _ _ _ _ z Hcp) as Hz. repeat case_match; try done. by rw Hz.
  - intros x (o & Ho & ->)%Hx. done.
Qed.

Lemma init_spec s a n ul :
  unused_memregion_list s = n :: ul -> NoDup (n :: ul) ->
  exists s', init_memregions a s = Ok (RVal 0, s') /\ as_inv s' a /\
    unused_memregion_list s' = ul /\ (forall c, c <> a -> asp s' c = asp s c) /\
    (forall z, view s' a z = if decide (VM_USER_BASE <= z < VM_USER_CEILING) then Some (MR_TYPE_FREE, 0) else None).
Proof.
  intros Hu [Hn Hnd]%NoDup_cons. rw /init_memregions.
  enough (wp (init_memregions a) (fun r s' => r = RVal 0 /\ as_inv s' a /\
    unused_memregion_list s' = ul /\ (forall c, c <> a -> asp s' c = asp s c) /\
    (forall z, view s' a z = if decide (VM_USER_BASE <= z < VM_USER_CEILING) then Some (MR_TYPE_FREE, 0) else None)) s)
    as (? & s' & ? & -> & ?)%wp_ok by eauto.
  rw /init_memregions. apply wp_bind, wp_upd_as, wp_bind, wp_gets. reads. rw Hu.
  apply wp_bind. eapply wp_on_unused; [reads; by rw Hu|].
  apply wp_bind. eapply wp_on_sorted; [reads; apply dl_add_tail_ok; set_solver|].
  apply wp_bind. eapply wp_on_free; [reads; apply dl_add_tail_ok; set_solver|].
  apply wp_bind, wp_upd_mr, wp_ret. pose proof user_range. split_and!; [done| |by reads|by intros; reads|].
  - split; [split|rw /free_ok]; reads; rw ?filter_cons ?filter_nil; reads; try done.
    + apply NoDup_singleton.
    + intros x ->%list_elem_of_singleton. by reads.
    + intros x ->%list_elem_of_singleton. by reads.
    + set_solver.
  - intros z. rw /view. reads. rw /covers. reads. zcases; simpl; reads; case_decide; try done; lia.
Qed.

(** [init_memregions] establishes the address-space invariant, with every
    user address free and nothing outside the user range mapped. *)
Theorem init_memregions_correct s a :
  NoDup (unused_memregion_list s) -> unused_memregion_list s <> [] ->
  exists s', init_memregions a s = Ok (RVal 0, s') /\ as_inv s' a /\
    S (length (unused_memregion_list s')) = length (unused_memregion_list s) /\
    (forall c, c <> a -> asp s' c = asp s c) /\
    (forall z, view s' a z = if decide (VM_USER_BASE <= z < VM_USER_CEILING) then Some (MR_TYPE_FREE, 0) else None).
Proof.
  intros Hnd Hne. destruct (unused_memregion_list s) as [|n ul] eqn:Hu; [done|].
  destruct (init_spec s a n ul Hu Hnd) as (s' & ? & ? & ? & ? & ?). exists s'. split_and!; try done. simpl. congruence.
Qed.

(** What [fork_memregions] returns and gives the child. *)
Definition forked s s' new old (r : ret) : Prop :=
  if decide (length (sorted s old) <= length (unused_memregion_list s))%nat
  then r = RVal 0 /\ as_inv s' new /\ (forall z, view s' new z = view s old z) /\
         (forall x, x ∈ sorted s' new -> mr_as (mr s' x) = Some new)
  else r = RErr ENOMEM /\ asp s' new = mkAddressSpace [] [] None /\
         unused_memregion_list s' ≡ₚ unused_memregion_list s.
Lemma fork_memregions_run s new old :
  as_inv s old -> new <> old ->
  exists r s', fork_memregions new old s = Ok (r, s') /\
    as_inv s' old /\ (forall c, c <> new -> asp s' c = asp s c) /\ (forall z, view s' old z = view s old z) /\ forked s s' new old r.
Proof.
  rw /forked. intros Hinv Hne. pose proof Hinv as [Hc Hf]. rw /fork_memregions {1}/mbind {1}/M_bind {1}/upd_as {1}/modify.
  rw {1}/mbind {1}/M_bind {1}/gets. set s0 := setf _ s. assert (sorted s0 old = sorted s old) as Ho by (rw /s0; by reads).
  destruct (proj1 (wp_ok _ _ _) (fork_loop_spec (sorted s0 old) s0 new ltac:(apply Hc) ltac:(rw /s0; reads; set_solver)
    ltac:(rw Ho; apply Hc) ltac:(rw /s0; by reads))) as
    (ok & s1 & Hrun & ns & Hok & Hu & Hso & Hfr & Hh & Hcp & Hlen & Hcs & Hm).
  rw {1}/mbind {1}/M_bind Hrun. rw Ho in Hok Hcp Hlen.
  assert (sorted s0 new = []) as E by (rw /s0; by reads). rw E app_nil_l in Hso. clear E.
  assert (hint (asp s0 new) = None) as E by (rw /s0; by reads). rw E in Hh. clear E.
  change (unused_memregion_list s0) with (unused_memregion_list s) in *. change (mr s0) with (mr s) in *.
  assert (forall c, c <> new -> asp s1 c = asp s c) as Hcs1. { intros c Hcn. rw Hcs // /s0. by reads. }
  assert (forall x, x ∈ sorted s old -> mr s1 x = mr s x) as Hmo.
  { intros x Hx. apply Hm. intros Hi. by apply (inv_disj _ _ Hc x Hi). }
  pose proof (inv_unused _ _ Hc) as Hnd. rw Hu in Hnd. apply NoDup_app in Hnd as (Hnd1 & Hnd12 & Hnd2).
  destruct (decide _) as [Hle|Hle]; rw Hok; [rw bool_decide_true //|rw bool_decide_false //].
  - do 2 eexists. split; [done|].
    destruct (as_inv_frame s s1 old Hinv) as [? ?]; try done; [apply Hcs1; congruence|rw Hu; set_solver|].
    do 4 (split; [done|]). apply copies_inv; rw ?Hso //.
    + rewrite ->take_ge in Hcp; [done|]. rw Hlen // Hok bool_decide_true //.
    + rw /free_ok Hfr //.
  - assert (lists_ok s1 new) as Hlo.
    { split; rw ?Hso //; [by rw /free_ok Hfr|]. intros x Hx Hx'. by apply (Hnd12 x). }
    destruct (memregion_free_all_run s1 new Hlo) as (s2 & Hrun2 & Ha2 & Hu2 & Hc2 & Hm2).
    assert (unused_memregion_list s2 ≡ₚ unused_memregion_list s) as Hp.
    { rw Hu2 Hu Hso reverse_Permutation //. }
    exists (RErr ENOMEM), s2. split; [by rw /mbind /M_bind Hrun2|].
    destruct (as_inv_frame s s2 old Hinv) as [? ?]; try done.
    + rw Hc2; [congruence|]. apply Hcs1. congruence.
    + intros x Hx. rw Hm2; [|by apply Hmo]. rw Hso. intros Hi. apply (inv_disj _ _ Hc x); [|done]. rw Hu. set_solver.
    + rw Hp. apply Hc.
    + intros x. by rw Hp.
    + split_and!; try done. intros c ?. by rw Hc2 // Hcs1.
Qed.

(** [fork_memregions] gives the child the parent's address map, entry by
    entry, in regions of its own; when the region table runs out it returns
    -ENOMEM with every region it took back on the unused list. The parent, and
    any other address space, is untouched either way. *)
Theorem fork_memregions_correct s new old :
  as_inv s old -> new <> old ->
  exists r s', fork_memregions new old s = Ok (r, s') /\
    as_inv s' old /\ (forall c, c <> new -> asp s' c = asp s c) /\ (forall z, view s' old z = view s old z) /\
    if decide (length (sorted s old) <= length (unused_memregion_list s))%nat
    then r = RVal 0 /\ as_inv s' new /\ (forall z, view s' new z = view s old z) /\
         (forall x, x ∈ sorted s' new -> mr_as (mr s' x) = Some new)
    else r = RErr ENOMEM /\ asp s' new = mkAddressSpace [] [] None /\
         unused_memregion_list s' ≡ₚ unused_memregion_list s.
Proof. apply fork_memregions_run. Qed.

(** [memregion_split] never faults on a well-formed address space and
    keeps it well formed without changing the address map. It returns -EINVAL
    exactly outside the user range, -ENOMEM only without an unused region, and
    after success a region starts at [addr]. *)
Theorem memregion_split_correct s a addr :
  as_inv s a ->
  exists r s', memregion_split a addr s = Ok (r, s') /\ as_inv s' a /\
    (forall c, c <> a -> asp s' c = asp s c) /\ (forall z, view s' a z = view s a z) /\
    ((r = RErr EINVAL /\ ~ (VM_USER_BASE <= addr < VM_USER_CEILING)) \/
     (r = RErr ENOMEM /\ unused_memregion_list s = []) \/
     (r = RVal 0 /\ exists x, x ∈ sorted s' a /\ base_addr (mr s' x) = addr)).
Proof. intros Hinv. destruct (split_spec s a addr Hinv) as (r & s' & ? & ? & ? & ? & _ & _ & ?). eauto 10. Qed.

(** C11: [memregion_free] of a range all of which is allocated and that ends
    below the top of the user range, with two region structures left for the
    splits, returns 0 and makes exactly the given range free in the address
    map; the sorted regions still tile the user range and the other address
    spaces are as before. If the byte above the range is allocated too, the
    whole invariant holds afterwards: the free list is exactly the free
    regions. If it is free, the free list is not: the region above stays on it
    after it has gone back to the unused list. The other cases are
    [memregion_free_at_ceiling] and [free_of_free_run]. *)
Theorem memregion_free_correct s a addr size :
  as_inv s a -> 0 < size -> VM_USER_BASE <= addr -> addr + size < VM_USER_CEILING ->
  (2 <= length (unused_memregion_list s))%nat ->
  (forall z, addr <= z < addr + size -> forall fl, view s a z <> Some (MR_TYPE_FREE, fl)) ->
  exists s', memregion_free a addr size s = Ok (RVal 0, s') /\ core s' a /\
    (forall c, c <> a -> asp s' c = asp s c) /\
    (forall z, view s' a z = if decide (addr <= z < addr + size) then Some (MR_TYPE_FREE, 0) else view s a z) /\
    (as_inv s' a <-> forall fl, view s a (addr + size) <> Some (MR_TYPE_FREE, fl)).
Proof.
  intros Hinv Hs Hb Hc Hu Halloc.
  destruct (memregion_free_run s a addr size Hinv Hs Hb Hc Hu Halloc) as (s' & Hr & Hco & Has & Hv & Hf & Hst).
  exists s'. split_and!; try done. split; [|by split; [|apply Hf]].
  intros [_ Hfo] fl Hfl. destruct (Hst fl Hfl) as (y & Hy1 & Hy2). rw Hfo in Hy1. apply list_elem_of_filter in Hy1 as [_ Hy1]. by apply (inv_disj _ _ Hco y).
Qed.

(** What [memregion_free] does when the region above the range is free:
    the address map is right, but the region it coalesces goes back to the
    unused list while it is still linked on the address space's free list, so
    the same structure is on both lists. *)
Theorem memregion_free_leaves_stale s a addr size fl :
  as_inv s a -> 0 < size -> VM_USER_BASE <= addr -> addr + size < VM_USER_CEILING ->
  (2 <= length (unused_memregion_list s))%nat ->
  (forall z, addr <= z < addr + size -> forall fl, view s a z <> Some (MR_TYPE_FREE, fl)) ->
  view s a (addr + size) = Some (MR_TYPE_FREE, fl) ->
  exists s' y, memregion_free a addr size s = Ok (RVal 0, s') /\ core s' a /\
    (forall z, view s' a z = if decide (addr <= z < addr + size) then Some (MR_TYPE_FREE, 0) else view s a z) /\
    y ∈ free s' a /\ y ∈ unused_memregion_list s' /\ ~ free_ok s' a.
Proof.
  intros Hinv Hs Hb Hc Hu Halloc Hab.
  destruct (memregion_free_run s a addr size Hinv Hs Hb Hc Hu Halloc) as (s' & Hr & Hco & Has & Hv & _ & Hst).
  destruct (Hst fl Hab) as (y & Hy1 & Hy2). exists s', y. split_and!; try done.
  intros Hf. rw Hf in Hy1. apply list_elem_of_filter in Hy1 as [_ Hy1]. by apply (inv_disj _ _ Hco y).
Qed.

(** Freeing a range that ends at the top of the user range fails: the
    second split is at VM_USER_CEILING, which no region covers, and the
    -EINVAL it gives is reported as -ENOMEM. *)
Theorem memregion_free_at_ceiling s a addr size :
  as_inv s a -> VM_USER_BASE <= addr -> 0 < size -> addr + size = VM_USER_CEILING ->
  exists s', memregion_free a addr size s = Ok (RErr ENOMEM, s') /\ as_inv s' a /\
    (forall z, view s' a z = view s a z).
Proof.
  intros Hinv Hb Hs Hc. pose proof user_base_nonneg. pose proof user_ceiling_u32. pose proof page_size_pos.
  rw /memregion_free (wrap32_id (addr + size)); [rw /u32; lia|].
  destruct (split_spec s a addr Hinv) as (r1 & s1 & Hr1 & Hi1 & _ & Hv1 & _ & _ & _).
  destruct (split_spec s1 a (addr + size) Hi1) as (r2 & s2 & Hr2 & Hi2 & _ & Hv2 & _ & _ & Hcase).
  exists s2. rw /mbind /M_bind Hr1 Hr2. split_and!; [|done|by intros; rw Hv2].
  assert (r2 <> RVal 0) as Hne.
  { destruct Hcase as [[-> _]|[[-> _]|[-> (x & Hx & Hbx)]]]; try done.
    pose proof (tiles_bounds _ _ _ _ x (inv_tiles _ _ (proj1 Hi2)) Hx). lia. }
  by rw (bool_decide_false (r2 = RVal 0)) // orb_true_r.
Qed.

(** [memregion_free_all] terminates, empties the address space and puts
    each of its regions back on the unused list exactly once. *)
Theorem memregion_free_all_correct s a :
  as_inv s a ->
  exists s', memregion_free_all a s = Ok (tt, s') /\ asp s' a = mkAddressSpace [] [] None /\
    unused_memregion_list s' ≡ₚ sorted s a ++ unused_memregion_list s /\ NoDup (unused_memregion_list s') /\
    (forall c, c <> a -> asp s' c = asp s c).
Proof.
  intros Hinv. destruct (memregion_free_all_run s a (as_inv_lists_ok _ _ Hinv)) as (s' & ? & ? & Hu & ? & _).
  destruct Hinv as [[] _]. assert (unused_memregion_list s' ≡ₚ sorted s a ++ unused_memregion_list s) as Hp.
  { rw Hu. by rw reverse_Permutation. }
  exists s'. split_and!; try done. rw Hp. apply NoDup_app. split_and!; try done. set_solver.
Qed.
End life.

(** ** Witnesses and runs on the Raspberry Pi 1 layout *)

(** The invariant, as a check that runs. *)
#[local] Instance tiles_dec t lo l hi : Decision (tiles t lo l hi).
Proof. revert lo. induction l as [|x l IH]; intros lo; simpl; apply _. Defined.
Definition as_check `{Board} (s : vm) (a : nat) : bool :=
  bool_decide (NoDup (sorted s a)) && bool_decide (tiles (mr s) VM_USER_BASE (sorted s a) VM_USER_CEILING) &&
  bool_decide (Forall (fun x => mr_type (mr s x) <> MR_TYPE_UNALLOCATED) (sorted s a)) &&
  bool_decide (Forall (fun x => mr_type (mr s x) = MR_TYPE_FREE -> mr_flags (mr s x) = 0) (sorted s a)) &&
  match hint (asp s a) with Some h => bool_decide (h ∈ sorted s a) | None => true end &&
  bool_decide (NoDup (unused_memregion_list s)) &&
  bool_decide (Forall (fun x => x ∉ sorted s a) (unused_memregion_list s)) &&
  bool_decide (free s a ≡ₚ filter (FREE (mr s)) (sorted s a)).

Lemma as_check_sound `{Board} s a : as_check s a = true -> as_inv s a.
Proof.
  rw /as_check !andb_true_iff !bool_decide_eq_true !Forall_forall.
  intros (((((((H1 & H2) & H3) & H4) & H5) & H6) & H7) & H8).
  split; [split|]; try done. intros h Hh. rw Hh in H5. by apply bool_decide_eq_true in H5.
Qed.

Definition vm0 : vm :=
  mkVm (fun _ => mkMemRegion 0 0 None MR_TYPE_UNALLOCATED 0 0) [0; 1; 2; 3; 4; 5; 6; 7]%nat
       (fun _ => mkAddressSpace [] [] None).
Definition run_state {A} (m : M vm A) (s : vm) : vm := match m s with Ok (_, s') => s' | _ => s end.
#[local] Instance board_example : Board := rpi1_board.
Definition vm_init : vm := run_state (init_memregions 0) vm0.
(** Two pages allocated at the bottom, then a further page above them. *)
Definition vm_alloc : vm := run_state (memregion_create 0 0x400000 8192 0 MR_TYPE_ALLOC) vm_init.
Definition vm_alloc2 : vm := run_state (memregion_create 0 0 4096 0 MR_TYPE_ALLOC) vm_alloc.

Lemma vm_init_inv : as_inv vm_init 0.
Proof. apply as_check_sound. vm_compute. reflexivity. Qed.
Lemma vm_alloc_inv : as_inv vm_alloc 0.
Proof. apply as_check_sound. vm_compute. reflexivity. Qed.
Lemma vm_alloc2_inv : as_inv vm_alloc2 0.
Proof. apply as_check_sound. vm_compute. reflexivity. Qed.

(** The address map of these states, on the ranges the runs below use. *)
Lemma vm_alloc_view z : 0x400000 <= z < 0x402000 -> view vm_alloc 0 z = Some (MR_TYPE_ALLOC, 0).
Proof.
  intros Hz. rw (view_at vm_alloc 0 [] 0%nat [2%nat]); [apply vm_alloc_inv|reflexivity|exact Hz|reflexivity].
Qed.
Lemma vm_alloc2_view z : 0x400000 <= z < 0x403000 -> view vm_alloc2 0 z = Some (MR_TYPE_ALLOC, 0).
Proof.
  intros Hz. destruct (decide (z < 0x402000)).
  - rw (view_at vm_alloc2 0 [] 0%nat [2; 3]%nat); [apply vm_alloc2_inv|reflexivity| |reflexivity].
    change (0x400000 <= z < 0x402000). lia.
  - rw (view_at vm_alloc2 0 [0]%nat 2%nat [3]%nat); [apply vm_alloc2_inv|reflexivity| |reflexivity].
    change (0x402000 <= z < 0x403000). lia.
Qed.

Lemma memregion_create_correct_witness :
  as_inv vm_init 0 /\ exists r s', memregion_create 0 0 8192 0 MR_TYPE_ALLOC vm_init = Ok (r, s') /\ as_inv s' 0.
Proof.
  split; [apply vm_init_inv|].
  destruct (memregion_create_correct vm_init 0 0 8192 0 MR_TYPE_ALLOC) as (r & s' & Hr & Hi & _);
    [apply vm_init_inv|lia|discriminate|done|done|]. exists r, s'. by split.
Defined.

Lemma memregion_split_correct_witness :
  as_inv vm_alloc 0 /\ exists r s', memregion_split 0 0x401000 vm_alloc = Ok (r, s') /\ as_inv s' 0.
Proof.
  split; [apply vm_alloc_inv|].
  destruct (memregion_split_correct vm_alloc 0 0x401000) as (r & s' & Hr & Hi & _); [apply vm_alloc_inv|].
  exists r, s'. by split.
Defined.

Lemma memregion_free_correct_witness :
  as_inv vm_alloc2 0 /\ exists s', memregion_free 0 0x400000 8192 vm_alloc2 = Ok (RVal 0, s') /\ as_inv s' 0.
Proof.
  split; [apply vm_alloc2_inv|].
  destruct (memregion_free_correct vm_alloc2 0 0x400000 8192) as (s' & Hr & _ & _ & _ & Hi);
    [apply vm_alloc2_inv|lia|done|done|vm_compute; lia| |exists s'; split; [exact Hr|apply Hi]]; intros; rw vm_alloc2_view; [lia|done|lia|done].
Defined.

Lemma memregion_free_leaves_stale_witness :
  as_inv vm_alloc 0 /\ exists s' y, memregion_free 0 0x400000 8192 vm_alloc = Ok (RVal 0, s') /\
    y ∈ free s' 0 /\ y ∈ unused_memregion_list s'.
Proof.
  split; [apply vm_alloc_inv|].
  destruct (memregion_free_leaves_stale vm_alloc 0 0x400000 8192 0) as (s' & y & Hr & _ & _ & Hy1 & Hy2 & _);
    [apply vm_alloc_inv|lia|done|done|vm_compute; lia| |reflexivity|exists s', y; by split_and!].
  intros z Hz fl. rw vm_alloc_view; [lia|done].
Defined.

Lemma memregion_free_at_ceiling_witness :
  as_inv vm_alloc 0 /\ exists s', memregion_free 0 0x7EFFF000 4096 vm_alloc = Ok (RErr ENOMEM, s') /\ as_inv s' 0.
Proof.
  split; [apply vm_alloc_inv|].
  destruct (memregion_free_at_ceiling vm_alloc 0 0x7EFFF000 4096) as (s' & Hr & Hi & _);
    [apply vm_alloc_inv|done|lia|reflexivity|]. exists s'. by split.
Defined.

Lemma init_memregions_correct_witness :
  unused_memregion_list vm0 <> [] /\ exists s', init_memregions 0 vm0 = Ok (RVal 0, s') /\ as_inv s' 0.
Proof.
  split; [done|]. destruct (init_memregions_correct vm0 0) as (s' & Hr & Hi & _); [|done|exists s'; by split].
  apply (bool_decide_eq_true (NoDup _)). vm_compute. reflexivity.
Defined.

Lemma fork_memregions_correct_witness :
  as_inv vm_alloc2 0 /\ exists r s', fork_memregions 1 0 vm_alloc2 = Ok (r, s') /\ as_inv s' 0.
Proof.
  split; [apply vm_alloc2_inv|].
  destruct (fork_memregions_correct vm_alloc2 1 0) as (r & s' & Hr & Hi & _); [apply vm_alloc2_inv|done|].
  exists r, s'. by split.
Defined.

Lemma memregion_free_all_correct_witness :
  as_inv vm_alloc2 0 /\ exists s', memregion_free_all 0 vm_alloc2 = Ok (tt, s') /\ asp s' 0%nat = mkAddressSpace [] [] None.
Proof.
  split; [apply vm_alloc2_inv|].
  destruct (memregion_free_all_correct vm_alloc2 0) as (s' & Hr & Hi & _); [apply vm_alloc2_inv|].
  exists s'. by split.
Defined.

(** The stale free-list entry is reached by ordinary use: allocate at the
    bottom of memory, free it, and map at a fixed address; the last call adds
    the stale region to the free list a second time. *)
Lemma stale_entry_run :
  memregion_create 0 0x500000 4096 16 MR_TYPE_ALLOC
    (run_state (memregion_free 0 0x400000 8192) vm_alloc) = Fault.
Proof. vm_compute. reflexivity. Qed.

(** Unmapping memory that was never mapped adds a free region to the free
    list a second time. *)
Lemma free_of_free_run : memregion_free 0 0x400000 8192 vm_init = Fault.
Proof. vm_compute. reflexivity. Qed.

(** A request with MAP_FIXED whose end wraps around is granted: the region ends
    below its start. *)
Definition vm_wrapped : vm := run_state (memregion_create 0 0x500000 0xFFF00000 16 MR_TYPE_ALLOC) vm_init.
Lemma create_wraps_run : (exists x, memregion_create 0 0x500000 0xFFF00000 16 MR_TYPE_ALLOC vm_init = Ok (Some x, vm_wrapped) /\ x ∈ sorted vm_wrapped 0 /\
  base_addr (mr vm_wrapped x) = 0x500000 /\ ceiling_addr (mr vm_wrapped x) = 0x400000) /\ ~ as_inv vm_wrapped 0.
Proof.
  assert (exists x, memregion_create 0 0x500000 0xFFF00000 16 MR_TYPE_ALLOC vm_init = Ok (Some x, vm_wrapped) /\ x ∈ sorted vm_wrapped 0 /\
    base_addr (mr vm_wrapped x) = 0x500000 /\ ceiling_addr (mr vm_wrapped x) = 0x400000) as Hx.
  { exists 0%nat. split; [by vm_compute|]. split; [by vm_compute; right; left|by vm_compute]. }
  split; [exact Hx|]. intros [Hc _]. destruct Hx as (x & _ & Hx & Eb & Ec). pose proof (tiles_bounds _ _ _ _ x (inv_tiles _ _ Hc) Hx). lia.
Qed.
(** A request for no bytes is granted, too: the region is empty. *)
Lemma create_empty_run : let s := run_state (memregion_create 0 0x500000 0 16 MR_TYPE_ALLOC) vm_init in
  (exists x, memregion_create 0 0x500000 0 16 MR_TYPE_ALLOC vm_init = Ok (Some x, s) /\ base_addr (mr s x) = ceiling_addr (mr s x) /\ x ∈ sorted s 0) /\ ~ as_inv s 0.
Proof.
  intros s. assert (exists x, memregion_create 0 0x500000 0 16 MR_TYPE_ALLOC vm_init = Ok (Some x, s) /\ base_addr (mr s x) = ceiling_addr (mr s x) /\ x ∈ sorted s 0) as Hx.
  { exists 0%nat. split; [by vm_compute|]. split; [by vm_compute|by vm_compute; right; left]. }
  split; [exact Hx|]. intros [Hc _]. destruct Hx as (x & _ & Eb & Hx). pose proof (tiles_bounds _ _ _ _ x (inv_tiles _ _ Hc) Hx). lia.
Qed.

(** The region above an allocation does not record its address space. *)
Lemma tail_without_as : mr_as (mr vm_alloc 2) = None /\ 2%nat ∈ sorted vm_alloc 0.
Proof. split; [reflexivity|]. vm_compute. set_solver. Qed.
