(* ===== verification/Ids.v ===== *)
(** * Ids: user and group ids, and privileges (proc/id.c, proc/privileges.c)

    The credentials of [struct Process] and the system calls that read and
    change them. [uid_t] and [gid_t] are taken to be [int], the type of the
    fields they are stored in. *)

From S2P Require Import Prelude.
Local Open Scope Z_scope.
Local Open Scope kernel_scope.

(** ** The caller's memory

    What proc/ and fs/ use of the board's [copyin] and [copyout] (assembly):
    [copyin m a n] is the words it copied, all [n] of them when it returns 0,
    and its success; [copyout m a l] is the memory afterwards and its
    success. *)
Class UserMem := {
  umem : Type;
  copyin : umem -> Z -> nat -> list Z * bool;
  copyout : umem -> Z -> list Z -> umem * bool;
  copyin_len : forall m a n l b, copyin m a n = (l, b) -> (length l <= n)%nat /\ (b = true -> length l = n);
  copyin_copyout : forall m a l m' , copyout m a l = (m', true) -> copyin m' a (length l) = (l, true) }.

(** A memory in which every address is mapped, a word each. *)
Definition flat_copyin (m : Z -> Z) (a : Z) (n : nat) : list Z * bool :=
  (map (fun i => m (a + Z.of_nat i)) (seq 0 n), true).
Definition flat_copyout (m : Z -> Z) (a : Z) (l : list Z) : (Z -> Z) * bool :=
  (fun x => if a <=? x then default (m x) (l !! Z.to_nat (x - a)) else m x, true).
Lemma flat_copyin_len m a n l b :
  flat_copyin m a n = (l, b) -> (length l <= n)%nat /\ (b = true -> length l = n).
Proof. intros [= <- <-]. rw length_map length_seq. lia. Qed.
Lemma flat_copyin_copyout m a l m' : flat_copyout m a l = (m', true) -> flat_copyin m' a (length l) = (l, true).
Proof.
  intros [= <-]. rw /flat_copyin. f_equal. apply list_eq. intros i. rw list_lookup_fmap.
  destruct (decide (i < length l)%nat) as [Hi|Hi].
  - rw lookup_seq_lt //=. destruct (Z.leb_spec a (a + Z.of_nat i)); [|lia].
    replace (Z.to_nat _) with i by lia. by destruct (lookup_lt_is_Some_2 l i Hi) as [x ->].
  - rw lookup_seq_ge /=; [lia|]. symmetry. apply lookup_ge_None_2. lia.
Qed.
Definition flat_mem : UserMem := {| umem := Z -> Z; copyin := flat_copyin; copyout := flat_copyout;
  copyin_len := flat_copyin_len; copyin_copyout := flat_copyin_copyout |}.

(** Limits from <limits.h> and <sys/privileges.h>. *)
Class IdLimits := {
  UID_MAX : Z;
  GID_MAX : Z;
  NGROUPS_MAX : Z;
  PRIV_NOW : Z;
  PRIV_AFTER_EXEC : Z;
  PRIV_PERMIT_ALL : Z;
  priv_when_ne : PRIV_NOW <> PRIV_AFTER_EXEC }.

(** include/kernel/proc.h *)
Definition SUPERUSER : Z := 0.
Definition NGROUPS : Z := 8.

(** The credential fields of [struct Process]; [groups] has [NGROUPS] entries. *)
Record Cred := mkCred {
  uid : Z; gid : Z; euid : Z; egid : Z; suid : Z; sgid : Z;
  ngroups : Z;
  groups : list Z;
  privileges : Z;
  privileges_after_exec : Z }.
Definition eta_Cred c := mkCred (uid c) (gid c) (euid c) (egid c) (suid c) (sgid c) (ngroups c) (groups c) (privileges c) (privileges_after_exec c).
#[export] Instance set_uid : Setter uid := ltac:(solve_setter eta_Cred).
#[export] Instance set_gid : Setter gid := ltac:(solve_setter eta_Cred).
#[export] Instance set_euid : Setter euid := ltac:(solve_setter eta_Cred).
#[export] Instance set_egid : Setter egid := ltac:(solve_setter eta_Cred).
#[export] Instance set_suid : Setter suid := ltac:(solve_setter eta_Cred).
#[export] Instance set_sgid : Setter sgid := ltac:(solve_setter eta_Cred).
#[export] Instance set_ngroups : Setter ngroups := ltac:(solve_setter eta_Cred).
#[export] Instance set_groups : Setter groups := ltac:(solve_setter eta_Cred).
#[export] Instance set_privileges : Setter privileges := ltac:(solve_setter eta_Cred).
#[export] Instance set_privileges_after_exec : Setter privileges_after_exec := ltac:(solve_setter eta_Cred).

Section ids.
Context `{UserMem, IdLimits}.

(** The calling process and its memory. *)
Record ist := mkIst { cred : Cred; um : umem }.
Definition eta_ist s := mkIst (cred s) (um s).
#[global] Instance set_cred : Setter cred := ltac:(solve_setter eta_ist).
#[global] Instance set_um : Setter um := ltac:(solve_setter eta_ist).

Definition upd_cred (f : Cred -> Cred) : M ist unit := modify (fun s => s <| cred ::= f |>).

(** *** Reading *)
Definition sys_getuid : M ist Z := gets (fun s => uid (cred s)).
Definition sys_getgid : M ist Z := gets (fun s => gid (cred s)).
Definition sys_geteuid : M ist Z := gets (fun s => euid (cred s)).
Definition sys_getegid : M ist Z := gets (fun s => egid (cred s)).
Definition sys_issetugid : M ist ret := mret (RVal 0).

(** *** Setting *)
Definition sys_setuid (u : Z) : M ist ret :=
  c ← gets cred;
  if (u <? 0) || (UID_MAX <? u) then mret (RErr EINVAL)
  else if negb (uid c =? u) || negb (euid c =? SUPERUSER) then mret (RErr EPERM)
  else _ ← upd_cred (fun c => c <| uid := u |> <| euid := u |> <| suid := u |>); mret (RVal 0).

Definition sys_setgid (g : Z) : M ist ret :=
  c ← gets cred;
  if (g <? 0) || (GID_MAX <? g) then mret (RErr EINVAL)
  else if negb (gid c =? g) || negb (euid c =? SUPERUSER) then mret (RErr EPERM)
  else _ ← upd_cred (fun c => c <| gid := g |> <| egid := g |> <| sgid := g |>); mret (RVal 0).

Definition sys_seteuid (u : Z) : M ist ret :=
  c ← gets cred;
  if (u <? 0) || (UID_MAX <? u) then mret (RErr EINVAL)
  else if (negb (uid c =? u) && negb (suid c =? u)) || negb (euid c =? SUPERUSER) then mret (RErr EPERM)
  else _ ← upd_cred (fun c => c <| euid := u |>); mret (RVal 0).

Definition sys_setegid (g : Z) : M ist ret :=
  c ← gets cred;
  if (g <? 0) || (GID_MAX <? g) then mret (RErr EINVAL)
  else if (negb (gid c =? g) && negb (sgid c =? g)) || negb (euid c =? SUPERUSER) then mret (RErr EPERM)
  else _ ← upd_cred (fun c => c <| egid := g |>); mret (RVal 0).

(** [if (id != -1) field = id] *)
Definition keep (v old : Z) : Z := if v =? -1 then old else v.

Definition setreuid (r e : Z) : M ist ret :=
  c ← gets cred;
  if (r <? 0) || (e <? 0) then mret (RErr EINVAL)
  else if (euid c =? SUPERUSER) || (((r =? uid c) || (r =? euid c)) && ((e =? uid c) || (e =? euid c)))
  then _ ← upd_cred (fun c => c <| uid ::= keep r |> <| euid ::= keep e |>); mret (RVal 0)
  else mret (RErr EPERM).

Definition setregid (r e : Z) : M ist ret :=
  c ← gets cred;
  if (euid c =? SUPERUSER) || (((r =? gid c) || (r =? egid c)) && ((e =? gid c) || (e =? egid c)))
  then _ ← upd_cred (fun c => c <| gid ::= keep r |> <| egid ::= keep e |>); mret (RVal 0)
  else mret (RErr EPERM).

Definition setresuid (r e sv : Z) : M ist ret :=
  c ← gets cred;
  let mine x := (x =? uid c) || (x =? euid c) || (x =? suid c) in
  if (euid c =? SUPERUSER) || (mine r && mine e && mine sv)
  then _ ← upd_cred (fun c => c <| uid ::= keep r |> <| euid ::= keep e |> <| suid ::= keep sv |>); mret (RVal 0)
  else mret (RErr EPERM).

Definition setresgid (r e sv : Z) : M ist ret :=
  c ← gets cred;
  let mine x := (x =? gid c) || (x =? egid c) || (x =? sgid c) in
  if (euid c =? SUPERUSER) || (mine r && mine e && mine sv)
  then _ ← upd_cred (fun c => c <| gid ::= keep r |> <| egid ::= keep e |> <| sgid ::= keep sv |>); mret (RVal 0)
  else mret (RErr EPERM).

(** [copyout] to [p] unless it is NULL; its result is not looked at. *)
Definition copyout_opt (p v : Z) : M ist unit :=
  if p =? 0 then mret tt else modify (fun s => s <| um ::= fun m => fst (copyout m p [v]) |>).

Definition getresuid (r e sv : Z) : M ist ret :=
  c ← gets cred;
  _ ← copyout_opt r (uid c); _ ← copyout_opt e (euid c); _ ← copyout_opt sv (suid c);
  mret (RVal 0).
Definition getresgid (r e sv : Z) : M ist ret :=
  c ← gets cred;
  _ ← copyout_opt r (gid c); _ ← copyout_opt e (egid c); _ ← copyout_opt sv (sgid c);
  mret (RVal 0).

(** *** Supplementary groups *)

(** Overwrite the first entries of [groups]; past its end is a fault. *)
Definition write_groups (l : list Z) : M ist unit :=
  g ← gets (fun s => groups (cred s));
  if (length l <=? length g)%nat
  then upd_cred (fun c => c <| groups := l ++ drop (length l) g |>) else fault.

(** [for (i = ngroups; i < NGROUPS_MAX; i++) groups[i] = 0] *)
Fixpoint zero_groups (i n : nat) : M ist unit :=
  match n with
  | O => mret tt
  | S n' =>
    g ← gets (fun s => groups (cred s));
    _ ← (if (i <? length g)%nat then upd_cred (fun c => c <| groups := <[i := 0]> g |>) else fault);
    zero_groups (S i) n'
  end.

Definition sys_setgroups (n grouplist : Z) : M ist ret :=
  if (n <? 0) || (NGROUPS_MAX <? n) then mret (RErr EINVAL)
  else if (0 <? n) && (grouplist =? 0) then mret (RErr EFAULT)
  else
    _ ← upd_cred (fun c => c <| ngroups := 0 |>);
    ok ← (if 0 <? n then
            m ← gets um;
            let '(l, ok) := copyin m grouplist (Z.to_nat n) in
            _ ← write_groups l; mret ok
          else mret true);
    if negb ok then mret (RErr EFAULT)
    else
      g ← gets (fun s => groups (cred s));
      if existsb (fun x => (x <? 0) || (GID_MAX <? x)) (take (Z.to_nat n) g) then mret (RErr EINVAL)
      else
        _ ← zero_groups (Z.to_nat n) (Z.to_nat (NGROUPS_MAX - n));
        _ ← upd_cred (fun c => c <| ngroups := n |>);
        mret (RVal 0).

Definition sys_getgroups (gidsetsize grouplist : Z) : M ist ret :=
  c ← gets cred;
  if (gidsetsize <? 0) || (NGROUPS_MAX <? gidsetsize) then mret (RErr EINVAL)
  else if gidsetsize =? 0 then mret (RVal (ngroups c))
  else if gidsetsize <? ngroups c then mret (RErr EINVAL)
  else if (length (groups c) <? Z.to_nat gidsetsize)%nat then fault
  else
    m ← gets um;
    let '(m', ok) := copyout m grouplist (take (Z.to_nat gidsetsize) (groups c)) in
    _ ← modify (fun s => s <| um := m' |>);
    mret (if ok : bool then RVal (ngroups c) else RErr EFAULT).

Definition init_ids (c : Cred) : Cred :=
  c <| ngroups := 0 |> <| groups := replicate (Z.to_nat NGROUPS) 0 |>
    <| uid := 0 |> <| gid := 0 |> <| euid := 0 |> <| egid := 0 |> <| suid := 0 |> <| sgid := 0 |>.

Definition fork_ids (new old : Cred) : Cred :=
  new <| ngroups := ngroups old |> <| groups := groups old |>
      <| uid := uid old |> <| gid := gid old |> <| euid := euid old |> <| egid := egid old |>
      <| suid := suid old |> <| sgid := sgid old |>.

Definition is_superuser (c : Cred) : bool := uid c =? SUPERUSER.

(** *** Privileges *)
Definition sys_set_privileges (when set_p result_p : Z) : M ist ret :=
  if set_p =? 0 then mret (RErr EINVAL)
  else
    m ← gets um;
    match copyin m set_p 1 with
    | ([set], true) =>
      if when =? PRIV_NOW then
        _ ← upd_cred (fun c => c <| privileges ::= fun p => Z.land p set |>);
        r ← gets (fun s => privileges (cred s));
        _ ← copyout_opt result_p r; mret (RVal 0)
      else if when =? PRIV_AFTER_EXEC then
        _ ← upd_cred (fun c => c <| privileges_after_exec ::= fun p => Z.land p set |>);
        r ← gets (fun s => privileges_after_exec (cred s));
        _ ← copyout_opt result_p r; mret (RVal 0)
      else mret (RErr EINVAL)
    | _ => mret (RErr EFAULT)
    end.

(** The test is compiled out ([#if 0]). *)
Definition check_privileges (c : Cred) (map : Z) : ret := RVal 0.

Definition fork_privileges (new parent : Cred) : Cred :=
  new <| privileges := privileges parent |> <| privileges_after_exec := privileges parent |>.
Definition init_privileges (c : Cred) : Cred :=
  c <| privileges := PRIV_PERMIT_ALL |> <| privileges_after_exec := PRIV_PERMIT_ALL |>.
Definition exec_privileges (c : Cred) : Cred :=
  let p := Z.land (privileges c) (privileges_after_exec c) in
  c <| privileges := p |> <| privileges_after_exec := p |>.
End ids.
Arguments ist {_}.
Arguments mkIst {_} _ _.

(** ** Properties *)
Section ids_props.
Context `{UserMem, IdLimits}.
Implicit Types (s : ist) (c : Cred).

(** The system calls of proc/id.c that change credentials. *)
Inductive id_call : Type :=
| Setuid (u : Z) | Setgid (g : Z) | Seteuid (u : Z) | Setegid (g : Z)
| Setreuid (r e : Z) | Setregid (r e : Z) | Setresuid (r e sv : Z) | Setresgid (r e sv : Z)
| Setgroups (n p : Z).
Definition run_id (k : id_call) : M ist ret :=
  match k with
  | Setuid u => sys_setuid u | Setgid g => sys_setgid g
  | Seteuid u => sys_seteuid u | Setegid g => sys_setegid g
  | Setreuid r e => setreuid r e | Setregid r e => setregid r e
  | Setresuid r e sv => setresuid r e sv | Setresgid r e sv => setresgid r e sv
  | Setgroups n p => sys_setgroups n p
  end.
Definition id_step s s' : Prop := exists k r, run_id k s = Ok (r, s').

Definition uids c : list Z := [uid c; euid c; suid c].
Definition gids c : list Z := [gid c; egid c; sgid c].

(** What [sys_setgroups] can change. *)
Definition same_ids c c' : Prop :=
  uids c' = uids c /\ gids c' = gids c /\ privileges c' = privileges c /\
  privileges_after_exec c' = privileges_after_exec c.

Lemma zero_groups_run n : forall i s, (i + n <= length (groups (cred s)))%nat ->
  exists s', zero_groups i n s = Ok (tt, s') /\ um s' = um s /\ same_ids (cred s) (cred s') /\
    ngroups (cred s') = ngroups (cred s) /\
    groups (cred s') = take i (groups (cred s)) ++ replicate n 0 ++ drop (i + n) (groups (cred s)).
Proof.
  induction n as [|n IH]; intros i s Hi; simpl.
  { exists s. rw Nat.add_0_r /= take_drop. by split_and!. }
  rw {1}/mbind {1}/M_bind {1}/gets. destruct (Nat.ltb_spec i (length (groups (cred s)))); [|lia].
  rw {1}/mbind {1}/M_bind {1}/upd_cred {1}/modify.
  edestruct (IH (S i) (s <| cred ::= fun c => c <| groups := <[i := 0]> (groups (cred s)) |> |>)) as (s' & -> & Hu & Hs & Hn & Hg).
  { simpl. rw length_insert. lia. }
  exists s'. split_and!; [done|done|exact Hs|done|]. rw Hg /=. erewrite take_S_r; [|by apply list_lookup_insert_eq].
  rw -app_assoc /=. rw take_insert_ge // drop_insert_lt; [lia|]. by rw Nat.add_succ_r.
Qed.

Lemma zero_groups_fault n : forall i s, (i <= length (groups (cred s)) < i + n)%nat -> zero_groups i n s = Fault.
Proof.
  induction n as [|n IH]; intros i s Hi; simpl; [lia|].
  rw {1}/mbind {1}/M_bind {1}/gets. destruct (Nat.ltb_spec i (length (groups (cred s)))); [|done].
  rw {1}/mbind {1}/M_bind {1}/upd_cred {1}/modify. apply IH. simpl. rw length_insert. lia.
Qed.

(** The [copyin] of [sys_setgroups], partial when it fails. *)
Lemma setgroups_copy s n p :
  0 <= n -> (Z.to_nat n <= length (groups (cred s)))%nat ->
  exists l ok, (if 0 <? n then
      m ← gets um; let '(l, ok) := copyin m p (Z.to_nat n) in _ ← write_groups l; mret ok
    else mret true) s = Ok (ok, s <| cred ::= fun c => c <| groups := l ++ drop (length l) (groups (cred s)) |> |>) /\
    (0 < n -> copyin (um s) p (Z.to_nat n) = (l, ok)) /\ (ok = true -> length l = Z.to_nat n) /\
    (length l <= Z.to_nat n)%nat.
Proof.
  intros Hn Hl. destruct (Z.ltb_spec 0 n) as [Hn'|Hn'].
  - rw {1}/mbind {1}/M_bind {1}/gets. destruct (copyin (um s) p (Z.to_nat n)) as [l ok] eqn:E.
    pose proof (copyin_len _ _ _ _ _ E) as [Hle Heq]. exists l, ok. split_and!; try done.
    rw /write_groups /mbind /M_bind /gets. destruct (Nat.leb_spec (length l) (length (groups (cred s)))); [done|lia].
  - exists [], true. split_and!; try done; simpl; try lia. by destruct s as [[]].
Qed.

(** Every branch of [sys_setgroups], when the array is as long as the limit. *)
Lemma setgroups_run s n p :
  NGROUPS_MAX <= NGROUPS -> length (groups (cred s)) = Z.to_nat NGROUPS ->
  exists r s', sys_setgroups n p s = Ok (r, s') /\ um s' = um s /\ same_ids (cred s) (cred s') /\
    length (groups (cred s')) = Z.to_nat NGROUPS /\
    ((r = RVal 0 /\ 0 <= n <= NGROUPS_MAX /\ ngroups (cred s') = n /\
      exists l, (0 < n -> copyin (um s) p (Z.to_nat n) = (l, true)) /\ length l = Z.to_nat n /\
        Forall (fun g => 0 <= g <= GID_MAX) l /\ take (Z.to_nat n) (groups (cred s')) = l) \/
     (exists e, r = RErr e) /\ (s' = s \/ ngroups (cred s') = 0) /\
     (forall l, 0 < n <= NGROUPS_MAX -> p <> 0 -> copyin (um s) p (Z.to_nat n) = (l, true) ->
        ~ Forall (fun g => 0 <= g <= GID_MAX) l)).
Proof.
  intros Hmax Hlen.
  destruct (decide (n < 0 \/ NGROUPS_MAX < n)) as [Hn|Hn].
  { exists (RErr EINVAL), s. split; [rw /sys_setgroups; zcases; done || lia|]. split_and!; try done. right. split_and!; eauto; lia || done. }
  destruct (decide (0 < n /\ p = 0)) as [[Hn0 ->]|Hn0].
  { exists (RErr EFAULT), s. split; [rw /sys_setgroups; zcases; done || lia|]. split_and!; try done. right. split_and!; eauto; lia || done. }
  rw /sys_setgroups. replace ((n <? 0) || (NGROUPS_MAX <? n)) with false by (symmetry; zcases; simpl; lia).
  replace ((0 <? n) && (p =? 0)) with false by (symmetry; zcases; simpl; lia || done).
  rw {1}/mbind {1}/M_bind {1}/upd_cred {1}/modify. set s0 := setf _ s.
  destruct (setgroups_copy s0 n p) as (l & ok & Hrun & Hcp & Hok & Hle); [lia|simpl; rw Hlen; lia|].
  rw {1}/mbind {1}/M_bind Hrun. set s1 := setf _ s0. assert (groups (cred s1) = l ++ drop (length l) (groups (cred s))) as Hg1 by done.
  assert (length (groups (cred s1)) = Z.to_nat NGROUPS) as Hlen1 by (rw Hg1 length_app length_drop Hlen; lia).
  destruct ok; simpl; last first.
  { do 2 eexists. split; [done|]. split_and!; try done. right. split_and!; [eauto|by right|].
    intros l' Hn' _ Hl'. rw Hcp in Hl'; [lia|]. done. }
  specialize (Hok eq_refl). rw {1}/mbind {1}/M_bind {1}/gets Hg1 -Hok take_app_length.
  destruct (existsb _ l) eqn:Eb.
  { do 2 eexists. split; [done|]. split_and!; try done. right. split_and!; [eauto|by right|].
    intros l' Hn' _ Hl'. rw Hok Hcp in Hl'; [lia|]. injection Hl' as <-.
    apply existsb_exists in Eb as (g & Hg%list_elem_of_In & Hb). rw Forall_forall. intros Hf. specialize (Hf g Hg).
    lia. }
  destruct (zero_groups_run (Z.to_nat (NGROUPS_MAX - n)) (length l) s1) as (s' & Hz & Hum & Hids & Hng & Hg).
  { lia. }
  rw {1}/mbind {1}/M_bind Hz. do 2 eexists. split; [done|]. simpl. rw Hg Hg1 take_app_length.
  split_and!; [done|exact Hids| |left].
  - rw !length_app length_replicate length_drop length_app length_drop Hlen. lia.
  - split_and!; try done; try lia. exists l. rw take_app_length. rw -Hok in Hcp. split_and!; try done.
    apply Forall_forall. intros g Hgl. apply not_true_iff_false in Eb.
    destruct (decide (0 <= g <= GID_MAX)); [done|]. exfalso. apply Eb, existsb_exists. exists g.
    split; [by apply list_elem_of_In|]. zcases; simpl; lia || done.
Qed.

(** Whatever the sizes of the arrays, [sys_setgroups] leaves the other ids
    alone. *)
Lemma zero_groups_ids n : forall i s s', zero_groups i n s = Ok (tt, s') -> uids (cred s') = uids (cred s) /\ gids (cred s') = gids (cred s).
Proof.
  induction n as [|n IH]; intros i s s' Hr; [by injection Hr as <-|]. cbn [zero_groups] in Hr. rw {1}/mbind {1}/M_bind {1}/gets {1}/mbind {1}/M_bind in Hr.
  destruct (i <? _)%nat; [|done]. by destruct (IH _ _ _ Hr).
Qed.
Lemma setgroups_ids s n p r s' : sys_setgroups n p s = Ok (r, s') -> uids (cred s') = uids (cred s) /\ gids (cred s') = gids (cred s).
Proof.
  rw /sys_setgroups /write_groups /upd_cred. mrun. destruct (_ || _); [by intros [= _ <-]|]. destruct (_ && _); [by intros [= _ <-]|].
  intros Hr. repeat (case_match; simplify_eq/=; try done);
    match goal with E : zero_groups _ _ _ = Ok (?u, _) |- _ => destruct u; exact (zero_groups_ids _ _ _ _ E) end.
Qed.

(** Without the superuser among a process's user ids, one system call does not
    bring in a new id. *)
Lemma id_step_ids s s' : id_step s s' -> SUPERUSER ∉ uids (cred s) -> uids (cred s') ⊆ uids (cred s) /\ gids (cred s') ⊆ gids (cred s).
Proof.
  intros (k & r & Hk) Hsu.
  assert (euid (cred s) <> SUPERUSER) as He by set_solver.
  apply Z.eqb_neq in He.
  destruct k; simpl in Hk.
  9: { by destruct (setgroups_ids s n p r s' Hk) as [-> ->]. }
  all: rw /sys_setuid /sys_setgid /sys_seteuid /sys_setegid /setreuid /setregid /setresuid /setresgid
         /upd_cred in Hk; mrun_in Hk; rw He ?orb_true_r /= in Hk.
  all: repeat case_match; simplify_eq/=; try done.
  all: repeat match goal with E : _ && _ = true |- _ => apply andb_true_iff in E as [??] end.
  all: repeat match goal with E : _ || _ = true |- _ => apply orb_true_iff in E end.
  all: rw /uids /gids /=; split_and!; try done; intros x; rw !elem_of_cons elem_of_nil; intros Hx.
  all: repeat match goal with Hx : _ \/ _ |- _ => destruct Hx as [Hx|Hx] end; try done; subst x.
  all: rw ?/keep; repeat case_match; lia.
Qed.

(** C19: No escalation of user or group ids: from a process none of whose real,
    effective and saved user ids is the superuser's, no sequence of the calls
    that set ids (those for supplementary groups among them) ends with a real,
    effective or saved user or group id that was not one of these before. The
    supplementary groups are not covered: see [setgroups_unprivileged]. *)
Theorem no_id_escalation s s' :
  SUPERUSER ∉ uids (cred s) -> rtc id_step s s' -> uids (cred s') ⊆ uids (cred s) /\ gids (cred s') ⊆ gids (cred s).
Proof.
  intros Hsu Hst. induction Hst as [s|s s1 s' H1 Hst IH]; [done|].
  destruct (id_step_ids s s1 H1 Hsu) as (Hu & Hg).
  destruct IH as [Hu' Hg']; [|split; [by transitivity (uids (cred s1))|by transitivity (gids (cred s1))]].
  intros Hi. by apply Hsu, Hu.
Qed.

(** [sys_setuid] never changes the real user id: it asks that the new id
    be the current one and, besides, that the caller be the superuser, so even
    the superuser gets -EPERM for any other id. *)
Theorem setuid_never_changes_uid s u r s' :
  sys_setuid u s = Ok (r, s') ->
  uid (cred s') = uid (cred s) /\
  (r = RVal 0 <-> u = uid (cred s) /\ euid (cred s) = SUPERUSER /\ 0 <= u <= UID_MAX) /\
  (u <> uid (cred s) -> 0 <= u <= UID_MAX -> r = RErr EPERM).
Proof.
  intros Hk. rw /sys_setuid /upd_cred in Hk. mrun_in Hk.
  destruct (Z.ltb_spec u 0), (Z.ltb_spec UID_MAX u), (Z.eqb_spec (uid (cred s)) u),
    (Z.eqb_spec (euid (cred s)) SUPERUSER); simplify_eq/=; split_and!; try done; lia || naive_solver lia.
Qed.

(** [sys_setgroups] needs no privilege: any process, whatever its user
    ids, can give itself any list of valid group ids that its memory holds. *)
Theorem setgroups_unprivileged s n p l :
  NGROUPS_MAX <= NGROUPS -> length (groups (cred s)) = Z.to_nat NGROUPS ->
  0 < n <= NGROUPS_MAX -> p <> 0 -> copyin (um s) p (Z.to_nat n) = (l, true) ->
  Forall (fun g => 0 <= g <= GID_MAX) l ->
  exists s', sys_setgroups n p s = Ok (RVal 0, s') /\ ngroups (cred s') = n /\
    take (Z.to_nat n) (groups (cred s')) = l /\ same_ids (cred s) (cred s').
Proof.
  intros Hmax Hlen Hn Hp Hcp Hf. destruct (setgroups_run s n p Hmax Hlen) as (r & s' & Hr & _ & Hids & _ & Hcase).
  exists s'. destruct Hcase as [(-> & _ & Hng & l' & Hcp' & _ & _ & Htk)|(_ & _ & Hno)]; [|by destruct (Hno l)].
  split_and!; try done. rw Hcp in Hcp'. naive_solver lia.
Qed.

(** After a successful [sys_setgroups], [sys_getgroups] of the same size
    writes the same list to the caller's memory. *)
Theorem setgroups_getgroups s n p q s1 :
  NGROUPS_MAX <= NGROUPS -> length (groups (cred s)) = Z.to_nat NGROUPS -> 0 < n ->
  sys_setgroups n p s = Ok (RVal 0, s1) -> snd (copyout (um s1) q (take (Z.to_nat n) (groups (cred s1)))) = true ->
  exists s2, sys_getgroups n q s1 = Ok (RVal n, s2) /\
    copyin (um s2) q (Z.to_nat n) = copyin (um s) p (Z.to_nat n).
Proof.
  intros Hmax Hlen Hn Hs Hco. destruct (setgroups_run s n p Hmax Hlen) as (r & s' & Hr & Hum & _ & Hlen' & Hcase).
  rw Hs in Hr. injection Hr as <- <-. destruct Hcase as [(_ & Hb & Hng & l & Hcp & Hl & _ & Htk)|([e He] & _)]; [|done].
  rw /sys_getgroups /mbind /M_bind /gets Hng Hlen'.
  replace ((n <? 0) || (NGROUPS_MAX <? n)) with false by (symmetry; zcases; simpl; lia).
  replace (n =? 0) with false by (symmetry; zcases; lia). rw Z.ltb_irrefl.
  destruct (Nat.ltb_spec (Z.to_nat NGROUPS) (Z.to_nat n)); [lia|].
  destruct (copyout _ _ _) as [m' ok] eqn:E. simpl in Hco. subst ok. eexists. split; [done|]. simpl.
  apply copyin_copyout in E. rw Htk Hl in E. rw E Hcp //. 
Qed.

(** The supplementary-group array has NGROUPS entries but the calls are
    bounded by NGROUPS_MAX: where the C library's limit is the larger, clearing
    the rest of the array runs past its end. *)
Theorem setgroups_overrun s :
  NGROUPS < NGROUPS_MAX -> length (groups (cred s)) = Z.to_nat NGROUPS -> sys_setgroups 0 0 s = Fault.
Proof.
  intros Hmax Hlen. rw /NGROUPS in Hmax. rw /sys_setgroups. replace ((0 <? 0) || (NGROUPS_MAX <? 0)) with false.
  { rw /upd_cred /=. mrun. cbn [negb]. rw zero_groups_fault //. simpl. rw Hlen /NGROUPS. lia. }
  symmetry. apply Z.ltb_ge. lia.
Qed.

(** *** Privileges along a line of processes *)
Definition priv_sub (p q : Z) : Prop := Z.land p q = p.

Lemma priv_sub_refl p : priv_sub p p.
Proof. apply Z.land_diag. Qed.
Lemma priv_sub_trans p q r : priv_sub p q -> priv_sub q r -> priv_sub p r.
Proof. rw /priv_sub. intros Hpq Hqr. by rw -{1}Hpq -Z.land_assoc Hqr Hpq. Qed.
Lemma priv_sub_land_l p q : priv_sub (Z.land p q) p.
Proof. rw /priv_sub (Z.land_comm p q) -Z.land_assoc. by rw Z.land_diag. Qed.

(** What can happen to the privileges of a process and of the processes it
    forks: a call that restricts them, an exec, or going over to a child. *)
Inductive priv_step : Cred -> Cred -> Prop :=
| priv_call s when set_p result_p r s' :
    sys_set_privileges when set_p result_p s = Ok (r, s') -> priv_step (cred s) (cred s')
| priv_exec c : priv_step c (exec_privileges c)
| priv_fork c new : priv_step c (fork_privileges new c).

Lemma copyout_opt_run p v s :
  copyout_opt p v s = Ok (tt, s <| um ::= fun m => if p =? 0 then m else fst (copyout m p [v]) |>).
Proof. rw /copyout_opt. mrun. case_match; [by destruct s|done]. Qed.

Lemma set_privileges_run s when set_p result_p :
  exists r s', sys_set_privileges when set_p result_p s = Ok (r, s') /\
    priv_sub (privileges (cred s')) (privileges (cred s)) /\
    priv_sub (privileges_after_exec (cred s')) (privileges_after_exec (cred s)).
Proof.
  rw /sys_set_privileges /upd_cred. mrun.
  repeat (rw ?copyout_opt_run; case_match; simplify_eq/=).
  all: do 2 eexists; split; [done|]; simpl; split; auto using priv_sub_land_l, priv_sub_refl.
Qed.

(** C20: Privileges only shrink: whatever sequence of restrictions, execs and
    forks leads from one process to another, the second has no privilege bit
    the first lacked. *)
Theorem privileges_monotone c c' : rtc priv_step c c' -> priv_sub (privileges c') (privileges c).
Proof.
  induction 1 as [c|c c1 c' Hs Hst IH]; [apply priv_sub_refl|]. eapply priv_sub_trans; [exact IH|].
  destruct Hs as [s when sp rp r s' Hr|c|c new]; simpl.
  - destruct (set_privileges_run s when sp rp) as (r' & s1 & Hr' & Hp & _). rw Hr in Hr'. by injection Hr' as <- <-.
  - apply priv_sub_land_l.
  - apply priv_sub_refl.
Qed.

(** A restriction asked for after exec holds for the process itself, and
    is lost across a fork: the child's privileges after exec are those of the
    parent before the restriction. *)
Theorem after_exec_lost_by_fork c new :
  privileges (exec_privileges c) = Z.land (privileges c) (privileges_after_exec c) /\
  privileges (exec_privileges (fork_privileges new c)) = privileges c.
Proof. simpl. by rw Z.land_diag. Qed.
End ids_props.

(** ** Witnesses *)
Definition limits_example : IdLimits.
Proof.
  refine {| UID_MAX := 65535; GID_MAX := 65535; NGROUPS_MAX := 8; PRIV_NOW := 0; PRIV_AFTER_EXEC := 1;
            PRIV_PERMIT_ALL := 2 ^ 64 - 1 |}; done.
Defined.
(** newlib's limit on supplementary groups. *)
Definition limits_newlib : IdLimits.
Proof.
  refine {| UID_MAX := 65535; GID_MAX := 65535; NGROUPS_MAX := 16; PRIV_NOW := 0; PRIV_AFTER_EXEC := 1;
            PRIV_PERMIT_ALL := 2 ^ 64 - 1 |}; done.
Defined.
Definition user_100 : ist (H := flat_mem) :=
  mkIst (H := flat_mem) (mkCred 100 100 100 100 100 100 0 (replicate 8 0) 255 255) (fun a => a mod 4096).

(** [user_100] after giving itself the groups 4 and 5. *)
Definition user_100_groups : ist (H := flat_mem) :=
  match @sys_setgroups flat_mem limits_example 2 4100 user_100 with Ok (_, s) => s | _ => user_100 end.

Lemma no_id_escalation_witness :
  @run_id flat_mem limits_example (Setgroups 2 4100) user_100 = Ok (RVal 0, user_100_groups) /\
    uids (cred user_100_groups) ⊆ uids (cred user_100).
Proof.
  split; [vm_compute; reflexivity|].
  refine (proj1 (@no_id_escalation flat_mem limits_example user_100 user_100_groups _ _)).
  - intros Hi. rw /uids /= in Hi. set_solver.
  - apply rtc_once. exists (Setgroups 2 4100), (RVal 0). vm_compute. reflexivity.
Defined.

Lemma setuid_never_changes_uid_witness :
  exists s', @sys_setuid flat_mem limits_example 7 user_100 = Ok (RErr EPERM, s') /\ uid (cred s') = 100.
Proof.
  eexists. split; [reflexivity|].
  exact (proj1 (@setuid_never_changes_uid flat_mem limits_example user_100 7 (RErr EPERM) user_100 eq_refl)).
Defined.

Lemma setgroups_unprivileged_witness :
  exists s', @sys_setgroups flat_mem limits_example 2 4096 user_100 = Ok (RVal 0, s') /\
    take 2 (groups (cred s')) = [0; 1].
Proof.
  destruct (@setgroups_unprivileged flat_mem limits_example user_100 2 4096 [0; 1]) as (s' & Hr & _ & Hg & _);
    [done|done|done|done|reflexivity| |exists s'; by split].
  repeat constructor; done.
Defined.

Lemma setgroups_getgroups_witness :
  exists s2, @sys_getgroups flat_mem limits_example 2 8000 user_100_groups = Ok (RVal 2, s2).
Proof.
  destruct (@setgroups_getgroups flat_mem limits_example user_100 2 4100 8000 user_100_groups) as (s2 & Hr & _);
    [done|done|done|vm_compute; reflexivity|vm_compute; reflexivity|exists s2; exact Hr].
Defined.

Lemma setgroups_overrun_witness : @sys_setgroups flat_mem limits_newlib 0 0 user_100 = Fault.
Proof. apply (@setgroups_overrun flat_mem limits_newlib user_100); done. Defined.

Lemma privileges_monotone_witness :
  priv_sub (privileges (exec_privileges (cred user_100))) (privileges (cred user_100)).
Proof. apply (@privileges_monotone flat_mem limits_example). apply rtc_once. apply priv_exec. Defined.
