(* ===== verification/FileDesc.v ===== *)
(** * FileDesc: file descriptors and file pointers

    fs/filedesc.c, fs/filp.c, fs/close.c and fs/fproc.c: every process has a
    table of descriptors, descriptors share file pointers (filps), and a filp
    counts the descriptors that refer to it. *)

From S2P Require Import Prelude.
Local Open Scope Z_scope.
Local Open Scope kernel_scope.

(** ** What the headers provide

    The size of the table (a page of descriptors), and the bits and commands
    of <fcntl.h>. *)
Class FsConsts := {
  FILEDESC_MAX : nat;
  O_WRONLY : Z;
  FD_CLOEXEC : Z;
  F_DUPFD : Z; F_DUPFD_CLOEXEC : Z; F_GETFD : Z; F_SETFD : Z; F_GETFL : Z; F_SETFL : Z;
  S_ISFIFO : Z -> bool;
  filedesc_max_pos : (0 < FILEDESC_MAX)%nat }.

(** newlib's values, with a page of 4096 bytes. *)
Definition newlib_consts : FsConsts.
Proof.
  refine {| FILEDESC_MAX := 512; O_WRONLY := 1; FD_CLOEXEC := 1; F_DUPFD := 0; F_GETFD := 1; F_SETFD := 2;
            F_GETFL := 3; F_SETFL := 4; F_DUPFD_CLOEXEC := 14;
            S_ISFIFO := fun m => Z.land m 0xF000 =? 0x1000 |}. lia.
Defined.

(** include/kernel/filesystem.h: [FDF_*] and [FILP_TYPE_*]. *)
Definition FDF_NONE : Z := 0.
Definition FDF_CLOSE_ON_EXEC : Z := bit 0.
Definition FDF_ALLOCED : Z := bit 1.
Definition FDF_VALID : Z := bit 2.
Definition FDF_ALL : Z := Z.lor (Z.lor FDF_CLOSE_ON_EXEC FDF_ALLOCED) FDF_VALID.

Inductive filp_type : Type :=
| FILP_TYPE_FREE | FILP_TYPE_VNODE | FILP_TYPE_SUPERBLOCK | FILP_TYPE_UNDEF.
#[export] Instance filp_type_eq_dec : EqDecision filp_type.
Proof. solve_decision. Defined.

(** [struct Filp]: [f_u] is the union, the index of a vnode or superblock. *)
Record Filp := mkFilp {
  f_offset : Z;
  f_flags : Z;
  f_reference_cnt : Z;
  f_type : filp_type;
  f_u : option nat }.
Definition eta_Filp f := mkFilp (f_offset f) (f_flags f) (f_reference_cnt f) (f_type f) (f_u f).
#[export] Instance set_f_offset : Setter f_offset := ltac:(solve_setter eta_Filp).
#[export] Instance set_f_flags : Setter f_flags := ltac:(solve_setter eta_Filp).
#[export] Instance set_f_reference_cnt : Setter f_reference_cnt := ltac:(solve_setter eta_Filp).
#[export] Instance set_f_type : Setter f_type := ltac:(solve_setter eta_Filp).
#[export] Instance set_f_u : Setter f_u := ltac:(solve_setter eta_Filp).

Record FileDesc := mkFileDesc { fd_flags : Z; fd_filp : option nat }.
Definition eta_FileDesc f := mkFileDesc (fd_flags f) (fd_filp f).
#[export] Instance set_fd_flags : Setter fd_flags := ltac:(solve_setter eta_FileDesc).
#[export] Instance set_fd_filp : Setter fd_filp := ltac:(solve_setter eta_FileDesc).

(** [struct FProcess]; a process without a table has the empty list. *)
Record FProcess := mkFProcess {
  umask : Z;
  current_dir : option nat;
  root_dir : option nat;
  fd_table : list FileDesc }.
Definition eta_FProcess f := mkFProcess (umask f) (current_dir f) (root_dir f) (fd_table f).
#[export] Instance set_umask : Setter umask := ltac:(solve_setter eta_FProcess).
#[export] Instance set_current_dir : Setter current_dir := ltac:(solve_setter eta_FProcess).
#[export] Instance set_root_dir : Setter root_dir := ltac:(solve_setter eta_FProcess).
#[export] Instance set_fd_table : Setter fd_table := ltac:(solve_setter eta_FProcess).

(** The last close of a filp, and what it closes. *)
Inductive last_close : Type :=
| CloseVnode (vnode : nat)
| ClosePipe (vnode : nat) (writer : bool)
| CloseSuperBlock (sb : option nat).

(** The filp table and its free list, the processes' file state, the mode
    and reference count of each vnode, and the last closes so far. *)
Record fs := mkFs {
  filp : nat -> Filp;
  filp_free_list : list nat;
  fproc : nat -> FProcess;
  v_mode : nat -> Z;
  v_reference_cnt : nat -> Z;
  closes : list last_close }.
Definition eta_fs s := mkFs (filp s) (filp_free_list s) (fproc s) (v_mode s) (v_reference_cnt s) (closes s).
#[export] Instance set_filp : Setter filp := ltac:(solve_setter eta_fs).
#[export] Instance set_filp_free_list : Setter filp_free_list := ltac:(solve_setter eta_fs).
#[export] Instance set_fproc : Setter fproc := ltac:(solve_setter eta_fs).
#[export] Instance set_v_mode : Setter v_mode := ltac:(solve_setter eta_fs).
#[export] Instance set_v_reference_cnt : Setter v_reference_cnt := ltac:(solve_setter eta_fs).
#[export] Instance set_closes : Setter closes := ltac:(solve_setter eta_fs).

Abbreviation table s p := (fd_table (fproc s p)).

Section ops.
Context `{FsConsts}.

(** *** Table access: an index outside the table is a fault *)
Definition put_fd (p i : nat) (f : FileDesc) (s : fs) : fs :=
  s <| fproc ::= fun t => <[p := (t p) <| fd_table ::= fun l => <[i := f]> l |>]> t |>.
Definition upd_filp (x : nat) (f : Filp -> Filp) (s : fs) : fs :=
  s <| filp ::= fun t => <[x := f (t x)]> t |>.

Definition get_fd (p : nat) (fd : Z) : M fs FileDesc := fun s =>
  match (if fd <? 0 then None else table s p !! Z.to_nat fd) with
  | Some f => Ok (f, s)
  | None => Fault
  end.
Definition set_fd (p : nat) (fd : Z) (f : FileDesc) : M fs unit := fun s =>
  if (fd <? 0) || (length (table s p) <=? Z.to_nat fd)%nat then Fault else Ok (tt, put_fd p (Z.to_nat fd) f s).

Definition in_range (fd : Z) : bool := (0 <=? fd) && (fd <? Z.of_nat FILEDESC_MAX).

(** *** fs/filp.c *)
Definition filp_get (p : nat) (fd : Z) : M fs (option nat) :=
  if negb (in_range fd) then mret None
  else
    f ← get_fd p fd;
    if negb (has (fd_flags f) FDF_VALID) then mret None else mret (fd_filp f).

Definition filp_get_new : M fs (option nat) :=
  l ← gets filp_free_list;
  match l with
  | [] => mret None
  | x :: _ =>
    s ← gets id;
    _ ← kassert (bool_decide (f_type (filp s x) = FILP_TYPE_FREE));
    _ ← update filp_free_list (fun l s => s <| filp_free_list := l |>) dl_rem_head;
    _ ← modify (upd_filp x (fun f => f <| f_reference_cnt := 1 |> <| f_type := FILP_TYPE_UNDEF |>
                                       <| f_u := None |> <| f_flags := 0 |>));
    mret (Some x)
  end.

Definition filp_ref (x : nat) : M fs unit :=
  modify (upd_filp x (fun f => f <| f_reference_cnt ::= fun n => n + 1 |>)).

Definition filp_release (x : nat) : M fs Z :=
  _ ← modify (upd_filp x (fun f => f <| f_reference_cnt ::= fun n => n - 1 |>));
  n ← gets (fun s => f_reference_cnt (filp s x));
  _ ← (if n =? 0 then
         _ ← modify (upd_filp x (fun f => f <| f_type := FILP_TYPE_FREE |> <| f_u := None |>));
         update filp_free_list (fun l s => s <| filp_free_list := l |>) (dl_add_head x)
       else mret tt);
  mret n.

(** [vnode_get_from_filp] of fs/vnode.c. *)
Definition vnode_get_from_filp (x : nat) : M fs (option nat) :=
  f ← gets (fun s => filp s x);
  mret (if bool_decide (f_type f = FILP_TYPE_VNODE) then f_u f else None).

(** *** fs/filedesc.c: the table *)

(** The body of the loop of [fd_alloc] from [fd], [n] turns left. *)
Fixpoint fd_alloc_loop (p : nat) (fd : Z) (n : nat) : M fs (option Z) :=
  match n with
  | O => mret None
  | S n' =>
    f ← get_fd p fd;
    if negb (has (fd_flags f) FDF_ALLOCED) then
      _ ← kassert (Z.land (fd_flags f) (Z.lnot FDF_ALL) =? 0);
      _ ← set_fd p fd (mkFileDesc FDF_ALLOCED None);
      mret (Some fd)
    else fd_alloc_loop p (fd + 1) n'
  end.
(** [for (fd = min_fd; fd <= max_fd; fd++)]; [None] is -EMFILE. *)
Definition fd_alloc (p : nat) (min_fd max_fd : Z) : M fs (option Z) :=
  fd_alloc_loop p min_fd (Z.to_nat (max_fd - min_fd + 1)).

Definition fd_free (p : nat) (fd : Z) : M fs ret :=
  if negb (in_range fd) then mret (RErr EINVAL)
  else
    f ← get_fd p fd;
    _ ← kassert (Z.land (fd_flags f) (Z.lnot FDF_ALL) =? 0);
    _ ← kassert (has (fd_flags f) FDF_ALLOCED);
    _ ← set_fd p fd (mkFileDesc 0 None);
    mret (RVal 0).

Definition fd_invalidate (p : nat) (fd : Z) : M fs ret :=
  if negb (in_range fd) then mret (RErr EINVAL)
  else
    f ← get_fd p fd;
    _ ← kassert (Z.land (fd_flags f) (Z.lnot FDF_ALL) =? 0);
    _ ← kassert (has (fd_flags f) FDF_ALLOCED);
    _ ← set_fd p fd (f <| fd_flags ::= fun n => Z.land n (Z.lnot FDF_VALID) |>);
    mret (RVal 0).

Definition dup_fd (p : nat) (fd min_fd max_fd flags : Z) : M fs ret :=
  o ← filp_get p fd;
  match o with
  | None => mret (RErr EINVAL)
  | Some x =>
    r ← fd_alloc p min_fd max_fd;
    match r with
    | None => mret (RErr EMFILE)
    | Some new_fd =>
      f ← get_fd p new_fd;
      _ ← set_fd p new_fd (f <| fd_filp := Some x |>);
      _ ← filp_ref x;
      _ ← set_fd p new_fd (f <| fd_filp := Some x |>
            <| fd_flags ::= fun n => Z.lor n (Z.lor FDF_VALID flags) |>);
      mret (RVal new_fd)
    end
  end.

(** *** fs/close.c *)

(** The dispatch on the mode of a vnode whose filp was released last: the
    [do_close_*] functions come down to [vnode_put], which returns at once, and
    [do_close_pipe]. *)
Definition close_vnode (v : nat) (flags : Z) : M fs unit :=
  mode ← gets (fun s => v_mode s v);
  modify (fun s => s <| closes ::= fun l =>
    (if S_ISFIFO mode then ClosePipe v (has flags O_WRONLY) else CloseVnode v) :: l |>).

Definition do_close (p : nat) (fd : Z) : M fs ret :=
  if negb (in_range fd) then mret (RErr EINVAL)
  else
    o ← filp_get p fd;
    match o with
    | None => mret (RErr EBADF)
    | Some x =>
      _ ← fd_invalidate p fd;
      fl ← gets (fun s => filp s x);
      match f_type fl with
      | FILP_TYPE_VNODE =>
        v ← vnode_get_from_filp x;
        _ ← fd_free p fd;
        n ← filp_release x;
        _ ← (if n =? 0 then
               match v with Some v => close_vnode v (f_flags fl) | None => panic end
             else mret tt);
        mret (RVal 0)
      | FILP_TYPE_SUPERBLOCK =>
        _ ← fd_free p fd;
        n ← filp_release x;
        _ ← (if n =? 0 then modify (fun s => s <| closes ::= cons (CloseSuperBlock (f_u fl)) |>) else mret tt);
        mret (RVal 0)
      | _ => panic
      end
    end.
Definition sys_close (p : nat) (fd : Z) : M fs ret := do_close p fd.

Definition sys_dup (p : nat) (fd : Z) : M fs ret := dup_fd p fd 0 (Z.of_nat FILEDESC_MAX) 0.

Definition sys_dup2 (p : nat) (fd new_fd : Z) : M fs ret :=
  if negb (in_range fd) || negb (in_range new_fd) then mret (RErr EINVAL)
  else
    f ← get_fd p new_fd;
    _ ← (if has (fd_flags f) FDF_VALID then
           _ ← kassert (bool_decide (is_Some (fd_filp f)));
           _ ← do_close p new_fd; mret tt
         else mret tt);
    dup_fd p fd new_fd new_fd 0.

Definition sys_fcntl (p : nat) (fd cmd arg : Z) : M fs ret :=
  if negb (in_range fd) then mret (RErr EINVAL)
  else
    f ← get_fd p fd;
    if negb (has (fd_flags f) FDF_VALID) then mret (RErr EBADF)
    else
      o ← filp_get p fd;
      match o with
      | None => mret (RErr EINVAL)
      | Some _ =>
        if cmd =? F_DUPFD then
          if negb (in_range arg) then mret (RErr EBADF) else dup_fd p fd arg (Z.of_nat FILEDESC_MAX) 0
        else if cmd =? F_DUPFD_CLOEXEC then
          if negb (in_range arg) then mret (RErr EBADF)
          else dup_fd p fd arg (Z.of_nat FILEDESC_MAX) FDF_CLOSE_ON_EXEC
        else if cmd =? F_GETFD then
          mret (RVal (if has (fd_flags f) FDF_CLOSE_ON_EXEC then FD_CLOEXEC else 0))
        else if cmd =? F_SETFD then
          _ ← set_fd p fd (f <| fd_flags ::= fun n =>
                if has arg FD_CLOEXEC then Z.lor n FDF_CLOSE_ON_EXEC else Z.land n (Z.lnot FDF_CLOSE_ON_EXEC) |>);
          mret (RVal 0)
        else if (cmd =? F_GETFL) || (cmd =? F_SETFL) then mret (RErr EINVAL)
        else mret (RErr ENOSYS)
      end.

(** *** fs/fproc.c; [page] says whether [kmalloc_page] gave a page *)
Definition init_fproc (page : bool) (p : nat) : M fs ret :=
  if negb page then mret (RErr ENOMEM)
  else
    _ ← modify (fun s => s <| fproc ::= fun t =>
          <[p := mkFProcess 0 None None (replicate FILEDESC_MAX (mkFileDesc 0 None))]> t |>);
    mret (RVal 0).

Definition vnode_ref (o : option nat) : M fs unit :=
  match o with
  | Some v => modify (fun s => s <| v_reference_cnt ::= fun t => <[v := t v + 1]> t |>)
  | None => mret tt
  end.

Definition fini_fproc (p : nat) : M fs ret :=
  _ ← mfor (seq 0 FILEDESC_MAX) (fun fd => _ ← do_close p (Z.of_nat fd); mret tt);
  (* vnode_put of the two directories returns at once *)
  _ ← modify (fun s => s <| fproc ::= fun t =>
        <[p := (t p) <| current_dir := None |> <| root_dir := None |> <| fd_table := [] |>]> t |>);
  mret (RVal 0).

(** One turn of the copy loop of [fork_fds]. *)
Definition fork_fd (new old fd : nat) : M fs unit :=
  f ← get_fd old (Z.of_nat fd);
  if has (fd_flags f) FDF_VALID then
    match fd_filp f with
    | None => panic
    | Some x =>
      _ ← set_fd new (Z.of_nat fd) f;
      _ ← kassert (Z.land (fd_flags f) (Z.lnot FDF_ALL) =? 0);
      filp_ref x
    end
  else set_fd new (Z.of_nat fd) (mkFileDesc FDF_NONE None).

Definition fork_fds (page : bool) (new old : nat) : M fs ret :=
  r ← init_fproc page new;
  if negb (bool_decide (r = RVal 0)) then mret r
  else
    o ← gets (fun s => fproc s old);
    _ ← modify (fun s => s <| fproc ::= fun t => <[new := (t new) <| umask := umask o |>
          <| current_dir := current_dir o |> <| root_dir := root_dir o |>]> t |>);
    _ ← vnode_ref (current_dir o);
    _ ← vnode_ref (root_dir o);
    _ ← mfor (seq 0 FILEDESC_MAX) (fork_fd new old);
    mret (RVal 0).

Definition exec_fd (p fd : nat) : M fs unit :=
  f ← get_fd p (Z.of_nat fd);
  if has (fd_flags f) FDF_CLOSE_ON_EXEC then
    _ ← set_fd p (Z.of_nat fd) (f <| fd_flags ::= fun n => Z.land n (Z.lnot FDF_CLOSE_ON_EXEC) |>);
    _ ← do_close p (Z.of_nat fd); mret tt
  else mret tt.
Definition exec_fds (p : nat) : M fs ret :=
  _ ← mfor (seq 0 FILEDESC_MAX) (exec_fd p); mret (RVal 0).
End ops.
