(* ===== verification/FileDescInv.v ===== *)
(** * FileDescInv: reference counting of file pointers

    The invariant that ties the count in each filp to the descriptors that
    refer to it, and that every operation of fs/filedesc.c, fs/close.c and
    fs/fproc.c keeps it. *)

From S2P Require Import Prelude FileDesc.
Local Open Scope Z_scope.
Local Open Scope kernel_scope.

Section inv.
Context `{FsConsts}.
(** The process table and the filp table. *)
Context (procs filps : list nat) (procs_nodup : NoDup procs).
Implicit Types (s : fs) (p i x : nat) (f g : FileDesc).

Definition VALID f : bool := has (fd_flags f) FDF_VALID.

(** A descriptor at rest: known bits only, valid exactly when it has a filp,
    and then allocated. *)
Definition slot_ok f : Prop :=
  0 <= fd_flags f < 8 /\ (VALID f = true -> has (fd_flags f) FDF_ALLOCED = true) /\
  VALID f = bool_decide (is_Some (fd_filp f)).

Definition slot_ref x f : nat := if decide (fd_filp f = Some x) then 1%nat else 0%nat.
Definition count (t : list FileDesc) x : nat := sum_list_with (slot_ref x) t.
(** How many descriptors of all processes refer to filp [x]. *)
Definition refs s x : nat := sum_list_with (fun p => count (table s p) x) procs.

Definition usable (f : Filp) : Prop :=
  (f_type f = FILP_TYPE_VNODE /\ is_Some (f_u f)) \/ f_type f = FILP_TYPE_SUPERBLOCK.

Record fd_inv s : Prop := {
  di_len : forall p, table s p = [] \/ length (table s p) = FILEDESC_MAX;
  di_slot : forall p i f, table s p !! i = Some f -> slot_ok f;
  di_procs : forall p, table s p <> [] -> p ∈ procs;
  di_nodup : NoDup (filp_free_list s);
  di_free : forall x, x ∈ filp_free_list s -> f_type (filp s x) = FILP_TYPE_FREE /\ refs s x = 0%nat;
  di_ref : forall x, (0 < refs s x)%nat -> f_reference_cnt (filp s x) = Z.of_nat (refs s x) /\ usable (filp s x);
  di_leak : forall x, x ∈ filps -> x ∈ filp_free_list s \/ (0 < refs s x)%nat }.

(** *** Counting *)
Lemma count_insert t i f g x : t !! i = Some f -> (count (<[i := g]> t) x + slot_ref x f = count t x + slot_ref x g)%nat.
Proof.
  rw /count. revert i. induction t as [|h t IH]; intros [|i] Hi; simplify_eq/=; [lia|]. apply IH in Hi. lia.
Qed.

Lemma sum_list_with_update (l : list nat) (F G : nat -> nat) p :
  NoDup l -> p ∈ l -> (forall q, q <> p -> G q = F q) ->
  (sum_list_with G l + F p = sum_list_with F l + G p)%nat.
Proof.
  intros Hnd Hp HG. induction Hnd as [|q l Hq Hnd IH]; [by apply not_elem_of_nil in Hp|]. simpl.
  apply elem_of_cons in Hp as [->|Hp].
  - assert (sum_list_with G l = sum_list_with F l) as ->; [|lia].
    clear -HG Hq. induction l as [|y l IH]; simpl; [done|]. rw HG; [set_solver|]. rw IH //. set_solver.
  - rw HG; [set_solver|]. specialize (IH Hp). lia.
Qed.

Lemma table_put s p i g q : table (put_fd p i g s) q = if decide (q = p) then <[i := g]> (table s p) else table s q.
Proof. rw /put_fd /=. case_decide; subst; by reads. Qed.

Lemma refs_put s p i f g x :
  p ∈ procs -> table s p !! i = Some f ->
  (refs (put_fd p i g s) x + slot_ref x f = refs s x + slot_ref x g)%nat.
Proof.
  intros Hp Hi. pose proof (count_insert _ _ _ g x Hi) as Hc.
  pose proof (sum_list_with_update procs (fun q => count (table s q) x)
    (fun q => count (table (put_fd p i g s) q) x) p procs_nodup Hp) as Hs. cbv beta in Hs.
  rw (table_put s p i g p) decide_True // in Hs. rw /refs.
  assert (forall q, q <> p -> count (table (put_fd p i g s) q) x = count (table s q) x) as Hq.
  { intros q Hq. by rw table_put decide_False. }
  specialize (Hs Hq). lia.
Qed.

Lemma refs_upd_filp s x h y : refs (upd_filp x h s) y = refs s y.
Proof. done. Qed.

Lemma count_pos t x i f : t !! i = Some f -> fd_filp f = Some x -> (0 < count t x)%nat.
Proof.
  intros Hi Hf. pose proof (count_insert t i f (mkFileDesc 0 None) x Hi) as Hc.
  rw /slot_ref Hf decide_True // in Hc. simpl in Hc. lia.
Qed.

Lemma refs_pos s p i f x : p ∈ procs -> table s p !! i = Some f -> fd_filp f = Some x -> (0 < refs s x)%nat.
Proof.
  intros Hp Hi Hf. pose proof (refs_put s p i f (mkFileDesc 0 None) x Hp Hi) as Hc.
  rw /slot_ref Hf decide_True // in Hc. simpl in Hc. lia.
Qed.
(** *** The changes the operations are made of *)
Lemma alive s p i f : fd_inv s -> table s p !! i = Some f -> p ∈ procs.
Proof. intros Hinv Hi. apply (di_procs _ Hinv). intros E. by rw E in Hi. Qed.

Lemma put_tables s p i f g :
  fd_inv s -> table s p !! i = Some f -> slot_ok g -> let s' := put_fd p i g s in
  (forall q, table s' q = [] \/ length (table s' q) = FILEDESC_MAX) /\
  (forall q j h, table s' q !! j = Some h -> slot_ok h) /\ (forall q, table s' q <> [] -> q ∈ procs).
Proof.
  intros Hinv Hi Hg s'. rw /s'. split_and!; intros q; rw table_put; case_decide as Hq; subst.
  - right. rw length_insert. destruct (di_len _ Hinv p) as [E|]; [by rw E in Hi|done].
  - apply (di_len _ Hinv).
  - intros j h. rw list_lookup_insert_Some. intros [(_ & <- & _)|[_ Hj]]; [done|]. eapply (di_slot _ Hinv); exact Hj.
  - intros j h. apply (di_slot _ Hinv).
  - intros _. eapply alive; eauto.
  - apply (di_procs _ Hinv).
Qed.

Lemma inv_same s p i f g :
  fd_inv s -> table s p !! i = Some f -> fd_filp g = fd_filp f -> slot_ok g -> fd_inv (put_fd p i g s).
Proof.
  intros Hinv Hi Hfg Hg. destruct (put_tables s p i f g Hinv Hi Hg) as (H1 & H2 & H3).
  assert (forall x, refs (put_fd p i g s) x = refs s x) as Hr.
  { intros x. pose proof (refs_put s p i f g x (alive _ _ _ _ Hinv Hi) Hi) as Hp. rw /slot_ref Hfg in Hp. lia. }
  destruct Hinv. split; try done; intros x; rw Hr; [apply di_free0|apply di_ref0|apply di_leak0].
Qed.

Lemma slot_ref_Some x y f : fd_filp f = Some x -> slot_ref y f = if decide (x = y) then 1%nat else 0%nat.
Proof. rw /slot_ref. intros ->. destruct (decide (x = y)); case_decide; congruence. Qed.
Lemma slot_ref_None y f : fd_filp f = None -> slot_ref y f = 0%nat.
Proof. rw /slot_ref. intros ->. by case_decide. Qed.

Lemma inv_install s p i f g x :
  fd_inv s -> table s p !! i = Some f -> fd_filp f = None -> fd_filp g = Some x -> slot_ok g -> (0 < refs s x)%nat ->
  fd_inv (upd_filp x (fun h => h <| f_reference_cnt ::= fun n => n + 1 |>) (put_fd p i g s)).
Proof.
  intros Hinv Hi Hf Hgx Hg Hx. destruct (put_tables s p i f g Hinv Hi Hg) as (H1 & H2 & H3).
  assert (forall y, refs (put_fd p i g s) y = refs s y + (if decide (x = y) then 1 else 0))%nat as Hr.
  { intros y. pose proof (refs_put s p i f g y (alive _ _ _ _ Hinv Hi) Hi) as Hp.
    rw (slot_ref_None y f Hf) (slot_ref_Some x y g Hgx) in Hp. lia. }
  destruct Hinv. split; try done; intros y; rw ?refs_upd_filp Hr.
  - intros Hy. destruct (di_free0 y Hy) as [Ht H0]. rw /upd_filp /=.
    destruct (decide (x = y)) as [->|]; [lia|]. rw fn_lookup_insert_ne //. split; [done|lia].
  - intros Hy. rw /upd_filp /=. destruct (decide (x = y)) as [->|].
    + rw fn_lookup_insert /=. destruct (di_ref0 y Hx) as [-> Hu]. split; [lia|]. exact Hu.
    + rw fn_lookup_insert_ne // Nat.add_0_r. apply di_ref0. lia.
  - intros Hy. destruct (di_leak0 y Hy); [by left|right; lia].
Qed.

(** The filp after its last reference went. *)
Definition free_filp x s : fs :=
  (upd_filp x (fun h => h <| f_type := FILP_TYPE_FREE |> <| f_u := None |>) s) <| filp_free_list ::= cons x |>.

Lemma inv_remove s p i f g x :
  fd_inv s -> table s p !! i = Some f -> fd_filp f = Some x -> fd_filp g = None -> slot_ok g ->
  let s1 := upd_filp x (fun h => h <| f_reference_cnt ::= fun n => n - 1 |>) (put_fd p i g s) in
  f_reference_cnt (filp s1 x) = Z.of_nat (refs s x) - 1 /\
  fd_inv (if decide (refs s x = 1%nat) then free_filp x s1 else s1).
Proof.
  intros Hinv Hi Hf Hgn Hg s1. destruct (put_tables s p i f g Hinv Hi Hg) as (H1 & H2 & H3).
  pose proof (alive _ _ _ _ Hinv Hi) as Hp.
  pose proof (refs_pos s p i f x Hp Hi Hf) as Hx.
  assert (forall y, refs (put_fd p i g s) y + (if decide (x = y) then 1 else 0) = refs s y)%nat as Hr.
  { intros y. pose proof (refs_put s p i f g y Hp Hi) as Hq.
    rw (slot_ref_None y g Hgn) (slot_ref_Some x y f Hf) in Hq. lia. }
  destruct Hinv. destruct (di_ref0 x Hx) as [Hcnt Hux].
  split; [rw /s1 /upd_filp /=; by rw fn_lookup_insert /= Hcnt|].
  assert (forall y, x <> y -> refs (put_fd p i g s) y = refs s y) as Hry.
  { intros y Hy. specialize (Hr y). destruct (decide (x = y)); [congruence|lia]. }
  assert (S (refs (put_fd p i g s) x) = refs s x) as Hrx. { specialize (Hr x). rw decide_True // in Hr. lia. }
  assert (x ∉ filp_free_list s) as Hxf. { intros Hi'. apply di_free0 in Hi'. lia. }
  case_decide as H1x; split; try done.
  - simpl. by apply NoDup_cons.
  - intros y. change (refs (free_filp x s1) y) with (refs (put_fd p i g s) y). simpl. intros [->|Hy]%elem_of_cons.
    + rw fn_lookup_insert /=. split; [done|lia].
    + assert (x <> y) by (intros ->; done). rw !fn_lookup_insert_ne // Hry //. by apply di_free0.
  - intros y. change (refs (free_filp x s1) y) with (refs (put_fd p i g s) y). intros Hy. simpl.
    destruct (decide (x = y)) as [->|]; [lia|]. rw !fn_lookup_insert_ne // Hry //. apply di_ref0. by rw -Hry.
  - intros y. change (refs (free_filp x s1) y) with (refs (put_fd p i g s) y). intros Hy. simpl.
    destruct (decide (x = y)) as [->|]; [left; set_solver|]. rw Hry //. destruct (di_leak0 y Hy); [left; set_solver|by right].
  - intros y. change (refs s1 y) with (refs (put_fd p i g s) y). intros Hy. destruct (di_free0 y Hy) as [Ht H0].
    assert (x <> y) by (intros ->; done). simpl. rw fn_lookup_insert_ne // Hry //.
  - intros y. change (refs s1 y) with (refs (put_fd p i g s) y). intros Hy. simpl.
    destruct (decide (x = y)) as [->|].
    + rw fn_lookup_insert /=. split; [lia|exact Hux].
    + rw fn_lookup_insert_ne // Hry //. apply di_ref0. by rw -Hry.
  - intros y. change (refs s1 y) with (refs (put_fd p i g s) y). intros Hy.
    destruct (decide (x = y)) as [->|]; [right; lia|]. rw Hry //. by destruct (di_leak0 y Hy); [left|right].
Qed.

(** States with the same descriptors and filps. *)
#[local] Instance fs_equiv : Equiv fs := fun s s' =>
  (forall p, table s' p = table s p) /\ (forall x, filp s' x = filp s x) /\ filp_free_list s' = filp_free_list s.

#[local] Instance fs_equivalence : Equivalence (≡@{fs}).
Proof.
  split.
  - done.
  - intros s s' (H1 & H2 & H3). split_and!; [intros; by rw H1|intros; by rw H2|done].
  - intros s1 s2 s3 (H1 & H2 & H3) (H4 & H5 & H6). split_and!; [intros; by rw H4|intros; by rw H5|congruence].
Qed.

Lemma refs_tables s s' x : (forall p, table s' p = table s p) -> refs s' x = refs s x.
Proof.
  intros H1. rw /refs. generalize procs as l. induction l as [|p l IH]; simpl; [done|]. by rw H1 IH.
Qed.
Lemma refs_equiv s s' x : s ≡ s' -> refs s' x = refs s x.
Proof. intros (H1 & _). by apply refs_tables. Qed.

#[local] Instance fd_inv_proper : Proper ((≡) ==> impl) fd_inv.
Proof.
  intros s s' He [Hl Hs Hp Hn Hf Hr Hk]. pose proof (fun x => refs_equiv _ _ x He) as Hrf.
  destruct He as (H1 & H2 & H3). split; intros *; rw ?H1 ?H2 ?H3 ?Hrf; auto.
  apply Hs.
Qed.

#[local] Instance put_fd_proper p i f : Proper ((≡) ==> (≡)) (put_fd p i f).
Proof. intros s s' (H1 & H2 & H3). split_and!; [|done|done]. intros q. by rw !table_put !H1. Qed.

#[local] Instance upd_filp_proper x h : Proper ((≡) ==> (≡)) (upd_filp x h).
Proof.
  intros s s' (H1 & H2 & H3). split_and!; [done| |done]. intros y. rw /upd_filp /=.
  destruct (decide (x = y)) as [->|]; reads; by rw H2.
Qed.

(** *** Running the operations *)
Lemma flags_small n : 0 <= n < 8 -> n = 0 \/ n = 1 \/ n = 2 \/ n = 3 \/ n = 4 \/ n = 5 \/ n = 6 \/ n = 7.
Proof. lia. Qed.

Lemma slot_ok_known f : slot_ok f -> (Z.land (fd_flags f) (Z.lnot FDF_ALL) =? 0) = true.
Proof. intros [Hb _]. apply flags_small in Hb. by destruct_or! Hb; rw Hb. Qed.

Lemma slot_ok_None : slot_ok (mkFileDesc 0 None).
Proof. by split_and!. Qed.

Lemma in_range_nat i : (i < FILEDESC_MAX)%nat -> in_range (Z.of_nat i) = true.
Proof. intros. rw /in_range. apply andb_true_iff. lia. Qed.

Lemma in_range_inv fd : in_range fd = true -> exists i, fd = Z.of_nat i /\ (i < FILEDESC_MAX)%nat.
Proof. rw /in_range andb_true_iff. intros [? ?]. exists (Z.to_nat fd). lia. Qed.

Lemma get_fd_run s p i f : table s p !! i = Some f -> get_fd p (Z.of_nat i) s = Ok (f, s).
Proof. intros Hi. rw /get_fd Nat2Z.id Hi. by destruct (Z.ltb_spec (Z.of_nat i) 0); [lia|]. Qed.

Lemma set_fd_run s p i f g : table s p !! i = Some f -> set_fd p (Z.of_nat i) g s = Ok (tt, put_fd p i g s).
Proof.
  intros Hi. apply lookup_lt_Some in Hi. rw /set_fd Nat2Z.id. destruct (Z.ltb_spec (Z.of_nat i) 0); [lia|].
  by destruct (Nat.leb_spec (length (table s p)) i); [lia|].
Qed.

Lemma put_fd_lookup s p i f g : table s p !! i = Some f -> table (put_fd p i g s) p !! i = Some g.
Proof. intros Hi. rw table_put decide_True //. apply list_lookup_insert_eq. by apply lookup_lt_Some in Hi. Qed.

Lemma put_put s p i f g : put_fd p i g (put_fd p i f s) ≡ put_fd p i g s.
Proof.
  split_and!; [|done|done]. intros q. rw !table_put. case_decide; [|done].
  by rw decide_True // list_insert_insert_eq.
Qed.

Lemma filp_get_run s p i f :
  fd_inv s -> (i < FILEDESC_MAX)%nat -> table s p !! i = Some f -> filp_get p (Z.of_nat i) s = Ok (fd_filp f, s).
Proof.
  intros Hinv Hr Hi. rw /filp_get in_range_nat // /=. mrun. rw (get_fd_run _ _ _ _ Hi).
  destruct (di_slot _ Hinv _ _ _ Hi) as (_ & _ & Hv). rw /VALID in Hv. rw Hv.
  case_bool_decide as Hx; [done|]. by destruct (fd_filp f); [destruct Hx; eauto|].
Qed.

Lemma fd_free_run s p i f :
  (i < FILEDESC_MAX)%nat -> table s p !! i = Some f -> 0 <= fd_flags f < 8 -> has (fd_flags f) FDF_ALLOCED = true ->
  fd_free p (Z.of_nat i) s = Ok (RVal 0, put_fd p i (mkFileDesc 0 None) s).
Proof.
  intros Hr Hi Hb Ha. rw /fd_free in_range_nat //=. mrun. rw (get_fd_run _ _ _ _ Hi) Ha.
  assert ((Z.land (fd_flags f) (Z.lnot FDF_ALL) =? 0) = true) as ->.
  { apply flags_small in Hb. by destruct_or! Hb; rw Hb. }
  by rw (set_fd_run _ _ _ _ _ Hi).
Qed.

Lemma fd_invalidate_run s p i f :
  (i < FILEDESC_MAX)%nat -> table s p !! i = Some f -> 0 <= fd_flags f < 8 -> has (fd_flags f) FDF_ALLOCED = true ->
  fd_invalidate p (Z.of_nat i) s = Ok (RVal 0, put_fd p i (f <| fd_flags ::= fun n => Z.land n (Z.lnot FDF_VALID) |>) s).
Proof.
  intros Hr Hi Hb Ha. rw /fd_invalidate in_range_nat //=. mrun. rw (get_fd_run _ _ _ _ Hi) Ha.
  assert ((Z.land (fd_flags f) (Z.lnot FDF_ALL) =? 0) = true) as ->.
  { apply flags_small in Hb. by destruct_or! Hb; rw Hb. }
  by rw (set_fd_run _ _ _ _ _ Hi).
Qed.

(** Invalidating and then freeing a valid descriptor. *)
Lemma drop_fd_run s p i f :
  fd_inv s -> (i < FILEDESC_MAX)%nat -> table s p !! i = Some f -> VALID f = true ->
  exists s1 s2, fd_invalidate p (Z.of_nat i) s = Ok (RVal 0, s1) /\ fd_free p (Z.of_nat i) s1 = Ok (RVal 0, s2) /\
    filp s1 = filp s /\ s2 ≡ put_fd p i (mkFileDesc 0 None) s /\ v_mode s2 = v_mode s /\ closes s2 = closes s /\
    filp s2 = filp s /\ filp_free_list s2 = filp_free_list s.
Proof.
  intros Hinv Hr Hi Hv. destruct (di_slot _ Hinv _ _ _ Hi) as (Hb & Ha & _). specialize (Ha Hv).
  rw (fd_invalidate_run s p i f) //. do 2 eexists. split; [done|].
  rw (fd_free_run _ p i (f <| fd_flags ::= fun n => Z.land n (Z.lnot FDF_VALID) |>)) //.
  - eapply put_fd_lookup; eauto.
  - simpl. apply flags_small in Hb. by destruct_or! Hb; rw Hb.
  - simpl. apply flags_small in Hb. destruct_or! Hb; rw Hb; rw Hb in Ha; done.
  - split_and!; try done. apply put_put.
Qed.
#[local] Instance free_filp_proper x : Proper ((≡) ==> (≡)) (free_filp x).
Proof.
  intros s s' He. apply (upd_filp_proper x (fun h => h <| f_type := FILP_TYPE_FREE |> <| f_u := None |>)) in He.
  destruct He as (H1 & H2 & H3). split_and!; [done|done|]. simpl. by f_equal.
Qed.

Lemma filp_release_run s x n :
  f_reference_cnt (filp s x) = n -> (n = 1 -> x ∉ filp_free_list s) ->
  exists s', filp_release x s = Ok (n - 1, s') /\
    let s1 := upd_filp x (fun h => h <| f_reference_cnt ::= fun n => n - 1 |>) s in
    s' ≡ (if decide (n = 1) then free_filp x s1 else s1) /\ v_mode s' = v_mode s /\ closes s' = closes s.
Proof.
  intros Hn Hf. rw /filp_release. mrun. rw {1 2 3}/upd_filp /= fn_lookup_insert /= Hn.
  destruct (Z.eqb_spec (n - 1) 0) as [H0|H0].
  - rw dl_add_head_ok; [apply Hf; lia|]. eexists. split; [done|]. rw decide_True; [lia|]. done.
  - eexists. split; [done|]. rw decide_False; [lia|]. done.
Qed.

(** What [do_close] of a valid descriptor closes for good. *)
Definition last_close_of s x : last_close :=
  match f_type (filp s x), f_u (filp s x) with
  | FILP_TYPE_VNODE, Some v => if S_ISFIFO (v_mode s v) then ClosePipe v (has (f_flags (filp s x)) O_WRONLY) else CloseVnode v
  | _, u => CloseSuperBlock u
  end.

Lemma fd_inv_closes s l : fd_inv s -> fd_inv (s <| closes := l |>).
Proof. apply fd_inv_proper. by split_and!. Qed.

Lemma do_close_run s p i f :
  fd_inv s -> (i < FILEDESC_MAX)%nat -> table s p !! i = Some f ->
  match fd_filp f with
  | None => do_close p (Z.of_nat i) s = Ok (RErr EBADF, s)
  | Some x => exists s', do_close p (Z.of_nat i) s = Ok (RVal 0, s') /\ fd_inv s' /\
      table s' p = <[i := mkFileDesc 0 None]> (table s p) /\ (forall q, q <> p -> table s' q = table s q) /\
      (forall y, y <> x -> filp s' y = filp s y) /\
      (refs s x <> 1%nat -> f_type (filp s' x) = f_type (filp s x) /\ f_u (filp s' x) = f_u (filp s x)) /\
      v_mode s' = v_mode s /\
      closes s' = (if decide (refs s x = 1%nat) then [last_close_of s x] else []) ++ closes s
  end.
Proof.
  intros Hinv Hr Hi. rw /do_close in_range_nat //=. pose proof (filp_get_run s p i f Hinv Hr Hi) as Hget.
  destruct (fd_filp f) as [x|] eqn:Hx; rw {1}/mbind {1}/M_bind Hget //.
  destruct (di_slot _ Hinv _ _ _ Hi) as (Hb & Ha & Hv). rw Hx bool_decide_true // in Hv.
  pose proof (alive _ _ _ _ Hinv Hi) as Hp. pose proof (refs_pos s p i f x Hp Hi Hx) as Hpos.
  destruct (di_ref _ Hinv x Hpos) as [Hcnt Hus].
  destruct (drop_fd_run s p i f Hinv Hr Hi Hv) as (s1 & s2 & Hs1 & Hs2 & Hf1 & He2 & Hm2 & Hc2 & Hf2 & Hl2).
  destruct (filp_release_run s2 x (Z.of_nat (refs s x))) as (s3 & Hs3 & He3 & Hm3 & Hc3).
  { by rw Hf2. } { rw Hl2. intros _ Hin. apply (di_free _ Hinv) in Hin. lia. }
  destruct (inv_remove s p i f (mkFileDesc 0 None) x Hinv Hi Hx eq_refl slot_ok_None) as [_ Hrem].
  set s0 := put_fd p i (mkFileDesc 0 None) s in He2 Hrem.
  assert (s3 ≡ (if decide (refs s x = 1%nat)
     then free_filp x (upd_filp x (fun h => h <| f_reference_cnt ::= fun n => n - 1 |>) s0)
     else upd_filp x (fun h => h <| f_reference_cnt ::= fun n => n - 1 |>) s0)) as He.
  { etransitivity; [exact He3|]. destruct (decide (refs s x = 1%nat)); [rw decide_True; [lia|]|rw decide_False; [lia|]].
    - by apply free_filp_proper, upd_filp_proper.
    - by apply upd_filp_proper. }
  assert (fd_inv s3) as Hinv3. { eapply fd_inv_proper; [symmetry; exact He|exact Hrem]. }
  assert (table s3 p = <[i := mkFileDesc 0 None]> (table s p) /\ (forall q, q <> p -> table s3 q = table s q) /\
    (forall y, y <> x -> filp s3 y = filp s y) /\
    (refs s x <> 1%nat -> f_type (filp s3 x) = f_type (filp s x) /\ f_u (filp s3 x) = f_u (filp s x))) as Htab.
  { destruct He as (Ht & Hfl & _). split_and!.
    - rw -Ht. case_decide; rw /= fn_lookup_insert //.
    - intros q Hq. rw -Ht. case_decide; by reads.
    - intros y Hy. rw -Hfl. case_decide; by reads.
    - intros H1. rw -Hfl decide_False //= fn_lookup_insert //. }
  destruct Htab as (Ht1 & Ht2 & Ht3 & Hk).
  assert (forall n, (Z.of_nat n - 1 =? 0) = bool_decide (n = 1%nat)) as Hz.
  { intros n. case_bool_decide; [by apply Z.eqb_eq; lia|by apply Z.eqb_neq; lia]. }
  rw {1}/mbind {1}/M_bind Hs1 {1}/mbind {1}/M_bind {1}/gets Hf1.
  destruct Hus as [[Hty [v Hu]]|Hty]; rw Hty.
  - rw {1}/mbind {1}/M_bind {1}/vnode_get_from_filp. mrun. rw Hf1 Hty bool_decide_true // Hu Hs2 Hs3 Hz.
    case_bool_decide as H1; eexists; (split; [done|]); simpl; split_and!; try done; try congruence; try (intros Hn; destruct (Hk Hn) as [-> ->]; by rw ?Hty ?Hu).
    + by apply fd_inv_closes.
    + rw decide_True // Hm3 Hm2 Hc3 Hc2 /last_close_of Hty Hu. done.
    + rw decide_False // Hc3 Hc2 //.
  - rw {1}/mbind {1}/M_bind Hs2 {1}/mbind {1}/M_bind Hs3 Hz.
    case_bool_decide as H1; eexists; (split; [done|]); simpl; split_and!; try done; try congruence; try (intros Hn; destruct (Hk Hn) as [-> ->]; by rw ?Hty ?Hu).
    + by apply fd_inv_closes.
    + rw decide_True // Hc3 Hc2 /last_close_of Hty. done.
    + rw decide_False // Hc3 Hc2 //.
Qed.
(** *** Allocation and duplication *)
Definition allocated f : bool := has (fd_flags f) FDF_ALLOCED.

(** [j] is the first entry from [min] on that is not allocated. *)
Definition lowest_free (t : list FileDesc) (min j : nat) : Prop :=
  (min <= j)%nat /\ (exists f, t !! j = Some f /\ allocated f = false) /\
  (forall k, (min <= k < j)%nat -> exists f, t !! k = Some f /\ allocated f = true).

Lemma fd_alloc_loop_slots s p n : forall i j, (forall i f, table s p !! i = Some f -> slot_ok f) -> lowest_free (table s p) i j -> (j < i + n)%nat ->
  fd_alloc_loop p (Z.of_nat i) n s = Ok (Some (Z.of_nat j), put_fd p j (mkFileDesc FDF_ALLOCED None) s).
Proof.
  induction n as [|n IH]; intros i j Hinv (Hle & (f & Hj & Hf) & Hk) Hn; [lia|]. simpl.
  destruct (decide (i = j)) as [->|Hne].
  - rw {1}/mbind {1}/M_bind (get_fd_run _ _ _ _ Hj). rw /allocated in Hf. rw Hf /=. mrun.
    rw slot_ok_known; [by eapply Hinv; exact Hj|]. by rw (set_fd_run _ _ _ _ _ Hj).
  - destruct (Hk i) as (g & Hg & Hga); [lia|]. rw {1}/mbind {1}/M_bind (get_fd_run _ _ _ _ Hg).
    rw /allocated in Hga. rw Hga /=. replace (Z.of_nat i + 1) with (Z.of_nat (S i)) by lia.
    apply IH; [done| |lia]. split_and!; [lia|by exists f|]. intros k ?. apply Hk. lia.
Qed.

Lemma fd_alloc_loop_found s p n i j : fd_inv s -> lowest_free (table s p) i j -> (j < i + n)%nat ->
  fd_alloc_loop p (Z.of_nat i) n s = Ok (Some (Z.of_nat j), put_fd p j (mkFileDesc FDF_ALLOCED None) s).
Proof. intros Hinv. apply fd_alloc_loop_slots. apply (di_slot _ Hinv). Qed.

Lemma fd_alloc_loop_overrun s p n : forall i,
  (forall k f, (i <= k)%nat -> table s p !! k = Some f -> allocated f = true) -> (length (table s p) < i + n)%nat ->
  (i <= length (table s p))%nat -> fd_alloc_loop p (Z.of_nat i) n s = Fault.
Proof.
  induction n as [|n IH]; intros i Hall Hn Hi; [lia|]. simpl.
  destruct (table s p !! i) as [f|] eqn:E.
  - rw {1}/mbind {1}/M_bind (get_fd_run _ _ _ _ E). pose proof (Hall i f ltac:(lia) E) as Ha. rw /allocated in Ha. rw Ha /=.
    replace (Z.of_nat i + 1) with (Z.of_nat (S i)) by lia. apply IH; [|lia|by apply lookup_lt_Some in E].
    intros k g Hk. apply Hall. lia.
  - rw /mbind /M_bind /get_fd Nat2Z.id E. by destruct (_ <? _).
Qed.

Lemma not_allocated f : slot_ok f -> allocated f = false -> fd_filp f = None.
Proof.
  intros (_ & Ha & Hv) Hn. destruct (fd_filp f) eqn:E; [|done]. rw bool_decide_true // in Hv.
  rw /allocated Ha // in Hn.
Qed.

Lemma dup_fd_run s p i f x min j n flags :
  fd_inv s -> (i < FILEDESC_MAX)%nat -> table s p !! i = Some f -> fd_filp f = Some x ->
  lowest_free (table s p) min j -> (j <= n)%nat -> flags = 0 \/ flags = FDF_CLOSE_ON_EXEC ->
  exists s', dup_fd p (Z.of_nat i) (Z.of_nat min) (Z.of_nat n) flags s = Ok (RVal (Z.of_nat j), s') /\ fd_inv s' /\
    table s' p = <[j := mkFileDesc (Z.lor FDF_ALLOCED (Z.lor FDF_VALID flags)) (Some x)]> (table s p) /\
    (forall q, q <> p -> table s' q = table s q) /\ refs s' x = S (refs s x) /\
    closes s' = closes s /\ v_mode s' = v_mode s.
Proof.
  intros Hinv Hi Hf Hx Hlow Hn Hfl. rw /dup_fd {1}/mbind {1}/M_bind (filp_get_run s p i f) // Hx.
  rw {1}/mbind {1}/M_bind /fd_alloc (fd_alloc_loop_found s p _ min j) //; [destruct Hlow; lia|].
  destruct Hlow as (_ & (g & Hg & Hga) & _). pose proof (di_slot _ Hinv _ _ _ Hg) as Hgs.
  pose proof (not_allocated g Hgs Hga) as Hgn. pose proof (alive _ _ _ _ Hinv Hf) as Hp.
  pose proof (refs_pos s p i f x Hp Hf Hx) as Hpos.
  set g' := mkFileDesc (Z.lor FDF_ALLOCED (Z.lor FDF_VALID flags)) (Some x).
  assert (slot_ok g') as Hg'. { by destruct Hfl as [->| ->]. }
  pose proof (inv_install s p j g g' x Hinv Hg Hgn eq_refl Hg' Hpos) as Hnew.
  pose proof (refs_put s p j g g' x Hp Hg) as Hrefs.
  rw (slot_ref_None x g Hgn) (slot_ref_Some x x g') // decide_True // in Hrefs.
  set sa := put_fd p j (mkFileDesc FDF_ALLOCED None) s.
  pose proof (put_fd_lookup s p j g (mkFileDesc FDF_ALLOCED None) Hg) as Hl1.
  rw /filp_ref. mrun. rw (get_fd_run sa p j _ Hl1) (set_fd_run sa p j _ _ Hl1).
  pose proof (put_fd_lookup sa p j _ (mkFileDesc FDF_ALLOCED (Some x)) Hl1) as Hl2.
  rw (set_fd_run (upd_filp x _ (put_fd p j (mkFileDesc FDF_ALLOCED (Some x)) sa)) p j _ _ Hl2). eexists. split; [done|].
  set s' := put_fd p j _ _. assert (upd_filp x (fun h => h <| f_reference_cnt ::= fun n => n + 1 |>) (put_fd p j g' s) ≡ s') as He.
  { symmetry. rw /s'. transitivity (put_fd p j g' (upd_filp x (fun h => h <| f_reference_cnt ::= fun n => n + 1 |>) s)); [|done].
    split_and!; [|done|done]. intros q. rw !table_put /=. destruct (decide (q = p)); [|by reads].
    by rw !(decide_True (P := p = p)) // !list_insert_insert_eq. }
  split_and!.
  - eapply fd_inv_proper; eauto.
  - destruct He as (Ht & _). rw Ht /= fn_lookup_insert //.
  - intros q Hq. destruct He as (Ht & _). rw Ht. by reads.
  - rw (refs_equiv _ _ x He) refs_upd_filp. lia.
  - done.
  - done.
Qed.
(** *** Loops over the whole table *)
Lemma wp_slots (I : nat -> fs -> Prop) (body : nat -> M fs unit) (Q : unit -> fs -> Prop) s :
  I 0%nat s -> (forall i s', (i < FILEDESC_MAX)%nat -> I i s' -> wp (body i) (fun _ => I (S i)) s') ->
  (forall s', I FILEDESC_MAX s' -> Q tt s') -> wp (mfor (seq 0 FILEDESC_MAX) body) Q s.
Proof.
  intros H0 Hstep Hend.
  apply (wp_mfor (fun l s' => exists k, (k <= FILEDESC_MAX)%nat /\ l = seq k (FILEDESC_MAX - k) /\ I k s')).
  - exists 0%nat. rw Nat.sub_0_r. split_and!; [lia|done..].
  - intros a l s' (k & Hk & Hl & HI). destruct (FILEDESC_MAX - k)%nat as [|m] eqn:E; simplify_eq/=.
    eapply wp_mono; [apply Hstep; [lia|done]|]. intros [] s'' HI'. exists (S k). split_and!; [lia| |done].
    f_equal. lia.
  - intros s' (k & Hk & Hl & HI). destruct (FILEDESC_MAX - k)%nat eqn:E; [|done].
    apply Hend. by replace FILEDESC_MAX with k by lia.
Qed.

Lemma wp_Ok {A} (m : M fs A) a s s' (Q : A -> fs -> Prop) : m s = Ok (a, s') -> Q a s' -> wp m Q s.
Proof. rw /wp. by intros ->. Qed.

(** The part of a table that a loop has, and has not, been through. *)
Definition done_upto (F : FileDesc -> FileDesc) (k : nat) (t t' : list FileDesc) : Prop :=
  length t' = length t /\ forall j f, t !! j = Some f -> t' !! j = Some (if decide (j < k)%nat then F f else f).

Lemma done_upto_0 F t : done_upto F 0 t t.
Proof. split; [done|]. intros j f Hj. destruct (decide (j < 0)%nat); [lia|done]. Qed.

Lemma done_upto_step F k t t' g h :
  done_upto F k t t' -> t !! k = Some g -> h = F g -> done_upto F (S k) t (<[k := h]> t').
Proof.
  intros [Hl Ht] Hk ->. split; [by rw length_insert|]. intros j f Hj. destruct (decide (j = k)) as [->|Hne].
  - rw list_lookup_insert_eq; [rw Hl; by apply lookup_lt_Some in Hk|]. rw decide_True; [lia|congruence].
  - rw list_lookup_insert_ne; [lia|]. rw (Ht j f Hj). f_equal. repeat case_decide; try done; lia.
Qed.

Lemma done_upto_skip F k t t' g : done_upto F k t t' -> t !! k = Some g -> F g = g -> done_upto F (S k) t t'.
Proof.
  intros [Hl Ht] Hk Hg. split; [done|]. intros j f Hj. rw (Ht j f Hj). f_equal.
  destruct (decide (j = k)) as [->|Hne]; repeat case_decide; try done; try lia. congruence.
Qed.

Lemma done_upto_end F t t' : done_upto F (length t) t t' -> t' = map F t.
Proof.
  intros [Hl Ht]. apply list_eq. intros j. rw list_lookup_fmap. destruct (t !! j) as [f|] eqn:Hj; simpl.
  - rw (Ht j f Hj) decide_True //. by apply lookup_lt_Some in Hj.
  - apply lookup_ge_None_2. rw Hl. by apply lookup_ge_None_1.
Qed.

(** *** Closing a whole table *)
Definition cleared : FileDesc -> FileDesc := fun f => if VALID f then mkFileDesc 0 None else f.

Lemma valid_filp f : slot_ok f -> VALID f = true <-> is_Some (fd_filp f).
Proof. intros (_ & _ & ->). by rw bool_decide_eq_true. Qed.

Lemma close_slot s p k t :
  fd_inv s -> length t = FILEDESC_MAX -> (forall i f, t !! i = Some f -> slot_ok f) -> (k < FILEDESC_MAX)%nat ->
  done_upto cleared k t (table s p) ->
  wp (_ ← do_close p (Z.of_nat k); mret tt) (fun _ s' => fd_inv s' /\ done_upto cleared (S k) t (table s' p) /\
    forall q, q <> p -> table s' q = table s q) s.
Proof.
  intros Hinv Ht Hok Hk Hd. destruct (lookup_lt_is_Some_2 t k) as [f Hf]; [lia|].
  pose proof (proj2 Hd k f Hf) as Hs. rw decide_False in Hs; [lia|].
  pose proof (valid_filp f (Hok k f Hf)) as Hv.
  pose proof (do_close_run s p k f Hinv Hk Hs) as Hr. destruct (fd_filp f) as [x|].
  - destruct Hr as (s' & Hr & Hi & Htb & Hq & _). apply wp_bind. eapply wp_Ok; [exact Hr|]. apply wp_ret.
    split_and!; [done| |done]. rw Htb. eapply done_upto_step; [done|exact Hf|]. rw /cleared. by rw (proj2 Hv).
  - apply wp_bind. eapply wp_Ok; [exact Hr|]. apply wp_ret. split_and!; [done| |done].
    eapply done_upto_skip; [done|exact Hf|]. rw /cleared. destruct (VALID f); [|done]. by destruct (proj1 Hv eq_refl).
Qed.

Lemma count_zero t x : (forall i f, t !! i = Some f -> fd_filp f = None) -> count t x = 0%nat.
Proof.
  induction t as [|f t IH]; intros Hf; [done|]. rw /count /= (slot_ref_None x f); [by apply (Hf 0%nat)|].
  apply IH. intros i g Hg. by apply (Hf (S i)).
Qed.

(** Replacing a table none of whose entries refers to a filp by another such. *)
Lemma inv_retable s s' p :
  fd_inv s -> p ∈ procs -> (forall i f, table s p !! i = Some f -> fd_filp f = None) ->
  (table s' p = [] \/ table s' p = replicate FILEDESC_MAX (mkFileDesc 0 None)) ->
  (forall q, q <> p -> table s' q = table s q) -> filp s' = filp s -> filp_free_list s' = filp_free_list s ->
  fd_inv s'.
Proof.
  intros Hinv Hp Hold Hnew Hq Hf Hl.
  assert (forall i f, table s' p !! i = Some f -> f = mkFileDesc 0 None) as Hnew'.
  { intros i f. destruct Hnew as [->| ->]; [done|]. by intros [? _]%lookup_replicate_1. }
  assert (forall x, refs s' x = refs s x) as Hr.
  { intros x. pose proof (sum_list_with_update procs (fun q => count (table s q) x) (fun q => count (table s' q) x) p
      procs_nodup Hp) as Hs. cbv beta in Hs. rw (count_zero (table s p)) // (count_zero (table s' p)) in Hs.
    - intros i f Hi. by rw (Hnew' i f Hi).
    - rw /refs. specialize (Hs ltac:(intros; by rw Hq)). lia. }
  destruct Hinv. split; rw ?Hf ?Hl; try done.
  - intros q. destruct (decide (q = p)) as [->|]; [|by rw Hq].
    destruct Hnew as [->| ->]; [by left|right; apply length_replicate].
  - intros q i f. destruct (decide (q = p)) as [->|].
    + intros ->%Hnew'. apply slot_ok_None.
    + rw Hq //. apply di_slot0.
  - intros q. destruct (decide (q = p)) as [->|]; [done|]. rw Hq //. apply di_procs0.
  - intros x. rw Hr. apply di_free0.
  - intros x. rw Hr. apply di_ref0.
  - intros x. rw Hr. apply di_leak0.
Qed.
(** Taking a filp off the free list for a new descriptor. *)
Lemma inv_new s s' p j f g x l :
  fd_inv s -> filp_free_list s = x :: l -> table s p !! j = Some f -> fd_filp f = None -> fd_filp g = Some x -> slot_ok g ->
  (forall q, table s' q = table (put_fd p j g s) q) -> (forall y, y <> x -> filp s' y = filp s y) ->
  f_reference_cnt (filp s' x) = 1 -> usable (filp s' x) -> filp_free_list s' = l -> fd_inv s'.
Proof.
  intros Hinv Hl Hj Hf Hgx Hg Ht Hfl Hn Hu Hl'. destruct (put_tables s p j f g Hinv Hj Hg) as (H1 & H2 & H3).
  assert (forall y, refs s' y = refs s y + (if decide (x = y) then 1 else 0))%nat as Hr.
  { intros y. rw (refs_tables _ _ y Ht). pose proof (refs_put s p j f g y (alive _ _ _ _ Hinv Hj) Hj) as Hp.
    rw (slot_ref_None y f Hf) (slot_ref_Some x y g Hgx) in Hp. lia. }
  destruct Hinv. rw Hl in di_nodup0 di_free0 di_leak0. apply NoDup_cons in di_nodup0 as [Hxl Hnd].
  assert (refs s x = 0%nat) as Hx0 by (apply di_free0; set_solver).
  split; rw ?Hl'; try done.
  - intros q. rw Ht. apply H1.
  - intros q i h. rw Ht. apply H2.
  - intros q. rw Ht. apply H3.
  - intros y Hy. assert (y <> x) by (intros ->; done). rw Hr Hfl // decide_False; [congruence|]. rw Nat.add_0_r. apply di_free0. set_solver.
  - intros y. rw Hr. destruct (decide (x = y)) as [<-|Hne].
    + intros _. rw Hn Hx0. done.
    + rw Nat.add_0_r. rw Hfl; [congruence|]. apply di_ref0.
  - intros y Hy. rw Hr. destruct (decide (x = y)) as [<-|Hne]; [right; lia|]. rw Nat.add_0_r.
    destruct (di_leak0 y Hy) as [Hi|]; [left|by right]. set_solver.
Qed.

(** The contents of a free filp do not matter. *)
Lemma inv_free_filp s s' x :
  fd_inv s -> x ∈ filp_free_list s -> (forall q, table s' q = table s q) -> (forall y, y <> x -> filp s' y = filp s y) ->
  f_type (filp s' x) = FILP_TYPE_FREE -> filp_free_list s' = filp_free_list s -> fd_inv s'.
Proof.
  intros [] Hx Ht Hfl Hty Hl. pose proof (fun y => refs_tables s s' y Ht) as Hr.
  split; rw ?Hl; try done.
  - intros q. rw Ht. auto.
  - intros q. rw Ht. apply di_slot0.
  - intros q. rw Ht. auto.
  - intros y Hy. rw Hr. destruct (decide (y = x)) as [->|]; [|rw Hfl //; auto]. split; [done|]. by apply di_free0.
  - intros y. rw Hr. intros Hy. destruct (decide (y = x)) as [->|]; [|rw Hfl //; auto].
    destruct (di_free0 x Hx). lia.
  - intros y. rw Hr. auto.
Qed.
End inv.
