(* ===== verification/FileDescThms.v ===== *)
(** * FileDescThms: the file-descriptor system calls

    The behaviour of close, dup, dup2, fcntl, fork, exec and exit on the
    descriptor tables, and that reference counts stay exact under any sequence
    of them. *)

From S2P Require Import Prelude FileDesc FileDescInv.
Local Open Scope Z_scope.
Local Open Scope kernel_scope.

Section thms.
Context `{FsConsts}.
Context (procs filps : list nat) (procs_nodup : NoDup procs).
Implicit Types (s : fs) (p i x : nat) (f g : FileDesc).
Abbreviation fd_inv := (fd_inv procs filps).
Abbreviation refs := (refs procs).

(** A descriptor in range, of a process with a table. *)
Lemma slot_at s p fd f s' : get_fd p fd s = Ok (f, s') -> s' = s /\ exists i, fd = Z.of_nat i /\ table s p !! i = Some f.
Proof.
  rw /get_fd. destruct (Z.ltb_spec fd 0); [done|]. destruct (table s p !! Z.to_nat fd) as [g|] eqn:E; [|done].
  intros [= -> ->]. split; [done|]. exists (Z.to_nat fd). split; [lia|done].
Qed.

Lemma slot_range s p i f : fd_inv s -> table s p !! i = Some f -> (i < FILEDESC_MAX)%nat.
Proof.
  intros Hinv Hi. pose proof (lookup_lt_Some _ _ _ Hi). destruct (di_len _ _ _ Hinv p) as [E|]; [|lia].
  by rw E in Hi.
Qed.

Lemma fd_alloc_loop_cases s p n : forall i o s', fd_alloc_loop p (Z.of_nat i) n s = Ok (o, s') ->
  match o with
  | None => s' = s
  | Some fd => exists j, fd = Z.of_nat j /\ lowest_free (table s p) i j /\ (j < i + n)%nat
  end.
Proof.
  induction n as [|n IH]; intros i o s'; simpl; [by intros [= <- <-]|]. mrun.
  destruct (get_fd p (Z.of_nat i) s) as [[f s1]| |] eqn:E; try done.
  apply slot_at in E as (-> & i' & Hi & Hf). apply Nat2Z.inj in Hi as <-.
  destruct (has (fd_flags f) FDF_ALLOCED) eqn:Ha; simpl.
  - replace (Z.of_nat i + 1) with (Z.of_nat (S i)) by lia. intros Hr%IH. destruct o as [fd|]; [|done].
    destruct Hr as (j & -> & (Hj & Hex & Hlt) & Hn). exists j. split_and!; try done; try lia.
    split_and!; [lia|done|]. intros k Hk. destruct (decide (k = i)) as [->|]; [eauto|]. apply Hlt. lia.
  - repeat case_match; try done. intros [= <- <-]. exists i. split_and!; try done; try lia.
    split_and!; [lia|eauto|lia].
Qed.

Lemma filp_get_cases s p fd o s1 :
  fd_inv s -> filp_get p fd s = Ok (o, s1) ->
  s1 = s /\ (forall x, o = Some x -> exists i f, fd = Z.of_nat i /\ (i < FILEDESC_MAX)%nat /\ table s p !! i = Some f /\ fd_filp f = Some x).
Proof.
  intros Hinv. rw /filp_get. destruct (in_range fd) eqn:Er; [|by intros [= <- <-]]. simpl. mrun.
  destruct (get_fd p fd s) as [[f s2]| |] eqn:E; try done. apply slot_at in E as (-> & i & -> & Hi).
  case_match; intros [= <- <-]; split; try done. intros x Hx. exists i, f. split_and!; try done. eapply slot_range; eauto.
Qed.

(** Whatever [dup_fd] returns, it keeps the invariant. *)
Lemma dup_fd_inv s p fd min n flags r s' :
  fd_inv s -> flags = 0 \/ flags = FDF_CLOSE_ON_EXEC ->
  dup_fd p fd (Z.of_nat min) (Z.of_nat n) flags s = Ok (r, s') -> fd_inv s'.
Proof.
  intros Hinv Hfl Hrun. pose proof Hrun as Hrun'. rw /dup_fd in Hrun. mrun_in Hrun.
  destruct (filp_get p fd s) as [[o s1]| |] eqn:Eg; try done.
  destruct (filp_get_cases s p fd o s1 Hinv Eg) as (-> & Hx).
  destruct o as [x|]; [|by injection Hrun as <- <-].
  destruct (Hx x eq_refl) as (i & f & -> & Hi & Hf & Hfx).
  destruct (fd_alloc p (Z.of_nat min) (Z.of_nat n) s) as [[o s2]| |] eqn:Ea; try done.
  apply fd_alloc_loop_cases in Ea. destruct o as [j|]; [|by injection Hrun as <- <-; subst].
  destruct Ea as (j' & -> & Hlow & Hlt). pose proof (proj1 Hlow).
  destruct (dup_fd_run procs filps procs_nodup s p i f x min j' n flags) as (s3 & Hr & Hi2 & _); try done; [lia|].
  rw Hr in Hrun'. by injection Hrun' as <- <-.
Qed.

Lemma do_close_inv s p fd r s' : fd_inv s -> do_close p fd s = Ok (r, s') -> fd_inv s'.
Proof.
  intros Hinv Hrun. destruct (in_range fd) eqn:Er; [|rw /do_close Er in Hrun; by injection Hrun as <- <-].
  apply in_range_inv in Er as (i & -> & Hi).
  destruct (table s p !! i) as [f|] eqn:Hf.
  - pose proof (do_close_run procs filps procs_nodup s p i f Hinv Hi Hf) as Hr. destruct (fd_filp f).
    + destruct Hr as (s1 & Hr & Hinv1 & _). rw Hr in Hrun. by injection Hrun as <- <-.
    + rw Hr in Hrun. by injection Hrun as <- <-.
  - rw /do_close /filp_get in_range_nat //= in Hrun. mrun_in Hrun.
    rw /get_fd Nat2Z.id Hf in Hrun. by destruct (_ <? _) in Hrun.
Qed.

Lemma set_flags_inv s p i f n :
  fd_inv s -> table s p !! i = Some f ->
  (n = Z.lor (fd_flags f) FDF_CLOSE_ON_EXEC /\ VALID f = true) \/ n = Z.land (fd_flags f) (Z.lnot FDF_CLOSE_ON_EXEC) ->
  fd_inv (put_fd p i (f <| fd_flags := n |>) s).
Proof.
  intros Hinv Hf Hn. eapply inv_same; eauto. destruct (di_slot _ _ _ Hinv _ _ _ Hf) as (Hb & Ha & Hv).
  rw /slot_ok /VALID /= in Ha Hv Hn |- *. apply flags_small in Hb.
  destruct Hn as [[-> Hval]| ->]; destruct_or! Hb; rw Hb in Ha Hv |- *; rw -Hv; done.
Qed.

(** *** Exit *)
Lemma fini_fproc_run s p :
  fd_inv s -> table s p <> [] ->
  exists s', fini_fproc p s = Ok (RVal 0, s') /\ fd_inv s' /\ table s' p = [] /\ (forall q, q <> p -> table s' q = table s q).
Proof.
  intros Hinv Hne. destruct (di_len _ _ _ Hinv p) as [|Hlen]; [done|].
  enough (wp (fini_fproc p) (fun r s' => r = RVal 0 /\ fd_inv s' /\ table s' p = [] /\ forall q, q <> p -> table s' q = table s q) s)
    as (r & s' & Hr & -> & ?)%wp_ok by eauto.
  rw /fini_fproc. apply wp_bind.
  apply (wp_slots (fun k s' => fd_inv s' /\ done_upto cleared k (table s p) (table s' p) /\ forall q, q <> p -> table s' q = table s q)).
  - split_and!; [done|apply done_upto_0|done].
  - intros k s1 Hk (Hi1 & Hd & Hq). eapply wp_mono; [apply (close_slot procs filps procs_nodup s1 p k (table s p)); try done; apply (di_slot _ _ _ Hinv)|].
    intros [] s2 (Hi2 & Hd2 & Hq2). split_and!; try done. intros q Hqp. by rw Hq2 // Hq.
  - intros s1 (Hi1 & Hd & Hq). rw -Hlen in Hd. apply done_upto_end in Hd. apply wp_bind, wp_modify, wp_ret.
    assert (forall q, q <> p -> p <> q) as Hsym by congruence.
    split_and!; [done| |by reads|by intros; reads; auto].
    apply (inv_retable procs filps procs_nodup s1 _ p); try done.
    + apply (di_procs _ _ _ Hinv p Hne).
    + intros i f. rw Hd list_lookup_fmap. intros (g & Hg & ->)%fmap_Some. pose proof (di_slot _ _ _ Hinv _ _ _ Hg) as Hok.
      rw /cleared. destruct (VALID g) eqn:Ev; [done|]. pose proof (valid_filp g Hok) as Hv.
      destruct (fd_filp g); [|done]. rw (proj2 Hv) // in Ev.
    + left. by reads.
    + intros q Hqp. by reads.
Qed.

(** *** Exec *)
Definition execed f : FileDesc :=
  if has (fd_flags f) FDF_CLOSE_ON_EXEC then
    if VALID f then mkFileDesc 0 None else f <| fd_flags ::= fun n => Z.land n (Z.lnot FDF_CLOSE_ON_EXEC) |>
  else f.

Lemma exec_slot s p k t :
  fd_inv s -> length t = FILEDESC_MAX -> (forall i f, t !! i = Some f -> slot_ok f) -> (k < FILEDESC_MAX)%nat ->
  done_upto execed k t (table s p) ->
  wp (exec_fd p k) (fun _ s' => fd_inv s' /\ done_upto execed (S k) t (table s' p) /\
    forall q, q <> p -> table s' q = table s q) s.
Proof.
  intros Hinv Ht Hok Hk Hd. destruct (lookup_lt_is_Some_2 t k) as [f Hf]; [lia|].
  pose proof (proj2 Hd k f Hf) as Hs. rw decide_False in Hs; [lia|].
  rw /exec_fd. apply wp_bind. eapply wp_Ok; [apply get_fd_run; exact Hs|].
  destruct (has (fd_flags f) FDF_CLOSE_ON_EXEC) eqn:Ec; last first.
  { apply wp_ret. split_and!; [done| |done]. eapply done_upto_skip; [done|exact Hf|]. by rw /execed Ec. }
  set g := f <| fd_flags ::= fun n => Z.land n (Z.lnot FDF_CLOSE_ON_EXEC) |>.
  apply wp_bind. eapply wp_Ok; [eapply set_fd_run; exact Hs|].
  assert (fd_inv (put_fd p k g s)) as Hinv1 by (apply set_flags_inv; auto).
  pose proof (put_fd_lookup s p k f g Hs) as Hs1.
  pose proof (do_close_run procs filps procs_nodup _ p k g Hinv1 Hk Hs1) as Hr.
  pose proof (valid_filp f (Hok k f Hf)) as Hv.
  change (fd_filp g) with (fd_filp f) in Hr. destruct (fd_filp f) as [x|].
  - destruct Hr as (s' & Hr & Hi & Htb & Hq & _). apply wp_bind. eapply wp_Ok; [exact Hr|]. apply wp_ret.
    split_and!; [done| |].
    + rw Htb table_put decide_True // list_insert_insert_eq. eapply done_upto_step; [done|exact Hf|].
      rw /execed Ec. by rw (proj2 Hv).
    + intros q Hqp. rw Hq // table_put decide_False //.
  - apply wp_bind. eapply wp_Ok; [exact Hr|]. apply wp_ret. split_and!; [done| |].
    + rw table_put decide_True //. eapply done_upto_step; [done|exact Hf|].
      rw /execed Ec. destruct (VALID f); [|done]. by destruct (proj1 Hv eq_refl).
    + intros q Hqp. rw table_put decide_False //.
Qed.

Lemma exec_fds_run s p :
  fd_inv s -> table s p <> [] ->
  exists s', exec_fds p s = Ok (RVal 0, s') /\ fd_inv s' /\ table s' p = map execed (table s p) /\
    (forall q, q <> p -> table s' q = table s q).
Proof.
  intros Hinv Hne. destruct (di_len _ _ _ Hinv p) as [|Hlen]; [done|].
  enough (wp (exec_fds p) (fun r s' => r = RVal 0 /\ fd_inv s' /\ table s' p = map execed (table s p) /\
    forall q, q <> p -> table s' q = table s q) s) as (r & s' & Hr & -> & ?)%wp_ok by eauto.
  rw /exec_fds. apply wp_bind.
  apply (wp_slots (fun k s' => fd_inv s' /\ done_upto execed k (table s p) (table s' p) /\ forall q, q <> p -> table s' q = table s q)).
  - split_and!; [done|apply done_upto_0|done].
  - intros k s1 Hk (Hi1 & Hd & Hq). eapply wp_mono; [apply (exec_slot s1 p k (table s p)); try done; apply (di_slot _ _ _ Hinv)|].
    intros [] s2 (Hi2 & Hd2 & Hq2). split_and!; try done. intros q Hqp. by rw Hq2 // Hq.
  - intros s1 (Hi1 & Hd & Hq). rw -Hlen in Hd. apply done_upto_end in Hd. by apply wp_ret.
Qed.

(** *** Fork *)
Definition forked f : FileDesc := if VALID f then f else mkFileDesc 0 None.

(** The child's table after [k] turns of the copy loop. *)
Definition copied_upto (k : nat) (t t' : list FileDesc) : Prop :=
  length t' = length t /\
  forall j f, t !! j = Some f -> t' !! j = Some (if decide (j < k)%nat then forked f else mkFileDesc 0 None).

Lemma copied_upto_step k t t' g :
  copied_upto k t t' -> t !! k = Some g -> copied_upto (S k) t (<[k := forked g]> t').
Proof.
  intros [Hl Ht] Hk. split; [by rw length_insert|]. intros j f Hj. destruct (decide (j = k)) as [->|Hne].
  - rw list_lookup_insert_eq; [rw Hl; by apply lookup_lt_Some in Hk|]. rw decide_True; [lia|congruence].
  - rw list_lookup_insert_ne; [lia|]. rw (Ht j f Hj). f_equal. repeat case_decide; try done; lia.
Qed.

Lemma fork_slot s new old k :
  fd_inv s -> new <> old -> copied_upto k (table s old) (table s new) -> (k < length (table s old))%nat ->
  wp (fork_fd new old k) (fun _ s' => fd_inv s' /\ copied_upto (S k) (table s old) (table s' new) /\
    (forall q, q <> new -> table s' q = table s q) /\ closes s' = closes s) s.
Proof.
  intros Hinv Hne Hd Hk. destruct (lookup_lt_is_Some_2 _ _ Hk) as [f Hf].
  pose proof (proj2 Hd k f Hf) as Hn. rw decide_False in Hn; [lia|].
  rw /fork_fd. apply wp_bind. eapply wp_Ok; [apply get_fd_run; exact Hf|].
  pose proof (di_slot _ _ _ Hinv _ _ _ Hf) as Hok. pose proof (valid_filp f Hok) as Hv.
  pose proof (copied_upto_step k _ _ f Hd Hf) as Hstep. rw /forked in Hstep.
  change (has (fd_flags f) FDF_VALID) with (VALID f). destruct (VALID f) eqn:Ev.
  - destruct (proj1 Hv eq_refl) as [x Hx]. rw Hx. apply wp_bind. eapply wp_Ok; [eapply set_fd_run; exact Hn|].
    apply wp_bind, wp_kassert; [by apply slot_ok_known|]. apply wp_modify. split_and!; [| | |done].
    + eapply inv_install; [done|done|exact Hn|done|done|done|].
      eapply refs_pos; [done|eapply alive; [exact Hinv|exact Hf]|exact Hf|done].
    + simpl. by reads.
    + intros q Hq. simpl. by reads.
  - eapply wp_Ok; [eapply set_fd_run; exact Hn|]. split_and!; [| | |done].
    + eapply inv_same; [done|done|exact Hn|done|apply slot_ok_None].
    + simpl. by reads.
    + intros q Hq. simpl. by reads.
Qed.

Lemma wp_vnode_ref o (Q : unit -> fs -> Prop) s :
  (forall r, Q tt (s <| v_reference_cnt := r |>)) -> wp (vnode_ref o) Q s.
Proof.
  intros HQ. rw /vnode_ref. destruct o; [apply wp_modify, HQ|]. apply wp_ret.
  specialize (HQ (v_reference_cnt s)). by destruct s.
Qed.

Lemma fork_fds_run s new old :
  fd_inv s -> new <> old -> new ∈ procs -> table s new = [] -> table s old <> [] ->
  exists s', fork_fds true new old s = Ok (RVal 0, s') /\ fd_inv s' /\ table s' new = map forked (table s old) /\
    (forall q, q <> new -> table s' q = table s q) /\ closes s' = closes s.
Proof.
  intros Hinv Hne Hp He Hold. destruct (di_len _ _ _ Hinv old) as [|Hlen]; [done|].
  enough (wp (fork_fds true new old) (fun r s' => r = RVal 0 /\ fd_inv s' /\ table s' new = map forked (table s old) /\
    (forall q, q <> new -> table s' q = table s q) /\ closes s' = closes s) s) as (r & s' & Hr & -> & ?)%wp_ok by eauto.
  rw /fork_fds /init_fproc. do 2 apply wp_bind. apply wp_modify, wp_ret. rw bool_decide_true //. cbn [negb].
  apply wp_bind, wp_gets, wp_bind, wp_modify. apply wp_bind, wp_vnode_ref. intros r1.
  apply wp_bind, wp_vnode_ref. intros r2. set s0 := setf _ (setf _ _).
  assert (forall q, q <> new -> table s0 q = table s q) as Hq0. { intros q Hq. rw /s0. by reads. }
  assert (table s0 new = replicate FILEDESC_MAX (mkFileDesc 0 None)) as Hn0. { rw /s0. by reads. }
  assert (fd_inv s0) as Hinv0.
  { eapply (inv_retable procs filps procs_nodup s _ new); try done; [intros i f; by rw He|by right]. }
  assert (table s0 old = table s old) as Ho0 by auto.
  apply wp_bind. apply (wp_slots (fun k s' => fd_inv s' /\ copied_upto k (table s old) (table s' new) /\
    (forall q, q <> new -> table s' q = table s q) /\ closes s' = closes s)).
  - split_and!; try done. split; [by rw Hn0 length_replicate|]. intros j f Hj. destruct (decide (j < 0)%nat); [lia|].
    rw Hn0. apply lookup_replicate_2. rw -Hlen. by apply lookup_lt_Some in Hj.
  - intros k s1 Hk (Hi1 & Hd & Hq & Hcl). assert (table s1 old = table s old) as Ho by auto.
    eapply wp_mono; [apply (fork_slot s1 new old k); rw ?Ho //; lia|]. rw Ho.
    intros [] s2 (Hi2 & Hd2 & Hq2 & Hc2). split_and!; try done; [|congruence]. intros q Hqp. by rw Hq2 // Hq.
  - intros s1 (Hi1 & [Hl Hd] & Hq & Hcl). apply wp_ret. split_and!; try done. apply list_eq. intros j.
    rw list_lookup_fmap. destruct (table s old !! j) as [f|] eqn:Hj; simpl.
    + rw (Hd j f Hj) decide_True // -Hlen. by apply lookup_lt_Some in Hj.
    + apply lookup_ge_None_2. rw Hl. by apply lookup_ge_None_1.
Qed.

(** *** The system calls of live processes *)
Inductive fd_step : fs -> fs -> Prop :=
| step_close s p fd r s' : sys_close p fd s = Ok (r, s') -> fd_step s s'
| step_dup s p fd r s' : sys_dup p fd s = Ok (r, s') -> fd_step s s'
| step_dup2 s p fd new_fd r s' : sys_dup2 p fd new_fd s = Ok (r, s') -> fd_step s s'
| step_fcntl s p fd cmd arg r s' : sys_fcntl p fd cmd arg s = Ok (r, s') -> fd_step s s'
| step_fork s page new old r s' :
    new <> old -> new ∈ procs -> table s new = [] -> table s old <> [] ->
    fork_fds page new old s = Ok (r, s') -> fd_step s s'
| step_exec s p r s' : table s p <> [] -> exec_fds p s = Ok (r, s') -> fd_step s s'
| step_exit s p r s' : table s p <> [] -> fini_fproc p s = Ok (r, s') -> fd_step s s'.

Lemma sys_dup2_inv s p fd new_fd r s' : fd_inv s -> sys_dup2 p fd new_fd s = Ok (r, s') -> fd_inv s'.
Proof.
  intros Hinv Hrun. rw /sys_dup2 in Hrun.
  destruct (in_range fd) eqn:E1; simpl in Hrun; [|by injection Hrun as <- <-].
  destruct (in_range new_fd) eqn:E2; simpl in Hrun; [|by injection Hrun as <- <-].
  apply in_range_inv in E2 as (j & -> & Hj). mrun_in Hrun.
  destruct (get_fd p (Z.of_nat j) s) as [[f s1]| |] eqn:Eg; try done. apply slot_at in Eg as (-> & _).
  destruct (has (fd_flags f) FDF_VALID).
  - case_bool_decide; [|done]. destruct (do_close p (Z.of_nat j) s) as [[r1 s2]| |] eqn:Ec; try done.
    apply do_close_inv in Ec; [|done]. eapply dup_fd_inv; [exact Ec|by left|exact Hrun].
  - eapply dup_fd_inv; [exact Hinv|by left|exact Hrun].
Qed.

Lemma sys_fcntl_inv s p fd cmd arg r s' : fd_inv s -> sys_fcntl p fd cmd arg s = Ok (r, s') -> fd_inv s'.
Proof.
  intros Hinv Hrun. rw /sys_fcntl in Hrun.
  destruct (in_range fd) eqn:E1; simpl in Hrun; [|by injection Hrun as <- <-]. mrun_in Hrun.
  destruct (get_fd p fd s) as [[f s1]| |] eqn:Eg; try done. pose proof Eg as (-> & i & -> & Hi)%slot_at.
  destruct (has (fd_flags f) FDF_VALID) eqn:Ev; simpl in Hrun; [|by injection Hrun as <- <-].
  destruct (filp_get p (Z.of_nat i) s) as [[o s1]| |] eqn:Ef; try done.
  apply filp_get_cases in Ef as (-> & _); [|done]. destruct o; [|by injection Hrun as <- <-].
  destruct (in_range arg) eqn:Ea; simpl in Hrun.
  - apply in_range_inv in Ea as (m & -> & Hm).
    repeat (case_match; simplify_eq/=; try done); try (eapply dup_fd_inv; [exact Hinv| |eassumption]; by auto).
    all: match goal with E : set_fd _ _ _ _ = _ |- _ => rw (set_fd_run _ _ _ _ _ Hi) in E; injection E as E end; subst s'.
    all: first [refine (set_flags_inv s p i f (Z.lor _ _) Hinv Hi _)|refine (set_flags_inv s p i f (Z.land _ _) Hinv Hi _)]; auto.
  - repeat (case_match; simplify_eq/=; try done).
    all: match goal with E : set_fd _ _ _ _ = _ |- _ => rw (set_fd_run _ _ _ _ _ Hi) in E; injection E as E end; subst s'.
    all: first [refine (set_flags_inv s p i f (Z.lor _ _) Hinv Hi _)|refine (set_flags_inv s p i f (Z.land _ _) Hinv Hi _)]; auto.
Qed.

Lemma fd_step_inv s s' : fd_inv s -> fd_step s s' -> fd_inv s'.
Proof.
  intros Hinv Hst. destruct Hst as [s1 p fd r s2 Hr|s1 p fd r s2 Hr|s1 p fd n r s2 Hr|s1 p fd c a r s2 Hr|s1 page new old r s2 Hne Hp He Ho Hr
    |s1 p r s2 Hl Hr|s1 p r s2 Hl Hr].
  - eapply do_close_inv; [exact Hinv|exact Hr].
  - eapply (dup_fd_inv s1 p fd 0 FILEDESC_MAX 0); [exact Hinv|by left|exact Hr].
  - eapply sys_dup2_inv; [exact Hinv|exact Hr].
  - eapply sys_fcntl_inv; [exact Hinv|exact Hr].
  - destruct page.
    + destruct (fork_fds_run s1 new old) as (s3 & Hr3 & Hi & _); try done. rw Hr3 in Hr. by injection Hr as <- <-.
    + rw /fork_fds /init_fproc in Hr. mrun_in Hr. simpl in Hr. by injection Hr as <- <-.
  - destruct (exec_fds_run s1 p) as (s3 & Hr3 & Hi & _); try done. rw Hr3 in Hr. by injection Hr as <- <-.
  - destruct (fini_fproc_run s1 p) as (s3 & Hr3 & Hi & _); try done. rw Hr3 in Hr. by injection Hr as <- <-.
Qed.

(** C9: Reference counts are exact under any sequence of close, dup, dup2,
    fcntl, fork, exec and exit by live processes: every filp that descriptors
    refer to counts them exactly and is usable, a filp on the free list has
    none, and no filp is lost. *)
Theorem fd_refcounts_exact s s' : fd_inv s -> rtc fd_step s s' ->
  (forall x, (0 < refs s' x)%nat -> f_reference_cnt (filp s' x) = Z.of_nat (refs s' x) /\ x ∉ filp_free_list s') /\
  (forall x, x ∈ filp_free_list s' -> f_type (filp s' x) = FILP_TYPE_FREE /\ refs s' x = 0%nat) /\
  (forall x, x ∈ filps -> x ∈ filp_free_list s' \/ (0 < refs s' x)%nat).
Proof.
  intros Hinv Hst. assert (fd_inv s') as Hinv'.
  { induction Hst as [s|s s1 s' Hs Hst IH]; [done|]. eauto using fd_step_inv. }
  split_and!; [|apply Hinv'|apply Hinv']. intros x Hx. split; [by apply (di_ref _ _ _ Hinv')|].
  intros Hi. apply (di_free _ _ _ Hinv') in Hi. lia.
Qed.

(** C21: [do_close] of a valid descriptor returns 0, clears that descriptor and
    no other, and closes the object behind the filp exactly when the
    descriptor was the last one, of all processes, that referred to it. *)
Theorem do_close_correct s p i f x :
  fd_inv s -> table s p !! i = Some f -> fd_filp f = Some x ->
  exists s', do_close p (Z.of_nat i) s = Ok (RVal 0, s') /\
    table s' p = <[i := mkFileDesc 0 None]> (table s p) /\ (forall q, q <> p -> table s' q = table s q) /\
    S (refs s' x) = refs s x /\ (forall y, y <> x -> refs s' y = refs s y) /\
    closes s' = (if decide (refs s x = 1%nat) then [last_close_of s x] else []) ++ closes s.
Proof.
  intros Hinv Hi Hx. pose proof (slot_range _ _ _ _ Hinv Hi) as Hr.
  pose proof (do_close_run procs filps procs_nodup s p i f Hinv Hr Hi) as Hrun. rw Hx in Hrun.
  destruct Hrun as (s' & Hrun & Hinv' & Ht & Hq & _ & _ & _ & Hc).
  assert (forall y, refs s' y + slot_ref y f = refs s y)%nat as Href.
  { intros y. pose proof (refs_put procs procs_nodup s p i f (mkFileDesc 0 None) y (alive _ _ _ _ _ _ Hinv Hi) Hi) as Hp.
    rw (slot_ref_None y (mkFileDesc 0 None)) // in Hp. rw (refs_tables procs (put_fd p i (mkFileDesc 0 None) s) s' y); [|lia].
    intros q. rw table_put. destruct (decide (q = p)) as [->|]; [exact Ht|by apply Hq]. }
  exists s'. split_and!; try done.
  - specialize (Href x). rw (slot_ref_Some x x f Hx) decide_True // in Href. lia.
  - intros y Hy. specialize (Href y). rw (slot_ref_Some x y f Hx) in Href. destruct (decide (x = y)); [congruence|lia].
Qed.

(** C22: [sys_dup] gives the lowest descriptor not in use, referring to the same
    filp, valid and not close-on-exec, and changes no other descriptor. *)
Theorem sys_dup_correct s p i f x j :
  fd_inv s -> table s p !! i = Some f -> fd_filp f = Some x -> lowest_free (table s p) 0 j ->
  exists s', sys_dup p (Z.of_nat i) s = Ok (RVal (Z.of_nat j), s') /\ fd_inv s' /\
    table s' p = <[j := mkFileDesc (Z.lor FDF_ALLOCED FDF_VALID) (Some x)]> (table s p) /\
    (forall q, q <> p -> table s' q = table s q) /\ refs s' x = S (refs s x) /\ closes s' = closes s.
Proof.
  intros Hinv Hi Hx Hlow. pose proof (slot_range _ _ _ _ Hinv Hi) as Hr.
  assert (j < FILEDESC_MAX)%nat. { destruct Hlow as (_ & (g & Hg & _) & _). eapply slot_range; eauto. }
  destruct (dup_fd_run procs filps procs_nodup s p i f x 0 j FILEDESC_MAX 0) as (s' & Hrun & Hi' & Ht & Hq & Hrf & Hc & _);
    try done; [lia|by left|]. exists s'. split_and!; try done.
Qed.

(** With every descriptor in use, [sys_dup] reads past the table: the bound
    [fd_alloc] is given, FILEDESC_MAX, is inclusive. *)
Theorem sys_dup_full_overruns s p i f x :
  fd_inv s -> table s p !! i = Some f -> fd_filp f = Some x ->
  (forall k g, table s p !! k = Some g -> allocated g = true) -> sys_dup p (Z.of_nat i) s = Fault.
Proof.
  intros Hinv Hi Hx Hall. pose proof (slot_range _ _ _ _ Hinv Hi) as Hr.
  rw /sys_dup /dup_fd /mbind /M_bind (filp_get_run procs filps s p i f) // Hx /fd_alloc.
  rw (fd_alloc_loop_overrun s p _ 0) //; [eauto| |lia].
  destruct (di_len _ _ _ Hinv p) as [E| ->]; [by rw E in Hi|lia].
Qed.

(** [sys_dup2] of a valid descriptor onto another one returns the new
    descriptor, which afterwards refers to the filp of the old one; if it was
    open before, it was closed first. *)
Theorem sys_dup2_correct s p i j f x g :
  fd_inv s -> i <> j -> table s p !! i = Some f -> fd_filp f = Some x ->
  table s p !! j = Some g -> (VALID g = true \/ allocated g = false) ->
  exists s', sys_dup2 p (Z.of_nat i) (Z.of_nat j) s = Ok (RVal (Z.of_nat j), s') /\ fd_inv s' /\
    table s' p = <[j := mkFileDesc (Z.lor FDF_ALLOCED FDF_VALID) (Some x)]> (table s p) /\
    (forall q, q <> p -> table s' q = table s q).
Proof.
  intros Hinv Hij Hi Hx Hj Hg. pose proof (slot_range _ _ _ _ Hinv Hi) as Hir. pose proof (slot_range _ _ _ _ Hinv Hj) as Hjr.
  rw /sys_dup2 !in_range_nat //=. rw {1}/mbind {1}/M_bind (get_fd_run _ _ _ _ Hj).
  pose proof (valid_filp g (di_slot _ _ _ Hinv _ _ _ Hj)) as Hv.
  change (has (fd_flags g) FDF_VALID) with (VALID g).
  assert (exists s1, (if VALID g then _ ← kassert (bool_decide (is_Some (fd_filp g))); _ ← do_close p (Z.of_nat j); mret tt
      else mret tt) s = Ok (tt, s1) /\ fd_inv s1 /\ (exists h, table s1 p = <[j := h]> (table s p) /\ allocated h = false) /\
      (forall q, q <> p -> table s1 q = table s q)) as (s1 & Hs1 & Hinv1 & (h & Ht1 & Hh) & Hq1).
  { destruct (VALID g) eqn:Ev.
    - destruct (proj1 Hv eq_refl) as [y Hy]. pose proof (do_close_run procs filps procs_nodup s p j g Hinv Hjr Hj) as Hr.
      rw Hy in Hr. destruct Hr as (s1 & Hr & Hi1 & Ht & Hq & _). exists s1. rw Hy bool_decide_true //. mrun. rw Hr.
      split_and!; try done. exists (mkFileDesc 0 None). by split.
    - destruct Hg as [|Hg]; [done|]. exists s. split_and!; try done. exists g. by rw list_insert_id. }
  rw {1}/mbind {1}/M_bind Hs1.
  assert (lowest_free (table s1 p) j j) as Hlow.
  { split_and!; [lia| |lia]. exists h. split; [|done]. rw Ht1. apply list_lookup_insert_eq. by apply lookup_lt_Some in Hj. }
  destruct (dup_fd_run procs filps procs_nodup s1 p i f x j j j 0) as (s' & Hrun & Hi' & Ht & Hq & _); try done.
  { rw Ht1 list_lookup_insert_ne; [congruence|done]. } { by left. }
  exists s'. split_and!; try done.
  - rw Ht Ht1 list_insert_insert_eq //.
  - intros q Hqp. by rw Hq // Hq1.
Qed.

(** [sys_dup2] of a descriptor onto itself closes it and fails: the target
    is closed before the source is looked at. *)
Theorem sys_dup2_self_closes s p i f x :
  fd_inv s -> table s p !! i = Some f -> fd_filp f = Some x ->
  exists s', sys_dup2 p (Z.of_nat i) (Z.of_nat i) s = Ok (RErr EINVAL, s') /\
    table s' p = <[i := mkFileDesc 0 None]> (table s p).
Proof.
  intros Hinv Hi Hx. pose proof (slot_range _ _ _ _ Hinv Hi) as Hr.
  rw /sys_dup2 !in_range_nat //=. rw {1}/mbind {1}/M_bind (get_fd_run _ _ _ _ Hi).
  pose proof (valid_filp f (di_slot _ _ _ Hinv _ _ _ Hi)) as Hv. rw Hx in Hv.
  change (has (fd_flags f) FDF_VALID) with (VALID f). rw (proj2 Hv) //.
  pose proof (do_close_run procs filps procs_nodup s p i f Hinv Hr Hi) as Hrun. rw Hx in Hrun.
  destruct Hrun as (s1 & Hrun & Hinv1 & Ht & _). exists s1. rw Hx bool_decide_true //. mrun. rw Hrun. split; [|done].
  rw /dup_fd. mrun. rw (filp_get_run procs filps s1 p i (mkFileDesc 0 None)) //.
  rw Ht. apply list_lookup_insert_eq. by apply lookup_lt_Some in Hi.
Qed.

(** C23: [fork_fds] gives the child the parent's valid descriptors, flags
    included, and every filp one more reference per descriptor copied; when no
    page is left for the table it returns -ENOMEM and changes nothing. *)
Theorem fork_fds_correct s new old :
  fd_inv s -> new <> old -> new ∈ procs -> table s new = [] -> table s old <> [] ->
  fork_fds false new old s = Ok (RErr ENOMEM, s) /\
  exists s', fork_fds true new old s = Ok (RVal 0, s') /\ fd_inv s' /\
    (forall i f, table s old !! i = Some f ->
       table s' new !! i = Some (if VALID f then f else mkFileDesc 0 None)) /\
    (forall q, q <> new -> table s' q = table s q) /\ closes s' = closes s.
Proof.
  intros Hinv Hne Hp He Ho. split; [done|].
  destruct (fork_fds_run s new old Hinv Hne Hp He Ho) as (s' & Hr & Hi & Ht & Hq & Hc). exists s'. split_and!; try done.
  intros i f Hf. by rw Ht list_lookup_fmap Hf.
Qed.

(** [exec_fds] closes exactly the valid descriptors marked close-on-exec
    and leaves the others as they are; [fini_fproc] closes them all and gives
    the table up. Both keep the reference counts exact. *)
Theorem exec_exit_fds_correct s p :
  fd_inv s -> table s p <> [] ->
  (exists s', exec_fds p s = Ok (RVal 0, s') /\ fd_inv s' /\
     (forall i f, table s p !! i = Some f -> VALID f = true ->
        table s' p !! i = Some (if has (fd_flags f) FDF_CLOSE_ON_EXEC then mkFileDesc 0 None else f)) /\
     (forall q, q <> p -> table s' q = table s q)) /\
  (exists s', fini_fproc p s = Ok (RVal 0, s') /\ fd_inv s' /\ table s' p = [] /\
     (forall q, q <> p -> table s' q = table s q)).
Proof.
  intros Hinv Hne. split; [|by apply fini_fproc_run].
  destruct (exec_fds_run s p Hinv Hne) as (s' & Hr & Hi & Ht & Hq). exists s'. split_and!; try done.
  intros i f Hf Hv. rw Ht list_lookup_fmap Hf /= /execed Hv. done.
Qed.
End thms.

(** ** Witnesses: a table of four descriptors *)
Definition small_consts : FsConsts.
Proof.
  refine {| FILEDESC_MAX := 4; O_WRONLY := 1; FD_CLOEXEC := 1; F_DUPFD := 0; F_GETFD := 1; F_SETFD := 2;
            F_GETFL := 3; F_SETFL := 4; F_DUPFD_CLOEXEC := 14;
            S_ISFIFO := fun m => Z.land m 0xF000 =? 0x1000 |}. lia.
Defined.
#[local] Instance consts_example : FsConsts := small_consts.

Definition fd0 : FileDesc := mkFileDesc 6 (Some 0%nat).
Definition nofd : FileDesc := mkFileDesc 0 None.
(** Process 0 has descriptor 0 open on vnode 7; process 1 has no table. *)
Definition fs0 (t : list FileDesc) (n : Z) : fs :=
  mkFs (fun x => if decide (x = 0)%nat then mkFilp 0 0 n FILP_TYPE_VNODE (Some 7%nat) else mkFilp 0 0 0 FILP_TYPE_FREE None)
       [1; 2]%nat (fun p => if decide (p = 0)%nat then mkFProcess 0 None None t else mkFProcess 0 None None [])
       (fun _ => 0x8000) (fun _ => 1) [].

Lemma procs_example : NoDup [0; 1]%nat.
Proof. apply (bool_decide_eq_true (NoDup _)). vm_compute. reflexivity. Qed.

Lemma fs0_inv t n :
  length t = 4%nat -> Forall (fun f => f = fd0 \/ f = nofd) t -> Z.of_nat (count t 0) = n -> 0 < n ->
  fd_inv [0; 1]%nat [0; 1; 2]%nat (fs0 t n).
Proof.
  intros Hl Hf Hn Hpos. assert (forall x, refs [0; 1]%nat (fs0 t n) x = count t x) as Hr.
  { intros x. rw /refs /=. lia. }
  assert (forall x, x <> 0%nat -> count t x = 0%nat) as Hz.
  { intros x Hx. clear -Hf Hx. induction Hf as [|f t Hf Ht IH]; [done|]. rw /count /=. rw /count in IH. rw IH.
    destruct Hf as [->| ->]; [rw (slot_ref_Some 0 x fd0) //|rw (slot_ref_None x nofd) //]. destruct (decide (0 = x)%nat); [congruence|done]. }
  split.
  - intros [|p]; [by right|by left].
  - intros [|p] i f Hi; [|done]. rw Forall_lookup in Hf. destruct (Hf i f Hi) as [->| ->]; by split_and!.
  - intros [|p]; [set_solver|done].
  - apply (bool_decide_eq_true (NoDup _)). vm_compute. reflexivity.
  - intros x Hx. rw Hr. assert (x <> 0%nat) by set_solver. split; [|by apply Hz]. simpl. by rw decide_False.
  - intros x. rw Hr. intros Hx. destruct (decide (x = 0%nat)) as [->|Hne]; [|rw Hz // in Hx; lia].
    split; [done|]. left. split; [done|]. by eexists.
  - intros x Hx. rw Hr. assert (x = 0%nat \/ x ∈ [1; 2]%nat) as [->|] by set_solver; [right; lia|by left].
Qed.

(** Descriptor 0 open; all four descriptors open. *)
Definition fs_one : fs := fs0 [fd0; nofd; nofd; nofd] 1.
Definition fs_full : fs := fs0 [fd0; fd0; fd0; fd0] 4.
Lemma fs_one_inv : fd_inv [0; 1]%nat [0; 1; 2]%nat fs_one.
Proof. apply fs0_inv; [done| |done|done]. rw !Forall_cons. split_and!; auto. Qed.
Lemma fs_full_inv : fd_inv [0; 1]%nat [0; 1; 2]%nat fs_full.
Proof. apply fs0_inv; [done| |done|done]. rw !Forall_cons. split_and!; auto. Qed.

Lemma fd_refcounts_exact_witness :
  exists s', sys_dup 0 0 fs_one = Ok (RVal 1, s') /\ f_reference_cnt (filp s' 0%nat) = Z.of_nat (refs [0; 1]%nat s' 0).
Proof.
  destruct (sys_dup 0 0 fs_one) as [[r s']| |] eqn:E; [|by vm_compute in E..].
  assert (r = RVal 1) as -> by (vm_compute in E; congruence).
  exists s'. split; [done|].
  destruct (fd_refcounts_exact [0; 1]%nat [0; 1; 2]%nat procs_example fs_one s') as (Hr & _).
  - apply fs_one_inv.
  - apply rtc_once. eapply step_dup; exact E.
  - apply Hr. vm_compute in E. injection E as <-. vm_compute. lia.
Defined.

Lemma do_close_correct_witness :
  exists s', do_close 0 (Z.of_nat 0) fs_one = Ok (RVal 0, s') /\ closes s' = [CloseVnode 7%nat].
Proof.
  destruct (do_close_correct [0; 1]%nat [0; 1; 2]%nat procs_example fs_one 0 0 fd0 0) as (s' & Hr & _ & _ & _ & _ & Hc);
    [apply fs_one_inv|done|done|]. exists s'. split; [done|]. by rw Hc.
Defined.

Lemma sys_dup_correct_witness :
  exists s', sys_dup 0 (Z.of_nat 0) fs_one = Ok (RVal (Z.of_nat 1), s') /\ fd_inv [0; 1]%nat [0; 1; 2]%nat s'.
Proof.
  destruct (sys_dup_correct [0; 1]%nat [0; 1; 2]%nat procs_example fs_one 0 0 fd0 0 1) as (s' & Hr & Hi & _);
    [apply fs_one_inv|done|done| |exists s'; by split].
  split_and!; [lia|by exists nofd|]. intros k Hk. exists fd0. by replace k with 0%nat by lia.
Defined.

Lemma sys_dup_full_overruns_witness : sys_dup 0 (Z.of_nat 0) fs_full = Fault.
Proof.
  apply (sys_dup_full_overruns [0; 1]%nat [0; 1; 2]%nat fs_full 0 0 fd0 0); [apply fs_full_inv|done|done|].
  intros k g. simpl. intros Hk. assert (g = fd0) as ->; [|done].
  do 4 (destruct k as [|k]; [by injection Hk|]). done.
Defined.

Lemma sys_dup2_correct_witness :
  exists s', sys_dup2 0 (Z.of_nat 0) (Z.of_nat 2) fs_one = Ok (RVal (Z.of_nat 2), s') /\ fd_inv [0; 1]%nat [0; 1; 2]%nat s'.
Proof.
  destruct (sys_dup2_correct [0; 1]%nat [0; 1; 2]%nat procs_example fs_one 0 0 2 fd0 0 nofd) as (s' & Hr & Hi & _);
    [apply fs_one_inv|done|done|done|done|by right|exists s'; by split].
Defined.

Lemma sys_dup2_self_closes_witness :
  exists s', sys_dup2 0 (Z.of_nat 0) (Z.of_nat 0) fs_one = Ok (RErr EINVAL, s') /\ table s' 0%nat = replicate 4 nofd.
Proof.
  destruct (sys_dup2_self_closes [0; 1]%nat [0; 1; 2]%nat procs_example fs_one 0 0 fd0 0) as (s' & Hr & Ht);
    [apply fs_one_inv|done|done|exists s'; by split].
Defined.

Lemma fork_fds_correct_witness :
  exists s', fork_fds true 1 0 fs_one = Ok (RVal 0, s') /\ table s' 1%nat !! 0%nat = Some fd0.
Proof.
  destruct (fork_fds_correct [0; 1]%nat [0; 1; 2]%nat procs_example fs_one 1 0) as (_ & s' & Hr & _ & Ht & _);
    [apply fs_one_inv|done|set_solver|done|done|]. exists s'. split; [done|]. by rw (Ht 0%nat fd0).
Defined.

Lemma exec_exit_fds_correct_witness :
  exists s', fini_fproc 0 fs_one = Ok (RVal 0, s') /\ table s' 0%nat = [].
Proof.
  destruct (exec_exit_fds_correct [0; 1]%nat [0; 1; 2]%nat procs_example fs_one 0) as (_ & s' & Hr & _ & Ht & _);
    [apply fs_one_inv|done|]. exists s'. by split.
Defined.
