(* ===== verification/Access.v ===== *)
(** * Access: permission checks and open (fs/access.c, fs/open.c)

    [check_access], the calls that change the mode and the owner of a file,
    and [do_open], over the credentials of [Ids] and the descriptor tables of
    [FileDesc]. *)

From S2P Require Import Prelude Ids FileDesc.
Local Open Scope Z_scope.
Local Open Scope kernel_scope.

(** <unistd.h>, <fcntl.h> and <errno.h> *)
Definition R_OK : Z := 4.
Definition W_OK : Z := 2.
Definition X_OK : Z := 1.
Definition RWX : Z := Z.lor (Z.lor R_OK W_OK) X_OK.
Definition O_RDONLY : Z := 0.
Definition O_ACCMODE : Z := 3.
Definition EPERM_value : Z := 1.
(** include/kernel/filesystem.h *)
Definition SBF_READONLY : Z := bit 1.

(** The attributes of a vnode that permission checks use, its mode apart, and
    the flags of its superblock. *)
Record VNode := mkVNode { vn_uid : Z; vn_gid : Z; vn_sb_flags : Z; vn_size : Z; vn_isreg : bool }.
Definition eta_VNode v := mkVNode (vn_uid v) (vn_gid v) (vn_sb_flags v) (vn_size v) (vn_isreg v).
#[export] Instance set_vn_uid : Setter vn_uid := ltac:(solve_setter eta_VNode).
#[export] Instance set_vn_gid : Setter vn_gid := ltac:(solve_setter eta_VNode).

(** Files, vnodes, and the credentials of the calling process. *)
Record acc := mkAcc { files : fs; vnode : nat -> VNode; caller : Cred }.
Definition eta_acc s := mkAcc (files s) (vnode s) (caller s).
#[export] Instance set_files : Setter files := ltac:(solve_setter eta_acc).
#[export] Instance set_vnode : Setter vnode := ltac:(solve_setter eta_acc).
#[export] Instance set_caller : Setter caller := ltac:(solve_setter eta_acc).

(** *** check_access *)
Fixpoint match_group (l : list Z) (g : Z) : bool :=
  match l with [] => false | x :: l' => if x =? g then true else match_group l' g end.
Definition match_supplementary_group (c : Cred) (g : Z) : bool :=
  match_group (take (Z.to_nat (ngroups c)) (groups c)) g.

Definition perm_bits (mode shift : Z) : Z := Z.land (Z.shiftr mode shift) RWX.

(** [flags] is [filp->flags], or [None] for a NULL filp. *)
Definition filp_denies (wronly : Z) (flags : option Z) (desired : Z) : bool :=
  match flags with
  | None => false
  | Some fl =>
    let access_mode := Z.land fl O_ACCMODE in
    ((access_mode =? O_RDONLY) && has desired W_OK) || ((access_mode =? wronly) && has desired R_OK)
  end.

Definition check_access `{FsConsts} (c : Cred) (v : VNode) (mode : Z) (flags : option Z) (desired : Z) : ret :=
  if euid c =? SUPERUSER then RVal 0
  else
    let desired := Z.land desired RWX in
    if has desired W_OK && has (vn_sb_flags v) SBF_READONLY then RErr EPERM
    else if filp_denies O_WRONLY flags desired then RErr EPERM
    else if (euid c =? vn_uid v) && (Z.land (perm_bits mode 6) desired =? perm_bits mode 6) then RVal 0
    else if (egid c =? vn_gid v) && (Z.land (perm_bits mode 3) desired =? perm_bits mode 3) then RVal 0
    else if match_supplementary_group c (vn_gid v) && (Z.land (perm_bits mode 3) desired =? perm_bits mode 3) then RVal 0
    else if Z.lor (perm_bits mode 0) desired =? perm_bits mode 0 then RVal 0
    else RErr EACCES.

Section access.
Context `{FsConsts}.
(** What these calls use of path lookup (fs/lookup.c) and of the file system
    servers: the vnode or the error a path gives, and the server's answers. *)
Context (lookup : Z -> nat + errno).
Context (vfs_chmod : nat -> Z -> ret) (vfs_chown : nat -> Z -> Z -> ret).

Definition lift {A} (m : M fs A) : M acc A := fun s =>
  match m (files s) with
  | Ok (a, f) => Ok (a, s <| files := f |>)
  | Panic => Panic
  | Fault => Fault
  end.
Definition set_mode (v : nat) (mode : Z) : M acc unit :=
  modify (fun s => s <| files ::= fun f => f <| v_mode ::= fun t => <[v := mode]> t |> |>).
Definition set_owner (v : nat) (u g : Z) : M acc unit :=
  modify (fun s => s <| vnode ::= fun t => <[v := (t v) <| vn_uid := u |> <| vn_gid := g |>]> t |>).

Definition sys_access (path amode : Z) : M acc ret :=
  match lookup path with
  | inr e => mret (RErr e)
  | inl v => s ← gets id; mret (check_access (caller s) (vnode s v) (v_mode (files s) v) None amode)
  end.

Definition sys_umask (p : nat) (mode : Z) : M acc Z :=
  old ← gets (fun s => umask (fproc (files s) p));
  _ ← lift (modify (fun f => f <| fproc ::= fun t => <[p := (t p) <| umask := mode |>]> t |>));
  mret old.

(** [sc = vfs_chmod(...); if (sc == 0) vnode->mode = mode;] *)
Definition do_chmod (v : nat) (mode : Z) : M acc ret :=
  let sc := vfs_chmod v mode in
  _ ← (if bool_decide (sc = RVal 0) then set_mode v mode else mret tt); mret sc.
Definition do_chown (v : nat) (u g : Z) : M acc ret :=
  let sc := vfs_chown v u g in
  _ ← (if bool_decide (sc = RVal 0) then set_owner v u g else mret tt); mret sc.

Definition sys_chmod (path mode : Z) : M acc ret :=
  match lookup path with
  | inr e => mret (RErr e)
  | inl v =>
    s ← gets id;
    if (vn_uid (vnode s v) =? uid (caller s)) || (uid (caller s) =? SUPERUSER) then do_chmod v mode
    else mret (RErr EPERM)
  end.

(** The result of the change is computed and then dropped: [return 0]. *)
Definition sys_chown (path u g : Z) : M acc ret :=
  match lookup path with
  | inr e => mret (RErr e)
  | inl v =>
    s ← gets id;
    _ ← (if (vn_uid (vnode s v) =? euid (caller s)) || (euid (caller s) =? SUPERUSER) then do_chown v u g
         else mret (RErr EPERM));
    mret (RVal 0)
  end.

Definition filp_vnode (p : nat) (fd : Z) : M acc (option (option nat)) :=
  o ← lift (filp_get p fd);
  match o with
  | None => mret None
  | Some x => v ← lift (vnode_get_from_filp x); mret (Some v)
  end.

(** -EPERM is returned without its sign. *)
Definition sys_fchmod (p : nat) (fd mode : Z) : M acc ret :=
  o ← filp_vnode p fd;
  match o with
  | None => mret (RErr EBADF)
  | Some None => mret (RErr EINVAL)
  | Some (Some v) =>
    s ← gets id;
    if (vn_uid (vnode s v) =? euid (caller s)) || (euid (caller s) =? SUPERUSER) then do_chmod v mode
    else mret (RVal EPERM_value)
  end.

Definition sys_fchown (p : nat) (fd u g : Z) : M acc ret :=
  o ← filp_vnode p fd;
  match o with
  | None => mret (RErr EBADF)
  | Some None => mret (RErr EINVAL)
  | Some (Some v) =>
    s ← gets id;
    if (vn_uid (vnode s v) =? euid (caller s)) || (euid (caller s) =? SUPERUSER) then do_chown v u g
    else mret (RErr EPERM)
  end.
End access.

(** ** fs/open.c *)

(** Bits of <fcntl.h>. *)
Class OpenFlags := { O_CREAT : Z; O_TRUNC : Z; O_APPEND : Z; O_CLOEXEC : Z }.

Section open.
Context `{FsConsts, OpenFlags}.
(** The server's answers to creating a file in a directory and to truncating
    one. *)
Context (vfs_create : nat -> Z -> nat + errno) (vfs_truncate : nat -> ret).

(** The second half of [do_open], on an existing vnode [v]. *)
Definition open_vnode (p v : nat) (oflags : Z) : M acc ret :=
  o ← lift (fd_alloc p 0 (Z.of_nat FILEDESC_MAX));
  match o with
  | None => mret (RErr ENOMEM)
  | Some fd =>
    x ← lift filp_get_new;
    match x with
    | None => _ ← lift (fd_free p fd); mret (RErr ENOMEM)
    | Some x =>
      _ ← lift (modify (upd_filp x (fun f => f <| f_type := FILP_TYPE_VNODE |> <| f_u := Some v |> <| f_flags := oflags |>)));
      reg ← gets (fun s => vn_isreg (vnode s v));
      let sc := if has oflags O_TRUNC && reg then vfs_truncate v else RVal 0 in
      if negb (bool_decide (sc = RVal 0)) then
        _ ← lift (fd_free p fd); _ ← lift (filp_release x); mret sc
      else
        size ← gets (fun s => vn_size (vnode s v));
        _ ← lift (modify (upd_filp x (fun f => f <| f_offset := if has oflags O_APPEND then size else 0 |>)));
        f ← lift (get_fd p fd);
        let flags := Z.lor (if has oflags O_CLOEXEC then Z.lor (fd_flags f) FD_CLOEXEC else fd_flags f) FDF_VALID in
        _ ← lift (set_fd p fd (mkFileDesc flags (Some x)));
        _ ← lift (vnode_ref (Some v));
        mret (RVal fd)
    end
  end.

(** [ld_vnode] and [ld_parent] are what the lookup found; [dot] says that the
    last component is "." or "..". *)
Definition do_open (p : nat) (ld_vnode : option nat) (ld_parent : nat) (dot : bool) (oflags mode : Z) : M acc ret :=
  match ld_vnode with
  | Some v => open_vnode p v oflags
  | None =>
    s ← gets id;
    if has oflags O_CREAT &&
       negb (bool_decide (check_access (caller s) (vnode s ld_parent) (v_mode (files s) ld_parent) None W_OK = RVal 0))
    then mret (RErr ENOENT)
    else if dot then mret (RErr ENOMEM)
    else
      match vfs_create ld_parent mode with
      | inr e => mret (RErr e)
      | inl v => open_vnode p v oflags
      end
  end.
End open.

(** ** Properties of the permission check *)
Section access_props.
Context `{FsConsts}.
Implicit Types (c : Cred) (v : VNode).

(** POSIX: one class of permission bits applies, and grants what it contains. *)
Definition posix_bits c v mode : Z :=
  perm_bits mode (if euid c =? vn_uid v then 6
                  else if (egid c =? vn_gid v) || match_supplementary_group c (vn_gid v) then 3 else 0).
Definition posix_grants c v mode desired : Prop :=
  Z.land (Z.land desired RWX) (posix_bits c v mode) = Z.land desired RWX.

Lemma lor_subset p d : Z.lor p d = p <-> Z.land d p = d.
Proof.
  split; intros Hs; rw -{1}Hs; apply Z.bits_inj'; intros n Hn; rw ?Z.lor_spec ?Z.land_spec ?Z.lor_spec ?Z.land_spec;
    by destruct (Z.testbit d n), (Z.testbit p n).
Qed.

(** For a caller that is neither the superuser, nor the owner, nor in the
    file's group, [check_access] grants exactly what POSIX does, on a file
    system and through a file pointer that allow it; and it tells the two
    refusals apart. *)
Theorem check_access_other_correct c v mode flags desired :
  euid c <> SUPERUSER -> euid c <> vn_uid v -> egid c <> vn_gid v ->
  match_supplementary_group c (vn_gid v) = false ->
  (check_access c v mode flags desired = RVal 0 <->
     posix_grants c v mode desired /\
     ~ (has (Z.land desired RWX) W_OK = true /\ has (vn_sb_flags v) SBF_READONLY = true) /\
     filp_denies O_WRONLY flags (Z.land desired RWX) = false) /\
  (check_access c v mode flags desired = RErr EACCES -> ~ posix_grants c v mode desired).
Proof.
  intros Hs Ho Hg Hm. apply Z.eqb_neq in Hs, Ho, Hg.
  rw /check_access /posix_grants /posix_bits Hs Ho Hg Hm /=. set d := Z.land desired RWX.
  destruct (has d W_OK), (has (vn_sb_flags v) SBF_READONLY), (filp_denies O_WRONLY flags d); simpl;
    try (destruct (Z.eqb_spec (Z.lor (perm_bits mode 0) d) (perm_bits mode 0)) as [E|E]; rw lor_subset in E);
    naive_solver.
Qed.

(** Whoever the caller, a grant by [check_access] to anyone but the
    superuser never includes writing to a read-only file system, nor reading
    through a write-only or writing through a read-only file pointer. *)
Theorem check_access_safe c v mode flags desired :
  check_access c v mode flags desired = RVal 0 -> euid c <> SUPERUSER ->
  (has (Z.land desired RWX) W_OK = true -> has (vn_sb_flags v) SBF_READONLY = false) /\
  filp_denies O_WRONLY flags (Z.land desired RWX) = false.
Proof.
  intros Hr Hs. apply Z.eqb_neq in Hs. rw /check_access Hs in Hr.
  destruct (has (Z.land desired RWX) W_OK), (has (vn_sb_flags v) SBF_READONLY),
    (filp_denies O_WRONLY flags (Z.land desired RWX)); done.
Qed.

(** For the owner of a file the test is the wrong way round: it asks that
    the request include all the owner's bits. With no owner bits at all any
    request is granted, and with read and write bits a request to read alone is
    refused unless another class grants it. *)
Theorem check_access_owner_inverted c v mode desired :
  euid c <> SUPERUSER -> euid c = vn_uid v -> has (vn_sb_flags v) SBF_READONLY = false ->
  (perm_bits mode 6 = 0 -> check_access c v mode None desired = RVal 0) /\
  (perm_bits mode 6 = Z.lor R_OK W_OK -> egid c <> vn_gid v -> match_supplementary_group c (vn_gid v) = false ->
   perm_bits mode 0 = 0 -> posix_grants c v mode R_OK /\ check_access c v mode None R_OK = RErr EACCES).
Proof.
  intros Hs Ho Hro. apply Z.eqb_neq in Hs. rw /check_access /posix_grants /posix_bits Hs Ho Z.eqb_refl Hro andb_false_r /=.
  split.
  - by intros ->.
  - intros -> Hg Hm ->. apply Z.eqb_neq in Hg. rw Hg Hm. by split.
Qed.
End access_props.
