(* ===== verification/AccessThms.v ===== *)
(** * AccessThms: ownership changes and opening files

    Who can change the mode and owner of a file, and what [do_open] does to
    the descriptor tables on each of its paths. *)

From S2P Require Import Prelude Ids FileDesc FileDescInv FileDescThms Access.
Local Open Scope Z_scope.
Local Open Scope kernel_scope.

Section chmod.
Context `{FsConsts}.
Context (lookup : Z -> nat + errno).
Context (vfs_chmod : nat -> Z -> ret) (vfs_chown : nat -> Z -> Z -> ret).
Implicit Types (s : acc).

(** [sys_chmod] changes the mode of no file but the one the path names,
    only for its owner or the superuser and only when the server agreed, and
    then to the mode asked for; its result is the server's answer, -EPERM or
    the lookup's error. *)
Theorem sys_chmod_correct s path mode r s' :
  sys_chmod lookup vfs_chmod path mode s = Ok (r, s') ->
  vnode s' = vnode s /\ caller s' = caller s /\
  match lookup path with
  | inr e => r = RErr e /\ s' = s
  | inl v =>
    if (vn_uid (vnode s v) =? uid (caller s)) || (uid (caller s) =? SUPERUSER) then
      r = vfs_chmod v mode /\
      forall w, v_mode (files s') w = if decide (w = v /\ r = RVal 0) then mode else v_mode (files s) w
    else r = RErr EPERM /\ s' = s
  end.
Proof.
  rw /sys_chmod. destruct (lookup path) as [v|e]; [|by intros [= <- <-]]. mrun.
  destruct (_ || _) eqn:E; [|by intros [= <- <-]]. rw /do_chmod. mrun.
  case_bool_decide as Hsc; intros [= <- <-]; split_and!; try done; intros w; simpl.
  - destruct (decide (w = v)) as [->|]; reads; [by rw decide_True|by rw decide_False; [naive_solver|]].
  - rw decide_False //. naive_solver.
Qed.

(** [sys_chown] of a path that resolves always reports success: a caller
    that is neither the owner nor the superuser gets 0 with nothing changed,
    and so does one whose change the server refused. *)
Theorem sys_chown_reports_success s path u g v :
  lookup path = inl v ->
  exists s', sys_chown lookup vfs_chown path u g s = Ok (RVal 0, s') /\
    (vn_uid (vnode s v) <> euid (caller s) -> euid (caller s) <> SUPERUSER -> s' = s) /\
    (vfs_chown v u g <> RVal 0 -> s' = s).
Proof.
  intros Hl. rw /sys_chown Hl. mrun. destruct (_ || _) eqn:E.
  - rw /do_chown. mrun. case_bool_decide; eexists; (split; [done|]); split; try done.
    intros. exfalso. apply orb_true_iff in E. lia.
  - eexists. split; [done|]. by split.
Qed.
End chmod.

Section open_props.
Context `{FsConsts, OpenFlags}.
Context (vfs_create : nat -> Z -> nat + errno) (vfs_truncate : nat -> ret).
Context (procs filps : list nat) (procs_nodup : NoDup procs).
Abbreviation fd_inv := (fd_inv procs filps).
Implicit Types (s : acc) (p v x : nat).

Lemma filp_get_new_run (f : fs) x l :
  fd_inv f -> filp_free_list f = x :: l ->
  filp_get_new f = Ok (Some x, upd_filp x (fun h => h <| f_reference_cnt := 1 |> <| f_type := FILP_TYPE_UNDEF |>
                                       <| f_u := None |> <| f_flags := 0 |>) (f <| filp_free_list := l |>)).
Proof.
  intros Hinv Hl. rw /filp_get_new. mrun. rw Hl. assert (f_type (filp f x) = FILP_TYPE_FREE) as ->.
  { apply (di_free _ _ _ Hinv). rw Hl. set_solver. }
  rw bool_decide_true //. cbn. by rw Hl.
Qed.

Lemma lowest_slot (f : fs) p j :
  fd_inv f -> lowest_free (table f p) 0 j ->
  exists g, table f p !! j = Some g /\ fd_filp g = None /\ (j < FILEDESC_MAX)%nat.
Proof.
  intros Hinv (_ & (g & Hg & Ha) & _). exists g. split_and!; try done.
  - eapply not_allocated; [|done]. eapply (di_slot _ _ _ Hinv). exact Hg.
  - destruct (di_len _ _ _ Hinv p) as [E| <-]; [by rw E in Hg|]. eapply lookup_lt_Some; exact Hg.
Qed.

(** Opening an existing vnode with a free descriptor and a free filp, the
    truncation (if any) having been agreed: the lowest free descriptor is
    returned, referring to a filp of its own on the vnode with the open flags;
    no other descriptor changes and reference counts stay exact. None of this
    depends on the vnode's mode bits: [do_open] checks no permission on a file
    that exists. *)
Theorem do_open_existing s p v parent dot oflags mode j x l :
  fd_inv (files s) -> lowest_free (table (files s) p) 0 j -> filp_free_list (files s) = x :: l ->
  (has oflags O_TRUNC && vn_isreg (vnode s v) = true -> vfs_truncate v = RVal 0) -> FD_CLOEXEC = FDF_CLOSE_ON_EXEC ->
  exists s' g, do_open vfs_create vfs_truncate p (Some v) parent dot oflags mode s = Ok (RVal (Z.of_nat j), s') /\
    fd_inv (files s') /\ table (files s') p = <[j := g]> (table (files s) p) /\ fd_filp g = Some x /\
    has (fd_flags g) FDF_CLOSE_ON_EXEC = has oflags O_CLOEXEC /\
    (forall q, q <> p -> table (files s') q = table (files s) q) /\
    f_type (filp (files s') x) = FILP_TYPE_VNODE /\ f_u (filp (files s') x) = Some v /\
    f_flags (filp (files s') x) = oflags /\
    f_offset (filp (files s') x) = (if has oflags O_APPEND then vn_size (vnode s v) else 0).
Proof.
  intros Hinv Hlow Hl Htr Hce. destruct (lowest_slot _ _ _ Hinv Hlow) as (g0 & Hg0 & Hgn & Hj).
  set g := mkFileDesc (Z.lor (if has oflags O_CLOEXEC then Z.lor FDF_ALLOCED FD_CLOEXEC else FDF_ALLOCED) FDF_VALID) (Some x).
  assert (slot_ok g) as Hg. { rw /g Hce. by destruct (has oflags O_CLOEXEC). }
  rw /do_open /open_vnode /lift. mrun. rw /fd_alloc (fd_alloc_loop_found procs filps _ p _ 0 j) //; [lia|]. simpl.
  set f1 := put_fd p j (mkFileDesc FDF_ALLOCED None) (files s).
  assert (fd_inv f1) as Hinv1 by (eapply inv_same; [done|done|exact Hg0|done|done]).
  rw (filp_get_new_run f1 x l) //=.
  assert ((if has oflags O_TRUNC && vn_isreg (vnode s v) then vfs_truncate v else RVal 0) = RVal 0) as ->.
  { destruct (_ && _); auto. }
  rw bool_decide_true //=.
  pose proof (put_fd_lookup (files s) p j g0 (mkFileDesc FDF_ALLOCED None) Hg0) as Hl1. fold f1 in Hl1.
  match goal with |- context [get_fd p (Z.of_nat j) ?f] => set f2 := f end.
  rw (get_fd_run f2 p j (mkFileDesc FDF_ALLOCED None) Hl1) /= (set_fd_run f2 p j _ _ Hl1) /=. fold g.
  exists (s <| files := (put_fd p j g f2) <| v_reference_cnt ::= fun t => <[v := t v + 1]> t |> |>), g.
  assert (table (put_fd p j g f2) p = <[j := g]> (table (files s) p)) as Htp.
  { rw table_put decide_True //. change (table f2 p) with (table f1 p).
    rw /f1 table_put decide_True // list_insert_insert_eq //. }
  assert (forall q, q <> p -> table (put_fd p j g f2) q = table (files s) q) as Htq.
  { intros q Hq. rw table_put decide_False //. change (table f2 q) with (table f1 q). rw /f1 table_put decide_False //. }
  assert (filp f2 x = mkFilp (if has oflags O_APPEND then vn_size (vnode s v) else 0) oflags 1 FILP_TYPE_VNODE (Some v)) as Hfx.
  { rw /f2. by reads. }
  split_and!; try done; try first [exact (f_equal f_type Hfx)|exact (f_equal f_u Hfx)|exact (f_equal f_flags Hfx)
    |exact (f_equal f_offset Hfx)].
  2: { rw /g Hce. by destruct (has oflags O_CLOEXEC). }
  eapply (inv_new procs filps procs_nodup (files s) _ p j g0 g x l); try done.
  - intros q. simpl. rw table_put. destruct (decide (q = p)) as [->|]; [exact Htp|by apply Htq].
  - intros y Hy. rw /f2. by reads.
  - exact (f_equal f_reference_cnt Hfx).
  - cut (usable (filp f2 x)); [done|]. rw Hfx. left. split; [done|]. eexists. reflexivity.
Qed.

(** Opening a vnode when no filp is left, or when the server refuses the
    truncation: what was done is undone. *)
Lemma open_vnode_fails s p v oflags j :
  fd_inv (files s) -> lowest_free (table (files s) p) 0 j ->
  (filp_free_list (files s) = [] \/
   (has oflags O_TRUNC && vn_isreg (vnode s v) = true /\ vfs_truncate v <> RVal 0)) ->
  exists r s', open_vnode vfs_truncate p v oflags s = Ok (r, s') /\
    fd_inv (files s') /\ table (files s') p = <[j := mkFileDesc 0 None]> (table (files s) p) /\
    (forall q, q <> p -> table (files s') q = table (files s) q) /\
    filp_free_list (files s') = filp_free_list (files s) /\
    r = (match filp_free_list (files s) with [] => RErr ENOMEM | _ => vfs_truncate v end).
Proof.
  intros Hinv Hlow Hfail. destruct (lowest_slot _ _ _ Hinv Hlow) as (g0 & Hg0 & Hgn & Hj).
  rw /open_vnode /lift. mrun. rw /fd_alloc (fd_alloc_loop_found procs filps _ p _ 0 j) //; [lia|]. simpl.
  set f1 := put_fd p j (mkFileDesc FDF_ALLOCED None) (files s).
  assert (fd_inv f1) as Hinv1 by (eapply inv_same; [done|done|exact Hg0|done|done]).
  pose proof (put_fd_lookup (files s) p j g0 (mkFileDesc FDF_ALLOCED None) Hg0) as Hl1. fold f1 in Hl1.
  assert (forall f, (forall q, table f q = table f1 q) ->
    table (put_fd p j (mkFileDesc 0 None) f) p = <[j := mkFileDesc 0 None]> (table (files s) p) /\
    (forall q, q <> p -> table (put_fd p j (mkFileDesc 0 None) f) q = table (files s) q)) as Htab.
  { intros f Hf. split; [|intros q Hq].
    - rw table_put decide_True // Hf /f1 table_put decide_True // list_insert_insert_eq //.
    - rw table_put decide_False // Hf /f1 table_put decide_False //. }
  assert (fd_inv (put_fd p j (mkFileDesc 0 None) f1)) as Hinv2.
  { eapply inv_same; [done|done|exact Hl1|done|apply slot_ok_None]. }
  destruct (filp_free_list (files s)) as [|x l] eqn:Hl.
  - rw /filp_get_new. mrun. change (filp_free_list f1) with (filp_free_list (files s)). rw Hl /=.
    rw (fd_free_run f1 p j (mkFileDesc FDF_ALLOCED None)) //.
    do 2 eexists. split; [done|]. simpl. destruct (Htab f1) as [? ?]; [done|]. by split_and!.
  - destruct Hfail as [|[Htr Hsc]]; [done|]. rw (filp_get_new_run f1 x l) //= Htr bool_decide_false //=.
    assert (x ∉ l) as Hxl. { pose proof (di_nodup _ _ _ Hinv) as Hnd. rw Hl in Hnd. by apply NoDup_cons in Hnd as [??]. }
    match goal with |- context [fd_free p (Z.of_nat j) ?f] => set f2 := f end.
    rw (fd_free_run f2 p j (mkFileDesc FDF_ALLOCED None)) //=.
    assert (f_reference_cnt (filp (put_fd p j (mkFileDesc 0 None) f2) x) = 1) as Hn by (rw /f2; by reads).
    destruct (filp_release_run (put_fd p j (mkFileDesc 0 None) f2) x 1 Hn) as (f3 & -> & He & _); [done|].
    destruct (decide (1 = 1)) as [_|]; [|done]. destruct He as (Ht & Hfl & Hfree). do 2 eexists. split; [done|]. simpl in Hfree |- *.
    destruct (Htab f2) as [Ht1 Ht2]; [done|].
    split_and!; [|rw -Ht; exact Ht1|intros q Hq; rw -Ht; by apply Ht2|by rw -Hfree|done].
    eapply (inv_free_filp procs filps _ _ x Hinv2).
    + change (x ∈ filp_free_list (files s)). rw Hl. set_solver.
    + intros q. by rw -Ht.
    + intros y Hy. rw -Hfl /f2. by reads.
    + rw -Hfl. by reads.
    + rw -Hfree. change (filp_free_list (put_fd p j (mkFileDesc 0 None) f1)) with (filp_free_list (files s)). by rw Hl.
Qed.

(** Why [do_open] fails, if it does, with a descriptor left. *)
Definition vnode_error s v (oflags : Z) : option ret :=
  match filp_free_list (files s) with
  | [] => Some (RErr ENOMEM)
  | _ => if has oflags O_TRUNC && vn_isreg (vnode s v) && negb (bool_decide (vfs_truncate v = RVal 0)) then Some (vfs_truncate v) else None
  end.
Definition open_error s (found : option nat) (dir : nat) (dot : bool) (oflags mode : Z) : option ret :=
  match found with
  | Some v => vnode_error s v oflags
  | None =>
    if has oflags O_CREAT && negb (bool_decide (check_access (caller s) (vnode s dir) (v_mode (files s) dir) None W_OK = RVal 0)) then Some (RErr ENOENT)
    else if dot then Some (RErr ENOMEM)
    else match vfs_create dir mode with inr e => Some (RErr e) | inl v => vnode_error s v oflags end
  end.
(** The descriptors and filps are as before: in the table of [p] only the
    lowest free descriptor [j] may have been cleared. *)
Definition undone s s' p (j : nat) : Prop :=
  (forall k, k <> j -> table (files s') p !! k = table (files s) p !! k) /\ (exists g, table (files s') p !! j = Some g /\ fd_filp g = None) /\
  filp_free_list (files s') = filp_free_list (files s).

Lemma open_vnode_cases s p v oflags j :
  fd_inv (files s) -> lowest_free (table (files s) p) 0 j -> FD_CLOEXEC = FDF_CLOSE_ON_EXEC ->
  exists r s', open_vnode vfs_truncate p v oflags s = Ok (r, s') /\ fd_inv (files s') /\ (forall q, q <> p -> table (files s') q = table (files s) q) /\
    match vnode_error s v oflags with None => r = RVal (Z.of_nat j) | Some e => r = e /\ undone s s' p j end.
Proof.
  intros Hinv Hlow Hce. rw /vnode_error.
  assert ((filp_free_list (files s) = [] \/ (has oflags O_TRUNC && vn_isreg (vnode s v) = true /\ vfs_truncate v <> RVal 0)) \/
    exists x l, filp_free_list (files s) = x :: l /\ (has oflags O_TRUNC && vn_isreg (vnode s v) = true -> vfs_truncate v = RVal 0)) as [Hf|(x & l & Hl & Htr)].
  { destruct (filp_free_list (files s)) as [|x l]; [by left; left|]. destruct (has oflags O_TRUNC && vn_isreg (vnode s v)); [|right; by exists x, l].
    destruct (decide (vfs_truncate v = RVal 0)); [right; by exists x, l|left; by right]. }
  - destruct (lowest_slot _ _ _ Hinv Hlow) as (g0 & Hg0 & _). destruct (open_vnode_fails s p v oflags j Hinv Hlow Hf) as (r & s' & Hr & Hi & Ht & Hq & Hfl & ->). exists (match filp_free_list (files s) with [] => RErr ENOMEM | _ => vfs_truncate v end), s'. split_and!; try done.
    assert (undone s s' p j) as Hu.
    { apply lookup_lt_Some in Hg0. rw /undone Ht. split_and!; [intros k Hk; by rewrite ->list_lookup_insert_ne by congruence|exists (mkFileDesc 0 None); split; [by apply list_lookup_insert_eq|done]|done]. }
    destruct (filp_free_list (files s)); [by split|]. destruct Hf as [|[-> Hne]]; [done|]. rw bool_decide_false //=.
  - destruct (do_open_existing s p v 0 false oflags 0 j x l Hinv Hlow Hl Htr Hce) as (s' & g & Hr & Hi & _ & _ & _ & Hq & _). exists (RVal (Z.of_nat j)), s'. split_and!; try done.
    rw Hl. destruct (has oflags O_TRUNC && vn_isreg (vnode s v)); [|done]. by rw Htr // bool_decide_true.
Qed.

(** With every descriptor in use the bound given to [fd_alloc] makes it read
    past the table. *)
Lemma do_open_full_overruns s p v dir dot oflags mode : fd_inv (files s) -> table (files s) p <> [] ->
  (forall k g, table (files s) p !! k = Some g -> allocated g = true) -> do_open vfs_create vfs_truncate p (Some v) dir dot oflags mode s = Fault.
Proof.
  intros Hinv Hne Hall. rw /do_open /open_vnode {1}/mbind {1}/M_bind {1}/lift /fd_alloc (fd_alloc_loop_overrun (files s) p _ 0) //; [eauto| |lia].
  destruct (di_len _ _ _ Hinv p) as [E| ->]; [done|lia].
Qed.
End open_props.

(** ** Witnesses *)
#[local] Instance consts_example : FsConsts := small_consts.
#[local] Instance flags_example : OpenFlags := {| O_CREAT := 0x200; O_TRUNC := 0x400; O_APPEND := 8; O_CLOEXEC := 0x40000 |}.
Definition user_cred : Cred := mkCred 100 100 100 100 100 100 0 (replicate 8 0) 255 255.
(** A regular file of user 7 and group 7. *)
Definition file_vnode : VNode := mkVNode 7 7 0 42 true.
Definition acc0 : acc := mkAcc fs_one (fun _ => file_vnode) user_cred.
Definition path_to_7 : Z -> nat + errno := fun _ => inl 7%nat.
Definition no_create : nat -> Z -> nat + errno := fun _ _ => inr ENOENT.

Lemma check_access_other_correct_witness :
  check_access user_cred file_vnode 0x1A4 None R_OK = RVal 0 /\ posix_grants user_cred file_vnode 0x1A4 R_OK.
Proof.
  split; [reflexivity|].
  destruct (check_access_other_correct user_cred file_vnode 0x1A4 None R_OK) as [[Hg _] _]; [done|done|done|reflexivity|].
  by apply Hg.
Defined.

Lemma check_access_safe_witness :
  check_access user_cred file_vnode 0x1A4 (Some 0) R_OK = RVal 0 /\ filp_denies O_WRONLY (Some 0) (Z.land R_OK RWX) = false.
Proof.
  split; [reflexivity|]. apply (check_access_safe user_cred file_vnode 0x1A4 (Some 0) R_OK); [reflexivity|done].
Defined.

Lemma check_access_owner_inverted_witness :
  check_access (mkCred 7 7 7 9 7 7 0 [] 0 0) file_vnode 0 None (Z.lor R_OK W_OK) = RVal 0 /\
  check_access (mkCred 7 7 7 9 7 7 0 [] 0 0) file_vnode 0x180 None R_OK = RErr EACCES.
Proof.
  split.
  - refine (proj1 (check_access_owner_inverted (mkCred 7 7 7 9 7 7 0 [] 0 0) file_vnode 0 (Z.lor R_OK W_OK) _ _ _) _); done.
  - refine (proj2 (proj2 (check_access_owner_inverted (mkCred 7 7 7 9 7 7 0 [] 0 0) file_vnode 0x180 0 _ _ _) _ _ _ _)); done.
Defined.

Lemma sys_chmod_correct_witness :
  sys_chmod path_to_7 (fun _ _ => RVal 0) 1 0x180 acc0 = Ok (RErr EPERM, acc0) /\ caller acc0 = user_cred.
Proof.
  split; [reflexivity|].
  exact (proj1 (proj2 (sys_chmod_correct path_to_7 (fun _ _ => RVal 0) acc0 1 0x180 (RErr EPERM) acc0 eq_refl))).
Defined.

Lemma sys_chown_reports_success_witness :
  exists s', sys_chown path_to_7 (fun _ _ _ => RVal 0) 1 100 100 acc0 = Ok (RVal 0, s') /\ s' = acc0.
Proof.
  destruct (sys_chown_reports_success path_to_7 (fun _ _ _ => RVal 0) acc0 1 100 100 7) as (s' & Hr & Hs & _); [done|].
  exists s'. split; [done|]. by apply Hs.
Defined.

Lemma fs_one_lowest : lowest_free (table (files acc0) 0%nat) 0 1.
Proof.
  split_and!; [lia|by exists nofd|]. intros k Hk. exists fd0. by replace k with 0%nat by lia.
Qed.

Lemma do_open_existing_witness :
  exists s', do_open no_create (fun _ => RVal 0) 0 (Some 7%nat) 3 false 0x40001 0 acc0 = Ok (RVal (Z.of_nat 1), s') /\
    fd_inv [0; 1]%nat [0; 1; 2]%nat (files s').
Proof.
  destruct (do_open_existing no_create (fun _ => RVal 0) [0; 1]%nat [0; 1; 2]%nat procs_example acc0 0 7 3 false 0x40001 0 1 1
    [2]%nat) as (s' & g & Hr & Hi & _); [apply fs_one_inv|apply fs_one_lowest|done|done|done|]. exists s'. by split.
Defined.

