(* ===== verification/Sched.v ===== *)
(** * Sched: run queues, the big kernel lock, sleep and wakeup

    proc/sched.c, proc/thread_sched.c and proc/sleep_wakeup_bkl.c on one CPU.
    A function that switches threads is modelled up to the switch; what it
    does when its thread runs again is a definition of its own
    ([..._resumed]). *)

From S2P Require Import Prelude.
Local Open Scope Z_scope.
Local Open Scope kernel_scope.

(** [SCHED_*]; [SCHED_BAD] is any other value of the int. *)
Inductive policy : Type := SCHED_RR | SCHED_FIFO | SCHED_OTHER | SCHED_IDLE | SCHED_BAD.
#[export] Instance policy_eq_dec : EqDecision policy.
Proof. solve_decision. Defined.

Inductive tstate : Type :=
| THREAD_STATE_FREE | THREAD_STATE_INIT | THREAD_STATE_READY | THREAD_STATE_RUNNING
| THREAD_STATE_RENDEZ_BLOCKED | THREAD_STATE_BKL_BLOCKED | THREAD_STATE_EXITED.
#[export] Instance tstate_eq_dec : EqDecision tstate.
Proof. solve_decision. Defined.

Definition SCHED_QUANTA_JIFFIES : Z := 5.
Definition JIFFIES_PER_SECOND : Z := 100.
Definition NANOSECONDS_PER_JIFFY : Z := 10000000.
Definition INTRF_EVENT : Z := bit 1.
Definition wrap64 (z : Z) : Z := z mod 2 ^ 64.
(** Conversion to [long long]. *)
Definition sint64 (z : Z) : Z := (z + 2 ^ 63) mod 2 ^ 64 - 2 ^ 63.
(** [e % JIFFIES_PER_SECOND] of a [long long]. *)
Definition wheel_slot (e : Z) : Z := Z.rem e JIFFIES_PER_SECOND.

(** The fields of [struct Thread] these files use, its [sleep_timer] included. *)
Record Thread := mkThread {
  sched_policy : policy;
  quanta_used : Z;
  priority : Z;
  desired_priority : Z;
  state : tstate;
  blocking_rendez : option nat;
  intr_flags : Z;
  pending_events : Z;
  event_mask : Z;
  usage_usec : Z;
  last_resched_time_usec : Z;
  creation_usec : Z;
  timer_armed : bool;
  timer_thread : bool;             (* [timer->thread] is set *)
  timer_arg : option nat;          (* the rendez *)
  timer_expiration : Z }.
Definition eta_Thread t := mkThread (sched_policy t) (quanta_used t) (priority t) (desired_priority t) (state t)
  (blocking_rendez t) (intr_flags t) (pending_events t) (event_mask t) (usage_usec t) (last_resched_time_usec t)
  (creation_usec t) (timer_armed t) (timer_thread t) (timer_arg t) (timer_expiration t).
#[export] Instance set_sched_policy : Setter sched_policy := ltac:(solve_setter eta_Thread).
#[export] Instance set_quanta_used : Setter quanta_used := ltac:(solve_setter eta_Thread).
#[export] Instance set_priority : Setter priority := ltac:(solve_setter eta_Thread).
#[export] Instance set_desired_priority : Setter desired_priority := ltac:(solve_setter eta_Thread).
#[export] Instance set_state : Setter state := ltac:(solve_setter eta_Thread).
#[export] Instance set_blocking_rendez : Setter blocking_rendez := ltac:(solve_setter eta_Thread).
#[export] Instance set_intr_flags : Setter intr_flags := ltac:(solve_setter eta_Thread).
#[export] Instance set_pending_events : Setter pending_events := ltac:(solve_setter eta_Thread).
#[export] Instance set_event_mask : Setter event_mask := ltac:(solve_setter eta_Thread).
#[export] Instance set_usage_usec : Setter usage_usec := ltac:(solve_setter eta_Thread).
#[export] Instance set_last_resched : Setter last_resched_time_usec := ltac:(solve_setter eta_Thread).
#[export] Instance set_creation_usec : Setter creation_usec := ltac:(solve_setter eta_Thread).
#[export] Instance set_timer_armed : Setter timer_armed := ltac:(solve_setter eta_Thread).
#[export] Instance set_timer_thread : Setter timer_thread := ltac:(solve_setter eta_Thread).
#[export] Instance set_timer_arg : Setter timer_arg := ltac:(solve_setter eta_Thread).
#[export] Instance set_timer_expiration : Setter timer_expiration := ltac:(solve_setter eta_Thread).

(** The threads, the 32 run queues and their bitmap, the lock, the rendez
    wait lists, the timing wheel, the CPU's current and idle threads, and the
    two clocks. *)
Record sched := mkSched {
  th : nat -> Thread;
  sched_queue : Z -> list nat;
  sched_queue_bitmap : Z;
  bkl_locked : bool;
  bkl_owner : option nat;
  bkl_blocked_list : list nat;
  rendez : nat -> list nat;
  timing_wheel : Z -> list nat;
  current_thread : option nat;
  idle_thread : option nat;
  monotonic_usec : Z;
  hardclock : Z }.
Definition eta_sched s := mkSched (th s) (sched_queue s) (sched_queue_bitmap s) (bkl_locked s) (bkl_owner s)
  (bkl_blocked_list s) (rendez s) (timing_wheel s) (current_thread s) (idle_thread s) (monotonic_usec s) (hardclock s).
#[export] Instance set_th : Setter th := ltac:(solve_setter eta_sched).
#[export] Instance set_sched_queue : Setter sched_queue := ltac:(solve_setter eta_sched).
#[export] Instance set_bitmap : Setter sched_queue_bitmap := ltac:(solve_setter eta_sched).
#[export] Instance set_bkl_locked : Setter bkl_locked := ltac:(solve_setter eta_sched).
#[export] Instance set_bkl_owner : Setter bkl_owner := ltac:(solve_setter eta_sched).
#[export] Instance set_bkl_blocked_list : Setter bkl_blocked_list := ltac:(solve_setter eta_sched).
#[export] Instance set_rendez : Setter rendez := ltac:(solve_setter eta_sched).
#[export] Instance set_timing_wheel : Setter timing_wheel := ltac:(solve_setter eta_sched).
#[export] Instance set_current_thread : Setter current_thread := ltac:(solve_setter eta_sched).
#[export] Instance set_idle_thread : Setter idle_thread := ltac:(solve_setter eta_sched).

(** *** State access *)
Definition upd_th (t : nat) (f : Thread -> Thread) : M sched unit :=
  modify (fun s => s <| th ::= fun m => <[t := f (m t)]> m |>).
(** [sched_queue[p]]: an index outside the array is a fault. *)
Definition on_queue (p : Z) (f : list nat -> outcome (list nat)) : M sched unit :=
  if (0 <=? p) && (p <? 32) then
    update (fun s => sched_queue s p) (fun l s => s <| sched_queue ::= fun m => <[p := l]> m |>) f
  else fault.
Definition on_bkl (f : list nat -> outcome (list nat)) : M sched unit :=
  update bkl_blocked_list (fun l s => s <| bkl_blocked_list := l |>) f.
Definition on_rendez (r : nat) (f : list nat -> outcome (list nat)) : M sched unit :=
  update (fun s => rendez s r) (fun l s => s <| rendez ::= fun m => <[r := l]> m |>) f.
Definition on_wheel (i : Z) (f : list nat -> outcome (list nat)) : M sched unit :=
  if (0 <=? i) && (i <? JIFFIES_PER_SECOND) then
    update (fun s => timing_wheel s i) (fun l s => s <| timing_wheel ::= fun m => <[i := l]> m |>) f
  else fault.
Definition set_bits (f : Z -> Z) : M sched unit := modify (fun s => s <| sched_queue_bitmap ::= f |>).

(** The running thread; a NULL one is a fault where the code uses it. *)
Definition get_current_thread : M sched nat :=
  o ← gets current_thread; match o with Some t => mret t | None => fault end.

(** *** proc/sched.c *)
Definition SchedReady (t : nat) : M sched unit :=
  x ← gets (fun s => th s t);
  _ ← (match sched_policy x with
       | SCHED_RR | SCHED_FIFO | SCHED_OTHER =>
         _ ← on_queue (priority x) (dl_add_tail t);
         set_bits (fun b => Z.lor b (bit (priority x)))
       | SCHED_IDLE => mret tt
       | SCHED_BAD => panic
       end);
  upd_th t (fun x => x <| quanta_used := 0 |>).

(** [CIRCLEQ_REM_ENTRY], then the bit is cleared if the queue is empty. *)
Definition unqueue (t : nat) (p : Z) : M sched unit :=
  _ ← on_queue p (dl_rem t);
  l ← gets (fun s => sched_queue s p);
  match l with [] => set_bits (fun b => Z.land b (Z.lnot (bit p))) | _ => mret tt end.

Definition SchedUnready (t : nat) : M sched unit :=
  x ← gets (fun s => th s t);
  match sched_policy x with
  | SCHED_RR | SCHED_FIFO =>
    _ ← unqueue t (priority x); upd_th t (fun x => x <| quanta_used := 0 |>)
  | SCHED_OTHER =>
    _ ← unqueue t (priority x);
    upd_th t (fun x => x <| priority := desired_priority x |> <| quanta_used := 0 |>)
  | SCHED_IDLE => mret tt
  | SCHED_BAD => panic
  end.

(** [for (q = 31; q >= 0; q--) if (bitmap & (1 << q)) break;] *)
Fixpoint top_bit (b : Z) (n : nat) : Z :=
  match n with
  | O => -1
  | S n' => if has b (bit (Z.of_nat n')) then Z.of_nat n' else top_bit b n'
  end.

(** Moving the current thread [c], whose fields are [x], within or between
    queues. *)
Definition end_turn (c : nat) (x : Thread) : M sched unit :=
  match sched_policy x with
  | SCHED_RR =>
    _ ← kassert ((16 <=? priority x) && (priority x <? 32));
    l ← gets (fun s => sched_queue s (priority x));
    match l with
    | [] => mret tt
    | _ => _ ← on_queue (priority x) cq_forward; upd_th c (fun x => x <| quanta_used := 0 |>)
    end
  | SCHED_OTHER =>
    if quanta_used x =? SCHED_QUANTA_JIFFIES then
      if 1 <? priority x then
        _ ← on_queue (priority x) dl_rem_head;
        _ ← upd_th c (fun x => x <| priority ::= fun p => p - 1 |>);
        _ ← on_queue (priority x - 1) (dl_add_tail c);
        upd_th c (fun x => x <| quanta_used := 0 |>)
      else
        _ ← on_queue (priority x) cq_forward;
        upd_th c (fun x => x <| quanta_used := 0 |>)
    else mret tt
  | _ => mret tt
  end.

(** [current->quanta_used++], then the above. *)
Definition resched_current (c : nat) : M sched unit :=
  _ ← upd_th c (fun x => x <| quanta_used ::= fun q => q + 1 |>);
  x ← gets (fun s => th s c);
  end_turn c x.

(** The head of the queue of the highest bit, or the idle thread. *)
Definition pick_next (s : sched) : option nat :=
  let h := if sched_queue_bitmap s =? 0 then None else head (sched_queue s (top_bit (sched_queue_bitmap s) 32)) in
  match h with Some t => Some t | None => idle_thread s end.

Definition Reschedule : M sched unit :=
  cur ← gets current_thread;
  _ ← (match cur with Some c => resched_current c | None => mret tt end);
  next ← gets pick_next;
  match next with
  | None => fault
  | Some n =>
    _ ← upd_th n (fun x => x <| state := THREAD_STATE_RUNNING |>);
    now ← gets monotonic_usec;
    _ ← (match cur with
         | Some c => upd_th c (fun x => x <| usage_usec ::= fun u => wrap64 (u + (now - last_resched_time_usec x)) |>
                                         <| last_resched_time_usec := now |>)
         | None => mret tt
         end);
    if bool_decide (cur = Some n) then mret tt
    else
      _ ← upd_th n (fun x => x <| last_resched_time_usec := now |>);
      modify (fun s => s <| current_thread := Some n |>)
  end.

Definition thread_start (t : nat) : M sched unit :=
  now ← gets monotonic_usec;
  _ ← upd_th t (fun x => x <| usage_usec := 0 |> <| last_resched_time_usec := now |> <| creation_usec := now |>
                           <| state := THREAD_STATE_READY |>);
  SchedReady t.

(** The head of the blocked list gets the lock and is made ready, or the lock
    is released. *)
Definition bkl_hand_over : M sched unit :=
  l ← gets bkl_blocked_list;
  match l with
  | t :: _ =>
    _ ← on_bkl dl_rem_head;
    _ ← upd_th t (fun x => x <| state := THREAD_STATE_READY |>);
    _ ← modify (fun s => s <| bkl_owner := Some t |>);
    SchedReady t
  | [] => modify (fun s => s <| bkl_locked := false |> <| bkl_owner := None |>)
  end.

Definition thread_stop : M sched unit :=
  c ← get_current_thread;
  _ ← bkl_hand_over;
  _ ← upd_th c (fun x => x <| state := THREAD_STATE_EXITED |>);
  _ ← SchedUnready c;
  Reschedule.

Definition init_schedparams (x : Thread) (pol : policy) (prio : Z) : outcome Thread :=
  let prio := if prio <? 0 then 0 else prio in
  let prio := if 31 <? prio then 31 else prio in
  let x := x <| quanta_used := 0 |> <| sched_policy := pol |> in
  match pol with
  | SCHED_RR | SCHED_FIFO =>
    let p := if 16 <=? prio then prio else 16 in Ok (x <| priority := p |> <| desired_priority := p |>)
  | SCHED_OTHER =>
    let p := if prio <? 16 then prio else 0 in Ok (x <| priority := p |> <| desired_priority := p |>)
  | SCHED_IDLE => Ok (x <| priority := 0 |> <| desired_priority := 0 |>)
  | SCHED_BAD => Panic
  end.

Definition dup_schedparams (x old : Thread) : Thread :=
  x <| quanta_used := 0 |> <| sched_policy := sched_policy old |> <| priority := priority old |>
    <| desired_priority := desired_priority old |>.

(** *** proc/thread_sched.c; the privilege check always passes *)
Definition change_params (c : nat) (pol : policy) (prio : Z) : M sched ret :=
  _ ← SchedUnready c;
  _ ← upd_th c (fun x => x <| sched_policy := pol |> <| desired_priority := prio |> <| priority := prio |>);
  _ ← SchedReady c;
  _ ← Reschedule;
  mret (RVal 0).
Definition sys_thread_setschedparams (pol : policy) (prio : Z) : M sched ret :=
  c ← get_current_thread;
  match pol with
  | SCHED_RR | SCHED_FIFO =>
    if (prio <? 16) || (31 <? prio) then mret (RErr EINVAL) else change_params c pol prio
  | SCHED_OTHER =>
    if (prio <? 0) || (15 <? prio) then mret (RErr EINVAL) else change_params c pol prio
  | _ => mret (RErr EINVAL)
  end.

(** *** proc/sleep_wakeup_bkl.c *)
Definition KernelLock : M sched unit :=
  c ← get_current_thread;
  locked ← gets bkl_locked;
  if negb locked then modify (fun s => s <| bkl_locked := true |> <| bkl_owner := Some c |>)
  else
    _ ← on_bkl (dl_add_tail c);
    _ ← upd_th c (fun x => x <| state := THREAD_STATE_BKL_BLOCKED |>);
    _ ← SchedUnready c;
    Reschedule.

Definition KernelUnlock : M sched unit :=
  locked ← gets bkl_locked;
  if (locked : bool) then
    l ← gets bkl_blocked_list;
    match l with
    | t :: _ =>
      _ ← modify (fun s => s <| bkl_locked := true |> <| bkl_owner := Some t |>);
      _ ← on_bkl dl_rem_head;
      _ ← upd_th t (fun x => x <| state := THREAD_STATE_READY |>);
      _ ← SchedReady t;
      Reschedule
    | [] => modify (fun s => s <| bkl_locked := false |> <| bkl_owner := None |>)
    end
  else panic.

Definition InitRendez (r : nat) : M sched unit := modify (fun s => s <| rendez ::= fun m => <[r := []]> m |>).

Definition assert_owner (c : nat) : M sched unit :=
  l ← gets bkl_locked; _ ← kassert l;
  o ← gets bkl_owner; kassert (bool_decide (o = Some c)).

Definition TaskSleep (r : nat) : M sched unit :=
  c ← get_current_thread;
  _ ← assert_owner c;
  _ ← bkl_hand_over;
  _ ← on_rendez r (dl_add_tail c);
  _ ← upd_th c (fun x => x <| state := THREAD_STATE_RENDEZ_BLOCKED |> <| blocking_rendez := Some r |>);
  _ ← SchedUnready c;
  Reschedule.
(** When the sleeper runs again. *)
Definition TaskSleep_resumed : M sched unit := c ← get_current_thread; assert_owner c.

(** [false] is 0, [true] is -EINTR. *)
Definition TaskCheckInterruptible (x : Thread) (flags : Z) : bool :=
  has flags INTRF_EVENT && has (pending_events x) (event_mask x).

(** [ts] is the [timespec], seconds and nanoseconds, unless it is NULL.
    [Some EINTR]: returned at once; [None]: the thread sleeps. *)
Definition TaskSleepInterruptible (r : nat) (ts : option (Z * Z)) (flags : Z) : M sched (option errno) :=
  c ← get_current_thread;
  _ ← assert_owner c;
  x ← gets (fun s => th s c);
  if TaskCheckInterruptible x flags then mret (Some EINTR)
  else
    _ ← bkl_hand_over;
    _ ← (match ts with
         | None => mret tt
         | Some (sec, nsec) =>
           now ← gets hardclock;
           let e := sint64 (now + (sec * JIFFIES_PER_SECOND + Z.quot nsec NANOSECONDS_PER_JIFFY)) in
           _ ← upd_th c (fun x => x <| timer_thread := true |> <| timer_arg := Some r |> <| timer_armed := true |>
                                    <| timer_expiration := e |>);
           on_wheel (wheel_slot e) (dl_add_tail c)
         end);
    _ ← on_rendez r (dl_add_tail c);
    _ ← upd_th c (fun x => x <| state := THREAD_STATE_RENDEZ_BLOCKED |> <| intr_flags := flags |>
                             <| blocking_rendez := Some r |>);
    _ ← SchedUnready c;
    _ ← Reschedule;
    mret None.

Definition TaskSleepInterruptible_resumed (ts : bool) (flags : Z) : M sched ret :=
  c ← get_current_thread;
  _ ← upd_th c (fun x => x <| intr_flags := 0 |>);
  x ← gets (fun s => th s c);
  let sc := TaskCheckInterruptible x flags in
  if negb ts then mret (if sc then RErr EINTR else RVal 0)
  else if timer_armed x then
    _ ← on_wheel (wheel_slot (timer_expiration x)) (dl_rem c);
    _ ← upd_th c (fun x => x <| timer_armed := false |> <| timer_thread := false |>);
    mret (if sc then RErr EINTR else RVal 0)
  else mret (RErr (if sc then EINTR else ETIMEDOUT)).

(** From its rendez to the end of the lock's blocked list. *)
Definition to_bkl (t : nat) : M sched unit :=
  _ ← upd_th t (fun x => x <| blocking_rendez := None |>);
  _ ← on_bkl (dl_add_tail t);
  upd_th t (fun x => x <| state := THREAD_STATE_BKL_BLOCKED |>).

Definition TaskTimedSleepCallback (t : nat) : M sched unit :=
  x ← gets (fun s => th s t);
  if timer_thread x && bool_decide (state x = THREAD_STATE_RENDEZ_BLOCKED) then
    _ ← kassert (bool_decide (blocking_rendez x = timer_arg x));
    match timer_arg x with
    | None => fault
    | Some r => _ ← on_rendez r (dl_rem t); to_bkl t
    end
  else mret tt.

Definition TaskWakeup (r : nat) : M sched unit :=
  l ← gets (fun s => rendez s r);
  match l with
  | [] => mret tt
  | t :: _ =>
    x ← gets (fun s => th s t);
    _ ← kassert (bool_decide (blocking_rendez x = Some r));
    _ ← kassert (bool_decide (state x = THREAD_STATE_RENDEZ_BLOCKED));
    _ ← on_rendez r dl_rem_head;
    to_bkl t
  end.

Definition TaskWakeupSpecific (t : nat) (reason : Z) : M sched unit :=
  x ← gets (fun s => th s t);
  if bool_decide (state x = THREAD_STATE_RENDEZ_BLOCKED) && (has (intr_flags x) reason || (reason =? 0)) then
    match blocking_rendez x with
    | None => panic
    | Some r => _ ← on_rendez r (dl_rem t); to_bkl t
    end
  else mret tt.

Definition TaskRendezRequeue (t r_new r_old : nat) : M sched unit :=
  _ ← on_rendez r_old dl_rem_head;
  _ ← on_rendez r_new (dl_add_tail t);
  upd_th t (fun x => x <| blocking_rendez := Some r_new |>).

(** The [do ... while] of [TaskWakeupAll]: [n] turns are enough for [n]
    waiting threads. *)
Fixpoint wakeup_all_loop (n : nat) (r : nat) : M sched unit :=
  l ← gets (fun s => rendez s r);
  match n, l with
  | _, [] => mret tt
  | O, _ => fault
  | S n', t :: _ =>
    b ← gets bkl_locked; _ ← kassert b;
    _ ← on_rendez r dl_rem_head;
    _ ← to_bkl t;
    wakeup_all_loop n' r
  end.
Definition TaskWakeupAll (r : nat) : M sched unit :=
  n ← gets (fun s => length (rendez s r)); wakeup_all_loop n r.
