(* ===== verification/SchedQueue.v ===== *)
(** * SchedQueue: the run queues and the choice of the next thread

    The bitmap describes the queues, [Reschedule] runs the head of the highest
    queue that is not empty, and where that fails. *)

From S2P Require Import Prelude Sched.
Local Open Scope Z_scope.
Local Open Scope kernel_scope.

Abbreviation Q s p := (sched_queue s p).

(** A thread whose policy puts it on a run queue. *)
Definition queueable (x : Thread) : Prop :=
  sched_policy x = SCHED_RR \/ sched_policy x = SCHED_FIFO \/ sched_policy x = SCHED_OTHER.

Section bitmap.
Implicit Types (s : sched) (t c : nat) (p q b : Z).

(** Bit [q] is set exactly when queue [q] is not empty, and no other bit is. *)
Definition bitmap_ok s : Prop :=
  forall q, Z.testbit (sched_queue_bitmap s) q = true <-> 0 <= q < 32 /\ Q s q <> [].

Lemma top_bit_spec b n :
  (top_bit b n = -1 /\ forall q, 0 <= q < Z.of_nat n -> Z.testbit b q = false) \/
  (0 <= top_bit b n < Z.of_nat n /\ Z.testbit b (top_bit b n) = true /\
   forall q, top_bit b n < q < Z.of_nat n -> Z.testbit b q = false).
Proof.
  induction n as [|n IH]; [left; split; [done|lia]|]. cbn [top_bit]. rw has_bit; [lia|].
  destruct (Z.testbit b (Z.of_nat n)) eqn:E; [right; split_and!; [lia..|done|lia]|].
  destruct IH as [[-> Hq]|(Ht & Hb & Hq)]; [left; split; [done|]|right; split_and!; [lia..|done|]].
  all: intros q Hq'; destruct (decide (q = Z.of_nat n)) as [->|]; [done|apply Hq; lia].
Qed.

(** The head of the highest queue that is not empty. *)
Definition top_thread s t : Prop :=
  exists q, 0 <= q < 32 /\ head (Q s q) = Some t /\ forall q', q < q' < 32 -> Q s q' = [].

Lemma testbit_nonzero b q : Z.testbit b q = true -> b <> 0.
Proof. intros Hb ->. by rw Z.bits_0 in Hb. Qed.

Lemma pick_next_spec s :
  bitmap_ok s ->
  (exists t, pick_next s = Some t /\ top_thread s t) \/
  (pick_next s = idle_thread s /\ forall q, 0 <= q < 32 -> Q s q = []).
Proof.
  intros Hb. rw /pick_next.
  assert (forall q, 0 <= q < 32 -> Z.testbit (sched_queue_bitmap s) q = false -> Q s q = []) as He.
  { intros q Hq Hf. destruct (Q s q) eqn:E; [done|]. rw (proj2 (Hb q)) // in Hf. by rw E. }
  destruct (top_bit_spec (sched_queue_bitmap s) 32) as [[Ht Hq]|(Ht & Htb & Hq)].
  - right. split; [|intros q Hqr; apply He; [done|apply Hq; lia]].
    assert (sched_queue_bitmap s = 0) as ->; [|done].
    apply Z.bits_inj'. intros n Hn. rw Z.bits_0. apply not_true_is_false. intros Hn'. pose proof Hn' as [Hr _]%Hb.
    rw Hq in Hn'; [lia|done].
  - left. apply testbit_nonzero in Htb as Hnz. apply Z.eqb_neq in Hnz. rw Hnz.
    pose proof (proj1 (Hb _) Htb) as [_ Hne].
    destruct (Q s (top_bit (sched_queue_bitmap s) 32)) as [|t l] eqn:E; [done|]. simpl. exists t. split; [done|].
    exists (top_bit (sched_queue_bitmap s) 32). rw E. split_and!; [lia..|done|]. intros q' Hq'.
    apply He; [lia|]. apply Hq. lia.
Qed.

(** *** Adding to and removing from a queue *)
Lemma on_queue_run s p f l :
  0 <= p < 32 -> f (Q s p) = Ok l -> on_queue p f s = Ok (tt, s <| sched_queue ::= fun m => <[p := l]> m |>).
Proof.
  intros Hp Hf. rw /on_queue. replace ((0 <=? p) && (p <? 32)) with true by (symmetry; zcases; simpl; lia || done).
  by rw /update Hf.
Qed.

Lemma queue_upd s p l q : Q (s <| sched_queue ::= fun m => <[p := l]> m |>) q = if decide (q = p) then l else Q s q.
Proof. simpl. case_decide; subst; by reads. Qed.

Lemma SchedReady_run s t :
  queueable (th s t) -> 0 <= priority (th s t) < 32 -> t ∉ Q s (priority (th s t)) ->
  let p := priority (th s t) in
  SchedReady t s = Ok (tt, s <| sched_queue ::= fun m => <[p := Q s p ++ [t]]> m |>
    <| sched_queue_bitmap := Z.lor (sched_queue_bitmap s) (bit p) |>
    <| th ::= fun m => <[t := (m t) <| quanta_used := 0 |>]> m |>).
Proof.
  intros Hq Hp Ht p. rw /SchedReady. mrun.
  destruct Hq as [E|[E|E]]; rw E (on_queue_run s p _ (Q s p ++ [t])) //; by apply dl_add_tail_ok.
Qed.

Lemma bitmap_ok_add s s' p t :
  bitmap_ok s -> 0 <= p < 32 -> Q s' p = Q s p ++ [t] -> (forall q, q <> p -> Q s' q = Q s q) ->
  sched_queue_bitmap s' = Z.lor (sched_queue_bitmap s) (bit p) -> bitmap_ok s'.
Proof.
  intros Hb Hp Hqp Hq Hm q. rw Hm Z.lor_spec orb_true_iff bit_testbit; [lia|]. rw bool_decide_eq_true (Hb q).
  destruct (decide (q = p)) as [->|]; [|rw Hq //; naive_solver].
  rw Hqp. split; [|by right]. intros _. split; [done|]. by destruct (Q s p).
Qed.

(** The effect of [unqueue]: the bit is cleared with the last thread. *)
Lemma unqueue_run s t p :
  0 <= p < 32 -> t ∈ Q s p ->
  exists s', unqueue t p s = Ok (tt, s') /\ Q s' p = list_remove1 t (Q s p) /\ (forall q, q <> p -> Q s' q = Q s q) /\
    sched_queue_bitmap s' = (match list_remove1 t (Q s p) with
      | [] => Z.land (sched_queue_bitmap s) (Z.lnot (bit p)) | _ => sched_queue_bitmap s end) /\
    th s' = th s /\ bkl_locked s' = bkl_locked s /\ bkl_owner s' = bkl_owner s /\
    bkl_blocked_list s' = bkl_blocked_list s /\ rendez s' = rendez s /\ current_thread s' = current_thread s /\
    idle_thread s' = idle_thread s /\ timing_wheel s' = timing_wheel s.
Proof.
  intros Hp Ht. rw /unqueue. mrun. rw (on_queue_run s p _ (list_remove1 t (Q s p))) //; [by apply dl_rem_ok|].
  cbn. rw fn_lookup_insert. destruct (list_remove1 t (Q s p)) eqn:E; (eexists; split; [done|]); cbn;
    split_and!; try done; try (by reads); intros q Hq; by reads.
Qed.

Lemma bitmap_ok_rem s s' p t :
  bitmap_ok s -> 0 <= p < 32 -> t ∈ Q s p -> Q s' p = list_remove1 t (Q s p) -> (forall q, q <> p -> Q s' q = Q s q) ->
  sched_queue_bitmap s' = (match list_remove1 t (Q s p) with
      | [] => Z.land (sched_queue_bitmap s) (Z.lnot (bit p)) | _ => sched_queue_bitmap s end) -> bitmap_ok s'.
Proof.
  intros Hb Hp Ht Hqp Hq Hm q. rw Hm. destruct (decide (q = p)) as [->|Hne].
  - rw Hqp. destruct (list_remove1 t (Q s p)) eqn:E.
    + rw Z.land_spec Z.lnot_spec; [lia|]. rw bit_testbit; [lia|]. rw bool_decide_true // andb_false_r. naive_solver.
    + rw (Hb p). split; [done|]. intros _. split; [done|]. intros E'. rw E' in Ht. set_solver.
  - rw (Hq q Hne) -(Hb q). destruct (list_remove1 t (Q s p)); [|done].
    rw Z.land_spec. destruct (decide (0 <= q)).
    + rw Z.lnot_spec // bit_testbit; [lia|]. rw bool_decide_false; [congruence|]. by rw andb_true_r.
    + rw (Z.testbit_neg_r (sched_queue_bitmap s) q) //. lia.
Qed.
End bitmap.

(** ** The queue invariant and [Reschedule] *)
Definition params_ok (x : Thread) : Prop :=
  match sched_policy x with
  | SCHED_RR | SCHED_FIFO => 16 <= priority x < 32
  | SCHED_OTHER => 0 <= priority x < 16 /\ 0 <= desired_priority x < 16
  | SCHED_IDLE => True
  | SCHED_BAD => False
  end.

Definition queued (s : sched) (t : nat) : Prop := exists p, t ∈ Q s p.

Record qinv (s : sched) : Prop := {
  q_mem : forall p t, t ∈ Q s p -> 0 <= p < 32 /\ priority (th s t) = p /\ queueable (th s t);
  q_nodup : forall p, NoDup (Q s p);
  q_params : forall t, params_ok (th s t);
  q_idle : exists i, idle_thread s = Some i /\ sched_policy (th s i) = SCHED_IDLE }.

(** Where a thread that calls [Reschedule] is: at the head of its queue, at
    the start of its turn (just taken off its queue, or put on one), or the
    idle thread. *)
Definition placed (s : sched) (c : nat) : Prop :=
  sched_policy (th s c) = SCHED_IDLE \/ head (Q s (priority (th s c))) = Some c \/ quanta_used (th s c) = 0.

(** What scheduling leaves alone. *)
Record frame (s s' : sched) : Prop := {
  f_locked : bkl_locked s' = bkl_locked s;
  f_owner : bkl_owner s' = bkl_owner s;
  f_bkl : bkl_blocked_list s' = bkl_blocked_list s;
  f_rendez : rendez s' = rendez s;
  f_idle : idle_thread s' = idle_thread s;
  f_wheel : timing_wheel s' = timing_wheel s;
  f_policy : forall t, sched_policy (th s' t) = sched_policy (th s t);
  f_blocking : forall t, blocking_rendez (th s' t) = blocking_rendez (th s t) }.

Lemma frame_refl s : frame s s.
Proof. by split. Qed.
Lemma frame_trans s1 s2 s3 : frame s1 s2 -> frame s2 s3 -> frame s1 s3.
Proof. intros [] []. split; try congruence; intros t; congruence. Qed.

(** The [SCHED_OTHER] turn that ends in a lower queue. *)
Definition demotes (x : Thread) : Prop :=
  sched_policy x = SCHED_OTHER /\ quanta_used x + 1 = SCHED_QUANTA_JIFFIES /\ 1 < priority x.

Section resched.
Implicit Types (s : sched) (t c : nat) (p q : Z).

Lemma upd_th_fields {A} (f : Thread -> A) s c g :
  (forall x, f (g x) = f x) -> forall t, f (th (s <| th ::= fun m => <[c := g (m c)]> m |>) t) = f (th s t).
Proof. intros Hf t. simpl. destruct (decide (c = t)) as [->|]; reads; auto. Qed.

(** Changing neither priorities nor policies of threads, nor the contents of
    the queues but for their order. *)
Lemma qinv_perm s s' :
  qinv s -> (forall p, Q s' p ≡ₚ Q s p) -> idle_thread s' = idle_thread s ->
  (forall t, sched_policy (th s' t) = sched_policy (th s t) /\ priority (th s' t) = priority (th s t) /\
             desired_priority (th s' t) = desired_priority (th s t)) -> qinv s'.
Proof.
  intros [H1 H2 H3 H4] Hp Hi Ht. split.
  - intros p t. rw Hp /queueable. destruct (Ht t) as (-> & -> & _). apply H1.
  - intros p. rw Hp. apply H2.
  - intros t. rw /params_ok. destruct (Ht t) as (-> & -> & ->). apply H3.
  - rw Hi. destruct H4 as (i & ? & ?). exists i. by destruct (Ht i) as (-> & _).
Qed.

Lemma queued_perm s s' : (forall p, Q s' p ≡ₚ Q s p) -> forall t, queued s' t <-> queued s t.
Proof. intros Hp t. rw /queued. split; intros [p Ht]; exists p; [by rw -Hp|by rw Hp]. Qed.

Lemma qinv_head s c l p : qinv s -> Q s p = c :: l -> 0 <= p < 32 /\ priority (th s c) = p.
Proof. intros Hq E. destruct (q_mem _ Hq p c) as (? & ? & _); [rw E; set_solver|done]. Qed.

(** The demotion: from the head of queue [p] to the tail of queue [p - 1]. *)
Lemma qinv_demote s s' c l p :
  qinv s -> Q s p = c :: l -> 1 < p -> sched_policy (th s c) = SCHED_OTHER ->
  Q s' p = l -> Q s' (p - 1) = Q s (p - 1) ++ [c] -> (forall q, q <> p -> q <> p - 1 -> Q s' q = Q s q) ->
  idle_thread s' = idle_thread s -> priority (th s' c) = p - 1 ->
  (forall t, sched_policy (th s' t) = sched_policy (th s t) /\ desired_priority (th s' t) = desired_priority (th s t)) ->
  (forall t, t <> c -> priority (th s' t) = priority (th s t)) ->
  qinv s' /\ forall t, queued s' t <-> queued s t.
Proof.
  intros Hqi E Hp Hpol Hqp Hqp1 Hq Hi Hc Hpt Htp. destruct (qinv_head _ _ _ _ Hqi E) as [Hr Hpc].
  destruct Hqi as [H1 H2 H3 (i & Hid & Hipol)].
  assert (forall q, c ∈ Q s q -> q = p) as Hcq. { intros q Hcq. apply H1 in Hcq as (_ & Hcq & _). congruence. }
  pose proof (H2 p) as Hnd. rw E in Hnd. apply NoDup_cons in Hnd as [Hcl Hl].
  assert (forall q t, t ∈ Q s' q -> (t = c /\ q = p - 1) \/ (t <> c /\ t ∈ Q s q)) as Hin.
  { intros q t. destruct (decide (q = p)) as [->|]; [|destruct (decide (q = p - 1)) as [->|]].
    - rw Hqp E. intros Ht. right. split; [set_solver|set_solver].
    - rw Hqp1. intros [Ht| ->%list_elem_of_singleton]%elem_of_app; [right|by left]. split; [|done].
      intros ->. apply Hcq in Ht. lia.
    - rw Hq //. intros Ht. right. split; [|done]. intros ->. by apply Hcq in Ht. }
  split; [split|].
  - intros q t [[-> ->]|[Hne Ht]]%Hin.
    + rw Hc /queueable. destruct (Hpt c) as [-> _]. split_and!; [lia..|done|auto].
    + rw Htp // /queueable. destruct (Hpt t) as [-> _]. by apply H1.
  - intros q. destruct (decide (q = p)) as [->|]; [by rw Hqp|]. destruct (decide (q = p - 1)) as [->|]; [|rw Hq //].
    rw Hqp1. apply NoDup_app. split_and!; [done| |apply NoDup_singleton].
    intros t Ht ->%list_elem_of_singleton. apply Hcq in Ht. lia.
  - intros t. rw /params_ok. destruct (Hpt t) as [-> ->]. pose proof (H3 t) as Ht. rw /params_ok in Ht.
    destruct (decide (t = c)) as [->|]; [|by rw Htp]. rw Hpol in Ht |- *. rw Hc. lia.
  - exists i. rw Hi. destruct (Hpt i) as [-> _]. done.
  - intros t. split.
    + intros [q Ht]. apply Hin in Ht as [[-> _]|[_ Ht]]; [exists p; rw E; set_solver|by exists q].
    + intros [q Ht]. destruct (decide (t = c)) as [->|Hne]; [exists (p - 1); rw Hqp1; set_solver|].
      exists q. destruct (decide (q = p)) as [->|]; [rw Hqp; rw E in Ht; set_solver|].
      destruct (decide (q = p - 1)) as [->|]; [rw Hqp1; set_solver|by rw Hq].
Qed.

(** A queue read from its next entry. *)
Lemma cq_forward_run l : l <> [] -> exists l', cq_forward l = Ok l' /\ l' ≡ₚ l.
Proof. destruct l as [|x l]; [done|]. intros _. exists (l ++ [x]). split; [done|]. symmetry. apply Permutation_cons_append. Qed.

(** Threads changed in quanta, priority or accounting only. *)
Definition th_frame s s' : Prop :=
  frame s s' /\ current_thread s' = current_thread s /\ sched_queue_bitmap s' = sched_queue_bitmap s /\
  (forall t, state (th s' t) = state (th s t)) /\
  monotonic_usec s' = monotonic_usec s.

Lemma upd_quanta_frame s c g : let s' := s <| th ::= fun m => <[c := (m c) <| quanta_used ::= g |>]> m |> in
  th_frame s s' /\ (forall p, Q s' p = Q s p) /\
  (forall t, sched_policy (th s' t) = sched_policy (th s t) /\ priority (th s' t) = priority (th s t) /\
             desired_priority (th s' t) = desired_priority (th s t)).
Proof.
  intros s'. split_and!; [split_and!; [split|..]|..]; try done;
    intros t; rw ?(upd_th_fields sched_policy) ?(upd_th_fields blocking_rendez) ?(upd_th_fields state)
      ?(upd_th_fields priority) ?(upd_th_fields desired_priority) //.
Qed.

(** What the end of a turn does, from the state [s1] in which the turn is
    counted: the frame and the queues relative to [s1]. *)
Definition turned s s' (moved : bool) : Prop :=
  qinv s' /\ (forall t, queued s' t <-> queued s t) /\ th_frame s s' /\ (moved = false -> forall p, Q s' p ≡ₚ Q s p).

Lemma th_frame_trans s1 s2 s3 : th_frame s1 s2 -> th_frame s2 s3 -> th_frame s1 s3.
Proof.
  intros (F1 & C1 & B1 & S1 & N1) (F3 & C3 & B3 & S3 & N3). split_and!;
    [by apply (frame_trans _ s2)|congruence|congruence|intros t; by rw S3|congruence].
Qed.

(** The rotation both policies use. *)
Lemma rotate_spec s c p :
  qinv s -> 0 <= p < 32 -> Q s p <> [] ->
  exists s', (_ ← on_queue p cq_forward; upd_th c (fun x => x <| quanta_used := 0 |>)) s = Ok (tt, s') /\ turned s s' false.
Proof.
  intros Hqi Hp Hne. destruct (cq_forward_run (Q s p) Hne) as (l' & Hl & Hperm).
  rw {1}/mbind {1}/M_bind (on_queue_run s p _ l') //. eexists. split; [done|]. set s2 := setf _ s.
  destruct (upd_quanta_frame s2 c (fun _ => 0)) as (Hf2 & Hq2 & Ht2). set s3 := setf _ s2 in Hf2 Hq2 Ht2 |- *.
  assert (forall q, Q s3 q ≡ₚ Q s q) as Hq3.
  { intros q. rw Hq2 /s2 queue_upd. destruct (decide (q = p)) as [->|]; [by rw Hperm|done]. }
  split_and!; [|by apply queued_perm|..|done].
  - by apply (qinv_perm s).
  - destruct Hf2 as ([] & ? & ? & ? & ?). split_and!; [split|..]; done.
Qed.

Lemma demote_spec s c l p :
  qinv s -> Q s p = c :: l -> 1 < p -> sched_policy (th s c) = SCHED_OTHER ->
  exists s', (_ ← on_queue p dl_rem_head;
      _ ← upd_th c (fun x => x <| priority ::= fun p => p - 1 |>);
      _ ← on_queue (p - 1) (dl_add_tail c);
      upd_th c (fun x => x <| quanta_used := 0 |>)) s = Ok (tt, s') /\ turned s s' true /\
    Q s' p = l /\ Q s' (p - 1) = Q s (p - 1) ++ [c] /\ (forall q, q <> p -> q <> p - 1 -> Q s' q = Q s q).
Proof.
  intros Hqi E Hp Hpol. destruct (qinv_head _ _ _ _ Hqi E) as [Hr Hpc].
  assert (c ∉ Q s (p - 1)) as Hcn. { intros Hi. apply (q_mem _ Hqi) in Hi as (_ & Hi & _). lia. }
  rw {1}/mbind {1}/M_bind (on_queue_run s p _ l) //; [by rw E|].
  rw {1}/mbind {1}/M_bind {1}/upd_th {1}/modify. set s2 := setf _ (setf _ s).
  assert (Q s2 (p - 1) = Q s (p - 1)) as E2. { rw /s2 /= fn_lookup_insert_ne //. lia. }
  rw {1}/mbind {1}/M_bind (on_queue_run s2 (p - 1) _ (Q s (p - 1) ++ [c])); [lia|rw E2; by apply dl_add_tail_ok|].
  eexists. split; [done|]. set s3 := setf _ (setf _ s2).
  assert (Q s3 p = l /\ Q s3 (p - 1) = Q s (p - 1) ++ [c] /\ (forall q, q <> p -> q <> p - 1 -> Q s3 q = Q s q)) as (HQ1 & HQ2 & HQ3).
  { split_and!; [|by rw /s3 /= fn_lookup_insert|].
    - rw /s3 /= fn_lookup_insert_ne; [lia|]. by rw fn_lookup_insert.
    - intros q H1 H2. rw /s3 /= !fn_lookup_insert_ne //; congruence. }
  assert (forall {A} (f : Thread -> A), (forall x n, f (x <| quanta_used := n |>) = f x) ->
    (forall x g, f (x <| priority ::= g |>) = f x) -> forall t, f (th s3 t) = f (th s t)) as Hfields.
  { intros A f Hf1 Hf2 t. rw /s3 /=. destruct (decide (c = t)) as [->|]; reads; [by rw Hf1 Hf2|done]. }
  destruct (qinv_demote s s3 c l p) as [Hqi3 Hqd]; try done.
  - rw /s3. reads. lia.
  - intros t. split; by apply Hfields.
  - intros t Ht. rw /s3. by reads.
  - rw /turned /th_frame. split_and!; try done; [split; try done; intros t; by apply Hfields|intros t; by apply Hfields].
Qed.

Lemma end_turn_spec s c :
  qinv s -> (quanta_used (th s c) = SCHED_QUANTA_JIFFIES -> sched_policy (th s c) = SCHED_OTHER ->
    head (Q s (priority (th s c))) = Some c) ->
  exists s', end_turn c (th s c) s = Ok (tt, s') /\
    turned s s' (bool_decide (sched_policy (th s c) = SCHED_OTHER /\ quanta_used (th s c) = SCHED_QUANTA_JIFFIES /\ 1 < priority (th s c))).
Proof.
  intros Hqi Hhd. pose proof (q_params _ Hqi c) as Hpar. rw /params_ok in Hpar.
  assert (forall b, turned s s b) as Hrefl. { intros b. split_and!; try done. }
  rw /end_turn. destruct (sched_policy (th s c)) eqn:Epol; try (exists s; split; [done|apply Hrefl]).
  - rw bool_decide_false; [naive_solver|].
    replace ((16 <=? priority (th s c)) && (priority (th s c) <? 32)) with true by (symmetry; zcases; simpl; lia || done).
    rw {1}/mbind {1}/M_bind /= {1}/mbind {1}/M_bind {1}/gets.
    destruct (Q s (priority (th s c))) as [|y l] eqn:E; [exists s; by split|].
    apply rotate_spec; [done|lia|by rw E].
  - destruct (Z.eqb_spec (quanta_used (th s c)) SCHED_QUANTA_JIFFIES) as [Hqu|Hqu]; [|exists s; split; [done|apply Hrefl]].
    specialize (Hhd Hqu eq_refl).
    destruct (Q s (priority (th s c))) as [|y l] eqn:E; [done|]. injection Hhd as ->.
    destruct (Z.ltb_spec 1 (priority (th s c))).
    + rw bool_decide_true //. destruct (demote_spec s c l (priority (th s c)) Hqi E) as (s' & Hr & Ht & _); try done. by exists s'.
    + rw bool_decide_false; [naive_solver lia|]. apply rotate_spec; [done|lia|by rw E].
Qed.

Lemma resched_current_spec s c :
  qinv s -> placed s c ->
  exists s', resched_current c s = Ok (tt, s') /\ turned s s' (bool_decide (demotes (th s c))).
Proof.
  intros Hqi Hpl. destruct (upd_quanta_frame s c (fun q => q + 1)) as (Hf1 & Hq1 & Ht1).
  set s1 := s <| th ::= fun m => <[c := (m c) <| quanta_used ::= fun q => q + 1 |>]> m |> in Hf1 Hq1 Ht1.
  change (resched_current c s) with (end_turn c (th s1 c) s1).
  assert (th s1 c = (th s c) <| quanta_used ::= fun q => q + 1 |>) as Hc1. { rw /s1. by reads. }
  destruct (end_turn_spec s1 c) as (s' & Hr & Hi & Hqd & Hfr & Hp).
  - by apply (qinv_perm s).
  - rw Hc1 /= /SCHED_QUANTA_JIFFIES. intros Hqu Hpol. destruct Hpl as [Hpl|[Hpl|Hpl]]; [congruence|done|lia].
  - exists s'. split; [done|]. split_and!; [done| |by apply (th_frame_trans _ s1)|].
    + intros t. rw Hqd. by apply queued_perm.
    + intros Hd p. apply Hp. apply bool_decide_eq_false in Hd. apply bool_decide_eq_false.
      rw Hc1 /=. exact Hd.
Qed.

(** [Reschedule], for any caller in its place: what runs next is at the head
    of its queue or is the idle thread. *)
Lemma Reschedule_spec s c :
  qinv s -> current_thread s = Some c -> placed s c ->
  exists s' n, Reschedule s = Ok (tt, s') /\ current_thread s' = Some n /\ qinv s' /\ frame s s' /\
    (sched_policy (th s' n) = SCHED_IDLE \/ (queued s n /\ head (Q s' (priority (th s' n))) = Some n)) /\
    (forall t, queued s' t <-> queued s t) /\ (forall t, t <> n -> state (th s' t) = state (th s t)) /\
    state (th s' n) = THREAD_STATE_RUNNING /\
    sched_queue_bitmap s' = sched_queue_bitmap s /\
    exists s1, turned s s1 (bool_decide (demotes (th s c))) /\ pick_next s1 = Some n /\ (forall p, Q s' p = Q s1 p) /\
      resched_current c s = Ok (tt, s1).
Proof.
  intros Hqi Hcur Hpl. destruct (resched_current_spec s c Hqi Hpl) as (s1 & Hr1 & Htu).
  pose proof Htu as (Hqi1 & Hqd & (Hfr & Hcu & Hbm & Hst & Hnow) & _).
  rw /Reschedule {1}/mbind {1}/M_bind {1}/gets Hcur {1}/mbind {1}/M_bind Hr1 {1}/mbind {1}/M_bind {1}/gets.
  assert (exists n, pick_next s1 = Some n /\ (sched_policy (th s1 n) = SCHED_IDLE \/ head (Q s1 (priority (th s1 n))) = Some n))
    as (n & Hn & Hnp).
  { rw /pick_next. destruct (q_idle _ Hqi1) as (i & Hi & Hip). rw Hi.
    destruct (if sched_queue_bitmap s1 =? 0 then None else _) as [t|] eqn:E; [|exists i; by split; [|left]].
    exists t. split; [done|]. right. destruct (sched_queue_bitmap s1 =? 0); [done|].
    destruct (Q s1 (top_bit (sched_queue_bitmap s1) 32)) as [|y l] eqn:El; [done|]. injection E as ->.
    destruct (qinv_head _ _ _ _ Hqi1 El) as [_ ->]. by rw El. }
  rw Hn /upd_th. mrun.
  set s2 := setf _ (setf _ s1).
  set s' := if bool_decide (Some c = Some n) then s2 else
    s2 <| th ::= fun m => <[n := (m n) <| last_resched_time_usec := monotonic_usec s1 |>]> m |> <| current_thread := Some n |>.
  assert (forall {A} (f : Thread -> A), (forall x z, f (x <| last_resched_time_usec := z |>) = f x) ->
    (forall x g, f (x <| usage_usec ::= g |>) = f x) -> (forall x y, f (x <| state := y |>) = f x) ->
    forall t, f (th s' t) = f (th s1 t)) as Hfields.
  { intros A f H1 H2 H3 t. rw /s' /s2. destruct (bool_decide (Some c = Some n)); simpl.
    all: destruct (decide (n = t)) as [->|], (decide (c = t)) as [->|]; reads; rw ?H1 ?H2 ?H3 //. }
  assert (forall p, Q s' p = Q s1 p) as HQ. { rw /s'. by destruct (bool_decide (Some c = Some n)). }
  assert (current_thread s' = Some n /\ frame s1 s' /\ (forall t, state (th s' t) = if decide (t = n) then THREAD_STATE_RUNNING else state (th s1 t))
    /\ sched_queue_bitmap s' = sched_queue_bitmap s1) as (Hc' & Hf' & Hs' & Hb').
  { split_and!.
    - rw /s'. destruct (bool_decide (Some c = Some n)) eqn:E; [|done]. apply bool_decide_eq_true in E. simpl. congruence.
    - split; try (by rw /s'; destruct (bool_decide (Some c = Some n))); intros t; by apply Hfields.
    - intros t. rw /s' /s2. destruct (bool_decide (Some c = Some n)); simpl;
        destruct (decide (t = n)) as [E1|E1], (decide (c = t)) as [E2|E2]; try subst n; try subst c; by reads.
    - rw /s'. by destruct (bool_decide (Some c = Some n)). }
  exists s', n. split; [rw /s' /s2; by destruct (bool_decide (Some c = Some n))|]. split_and!; try done.
  - apply (qinv_perm s1); try done; [by intros; rw HQ|by rw (f_idle _ _ Hf')|]. intros t. split_and!; by apply Hfields.
  - by apply (frame_trans _ s1).
  - rw (Hfields _ sched_policy) // (Hfields _ priority) // HQ. destruct Hnp as [Hnp|Hnp]; [by left|right]. split; [|done].
    apply Hqd. exists (priority (th s1 n)). destruct (Q s1 (priority (th s1 n))); [done|]. injection Hnp as ->. set_solver.
  - intros t. rw -Hqd. by apply queued_perm; intros; rw HQ.
  - intros t Ht. by rw Hs' decide_False // Hst.
  - by rw Hs' decide_True.
  - congruence.
  - by exists s1.
Qed.

(** *** What runs next *)

(** C15: [Reschedule] when the bitmap describes the queues and the current
    thread's turn does not end in a demotion: the bitmap still describes the
    queues, no thread enters or leaves a queue, and what runs next is the head
    of the highest queue that is not empty, or the idle thread when all are. *)
Theorem Reschedule_picks_highest s c :
  qinv s -> bitmap_ok s -> current_thread s = Some c -> placed s c -> ~ demotes (th s c) ->
  exists s' n, Reschedule s = Ok (tt, s') /\ current_thread s' = Some n /\ bitmap_ok s' /\ qinv s' /\
    (forall p, Q s' p ≡ₚ Q s p) /\
    (top_thread s' n \/ (idle_thread s = Some n /\ forall q, 0 <= q < 32 -> Q s q = [])).
Proof.
  intros Hqi Hb Hcur Hpl Hnd.
  destruct (Reschedule_spec s c Hqi Hcur Hpl) as (s' & n & Hr & Hc & Hqi' & Hfr & _ & _ & _ & _ & Hbm & s1 & Htu & Hpk & HQ & _).
  rw bool_decide_false // in Htu. destruct Htu as (_ & _ & (Hfr1 & _ & Hbm1 & _) & Hperm). specialize (Hperm eq_refl).
  assert (forall s2, sched_queue_bitmap s2 = sched_queue_bitmap s -> (forall p, Q s2 p ≡ₚ Q s p) -> bitmap_ok s2) as Hbk.
  { intros s2 Hm2 Hp2 q. rw Hm2 (Hb q). split; intros [? Hne]; (split; [done|]); intros E; apply Hne; apply Permutation_nil_r.
    - by rw -(Hp2 q) E.
    - by rw (Hp2 q) E. }
  assert (forall p, Q s' p ≡ₚ Q s p) as Hperm' by (intros; by rw HQ).
  exists s', n. split_and!; try done; [by apply Hbk|].
  destruct (pick_next_spec s1 (Hbk s1 Hbm1 Hperm)) as [(t & Ht & q & Hq & Hh & Hhi)|[Hpi He]].
  - left. assert (t = n) as -> by congruence. exists q. split_and!; [lia..|by rw HQ|]. intros q' Hq'. rw HQ. by apply Hhi.
  - right. split; [rw -(f_idle _ _ Hfr1); congruence|]. intros q Hq. apply Permutation_nil_r. rw -Hperm He //.
Qed.

Lemma demote_run s c l p :
  qinv s -> Q s p = c :: l -> priority (th s c) = p -> demotes (th s c) ->
  exists s', resched_current c s = Ok (tt, s') /\ Q s' p = l /\ Q s' (p - 1) = Q s (p - 1) ++ [c] /\
    (forall q, q <> p -> q <> p - 1 -> Q s' q = Q s q).
Proof.
  intros Hqi HQ Hp (Hpol & Hqu & Hp1). destruct (upd_quanta_frame s c (fun q => q + 1)) as (_ & _ & Ht1).
  set s1 := s <| th ::= fun m => <[c := (m c) <| quanta_used ::= fun q => q + 1 |>]> m |> in Ht1.
  change (resched_current c s) with (end_turn c (th s1 c) s1).
  assert (th s1 c = (th s c) <| quanta_used ::= fun q => q + 1 |>) as Hc1. { rw /s1. by reads. }
  assert (qinv s1) as Hqi1 by (by apply (qinv_perm s)).
  destruct (demote_spec s1 c l p Hqi1 HQ) as (s' & Hr & _ & H1 & H2 & H3); [lia|by rw Hc1|].
  exists s'. split_and!; try done. rw /end_turn Hc1. cbn. rw Hpol Hp -Hr.
  destruct (Z.eqb_spec (quanta_used (th s c) + 1) SCHED_QUANTA_JIFFIES); [|done].
  destruct (Z.ltb_spec 1 p); [done|lia].
Qed.

Lemma top_bit_bit p : 0 <= p < 32 -> top_bit (bit p) 32 = p.
Proof.
  intros Hp. destruct (top_bit_spec (bit p) 32) as [[_ Hq]|(_ & Hb & _)].
  - specialize (Hq p ltac:(lia)). rw bit_testbit in Hq; [lia|]. by rw bool_decide_true in Hq.
  - rw bit_testbit in Hb; [lia|]. by apply bool_decide_eq_true in Hb.
Qed.

(** A demotion leaves the bitmap as it was: when the only thread ready, an
    ordinary thread above priority 1, has used its quanta, [Reschedule] moves
    it one queue down but runs the idle thread, and the next call would again,
    with the thread ready on a queue whose bit is clear. *)
Theorem Reschedule_demotion_idles s c i p :
  qinv s -> current_thread s = Some c -> sched_policy (th s c) = SCHED_OTHER -> priority (th s c) = p -> 1 < p ->
  quanta_used (th s c) = SCHED_QUANTA_JIFFIES - 1 -> idle_thread s = Some i ->
  Q s p = [c] -> (forall q, q <> p -> Q s q = []) -> sched_queue_bitmap s = bit p ->
  exists s', Reschedule s = Ok (tt, s') /\ current_thread s' = Some i /\ Q s' (p - 1) = [c] /\
    Z.testbit (sched_queue_bitmap s') (p - 1) = false /\ pick_next s' = Some i.
Proof.
  intros Hqi Hcur Hpol Hp Hp1 Hqu Hi HQp HQo Hb. destruct (qinv_head _ _ _ _ Hqi HQp) as [Hr _].
  assert (demotes (th s c)) as Hdem. { split_and!; [done|lia|lia]. }
  destruct (Reschedule_spec s c Hqi Hcur) as (s' & n & Hrun & Hc & _ & Hfr & _ & _ & _ & _ & Hbm & s1 & Htu & Hpk & HQ & Hrc).
  { right. left. by rw Hp HQp. }
  destruct (demote_run s c [] p Hqi HQp Hp Hdem) as (s2 & Hr2 & HQ2p & HQ2p1 & HQ2o).
  rw Hrc in Hr2. injection Hr2 as <-. rw HQo /= in HQ2p1; [lia|].
  assert (forall x, sched_queue_bitmap x = bit p -> Q x p = [] -> idle_thread x = Some i -> pick_next x = Some i) as Hpick.
  { intros x Hx HQx Hix. rw /pick_next Hx top_bit_bit // HQx Hix. by destruct (_ =? 0). }
  destruct Htu as (_ & _ & (Hf1 & _ & Hb1 & _) & _).
  assert (pick_next s1 = Some i) as Hpk1. { apply Hpick; [congruence|done|rw (f_idle _ _ Hf1) //]. }
  assert (n = i) as -> by congruence. exists s'. split_and!; try done.
  - by rw HQ.
  - rw Hbm Hb bit_testbit; [lia|]. apply bool_decide_eq_false. lia.
  - apply Hpick; [congruence|by rw HQ|rw (f_idle _ _ Hfr) //].
Qed.
End resched.

(** ** Ready and unready *)
Section ready.
Implicit Types (s : sched) (t : nat).

Lemma SchedUnready_run s t :
  qinv s -> t ∈ Q s (priority (th s t)) ->
  exists s', SchedUnready t s = Ok (tt, s') /\ qinv s' /\
    Q s' (priority (th s t)) = list_remove1 t (Q s (priority (th s t))) /\
    (forall q, q <> priority (th s t) -> Q s' q = Q s q) /\ frame s s' /\ current_thread s' = current_thread s /\
    (forall y, state (th s' y) = state (th s y)) /\ ~ queued s' t /\ quanta_used (th s' t) = 0 /\
    (forall y, y <> t -> queued s' y <-> queued s y) /\ (bitmap_ok s -> bitmap_ok s').
Proof.
  intros Hqi Ht. destruct (q_mem _ Hqi _ _ Ht) as (Hp & _ & Hqa). set p := priority (th s t) in Ht Hp |- *.
  destruct (unqueue_run s t p Hp Ht) as (s1 & Hr1 & HQp & HQo & Hbm & Hth & Hl & Ho & Hb & Hr & Hc & Hi & Hw).
  set other := bool_decide (sched_policy (th s t) = SCHED_OTHER).
  set g := fun x : Thread => (if other then x <| priority := desired_priority x |> else x) <| quanta_used := 0 |>.
  set s' := s1 <| th ::= fun m => <[t := g (m t)]> m |>.
  assert (SchedUnready t s = Ok (tt, s')) as Hrun.
  { rw /SchedUnready /upd_th. mrun. rw /s' /g /other. destruct Hqa as [E|[E|E]]; rw E Hr1 //. }
  assert (forall {A} (f : Thread -> A), (forall x z, f (x <| quanta_used := z |>) = f x) ->
    (forall x z, f (x <| priority := z |>) = f x) -> forall y, f (th s' y) = f (th s y)) as Hfields.
  { intros A f H1 H2 y. rw /s' /g /=. destruct (decide (t = y)) as [->|]; reads; rw ?H1 Hth; [|done].
    by destruct other; rw ?H2. }
  assert (forall y, y <> t -> th s' y = th s y) as Hny. { intros y Hy. rw /s' /=. reads. by rw Hth. }
  pose proof (q_nodup _ Hqi p) as Hnd.
  assert (forall q y, y ∈ Q s' q <-> y ∈ Q s q /\ (y <> t \/ q <> p)) as Hin.
  { intros q y. change (Q s' q) with (Q s1 q). destruct (decide (q = p)) as [->|].
    - rw HQp elem_of_list_remove1 //. naive_solver.
    - rw HQo //. naive_solver. }
  assert (forall q, t ∈ Q s q -> q = p) as Htp. { intros q Htq. apply (q_mem _ Hqi) in Htq as (_ & <- & _). done. }
  exists s'. split_and!; try done.
  - split.
    + intros q y [Hy Hne]%Hin. assert (y <> t) as Hyt. { intros ->. apply Htp in Hy. naive_solver. }
      rw Hny //. by apply (q_mem _ Hqi).
    + intros q. change (Q s' q) with (Q s1 q). destruct (decide (q = p)) as [->|]; [rw HQp; by apply NoDup_list_remove1|].
      rw HQo //. apply (q_nodup _ Hqi).
    + intros y. destruct (decide (y = t)) as [->|]; [|rw Hny //; apply (q_params _ Hqi)].
      pose proof (q_params _ Hqi t) as Hpar. rw /params_ok /s' /g /= in Hpar |- *. reads. rw Hth. rw /other.
      destruct Hqa as [E|[E|E]]; rw E in Hpar |- *; simpl; rw E; [lia..|]. simpl. lia.
    + destruct (q_idle _ Hqi) as (i & Hii & Hip). exists i. split; [change (idle_thread s1 = Some i); congruence|].
      by rw (Hfields _ sched_policy).
  - split; try done; intros y; by apply Hfields.
  - intros y. by apply Hfields.
  - intros [q [Hy Hne]%Hin]. apply Htp in Hy. naive_solver.
  - rw /s' /g /=. by reads.
  - intros y Hy. rw /queued. setoid_rewrite Hin. naive_solver.
  - intros Hbk. apply (bitmap_ok_rem s s' p t); try done.
Qed.

Lemma SchedReady_spec s t :
  qinv s -> ~ queued s t -> queueable (th s t) ->
  exists s', SchedReady t s = Ok (tt, s') /\ qinv s' /\
    Q s' (priority (th s t)) = Q s (priority (th s t)) ++ [t] /\
    (forall q, q <> priority (th s t) -> Q s' q = Q s q) /\ frame s s' /\ current_thread s' = current_thread s /\
    (forall y, state (th s' y) = state (th s y)) /\ priority (th s' t) = priority (th s t) /\
    (forall y, queued s' y <-> y = t \/ queued s y) /\ (forall y, y <> t -> th s' y = th s y) /\
    (bitmap_ok s -> bitmap_ok s').
Proof.
  intros Hqi Hnq Hqa. set p := priority (th s t).
  assert (0 <= p < 32) as Hp.
  { pose proof (q_params _ Hqi t) as Hpar. rw /params_ok in Hpar. rw /p. destruct Hqa as [E|[E|E]]; rw E in Hpar; lia. }
  assert (forall q, t ∉ Q s q) as Hnt. { intros q Hq. apply Hnq. by exists q. }
  pose proof (SchedReady_run s t Hqa Hp (Hnt p)) as Hrun. cbv zeta in Hrun. fold p in Hrun.
  set s' := setf _ _ in Hrun. exists s'.
  assert (forall q, Q s' q = if decide (q = p) then Q s p ++ [t] else Q s q) as HQ.
  { intros q. rw /s' /=. case_decide; subst; by reads. }
  assert (forall {A} (f : Thread -> A), (forall x z, f (x <| quanta_used := z |>) = f x) -> forall y, f (th s' y) = f (th s y)) as Hfields.
  { intros A f H1 y. rw /s' /=. destruct (decide (t = y)) as [->|]; reads; by rw ?H1. }
  assert (Q s' p = Q s p ++ [t]) as HQp. { by rw HQ decide_True. }
  assert (forall q, q <> p -> Q s' q = Q s q) as HQo. { intros q Hq. by rw HQ decide_False. }
  split_and!; try done.
  - split.
    + intros q y. rw HQ (Hfields _ priority) // /queueable (Hfields _ sched_policy) //.
      destruct (decide (q = p)) as [->|]; [|apply (q_mem _ Hqi)].
      intros [Hy| ->%list_elem_of_singleton]%elem_of_app; [by apply (q_mem _ Hqi)|done].
    + intros q. rw HQ. case_decide; [|apply (q_nodup _ Hqi)]. apply NoDup_app. split_and!; [apply (q_nodup _ Hqi)| |apply NoDup_singleton].
      intros y Hy ->%list_elem_of_singleton. by apply (Hnt p).
    + intros y. rw /params_ok (Hfields _ priority) // (Hfields _ sched_policy) // (Hfields _ desired_priority) //. apply (q_params _ Hqi).
    + destruct (q_idle _ Hqi) as (i & Hii & Hip). exists i. split; [done|]. by rw (Hfields _ sched_policy).
  - split; try done; intros y; by apply Hfields.
  - intros y. by apply Hfields.
  - by apply (Hfields _ priority).
  - intros y. rw /queued. setoid_rewrite HQ. split.
    + intros [q Hy]. case_decide; [|right; by exists q]. apply elem_of_app in Hy as [Hy|Hy%list_elem_of_singleton]; [right; by exists p|by left].
    + intros [->|[q Hy]]; [exists p; rw decide_True //; set_solver|]. exists q. case_decide; [subst; set_solver|done].
  - intros y Hy. rw /s' /=. by reads.
  - intros Hbk. apply (bitmap_ok_add s s' p t); try done.
Qed.

(** [SchedReady] and [SchedUnready] keep the bitmap in step with the
    queues: making a thread ready appends it to the queue of its priority and
    sets the bit, taking it off clears the bit with the last thread; no other
    thread moves. *)
Theorem sched_ready_unready_correct s t :
  qinv s -> bitmap_ok s -> queueable (th s t) ->
  (~ queued s t -> exists s', SchedReady t s = Ok (tt, s') /\ qinv s' /\ bitmap_ok s' /\
     Q s' (priority (th s t)) = Q s (priority (th s t)) ++ [t] /\ (forall q, q <> priority (th s t) -> Q s' q = Q s q)) /\
  (queued s t -> exists s', SchedUnready t s = Ok (tt, s') /\ qinv s' /\ bitmap_ok s' /\ ~ queued s' t /\
     (forall y, y <> t -> queued s' y <-> queued s y)).
Proof.
  intros Hqi Hb Hqa. split.
  - intros Hnq. destruct (SchedReady_spec s t Hqi Hnq Hqa) as (s' & ? & ? & ? & ? & _ & _ & _ & _ & _ & _ & ?). exists s'. by split_and!; auto.
  - intros [p Hp]. pose proof (q_mem _ Hqi _ _ Hp) as (_ & <- & _).
    destruct (SchedUnready_run s t Hqi Hp) as (s' & ? & ? & _ & _ & _ & _ & _ & ? & _ & ? & ?). exists s'. by split_and!; auto.
Qed.
End ready.
