(* ===== verification/Bkl.v ===== *)
(** * Bkl: the big kernel lock

    The kernel as a step system: threads enter and leave it, sleep, wake each
    other, are preempted, start and stop. The invariant gives mutual exclusion
    and that the assertions of proc/sleep_wakeup_bkl.c never fail. *)

From S2P Require Import Prelude Sched SchedQueue.
Local Open Scope Z_scope.
Local Open Scope kernel_scope.

(** Where a thread's code is: outside the kernel, inside it (past the call of
    [KernelLock], perhaps waiting there or asleep), or gone. *)
Inductive loc : Type := LUser | LKernel | LExited.
#[export] Instance loc_eq_dec : EqDecision loc.
Proof. solve_decision. Defined.

Definition asleep (s : sched) (t : nat) : Prop := exists r, t ∈ rendez s r.
Abbreviation B s := (bkl_blocked_list s).

Section bkl.
Implicit Types (s : sched) (t c r : nat) (pc : nat -> loc).

(** Everything but the place of the current thread; the thread [e] may be
    inside the kernel without holding or waiting for anything. *)
Record kcore s pc (e : option nat) : Prop := {
  k_q : qinv s;
  k_bnodup : NoDup (B s);
  k_rnodup : forall r, NoDup (rendez s r);
  k_bkl : forall t, t ∈ B s -> ~ queued s t /\ ~ asleep s t /\ queueable (th s t) /\ pc t = LKernel;
  k_rdz : forall r t, t ∈ rendez s r -> ~ queued s t /\ blocking_rendez (th s t) = Some r /\
            state (th s t) = THREAD_STATE_RENDEZ_BLOCKED /\ queueable (th s t) /\ pc t = LKernel;
  k_state : forall t, state (th s t) = THREAD_STATE_RENDEZ_BLOCKED ->
            exists r, blocking_rendez (th s t) = Some r /\ t ∈ rendez s r;
  k_lock : bkl_locked s = bool_decide (is_Some (bkl_owner s));
  k_free : bkl_owner s = None -> B s = [];
  k_owner : forall t, bkl_owner s = Some t -> pc t = LKernel /\ (t ∉ B s) /\ ~ asleep s t;
  k_kernel : forall t, pc t = LKernel -> e <> Some t -> bkl_owner s = Some t \/ t ∈ B s \/ asleep s t;
  k_exited : forall t, pc t = LExited -> e <> Some t -> ~ queued s t /\ sched_policy (th s t) <> SCHED_IDLE }.

(** The running thread is the idle one or at the head of its queue. *)
Definition on_cpu s c : Prop :=
  current_thread s = Some c /\
  (sched_policy (th s c) = SCHED_IDLE \/ head (Q s (priority (th s c))) = Some c).

Definition kinv s pc : Prop := kcore s pc None /\ exists c, on_cpu s c.

Lemma head_queued s c p : head (Q s p) = Some c -> queued s c.
Proof. intros Hh. exists p. destruct (Q s p); [done|]. injection Hh as ->. set_solver. Qed.

(** A running thread is not waiting for anything. *)
Lemma on_cpu_free s pc e c : kcore s pc e -> on_cpu s c -> (c ∉ B s) /\ ~ asleep s c.
Proof.
  intros Hk [_ Hc].
  split.
  - intros Hb. apply (k_bkl _ _ _ Hk) in Hb as (Hq & _ & Hqa & _). destruct Hc as [Hc|Hc%head_queued]; [|done].
    destruct Hqa as [E|[E|E]]; congruence.
  - intros [r Hr]. apply (k_rdz _ _ _ Hk) in Hr as (Hq & _ & _ & Hqa & _). destruct Hc as [Hc|Hc%head_queued]; [|done].
    destruct Hqa as [E|[E|E]]; congruence.
Qed.

Lemma on_cpu_owner s pc c : kcore s pc None -> on_cpu s c -> pc c = LKernel -> bkl_owner s = Some c.
Proof.
  intros Hk Hc Hpc. destruct (on_cpu_free _ _ _ _ Hk Hc) as [Hb Ha].
  by destruct (k_kernel _ _ _ Hk c Hpc) as [|[|]].
Qed.

Lemma on_cpu_placed s c : on_cpu s c -> placed s c.
Proof. intros [_ [?|?]]; [by left|by right; left]. Qed.

(** Switching threads. *)
Lemma resched_kinv s pc c :
  kcore s pc None -> current_thread s = Some c -> placed s c ->
  exists s', Reschedule s = Ok (tt, s') /\ kinv s' pc /\ frame s s'.
Proof.
  intros Hk Hcur Hpl. destruct (Reschedule_spec s c (k_q _ _ _ Hk) Hcur Hpl) as
    (s' & n & Hr & Hn & Hq & Hf & Hnp & Hqd & Hst & Hsn & _). exists s'. split; [done|]. split; [|done].
  destruct Hk as [K1 K2 K3 K4 K5 K6 K7 K8 K9 K10 K11].
  assert (forall t, queueable (th s' t) <-> queueable (th s t)) as Hqa. { intros t. by rw /queueable (f_policy _ _ Hf). }
  assert (forall t, asleep s' t <-> asleep s t) as Has. { intros t. by rw /asleep (f_rendez _ _ Hf). }
  assert (forall t, ~ queued s t -> queueable (th s t) -> t <> n) as Hne.
  { intros t H1 H2 ->. destruct Hnp as [Hnp|[Hnp _]]; [|done]. apply Hqa in H2. destruct H2 as [E|[E|E]]; congruence. }
  split; [split|].
  - done.
  - by rw (f_bkl _ _ Hf).
  - intros r. by rw (f_rendez _ _ Hf).
  - intros t. rw (f_bkl _ _ Hf) Hqd Has Hqa. apply K4.
  - intros r t. rw (f_rendez _ _ Hf) Hqd Hqa (f_blocking _ _ Hf). intros Ht. destruct (K5 r t Ht) as (H1 & H2 & H3 & H4 & H5).
    rw Hst; [by apply Hne|]. done.
  - intros t Ht. rw (f_blocking _ _ Hf) (f_rendez _ _ Hf). apply K6. rw -Hst //. intros ->. congruence.
  - by rw (f_locked _ _ Hf) (f_owner _ _ Hf).
  - rw (f_bkl _ _ Hf) (f_owner _ _ Hf). done.
  - intros t. rw (f_owner _ _ Hf) (f_bkl _ _ Hf) Has. apply K9.
  - intros t. rw (f_owner _ _ Hf) (f_bkl _ _ Hf) Has. apply K10.
  - intros t. rw Hqd (f_policy _ _ Hf). apply K11.
  - exists n. split; [done|]. by destruct Hnp as [?|[_ ?]]; [left|right].
Qed.

(** The three ways in which the current thread stops running, as the lists
    afterwards: on the lock's blocked list, on a rendez, or gone. *)
Definition parked s s1 pc c : Prop :=
  (B s1 = B s ++ [c] /\ rendez s1 = rendez s /\ bkl_owner s <> None /\ state (th s1 c) = THREAD_STATE_BKL_BLOCKED /\ pc c = LKernel) \/
  (exists r, B s1 = B s /\ rendez s1 r = rendez s r ++ [c] /\ (forall r', r' <> r -> rendez s1 r' = rendez s r') /\
     state (th s1 c) = THREAD_STATE_RENDEZ_BLOCKED /\ blocking_rendez (th s1 c) = Some r /\ pc c = LKernel) \/
  (B s1 = B s /\ rendez s1 = rendez s /\ state (th s1 c) = THREAD_STATE_EXITED /\ pc c <> LKernel).

Lemma parked_asleep s s1 pc c : parked s s1 pc c ->
  (forall t, t <> c -> asleep s1 t <-> asleep s t) /\ (forall t, t <> c -> t ∈ B s1 <-> t ∈ B s).
Proof.
  intros [(Hb & Hr & _)|[(r & Hb & Hr & Hro & _)|(Hb & Hr & _)]].
  - split; intros t Ht; [by rw /asleep Hr|rw Hb; set_solver].
  - split; intros t Ht; [|by rw Hb]. rw /asleep. split; intros [r' Ht'].
    + destruct (decide (r' = r)) as [->|]; [exists r; rw Hr in Ht'; set_solver|exists r'; by rw -Hro].
    + exists r'. destruct (decide (r' = r)) as [->|]; [rw Hr; set_solver|by rw Hro].
  - split; intros t Ht; [by rw /asleep Hr|by rw Hb].
Qed.

Lemma park_switch s s1 pc c :
  kcore s pc (Some c) -> on_cpu s c -> sched_policy (th s c) <> SCHED_IDLE -> bkl_owner s <> Some c ->
  (forall p, Q s1 p = Q s p) -> idle_thread s1 = idle_thread s -> current_thread s1 = Some c ->
  bkl_owner s1 = bkl_owner s -> bkl_locked s1 = bkl_locked s -> (forall t, t <> c -> th s1 t = th s t) ->
  sched_policy (th s1 c) = sched_policy (th s c) /\ priority (th s1 c) = priority (th s c) /\
    desired_priority (th s1 c) = desired_priority (th s c) ->
  parked s s1 pc c ->
  exists s', (_ ← SchedUnready c; Reschedule) s1 = Ok (tt, s') /\ kinv s' pc /\ frame s1 s'.
Proof.
  intros Hk Hon Hni Hno HQ Hid Hcur Hown Hlck Hth (Hpol & Hpri & Hdes) Hpark.
  destruct (on_cpu_free _ _ _ _ Hk Hon) as [HcB HcR]. destruct Hon as [_ [|Hhd]]; [done|].
  pose proof (head_queued _ _ _ Hhd) as Hcq.
  assert (c ∈ Q s (priority (th s c))) as HcQ. { destruct (Q s (priority (th s c))); [done|]. injection Hhd as ->. set_solver. }
  assert (qinv s1) as Hq1.
  { apply (qinv_perm s); [apply Hk|by intros; rw HQ|done|]. intros t. destruct (decide (t = c)) as [->|]; [done|by rw Hth]. }
  destruct (SchedUnready_run s1 c Hq1) as (s2 & Hr2 & Hq2 & _ & _ & Hf & Hc2 & Hst & Hnq & Hqu & Hqd & _); [by rw HQ Hpri|].
  destruct (parked_asleep _ _ _ _ Hpark) as [Has HB].
  assert (queueable (th s c)) as Hcqa. { by apply (q_mem _ (k_q _ _ _ Hk)) in HcQ as (_ & _ & ?). }
  assert (forall t, queueable (th s2 t) <-> queueable (th s t)) as Hqa.
  { intros t. rw /queueable (f_policy _ _ Hf). destruct (decide (t = c)) as [->|]; [by rw Hpol|by rw Hth]. }
  assert (forall t, asleep s2 t <-> asleep s1 t) as Has2. { intros t. by rw /asleep (f_rendez _ _ Hf). }
  assert (forall t, t <> c -> queued s2 t <-> queued s t) as Hqd'.
  { intros t Ht. rw Hqd // /queued. by setoid_rewrite HQ. }
  assert (forall t, t <> c -> state (th s2 t) = state (th s t) /\ blocking_rendez (th s2 t) = blocking_rendez (th s t)) as Hsb.
  { intros t Ht. rw Hst (f_blocking _ _ Hf) Hth //. }
  rw {1}/mbind {1}/M_bind Hr2.
  cut (kcore s2 pc None).
  { intros Hk2. destruct (resched_kinv s2 pc c Hk2) as (s' & ? & ? & ?); [by rw Hc2|by right; right|].
    exists s'. split_and!; try done. by apply (frame_trans _ s2). }
  destruct Hk as [K1 K2 K3 K4 K5 K6 K7 K8 K9 K10 K11]. split.
  - done.
  - rw (f_bkl _ _ Hf). destruct Hpark as [(-> & _)|[(r & -> & _)|(-> & _)]]; try done.
    apply NoDup_app. split_and!; [done|set_solver|apply NoDup_singleton].
  - intros r. rw (f_rendez _ _ Hf). destruct Hpark as [(_ & -> & _)|[(r' & _ & Hr & Hro & _)|(_ & -> & _)]]; try done.
    destruct (decide (r = r')) as [->|]; [|by rw Hro]. rw Hr. apply NoDup_app. split_and!; [done| |apply NoDup_singleton].
    intros t Ht ->%list_elem_of_singleton. apply HcR. by exists r'.
  - intros t Ht. rw Has2 Hqa. rw (f_bkl _ _ Hf) in Ht. destruct (decide (t = c)) as [->|Hne].
    + destruct Hpark as [(_ & Hr & _ & _ & Hpc)|[(r & Hb & _)|(Hb & _)]]; [|by rw Hb in Ht..].
      split_and!; try done. by rw /asleep Hr.
    + rw Hqd' // Has //. apply K4. by apply HB.
  - intros r t. rw (f_rendez _ _ Hf) Hqa. intros Ht. destruct (decide (t = c)) as [->|Hne].
    + destruct Hpark as [(_ & Hr & _)|[(r' & _ & Hr & Hro & Hs & Hbl & Hpc)|(_ & Hr & _)]].
      * exfalso. apply HcR. exists r. by rw -Hr.
      * rw (f_blocking _ _ Hf) Hst Hbl. split_and!; try done. destruct (decide (r = r')) as [->|]; [done|].
        exfalso. apply HcR. exists r. by rw -Hro.
      * exfalso. apply HcR. exists r. by rw -Hr.
    + destruct (Hsb t Hne) as [-> ->]. rw Hqd' //. apply K5.
      destruct Hpark as [(_ & Hr & _)|[(r' & _ & Hr & Hro & _)|(_ & Hr & _)]]; [by rw -Hr| |by rw -Hr].
      destruct (decide (r = r')) as [->|]; [rw Hr in Ht; set_solver|by rw -Hro].
  - intros t Ht. rw (f_blocking _ _ Hf) (f_rendez _ _ Hf). rw Hst in Ht. destruct (decide (t = c)) as [->|Hne].
    + destruct Hpark as [(_ & _ & _ & Hs & _)|[(r' & _ & Hr & _ & _ & Hbl & _)|(_ & _ & Hs & _)]]; try congruence.
      exists r'. split; [done|]. rw Hr. set_solver.
    + rw Hth // in Ht. destruct (K6 t Ht) as (r & Hbl & Hr). exists r. rw Hth //. split; [done|].
      destruct Hpark as [(_ & Hr' & _)|[(r' & _ & Hr' & Hro & _)|(_ & Hr' & _)]]; [by rw Hr'| |by rw Hr'].
      destruct (decide (r = r')) as [->|]; [rw Hr'; set_solver|by rw Hro].
  - by rw (f_locked _ _ Hf) (f_owner _ _ Hf) Hlck Hown.
  - rw (f_owner _ _ Hf) (f_bkl _ _ Hf) Hown. intros Hn. specialize (K8 Hn).
    by destruct Hpark as [(_ & _ & Hno' & _)|[(r & -> & _)|(-> & _)]].
  - intros t. rw (f_owner _ _ Hf) (f_bkl _ _ Hf) Has2 Hown. intros Ht. assert (t <> c) by congruence.
    rw Has // HB //. by apply K9.
  - intros t Hpc _. rw (f_owner _ _ Hf) (f_bkl _ _ Hf) Has2 Hown. destruct (decide (t = c)) as [->|Hne].
    + destruct Hpark as [(-> & _)|[(r & _ & Hr & _)|(_ & _ & _ & ?)]]; [right; left; set_solver|right; right|done].
      exists r. rw Hr. set_solver.
    + rw Has // HB //. apply K10; congruence.
  - intros t Hpc _. rw (f_policy _ _ Hf). destruct (decide (t = c)) as [->|Hne]; [by rw Hpol|]. rw Hqd' // Hth //. apply K11; congruence.
Qed.

(** Making the waiting thread [t] ready, with the lock its own. *)
Lemma hand_to s pc c t l :
  kcore s pc None -> on_cpu s c -> bkl_owner s = Some c -> B s = t :: l ->
  exists s', SchedReady t (s <| bkl_blocked_list := l |> <| th ::= fun m => <[t := (m t) <| state := THREAD_STATE_READY |>]> m |>
                             <| bkl_owner := Some t |>) = Ok (tt, s') /\
    kcore s' pc (Some c) /\ on_cpu s' c /\ bkl_owner s' = Some t /\ t <> c /\ th s' c = th s c /\ rendez s' = rendez s /\
    timing_wheel s' = timing_wheel s.
Proof.
  intros Hk Hon Hown HB. destruct (on_cpu_free _ _ _ _ Hk Hon) as [HcB HcR].
  set s0 := s <| bkl_blocked_list := l |> <| th ::= fun m => <[t := (m t) <| state := THREAD_STATE_READY |>]> m |> <| bkl_owner := Some t |>.
  assert (t <> c) as Htc. { intros ->. apply HcB. rw HB. set_solver. }
  pose proof Hk as [K1 K2 K3 K4 K5 K6 K7 K8 K9 K10 K11]. rw HB in K2. apply NoDup_cons in K2 as [Htl Hl].
  destruct (K4 t) as (Htq & Hta & Htqa & Htpc); [rw HB; set_solver|].
  assert (forall {A} (f : Thread -> A), (forall x z, f (x <| state := z |>) = f x) -> forall y, f (th s0 y) = f (th s y)) as Hfields.
  { intros A f Hf y. rw /s0 /=. destruct (decide (t = y)) as [->|]; reads; by rw ?Hf. }
  assert (qinv s0) as Hq0. { apply (qinv_perm s); try done. intros y. split_and!; by apply Hfields. }
  destruct (SchedReady_spec s0 t Hq0) as (s' & Hr & Hq' & HQt & HQo & Hf & Hcu & Hst & Hpr & Hqd & Hth & _);
    [done|by rw /queueable (Hfields _ sched_policy)|].
  exists s'. split; [done|].
  assert (forall y, queueable (th s' y) <-> queueable (th s y)) as Hqa.
  { intros y. by rw /queueable (f_policy _ _ Hf) (Hfields _ sched_policy). }
  assert (forall y, asleep s' y <-> asleep s y) as Has. { intros y. by rw /asleep (f_rendez _ _ Hf). }
  assert (forall y, y <> t -> queued s' y <-> queued s y) as Hqd'. { intros y Hy. rw Hqd. naive_solver. }
  assert (forall y, y <> t -> th s' y = th s y) as Hth'. { intros y Hy. rw Hth // /s0 /=. by reads. }
  assert (forall y, y ∈ l -> y ∈ B s) as Hsub. { rw HB. set_solver. }
  split_and!; [split| | | | | |].
  - done.
  - by rw (f_bkl _ _ Hf).
  - intros r. rw (f_rendez _ _ Hf). apply K3.
  - intros y. rw (f_bkl _ _ Hf) Hqa Has. intros Hy. rw Hqd'; [intros ->; done|]. by apply K4, Hsub.
  - intros r y. rw (f_rendez _ _ Hf). intros Hy. destruct (K5 r y Hy) as (H1 & H2 & H3 & H4 & H5).
    assert (y <> t) as Hyt. { intros ->. apply Hta. by exists r. } rw Hqd' // Hqa Hth' //.
  - intros y Hy. rw (f_rendez _ _ Hf). destruct (decide (y = t)) as [->|Hyt]; [|rw Hth' // in Hy |- *; by apply K6].
    rw Hst /s0 /= fn_lookup_insert // in Hy.
  - rw (f_locked _ _ Hf) (f_owner _ _ Hf). change (bkl_locked s0) with (bkl_locked s). by rw K7 Hown.
  - by rw (f_owner _ _ Hf).
  - intros y. rw (f_owner _ _ Hf) (f_bkl _ _ Hf) Has. intros [= <-]. by split_and!.
  - intros y Hpc Hne. rw (f_owner _ _ Hf) (f_bkl _ _ Hf) Has. change (bkl_owner s0) with (Some t). change (B s0) with l.
    destruct (K10 y Hpc) as [Ho|[Hy|Hy]]; [done|congruence| |by right; right].
    rw HB in Hy. apply elem_of_cons in Hy as [->|Hy]; [by left|by right; left].
  - intros y Hpc Hne. assert (y <> t) as Hyt by congruence. rw Hqd' // Hth' //. by apply K11.
  - destruct Hon as [Hcur Hpl]. split; [by rw Hcu|]. rw (f_policy _ _ Hf) (Hfields _ sched_policy) //.
    destruct Hpl as [|Hhd]; [by left|right]. rw Hth' //; [congruence|].
    destruct (decide (priority (th s c) = priority (th s0 t))) as [E|E]; [|by rw HQo].
    rw E HQt. change (Q s0 (priority (th s0 t))) with (Q s (priority (th s0 t))). rw -E.
    by destruct (Q s (priority (th s c))).
  - by rw (f_owner _ _ Hf).
  - done.
  - by rw Hth'; [congruence|].
  - by rw (f_rendez _ _ Hf).
  - by rw (f_wheel _ _ Hf).
Qed.

Lemma hand_over_spec s pc c :
  kcore s pc None -> on_cpu s c -> bkl_owner s = Some c ->
  exists s', bkl_hand_over s = Ok (tt, s') /\ kcore s' pc (Some c) /\ on_cpu s' c /\ bkl_owner s' <> Some c /\
    th s' c = th s c /\ rendez s' = rendez s /\ timing_wheel s' = timing_wheel s.
Proof.
  intros Hk Hon Hown. rw /bkl_hand_over {1}/mbind {1}/M_bind {1}/gets. destruct (B s) as [|t l] eqn:HB.
  - eexists. split; [done|]. split_and!; try done. destruct Hk. split; try done; [by apply (qinv_perm s)|..].
    + intros y Hpc Hne. rw /= in Hne |- *. destruct (k_kernel0 y Hpc) as [|]; [done|congruence|by right].
    + intros y Hpc _. by apply k_exited0.
  - rw {1}/mbind {1}/M_bind {1}/on_bkl {1}/update HB /upd_th. mrun.
    destruct (hand_to s pc c t l Hk Hon Hown HB) as (s' & Hr & Hk' & Hon' & Ho & Htc & Hth & Hrz & Hw).
    exists s'. split; [exact Hr|]. split_and!; try done. congruence.
Qed.

(** *** Entering and leaving the kernel *)
Lemma kcore_pc s pc pc' e e' :
  kcore s pc e -> (forall t, pc' t = LKernel -> pc t <> LKernel -> e' = Some t) ->
  (forall t, pc t = LKernel -> pc' t <> LKernel -> (t ∉ B s) /\ ~ asleep s t /\ bkl_owner s <> Some t) ->
  (forall t, e = Some t -> e' = Some t \/ pc' t <> LKernel) ->
  (forall t, pc' t = LExited -> e' <> Some t -> pc t = LExited /\ e <> Some t) -> kcore s pc' e'.
Proof.
  intros [] H1 H2 H3 H4. split; try done.
  - intros t Ht. destruct (k_bkl0 t Ht) as (? & ? & ? & Hpc). split_and!; try done.
    destruct (decide (pc' t = LKernel)); [done|]. by destruct (H2 t Hpc).
  - intros r t Ht. destruct (k_rdz0 r t Ht) as (? & ? & ? & ? & Hpc). split_and!; try done.
    destruct (decide (pc' t = LKernel)); [done|]. destruct (H2 t Hpc) as (_ & Hn & _); [done|]. exfalso. apply Hn. by exists r.
  - intros t Ht. destruct (k_owner0 t Ht) as (Hpc & ? & ?). split_and!; try done.
    destruct (decide (pc' t = LKernel)); [done|]. by destruct (H2 t Hpc) as (_ & _ & ?).
  - intros t Hpc' Hne. destruct (decide (pc t = LKernel)) as [Hpc|Hpc]; [|by rw (H1 t) in Hne].
    apply k_kernel0; [done|]. intros ->. destruct (H3 t eq_refl); congruence.
  - intros t Hx Hne. destruct (H4 t Hx Hne). by apply k_exited0.
Qed.

Lemma KernelLock_spec s pc c :
  kinv s pc -> on_cpu s c -> pc c <> LKernel -> (sched_policy (th s c) <> SCHED_IDLE \/ bkl_locked s = false) ->
  exists s', KernelLock s = Ok (tt, s') /\ kinv s' (<[c := LKernel]> pc) /\
    (bkl_locked s = false -> current_thread s' = Some c /\ bkl_owner s' = Some c).
Proof.
  intros [Hk _] Hon Hpc Hid. destruct (on_cpu_free _ _ _ _ Hk Hon) as [HcB HcR]. pose proof Hon as [Hcur Hpl].
  rw /KernelLock /get_current_thread. mrun. rw Hcur.
  assert (kcore s (<[c := LKernel]> pc) (Some c)) as Hk'.
  { apply (kcore_pc s pc _ None); try done.
    - intros t. destruct (decide (c = t)) as [->|]; [done|]. by reads.
    - intros t. destruct (decide (c = t)) as [->|]; by reads.
    - intros t. destruct (decide (c = t)) as [->|]; by reads. }
  destruct (bkl_locked s) eqn:Elk; simpl; last first.
  - eexists. split; [done|]. split; [|done]. split; [|by exists c].
    pose proof (k_lock _ _ _ Hk) as Hl. rw Elk in Hl. symmetry in Hl. apply bool_decide_eq_false in Hl.
    assert (bkl_owner s = None) as Hno by (destruct (bkl_owner s); [destruct Hl; eauto|done]).
    pose proof (k_free _ _ _ Hk Hno) as HB. destruct Hk'. split; try done; [by apply (qinv_perm s)|..].
    + intros t [= <-]. split_and!; [by reads|done..].
    + intros t Hpc' _. simpl. destruct (decide (t = c)) as [->|]; [by left|].
      destruct (k_kernel0 t Hpc') as [|]; [congruence|congruence|by right].
    + intros t Hx _. apply k_exited0; [done|]. intros [= <-]. by rw fn_lookup_insert in Hx.
  - destruct Hid as [Hid|]; [|done]. rw /on_bkl. mrun. rw dl_add_tail_ok //.
    edestruct (park_switch s) as (s' & Hr & Hi' & _); [exact Hk'|exact Hon|exact Hid|..|exists s'; split; [exact Hr|by split]].
    all: try done.
    + intros Ho. apply Hpc. by destruct (k_owner _ _ _ Hk c Ho).
    + intros t Ht. simpl. by reads.
    + simpl. by reads.
    + left. simpl. reads. split_and!; try done. pose proof (k_lock _ _ _ Hk) as Hl. rw Elk in Hl. symmetry in Hl.
      apply bool_decide_eq_true in Hl as [? ->]. done.
Qed.

Lemma KernelUnlock_spec s pc c :
  kinv s pc -> on_cpu s c -> pc c = LKernel ->
  exists s', KernelUnlock s = Ok (tt, s') /\ kinv s' (<[c := LUser]> pc).
Proof.
  intros [Hk _] Hon Hpc. pose proof (on_cpu_owner _ _ _ Hk Hon Hpc) as Hown.
  assert (forall s1, kcore s1 pc (Some c) -> on_cpu s1 c -> bkl_owner s1 <> Some c -> kcore s1 (<[c := LUser]> pc) None) as Hpc'.
  { intros s1 Hk1 Hon1 Ho1. destruct (on_cpu_free _ _ _ _ Hk1 Hon1). apply (kcore_pc s1 pc _ (Some c)); try done.
    - intros t. destruct (decide (c = t)) as [->|]; by reads.
    - intros t. destruct (decide (c = t)) as [->|]; by reads.
    - intros t [= <-]. right. by reads.
    - intros t. destruct (decide (c = t)) as [->|Hne]; reads; [done|]. intros ? _. split; [done|congruence]. }
  destruct (hand_over_spec s pc c Hk Hon Hown) as (s1 & Hr & Hk1 & Hon1 & Ho1 & _).
  pose proof (Hpc' s1 Hk1 Hon1 Ho1) as Hk2. pose proof (k_lock _ _ _ Hk) as Hl. rw Hown bool_decide_true // in Hl.
  rw /KernelUnlock {1}/mbind {1}/M_bind {1}/gets Hl {1}/mbind {1}/M_bind {1}/gets.
  rw /bkl_hand_over {1}/mbind {1}/M_bind {1}/gets in Hr. destruct (B s) as [|t l] eqn:HB.
  - exists s1. split; [exact Hr|]. split; [done|by exists c].
  - destruct (resched_kinv s1 (<[c := LUser]> pc) c Hk2) as (s' & Hr' & Hi' & _); [by destruct Hon1|by apply on_cpu_placed|].
    exists s'. split; [|done]. rw /on_bkl /upd_th in Hr |- *. mrun_in Hr. mrun. rw HB in Hr |- *. simpl in Hr |- *.
    destruct s as [? ? ? lk ? bl ? ? ? ? ? ?]. simpl in Hl, HB. subst lk bl. rw /= in Hr |- *. rw Hr. exact Hr'.
Qed.

(** *** Sleeping *)

(** Putting the current thread to sleep on [r], in any state [s2] that differs
    from the one after the hand-over in the thread's own fields only. *)
Lemma sleep_switch s1 s2 pc c r :
  kcore s1 pc (Some c) -> on_cpu s1 c -> sched_policy (th s1 c) <> SCHED_IDLE -> bkl_owner s1 <> Some c -> pc c = LKernel ->
  s2 <| timing_wheel := timing_wheel s1 |> <| th := th s1 |> = s1 <| rendez ::= fun m => <[r := m r ++ [c]]> m |> ->
  (forall y, y <> c -> th s2 y = th s1 y) ->
  state (th s2 c) = THREAD_STATE_RENDEZ_BLOCKED -> blocking_rendez (th s2 c) = Some r ->
  sched_policy (th s2 c) = sched_policy (th s1 c) -> priority (th s2 c) = priority (th s1 c) ->
  desired_priority (th s2 c) = desired_priority (th s1 c) ->
  exists s', (_ ← SchedUnready c; Reschedule) s2 = Ok (tt, s') /\ kinv s' pc /\ frame s2 s' /\
    rendez s2 r = rendez s1 r ++ [c] /\ (forall r', r' <> r -> rendez s2 r' = rendez s1 r').
Proof.
  intros Hk Hon Hid Hno Hpc Heq Hth' Hst Hbl Hpol Hpri Hdes.
  assert (rendez s2 = <[r := rendez s1 r ++ [c]]> (rendez s1)) as Hr by apply (f_equal rendez Heq).
  edestruct (park_switch s1 s2) as (s' & Hrun & Hi & Hf); [exact Hk|exact Hon|exact Hid|exact Hno|..].
  9: { exists s'. split_and!; try done; [by rw Hr; reads|]. intros r' Hr'. rw Hr. by reads. }
  - intros p. exact (f_equal (fun s => sched_queue s p) Heq).
  - exact (f_equal idle_thread Heq).
  - transitivity (current_thread s1); [exact (f_equal current_thread Heq)|apply Hon].
  - exact (f_equal bkl_owner Heq).
  - exact (f_equal bkl_locked Heq).
  - done.
  - done.
  - right; left. exists r. split_and!; try done; [exact (f_equal bkl_blocked_list Heq)|by rw Hr; reads|].
    intros r' Hr'. rw Hr. by reads.
Qed.

Lemma assert_owner_ok s pc e c : kcore s pc e -> bkl_owner s = Some c -> assert_owner c s = Ok (tt, s).
Proof.
  intros Hk Ho. rw /assert_owner. mrun. rw (k_lock _ _ _ Hk) Ho. rw bool_decide_true //. by rw bool_decide_true.
Qed.

Lemma TaskSleep_spec s pc c r :
  kinv s pc -> on_cpu s c -> pc c = LKernel -> sched_policy (th s c) <> SCHED_IDLE ->
  exists s', TaskSleep r s = Ok (tt, s') /\ kinv s' pc /\
    rendez s' r = rendez s r ++ [c] /\ (forall r', r' <> r -> rendez s' r' = rendez s r').
Proof.
  intros [Hk _] Hon Hpc Hid. pose proof (on_cpu_owner _ _ _ Hk Hon Hpc) as Hown.
  destruct (hand_over_spec s pc c Hk Hon Hown) as (s1 & Hr1 & Hk1 & Hon1 & Ho1 & Hth1 & Hrz1 & _).
  destruct (on_cpu_free _ _ _ _ Hk1 Hon1) as [_ Hns].
  set s2 := s1 <| rendez ::= fun m => <[r := m r ++ [c]]> m |>
               <| th ::= fun m => <[c := (m c) <| state := THREAD_STATE_RENDEZ_BLOCKED |> <| blocking_rendez := Some r |>]> m |>.
  edestruct (sleep_switch s1 s2 pc c r Hk1 Hon1) as (s' & Hrun & Hi & Hf & Hrr & Hro);
    [by rw Hth1|exact Ho1|exact Hpc| | | | | | | |].
  - by destruct s1.
  - intros y Hy. rw /s2 /=. by reads.
  - rw /s2 /=. by reads.
  - rw /s2 /=. by reads.
  - rw /s2 /=. by reads.
  - rw /s2 /=. by reads.
  - rw /s2 /=. by reads.
  - exists s'. rw (f_rendez _ _ Hf) -Hrz1. split; [|done].
    rw /TaskSleep /get_current_thread {1}/mbind {1}/M_bind {1}/mbind {1}/M_bind {1}/gets (proj1 Hon) {1}/mret {1}/M_ret.
    rw {1}/mbind {1}/M_bind (assert_owner_ok _ _ _ _ Hk Hown) {1}/mbind {1}/M_bind Hr1 /on_rendez /upd_th.
    rw {1}/mbind {1}/M_bind {1}/update dl_add_tail_ok; [intros Hin; apply Hns; by exists r|exact Hrun].
Qed.

(** The slot of the timing wheel a sleep from [s] uses. *)
Definition sleep_slot s (ts : Z * Z) : Z :=
  wheel_slot (sint64 (hardclock s + (ts.1 * JIFFIES_PER_SECOND + Z.quot ts.2 NANOSECONDS_PER_JIFFY))).

Lemma hand_over_clock s s' : bkl_hand_over s = Ok (tt, s') -> hardclock s' = hardclock s.
Proof.
  rw /bkl_hand_over. mrun. destruct (B s) as [|t l] eqn:E; [by intros [= <-]|].
  rw /on_bkl. mrun. rw E /=. rw /SchedReady /upd_th /on_queue /set_bits. mrun. simpl. reads.
  destruct (sched_policy (th s t)); simpl; reads; try done; try (by intros [= <-]);
    destruct (0 <=? _); destruct (_ <? 32); simpl; try done; destruct (dl_add_tail _ _); simpl; try done; by intros [= <-].
Qed.

Lemma TaskSleepInterruptible_spec s pc c r ts flags :
  kinv s pc -> on_cpu s c -> pc c = LKernel -> sched_policy (th s c) <> SCHED_IDLE ->
  (forall x, ts = Some x -> 0 <= sleep_slot s x /\ c ∉ timing_wheel s (sleep_slot s x)) ->
  exists s' res, TaskSleepInterruptible r ts flags s = Ok (res, s') /\ kinv s' pc /\
    (TaskCheckInterruptible (th s c) flags = true -> res = Some EINTR /\ s' = s) /\
    (TaskCheckInterruptible (th s c) flags = false ->
       res = None /\ rendez s' r = rendez s r ++ [c] /\ (forall r', r' <> r -> rendez s' r' = rendez s r')).
Proof.
  intros [Hk Hcpu] Hon Hpc Hid Hts. pose proof (on_cpu_owner _ _ _ Hk Hon Hpc) as Hown.
  rw /TaskSleepInterruptible /get_current_thread {1}/mbind {1}/M_bind {1}/mbind {1}/M_bind {1}/gets (proj1 Hon) {1}/mret {1}/M_ret.
  rw {1}/mbind {1}/M_bind (assert_owner_ok _ _ _ _ Hk Hown) {1}/mbind {1}/M_bind {1}/gets.
  destruct (TaskCheckInterruptible (th s c) flags); [by exists s, (Some EINTR)|].
  destruct (hand_over_spec s pc c Hk Hon Hown) as (s1 & Hr1 & Hk1 & Hon1 & Ho1 & Hth1 & Hrz1 & Hw1).
  pose proof (hand_over_clock _ _ Hr1) as Hclk. destruct (on_cpu_free _ _ _ _ Hk1 Hon1) as [_ Hns].
  rw {1}/mbind {1}/M_bind Hr1 /on_rendez /on_wheel /upd_th.
  set g := fun x : Thread => x <| state := THREAD_STATE_RENDEZ_BLOCKED |> <| intr_flags := flags |> <| blocking_rendez := Some r |>.
  assert (forall s2 x, s2 <| timing_wheel := timing_wheel s1 |> <| th := th s1 |> = s1 <| rendez ::= fun m => <[r := m r ++ [c]]> m |> ->
      (forall y, y <> c -> th s2 y = th s1 y) -> th s2 c = g x ->
      sched_policy x = sched_policy (th s1 c) -> priority x = priority (th s1 c) -> desired_priority x = desired_priority (th s1 c) ->
      exists s' res, (_ ← SchedUnready c; _ ← Reschedule; mret None) s2 = Ok (res, s') /\ kinv s' pc /\
        (false = true -> res = Some EINTR /\ s' = s) /\
        (false = false -> res = None /\ rendez s' r = rendez s r ++ [c] /\ (forall r', r' <> r -> rendez s' r' = rendez s r'))) as Hgo.
  { intros s2 x Heq Hy Hx H1 H2 H3. edestruct (sleep_switch s1 s2 pc c r Hk1 Hon1) as (s' & Hrun & Hi & Hf & Hrr & Hro);
      [by rw Hth1|exact Ho1|exact Hpc|exact Heq|exact Hy|by rw Hx|by rw Hx|by rw Hx|by rw Hx|by rw Hx|].
    exists s', None. rw (f_rendez _ _ Hf) -Hrz1. split_and!; try done.
    mrun_in Hrun. mrun. destruct (SchedUnready c s2) as [[[] s3]| |]; try done. by destruct (Reschedule s3) as [[[] s4]| |]; simplify_eq. }
  assert (c ∉ rendez s1 r) as Hnr. { intros Hin. apply Hns. by exists r. }
  destruct ts as [[sec nsec]|].
  - specialize (Hts _ eq_refl). rw /sleep_slot /= -Hw1 -Hclk in Hts. destruct Hts as [Hpos Hts]. set e := sint64 _ in Hpos, Hts.
    assert (wheel_slot e < JIFFIES_PER_SECOND) as Hlt by (pose proof (Z.rem_bound_abs e JIFFIES_PER_SECOND); rw /wheel_slot /JIFFIES_PER_SECOND in H |- *; lia).
    set x := (th s1 c) <| timer_thread := true |> <| timer_arg := Some r |> <| timer_armed := true |> <| timer_expiration := e |>.
    edestruct (Hgo (s1 <| th ::= fun m => <[c := x]> m |> <| timing_wheel ::= fun m => <[wheel_slot e := m (wheel_slot e) ++ [c]]> m |>
                     <| rendez ::= fun m => <[r := m r ++ [c]]> m |> <| th ::= fun m => <[c := g (m c)]> m |>) x) as (s' & res & Hrun & ?); try done.
    { intros y Hy. simpl. by reads. }
    { simpl. by reads. }
    exists s', res. split; [|done]. rw -Hrun. mrun. rw -/e /=. destruct (Z.leb_spec 0 (wheel_slot e)); [|lia]. destruct (Z.ltb_spec (wheel_slot e) JIFFIES_PER_SECOND); [|lia].
    rw /= dl_add_tail_ok //= dl_add_tail_ok //=.
  - destruct (Hgo (s1 <| rendez ::= fun m => <[r := m r ++ [c]]> m |> <| th ::= fun m => <[c := g (m c)]> m |>) (th s1 c))
      as (s' & res & Hrun & ?); try done.
    { intros y Hy. simpl. by reads. }
    { simpl. by reads. }
    exists s', res. split; [|done]. rw -Hrun. mrun. simpl. by rw dl_add_tail_ok.
Qed.

(** *** Waking *)

(** [t] moved from the rendez [r], whose list becomes [l], to the end of the
    lock's blocked list. *)
Definition woken s r t (l : list nat) : sched :=
  s <| rendez ::= fun m => <[r := l]> m |> <| th ::= fun m => <[t := (m t) <| blocking_rendez := None |>]> m |>
    <| bkl_blocked_list ::= fun b => b ++ [t] |> <| th ::= fun m => <[t := (m t) <| state := THREAD_STATE_BKL_BLOCKED |>]> m |>.

Lemma woken_fields {A} (f : Thread -> A) s r t l :
  (forall x z, f (x <| blocking_rendez := z |>) = f x) -> (forall x z, f (x <| state := z |>) = f x) ->
  forall y, f (th (woken s r t l) y) = f (th s y).
Proof. intros H1 H2 y. rw /woken /=. destruct (decide (t = y)) as [->|]; reads; by rw ?H1 ?H2 ?H1. Qed.

Lemma kcore_one_rendez s pc e r r' t : kcore s pc e -> t ∈ rendez s r -> t ∈ rendez s r' -> r = r'.
Proof.
  intros Hk H1 H2. apply (k_rdz _ _ _ Hk) in H1 as (_ & H1 & _), H2 as (_ & H2 & _). congruence.
Qed.

Lemma wake_spec s pc r t :
  kcore s pc None -> bkl_owner s <> None -> t ∈ rendez s r ->
  (_ ← on_rendez r (dl_rem t); to_bkl t) s = Ok (tt, woken s r t (list_remove1 t (rendez s r))) /\
  kcore (woken s r t (list_remove1 t (rendez s r))) pc None /\
  (forall c, on_cpu s c -> on_cpu (woken s r t (list_remove1 t (rendez s r))) c).
Proof.
  intros Hk Ho Ht. set s' := woken _ _ _ _. pose proof Hk as [K1 K2 K3 K4 K5 K6 K7 K8 K9 K10 K11].
  destruct (K5 r t Ht) as (Hnq & Hbl & Hst & Hqa & Hpc).
  assert (t ∉ B s) as HtB. { intros HB. apply K4 in HB as (_ & Hn & _). apply Hn. by exists r. }
  assert (bkl_owner s <> Some t) as Hto. { intros E. apply K9 in E as (_ & _ & Hn). apply Hn. by exists r. }
  assert (forall y, queueable (th s' y) <-> queueable (th s y)) as Hqa'. { intros y. by rw /queueable (woken_fields sched_policy). }
  assert (forall y, y <> t -> th s' y = th s y) as Hny. { intros y Hy. rw /s' /woken /=. by reads. }
  assert (forall r' y, y ∈ rendez s' r' <-> y ∈ rendez s r' /\ y <> t) as Hr'.
  { intros r' y. rw /s' /woken /=. destruct (decide (r = r')) as [->|Hr]; reads; [by apply elem_of_list_remove1|].
    split; [|naive_solver]. intros Hy. split; [done|]. intros ->. apply Hr. by apply (kcore_one_rendez s pc None _ _ t). }
  assert (forall y, asleep s' y <-> asleep s y /\ y <> t) as Has. { intros y. rw /asleep. setoid_rewrite Hr'. naive_solver. }
  split_and!.
  - rw /to_bkl /on_rendez /on_bkl /upd_th. mrun. rw dl_rem_ok //=. by rw dl_add_tail_ok.
  - split.
    + apply (qinv_perm s); try done. intros y. split_and!; by apply woken_fields.
    + change (B s') with (B s ++ [t]). apply NoDup_app. split_and!; [done|set_solver|apply NoDup_singleton].
    + intros r'. rw /s' /woken /=. destruct (decide (r = r')) as [->|]; reads; [by apply NoDup_list_remove1|done].
    + intros y. change (B s') with (B s ++ [t]). rw Has Hqa'. change (queued s' y) with (queued s y).
      intros [Hy| ->%list_elem_of_singleton]%elem_of_app; [destruct (K4 y Hy) as (? & ? & ? & ?); naive_solver|naive_solver].
    + intros r' y [Hy Hne]%Hr'. rw Hqa' Hny //. change (queued s' y) with (queued s y). by apply K5.
    + intros y Hy. destruct (decide (y = t)) as [->|Hne]; [|].
      * rw /s' /woken /= fn_lookup_insert // in Hy.
      * rw Hny // in Hy |- *. destruct (K6 y Hy) as (r' & ? & ?). exists r'. by rw Hr'.
    + done.
    + done.
    + intros y Hy. change (bkl_owner s') with (bkl_owner s) in Hy. rw Has. change (B s') with (B s ++ [t]).
      destruct (K9 y Hy) as (? & ? & ?). split_and!; [done| |naive_solver].
      intros [?| ->%list_elem_of_singleton]%elem_of_app; congruence.
    + intros y Hy _. rw Has. change (B s') with (B s ++ [t]). change (bkl_owner s') with (bkl_owner s).
      destruct (decide (y = t)) as [->|]; [right; left; set_solver|].
      destruct (K10 y Hy) as [|[|]]; [done|by left|right; left; set_solver|right; right; done].
    + intros y. rw (woken_fields sched_policy) //. apply K11.
  - intros c [Hc Hp]. split; [done|]. by rw (woken_fields sched_policy) // (woken_fields priority).
Qed.

Lemma TaskWakeup_spec s pc r :
  kcore s pc None -> bkl_owner s <> None ->
  exists s', TaskWakeup r s = Ok (tt, s') /\ kcore s' pc None /\ (forall c, on_cpu s c -> on_cpu s' c) /\
    s' = match rendez s r with [] => s | t :: l => woken s r t l end.
Proof.
  intros Hk Ho. rw /TaskWakeup. destruct (rendez s r) as [|t l] eqn:E.
  - exists s. split; [|done]. mrun. by rw E.
  - assert (t ∈ rendez s r) as Ht by (rw E; set_solver).
    destruct (wake_spec s pc r t Hk Ho Ht) as (Hr & Hk' & Hc). destruct (k_rdz _ _ _ Hk r t Ht) as (_ & Hbl & Hst & _).
    assert (list_remove1 t (rendez s r) = l) as El. { by rw E /= decide_True. } rw El in Hr, Hk', Hc.
    exists (woken s r t l). split; [|done]. rw -Hr. rw {1}/mbind {1}/M_bind {1}/gets E {1}/mbind {1}/M_bind {1}/gets.
    rw bool_decide_true // bool_decide_true // /on_rendez. mrun. by rw E dl_rem_ok; [set_solver|]; simpl; rw decide_True.
Qed.

Lemma TaskWakeupSpecific_spec s pc t reason :
  kcore s pc None -> bkl_owner s <> None ->
  exists s', TaskWakeupSpecific t reason s = Ok (tt, s') /\ kcore s' pc None /\ (forall c, on_cpu s c -> on_cpu s' c) /\
    (state (th s t) = THREAD_STATE_RENDEZ_BLOCKED -> has (intr_flags (th s t)) reason || (reason =? 0) = true ->
       exists r, t ∈ rendez s r /\ s' = woken s r t (list_remove1 t (rendez s r))) /\
    (state (th s t) <> THREAD_STATE_RENDEZ_BLOCKED \/ has (intr_flags (th s t)) reason || (reason =? 0) = false -> s' = s).
Proof.
  intros Hk Ho. rw /TaskWakeupSpecific {1}/mbind {1}/M_bind {1}/gets.
  destruct (decide (state (th s t) = THREAD_STATE_RENDEZ_BLOCKED)) as [Hs|Hs]; last first.
  { rw bool_decide_false //=. exists s. split_and!; done. }
  rw bool_decide_true //=. destruct (has _ _ || _); [|by exists s].
  destruct (k_state _ _ _ Hk t Hs) as (r & Hbl & Hr). destruct (wake_spec s pc r t Hk Ho Hr) as (Hrun & Hk' & Hc).
  rw Hbl. eexists. split; [exact Hrun|]. split_and!; try done; [intros _ _; by exists r|by intros []].
Qed.

(** The timer callback wakes a sleeper whose timer names the rendez it sleeps on. *)
Lemma TaskTimedSleepCallback_spec s pc t :
  kcore s pc None -> bkl_owner s <> None ->
  (state (th s t) = THREAD_STATE_RENDEZ_BLOCKED -> blocking_rendez (th s t) = timer_arg (th s t)) ->
  exists s', TaskTimedSleepCallback t s = Ok (tt, s') /\ kcore s' pc None /\ (forall c, on_cpu s c -> on_cpu s' c).
Proof.
  intros Hk Ho Harg. rw /TaskTimedSleepCallback {1}/mbind {1}/M_bind {1}/gets.
  destruct (timer_thread (th s t)); [|by exists s].
  destruct (decide (state (th s t) = THREAD_STATE_RENDEZ_BLOCKED)) as [Hs|Hs]; last first.
  { rw bool_decide_false //=. by exists s. }
  specialize (Harg Hs). rw bool_decide_true //= bool_decide_true //.
  destruct (k_state _ _ _ Hk t Hs) as (r & Hbl & Hr). destruct (wake_spec s pc r t Hk Ho Hr) as (Hrun & Hk' & Hc).
  rw -Harg Hbl. eexists. split; [exact Hrun|]. by split.
Qed.
End bkl.
