(* ===== verification/BklSteps.v ===== *)
(** * BklSteps: the kernel's synchronisation as a step system

    The calls a running thread may make, the states they lead to, and the
    theorems: no call panics or faults, at most one thread runs inside the
    kernel and it holds the lock, and what each call does to the wait lists. *)

From S2P Require Import Prelude Sched SchedQueue Bkl.
Local Open Scope Z_scope.
Local Open Scope kernel_scope.

Section calls.
Implicit Types (s : sched) (t c r : nat) (pc : nat -> loc).

Lemma wakeup_all_spec l s pc r :
  kcore s pc None -> bkl_owner s <> None -> rendez s r = l ->
  exists s', wakeup_all_loop (length l) r s = Ok (tt, s') /\ kcore s' pc None /\ (forall c, on_cpu s c -> on_cpu s' c) /\
    rendez s' r = [] /\ (forall r', r' <> r -> rendez s' r' = rendez s r') /\ B s' = B s ++ l /\
    bkl_owner s' = bkl_owner s /\ (forall t, t ∉ l -> th s' t = th s t).
Proof.
  revert s. induction l as [|t l IH]; intros s Hk Ho E.
  { exists s. rw app_nil_r. split; [|done]. simpl. mrun. by rw E. }
  assert (t ∈ rendez s r) as Ht by (rw E; set_solver).
  destruct (wake_spec s pc r t Hk Ho Ht) as (Hr & Hk' & Hc).
  assert (list_remove1 t (rendez s r) = l) as El. { by rw E /= decide_True. } rw El in Hr, Hk', Hc.
  destruct (IH (woken s r t l) Hk') as (s' & Hrun & Hk2 & Hc2 & Hrr & Hro & HB & Hown & Hth); [done| |].
  { rw /woken /=. by reads. }
  exists s'. split_and!; try done.
  - rw /= {1}/mbind {1}/M_bind {1}/gets E {1}/mbind {1}/M_bind {1}/gets (k_lock _ _ _ Hk).
    destruct (bkl_owner s); [|done]. rw bool_decide_true // -Hrun.
    mrun_in Hr. mrun. rw /on_rendez in Hr |- *. mrun_in Hr. mrun. rw E in Hr |- *. rw dl_rem_ok in Hr; [set_solver|].
    rw /= decide_True // in Hr. simpl. by rw Hr.
  - intros c Hon. by apply Hc2, Hc.
  - intros r' Hr'. rw Hro // /woken /=. by reads.
  - rw HB. change (B (woken s r t l)) with (B s ++ [t]). by rw -app_assoc.
  - intros y Hy. apply not_elem_of_cons in Hy as [??]. rw Hth // /woken /=. by reads.
Qed.

Lemma TaskWakeupAll_spec s pc r :
  kcore s pc None -> bkl_owner s <> None ->
  exists s', TaskWakeupAll r s = Ok (tt, s') /\ kcore s' pc None /\ (forall c, on_cpu s c -> on_cpu s' c) /\
    rendez s' r = [] /\ (forall r', r' <> r -> rendez s' r' = rendez s r') /\ B s' = B s ++ rendez s r /\
    bkl_owner s' = bkl_owner s /\ (forall t, t ∉ rendez s r -> th s' t = th s t).
Proof. intros Hk Ho. by apply (wakeup_all_spec (rendez s r)). Qed.

(** Changes to the queues and to threads that wait for nothing. *)
Lemma kcore_requeue s s' pc e :
  kcore s pc e -> qinv s' -> bkl_locked s' = bkl_locked s -> bkl_owner s' = bkl_owner s -> B s' = B s -> rendez s' = rendez s ->
  (forall t, t ∈ B s \/ asleep s t -> sched_policy (th s' t) = sched_policy (th s t) /\ state (th s' t) = state (th s t) /\
     blocking_rendez (th s' t) = blocking_rendez (th s t) /\ (queued s' t -> queued s t)) ->
  (forall t, state (th s' t) = THREAD_STATE_RENDEZ_BLOCKED -> state (th s t) = THREAD_STATE_RENDEZ_BLOCKED) ->
  (forall t, pc t = LExited -> e <> Some t -> ~ queued s t -> sched_policy (th s t) <> SCHED_IDLE ->
     ~ queued s' t /\ sched_policy (th s' t) <> SCHED_IDLE) -> kcore s' pc e.
Proof.
  intros [K1 K2 K3 K4 K5 K6 K7 K8 K9 K10 K11] Hq Hl Ho HB Hr Hw Hst Hex.
  assert (forall y, asleep s' y <-> asleep s y) as Has. { intros y. by rw /asleep Hr. }
  split; rw ?Hl ?Ho ?HB; try done.
  - intros r. rw Hr. apply K3.
  - intros t Ht. rw Has. destruct (K4 t Ht) as (? & ? & ? & ?). rw /queueable. destruct (Hw t) as (-> & _ & _ & ?); [by left|]. by split_and!; auto.
  - intros r t. rw Hr. intros Ht. destruct (K5 r t Ht) as (? & ? & ? & ? & ?).
    rw /queueable. destruct (Hw t) as (-> & -> & -> & ?); [right; by exists r|]. by split_and!; auto.
  - intros t Ht. rw Hr. destruct (K6 t (Hst t Ht)) as (r & ? & ?). destruct (Hw t) as (_ & _ & -> & _); [right; by exists r|]. by exists r.
  - intros t. rw Has. apply K9.
  - intros t. rw Has. apply K10.
  - intros t Hx Hne. destruct (K11 t Hx Hne). by apply Hex.
Qed.

(** A thread that is not running, waiting, or holding the lock. *)
Definition outside s pc t : Prop := ~ queued s t /\ (t ∉ B s) /\ ~ asleep s t /\ pc t <> LKernel.

(** A thread that has stopped is such a thread. *)
Lemma exited_outside s pc c t : kinv s pc -> on_cpu s c -> pc t = LExited -> outside s pc t /\ t <> c.
Proof.
  intros [Hk _] [_ Hc] Hx. destruct (k_exited _ _ _ Hk t Hx) as [Hq Hi]; [done|]. split; [split_and!|].
  - done.
  - intros (_ & _ & _ & E)%(k_bkl _ _ _ Hk). congruence.
  - intros [r Hr]. apply (k_rdz _ _ _ Hk) in Hr as (_ & _ & _ & _ & E). congruence.
  - congruence.
  - intros ->. destruct Hc as [|Hc%head_queued]; done.
Qed.

Lemma thread_start_spec s pc t :
  kcore s pc None -> outside s pc t -> queueable (th s t) ->
  exists s', thread_start t s = Ok (tt, s') /\ kcore s' (<[t := LUser]> pc) None /\ (forall c, c <> t -> on_cpu s c -> on_cpu s' c) /\ queued s' t.
Proof.
  intros Hk' (Hnq & HnB & Hna & Hpc) Hqa. pose proof (k_q _ _ _ Hk') as K1.
  assert (kcore s (<[t := LUser]> pc) None) as Hk.
  { apply (kcore_pc s pc _ None); try done; intros y; destruct (decide (t = y)) as [->|]; by reads. }
  set g := fun x : Thread => x <| usage_usec := 0 |> <| last_resched_time_usec := monotonic_usec s |> <| creation_usec := monotonic_usec s |>
                           <| state := THREAD_STATE_READY |>.
  set s0 := s <| th ::= fun m => <[t := g (m t)]> m |>.
  assert (forall {A} (f : Thread -> A), (forall x, f (g x) = f x) -> forall y, f (th s0 y) = f (th s y)) as Hfields.
  { intros A f Hf y. rw /s0 /=. destruct (decide (t = y)) as [->|]; reads; by rw ?Hf. }
  assert (qinv s0) as Hq0. { apply (qinv_perm s); try done. intros y. split_and!; by apply Hfields. }
  destruct (SchedReady_spec s0 t Hq0) as (s' & Hr & Hq' & HQt & HQo & Hf & Hcu & Hst & Hpr & Hqd & Hth & _);
    [done|by rw /queueable (Hfields _ sched_policy)|].
  assert (forall y, y <> t -> th s' y = th s y) as Hth'. { intros y Hy. rw Hth // /s0 /=. by reads. }
  exists s'. split; [exact Hr|]. split_and!.
  - apply (kcore_requeue s); try done; try apply Hf.
    + intros y Hy. assert (y <> t) as Hyt by (intros ->; naive_solver). rw Hth' // Hqd. naive_solver.
    + intros y. rw Hst /s0 /=. destruct (decide (t = y)) as [->|]; by reads.
    + intros y Hx _ Hy Hi. assert (y <> t) as Hyt by (intros ->; by rw fn_lookup_insert in Hx). rw Hth' // Hqd. naive_solver.
  - intros c Hc [Hcur Hpl]. split; [by rw Hcu|]. rw Hth' //. destruct Hpl as [|Hhd]; [by left|right].
    destruct (decide (priority (th s c) = priority (th s0 t))) as [E|E]; [|by rw HQo].
    rw E HQt. change (Q s0 (priority (th s0 t))) with (Q s (priority (th s0 t))). rw -E.
    by destruct (Q s (priority (th s c))).
  - apply Hqd. by left.
Qed.

Lemma thread_stop_spec s pc c :
  kinv s pc -> on_cpu s c -> pc c = LKernel -> sched_policy (th s c) <> SCHED_IDLE ->
  exists s', thread_stop s = Ok (tt, s') /\ kinv s' (<[c := LExited]> pc).
Proof.
  intros [Hk _] Hon Hpc Hid. pose proof (on_cpu_owner _ _ _ Hk Hon Hpc) as Hown.
  destruct (hand_over_spec s pc c Hk Hon Hown) as (s1 & Hr1 & Hk1 & Hon1 & Ho1 & Hth1 & _).
  destruct (on_cpu_free _ _ _ _ Hk1 Hon1) as [HnB Hns].
  assert (kcore s1 (<[c := LExited]> pc) (Some c)) as Hk2.
  { apply (kcore_pc s1 pc _ (Some c)); [done|..]. 3: { intros t. by left. } all: intros t; destruct (decide (c = t)) as [->|]; by reads. }
  edestruct (park_switch s1 (s1 <| th ::= fun m => <[c := (m c) <| state := THREAD_STATE_EXITED |>]> m |>)) as (s' & Hr & Hi' & _);
    [exact Hk2|exact Hon1|by rw Hth1|exact Ho1|done|done|by destruct Hon1|done|done|..].
  - intros t Ht. simpl. by reads.
  - simpl. by reads.
  - right; right. simpl. by reads.
  - exists s'. split; [|done]. rw /thread_stop /get_current_thread {1}/mbind {1}/M_bind {1}/mbind {1}/M_bind {1}/gets (proj1 Hon) {1}/mret {1}/M_ret.
    rw {1}/mbind {1}/M_bind Hr1. exact Hr.
Qed.

Lemma SchedReady_quanta s s' t : SchedReady t s = Ok (tt, s') -> quanta_used (th s' t) = 0.
Proof.
  rw /SchedReady {1}/mbind {1}/M_bind {1}/gets {1}/mbind {1}/M_bind.
  match goal with |- match ?m s with _ => _ end = _ -> _ => destruct (m s) as [[[] s1]| |] end; try done.
  intros [= <-]. simpl. by reads.
Qed.

(** New parameters for the running thread: off its queue, on the new one. *)
Lemma change_params_spec s pc c pol prio :
  kinv s pc -> on_cpu s c -> sched_policy (th s c) <> SCHED_IDLE ->
  (forall x, params_ok (x <| sched_policy := pol |> <| desired_priority := prio |> <| priority := prio |>)) ->
  pol <> SCHED_IDLE -> pol <> SCHED_BAD ->
  exists s', change_params c pol prio s = Ok (RVal 0, s') /\ kinv s' pc /\ sched_policy (th s' c) = pol.
Proof.
  intros [Hk _] Hon Hid Hpar Hp1 Hp2. destruct (on_cpu_free _ _ _ _ Hk Hon) as [HnB Hns]. pose proof Hon as [Hcur [|Hhd]]; [done|].
  assert (c ∈ Q s (priority (th s c))) as HcQ. { destruct (Q s (priority (th s c))); [done|]. injection Hhd as ->. set_solver. }
  destruct (SchedUnready_run s c (k_q _ _ _ Hk) HcQ) as (s1 & Hr1 & Hq1 & _ & _ & Hf1 & Hc1 & Hst1 & Hnq & _ & Hqd1 & _).
  set g := fun x : Thread => x <| sched_policy := pol |> <| desired_priority := prio |> <| priority := prio |>.
  set s2 := s1 <| th ::= fun m => <[c := g (m c)]> m |>.
  assert (forall y, y <> c -> th s2 y = th s1 y) as Hny. { intros y Hy. rw /s2 /=. by reads. }
  assert (th s2 c = g (th s1 c)) as Hc2. { rw /s2 /=. by reads. }
  assert (forall p y, y ∈ Q s1 p -> y <> c) as Hnc. { intros p y Hy ->. apply Hnq. by exists p. }
  assert (qinv s2) as Hq2.
  { split.
    - intros p y Hy. rw Hny; [by apply (Hnc p)|]. by apply (q_mem _ Hq1).
    - apply (q_nodup _ Hq1).
    - intros y. destruct (decide (y = c)) as [->|]; [rw Hc2; apply Hpar|rw Hny //; apply (q_params _ Hq1)].
    - destruct (q_idle _ Hq1) as (i & Hi & Hp). exists i. split; [done|]. rw Hny //. intros ->. by rw (f_policy _ _ Hf1) in Hp. }
  destruct (SchedReady_spec s2 c Hq2) as (s3 & Hr3 & Hq3 & _ & _ & Hf3 & Hc3 & Hst3 & _ & Hqd3 & Hth3 & _).
  { done. } { rw /queueable Hc2 /g /=. destruct pol; naive_solver. }
  assert (forall y, y <> c -> th s3 y = th s1 y) as Hny3. { intros y Hy. by rw Hth3 // Hny. }
  assert (kcore s3 pc None) as Hk3.
  { apply (kcore_requeue s); try done; rw ?(f_locked _ _ Hf3) ?(f_owner _ _ Hf3) ?(f_bkl _ _ Hf3) ?(f_rendez _ _ Hf3);
      [apply Hf1..| | |].
    - intros y Hy. assert (y <> c) as Hyc by (intros ->; naive_solver).
      rw (f_policy _ _ Hf3) (f_blocking _ _ Hf3) Hst3 Hny // Hst1 (f_policy _ _ Hf1) (f_blocking _ _ Hf1) Hqd3.
      split_and!; try done. intros [->|Hy']; [done|]. by apply Hqd1.
    - intros y. rw Hst3. destruct (decide (y = c)) as [->|]; [rw Hc2 /=|rw Hny //]; by rw Hst1.
    - intros y _ _ Hy Hi. assert (y <> c) as Hyc by (intros ->; by apply Hy; exists (priority (th s c))).
      rw (f_policy _ _ Hf3) Hny // (f_policy _ _ Hf1) Hqd3. split; [|done]. intros [->|Hy']; [done|]. apply Hy. by apply Hqd1. }
  destruct (resched_kinv s3 pc c Hk3) as (s' & Hr & Hi & Hf).
  { rw Hc3. exact (eq_trans Hc1 Hcur). } { right; right. by apply (SchedReady_quanta s2). }
  exists s'. split_and!; [|done|].
  - rw /change_params {1}/mbind {1}/M_bind Hr1 {1}/mbind {1}/M_bind {1}/upd_th {1}/modify. rw -/g -/s2 {1}/mbind {1}/M_bind Hr3.
    by rw {1}/mbind {1}/M_bind Hr.
  - by rw (f_policy _ _ Hf) (f_policy _ _ Hf3) Hc2.
Qed.
End calls.

(** ** The step system *)

(** What the running thread may call. *)
Inductive kcall : Type :=
| CLock | CUnlock | CSleep (r : nat) | CSleepIntr (r : nat) (ts : option (Z * Z)) (flags : Z)
| CWakeup (r : nat) | CWakeupAll (r : nat) | CWakeupSpecific (t : nat) (reason : Z) | CTimeout (t : nat)
| CStart (t : nat) | CStop | CSetSched (pol : policy) (prio : Z) | CResched.

Definition void {A} (m : M sched A) : M sched unit := _ ← m; mret tt.
Definition call_run (k : kcall) : M sched unit :=
  match k with
  | CLock => KernelLock
  | CUnlock => KernelUnlock
  | CSleep r => TaskSleep r
  | CSleepIntr r ts flags => void (TaskSleepInterruptible r ts flags)
  | CWakeup r => TaskWakeup r
  | CWakeupAll r => TaskWakeupAll r
  | CWakeupSpecific t reason => TaskWakeupSpecific t reason
  | CTimeout t => TaskTimedSleepCallback t
  | CStart t => thread_start t
  | CStop => thread_stop
  | CSetSched pol prio => void (sys_thread_setschedparams pol prio)
  | CResched => Reschedule
  end.

(** Where the caller's code is afterwards. *)
Definition call_loc (k : kcall) (c : nat) (pc : nat -> loc) : nat -> loc :=
  match k with
  | CLock => <[c := LKernel]> pc
  | CUnlock => <[c := LUser]> pc
  | CStart t => <[t := LUser]> pc
  | CStop => <[c := LExited]> pc
  | _ => pc
  end.

(** When a call is made: the lock is taken from outside the kernel and
    everything else but preemption happens inside; the idle thread stays out;
    a started thread is a new one; a sleep timer is off the wheel when its
    thread goes to sleep, and names the rendez it sleeps on when it expires. *)
Definition may_call (s : sched) (pc : nat -> loc) (c : nat) (k : kcall) : Prop :=
  match k with
  | CResched => True
  | CLock => pc c = LUser /\ sched_policy (th s c) <> SCHED_IDLE
  | CStart t => pc c = LKernel /\ outside s pc t /\ queueable (th s t)
  | CSleepIntr r ts flags => pc c = LKernel /\ sched_policy (th s c) <> SCHED_IDLE /\
      forall x, ts = Some x -> 0 <= sleep_slot s x /\ c ∉ timing_wheel s (sleep_slot s x)
  | CTimeout t => pc c = LKernel /\
      (state (th s t) = THREAD_STATE_RENDEZ_BLOCKED -> blocking_rendez (th s t) = timer_arg (th s t))
  | _ => pc c = LKernel /\ sched_policy (th s c) <> SCHED_IDLE
  end.

Inductive kstep : sched * (nat -> loc) -> sched * (nat -> loc) -> Prop :=
| kstep_call s pc c k s' :
    current_thread s = Some c -> may_call s pc c k -> call_run k s = Ok (tt, s') -> kstep (s, pc) (s', call_loc k c pc).

Section steps.
Implicit Types (s : sched) (t c r : nat) (pc : nat -> loc) (k : kcall).

Lemma void_run {A} (m : M sched A) s a s' : m s = Ok (a, s') -> void m s = Ok (tt, s').
Proof. intros Hm. rw /void {1}/mbind {1}/M_bind Hm //. Qed.

Lemma setsched_spec s pc c pol prio :
  kinv s pc -> on_cpu s c -> sched_policy (th s c) <> SCHED_IDLE ->
  exists s', void (sys_thread_setschedparams pol prio) s = Ok (tt, s') /\ kinv s' pc.
Proof.
  intros Hi Hon Hid.
  cut (exists res s', sys_thread_setschedparams pol prio s = Ok (res, s') /\ kinv s' pc).
  { intros (res & s' & Hr & Hi'). exists s'. split; [by apply (void_run _ _ res)|done]. }
  rw /sys_thread_setschedparams /get_current_thread {1}/mbind {1}/M_bind {1}/mbind {1}/M_bind {1}/gets (proj1 Hon) {1}/mret {1}/M_ret.
  assert (forall lo hi, lo <= hi -> pol <> SCHED_IDLE -> pol <> SCHED_BAD ->
    (forall x, lo <= prio <= hi -> params_ok (x <| sched_policy := pol |> <| desired_priority := prio |> <| priority := prio |>)) ->
    exists res s', (if (prio <? lo) || (hi <? prio) then mret (RErr EINVAL) else change_params c pol prio) s = Ok (res, s') /\ kinv s' pc) as Hgo.
  { intros lo hi _ H1 H2 Hpar. destruct (Z.ltb_spec prio lo); simpl; [by exists (RErr EINVAL), s|].
    destruct (Z.ltb_spec hi prio); [by exists (RErr EINVAL), s|].
    destruct (change_params_spec s pc c pol prio Hi Hon Hid) as (s' & ? & ? & _); try done.
    { intros x. apply Hpar. lia. } by exists (RVal 0), s'. }
  destruct pol; try (by exists (RErr EINVAL), s); apply Hgo; try done; intros x ?; rw /params_ok /=; lia.
Qed.

(** Every call a thread may make returns, and keeps the invariant. *)
Lemma call_spec s pc c k :
  kinv s pc -> current_thread s = Some c -> may_call s pc c k ->
  exists s', call_run k s = Ok (tt, s') /\ kinv s' (call_loc k c pc).
Proof.
  intros Hi Hcur Hmay. pose proof Hi as [Hk [c' Hon]].
  assert (c' = c) as -> by (destruct Hon; congruence).
  assert (pc c = LKernel -> bkl_owner s <> None) as Hlocked.
  { intros Hpc. by rw (on_cpu_owner _ _ _ Hk Hon Hpc). }
  assert (forall s', kcore s' pc None -> on_cpu s' c -> kinv s' pc) as Hback. { intros s' ? ?. split; [done|by exists c]. }
  destruct k; simpl in Hmay |- *.
  - destruct Hmay as [Hpc Hid]. destruct (KernelLock_spec s pc c Hi Hon) as (s' & ? & ? & _); [congruence|by left|]. by exists s'.
  - destruct Hmay as [Hpc Hid]. by apply KernelUnlock_spec.
  - destruct Hmay as [Hpc Hid]. destruct (TaskSleep_spec s pc c r Hi Hon Hpc Hid) as (s' & ? & ? & _). by exists s'.
  - destruct Hmay as (Hpc & Hid & Hts). destruct (TaskSleepInterruptible_spec s pc c r ts flags Hi Hon Hpc Hid Hts) as (s' & res & Hr & ? & _).
    exists s'. split; [by apply (void_run _ _ res)|done].
  - destruct Hmay as [Hpc Hid]. destruct (TaskWakeup_spec s pc r Hk) as (s' & ? & ? & ? & _); [by apply Hlocked|]. exists s'. auto.
  - destruct Hmay as [Hpc Hid]. destruct (TaskWakeupAll_spec s pc r Hk) as (s' & ? & ? & ? & _); [by apply Hlocked|]. exists s'. auto.
  - destruct Hmay as [Hpc Hid]. destruct (TaskWakeupSpecific_spec s pc t reason Hk) as (s' & ? & ? & ? & _); [by apply Hlocked|]. exists s'. auto.
  - destruct Hmay as [Hpc Harg]. destruct (TaskTimedSleepCallback_spec s pc t Hk) as (s' & ? & ? & ?); [by apply Hlocked|done|]. exists s'. auto.
  - destruct Hmay as (Hpc & Hout & Hqa). destruct (thread_start_spec s pc t Hk Hout Hqa) as (s' & ? & ? & Hc & _).
    exists s'. split; [done|]. split; [done|]. exists c. apply Hc; [|done]. intros ->. destruct Hout as (_ & _ & _ & ?). done.
  - destruct Hmay as [Hpc Hid]. by apply thread_stop_spec.
  - destruct Hmay as [Hpc Hid]. by apply (setsched_spec s pc c).
  - destruct (resched_kinv s pc c Hk Hcur) as (s' & ? & ? & _); [by apply on_cpu_placed|]. by exists s'.
Qed.
End steps.

(** ** Theorems *)
Section thms.
Implicit Types (s : sched) (t c r : nat) (pc : nat -> loc) (k : kcall).

Lemma reachable_kinv x y : rtc kstep x y -> kinv x.1 x.2 -> kinv y.1 y.2.
Proof.
  induction 1 as [|x y z [s pc c k s' Hcur Hmay Hr] _ IH]; [done|]. intros Hi. apply IH. simpl in *.
  destruct (call_spec s pc c k Hi Hcur Hmay) as (s'' & Hr' & Hi'). congruence.
Qed.


(** C16: [TaskWakeupAll] ends, whatever the number of sleepers: it empties the
    rendez and appends its threads, in the order in which they went to sleep,
    to those that wait for the lock; no other rendez, no other thread and not
    the lock's owner change. *)
Theorem TaskWakeupAll_correct s pc c r :
  kinv s pc -> current_thread s = Some c -> pc c = LKernel ->
  exists s', TaskWakeupAll r s = Ok (tt, s') /\ kinv s' pc /\ rendez s' r = [] /\
    (forall r', r' <> r -> rendez s' r' = rendez s r') /\ bkl_blocked_list s' = bkl_blocked_list s ++ rendez s r /\
    bkl_owner s' = bkl_owner s /\ (forall t, t ∉ rendez s r -> th s' t = th s t).
Proof.
  intros [Hk [c' Hon]] Hcur Hpc. assert (c' = c) as -> by (destruct Hon; congruence).
  destruct (TaskWakeupAll_spec s pc r Hk) as (s' & ? & ? & Hc & ? & ? & ? & ? & ?).
  { by rw (on_cpu_owner _ _ _ Hk Hon Hpc). }
  exists s'. split_and!; try done. split; [done|]. exists c. auto.
Qed.

(** C17: [TaskSleep] puts the caller at the end of the rendez, gives up the
    lock and switches away; [TaskWakeup] moves the longest sleeper, and only
    it, to the end of the lock's blocked list, and does nothing when nobody
    sleeps. *)
Theorem sleep_wakeup_fifo s pc c r :
  kinv s pc -> current_thread s = Some c -> pc c = LKernel -> sched_policy (th s c) <> SCHED_IDLE ->
  (exists s', TaskSleep r s = Ok (tt, s') /\ kinv s' pc /\ rendez s' r = rendez s r ++ [c] /\
     (forall r', r' <> r -> rendez s' r' = rendez s r')) /\
  (exists s', TaskWakeup r s = Ok (tt, s') /\ kinv s' pc /\ rendez s' r = tail (rendez s r) /\
     bkl_blocked_list s' = bkl_blocked_list s ++ take 1 (rendez s r) /\ (forall r', r' <> r -> rendez s' r' = rendez s r')).
Proof.
  intros [Hk [c' Hon]] Hcur Hpc Hid. assert (c' = c) as -> by (destruct Hon; congruence). split.
  - apply TaskSleep_spec; try done. split; [done|by exists c].
  - destruct (TaskWakeup_spec s pc r Hk) as (s' & Hr & Hk' & Hc & E); [by rw (on_cpu_owner _ _ _ Hk Hon Hpc)|].
    exists s'. split; [done|]. split; [split; [done|exists c; auto]|]. destruct (rendez s r) as [|t l] eqn:Er; subst s'.
    + by rw Er app_nil_r.
    + rw /woken /=. reads. split_and!; try done. intros r' Hr'. by reads.
Qed.
End thms.

(** ** Witnesses: thread 0 runs inside the kernel, 2 is ready, 3 sleeps on
    rendez 7 and 1 is the idle thread. *)
Module Sample.
Definition thread (pol : policy) (st : tstate) (br : option nat) : Thread :=
  mkThread pol 0 5 5 st br 0 0 0 0 0 0 false false None 0.
Definition state0 : sched :=
  {| th := fun n => match n with
                    | 0 => thread SCHED_OTHER THREAD_STATE_RUNNING None
                    | 1 => thread SCHED_IDLE THREAD_STATE_READY None
                    | 3 => thread SCHED_OTHER THREAD_STATE_RENDEZ_BLOCKED (Some 7)
                    | _ => thread SCHED_OTHER THREAD_STATE_READY None
                    end%nat;
     sched_queue := fun p => if p =? 5 then [0; 2]%nat else [];
     sched_queue_bitmap := 32; bkl_locked := true; bkl_owner := Some 0%nat; bkl_blocked_list := [];
     rendez := fun r => if Nat.eqb r 7 then [3%nat] else [];
     timing_wheel := fun _ => []; current_thread := Some 0%nat; idle_thread := Some 1%nat; monotonic_usec := 1000; hardclock := 10 |}.
Definition pc0 (t : nat) : loc := match t with 0 | 3 => LKernel | _ => LUser end%nat.
End Sample.
Import Sample.

Lemma sample_qinv : qinv state0.
Proof.
  split.
  - intros p t. simpl. destruct (Z.eqb_spec p 5) as [->|]; [|set_solver]. rw !elem_of_cons elem_of_nil /queueable.
    intros [->|[->|[]]]; simpl; split_and!; try done; naive_solver.
  - intros p. simpl. destruct (p =? 5); [|apply NoDup_nil_2]. by apply (bool_decide_unpack _).
  - intros [|[|[|[|t]]]]; rw /params_ok /=; done.
  - by exists 1%nat.
Qed.
Lemma sample_bitmap : bitmap_ok state0.
Proof.
  intros p. simpl. destruct (Z.eqb_spec p 5) as [->|Hp]; [done|]. split; [|naive_solver].
  change 32 with (bit 5). rw bit_testbit // bool_decide_eq_true. congruence.
Qed.
Lemma sample_asleep t : asleep state0 t <-> t = 3%nat.
Proof.
  rw /asleep /=. split; [|intros ->; exists 7%nat; simpl; set_solver]. intros [r Hr]. destruct (Nat.eqb r 7); set_solver.
Qed.
Lemma sample_queued t : queued state0 t <-> (t = 0 \/ t = 2)%nat.
Proof.
  rw /queued /=. split; [intros [p Hp]; destruct (p =? 5); set_solver|]. intros Ht. exists 5. simpl. set_solver.
Qed.
Lemma sample_kinv : kinv state0 pc0.
Proof.
  split; [split|].
  - apply sample_qinv.
  - apply NoDup_nil_2.
  - intros r. simpl. destruct (Nat.eqb r 7); [apply NoDup_singleton|apply NoDup_nil_2].
  - intros t. simpl. set_solver.
  - intros r t. rw sample_queued /queueable /=. destruct (Nat.eqb_spec r 7) as [->|]; [|set_solver].
    intros ->%list_elem_of_singleton. split_and!; try done; [lia|naive_solver].
  - intros [|[|[|[|t]]]]; try done. intros _. exists 7%nat. simpl. set_solver.
  - done.
  - done.
  - intros t [= <-]. rw sample_asleep. split_and!; [done|set_solver|done].
  - intros t. rw sample_asleep. destruct t as [|[|[|[|t]]]]; try done; auto.
  - intros t. by destruct t as [|[|[|[|t]]]].
  - exists 0%nat. split; [done|by right].
Qed.


Lemma TaskWakeupAll_correct_witness :
  exists s', TaskWakeupAll 7 state0 = Ok (tt, s') /\ kinv s' pc0 /\ rendez s' 7%nat = [] /\
    (forall r', r' <> 7%nat -> rendez s' r' = rendez state0 r') /\ bkl_blocked_list s' = [] ++ [3%nat] /\
    bkl_owner s' = Some 0%nat /\ (forall t, t ∉ [3%nat] -> th s' t = th state0 t).
Proof. apply (TaskWakeupAll_correct state0 pc0 0 7); [apply sample_kinv|reflexivity|reflexivity]. Defined.

Lemma sleep_wakeup_fifo_witness :
  (exists s', TaskSleep 7 state0 = Ok (tt, s') /\ kinv s' pc0 /\ rendez s' 7%nat = [3%nat] ++ [0%nat] /\
     (forall r', r' <> 7%nat -> rendez s' r' = rendez state0 r')) /\
  (exists s', TaskWakeup 7 state0 = Ok (tt, s') /\ kinv s' pc0 /\ rendez s' 7%nat = [] /\
     bkl_blocked_list s' = [] ++ [3%nat] /\ (forall r', r' <> 7%nat -> rendez s' r' = rendez state0 r')).
Proof. apply (sleep_wakeup_fifo state0 pc0 0 7); [apply sample_kinv|reflexivity|reflexivity|discriminate]. Defined.

(** *** Witnesses for the run queues *)
Lemma Reschedule_picks_highest_witness :
  exists s' n, Reschedule state0 = Ok (tt, s') /\ current_thread s' = Some n /\ bitmap_ok s' /\ qinv s' /\
    (forall p, Q s' p ≡ₚ Q state0 p) /\
    (top_thread s' n \/ (idle_thread state0 = Some n /\ forall q, 0 <= q < 32 -> Q state0 q = [])).
Proof.
  apply (Reschedule_picks_highest state0 0); [apply sample_qinv|apply sample_bitmap|reflexivity|by right; left|].
  intros (_ & H & _). discriminate H.
Defined.

(** Thread 0 alone on queue 5, at the end of its quanta. *)
Definition alone : sched :=
  state0 <| sched_queue := fun p => if p =? 5 then [0%nat] else [] |>
         <| th ::= fun m => <[0%nat := (m 0%nat) <| quanta_used := 4 |>]> m |>.
Lemma alone_qinv : qinv alone.
Proof.
  split.
  - intros p t. simpl. destruct (Z.eqb_spec p 5) as [->|]; [|set_solver]. intros ->%list_elem_of_singleton.
    rw /queueable. reads. split_and!; try done. naive_solver.
  - intros p. simpl. destruct (p =? 5); [apply NoDup_singleton|apply NoDup_nil_2].
  - intros [|[|[|[|t]]]]; rw /params_ok /=; reads; done.
  - exists 1%nat. simpl. by reads.
Qed.

Lemma Reschedule_demotion_idles_witness :
  exists s', Reschedule alone = Ok (tt, s') /\ current_thread s' = Some 1%nat /\ Q s' (5 - 1) = [0%nat] /\
    Z.testbit (sched_queue_bitmap s') (5 - 1) = false /\ pick_next s' = Some 1%nat.
Proof.
  apply (Reschedule_demotion_idles alone 0 1 5); [apply alone_qinv|reflexivity|reflexivity|reflexivity|lia|reflexivity|reflexivity|reflexivity| |reflexivity].
  intros q Hq. simpl. by destruct (Z.eqb_spec q 5).
Defined.

Lemma sched_ready_unready_correct_witness :
  (~ queued state0 4 -> exists s', SchedReady 4 state0 = Ok (tt, s') /\ qinv s' /\ bitmap_ok s' /\
     Q s' 5 = Q state0 5 ++ [4%nat] /\ (forall q, q <> 5 -> Q s' q = Q state0 q)) /\
  (queued state0 4 -> exists s', SchedUnready 4 state0 = Ok (tt, s') /\ qinv s' /\ bitmap_ok s' /\ ~ queued s' 4%nat /\
     (forall y, y <> 4%nat -> queued s' y <-> queued state0 y)).
Proof.
  apply (sched_ready_unready_correct state0 4); [apply sample_qinv|apply sample_bitmap|right; right; reflexivity].
Defined.
