(* ===== verification/Pid.v ===== *)
(** * Pid: process ids, sessions and process groups

    proc/pid.c. A [PidDesc] is named by its index in [pid_table], so the pid
    of descriptor [i] is [i + 1]; processes, sessions, groups and terminals
    are named by their index. *)

From S2P Require Import Prelude.
Local Open Scope Z_scope.
Local Open Scope kernel_scope.

Definition INVALID_PID : Z := -1.

(** The fields of [struct Process] pid.c uses. *)
Record Process := mkProcess { pid : Z; sid : Z; pgid : Z; parent : option nat }.
Definition eta_Process p := mkProcess (pid p) (sid p) (pgid p) (parent p).
#[export] Instance set_pid : Setter pid := ltac:(solve_setter eta_Process).
#[export] Instance set_sid : Setter sid := ltac:(solve_setter eta_Process).
#[export] Instance set_pgid : Setter pgid := ltac:(solve_setter eta_Process).

Record PidDesc := mkPidDesc { pd_proc : option nat; pd_thread : option nat; pd_session : option nat; pd_pgrp : option nat }.
Definition eta_PidDesc d := mkPidDesc (pd_proc d) (pd_thread d) (pd_session d) (pd_pgrp d).
#[export] Instance set_pd_proc : Setter pd_proc := ltac:(solve_setter eta_PidDesc).
#[export] Instance set_pd_thread : Setter pd_thread := ltac:(solve_setter eta_PidDesc).
#[export] Instance set_pd_session : Setter pd_session := ltac:(solve_setter eta_PidDesc).
#[export] Instance set_pd_pgrp : Setter pd_pgrp := ltac:(solve_setter eta_PidDesc).
Definition zero_PidDesc : PidDesc := mkPidDesc None None None None.

Record Session := mkSession { s_sid : Z; controlling_tty : option nat; foreground_pgrp : Z; s_process_list : list nat }.
Definition eta_Session s := mkSession (s_sid s) (controlling_tty s) (foreground_pgrp s) (s_process_list s).
#[export] Instance set_s_sid : Setter s_sid := ltac:(solve_setter eta_Session).
#[export] Instance set_foreground_pgrp : Setter foreground_pgrp := ltac:(solve_setter eta_Session).
#[export] Instance set_s_process_list : Setter s_process_list := ltac:(solve_setter eta_Session).

Record Pgrp := mkPgrp { g_sid : Z; g_pgid : Z; g_process_list : list nat }.
Definition eta_Pgrp g := mkPgrp (g_sid g) (g_pgid g) (g_process_list g).
#[export] Instance set_g_sid : Setter g_sid := ltac:(solve_setter eta_Pgrp).
#[export] Instance set_g_process_list : Setter g_process_list := ltac:(solve_setter eta_Pgrp).

Record pids := mkPids {
  proc : nat -> Process;
  pid_table : nat -> PidDesc;
  free_piddesc_list : list nat;
  sess : nat -> Session;
  free_session_list : list nat;
  grp : nat -> Pgrp;
  free_pgrp_list : list nat;
  tty_sid : nat -> Z }.
Definition eta_pids s := mkPids (proc s) (pid_table s) (free_piddesc_list s) (sess s) (free_session_list s) (grp s)
  (free_pgrp_list s) (tty_sid s).
#[export] Instance set_proc : Setter proc := ltac:(solve_setter eta_pids).
#[export] Instance set_pid_table : Setter pid_table := ltac:(solve_setter eta_pids).
#[export] Instance set_free_piddesc : Setter free_piddesc_list := ltac:(solve_setter eta_pids).
#[export] Instance set_sess : Setter sess := ltac:(solve_setter eta_pids).
#[export] Instance set_free_session : Setter free_session_list := ltac:(solve_setter eta_pids).
#[export] Instance set_grp : Setter grp := ltac:(solve_setter eta_pids).
#[export] Instance set_free_pgrp : Setter free_pgrp_list := ltac:(solve_setter eta_pids).
#[export] Instance set_tty_sid : Setter tty_sid := ltac:(solve_setter eta_pids).

Section ops.
(** The size of [pid_table]. *)
Context (max_pid : Z).

Definition upd_proc (p : nat) (f : Process -> Process) : M pids unit :=
  modify (fun s => s <| proc ::= fun m => <[p := f (m p)]> m |>).
Definition upd_pd (i : nat) (f : PidDesc -> PidDesc) : M pids unit :=
  modify (fun s => s <| pid_table ::= fun m => <[i := f (m i)]> m |>).
Definition upd_sess (x : nat) (f : Session -> Session) : M pids unit :=
  modify (fun s => s <| sess ::= fun m => <[x := f (m x)]> m |>).
Definition upd_grp (x : nat) (f : Pgrp -> Pgrp) : M pids unit :=
  modify (fun s => s <| grp ::= fun m => <[x := f (m x)]> m |>).
Definition on_sess (x : nat) (f : list nat -> outcome (list nat)) : M pids unit :=
  update (fun s => s_process_list (sess s x))
         (fun l s => s <| sess ::= fun m => <[x := (m x) <| s_process_list := l |>]> m |>) f.
Definition on_grp (x : nat) (f : list nat -> outcome (list nat)) : M pids unit :=
  update (fun s => g_process_list (grp s x))
         (fun l s => s <| grp ::= fun m => <[x := (m x) <| g_process_list := l |>]> m |>) f.
Definition on_free_pd (f : list nat -> outcome (list nat)) : M pids unit :=
  update free_piddesc_list (fun l s => s <| free_piddesc_list := l |>) f.
Definition on_free_sess (f : list nat -> outcome (list nat)) : M pids unit :=
  update free_session_list (fun l s => s <| free_session_list := l |>) f.
Definition on_free_grp (f : list nat -> outcome (list nat)) : M pids unit :=
  update free_pgrp_list (fun l s => s <| free_pgrp_list := l |>) f.

(** *** Lookups; [None] is NULL *)
Definition pid_to_piddesc (p : Z) : option nat :=
  if (p <=? 0) || (max_pid <=? p) then None else Some (Z.to_nat (p - 1)).
Definition piddesc_to_pid (i : nat) : Z := Z.of_nat i + 1.
(** Without a range check, so [pid] has to be a pid. *)
Definition get_piddesc (s : pids) (p : nat) : nat := Z.to_nat (pid (proc s p) - 1).
Definition get_process (s : pids) (p : Z) : option nat :=
  match pid_to_piddesc p with Some i => pd_proc (pid_table s i) | None => None end.
Definition get_thread (s : pids) (t : Z) : option nat :=
  match pid_to_piddesc t with Some i => pd_thread (pid_table s i) | None => None end.
Definition get_session (s : pids) (p : Z) : option nat :=
  match pid_to_piddesc p with Some i => pd_session (pid_table s i) | None => None end.
Definition get_pgrp (s : pids) (p : Z) : option nat :=
  match pid_to_piddesc p with Some i => pd_pgrp (pid_table s i) | None => None end.

(** *** Allocation *)
Definition alloc_pid (d : PidDesc) : M pids ret :=
  l ← gets free_piddesc_list;
  match l with
  | [] => mret (RErr ENOMEM)
  | i :: _ =>
    _ ← on_free_pd dl_rem_head;
    _ ← upd_pd i (fun _ => d);
    mret (RVal (piddesc_to_pid i))
  end.
Definition alloc_pid_proc (p : nat) : M pids ret := alloc_pid (zero_PidDesc <| pd_proc := Some p |>).
Definition alloc_pid_thread (t : nat) : M pids ret := alloc_pid (zero_PidDesc <| pd_thread := Some t |>).

Definition alloc_session : M pids (option nat) :=
  l ← gets free_session_list;
  match l with
  | [] => mret None
  | x :: _ =>
    _ ← on_free_sess dl_rem_head;
    _ ← upd_sess x (fun _ => mkSession 0 None INVALID_PID []);
    mret (Some x)
  end.
Definition free_session (x : nat) : M pids unit :=
  o ← gets (fun s => controlling_tty (sess s x));
  _ ← (match o with
       | Some v => modify (fun s => s <| tty_sid ::= fun m => <[v := INVALID_PID]> m |>)
       | None => mret tt
       end);
  on_free_sess (dl_add_tail x).

Definition alloc_pgrp : M pids (option nat) :=
  l ← gets free_pgrp_list;
  match l with
  | [] => mret None
  | x :: _ =>
    _ ← on_free_grp dl_rem_head;
    _ ← upd_grp x (fun _ => mkPgrp 0 0 []);
    mret (Some x)
  end.
Definition free_pgrp (x : nat) : M pids unit := on_free_grp (dl_add_tail x).

Definition free_pid (p : Z) : M pids unit :=
  match pid_to_piddesc p with
  | None => panic
  | Some i =>
    _ ← upd_pd i (fun d => d <| pd_proc := None |> <| pd_thread := None |>);
    d ← gets (fun s => pid_table s i);
    _ ← (match pd_session d with
         | Some x => l ← gets (fun s => s_process_list (sess s x));
                     match l with
                     | [] => _ ← free_session x; upd_pd i (fun d => d <| pd_session := None |>)
                     | _ => mret tt
                     end
         | None => mret tt
         end);
    _ ← (match pd_pgrp d with
         | Some x => l ← gets (fun s => g_process_list (grp s x));
                     match l with
                     | [] => _ ← free_pgrp x; upd_pd i (fun d => d <| pd_pgrp := None |>)
                     | _ => mret tt
                     end
         | None => mret tt
         end);
    d ← gets (fun s => pid_table s i);
    match pd_session d, pd_pgrp d with
    | None, None => on_free_pd (dl_add_tail i)
    | _, _ => mret tt
    end
  end.

(** *** Membership *)
Definition remove_from_pgrp (p : nat) : M pids unit :=
  x ← gets (fun s => proc s p);
  match pid_to_piddesc (pgid x) with
  | None => mret tt
  | Some i =>
    o ← gets (fun s => pd_pgrp (pid_table s i));
    match o with
    | None => mret tt
    | Some g =>
      _ ← on_grp g (dl_rem p);
      se ← gets (fun s => get_session s (g_sid (grp s g)));
      l ← gets (fun s => g_process_list (grp s g));
      _ ← (match l with
           | [] => _ ← free_pgrp g; upd_pd i (fun d => d <| pd_pgrp := None |>)
           | _ => mret tt
           end);
      _ ← (match se with
           | Some y => upd_sess y (fun z => if foreground_pgrp z =? pgid x then z <| foreground_pgrp := INVALID_PID |> else z)
           | None => mret tt
           end);
      _ ← free_pid (pgid x);
      upd_proc p (fun x => x <| pgid := INVALID_PID |>)
    end
  end.

Definition remove_from_session (p : nat) : M pids unit :=
  x ← gets (fun s => proc s p);
  match pid_to_piddesc (sid x) with
  | None => mret tt
  | Some i =>
    o ← gets (fun s => pd_session (pid_table s i));
    match o with
    | None => mret tt
    | Some y =>
      _ ← on_sess y (dl_rem p);
      l ← gets (fun s => s_process_list (sess s y));
      _ ← (match l with
           | [] => _ ← free_session y; upd_pd i (fun d => d <| pd_session := None |>)
           | _ => mret tt
           end);
      _ ← free_pid (sid x);
      upd_proc p (fun x => x <| sid := INVALID_PID |>)
    end
  end.

Definition init_session_pgrp (p : nat) : M pids unit :=
  upd_proc p (fun x => x <| pgid := INVALID_PID |> <| sid := INVALID_PID |>).
Definition fini_session_pgrp (p : nat) : M pids unit := _ ← remove_from_pgrp p; remove_from_session p.
Definition fork_session_pgrp (new old : nat) : M pids unit :=
  o ← gets (fun s => proc s old);
  _ ← upd_proc new (fun x => x <| sid := sid o |> <| pgid := pgid o |>);
  se ← gets (fun s => get_session s (sid o));
  g ← gets (fun s => get_pgrp s (pgid o));
  _ ← (match se with Some y => on_sess y (dl_add_tail new) | None => mret tt end);
  match g with Some y => on_grp y (dl_add_tail new) | None => mret tt end.

(** *** System calls; [c] is the calling process *)
Definition sys_getpid (c : nat) : M pids Z := gets (fun s => pid (proc s c)).
Definition sys_getppid (c : nat) : M pids ret :=
  o ← gets (fun s => parent (proc s c));
  match o with
  | None => mret (RErr EINVAL)
  | Some q => v ← gets (fun s => pid (proc s q)); mret (RVal v)
  end.
Definition get_for (f : Process -> Z) (c : nat) (p : Z) : M pids ret :=
  s ← gets id;
  match (if p =? 0 then Some c else get_process s p) with
  | None => mret (RErr ESRCH)
  | Some q => if sid (proc s c) =? sid (proc s q) then mret (RVal (f (proc s q))) else mret (RErr EPERM)
  end.
Definition sys_getsid : nat -> Z -> M pids ret := get_for sid.
Definition sys_getpgid : nat -> Z -> M pids ret := get_for pgid.
Definition sys_getpgrp (c : nat) : M pids Z := gets (fun s => pgid (proc s c)).

Definition sys_setsid (c : nat) : M pids ret :=
  x ← gets (fun s => proc s c);
  if sid x =? pid x then mret (RErr EPERM)
  else if pgid x =? pid x then mret (RErr EPERM)
  else
    cur ← gets (fun s => get_session s (sid x));
    _ ← (match cur with
         | Some _ => _ ← remove_from_pgrp c; remove_from_session c
         | None => mret tt
         end);
    n ← alloc_session;
    match n with
    | None => mret (RErr ENOMEM)
    | Some y =>
      _ ← upd_sess y (fun z => z <| s_sid := pid x |>);
      _ ← on_sess y (dl_add_tail c);
      _ ← upd_proc c (fun z => z <| sid := pid x |> <| pgid := INVALID_PID |>);
      match pid_to_piddesc (pid x) with
      | None => fault
      | Some i =>
        _ ← upd_pd i (fun d => d <| pd_session := Some y |> <| pd_pgrp := None |>);
        mret (RVal (pid x))
      end
    end.

Definition sys_setpgid (c : nat) (p pg : Z) : M pids ret :=
  s ← gets id;
  match (if p =? 0 then Some c else get_process s p) with
  | None => mret (RErr ESRCH)
  | Some q =>
    if negb (sid (proc s c) =? sid (proc s q)) then mret (RErr EPERM)
    else match get_pgrp s pg with
         | None => mret (RErr EPERM)
         | Some g =>
           if negb (g_sid (grp s g) =? sid (proc s c)) then mret (RErr EPERM)
           else _ ← upd_proc q (fun x => x <| pgid := pg |>); mret (RVal 0)
         end
  end.

Definition sys_setpgrp (c : nat) : M pids ret :=
  x ← gets (fun s => proc s c);
  if pgid x =? pid x then mret (RErr EINVAL)
  else
    i ← gets (fun s => get_piddesc s c);
    _ ← (if pgid x =? INVALID_PID then mret tt else remove_from_pgrp c);
    _ ← upd_proc c (fun z => z <| pgid := pid z |>);
    n ← alloc_pgrp;
    match n with
    | None => mret (RErr ENOMEM)
    | Some g =>
      _ ← upd_grp g (fun z => z <| g_sid := sid x |>);
      _ ← on_grp g (dl_add_tail c);
      _ ← upd_pd i (fun d => d <| pd_pgrp := Some g |>);
      mret (RVal 0)
    end.
End ops.

(** ** Allocation *)
Section pid_props.
Context (max_pid : Z).
Implicit Types (s : pids) (c p i x y : nat).

(** The free list of descriptors: each in the table, once, and cleared. *)
Definition free_pids_ok s : Prop :=
  NoDup (free_piddesc_list s) /\
  forall i, i ∈ free_piddesc_list s -> Z.of_nat i < max_pid /\ pid_table s i = zero_PidDesc.

Lemma pid_to_piddesc_spec v :
  (0 < v < max_pid /\ pid_to_piddesc max_pid v = Some (Z.to_nat (v - 1))) \/
  (~ 0 < v < max_pid /\ pid_to_piddesc max_pid v = None).
Proof.
  rw /pid_to_piddesc. destruct (Z.leb_spec v 0); simpl; [right; split; [lia|done]|].
  destruct (Z.leb_spec max_pid v); [right; split; [lia|done]|left; split; [lia|done]].
Qed.
Lemma pid_to_piddesc_ok v : 0 < v < max_pid -> pid_to_piddesc max_pid v = Some (Z.to_nat (v - 1)).
Proof. intros Hv. by destruct (pid_to_piddesc_spec v) as [[_ ->]|[? _]]. Qed.

Lemma piddesc_to_pid_ok i : Z.to_nat (piddesc_to_pid i - 1) = i.
Proof. rw /piddesc_to_pid. lia. Qed.

(** Freeing a pid that names neither a session nor a group. *)
Lemma free_pid_plain s v :
  0 < v < max_pid -> pd_session (pid_table s (Z.to_nat (v - 1))) = None -> pd_pgrp (pid_table s (Z.to_nat (v - 1))) = None ->
  free_pid max_pid v s =
    match dl_add_tail (Z.to_nat (v - 1)) (free_piddesc_list s) with
    | Ok l => Ok (tt, s <| pid_table ::= fun m => <[Z.to_nat (v - 1) := (m (Z.to_nat (v - 1))) <| pd_proc := None |> <| pd_thread := None |>]> m |>
                        <| free_piddesc_list := l |>)
    | Panic => Panic
    | Fault => Fault
    end.
Proof.
  intros Hv Hs Hg. rw /free_pid pid_to_piddesc_ok //. set i := Z.to_nat (v - 1) in Hs, Hg |- *.
  rw /upd_pd /on_free_pd. mrun. simpl. reads. rw Hs Hg /=. reads. rw Hs Hg. done.
Qed.

(** C25: Allocating and freeing a pid. With no descriptor left the result is
    [ENOMEM] and nothing changes. Otherwise the pid is in [1 .. max_pid] and
    was free; below [max_pid] it finds its process until it is freed, which
    makes it the last of the free list. The pid [max_pid] itself, which the
    allocator does hand out, finds no process and panics the kernel when freed. *)
Theorem alloc_free_pid_correct s p :
  free_pids_ok s ->
  match free_piddesc_list s with
  | [] => alloc_pid_proc p s = Ok (RErr ENOMEM, s)
  | i :: l => exists s', alloc_pid_proc p s = Ok (RVal (Z.of_nat i + 1), s') /\ free_pids_ok s' /\
      0 < Z.of_nat i + 1 <= max_pid /\ free_piddesc_list s' = l /\ (i ∉ l) /\
      (forall v, v <> Z.of_nat i + 1 -> get_process max_pid s' v = get_process max_pid s v) /\
      (Z.of_nat i + 1 < max_pid -> get_process max_pid s' (Z.of_nat i + 1) = Some p /\
         exists s'', free_pid max_pid (Z.of_nat i + 1) s' = Ok (tt, s'') /\ free_pids_ok s'' /\
           free_piddesc_list s'' = l ++ [i] /\ get_process max_pid s'' (Z.of_nat i + 1) = None) /\
      (Z.of_nat i + 1 = max_pid -> get_process max_pid s' max_pid = None /\ free_pid max_pid max_pid s' = Panic)
  end.
Proof.
  intros [Hnd Hfree]. rw /alloc_pid_proc /alloc_pid. destruct (free_piddesc_list s) as [|i l] eqn:E.
  { mrun. by rw E. }
  apply NoDup_cons in Hnd as [Hil Hl]. destruct (Hfree i) as [Hi Hz]; [set_solver|].
  set s' := s <| free_piddesc_list := l |> <| pid_table ::= fun m => <[i := zero_PidDesc <| pd_proc := Some p |>]> m |>.
  exists s'. split. { rw /on_free_pd /upd_pd. mrun. by rw E E. }
  assert (forall j, j <> i -> pid_table s' j = pid_table s j) as Hj. { intros j Hj. rw /s' /=. by reads. }
  assert (pid_table s' i = zero_PidDesc <| pd_proc := Some p |>) as Hsi. { rw /s' /=. by reads. }
  split_and!; [split; [done|]|lia|lia|done|done| | |].
  - intros j Hj'. change (j ∈ l) in Hj'. rw Hj; [intros ->; done|]. apply Hfree. set_solver.
  - intros v Hv. rw /get_process. destruct (pid_to_piddesc_spec v) as [[Hr ->]|[_ ->]]; [|done].
    rw Hj //. lia.
  - intros Hmx. rw /get_process pid_to_piddesc_ok; [lia|]. replace (Z.to_nat (Z.of_nat i + 1 - 1)) with i by lia. rw Hsi. split; [done|].
    rw free_pid_plain; [lia|replace (Z.to_nat (Z.of_nat i + 1 - 1)) with i by lia; by rw Hsi..|].
    replace (Z.to_nat (Z.of_nat i + 1 - 1)) with i by lia. rw dl_add_tail_ok //. eexists. split; [done|].
    split_and!; try done; [split|].
    + simpl. apply NoDup_app. split_and!; [done|set_solver|apply NoDup_singleton].
    + intros j. simpl. intros [Hj'| ->%list_elem_of_singleton]%elem_of_app; reads; [|split; [lia|done]].
      reads. destruct (decide (i = j)) as [->|]; [done|]. reads. apply Hfree. set_solver.
    + simpl. by reads.
  - intros Hmx. rw /get_process /free_pid. by destruct (pid_to_piddesc_spec max_pid) as [[? _]|[_ ->]]; [lia|].
Qed.

(** ** Sessions *)

(** Freeing a pid that names a session with members left only makes it
    forget its process. *)
Lemma free_pid_session s v x :
  0 < v < max_pid -> pd_session (pid_table s (Z.to_nat (v - 1))) = Some x -> s_process_list (sess s x) <> [] ->
  pd_pgrp (pid_table s (Z.to_nat (v - 1))) = None ->
  free_pid max_pid v s =
    Ok (tt, s <| pid_table ::= fun m => <[Z.to_nat (v - 1) := (m (Z.to_nat (v - 1))) <| pd_proc := None |> <| pd_thread := None |>]> m |>).
Proof.
  intros Hv Hs Hl Hg. rw /free_pid pid_to_piddesc_ok //. set i := Z.to_nat (v - 1) in Hs, Hg |- *.
  rw /upd_pd. mrun. simpl. reads. rw Hs Hg /=. destruct (s_process_list (sess s x)) eqn:E; [done|]. simpl. reads. by rw Hs.
Qed.

(** Leaving a session that keeps other members. *)
Lemma remove_from_session_run s c y :
  get_session max_pid s (sid (proc s c)) = Some y -> c ∈ s_process_list (sess s y) ->
  list_remove1 c (s_process_list (sess s y)) <> [] -> get_pgrp max_pid s (sid (proc s c)) = None ->
  exists i, pid_to_piddesc max_pid (sid (proc s c)) = Some i /\
  remove_from_session max_pid c s =
    Ok (tt, s <| sess ::= fun m => <[y := (m y) <| s_process_list := list_remove1 c (s_process_list (sess s y)) |>]> m |>
              <| pid_table ::= fun m => <[i := (m i) <| pd_proc := None |> <| pd_thread := None |>]> m |>
              <| proc ::= fun m => <[c := (m c) <| sid := INVALID_PID |>]> m |>).
Proof.
  rw /get_session /get_pgrp. intros Hs Hc Hne Hg. destruct (pid_to_piddesc_spec (sid (proc s c))) as [[Hv E]|[_ E]]; rw E in Hs, Hg; [|done].
  exists (Z.to_nat (sid (proc s c) - 1)). split; [done|].
  rw /remove_from_session {1}/mbind {1}/M_bind {1}/gets E {1}/mbind {1}/M_bind {1}/gets Hs.
  rw {1}/mbind {1}/M_bind /on_sess {1}/update dl_rem_ok // {1}/mbind {1}/M_bind {1}/gets /= fn_lookup_insert /=.
  destruct (list_remove1 c (s_process_list (sess s y))) as [|z l] eqn:El; [done|].
  rw {1}/mbind {1}/M_bind {1}/mret {1}/M_ret {1}/mbind {1}/M_bind (free_pid_session _ _ y) //=; try by reads.
Qed.

(** [setsid] by a member of a session that is not its leader: the caller
    leaves the old session, whose other members stay, and is the only member
    and the leader of a new one. As a side effect the pid of the old session's
    leader, which goes on running, no longer finds its process. *)
Theorem setsid_correct s c ld y x l :
  let p := pid (proc s c) in let sd := sid (proc s c) in
  0 < p < max_pid -> sd <> p -> pgid (proc s c) = INVALID_PID ->
  get_session max_pid s sd = Some y -> get_process max_pid s sd = Some ld -> get_pgrp max_pid s sd = None ->
  c ∈ s_process_list (sess s y) -> list_remove1 c (s_process_list (sess s y)) <> [] -> free_session_list s = x :: l -> x <> y ->
  exists s', sys_setsid max_pid c s = Ok (RVal p, s') /\ sid (proc s' c) = p /\ pgid (proc s' c) = INVALID_PID /\
    get_session max_pid s' p = Some x /\ s_process_list (sess s' x) = [c] /\ s_sid (sess s' x) = p /\
    s_process_list (sess s' y) = list_remove1 c (s_process_list (sess s y)) /\ free_session_list s' = l /\
    (forall q, q <> c -> proc s' q = proc s q) /\ get_process max_pid s' sd = None.
Proof.
  intros p sd Hp Hne Hpg Hs Hld Hg Hc Hl Hfree Hxy.
  destruct (remove_from_session_run s c y Hs Hc Hl Hg) as (i & Hi & Hrun).
  assert (remove_from_pgrp max_pid c s = Ok (tt, s)) as Hrun1. { rw /remove_from_pgrp {1}/mbind {1}/M_bind {1}/gets Hpg //. }
  rw /sys_setsid {1}/mbind {1}/M_bind {1}/gets. destruct (Z.eqb_spec (sid (proc s c)) (pid (proc s c))); [done|].
  rw Hpg. destruct (Z.eqb_spec INVALID_PID (pid (proc s c))) as [E|_]; [rw /INVALID_PID in E; lia|].
  rw {1}/mbind {1}/M_bind {1}/gets Hs {1}/mbind {1}/M_bind {1}/mbind {1}/M_bind Hrun1 Hrun.
  rw /alloc_session {1}/mbind {1}/M_bind {1}/mbind {1}/M_bind {1}/gets /= Hfree.
  rw /on_free_sess /on_sess /upd_sess /upd_proc /upd_pd pid_to_piddesc_ok //. mrun. rw /= Hfree /= fn_lookup_insert /=. reads.
  eexists. split; [done|]. simpl. rw /get_session /get_process pid_to_piddesc_ok // Hi.
  assert (Z.to_nat (pid (proc s c) - 1) <> i) as Hij.
  { destruct (pid_to_piddesc_spec (sid (proc s c))) as [[Hv E]|[_ E]]; rw E in Hi; [|done]. injection Hi as <-. rw /sd /p in Hne. lia. }
  split_and!; try (by reads); intros q Hq; by reads.
Qed.

(** When the last member of a session, its leader, exits, leaving the
    session already puts its pid back on the free list, so that freeing the
    process adds it a second time. *)
Theorem leader_exit_frees_twice s c y :
  let p := pid (proc s c) in
  0 < p < max_pid -> sid (proc s c) = p -> pgid (proc s c) = INVALID_PID -> (Z.to_nat (p - 1) ∉ free_piddesc_list s) ->
  get_session max_pid s p = Some y -> get_pgrp max_pid s p = None -> s_process_list (sess s y) = [c] ->
  controlling_tty (sess s y) = None -> (y ∉ free_session_list s) ->
  exists s', fini_session_pgrp max_pid c s = Ok (tt, s') /\ Z.to_nat (p - 1) ∈ free_piddesc_list s' /\ free_pid max_pid p s' = Fault.
Proof.
  intros p Hp Hsid Hpg Hnf Hs Hg Hl Htty Hny. rw /get_session /get_pgrp pid_to_piddesc_ok // in Hs, Hg.
  assert (remove_from_pgrp max_pid c s = Ok (tt, s)) as Hrun1. { rw /remove_from_pgrp {1}/mbind {1}/M_bind {1}/gets Hpg //. }
  rw /fini_session_pgrp {1}/mbind {1}/M_bind Hrun1 /remove_from_session {1}/mbind {1}/M_bind {1}/gets Hsid pid_to_piddesc_ok //.
  rw {1}/mbind {1}/M_bind {1}/gets Hs {1}/mbind {1}/M_bind /on_sess {1}/update Hl dl_rem_ok; [set_solver|]. simpl. rw decide_True //.
  rw {1}/mbind {1}/M_bind {1}/gets /= fn_lookup_insert /=. rw /free_session {1}/mbind {1}/M_bind {1}/mbind {1}/M_bind {1}/mbind {1}/M_bind {1}/gets /=.
  rw fn_lookup_insert /= Htty {1}/mbind {1}/M_bind {1}/mret {1}/M_ret /on_free_sess {1}/update /= dl_add_tail_ok //.
  rw {1}/mbind {1}/M_bind /upd_pd {1}/modify free_pid_plain //; [by simpl; reads..|]. simpl. rw dl_add_tail_ok //.
  eexists. split; [done|]. simpl. split; [set_solver|]. rw free_pid_plain //; [by simpl; reads..|]. simpl.
  rw /dl_add_tail decide_True //. set_solver.
Qed.
End pid_props.

(** ** Witnesses: five pids; process 0 (pid 1) leads the session 0, process 1
    (pid 2) is a member of it, and pids 3, 4 and 5 are free. *)
Module Sample.
Definition state0 : pids :=
  {| proc := fun p => match p with
                      | 0 => mkProcess 1 1 INVALID_PID None
                      | 1 => mkProcess 2 1 INVALID_PID (Some 0)
                      | _ => mkProcess 0 0 0 None
                      end%nat;
     pid_table := fun i => match i with
                           | 0 => mkPidDesc (Some 0) None (Some 0) None
                           | 1 => mkPidDesc (Some 1) None None None
                           | _ => zero_PidDesc
                           end%nat;
     free_piddesc_list := [2; 3; 4]%nat;
     sess := fun x => match x with 0 => mkSession 1 None INVALID_PID [0; 1] | _ => mkSession 0 None 0 [] end%nat;
     free_session_list := [1; 2]%nat;
     grp := fun _ => mkPgrp 0 0 []; free_pgrp_list := [0; 1]%nat; tty_sid := fun _ => 0 |}.
(** The last pid is the only one left. *)
Definition last_pid : pids := state0 <| free_piddesc_list := [4]%nat |>.
(** The leader alone. *)
Definition lone : pids :=
  state0 <| sess := fun x => match x with O => mkSession 1 None INVALID_PID [0%nat] | _ => mkSession 0 None 0 [] end |>.
End Sample.
Import Sample.

Lemma alloc_free_pid_correct_witness :
  (exists s', alloc_pid_proc 7 state0 = Ok (RVal 3, s') /\ get_process 5 s' 3 = Some 7%nat) /\
  (exists s', alloc_pid_proc 7 last_pid = Ok (RVal 5, s') /\ get_process 5 s' 5 = None /\ free_pid 5 5 s' = Panic).
Proof.
  assert (free_pids_ok 5 state0) as H1.
  { split; [by apply (bool_decide_unpack _)|]. intros i. simpl. rw !elem_of_cons elem_of_nil. intros [->|[->|[->|[]]]]; (split; [lia|done]). }
  assert (free_pids_ok 5 last_pid) as H2.
  { split; [by apply (bool_decide_unpack _)|]. intros i. simpl. intros ->%list_elem_of_singleton. split; [lia|done]. }
  split.
  - destruct (alloc_free_pid_correct 5 state0 7 H1) as (s' & Hr & _ & _ & _ & _ & _ & Hg & _). exists s'. split; [exact Hr|]. apply Hg. simpl. lia.
  - destruct (alloc_free_pid_correct 5 last_pid 7 H2) as (s' & Hr & _ & _ & _ & _ & _ & _ & Hg). exists s'. split; [exact Hr|]. apply Hg. reflexivity.
Defined.

Lemma setsid_correct_witness :
  exists s', sys_setsid 5 1 state0 = Ok (RVal 2, s') /\ sid (proc s' 1%nat) = 2 /\ pgid (proc s' 1%nat) = INVALID_PID /\
    get_session 5 s' 2 = Some 1%nat /\ s_process_list (sess s' 1%nat) = [1%nat] /\ s_sid (sess s' 1%nat) = 2 /\
    s_process_list (sess s' 0%nat) = [0%nat] /\ free_session_list s' = [2%nat] /\
    (forall q, q <> 1%nat -> proc s' q = proc state0 q) /\ get_process 5 s' 1 = None.
Proof.
  apply (setsid_correct 5 state0 1 0 0 1 [2%nat]); simpl; try reflexivity; try lia; try discriminate. set_solver.
Defined.

Lemma leader_exit_frees_twice_witness :
  exists s', fini_session_pgrp 5 0 lone = Ok (tt, s') /\ 0%nat ∈ free_piddesc_list s' /\ free_pid 5 1 s' = Fault.
Proof.
  apply (leader_exit_frees_twice 5 lone 0 0); simpl; try reflexivity; try lia; set_solver.
Defined.
