(* ===== verification/Timer.v ===== *)
(** * Timer: clocks and the hashed timing wheel

    proc/timer.c. Timers are named by numbers. The callbacks of the kernel
    wake threads and leave the wheel alone; here a callback that runs is
    recorded in [fired]. A call that sleeps until its timer has expired is
    modelled up to the sleep. *)

From Stdlib Require Import Sorted.
From S2P Require Import Prelude Sched.
Local Open Scope Z_scope.
Local Open Scope kernel_scope.

Definition MICROSECONDS_PER_JIFFY : Z := 10000.
(** Conversion to [int]. *)
Definition sint32 (z : Z) : Z := (z + 2 ^ 31) mod 2 ^ 32 - 2 ^ 31.

(** Callbacks: [SleepCallback], or the one given to [SetTimeout]. *)
Inductive timer_cb : Type := SleepCallback | UserCallback (f : nat).

Record Timer := mkTimer {
  armed : bool;
  expiration_time : Z;
  t_arg : option nat;
  callback : option timer_cb;
  t_thread : option nat }.
Definition eta_Timer t := mkTimer (armed t) (expiration_time t) (t_arg t) (callback t) (t_thread t).
#[export] Instance set_armed : Setter armed := ltac:(solve_setter eta_Timer).
#[export] Instance set_expiration_time : Setter expiration_time := ltac:(solve_setter eta_Timer).
#[export] Instance set_t_arg : Setter t_arg := ltac:(solve_setter eta_Timer).
#[export] Instance set_callback : Setter callback := ltac:(solve_setter eta_Timer).
#[export] Instance set_t_thread : Setter t_thread := ltac:(solve_setter eta_Timer).

(** [hardclock_time] and [softclock_time] are 32-bit longs. *)
Record clocks := mkClocks {
  timer : nat -> Timer;
  wheel : Z -> list nat;
  hardclock_time : Z;
  softclock_time : Z;
  fired : list nat }.
Definition eta_clocks s := mkClocks (timer s) (wheel s) (hardclock_time s) (softclock_time s) (fired s).
#[export] Instance set_timer : Setter timer := ltac:(solve_setter eta_clocks).
#[export] Instance set_wheel : Setter wheel := ltac:(solve_setter eta_clocks).
#[export] Instance set_hardclock_time : Setter hardclock_time := ltac:(solve_setter eta_clocks).
#[export] Instance set_softclock_time : Setter softclock_time := ltac:(solve_setter eta_clocks).
#[export] Instance set_fired : Setter fired := ltac:(solve_setter eta_clocks).

Definition upd_timer (t : nat) (f : Timer -> Timer) : M clocks unit :=
  modify (fun s => s <| timer ::= fun m => <[t := f (m t)]> m |>).
Definition on_slot (i : Z) (f : list nat -> outcome (list nat)) : M clocks unit :=
  if (0 <=? i) && (i <? JIFFIES_PER_SECOND) then
    update (fun s => wheel s i) (fun l s => s <| wheel ::= fun m => <[i := l]> m |>) f
  else fault.

(** ** Reading the clock *)

(** Seconds and the rest; the rest is in jiffies. *)
Definition sys_gettimeofday (s : clocks) : Z * Z :=
  (Z.quot (hardclock_time s) JIFFIES_PER_SECOND, Z.rem (hardclock_time s) JIFFIES_PER_SECOND).

(** [CLOCK_REALTIME] and [CLOCK_MONOTONIC], the third one read from the
    board's counter, or any other number. *)
Inductive clockid : Type := CLOCK_REALTIME | CLOCK_MONOTONIC | CLOCK_MONOTONIC_RAW | CLOCK_OTHER.
Definition clock_value (raw : ret * (Z * Z)) (id : clockid) (s : clocks) : ret * (Z * Z) :=
  match id with
  | CLOCK_REALTIME | CLOCK_MONOTONIC =>
    (RVal 0, (Z.quot (hardclock_time s) JIFFIES_PER_SECOND, Z.rem (hardclock_time s) JIFFIES_PER_SECOND * NANOSECONDS_PER_JIFFY))
  | CLOCK_MONOTONIC_RAW => raw
  | CLOCK_OTHER => (RErr EINVAL, (0, 0))
  end.
(** [copyout_ok]: whether the copy to the caller's buffer succeeds. *)
Definition sys_clock_gettime (raw : ret * (Z * Z)) (copyout_ok : bool) (id : clockid) (null : bool) (s : clocks) : ret * option (Z * Z) :=
  if null then (RErr EINVAL, None)
  else match clock_value raw id s with
       | (RVal v, ts) => if v =? 0 then if copyout_ok then (RVal 0, Some ts) else (RErr EFAULT, None) else (RVal v, None)
       | (RErr e, _) => (RErr e, None)
       end.
Definition sys_settimeofday : ret := RVal 0.
Definition sys_clock_settime : ret := RErr ENOSYS.
Definition sys_alarm : ret := RErr ENOSYS.
Definition get_hardclock (s : clocks) : Z := wrap64 (hardclock_time s).

Definition timeval_to_ticks (sec usec : Z) : Z :=
  wrap64 (wrap64 sec * JIFFIES_PER_SECOND + wrap64 usec * MICROSECONDS_PER_JIFFY).
Definition timespec_to_ticks (sec nsec : Z) : Z :=
  wrap64 (wrap64 sec * JIFFIES_PER_SECOND + wrap64 nsec * NANOSECONDS_PER_JIFFY).

(** ** Arming *)

(** The sleep timer [t] of thread [c] set to expire at [e], then the thread
    sleeps while it is armed. *)
Definition arm_sleep (t c : nat) (e : clocks -> Z) : M clocks unit :=
  _ ← upd_timer t (fun x => x <| t_thread := Some c |> <| armed := true |> <| callback := Some SleepCallback |>);
  e ← gets e;
  _ ← upd_timer t (fun x => x <| expiration_time := e |>);
  on_slot (wheel_slot e) (dl_add_tail t).
Definition sys_sleep (t c : nat) (seconds : Z) : M clocks unit :=
  arm_sleep t c (fun s => sint64 (hardclock_time s + seconds * JIFFIES_PER_SECOND)).
(** [spin] is the result of the board's busy wait for less than 10 ms. *)
Definition sys_nanosleep (spin : ret) (req : option (Z * Z)) (t c : nat) : M clocks ret :=
  match req with
  | None => mret (RErr EFAULT)
  | Some (sec, nsec) =>
    if (sec =? 0) && (nsec <? 10000000) && bool_decide (spin = RVal 0) then mret (RVal 0)
    else
      _ ← arm_sleep t c (fun s => sint64 (hardclock_time s + sec * JIFFIES_PER_SECOND + Z.quot nsec NANOSECONDS_PER_JIFFY));
      mret (RVal 0)
  end.
(** Here the sum is one of a long and an int, of 32 bits, and may overflow;
    above, JIFFIES_PER_SECOND makes it a long long. *)
Definition sleep_ticks (t c : nat) (ticks : Z) : M clocks unit :=
  h ← gets hardclock_time;
  if (h + ticks <? - 2 ^ 31) || (2 ^ 31 <=? h + ticks) then fault
  else arm_sleep t c (fun s => sint64 (hardclock_time s + ticks)).

(** [t] is the thread's [timeout_timer]; the result is an int. *)
Definition SetTimeout (t c : nat) (milliseconds : Z) (cb : option timer_cb) (arg : option nat) : M clocks Z :=
  x ← gets (fun s => timer s t);
  h ← gets hardclock_time;
  _ ← (if armed x then
         _ ← on_slot (wheel_slot (expiration_time x)) (dl_rem t);
         upd_timer t (fun x => x <| armed := false |>)
       else mret tt);
  _ ← (if 0 <? milliseconds then
         let e := sint64 (h + Z.quot milliseconds (Z.quot 1000 JIFFIES_PER_SECOND) + 1) in
         _ ← upd_timer t (fun x => x <| expiration_time := e |> <| t_thread := Some c |> <| callback := cb |> <| t_arg := arg |>
                                    <| armed := true |>);
         on_slot (wheel_slot e) (dl_add_tail t)
       else mret tt);
  mret (if armed x then sint32 (h - Z.quot (expiration_time x) JIFFIES_PER_SECOND) else 0).

(** ** Ticks *)

(** The clock's part of [TimerTopHalf]; the last value of a long overflows. *)
Definition tick : M clocks unit :=
  h ← gets hardclock_time;
  if h =? 2 ^ 31 - 1 then fault else modify (fun s => s <| hardclock_time := h + 1 |>).

(** The walk along one slot: the successor is read before the timer is
    removed. [n] turns are enough for a list of [n]. *)
Fixpoint expire_loop (n : nat) (i : Z) (o : option nat) : M clocks unit :=
  match o with
  | None => mret tt
  | Some t =>
    match n with
    | O => fault
    | S n' =>
      next ← gets (fun s => dl_next t (wheel s i));
      x ← gets (fun s => timer s t);
      now ← gets softclock_time;
      _ ← (if expiration_time x <=? now then
             _ ← on_slot i (dl_rem t);
             _ ← upd_timer t (fun x => x <| armed := false |>);
             match callback x with
             | Some _ => modify (fun s => s <| fired ::= fun l => l ++ [t] |>)
             | None => mret tt
             end
           else mret tt);
      expire_loop n' i next
    end
  end.

(** One turn of the catch-up loop of [timer_bottom_half_task]. *)
Definition soft_tick : M clocks unit :=
  now ← gets softclock_time;
  let i := wheel_slot now in
  l ← gets (fun s => wheel s i);
  _ ← expire_loop (length l) i (head l);
  modify (fun s => s <| softclock_time ::= fun z => z + 1 |>).

(** [n] turns are enough to catch up [n] ticks. *)
Fixpoint timer_bottom_half (n : nat) : M clocks unit :=
  h ← gets hardclock_time;
  now ← gets softclock_time;
  if now <? h then
    match n with
    | O => fault
    | S n' => _ ← soft_tick; timer_bottom_half n'
    end
  else mret tt.

(** ** The wheel *)
Section wheel.
Implicit Types (s : clocks) (t : nat) (i now : Z) (l : list nat).

Definition late s t : Prop := expiration_time (timer s t) <= softclock_time s.
Definition late_cb s t : Prop := late s t /\ callback (timer s t) <> None.
#[local] Instance late_dec s t : Decision (late s t).
Proof. rw /late. apply _. Defined.
#[local] Instance cb_dec (o : option timer_cb) : Decision (o <> None).
Proof. destruct o; [by left|right; auto]. Defined.
#[local] Instance late_cb_dec s t : Decision (late_cb s t).
Proof. rw /late_cb. apply _. Defined.

(** What expiring leaves alone. *)
Definition same_timers s s' : Prop :=
  (forall t, expiration_time (timer s' t) = expiration_time (timer s t) /\ callback (timer s' t) = callback (timer s t)) /\
  hardclock_time s' = hardclock_time s /\ softclock_time s' = softclock_time s.

Lemma on_slot_run s i f l :
  0 <= i < JIFFIES_PER_SECOND -> f (wheel s i) = Ok l -> on_slot i f s = Ok (tt, s <| wheel ::= fun m => <[i := l]> m |>).
Proof.
  intros Hi Hf. rw /on_slot. destruct (Z.leb_spec 0 i); [|lia]. destruct (Z.ltb_spec i JIFFIES_PER_SECOND); [|lia].
  by rw /= /update Hf.
Qed.

Lemma expire_loop_spec rest pre s i :
  0 <= i < JIFFIES_PER_SECOND -> wheel s i = pre ++ rest -> NoDup (pre ++ rest) ->
  exists s', expire_loop (length rest) i (head rest) s = Ok (tt, s') /\ same_timers s s' /\
    wheel s' i = pre ++ filter (fun t => ~ late s t) rest /\ (forall j, j <> i -> wheel s' j = wheel s j) /\
    (forall t, armed (timer s' t) = if decide (t ∈ rest /\ late s t) then false else armed (timer s t)) /\
    fired s' = fired s ++ filter (late_cb s) rest.
Proof.
  intros Hi. revert pre s. induction rest as [|t rest IH]; intros pre s Hw Hnd.
  { exists s. rw !app_nil_r /=. split_and!; try done; try (by rw Hw ?app_nil_r). }
  assert (t ∉ pre /\ t ∉ rest) as [Htp Htr].
  { apply NoDup_app in Hnd as (? & Hd & [? ?]%NoDup_cons). split; [|done]. intros Hp. apply (Hd t Hp). set_solver. }
  rw /= {1}/mbind {1}/M_bind {1}/gets Hw dl_next_app // {1}/mbind {1}/M_bind {1}/gets {1}/mbind {1}/M_bind {1}/gets.
  destruct (Z.leb_spec (expiration_time (timer s t)) (softclock_time s)) as [Hl|Hl]; last first.
  { rw {1}/mbind {1}/M_bind {1}/mret {1}/M_ret. destruct (IH (pre ++ [t]) s) as (s' & Hr & Hs & Hw' & Hj & Ha & Hf); [by rw -app_assoc|by rw -app_assoc|].
    assert (~ late s t) as Hn by (rw /late; lia).
    exists s'. split_and!; try done.
    - rw Hw' filter_cons decide_True // -app_assoc //.
    - intros u. rw Ha. destruct (decide (u ∈ rest /\ late s u)) as [[? ?]|Hu]; [rw decide_True //; set_solver|].
      rw decide_False //. intros [[->|?]%elem_of_cons ?]; naive_solver.
    - rw Hf filter_cons decide_False //. by intros [? _]. }
  assert (dl_rem t (wheel s i) = Ok (pre ++ rest)) as Hrem.
  { rw Hw dl_rem_ok; [set_solver|]. by rw list_remove1_app. }
  set s1 := s <| wheel ::= fun m => <[i := pre ++ rest]> m |> <| timer ::= fun m => <[t := (m t) <| armed := false |>]> m |>
              <| fired ::= fun l => l ++ (match callback (timer s t) with Some _ => [t] | None => [] end) |>.
  rw {1}/mbind {1}/M_bind.
  match goal with |- context [match ?m s with Ok _ => _ | _ => _ end] => assert (m s = Ok (tt, s1)) as -> end.
  { rw {1}/mbind {1}/M_bind (on_slot_run _ _ _ _ Hi Hrem) {1}/mbind {1}/M_bind {1}/upd_timer {1}/modify /s1.
    destruct (callback (timer s t)); [done|]. mrun. do 2 f_equal. rw /setf /set_wheel /set_timer /set_fired /= app_nil_r //. }
  destruct (IH pre s1) as (s' & Hr & (Hs & Hh & Hsf) & Hw' & Hj & Ha & Hf).
  { rw /s1 /=. by reads. }
  { rw -Permutation_middle in Hnd. by apply NoDup_cons in Hnd as [_ ?]. }
  assert (forall u, expiration_time (timer s1 u) = expiration_time (timer s u) /\ callback (timer s1 u) = callback (timer s u)) as He1.
  { intros u. rw /s1 /=. destruct (decide (t = u)) as [->|]; by reads. }
  assert (forall u, late s1 u <-> late s u) as Hlt. { intros u. rw /late. by destruct (He1 u) as [-> _]. }
  assert (forall u, late_cb s1 u <-> late_cb s u) as Hlc. { intros u. rw /late_cb Hlt. by destruct (He1 u) as [_ ->]. }
  exists s'. split_and!; try done.
  - split; [|done]. intros u. destruct (Hs u) as [-> ->]. apply He1.
  - rw Hw' filter_cons (decide_False (P := ~ late s t)); [intros Hn; apply Hn; exact Hl|]. f_equal. apply list_filter_ext. intros u _. by rw Hlt.
  - intros j Hj'. rw Hj // /s1 /=. by reads.
  - intros u. rw Ha. destruct (decide (u ∈ rest /\ late s1 u)) as [[? ?%Hlt]|Hu]; [rw decide_True //; set_solver|].
    rw /s1 /=. destruct (decide (t = u)) as [->|Hne]; reads.
    + rw decide_True //. split; [set_solver|exact Hl].
    + rw decide_False //. intros [[->|?]%elem_of_cons ?]; [done|]. apply Hu. by rw Hlt.
  - rw Hf filter_cons /s1 /= -app_assoc. f_equal. rw (list_filter_ext (late_cb s1) (late_cb s)); [intros; apply Hlc|].
    destruct (callback (timer s t)) eqn:Ecb; simpl.
    + rw decide_True //. split; [exact Hl|congruence].
    + rw decide_False //. intros [_ ?]. done.
Qed.

(** Every armed timer, and no other, is on the wheel, once, in the slot of its
    expiration time, which has not passed. *)
Record wheel_ok s : Prop := {
  w_clock : 0 <= softclock_time s <= hardclock_time s;
  w_slot : forall i t, t ∈ wheel s i <->
    armed (timer s t) = true /\ i = wheel_slot (expiration_time (timer s t));
  w_nodup : forall i, NoDup (wheel s i);
  w_time : forall t, armed (timer s t) = true -> softclock_time s <= expiration_time (timer s t) }.

Lemma wheel_slot_range e : 0 <= e -> 0 <= wheel_slot e < JIFFIES_PER_SECOND.
Proof. intros He. rw /wheel_slot. apply Z.rem_bound_pos; rw /JIFFIES_PER_SECOND; lia. Qed.

Lemma soft_tick_spec s :
  wheel_ok s -> softclock_time s < hardclock_time s ->
  exists s' F, soft_tick s = Ok (tt, s') /\ wheel_ok s' /\
    softclock_time s' = softclock_time s + 1 /\ hardclock_time s' = hardclock_time s /\
    (forall t, expiration_time (timer s' t) = expiration_time (timer s t) /\ callback (timer s' t) = callback (timer s t)) /\
    (forall t, armed (timer s' t) = true <-> armed (timer s t) = true /\ softclock_time s < expiration_time (timer s t)) /\
    fired s' = fired s ++ F /\ NoDup F /\
    (forall t, t ∈ F <-> armed (timer s t) = true /\ expiration_time (timer s t) = softclock_time s /\ callback (timer s t) <> None).
Proof.
  intros [H1 H2 H3 H4] Hlt. set i := wheel_slot (softclock_time s).
  pose proof (wheel_slot_range (softclock_time s) ltac:(lia)) as Hi. fold i in Hi.
  destruct (expire_loop_spec (wheel s i) [] s i Hi eq_refl (H3 i)) as (s1 & Hr & (He & Hh & Hs) & Hw & Hwo & Ha & Hf).
  exists (s1 <| softclock_time ::= fun z => z + 1 |>), (filter (late_cb s) (wheel s i)).
  assert (forall t, t ∈ wheel s i /\ late s t <-> armed (timer s t) = true /\ expiration_time (timer s t) = softclock_time s) as Hlate.
  { intros t. rw H2 /late. split.
    - intros [[Harm _] Hle]. split; [done|]. pose proof (H4 t Harm). lia.
    - intros [Harm E]. split; [|lia]. split; [done|]. by rw E. }
  assert (forall t, armed (timer s1 t) = true <-> armed (timer s t) = true /\ softclock_time s < expiration_time (timer s t)) as Harm.
  { intros t. rw Ha. destruct (decide (t ∈ wheel s i /\ late s t)) as [[Hin Hl]|Hn]; [rw /late in Hl; naive_solver lia|].
    split; [|naive_solver]. intros Harm. split; [done|]. pose proof (H4 t Harm).
    destruct (decide (expiration_time (timer s t) = softclock_time s)); [|lia]. exfalso. apply Hn. by apply Hlate. }
  split_and!; try done.
  - rw /soft_tick {1}/mbind {1}/M_bind {1}/gets {1}/mbind {1}/M_bind {1}/gets -/i {1}/mbind {1}/M_bind Hr //.
  - split; simpl.
    + lia.
    + intros j t. destruct (He t) as [-> _]. rw Harm. destruct (decide (j = i)) as [->|Hne].
      * rw Hw /= list_elem_of_filter H2 /late. naive_solver lia.
      * rw Hwo // H2. split; [|naive_solver]. intros [Harm' Ej]. split_and!; try done. pose proof (H4 t Harm').
        destruct (decide (expiration_time (timer s t) = softclock_time s)) as [E|]; [|lia]. rw E in Ej. done.
    + intros j. destruct (decide (j = i)) as [->|]; [rw Hw; by apply NoDup_filter|by rw Hwo].
    + intros t Harm'%Harm. destruct (He t) as [-> _]. lia.
  - simpl. lia.
  - by apply NoDup_filter.
  - intros t. rw list_elem_of_filter /late_cb. rw (and_comm (late s t)) -and_assoc (and_comm (late s t)) Hlate. naive_solver.
Qed.

(** In order of expiration. *)
Definition by_time s l : Prop := StronglySorted (fun t u => expiration_time (timer s t) <= expiration_time (timer s u)) l.

Lemma by_time_app s l1 l2 :
  by_time s l1 -> by_time s l2 -> (forall t u, t ∈ l1 -> u ∈ l2 -> expiration_time (timer s t) <= expiration_time (timer s u)) -> by_time s (l1 ++ l2).
Proof.
  rw /by_time. induction 1 as [|t l1 Hl IH Hall]; intros H2 Hle; simpl; [done|].
  apply SSorted_cons; [apply IH; [done|set_solver]|]. apply Forall_app. split; [done|]. apply Forall_forall. intros u Hu. apply Hle; set_solver.
Qed.
Lemma by_time_ext s s' l : (forall t, expiration_time (timer s t) = expiration_time (timer s' t)) -> by_time s l -> by_time s' l.
Proof.
  intros He. induction 1 as [|t l Hl IH Hall]; [apply SSorted_nil|]. apply SSorted_cons; [done|].
  apply (Forall_impl _ _ _ Hall). intros u. by rw !He.
Qed.
Lemma by_time_const s l z : (forall t, t ∈ l -> expiration_time (timer s t) = z) -> by_time s l.
Proof.
  induction l as [|t l IH]; intros Hz; [apply SSorted_nil|]. apply SSorted_cons; [apply IH; set_solver|].
  apply Forall_forall. intros u Hu. rw !Hz; [set_solver..|lia].
Qed.

Lemma bottom_half_spec n s :
  wheel_ok s -> hardclock_time s - softclock_time s = Z.of_nat n ->
  exists s' F, timer_bottom_half n s = Ok (tt, s') /\ wheel_ok s' /\
    softclock_time s' = hardclock_time s /\ hardclock_time s' = hardclock_time s /\
    (forall t, expiration_time (timer s' t) = expiration_time (timer s t) /\ callback (timer s' t) = callback (timer s t)) /\
    (forall t, armed (timer s' t) = true <-> armed (timer s t) = true /\ hardclock_time s <= expiration_time (timer s t)) /\
    fired s' = fired s ++ F /\ NoDup F /\ by_time s F /\
    (forall t, t ∈ F <-> armed (timer s t) = true /\ expiration_time (timer s t) < hardclock_time s /\ callback (timer s t) <> None).
Proof.
  revert s. induction n as [|n IH]; intros s Hok Hn; simpl; rw {1}/mbind {1}/M_bind {1}/gets {1}/mbind {1}/M_bind {1}/gets.
  - destruct (Z.ltb_spec (softclock_time s) (hardclock_time s)); [lia|]. exists s, []. rw app_nil_r.
    split_and!; try done; [lia| |apply NoDup_nil_2|apply SSorted_nil|]; intros t; pose proof (w_time _ Hok t) as Ht.
    + naive_solver lia.
    + split; [set_solver|]. intros (Harm & ? & _). specialize (Ht Harm). lia.
  - destruct (Z.ltb_spec (softclock_time s) (hardclock_time s)) as [Hlt|]; [|lia].
    destruct (soft_tick_spec s Hok Hlt) as (s1 & F1 & Hr1 & Hok1 & Hs1 & Hh1 & He1 & Ha1 & Hf1 & Hnd1 & HF1).
    destruct (IH s1 Hok1) as (s' & F2 & Hr2 & Hok2 & Hs2 & Hh2 & He2 & Ha2 & Hf2 & Hnd2 & Hso2 & HF2); [lia|].
    assert (forall t, t ∈ F2 <-> armed (timer s t) = true /\ softclock_time s < expiration_time (timer s t) < hardclock_time s /\ callback (timer s t) <> None) as HF2'.
    { intros t. rw HF2 Ha1 Hh1. destruct (He1 t) as [-> ->]. naive_solver. }
    exists s', (F1 ++ F2). split_and!.
    + by rw {1}/mbind {1}/M_bind Hr1.
    + done.
    + lia.
    + lia.
    + intros t. destruct (He2 t) as [-> ->]. apply He1.
    + intros t. rw Ha2 Ha1 Hh1. destruct (He1 t) as [-> _]. naive_solver lia.
    + by rw Hf2 Hf1 app_assoc.
    + apply NoDup_app. split_and!; [done| |done]. intros t (_ & ? & _)%HF1 (_ & ? & _)%HF2'. lia.
    + apply by_time_app.
      * apply (by_time_const _ _ (softclock_time s)). intros t Ht. by apply HF1 in Ht as (_ & ? & _).
      * apply (by_time_ext s1); [|done]. intros t. by destruct (He1 t) as [-> _].
      * intros t u (_ & ? & _)%HF1 (_ & ? & _)%HF2'. lia.
    + intros t. rw elem_of_app HF1 HF2'. pose proof (w_time _ Hok t). split; [naive_solver lia|].
      intros (Harm & Hl & Hc). destruct (decide (expiration_time (timer s t) = softclock_time s)); [by left|right]. naive_solver lia.
Qed.
End wheel.

(** ** Theorems *)
Section timer_thms.
Implicit Types (s : clocks) (t c : nat).

Lemma sint64_id z : - 2 ^ 63 <= z < 2 ^ 63 -> sint64 z = z.
Proof. intros Hz. rw /sint64 Z.mod_small; lia. Qed.


(** Taking an armed timer off the wheel. *)
Definition disarmed s t : clocks :=
  s <| wheel ::= fun m => <[wheel_slot (expiration_time (timer s t)) := list_remove1 t (m (wheel_slot (expiration_time (timer s t))))]> m |>
    <| timer ::= fun m => <[t := (m t) <| armed := false |>]> m |>.
Lemma disarm_ok s t : wheel_ok s -> armed (timer s t) = true -> wheel_ok (disarmed s t).
Proof.
  intros [H1 H2 H3 H4] Ht. set i := wheel_slot (expiration_time (timer s t)).
  assert (forall u, u <> t -> timer (disarmed s t) u = timer s u) as Hu. { intros u Hu. rw /disarmed /=. by reads. }
  assert (armed (timer (disarmed s t) t) = false) as Hd. { rw /disarmed /=. by reads. }
  assert (forall j u, u ∈ wheel (disarmed s t) j <-> u ∈ wheel s j /\ u <> t) as Hw.
  { intros j u. rw /disarmed /= -/i. destruct (decide (i = j)) as [<-|Hij]; reads; [by apply elem_of_list_remove1|].
    split; [|by intros [? _]]. intros Hin. split; [done|]. intros ->. apply H2 in Hin as [_ ?]. rw /i in Hij. congruence. }
  split; [done| | |].
  - intros j u. rw Hw. destruct (decide (u = t)) as [->|]; [rw Hd; split; [by intros [_ ?]|by intros [? _]]|].
    rw Hu // H2. split; [by intros [? _]|done].
  - intros j. rw /disarmed /= -/i. destruct (decide (i = j)) as [<-|Hij]; reads; [by apply NoDup_list_remove1|done].
  - intros u Hau. destruct (decide (u = t)) as [->|]; [congruence|]. rw Hu // in Hau |- *. by apply H4.
Qed.

(** Putting a timer that is not armed on the wheel; [g] sets its other fields. *)
Definition armed_at s t (e : Z) (g : Timer -> Timer) : clocks :=
  s <| timer ::= fun m => <[t := g (m t)]> m |> <| wheel ::= fun m => <[wheel_slot e := m (wheel_slot e) ++ [t]]> m |>.
Lemma arm_ok s t e g :
  wheel_ok s -> armed (timer s t) = false -> softclock_time s <= e ->
  armed (g (timer s t)) = true -> expiration_time (g (timer s t)) = e ->
  on_slot (wheel_slot e) (dl_add_tail t) (s <| timer ::= fun m => <[t := g (m t)]> m |>) = Ok (tt, armed_at s t e g) /\ wheel_ok (armed_at s t e g).
Proof.
  intros [H1 H2 H3 H4] Ht He Hg1 Hg2.
  assert (forall j, t ∉ wheel s j) as Hnt. { intros j Hin. apply H2 in Hin as [? _]. congruence. }
  assert (forall u, u <> t -> timer (armed_at s t e g) u = timer s u) as Hu. { intros u Hu. rw /armed_at /=. by reads. }
  assert (timer (armed_at s t e g) t = g (timer s t)) as Hgt. { rw /armed_at /=. by reads. }
  assert (forall j u, u ∈ wheel (armed_at s t e g) j <-> u ∈ wheel s j \/ (u = t /\ j = wheel_slot e)) as Hw.
  { intros j u. rw /armed_at /=. destruct (decide (wheel_slot e = j)) as [<-|Hij]; reads; [rw elem_of_app list_elem_of_singleton; split; [by intros [?| ->]; [left|right]|by intros [?|[-> _]]; [left|right]]|].
    split; [by left|]. intros [?|[_ ?]]; congruence. }
  split; [rw (on_slot_run _ _ _ (wheel s (wheel_slot e) ++ [t])) //; [apply wheel_slot_range; lia|by apply dl_add_tail_ok]|]. split; [done| | |].
  - intros j u. rw Hw. destruct (decide (u = t)) as [->|]; [|rw Hu // H2; split; [by intros [?|[? _]]|by left]].
    rw Hgt Hg1 Hg2. split; [intros [Hin|[_ ->]]; [by apply Hnt in Hin|done]|intros [_ ->]; by right].
  - intros j. rw /armed_at /=. destruct (decide (wheel_slot e = j)) as [<-|Hij]; reads; [|done].
    apply NoDup_app. split_and!; [done| |apply NoDup_singleton]. intros u Hu' ->%list_elem_of_singleton. by apply (Hnt (wheel_slot e)).
  - intros u Hau. destruct (decide (u = t)) as [->|]; [rw Hgt Hg2 //|]. rw Hu // in Hau |- *. by apply H4.
Qed.

(** [SetTimeout] with a positive delay leaves the timer armed, alone or in
    place of the previous timeout, to expire on the first tick after the delay;
    with 0 it cancels. Other timers keep their place. *)
Theorem SetTimeout_correct s t c ms cb arg :
  wheel_ok s -> 0 <= ms < 2 ^ 31 -> hardclock_time s < 2 ^ 31 ->
  exists r s', SetTimeout t c ms cb arg s = Ok (r, s') /\ wheel_ok s' /\
    armed (timer s' t) = (0 <? ms) /\ (0 < ms -> expiration_time (timer s' t) = hardclock_time s + ms / 10 + 1 /\ callback (timer s' t) = cb) /\
    (forall u, u <> t -> timer s' u = timer s u) /\ (armed (timer s t) = false -> r = 0).
Proof.
  intros Hok Hms Hh. pose proof (w_clock _ Hok) as Hc.
  set s1 := if armed (timer s t) then disarmed s t else s.
  assert (wheel_ok s1 /\ armed (timer s1 t) = false /\ hardclock_time s1 = hardclock_time s /\ softclock_time s1 = softclock_time s /\
          (forall u, u <> t -> timer s1 u = timer s u)) as (Hok1 & Ha1 & Hh1 & Hs1 & Hu1).
  { rw /s1. destruct (armed (timer s t)) eqn:Ea; [|done]. split_and!; try done; [by apply disarm_ok|rw /disarmed /=; by reads|].
    intros u Hu. rw /disarmed /=. by reads. }
  rw /SetTimeout {1}/mbind {1}/M_bind {1}/gets {1}/mbind {1}/M_bind {1}/gets.
  rw {1}/mbind {1}/M_bind. match goal with |- context [match ?m s with Ok _ => _ | _ => _ end] => assert (m s = Ok (tt, s1)) as -> end.
  { rw /s1. destruct (armed (timer s t)) eqn:Ea; [|done]. rw {1}/mbind {1}/M_bind.
    rw (on_slot_run _ _ _ (list_remove1 t (wheel s (wheel_slot (expiration_time (timer s t)))))) //.
    - apply wheel_slot_range. pose proof (w_time _ Hok t Ea). lia.
    - apply dl_rem_ok. by apply (w_slot _ Hok). }
  destruct (Z.ltb_spec 0 ms) as [Hpos|Hz]; last first.
  { eexists _, s1. split; [done|]. split_and!; try done; [lia|]. by intros ->. }
  set e := sint64 (hardclock_time s + Z.quot ms (Z.quot 1000 JIFFIES_PER_SECOND) + 1).
  assert (e = hardclock_time s + ms / 10 + 1) as He.
  { rw /e. change (Z.quot 1000 JIFFIES_PER_SECOND) with 10. rw Z.quot_div_nonneg; [lia..|]. apply sint64_id.
    assert (0 <= ms / 10 <= ms) by (split; [apply Z.div_pos; lia|apply Z.div_le_upper_bound; lia]). lia. }
  assert (0 <= ms / 10) by (apply Z.div_pos; lia).
  destruct (arm_ok s1 t e (fun x => x <| expiration_time := e |> <| t_thread := Some c |> <| callback := cb |> <| t_arg := arg |> <| armed := true |>))
    as [Hrun Hok']; try done; [lia|].
  eexists _, _. split; [rw {1}/mbind {1}/M_bind {1}/mbind {1}/M_bind {1}/upd_timer {1}/modify Hrun //|].
  rw /armed_at /=. split_and!; try done; [by reads|intros _; reads; by rw He|intros u Hu; reads; by apply Hu1|by intros ->].
Qed.

(** A sleep of [ticks] jiffies, or of [seconds], arms the thread's timer
    to expire on exactly that tick. *)
Theorem sleep_correct s t c n :
  wheel_ok s -> armed (timer s t) = false -> 0 <= n < 2 ^ 31 -> hardclock_time s < 2 ^ 31 ->
  (hardclock_time s + n < 2 ^ 31 -> exists s', sleep_ticks t c n s = Ok (tt, s') /\ wheel_ok s' /\ armed (timer s' t) = true /\
     expiration_time (timer s' t) = hardclock_time s + n /\ (forall u, u <> t -> timer s' u = timer s u)) /\
  (exists s', sys_sleep t c n s = Ok (tt, s') /\ wheel_ok s' /\ armed (timer s' t) = true /\
     expiration_time (timer s' t) = hardclock_time s + n * 100 /\ (forall u, u <> t -> timer s' u = timer s u)).
Proof.
  intros Hok Ha Hn Hh. pose proof (w_clock _ Hok) as Hc.
  assert (forall d, 0 <= d < 2 ^ 40 -> exists s', arm_sleep t c (fun s => sint64 (hardclock_time s + d)) s = Ok (tt, s') /\ wheel_ok s' /\
    armed (timer s' t) = true /\ expiration_time (timer s' t) = hardclock_time s + d /\ (forall u, u <> t -> timer s' u = timer s u)) as Hgo.
  { intros d Hd. set g := fun x : Timer => x <| t_thread := Some c |> <| armed := true |> <| callback := Some SleepCallback |>.
    set e := sint64 (hardclock_time s + d). assert (e = hardclock_time s + d) as He by (apply sint64_id; lia).
    set s1 := s <| timer ::= fun m => <[t := g (m t)]> m |>. set s2 := s1 <| timer ::= fun m => <[t := (m t) <| expiration_time := e |>]> m |>.
    destruct (arm_ok s t e (fun x => (g x) <| expiration_time := e |>)) as [_ Hok']; try done; [lia|].
    assert (forall j, t ∉ wheel s j) as Hnt. { intros j Hin. apply (w_slot _ Hok) in Hin as [? _]. congruence. }
    exists (s2 <| wheel ::= fun m => <[wheel_slot e := m (wheel_slot e) ++ [t]]> m |>). split_and!.
    - rw /arm_sleep {1}/mbind {1}/M_bind {1}/upd_timer {1}/modify {1}/mbind {1}/M_bind {1}/gets {1}/mbind {1}/M_bind {1}/upd_timer {1}/modify.
      assert (0 <= wheel_slot e < JIFFIES_PER_SECOND) by (apply wheel_slot_range; lia).
      rw (on_slot_run _ (wheel_slot e) _ (wheel s (wheel_slot e) ++ [t])) //. by apply dl_add_tail_ok.
    - assert (forall u, timer s2 u = timer (armed_at s t e (fun x => (g x) <| expiration_time := e |>)) u) as Hs2.
      { intros u. rw /s2 /s1 /armed_at /=. destruct (decide (t = u)) as [->|]; by reads. }
      destruct Hok' as [K1 K2 K3 K4]. split; [done| |done|].
      + intros i u. pose proof (K2 i u) as K. rw -Hs2 in K. exact K.
      + intros u. pose proof (K4 u) as K. rw -Hs2 in K. exact K.
    - rw /s2 /s1 /=. by reads.
    - rw /s2 /s1 /= -He. by reads.
    - intros u Hu. rw /s2 /s1 /=. by reads. }
  split.
  { intros Hlt. rw /sleep_ticks {1}/mbind {1}/M_bind {1}/gets. destruct (Z.ltb_spec (hardclock_time s + n) (- 2 ^ 31)); [lia|].
    destruct (Z.leb_spec (2 ^ 31) (hardclock_time s + n)); [lia|]. apply Hgo. lia. }
  rw /sys_sleep /JIFFIES_PER_SECOND. apply Hgo. lia.
Qed.

(** A microsecond is converted to 10000 ticks, 100 seconds. *)
Lemma timeval_to_ticks_usec usec : 0 <= usec < 2 ^ 32 -> timeval_to_ticks 0 usec = usec * 10000.
Proof. intros Hu. rw /timeval_to_ticks /wrap64 /MICROSECONDS_PER_JIFFY. rw !Z.mod_small; lia. Qed.
End timer_thms.

(** ** Witnesses: timers 1 and 2 are armed for ticks 250 and 150, the clocks
    are at 300 and 120. *)
Module Sample.
Definition state0 : clocks :=
  {| timer := fun t => match t with
                       | 1 => mkTimer true 250 None (Some SleepCallback) (Some 1)
                       | 2 => mkTimer true 150 None (Some SleepCallback) (Some 2)
                       | _ => mkTimer false 0 None None None
                       end%nat;
     wheel := fun i => if i =? 50 then [1; 2]%nat else [];
     hardclock_time := 300; softclock_time := 120; fired := [] |}.
End Sample.
Import Sample.

Lemma sample_wheel : wheel_ok state0.
Proof.
  split.
  - simpl. lia.
  - intros i t. simpl. destruct (Z.eqb_spec i 50) as [->|Hi].
    + rw !elem_of_cons elem_of_nil. split; [intros [->|[->|[]]]; done|]. destruct t as [|[|[|t]]]; simpl; naive_solver.
    + rw elem_of_nil. split; [done|]. intros [Ha E]. destruct t as [|[|[|t]]]; done.
  - intros i. simpl. destruct (i =? 50); [|apply NoDup_nil_2]. by apply (bool_decide_unpack _).
  - intros [|[|[|t]]]; simpl; try done; lia.
Qed.


(** The run itself: timer 2, due first, fires first. *)
Lemma fire_order_run :
  match timer_bottom_half 180 state0 with Ok (_, s') => fired s' = [2; 1]%nat | _ => False end.
Proof. by vm_compute. Qed.

Lemma SetTimeout_correct_witness :
  exists r s', SetTimeout 1 1 25 (Some (UserCallback 4)) None state0 = Ok (r, s') /\ wheel_ok s' /\
    armed (timer s' 1%nat) = true /\ (0 < 25 -> expiration_time (timer s' 1%nat) = 300 + 25 / 10 + 1 /\ callback (timer s' 1%nat) = Some (UserCallback 4)) /\
    (forall u, u <> 1%nat -> timer s' u = timer state0 u) /\ (armed (timer state0 1%nat) = false -> r = 0).
Proof.
  apply (SetTimeout_correct state0 1 1 25 (Some (UserCallback 4)) None); [exact sample_wheel|lia|simpl; lia].
Defined.

Lemma sleep_correct_witness :
  (exists s', sleep_ticks 3 3 7 state0 = Ok (tt, s') /\ wheel_ok s' /\ armed (timer s' 3%nat) = true /\
     expiration_time (timer s' 3%nat) = 300 + 7 /\ (forall u, u <> 3%nat -> timer s' u = timer state0 u)) /\
  (exists s', sys_sleep 3 3 7 state0 = Ok (tt, s') /\ wheel_ok s' /\ armed (timer s' 3%nat) = true /\
     expiration_time (timer s' 3%nat) = 300 + 7 * 100 /\ (forall u, u <> 3%nat -> timer s' u = timer state0 u)).
Proof. destruct (sleep_correct state0 3 3 7) as [H1 H2]; [exact sample_wheel|reflexivity|lia|simpl; lia|]. split; [apply H1; simpl; lia|exact H2]. Defined.
