(* ===== verification/Signal.v ===== *)
(** * Signal: signal state, sending and masking

    proc/signal.c, over the pid tables of Pid.v and the threads of Sched.v.
    A user pointer argument is [None] when NULL; one to read is otherwise the
    value found there, [None] when the copy fails, and one to write tells
    whether the copy succeeds. *)

From S2P Require Import Prelude Sched Pid.
Local Open Scope Z_scope.
Local Open Scope kernel_scope.

Definition SIGKILL : Z := 9.
Definition SIGSTOP : Z := 17.
Definition SIGBIT (sig : Z) : Z := wrap32 (Z.shiftl 1 (sig - 1)).
Definition INTRF_SIGNAL : Z := bit 0.
Definition not32 (z : Z) : Z := Z.ldiff (2 ^ 32 - 1) z.

(** A handler: [SIG_DFL], [SIG_IGN] or an address. *)
Inductive sigfunc : Type := SIG_DFL | SIG_IGN | SIG_FUNC (a : Z).
#[export] Instance sigfunc_eq_dec : EqDecision sigfunc.
Proof. solve_decision. Defined.

Record ProcSignalState := mkPS {
  handler : Z -> sigfunc;
  handler_mask : Z -> Z;
  restorer : option Z;
  sig_info : Z;
  sig_resethand : Z;
  sig_nodefer : Z;
  p_sig_pending : Z }.
Definition eta_PS p := mkPS (handler p) (handler_mask p) (restorer p) (sig_info p) (sig_resethand p) (sig_nodefer p) (p_sig_pending p).
#[export] Instance set_handler : Setter handler := ltac:(solve_setter eta_PS).
#[export] Instance set_handler_mask : Setter handler_mask := ltac:(solve_setter eta_PS).
#[export] Instance set_restorer : Setter restorer := ltac:(solve_setter eta_PS).
#[export] Instance set_sig_info : Setter sig_info := ltac:(solve_setter eta_PS).
#[export] Instance set_sig_resethand : Setter sig_resethand := ltac:(solve_setter eta_PS).
#[export] Instance set_sig_nodefer : Setter sig_nodefer := ltac:(solve_setter eta_PS).
#[export] Instance set_p_sig_pending : Setter p_sig_pending := ltac:(solve_setter eta_PS).

Record ThreadSignalState := mkTS {
  sig_mask : Z;
  t_sig_pending : Z;
  sigsuspend_oldmask : Z;
  use_sigsuspend_mask : bool;
  sigreturn_sigframe : option Z;
  si_code : Z -> Z;
  si_value : Z -> Z }.
Definition eta_TS t := mkTS (sig_mask t) (t_sig_pending t) (sigsuspend_oldmask t) (use_sigsuspend_mask t) (sigreturn_sigframe t) (si_code t) (si_value t).
#[export] Instance set_sig_mask : Setter sig_mask := ltac:(solve_setter eta_TS).
#[export] Instance set_t_sig_pending : Setter t_sig_pending := ltac:(solve_setter eta_TS).
#[export] Instance set_oldmask : Setter sigsuspend_oldmask := ltac:(solve_setter eta_TS).
#[export] Instance set_use_mask : Setter use_sigsuspend_mask := ltac:(solve_setter eta_TS).
#[export] Instance set_si_code : Setter si_code := ltac:(solve_setter eta_TS).
#[export] Instance set_si_value : Setter si_value := ltac:(solve_setter eta_TS).

(** [thread_list] and [owner] are the processes' thread lists and the threads'
    processes, [p_uid] the processes' real user ids. *)
Record sigs := mkSigs {
  psig : nat -> ProcSignalState;
  tsig : nat -> ThreadSignalState;
  thread_list : nat -> list nat;
  owner : nat -> nat;
  p_uid : nat -> Z;
  ids : pids;
  sch : sched }.
Definition eta_sigs s := mkSigs (psig s) (tsig s) (thread_list s) (owner s) (p_uid s) (ids s) (sch s).
#[export] Instance set_psig : Setter psig := ltac:(solve_setter eta_sigs).
#[export] Instance set_tsig : Setter tsig := ltac:(solve_setter eta_sigs).
#[export] Instance set_sch : Setter sch := ltac:(solve_setter eta_sigs).

Section ops.
(** The number of signals, the size of the arrays; the number of pids and of
    processes; the rendez of each thread. *)
Context (NSIG max_pid max_process : Z) (own_rendez : nat -> nat).

Definition upd_ps (p : nat) (f : ProcSignalState -> ProcSignalState) : M sigs unit :=
  modify (fun s => s <| psig ::= fun m => <[p := f (m p)]> m |>).
Definition upd_ts (t : nat) (f : ThreadSignalState -> ThreadSignalState) : M sigs unit :=
  modify (fun s => s <| tsig ::= fun m => <[t := f (m t)]> m |>).
Definition lift_sched {A} (m : M sched A) : M sigs A := fun s =>
  match m (sch s) with Ok (a, c) => Ok (a, s <| sch := c |>) | Panic => Panic | Fault => Fault end.

(** The loops over [0 .. NSIG - 1]. *)
Definition in_table (i : Z) : bool := (0 <=? i) && (i <? NSIG).
Definition fork_signals (dst src : ProcSignalState) : ProcSignalState :=
  mkPS (fun i => if in_table i then handler src i else handler dst i)
       (fun i => if in_table i then handler_mask src i else handler_mask dst i)
       (restorer src) (sig_info src) (sig_resethand src) (sig_nodefer src) 0.
Definition init_signals (dst : ProcSignalState) : ProcSignalState :=
  mkPS (fun i => if in_table i then SIG_DFL else handler dst i) (fun i => if in_table i then 0 else handler_mask dst i) None 0 0 0 0.
Definition exec_signals (dst : ProcSignalState) (t : ThreadSignalState) : ProcSignalState * ThreadSignalState :=
  (mkPS (fun i => if in_table i then if bool_decide (handler dst i = SIG_IGN) then SIG_IGN else SIG_DFL else handler dst i)
        (fun i => if in_table i then 0 else handler_mask dst i) None 0 0 0 0,
   mkTS 0 0 0 false None (fun i => if in_table i then 0 else si_code t i) (fun i => if in_table i then 0 else si_value t i)).

(** [struct sigaction]: the flags, as booleans, the restorer, the handler and
    the mask. *)
Record sigaction := mkSA { sa_siginfo : bool; sa_nodefer : bool; sa_resethand : bool; sa_restorer : option Z; sa_handler : sigfunc; sa_mask : Z }.

(** The old action is returned when it is copied out; its flags are an
    uninitialised local but for [SA_SIGINFO], which is set when [true]. *)
Definition sys_sigaction (p : nat) (signal : Z) (act_in : option (option sigaction)) (oact_out : option bool)
    : M sigs (ret * option (bool * sigfunc * Z)) :=
  if (signal <=? 0) || (NSIG <? signal) then mret (RErr EINVAL, None)
  else if (signal =? SIGKILL) || (signal =? SIGSTOP) then mret (RErr EINVAL, None)
  else
    o ← (match oact_out with
         | None => mret (Some None)
         | Some ok =>
           _ ← upd_ps p (fun x => x <| sig_info ::= fun z => Z.land z (SIGBIT signal) |>);
           x ← gets (fun s => psig s p);
           mret (if (ok : bool) then Some (Some (negb (sig_info x =? 0), handler x (signal - 1), handler_mask x (signal - 1))) else None)
         end);
    match o with
    | None => mret (RErr EFAULT, None)
    | Some old =>
      match act_in with
      | None => mret (RVal 0, old)
      | Some None => mret (RErr EFAULT, old)
      | Some (Some a) =>
        _ ← upd_ps p (fun x =>
          x <| sig_info ::= fun z => if sa_siginfo a then Z.lor z (SIGBIT signal) else z |>
            <| sig_nodefer ::= fun z => if sa_nodefer a then Z.lor z (SIGBIT signal) else z |>
            <| sig_resethand ::= fun z => if sa_resethand a then Z.lor z (SIGBIT signal) else z |>
            <| restorer ::= fun z => match sa_restorer a with Some r => Some r | None => z end |>
            <| handler ::= fun m => <[signal - 1 := sa_handler a]> m |>
            <| handler_mask ::= fun m => <[signal - 1 := Z.land (sa_mask a) (not32 (Z.lor (SIGBIT SIGKILL) (SIGBIT SIGSTOP)))]> m |>);
        mret (RVal 0, old)
      end
    end.

(** *** Sending *)
Fixpoint signal_threads (p : nat) (l : list nat) (signal code val : Z) : M sigs unit :=
  match l with
  | [] => mret tt
  | t :: l' =>
    x ← gets (fun s => tsig s t);
    if has (SIGBIT signal) (not32 (sig_mask x)) then
      _ ← upd_ps p (fun y => y <| p_sig_pending ::= fun z => Z.land z (not32 (SIGBIT signal)) |>);
      _ ← upd_ts t (fun y => y <| t_sig_pending ::= fun z => Z.lor z (SIGBIT signal) |>
                              <| si_code ::= fun m => <[signal - 1 := code]> m |> <| si_value ::= fun m => <[signal - 1 := val]> m |>);
      st ← gets (fun s => state (th (sch s) t));
      if bool_decide (st = THREAD_STATE_RENDEZ_BLOCKED) then lift_sched (TaskWakeupSpecific t INTRF_SIGNAL) else mret tt
    else signal_threads p l' signal code val
  end.
Definition do_signal_process (p : nat) (signal code val : Z) : M sigs unit :=
  x ← gets (fun s => psig s p);
  if bool_decide (handler x (signal - 1) = SIG_IGN) then mret tt
  else
    l ← gets (fun s => thread_list s p);
    _ ← upd_ps p (fun y => y <| p_sig_pending ::= fun z => Z.lor z (SIGBIT signal) |>);
    signal_threads p l signal code val.

Definition do_signal_thread (t : nat) (signal code val : Z) : M sigs unit :=
  p ← gets (fun s => owner s t);
  x ← gets (fun s => psig s p);
  if bool_decide (handler x (signal - 1) = SIG_IGN) then mret tt
  else
    _ ← upd_ts t (fun y => y <| t_sig_pending ::= fun z => Z.lor z (SIGBIT signal) |>
                            <| si_code ::= fun m => <[signal - 1 := code]> m |> <| si_value ::= fun m => <[signal - 1 := val]> m |>);
    st ← gets (fun s => state (th (sch s) t));
    y ← gets (fun s => tsig s t);
    if bool_decide (st = THREAD_STATE_RENDEZ_BLOCKED) && has (SIGBIT signal) (not32 (sig_mask y))
    then lift_sched (TaskWakeupSpecific t INTRF_SIGNAL) else mret tt.

Definition do_kill_process (c : nat) (pid signal code val : Z) : M sigs ret :=
  s ← gets id;
  match get_process max_pid (ids s) pid with
  | None => mret (RErr ESRCH)
  | Some p =>
    if negb (p_uid s p =? 0) && negb (p_uid s p =? p_uid s c) then mret (RErr EPERM)
    else _ ← do_signal_process p signal code val; mret (RVal 0)
  end.
Definition do_kill_process_group (pgid signal code val : Z) : M sigs ret :=
  if (pgid <? 0) || (max_process <=? pgid) then mret (RErr EINVAL)
  else
    s ← gets id;
    match get_pgrp max_pid (ids s) pgid with
    | None => mret (RErr EINVAL)
    | Some g =>
      _ ← mfor (g_process_list (grp (ids s) g)) (fun p => do_signal_process p signal code val);
      mret (RVal 0)
    end.
Definition SI_USER : Z := 1.
Definition sys_kill (c : nat) (pid signal : Z) : M sigs ret :=
  if (signal <=? 0) || (NSIG <? signal) || (pid =? 0) then mret (RErr EINVAL)
  else if 0 <? pid then do_kill_process c pid signal SI_USER 0
  else do_kill_process_group (- pid) signal SI_USER 0.
Definition sys_thread_kill : ret := RErr ENOSYS.
Definition do_kill_thread : ret := RVal 0.

(** *** Masks *)
Definition sys_sigsuspend (t : nat) (mask_in : option Z) : M sigs ret :=
  match mask_in with
  | None => mret (RErr EFAULT)
  | Some mask =>
    _ ← upd_ts t (fun x => x <| sigsuspend_oldmask := sig_mask x |> <| use_sigsuspend_mask := true |> <| sig_mask := mask |>);
    x ← gets (fun s => tsig s t);
    _ ← (if has (t_sig_pending x) (not32 (sig_mask x)) then mret tt else lift_sched (TaskSleep (own_rendez t)));
    mret (RErr EINTR)
  end.

Inductive sighow : Type := SIG_SETMASK | SIG_BLOCK | SIG_UNBLOCK | SIG_BADHOW.
(** The mask, if it is copied out. [junk] is what the local [set] holds when the
    copy fails. *)
Definition sys_sigprocmask (junk : Z) (t : nat) (how : sighow) (set_in : option (option Z)) (oset_out : option bool) : M sigs (ret * option Z) :=
  x ← gets (fun s => tsig s t);
  match oset_out with
  | Some false => mret (RErr EFAULT, None)
  | _ =>
    let old := match oset_out with Some _ => Some (sig_mask x) | None => None end in
    match set_in with
    | None => mret (RVal 0, old)
    | Some (Some _) => mret (RErr EFAULT, old)
    | Some None =>
      match how with
      | SIG_SETMASK => _ ← upd_ts t (fun x => x <| sig_mask := junk |>); mret (RVal 0, old)
      | SIG_BLOCK => _ ← upd_ts t (fun x => x <| sig_mask ::= fun m => Z.lor m junk |>); mret (RVal 0, old)
      | SIG_UNBLOCK => _ ← upd_ts t (fun x => x <| sig_mask ::= fun m => Z.land m (not32 junk) |>); mret (RVal 0, old)
      | SIG_BADHOW => mret (RErr EINVAL, old)
      end
    end
  end.

(** The set, if it can be copied out. *)
Definition sys_sigpending (t : nat) (ok : bool) : M sigs (ret * option Z) :=
  x ← gets (fun s => tsig s t);
  mret (if ok then (RVal 0, Some (Z.land (t_sig_pending x) (not32 (sig_mask x)))) else (RErr EFAULT, None)).

(** *** Default actions *)
Definition SP_KILL : Z := bit 0.
Definition SP_CORE : Z := bit 1.
Definition SP_NORESET : Z := bit 2.
Definition SP_CANTMASK : Z := bit 3.
Definition SP_CONT : Z := bit 4.
Definition SP_STOP : Z := bit 5.
Definition SP_TTYSTOP : Z := bit 6.
Definition sigprop : list Z :=
  [ 0; SP_KILL; SP_KILL; Z.lor SP_KILL SP_CORE; Z.lor (Z.lor SP_KILL SP_CORE) SP_NORESET; Z.lor (Z.lor SP_KILL SP_CORE) SP_NORESET;
    Z.lor SP_KILL SP_CORE; Z.lor SP_KILL SP_CORE; Z.lor SP_KILL SP_CORE; Z.lor SP_KILL SP_CANTMASK; Z.lor SP_KILL SP_CORE;
    Z.lor SP_KILL SP_CORE; Z.lor SP_KILL SP_CORE; SP_KILL; SP_KILL; SP_KILL; 0; Z.lor SP_STOP SP_CANTMASK; Z.lor SP_STOP SP_TTYSTOP;
    SP_CONT; 0; Z.lor SP_STOP SP_TTYSTOP; Z.lor SP_STOP SP_TTYSTOP; 0; SP_KILL; SP_KILL; SP_KILL; SP_KILL; 0; 0; SP_KILL; SP_KILL ].

(** The status the process exits with, if it does; an index outside
    [sigprop[NSIG]] is a fault. *)
Definition sig_exit (sig : Z) : Z := Z.shiftl sig 8.
Definition do_signal_default (sig : Z) : outcome (option Z) :=
  if in_table sig then
    if has (nth (Z.to_nat sig) sigprop 0) SP_KILL then Ok (Some (sig_exit sig)) else Ok None
  else Fault.

(** *** Choosing a signal *)
Definition narrow (mask n : Z) (x : Z * Z) : Z * Z :=
  if has x.2 mask then x else (x.1 - n, wrap32 (Z.shiftl x.2 n)).
Definition pick_signal (sigbits : Z) : Z :=
  if sigbits =? 0 then 0
  else
    let x := narrow 0xFFFF0000 16 (32, sigbits) in
    let x := narrow 0xFF000000 8 x in
    let x := narrow 0xF0000000 4 x in
    let x := narrow 0xC0000000 2 x in
    if has x.2 0x80000000 then x.1 else x.1 - 1.
End ops.
