(* ===== verification/SignalThms.v ===== *)
(** * SignalThms: theorems about signals *)

From S2P Require Import Prelude Sched SchedQueue Bkl BklSteps Pid Signal.
Local Open Scope Z_scope.
Local Open Scope kernel_scope.

(** ** Choosing the highest signal *)
Section pick.
Implicit Types (x b n k sig : Z).

(** Testing a word against its high bits. *)
Lemma has_high x k : 0 <= k <= 32 -> 0 <= x < 2 ^ 32 -> has x (2 ^ 32 - 2 ^ k) = negb (x <? 2 ^ k).
Proof.
  intros Hk Hx. rw /has. f_equal.
  assert (Z.land x (2 ^ 32 - 2 ^ k) = Z.shiftl (Z.shiftr x k) k) as ->.
  { replace (2 ^ 32 - 2 ^ k) with (Z.shiftl (Z.ones (32 - k)) k).
    - apply Z.bits_inj'. intros i Hi. rw Z.land_spec (Z.shiftl_spec (Z.ones _)) // (Z.shiftl_spec (Z.shiftr x k)) //.
      assert (~ k <= i -> forall z, Z.testbit z (i - k) = false) as Hneg by (intros ? z; apply Z.testbit_neg_r; lia).
      destruct (decide (k <= i)) as [Hki|Hki]; [|by rw !Hneg // andb_false_r].
      rw Z.shiftr_spec; [lia|]. replace (i - k + k) with i by lia. destruct (decide (i < 32)) as [Hi2|Hi2].
      + rw Z.ones_spec_low; [lia|]. by rw andb_true_r.
      + replace (Z.testbit x i) with false; [done|]. symmetry. rw -(Z.mod_small x (2 ^ 32)) //. apply Z.mod_pow2_bits_high. lia.
    - rw Z.shiftl_mul_pow2; [lia|]. rw Z.ones_equiv. replace (2 ^ 32) with (2 ^ (32 - k) * 2 ^ k); [lia|].
      rw -Z.pow_add_r; [lia..|]. f_equal. lia. }
  rw Z.shiftl_mul_pow2; [lia|]. rw Z.shiftr_div_pow2; [lia|]. assert (0 < 2 ^ k) by (apply Z.pow_pos_nonneg; lia).
  destruct (Z.ltb_spec x (2 ^ k)) as [Hlt|Hge].
  - rw Z.div_small; [lia|]. done.
  - apply Z.eqb_neq. assert (0 < x / 2 ^ k) by (apply Z.div_str_pos; lia). nia.
Qed.

(** One halving step keeps track of the highest bit of [b]. *)
Lemma narrow_spec n sig x b :
  0 < n <= 16 -> 2 ^ (32 - 2 * n) <= x < 2 ^ 32 -> Z.log2 x = Z.log2 b + 32 - sig ->
  let y := narrow (2 ^ 32 - 2 ^ (32 - n)) n (sig, x) in
  2 ^ (32 - n) <= y.2 < 2 ^ 32 /\ Z.log2 y.2 = Z.log2 b + 32 - y.1.
Proof.
  intros Hn Hx Hlog. assert (0 < 2 ^ (32 - 2 * n)) by (apply Z.pow_pos_nonneg; lia).
  rw /narrow /= has_high; [lia|lia|]. destruct (Z.ltb_spec x (2 ^ (32 - n))) as [Hlt|Hge]; simpl; [|split; [lia|done]].
  assert (0 < 2 ^ n) by (apply Z.pow_pos_nonneg; lia).
  assert (2 ^ (32 - n) = 2 ^ (32 - 2 * n) * 2 ^ n) as E1 by (rw -Z.pow_add_r; [lia..|f_equal; lia]).
  assert (2 ^ 32 = 2 ^ (32 - n) * 2 ^ n) as E2 by (rw -Z.pow_add_r; [lia..|f_equal; lia]).
  assert (wrap32 (Z.shiftl x n) = x * 2 ^ n) as ->.
  { rw Z.shiftl_mul_pow2; [lia|]. apply wrap32_id. rw /u32. nia. }
  split; [nia|]. rw Z.log2_mul_pow2; lia.
Qed.

(** [pick_signal] returns the number of the highest signal of the set, by
    five comparisons, and 0 for the empty set. *)
Theorem pick_signal_correct b :
  0 <= b < 2 ^ 32 -> pick_signal b = if b =? 0 then 0 else Z.log2 b + 1.
Proof.
  intros Hb. rw /pick_signal. destruct (Z.eqb_spec b 0) as [->|Hne]; [done|].
  destruct (narrow_spec 16 32 b b) as [H1 L1]; [lia|lia|lia|]. revert H1 L1.
  change (2 ^ 32 - 2 ^ (32 - 16)) with 0xFFFF0000. set x1 := narrow 0xFFFF0000 16 (32, b). destruct x1 as [g1 x1]. cbn [fst snd]. intros H1 L1.
  destruct (narrow_spec 8 g1 x1 b) as [H2 L2]; [lia|lia|lia|]. revert H2 L2.
  change (2 ^ 32 - 2 ^ (32 - 8)) with 0xFF000000. destruct (narrow 0xFF000000 8 (g1, x1)) as [g2 x2]. cbn [fst snd]. intros H2 L2.
  destruct (narrow_spec 4 g2 x2 b) as [H3 L3]; [lia|lia|lia|]. revert H3 L3.
  change (2 ^ 32 - 2 ^ (32 - 4)) with 0xF0000000. destruct (narrow 0xF0000000 4 (g2, x2)) as [g3 x3]. cbn [fst snd]. intros H3 L3.
  destruct (narrow_spec 2 g3 x3 b) as [H4 L4]; [lia|lia|lia|]. revert H4 L4.
  change (2 ^ 32 - 2 ^ (32 - 2)) with 0xC0000000. destruct (narrow 0xC0000000 2 (g3, x3)) as [g4 x4]. cbn [fst snd]. intros H4 L4.
  change 0x80000000 with (2 ^ 32 - 2 ^ 31). rw has_high; [lia|lia|]. destruct (Z.ltb_spec x4 (2 ^ 31)) as [Hlt|Hge]; simpl.
  - assert (Z.log2 x4 = 30) by (apply Z.log2_unique; lia). lia.
  - assert (Z.log2 x4 = 31) by (apply Z.log2_unique; lia). lia.
Qed.
End pick.

(** ** Actions *)
Section actions.
Context (NSIG max_pid max_process : Z).
Implicit Types (s : sigs) (p t c : nat) (a : sigaction) (signal : Z).

Lemma sigaction_guards signal :
  1 <= signal <= NSIG -> signal <> SIGKILL -> signal <> SIGSTOP ->
  ((signal <=? 0) || (NSIG <? signal)) = false /\ ((signal =? SIGKILL) || (signal =? SIGSTOP)) = false.
Proof.
  intros Hr Hk Hs. split; [destruct (Z.leb_spec signal 0); destruct (Z.ltb_spec NSIG signal); lia|].
  by destruct (Z.eqb_spec signal SIGKILL); destruct (Z.eqb_spec signal SIGSTOP).
Qed.

(** [sigaction]. A signal out of [1 .. NSIG], [SIGKILL] and [SIGSTOP] are
    refused and nothing changes. Otherwise the handler is installed, with a mask
    that never blocks [SIGKILL] or [SIGSTOP]; the handlers of all other signals
    and processes stay; and a query afterwards returns exactly what was installed. *)
Theorem sigaction_correct s p signal a :
  (~ 1 <= signal <= NSIG \/ signal = SIGKILL \/ signal = SIGSTOP ->
     forall act_in oact_out, sys_sigaction NSIG p signal act_in oact_out s = Ok ((RErr EINVAL, None), s)) /\
  (1 <= signal <= NSIG -> signal <> SIGKILL -> signal <> SIGSTOP ->
     exists s' mask, sys_sigaction NSIG p signal (Some (Some a)) None s = Ok ((RVal 0, None), s') /\
       handler (psig s' p) (signal - 1) = sa_handler a /\ handler_mask (psig s' p) (signal - 1) = mask /\
       Z.testbit mask (SIGKILL - 1) = false /\ Z.testbit mask (SIGSTOP - 1) = false /\
       (forall i, 0 <= i < 32 -> i <> SIGKILL - 1 -> i <> SIGSTOP - 1 -> Z.testbit mask i = Z.testbit (sa_mask a) i) /\
       (forall i, i <> signal - 1 -> handler (psig s' p) i = handler (psig s p) i /\ handler_mask (psig s' p) i = handler_mask (psig s p) i) /\
       (forall q, q <> p -> psig s' q = psig s q) /\
       exists s'' info, sys_sigaction NSIG p signal None (Some true) s' = Ok ((RVal 0, Some (info, sa_handler a, mask)), s'')).
Proof.
  split.
  - intros Hbad act oact. rw /sys_sigaction. destruct (Z.leb_spec signal 0); [done|]. destruct (Z.ltb_spec NSIG signal); [done|].
    simpl. destruct Hbad as [?|[->| ->]]; [lia|done|done].
  - intros Hr Hk Hs. set mask := Z.land (sa_mask a) (not32 (Z.lor (SIGBIT SIGKILL) (SIGBIT SIGSTOP))).
    destruct (sigaction_guards signal Hr Hk Hs) as [E1 E2].
    assert (forall i, 0 <= i < 32 -> Z.testbit mask i = Z.testbit (sa_mask a) i && negb (Z.testbit (Z.lor (SIGBIT SIGKILL) (SIGBIT SIGSTOP)) i)) as Hm.
    { intros i Hi. rw /mask Z.land_spec /not32 Z.ldiff_spec. change (2 ^ 32 - 1) with (Z.ones 32). by rw Z.ones_spec_low. }
    assert (forall i, Z.testbit (Z.lor (SIGBIT SIGKILL) (SIGBIT SIGSTOP)) i = bool_decide (i = SIGKILL - 1 \/ i = SIGSTOP - 1)) as Hb.
    { intros i. change (Z.lor (SIGBIT SIGKILL) (SIGBIT SIGSTOP)) with (Z.lor (bit 8) (bit 16)). rw Z.lor_spec !bit_testbit //.
      rw /SIGKILL /SIGSTOP /=. do 3 case_bool_decide; simpl; try done; lia. }
    assert (Z.testbit mask (SIGKILL - 1) = false) as Hm1. { rw Hm // Hb bool_decide_true; [by left|]. by rw andb_false_r. }
    assert (Z.testbit mask (SIGSTOP - 1) = false) as Hm2. { rw Hm // Hb bool_decide_true; [by right|]. by rw andb_false_r. }
    assert (forall i, 0 <= i < 32 -> i <> SIGKILL - 1 -> i <> SIGSTOP - 1 -> Z.testbit mask i = Z.testbit (sa_mask a) i) as Hm3.
    { intros i Hi H1 H2. rw Hm // Hb bool_decide_false; [naive_solver|]. by rw andb_true_r. }
    eexists _, mask. rw {1}/sys_sigaction E1 E2 /upd_ps. mrun. split; [done|]. split_and!; [simpl; by reads|simpl; by reads|exact Hm1|exact Hm2|exact Hm3|..]; simpl.
    + intros i Hi. by reads.
    + intros q Hq. by reads.
    + rw /sys_sigaction E1 E2 /upd_ps. mrun. simpl. reads. by eexists _, _.
Qed.

(** Reading an action with [sigaction] also clears the [SA_SIGINFO] bit of
    every other signal of the process. *)
Theorem sigaction_query_clears s p signal i :
  1 <= signal <= 32 -> signal <= NSIG -> signal <> SIGKILL -> signal <> SIGSTOP -> 0 <= i -> i <> signal - 1 ->
  exists s' o, sys_sigaction NSIG p signal None (Some true) s = Ok ((RVal 0, o), s') /\ Z.testbit (sig_info (psig s' p)) i = false.
Proof.
  intros H1 Hn Hk Hs Hi Hne. rw /sys_sigaction.
  destruct (sigaction_guards signal) as [-> ->]; [lia|done|done|].
  rw /upd_ps. mrun. eexists _, _. split; [done|]. simpl. reads. rw Z.land_spec /SIGBIT.
  rw wrap32_id; [|]. { rw /u32 Z.shiftl_1_l. split; [apply Z.pow_nonneg; lia|]. apply Z.pow_lt_mono_r; lia. }
  fold (bit (signal - 1)). rw bit_testbit; [lia|]. rw bool_decide_false; [congruence|]. by rw andb_false_r.
Qed.
End actions.

(** ** Sending *)
Section sending.
Context (NSIG max_pid max_process : Z).
Implicit Types (s : sigs) (p t c : nat) (signal code val : Z).

Definition masked s signal t : Prop := has (SIGBIT signal) (not32 (sig_mask (tsig s t))) = false.

Lemma SIGBIT_bit signal : 1 <= signal <= 32 -> SIGBIT signal = bit (signal - 1).
Proof.
  intros Hr. rw /SIGBIT wrap32_id //. rw /u32 Z.shiftl_1_l. split; [apply Z.pow_nonneg; lia|]. apply Z.pow_lt_mono_r; lia.
Qed.
Lemma pending_set z signal : 1 <= signal <= 32 -> Z.testbit (Z.lor z (SIGBIT signal)) (signal - 1) = true.
Proof. intros Hr. rw SIGBIT_bit // Z.lor_spec bit_testbit; [lia|]. by rw bool_decide_true // orb_true_r. Qed.
Lemma pending_clear z signal : 1 <= signal <= 32 -> Z.testbit (Z.land z (not32 (SIGBIT signal))) (signal - 1) = false.
Proof.
  intros Hr. rw SIGBIT_bit // Z.land_spec /not32 Z.ldiff_spec bit_testbit; [lia|]. by rw bool_decide_true // !andb_false_r.
Qed.

(** Masked threads are passed over. *)
Lemma signal_threads_skip l1 l2 s p signal code val :
  Forall (masked s signal) l1 -> signal_threads p (l1 ++ l2) signal code val s = signal_threads p l2 signal code val s.
Proof.
  induction 1 as [|t l1 Ht _ IH]; [done|]. rw /= {1}/mbind {1}/M_bind {1}/gets. by rw Ht.
Qed.

(** C18: A signal sent to a process that does not ignore it goes to the first
    of its threads that does not mask it, which gets the pending bit, the code
    and the value and is woken if it sleeps interruptibly; the process keeps no
    pending bit. When every thread masks it, it stays pending on the process
    and nothing else changes. No assertion of the wakeup fails. *)
Theorem signal_process_correct s pc p signal code val :
  kcore (sch s) pc None -> bkl_owner (sch s) <> None -> 1 <= signal <= 32 -> handler (psig s p) (signal - 1) <> SIG_IGN ->
  (forall l1 t l2, thread_list s p = l1 ++ t :: l2 -> Forall (masked s signal) l1 -> ~ masked s signal t ->
     exists s', do_signal_process p signal code val s = Ok (tt, s') /\ kcore (sch s') pc None /\
       Z.testbit (t_sig_pending (tsig s' t)) (signal - 1) = true /\ si_code (tsig s' t) (signal - 1) = code /\ si_value (tsig s' t) (signal - 1) = val /\
       Z.testbit (p_sig_pending (psig s' p)) (signal - 1) = false /\ (forall u, u <> t -> tsig s' u = tsig s u) /\
       (state (th (sch s) t) = THREAD_STATE_RENDEZ_BLOCKED -> has (intr_flags (th (sch s) t)) INTRF_SIGNAL = true -> t ∈ bkl_blocked_list (sch s'))) /\
  (Forall (masked s signal) (thread_list s p) ->
     exists s', do_signal_process p signal code val s = Ok (tt, s') /\ sch s' = sch s /\ tsig s' = tsig s /\
       Z.testbit (p_sig_pending (psig s' p)) (signal - 1) = true).
Proof.
  intros Hk Ho Hr Hign.
  assert (do_signal_process p signal code val s = signal_threads p (thread_list s p) signal code val
    (s <| psig ::= fun m => <[p := (m p) <| p_sig_pending ::= fun z => Z.lor z (SIGBIT signal) |>]> m |>)) as ->.
  { rw /do_signal_process {1}/mbind {1}/M_bind {1}/gets bool_decide_false // {1}/mbind {1}/M_bind {1}/gets {1}/mbind {1}/M_bind {1}/upd_ps {1}/modify //. }
  set s1 := s <| psig ::= _ |>. split.
  - intros l1 t l2 -> Hl1 Ht. rw (signal_threads_skip l1 (t :: l2) s1) //.
    rw /= {1}/mbind {1}/M_bind {1}/gets. rw /masked in Ht. change (tsig s1 t) with (tsig s t).
    destruct (has (SIGBIT signal) (not32 (sig_mask (tsig s t)))); [|done].
    rw {1}/mbind {1}/M_bind {1}/upd_ps {1}/modify {1}/mbind {1}/M_bind {1}/upd_ts {1}/modify {1}/mbind {1}/M_bind {1}/gets.
    set s2 := s1 <| psig ::= _ |> <| tsig ::= _ |>.
    assert (forall k : sched, kcore k pc None -> (state (th (sch s) t) = THREAD_STATE_RENDEZ_BLOCKED -> has (intr_flags (th (sch s) t)) INTRF_SIGNAL = true -> t ∈ bkl_blocked_list k) ->
      let s' := s2 <| sch := k |> in
      kcore (sch s') pc None /\ Z.testbit (t_sig_pending (tsig s' t)) (signal - 1) = true /\ si_code (tsig s' t) (signal - 1) = code /\ si_value (tsig s' t) (signal - 1) = val /\
       Z.testbit (p_sig_pending (psig s' p)) (signal - 1) = false /\ (forall u, u <> t -> tsig s' u = tsig s u) /\
       (state (th (sch s) t) = THREAD_STATE_RENDEZ_BLOCKED -> has (intr_flags (th (sch s) t)) INTRF_SIGNAL = true -> t ∈ bkl_blocked_list (sch s'))) as Hgo.
    { intros k Hc Hw s'. rw /s' /s2 /s1 /=. reads. split_and!; try done; [by apply pending_set|by apply pending_clear|].
      intros u Hu. by reads. }
    change (th (sch s2) t) with (th (sch s) t).
    destruct (decide (state (th (sch s) t) = THREAD_STATE_RENDEZ_BLOCKED)) as [Hst|Hst]; last first.
    { rw bool_decide_false //. exists s2. split; [done|]. by apply (Hgo (sch s)). }
    rw bool_decide_true //. destruct (TaskWakeupSpecific_spec (sch s) pc t INTRF_SIGNAL Hk Ho) as (c & Hrun & Hkc & _ & Hwk & _).
    exists (s2 <| sch := c |>). split; [rw /lift_sched; change (sch s2) with (sch s); by rw Hrun|]. apply Hgo; [done|].
    intros _ Hin. destruct Hwk as (r & _ & ->); [done|by rw Hin|]. rw /woken /=. set_solver.
  - intros Hall. exists s1. rw -(app_nil_r (thread_list s p)) (signal_threads_skip _ [] s1) //. split_and!; try done.
    rw /s1 /=. reads. by apply pending_set.
Qed.

(** Who may signal whom. A process that belongs to root may be signalled
    by any process, one of another user only by a process of that user: not
    even by root. *)
Theorem kill_permission s c q pid signal :
  get_process max_pid (ids s) pid = Some q -> 0 < pid -> 1 <= signal <= NSIG ->
  (p_uid s q <> 0 -> p_uid s q <> p_uid s c -> sys_kill NSIG max_pid max_process c pid signal s = Ok (RErr EPERM, s)) /\
  (p_uid s q = 0 \/ p_uid s q = p_uid s c ->
     sys_kill NSIG max_pid max_process c pid signal s =
       match do_signal_process q signal SI_USER 0 s with Ok (_, s') => Ok (RVal 0, s') | Panic => Panic | Fault => Fault end).
Proof.
  intros Hq Hp Hs. rw /sys_kill. destruct (Z.leb_spec signal 0); [lia|]. destruct (Z.ltb_spec NSIG signal); [lia|].
  destruct (Z.eqb_spec pid 0); [lia|]. destruct (Z.ltb_spec 0 pid); [|lia]. cbn [orb].
  assert (forall A (k : sigs -> M sigs A), (x ← gets id; k x) s = k s s) as Hg by done. rw /do_kill_process !Hg Hq.
  destruct (Z.eqb_spec (p_uid s q) 0) as [E|E]; destruct (Z.eqb_spec (p_uid s q) (p_uid s c)) as [E'|E']; simpl; split; try done; try naive_solver.
Qed.

(** A mask given to [sigprocmask] at a readable address is refused with
    [EFAULT] and changes nothing. *)
Theorem sigprocmask_readable_fails s junk t how set old :
  exists o, sys_sigprocmask junk t how (Some (Some set)) old s = Ok ((RErr EFAULT, o), s).
Proof. rw /sys_sigprocmask. mrun. destruct old as [[]|]; by eexists. Qed.
End sending.

(** ** Witnesses: processes and threads 0 and 1; thread 0 runs in the kernel,
    thread 3 of process 1 sleeps interruptibly on rendez 7. *)
Module Sample.
Definition ps0 : ProcSignalState := mkPS (fun _ => SIG_DFL) (fun _ => 0) None 6 0 0 0.
Definition ts0 (mask : Z) : ThreadSignalState := mkTS mask 0 0 false None (fun _ => 0) (fun _ => 0).
Definition pids0 : pids := Pid.Sample.state0.
Definition sleeper : sched := BklSteps.Sample.state0.
Definition sigs0 : sigs :=
  {| psig := fun _ => ps0; tsig := fun t => ts0 (if Nat.eqb t 2 then 2 ^ 32 - 1 else 0);
     thread_list := fun p => match p with O => [0%nat] | _ => [2; 3]%nat end;
     owner := fun t => match t with O => 0%nat | _ => 1%nat end;
     p_uid := fun p => match p with O => 0 | _ => 100 end; ids := pids0; sch := sleeper |}.
End Sample.
Import Sample.

Lemma pick_signal_correct_witness : pick_signal 0x104 = Z.log2 0x104 + 1.
Proof. apply (pick_signal_correct 0x104). lia. Defined.

Lemma sigaction_correct_witness :
  exists s' mask, sys_sigaction 32 1 2 (Some (Some (mkSA true false false None (SIG_FUNC 4096) (2 ^ 32 - 1)))) None sigs0 = Ok ((RVal 0, None), s') /\
    handler (psig s' 1%nat) 1 = SIG_FUNC 4096 /\ handler_mask (psig s' 1%nat) 1 = mask /\ Z.testbit mask 8 = false /\ Z.testbit mask 16 = false.
Proof.
  destruct (sigaction_correct 32 sigs0 1 2 (mkSA true false false None (SIG_FUNC 4096) (2 ^ 32 - 1))) as [_ H].
  destruct H as (s' & mask & H1 & H2 & H3 & H4 & H5 & _); [lia|discriminate|discriminate|].
  exists s', mask. split_and!; [exact H1|exact H2|exact H3|exact H4|exact H5].
Defined.

Lemma sigaction_query_clears_witness :
  exists s' o, sys_sigaction 32 1 3 None (Some true) sigs0 = Ok ((RVal 0, o), s') /\ Z.testbit (sig_info (psig s' 1%nat)) 1 = false.
Proof. apply (sigaction_query_clears 32 sigs0 1 3 1); try lia; discriminate. Defined.

Lemma signal_process_correct_witness :
  exists s', do_signal_process 1 15 0 0 sigs0 = Ok (tt, s') /\ Z.testbit (t_sig_pending (tsig s' 3%nat)) (15 - 1) = true /\
    Z.testbit (p_sig_pending (psig s' 1%nat)) (15 - 1) = false.
Proof.
  destruct (signal_process_correct sigs0 BklSteps.Sample.pc0 1 15 0 0) as [H _]; [apply sample_kinv|discriminate|lia|discriminate|].
  destruct (H [2%nat] 3%nat []) as (s' & H1 & _ & H2 & _ & _ & H3 & _); [reflexivity| |discriminate|].
  - apply Forall_singleton. reflexivity.
  - exists s'. split_and!; [exact H1|exact H2|exact H3].
Defined.

Lemma kill_permission_witness :
  (p_uid sigs0 1%nat <> 0 -> p_uid sigs0 1%nat <> p_uid sigs0 0%nat -> sys_kill 32 5 5 0 2 15 sigs0 = Ok (RErr EPERM, sigs0)) /\
  (p_uid sigs0 1%nat = 0 \/ p_uid sigs0 1%nat = p_uid sigs0 0%nat ->
     sys_kill 32 5 5 0 2 15 sigs0 =
       match do_signal_process 1 15 SI_USER 0 sigs0 with Ok (_, s') => Ok (RVal 0, s') | Panic => Panic | Fault => Fault end).
Proof. apply (kill_permission 32 5 5 sigs0 0 1 2 15); [reflexivity|lia|lia]. Defined.
