(* ===== verification/Cstring.v ===== *)
(** * Cstring: utility/string.c

    A pointer into an array of chars is the rest of the array from there on,
    as bytes; reading or writing past its end is a fault. *)

From S2P Require Import Prelude.
Local Open Scope Z_scope.
Local Open Scope kernel_scope.

Section ops.
Implicit Types (s t d dst src : list Z) (c ch : Z) (n siz : nat).

(** *** Reading *)
Fixpoint StrLen s : outcome nat :=
  match s with
  | [] => Fault
  | c :: s' => if c =? 0 then Ok 0%nat else n ← StrLen s'; Ok (S n)
  end.

Fixpoint StrCmp s t : outcome Z :=
  match s, t with
  | c :: s', c' :: t' => if c =? c' then if c =? 0 then Ok (c - c') else StrCmp s' t' else Ok (c - c')
  | _, _ => Fault
  end.

(** The index of the character, [None] for NULL. *)
Fixpoint StrChr_from (i : nat) s ch : outcome (option nat) :=
  match s with
  | [] => Fault
  | c :: s' => if c =? 0 then Ok None else if c =? ch then Ok (Some i) else StrChr_from (S i) s' ch
  end.
Definition StrChr s ch : outcome (option nat) := StrChr_from 0 s ch.

(** *** Copying *)

(** The [do ... while] loop of [StrLCpy], [n] at least 1: what is written, the
    two pointers and [n] at the end. *)
Fixpoint lcpy_loop n d s : outcome (list Z * list Z * list Z * nat) :=
  match n, d, s with
  | S n', _ :: d', c :: s' =>
    if c =? 0 then Ok ([c], d', s', n)
    else match n' with
         | O => Ok ([c], d', s', O)
         | _ => '(w, d1, s1, m) ← lcpy_loop n' d' s'; Ok (c :: w, d1, s1, m)
         end
  | _, _, _ => Fault
  end.
(** To the end of the source: the pointer past its NUL. *)
Fixpoint skip_string s : outcome (list Z) :=
  match s with
  | [] => Fault
  | c :: s' => if c =? 0 then Ok s' else skip_string s'
  end.

Definition lcpy_copy dst src siz : outcome (list Z * list Z * list Z * nat) :=
  match siz with
  | O => Ok ([], dst, src, O)
  | S O => Ok ([], dst, src, O)
  | S n => lcpy_loop n dst src
  end.
(** The array [dst] afterwards and the result. *)
Definition StrLCpy dst src siz : outcome (list Z * nat) :=
  '(w, d, s, n) ← lcpy_copy dst src siz;
  match n with
  | O =>
    dst' ← (match siz, d with
            | O, _ => Ok (w ++ d)
            | _, _ :: d' => Ok (w ++ 0 :: d')
            | _, [] => Fault
            end);
    s' ← skip_string s;
    Ok (dst', (length src - length s' - 1)%nat)
  | _ => Ok (w ++ d, (length src - length s - 1)%nat)
  end.

(** The first loop of [StrLCat]: the length found. *)
Fixpoint bounded_len n d : outcome nat :=
  match n, d with
  | O, _ => Ok 0%nat
  | S n', c :: d' => if c =? 0 then Ok 0%nat else m ← bounded_len n' d'; Ok (S m)
  | _, [] => Fault
  end.
(** The copying loop of [StrLCat]: what is written, and the two pointers. *)
Fixpoint lcat_loop n d s : outcome (list Z * list Z * list Z) :=
  match s with
  | [] => Fault
  | c :: s' =>
    if c =? 0 then Ok ([], d, s)
    else if decide (n = 1%nat) then lcat_loop n d s'
    else match d with
         | [] => Fault
         | _ :: d' => '(w, d1, s1) ← lcat_loop (n - 1) d' s'; Ok (c :: w, d1, s1)
         end
  end.
Definition StrLCat dst src siz : outcome (list Z * nat) :=
  dlen ← bounded_len siz dst;
  if decide (siz - dlen = 0)%nat then l ← StrLen src; Ok (dst, (dlen + l)%nat)
  else
    '(w, d, s) ← lcat_loop (siz - dlen) (drop dlen dst) src;
    match d with
    | [] => Fault
    | _ :: d' => Ok (take dlen dst ++ w ++ 0 :: d', (dlen + (length src - length s))%nat)
    end.
End ops.

(** ** Theorems

    [cs] is a string: its characters are not NUL. *)
Definition chars (cs : list Z) : Prop := Forall (fun c => c <> 0) cs.

Section thms.
Implicit Types (cs ds rest s t dst : list Z) (n siz : nat).

Lemma StrLen_spec cs rest : chars cs -> StrLen (cs ++ 0 :: rest) = Ok (length cs).
Proof.
  induction 1 as [|c cs Hc _ IH]; simpl; [done|]. destruct (Z.eqb_spec c 0); [done|]. by rw IH.
Qed.
Lemma skip_string_spec cs rest : chars cs -> skip_string (cs ++ 0 :: rest) = Ok rest.
Proof. induction 1 as [|c cs Hc _ IH]; simpl; [done|]. by destruct (Z.eqb_spec c 0). Qed.

(** [StrCmp] of two strings ends and is 0 exactly when they are equal;
    otherwise it is the difference of the characters at the first place
    where they differ. *)
Lemma StrCmp_spec cs ds rest1 rest2 :
  chars cs -> chars ds ->
  exists v, StrCmp (cs ++ 0 :: rest1) (ds ++ 0 :: rest2) = Ok v /\ (v = 0 <-> cs = ds) /\
    (v <> 0 -> exists p c d x y, cs ++ [0] = p ++ c :: x /\ ds ++ [0] = p ++ d :: y /\ v = c - d).
Proof.
  intros Hcs. revert ds. induction Hcs as [|c cs Hc _ IH]; intros ds Hds; destruct Hds as [|d ds Hd Hds]; cbn [app StrCmp].
  - by exists 0.
  - destruct (Z.eqb_spec 0 d); [congruence|]. exists (0 - d). split; [done|]. split; [split; [lia|done]|].
    intros _. by exists [], 0, d, [], (ds ++ [0]).
  - destruct (Z.eqb_spec c 0); [congruence|]. exists (c - 0). split; [done|]. split; [split; [lia|done]|].
    intros _. by exists [], c, 0, (cs ++ [0]), [].
  - destruct (Z.eqb_spec c d) as [->|Hne].
    + destruct (Z.eqb_spec d 0); [done|]. destruct (IH ds Hds) as (v & -> & Hv & Hw). exists v. split; [done|].
      split; [rw Hv; split; congruence|]. intros Hv0. destruct (Hw Hv0) as (p & a & b & x & y & E1 & E2 & ->).
      exists (d :: p), a, b, x, y. by rw E1 E2.
    + exists (c - d). split; [done|]. split; [split; [lia|congruence]|]. intros _. by exists [], c, d, (cs ++ [0]), (ds ++ [0]).
Qed.

(** Copying [n] characters at most, [n] not 0. *)
Lemma lcpy_loop_spec cs rest n dst :
  chars cs -> (0 < n)%nat -> (n < length dst)%nat ->
  lcpy_loop n dst (cs ++ 0 :: rest) =
    if decide (length cs < n)%nat then Ok (cs ++ [0], drop (S (length cs)) dst, rest, (n - length cs)%nat)
    else Ok (take n cs, drop n dst, drop n (cs ++ 0 :: rest), O).
Proof.
  intros Hcs. revert n dst. induction Hcs as [|c cs Hc _ IH]; intros n dst Hn Hd.
  - destruct n as [|n]; [lia|]. destruct dst as [|x dst]; [simpl in Hd; lia|]. cbn. by rw drop_0.
  - destruct n as [|n]; [lia|]. destruct dst as [|x dst]; [simpl in Hd; lia|]. cbn [app lcpy_loop length] in Hd |- *.
    destruct (Z.eqb_spec c 0); [done|]. destruct n as [|n].
    + destruct (decide (S (length cs) < 1)%nat); [lia|]. simpl. by rw take_0 !drop_0.
    + rw IH; [lia|lia|]. destruct (decide (length cs < S n)%nat); destruct (decide (S (length cs) < S (S n))%nat); try lia; done.
Qed.

(** [StrChr] is the first index of the character. *)
Lemma StrChr_from_spec i cs rest ch :
  chars cs -> ch <> 0 -> StrChr_from i (cs ++ 0 :: rest) ch = Ok ((fun p => (i + p.1)%nat) <$> list_find (eq ch) cs).
Proof.
  intros Hcs Hch. revert i. induction Hcs as [|c cs Hc _ IH]; intros i; simpl; [done|].
  destruct (Z.eqb_spec c 0); [done|]. destruct (Z.eqb_spec c ch) as [->|Hne].
  - rw decide_True //= . by rw Nat.add_0_r.
  - rw decide_False; [congruence|]. rw IH. destruct (list_find _ cs) as [[k y]|]; simpl; [|done]. do 2 f_equal. lia.
Qed.

(** [StrLCpy] into an array of at least [siz] chars never leaves it, puts
    the longest prefix that fits and a NUL at its start (nothing when [siz] is
    0), changes no char after that, and returns the length of the source. *)
Lemma StrLCpy_spec cs rest dst siz :
  chars cs -> (siz <= length dst)%nat ->
  StrLCpy dst (cs ++ 0 :: rest) siz =
    Ok (match siz with
        | O => dst
        | S n => take n cs ++ 0 :: drop (S (min n (length cs))) dst
        end, length cs).
Proof.
  intros Hcs Hd. rw /StrLCpy /lcpy_copy. rw length_app.
  destruct siz as [|[|n]].
  - simpl. rw skip_string_spec //= . do 2 f_equal. simpl. lia.
  - destruct dst as [|x dst]; [simpl in Hd; lia|]. simpl. rw skip_string_spec //=. do 2 f_equal. simpl. lia.
  - rw lcpy_loop_spec; [done|lia|lia|]. destruct (decide (length cs < S n)%nat) as [Hlt|Hge].
    + cbn [mbind outcome_bind]. destruct (S n - length cs)%nat eqn:E; [lia|]. rw Nat.min_r; [lia|]. rw take_ge; [lia|]. rw -app_assoc. do 2 f_equal.
      simpl. lia.
    + cbn [mbind outcome_bind]. rw Nat.min_l; [lia|]. destruct (drop (S n) dst) as [|x d'] eqn:E.
      { apply (f_equal length) in E. rw length_drop /= in E. lia. }
      cbn [mbind outcome_bind]. rw drop_app_le; [lia|]. rw skip_string_spec; [by apply Forall_drop|]. cbn [mbind outcome_bind].
      assert (drop (S (S n)) dst = d') as ->. { rw -(Nat.add_1_r (S n)) -drop_drop E. done. }
      do 2 f_equal. simpl. lia.
Qed.

(** Copying a string with [StrLCpy] into an array of at least [siz] > 0
    chars: the result tells whether the string was truncated; if it was not,
    the copy compares equal to the source and has its length, otherwise it is
    the prefix of [siz - 1] chars, which compares unequal; [StrChr] finds in the copy
    the character at its first place. *)
Theorem StrLCpy_roundtrip cs rest dst siz :
  chars cs -> (0 < siz <= length dst)%nat ->
  exists dst' r, StrLCpy dst (cs ++ 0 :: rest) siz = Ok (dst', r) /\ length dst' = length dst /\ drop siz dst' = drop siz dst /\
    StrLen dst' = Ok (min (siz - 1) r) /\
    (exists v, StrCmp dst' (cs ++ 0 :: rest) = Ok v /\ (v = 0 <-> (r < siz)%nat)) /\
    (forall ch, ch <> 0 -> StrChr dst' ch = Ok (fst <$> list_find (eq ch) (take (siz - 1) cs))).
Proof.
  intros Hcs Hsz. rw StrLCpy_spec //; [lia|]. destruct siz as [|n]; [lia|]. rw Nat.sub_succ Nat.sub_0_r.
  set d := drop _ dst. assert (chars (take n cs)) as Ht by (by apply Forall_take).
  exists (take n cs ++ 0 :: d), (length cs). split_and!; [done|..].
  - rw length_app length_take /= /d length_drop. lia.
  - rw drop_app_ge; [rw length_take; lia|]. rw length_take /d.
    destruct (S n - min n (length cs))%nat eqn:E; [lia|]. cbn [drop]. rw drop_drop. f_equal. lia.
  - by rw StrLen_spec // length_take.
  - destruct (StrCmp_spec (take n cs) cs d rest Ht Hcs) as (v & E & Hv & _). exists v. split; [done|]. rw Hv.
    split; [intros Hl; apply (f_equal length) in Hl; rw length_take in Hl; lia|]. intros Hl. rw take_ge; [lia|done].
  - intros ch Hch. rw /StrChr StrChr_from_spec //.
Qed.

Lemma bounded_len_spec ds rest n :
  chars ds -> (n <= length ds)%nat \/ (exists r, rest = 0 :: r) -> bounded_len n (ds ++ rest) = Ok (min n (length ds)).
Proof.
  intros Hds. revert n. induction Hds as [|d ds Hd _ IH]; intros n Hn; simpl.
  - destruct n as [|n]; [done|]. destruct Hn as [Hn|[r ->]]; [simpl in Hn; lia|]. done.
  - destruct n as [|n]; [done|]. simpl. destruct (Z.eqb_spec d 0); [done|]. rw IH; [destruct Hn; [left; simpl in *; lia|by right]|]. done.
Qed.

Lemma lcat_loop_spec cs rest n dst :
  chars cs -> (0 < n)%nat -> (n <= length dst)%nat ->
  lcat_loop n dst (cs ++ 0 :: rest) = Ok (take (n - 1) cs, drop (min (n - 1) (length cs)) dst, 0 :: rest).
Proof.
  intros Hcs. revert n dst. induction Hcs as [|c cs Hc _ IH]; intros n dst Hn Hd; simpl.
  - by rw Nat.min_0_r drop_0 take_nil.
  - destruct (Z.eqb_spec c 0); [done|]. destruct (decide (n = 1%nat)) as [->|Hn1].
    + by rw IH.
    + destruct dst as [|x dst]; [simpl in Hd; lia|]. rw IH; [lia|simpl in Hd; lia|].
      destruct n as [|[|n]]; [lia..|]. simpl. rw !Nat.sub_0_r. done.
Qed.

(** [StrLCat]: when the first [siz] chars of the array hold a string, as
    much of the source as fits is appended to it and terminated, within [siz];
    otherwise nothing is written. The result is the length of the string it
    tried to build, with [siz] for an array that is not terminated. *)
Theorem StrLCat_correct cs rest1 ds rest2 siz :
  chars cs -> chars ds ->
  ((length ds < siz <= length (ds ++ 0%Z :: rest2))%nat -> StrLCat (ds ++ 0 :: rest2) (cs ++ 0 :: rest1) siz =
     Ok (ds ++ take (siz - length ds - 1) cs ++ 0 :: drop (min (siz - length ds - 1) (length cs)) rest2, (length ds + length cs)%nat)) /\
  ((siz <= length ds)%nat -> StrLCat (ds ++ rest2) (cs ++ 0 :: rest1) siz = Ok (ds ++ rest2, (siz + length cs)%nat)).
Proof.
  intros Hcs Hds. split; intros Hsz; rw /StrLCat.
  - destruct Hsz as [Hsz Hlen]. rw length_app /= in Hlen. rw bounded_len_spec //; [right; eauto|]. rw Nat.min_r; [lia|]. cbn [mbind outcome_bind].
    destruct (decide (siz - length ds = 0)%nat); [lia|].
    rw drop_app_length. rw lcat_loop_spec //; [lia|simpl; lia|]. cbn [mbind outcome_bind].
    set k := min (siz - length ds - 1) (length cs). destruct (drop k (0 :: rest2)) as [|x d'] eqn:E.
    { apply (f_equal length) in E. rw length_drop /= in E. lia. }
    assert (d' = drop k rest2) as ->. { apply (f_equal (drop 1)) in E. rw drop_drop Nat.add_1_r /= in E. by rw drop_0 in E. }
    rw take_app_length. do 2 f_equal. rw length_app /=. lia.
  - rw bounded_len_spec //; [by left|]. rw Nat.min_l; [lia|]. cbn [mbind outcome_bind].
    destruct (decide (siz - siz = 0)%nat); [|lia]. by rw StrLen_spec.
Qed.
End thms.

(** ** Witnesses *)
Ltac chars_tac := repeat (apply Forall_cons; split; [lia|]); apply Forall_nil_2.

Lemma StrLCpy_roundtrip_witness :
  exists dst' r, StrLCpy [1; 2; 3; 4] ([97; 98; 99] ++ 0 :: []) 3 = Ok (dst', r) /\ length dst' = 4%nat /\ drop 3 dst' = [4] /\
    StrLen dst' = Ok (min 2 r) /\
    (exists v, StrCmp dst' ([97; 98; 99] ++ 0 :: []) = Ok v /\ (v = 0 <-> (r < 3)%nat)) /\
    (forall ch, ch <> 0 -> StrChr dst' ch = Ok (fst <$> list_find (eq ch) [97; 98])).
Proof. apply (StrLCpy_roundtrip [97; 98; 99] [] [1; 2; 3; 4] 3); [chars_tac|simpl; lia]. Defined.

Lemma StrLCat_correct_witness :
  StrLCat ([97] ++ 0 :: [7; 7]) ([98; 99; 100] ++ 0 :: []) 4 = Ok ([97; 98; 99; 0], 4%nat) /\
  StrLCat ([97; 98] ++ []) ([99] ++ 0 :: []) 2 = Ok ([97; 98], 3%nat).
Proof.
  split.
  - apply (StrLCat_correct [98; 99; 100] [] [97] [7; 7] 4); [chars_tac|chars_tac|simpl; lia].
  - apply (StrLCat_correct [99] [] [97; 98] [] 2); [chars_tac|chars_tac|simpl; lia].
Defined.
