(* ===== verification/Dnlc.v ===== *)
(** * Dnlc: the directory name lookup cache, fs/dnlc.c

    The entries of [dname_table] are named by their index. Each is on the LRU
    list; one that is in use is on the hash chain of its name as well. Vnodes
    and superblocks are named by numbers, [None] being NULL. *)

From S2P Require Import Prelude Cstring.
Local Open Scope Z_scope.
Local Open Scope kernel_scope.

Definition NR_DNAME : nat := 64.
Definition DNAME_SZ : nat := 64.
Definition DNAME_HASH : Z := 32.

Record DName := mkDName {
  dir_vnode : option nat;
  vnode : option nat;
  name : list Z;
  hash_key : Z }.
Definition eta_DName d := mkDName (dir_vnode d) (vnode d) (name d) (hash_key d).
#[export] Instance set_dir_vnode : Setter dir_vnode := ltac:(solve_setter eta_DName).
#[export] Instance set_vnode : Setter vnode := ltac:(solve_setter eta_DName).
#[export] Instance set_name : Setter name := ltac:(solve_setter eta_DName).
#[export] Instance set_hash_key : Setter hash_key := ltac:(solve_setter eta_DName).

(** [reference_cnt] is the field of the vnodes. *)
Record dnlc := mkDnlc {
  dname_table : nat -> DName;
  dname_hash : Z -> list nat;
  dname_lru_list : list nat;
  reference_cnt : nat -> Z }.
Definition eta_dnlc s := mkDnlc (dname_table s) (dname_hash s) (dname_lru_list s) (reference_cnt s).
#[export] Instance set_dname_table : Setter dname_table := ltac:(solve_setter eta_dnlc).
#[export] Instance set_dname_hash : Setter dname_hash := ltac:(solve_setter eta_dnlc).
#[export] Instance set_dname_lru_list : Setter dname_lru_list := ltac:(solve_setter eta_dnlc).
#[export] Instance set_reference_cnt : Setter reference_cnt := ltac:(solve_setter eta_dnlc).

Definition upd_dname (x : nat) (f : DName -> DName) : M dnlc unit :=
  modify (fun s => s <| dname_table ::= fun m => <[x := f (m x)]> m |>).
Definition on_lru (f : list nat -> outcome (list nat)) : M dnlc unit :=
  update dname_lru_list (fun l s => s <| dname_lru_list := l |>) f.
Definition on_hash (k : Z) (f : list nat -> outcome (list nat)) : M dnlc unit :=
  if (0 <=? k) && (k <? DNAME_HASH) then
    update (fun s => dname_hash s k) (fun l s => s <| dname_hash ::= fun m => <[k := l]> m |>) f
  else fault.

(** The loop that adds up the characters; [char] is unsigned on the target. *)
Fixpoint name_sum (sz : nat) (nm : list Z) (key : Z) : outcome Z :=
  match sz, nm with
  | O, _ => Ok key
  | S sz', c :: nm' => if c =? 0 then Ok key else name_sum sz' nm' (key + c)
  | S _, [] => Fault
  end.

(** [while (dname != NULL) { if (...) ...; dname = DLIST_NEXT(...); }] *)
Fixpoint find_entry (p : DName -> outcome bool) (t : nat -> DName) (l : list nat) : outcome (option nat) :=
  match l with
  | [] => Ok None
  | x :: l' => b ← p (t x); if (b : bool) then Ok (Some x) else find_entry p t l'
  end.

Section ops.
(** [MNT_NODNLC] is a flag of the system headers; [superblock] is the field
    of a vnode and [sb_flags] the flags of a superblock. *)
Variable MNT_NODNLC : Z.
Variable superblock : nat -> nat.
Variable sb_flags : nat -> Z.

(** The first lines of the three name operations: the chain to search, unless
    the directory or the name is not cached. *)
Definition name_key (dir : nat) (nm : list Z) : outcome (option Z) :=
  if has (sb_flags (superblock dir)) MNT_NODNLC then Ok None
  else
    n ← StrLen nm;
    if decide (DNAME_SZ < n + 1)%nat then Ok None
    else key ← name_sum (n + 1) nm 0; Ok (Some (Z.rem key DNAME_HASH)).

Definition same_name (nm : list Z) (d : DName) : outcome bool :=
  v ← StrCmp (name d) nm; Ok (v =? 0).
Definition same_entry (dir : nat) (nm : list Z) (d : DName) : outcome bool :=
  if decide (dir_vnode d = Some dir) then same_name nm d else Ok false.

(** [vnode_ref]: a NULL vnode is dereferenced. *)
Definition vnode_ref (v : option nat) : M dnlc unit :=
  match v with
  | None => fault
  | Some v => modify (fun s => s <| reference_cnt ::= fun m => <[v := m v + 1]> m |>)
  end.

(** The result and [*vnp]. *)
Definition dname_lookup (dir : nat) (nm : list Z) : M dnlc (Z * option nat) :=
  o ← lift (name_key dir nm);
  match o with
  | None => mret (-1, None)
  | Some key =>
    t ← gets dname_table;
    l ← gets (fun s => dname_hash s key);
    r ← lift (find_entry (same_entry dir nm) t l);
    match r with
    | Some x => let v := vnode (t x) in _ ← vnode_ref v; mret (0, v)
    | None => mret (-1, None)
    end
  end.

Definition dname_enter (dir : nat) (vn : option nat) (nm : list Z) : M dnlc Z :=
  o ← lift (name_key dir nm);
  match o with
  | None => mret (-1)
  | Some key =>
    t ← gets dname_table;
    l ← gets (fun s => dname_hash s key);
    r ← lift (find_entry (same_entry dir nm) t l);
    match r with
    | Some x =>
      _ ← upd_dname x (fun d => d <| hash_key := key |> <| dir_vnode := Some dir |> <| vnode := vn |>);
      mret 0
    | None =>
      lru ← gets dname_lru_list;
      match lru with
      | [] => fault
      | x :: _ =>
        _ ← on_lru dl_rem_head;
        _ ← (if hash_key (t x) =? -1 then mret tt else on_hash (hash_key (t x)) (dl_rem x));
        _ ← upd_dname x (fun d => d <| hash_key := key |> <| dir_vnode := Some dir |> <| vnode := vn |>);
        nm' ← lift (StrLCpy (name (t x)) nm DNAME_SZ);
        _ ← upd_dname x (fun d => d <| name := nm'.1 |>);
        _ ← on_lru (dl_add_tail x);
        _ ← on_hash key (dl_add_head x);
        mret 0
      end
    end
  end.

(** An entry leaves its chain and becomes the next to be reused. *)
Definition unhash (x : nat) (key : Z) : M dnlc unit :=
  _ ← on_hash key (dl_rem x);
  _ ← upd_dname x (fun d => d <| hash_key := -1 |>);
  _ ← on_lru (dl_rem x);
  on_lru (dl_add_head x).

Definition dname_remove (dir : nat) (nm : list Z) : M dnlc Z :=
  o ← lift (name_key dir nm);
  match o with
  | None => mret (-1)
  | Some key =>
    t ← gets dname_table;
    l ← gets (fun s => dname_hash s key);
    r ← lift (find_entry (same_name nm) t l);
    match r with
    | Some x => _ ← unhash x key; mret 0
    | None => mret (-1)
    end
  end.

Definition dname_purge_vnode (v : nat) : M dnlc unit :=
  mfor (seq 0 NR_DNAME) (fun x =>
    d ← gets (fun s => dname_table s x);
    if negb (hash_key d =? -1) && (bool_decide (vnode d = Some v) || bool_decide (dir_vnode d = Some v))
    then unhash x (hash_key d) else mret tt).

Definition dname_purge_superblock (sb : nat) : M dnlc unit :=
  mfor (seq 0 NR_DNAME) (fun x =>
    d ← gets (fun s => dname_table s x);
    if hash_key d =? -1 then mret tt
    else match vnode d with
         | None => fault
         | Some v => if decide (superblock v = sb) then unhash x (hash_key d) else mret tt
         end).

Definition dname_purge_all : M dnlc unit :=
  _ ← mfor (seq 0 NR_DNAME) (fun x => upd_dname x (fun d => d <| hash_key := -1 |> <| vnode := None |>));
  modify (fun s => s <| dname_lru_list := [] |>).
End ops.

(** The lines of [init_vfs_lists] of fs/init.c on this cache. *)
Definition init_dnames : M dnlc unit :=
  _ ← modify (fun s => s <| dname_lru_list := [] |>);
  _ ← mfor (seq 0 NR_DNAME) (fun x => _ ← on_lru (dl_add_tail x); upd_dname x (fun d => d <| hash_key := -1 |>));
  mfor (seq 0 (Z.to_nat DNAME_HASH)) (fun k => on_hash (Z.of_nat k) (fun _ => Ok [])).
