(* ===== verification/DnlcThms.v ===== *)
(** * DnlcThms: the lookup cache is a map from names to vnodes

    The invariant of the cache, the map from directory and name to vnode that
    a table of entries stands for, and the theorems on each operation. *)

From S2P Require Import Prelude Cstring Dnlc.
Local Open Scope Z_scope.
Local Open Scope kernel_scope.

(** The string at the start of an array. *)
Fixpoint cstr (s : list Z) : list Z :=
  match s with [] => [] | c :: s' => if c =? 0 then [] else c :: cstr s' end.
Definition key_of (cs : list Z) : Z := foldr Z.add 0 cs mod DNAME_HASH.
(** A name that is short enough to be cached. *)
Definition good_name (cs : list Z) : Prop := Forall (fun c => 0 < c < 256) cs /\ (length cs < DNAME_SZ)%nat.

Definition entry_at (t : nat -> DName) (x dir : nat) (cs : list Z) : Prop :=
  hash_key (t x) <> -1 /\ dir_vnode (t x) = Some dir /\ cstr (name (t x)) = cs.
#[export] Instance entry_at_dec t x dir cs : Decision (entry_at t x dir cs).
Proof. rw /entry_at. apply _. Defined.

(** The map the table stands for. *)
Definition cache (t : nat -> DName) (dir : nat) (cs : list Z) : option nat :=
  x ← head (filter (fun x => entry_at t x dir cs) (seq 0 NR_DNAME)); vnode (t x).

Definition entry_ok (d : DName) : Prop :=
  exists dir v cs rest, good_name cs /\ dir_vnode d = Some dir /\ vnode d = Some v /\
    name d = cs ++ 0 :: rest /\ hash_key d = key_of cs.

Record dnlc_inv (s : dnlc) : Prop := {
  inv_lru : dname_lru_list s ≡ₚ seq 0 NR_DNAME;
  inv_nodup k : NoDup (dname_hash s k);
  inv_hash x k : 0 <= k < DNAME_HASH -> x ∈ dname_hash s k <-> (x < NR_DNAME)%nat /\ hash_key (dname_table s x) = k;
  inv_size x : (x < NR_DNAME)%nat -> length (name (dname_table s x)) = DNAME_SZ;
  inv_entry x : (x < NR_DNAME)%nat -> hash_key (dname_table s x) <> -1 -> entry_ok (dname_table s x);
  inv_uniq x y dir cs : (x < NR_DNAME)%nat -> (y < NR_DNAME)%nat ->
    entry_at (dname_table s) x dir cs -> entry_at (dname_table s) y dir cs -> x = y }.

Lemma good_chars cs : good_name cs -> chars cs.
Proof. intros [H _]. eapply Forall_impl; [exact H|]. simpl. lia. Qed.
#[export] Hint Resolve good_chars : kernel.

Lemma cstr_app cs rest : chars cs -> cstr (cs ++ 0 :: rest) = cs.
Proof. induction 1 as [|c cs Hc _ IH]; simpl; [done|]. destruct (Z.eqb_spec c 0); [done|]. by rw IH. Qed.

Lemma key_of_range cs : 0 <= key_of cs < DNAME_HASH.
Proof. apply Z.mod_pos_bound. rw /DNAME_HASH. lia. Qed.

Lemma in_lru s x : dnlc_inv s -> x ∈ dname_lru_list s <-> (x < NR_DNAME)%nat.
Proof. intros H. rw (inv_lru _ H) elem_of_seq. lia. Qed.
Lemma lru_nodup s : dnlc_inv s -> NoDup (dname_lru_list s).
Proof. intros H. rw (inv_lru _ H). apply NoDup_seq. Qed.

(** ** The map *)
Section cache.
Implicit Types (t : nat -> DName) (dir x : nat) (cs : list Z).
Definition uniq t : Prop := forall x y dir cs, (x < NR_DNAME)%nat -> (y < NR_DNAME)%nat ->
  entry_at t x dir cs -> entry_at t y dir cs -> x = y.

Lemma cache_some t x dir cs : uniq t -> (x < NR_DNAME)%nat -> entry_at t x dir cs -> cache t dir cs = vnode (t x).
Proof.
  intros Hu Hx He. rw /cache. destruct (filter _ _) as [|y l] eqn:E; simpl.
  - assert (x ∈ filter (fun x => entry_at t x dir cs) (seq 0 NR_DNAME)) as Hin.
    { apply list_elem_of_filter. split; [done|]. apply elem_of_seq. lia. }
    rw E in Hin. set_solver.
  - assert (y ∈ filter (fun x => entry_at t x dir cs) (seq 0 NR_DNAME)) as [Hy Hs]%list_elem_of_filter by (rw E; set_solver).
    apply elem_of_seq in Hs. rw (Hu x y dir cs) //. lia.
Qed.

Lemma cache_none t dir cs : (forall x, (x < NR_DNAME)%nat -> ~ entry_at t x dir cs) -> cache t dir cs = None.
Proof.
  intros Hn. rw /cache. destruct (filter _ _) as [|y l] eqn:E; [done|].
  assert (y ∈ filter (fun x => entry_at t x dir cs) (seq 0 NR_DNAME)) as [Hy Hs]%list_elem_of_filter by (rw E; set_solver).
  apply elem_of_seq in Hs. destruct (Hn y); [lia|done].
Qed.

Lemma cache_cases t dir cs :
  uniq t -> (exists x, (x < NR_DNAME)%nat /\ entry_at t x dir cs /\ cache t dir cs = vnode (t x)) \/
    ((forall x, (x < NR_DNAME)%nat -> ~ entry_at t x dir cs) /\ cache t dir cs = None).
Proof.
  intros Hu. destruct (filter (fun x => entry_at t x dir cs) (seq 0 NR_DNAME)) as [|y l] eqn:E.
  - right. assert (forall x, (x < NR_DNAME)%nat -> ~ entry_at t x dir cs) as Hn.
    { intros x Hx He. assert (x ∈ filter (fun x => entry_at t x dir cs) (seq 0 NR_DNAME)) as Hin.
      { apply list_elem_of_filter. split; [done|]. apply elem_of_seq. lia. }
      rw E in Hin. set_solver. }
    split; [done|]. by apply cache_none.
  - left. assert (y ∈ filter (fun x => entry_at t x dir cs) (seq 0 NR_DNAME)) as [Hy Hs]%list_elem_of_filter by (rw E; set_solver).
    apply elem_of_seq in Hs. exists y. split_and!; [lia|done|]. apply cache_some; [done|lia|done].
Qed.

(** Dropping the entries that a predicate picks drops them from the map. *)
Lemma cache_purged t t' (f : nat -> nat -> bool) :
  uniq t ->
  (forall x, (x < NR_DNAME)%nat -> hash_key (t x) <> -1 -> exists dir v, dir_vnode (t x) = Some dir /\ vnode (t x) = Some v /\
     t' x = if f dir v then (t x) <| hash_key := -1 |> else t x) ->
  (forall x, (x < NR_DNAME)%nat -> hash_key (t x) = -1 -> t' x = t x) ->
  uniq t' /\
  forall dir cs, cache t' dir cs = match cache t dir cs with Some v => if f dir v then None else Some v | None => None end.
Proof.
  intros Hu Hv Hf.
  assert (forall x dir cs, (x < NR_DNAME)%nat -> entry_at t' x dir cs -> entry_at t x dir cs /\ t' x = t x) as Hsub.
  { intros x dir cs Hx He. destruct (decide (hash_key (t x) = -1)) as [E|E].
    - assert (t' x = t x) as Et by auto. split; [|done]. by rw /entry_at Et in He.
    - destruct (Hv x Hx E) as (d & v & E1 & E2 & E3). destruct (f d v).
      + destruct He as [He _]. by rw E3 in He.
      + split; [|done]. by rw /entry_at E3 in He. }
  assert (uniq t') as Hu'.
  { intros x y dir cs Hx Hy H1 H2. apply (Hu x y dir cs Hx Hy); by apply Hsub. }
  split; [done|]. intros dir cs. destruct (cache_cases t dir cs Hu) as [(x & Hx & He & ->)|[Hn ->]].
  - destruct (He) as (Hk & Hd & _). destruct (Hv x Hx Hk) as (d & v & E1 & E2 & E3). rw E2. assert (d = dir) as -> by congruence.
    destruct (f dir v) eqn:Ef.
    + apply cache_none. intros y Hy He'. destruct (Hsub _ _ _ Hy He') as [He2 Et]. assert (y = x) as -> by exact (Hu y x dir cs Hy Hx He2 He).
      rw E3 in Et. apply (f_equal hash_key) in Et. simpl in Et. congruence.
    + rw (cache_some _ x) //; [|by rw E3]. by rw /entry_at E3.
  - apply cache_none. intros y Hy He'. destruct (Hsub _ _ _ Hy He') as [He2 _]. by apply (Hn y).
Qed.
End cache.

(** ** Finding an entry *)
Section find.
Implicit Types (t : nat -> DName) (dir x : nat) (cs nm : list Z).

Lemma name_sum_spec cs rest k : chars cs -> name_sum (length cs + 1) (cs ++ 0 :: rest) k = Ok (k + foldr Z.add 0 cs).
Proof.
  intros Hcs. revert k. induction Hcs as [|c cs Hc _ IH]; intros k; simpl; [by rw Z.add_0_r|].
  destruct (Z.eqb_spec c 0); [done|]. rw IH. f_equal. lia.
Qed.

Lemma name_sum_nonneg cs : good_name cs -> 0 <= foldr Z.add 0 cs.
Proof. intros [H _]. induction H as [|c cs Hc _ IH]; simpl; lia. Qed.

Lemma name_key_spec MNT sbo fl dir cs rest :
  good_name cs -> has (fl (sbo dir)) MNT = false -> name_key MNT sbo fl dir (cs ++ 0 :: rest) = Ok (Some (key_of cs)).
Proof.
  intros Hcs Hf. rw /name_key Hf StrLen_spec; [by apply good_chars|]. destruct (Hcs) as [_ Hl]. simpl.
  destruct (decide _); [lia|]. rw name_sum_spec; [by apply good_chars|]. simpl. do 2 f_equal.
  rw Z.rem_mod_nonneg //. by apply name_sum_nonneg.
Qed.

Lemma find_entry_spec p t l (Q : nat -> Prop) `{!forall x, Decision (Q x)} :
  (forall x, x ∈ l -> p (t x) = Ok (bool_decide (Q x))) ->
  exists o, find_entry p t l = Ok o /\
    match o with
    | Some x => exists l1 l2, l = l1 ++ x :: l2 /\ Q x /\ forall y, y ∈ l1 -> ~ Q y
    | None => forall x, x ∈ l -> ~ Q x
    end.
Proof.
  induction l as [|x l IH]; intros Hp; [by exists None; split; [|set_solver]|].
  rw /= Hp; [set_solver|]. simpl. case_bool_decide as Hx.
  - exists (Some x). split; [done|]. exists [], l. split_and!; [done|done|set_solver].
  - destruct IH as (o & -> & Ho); [intros; apply Hp; set_solver|]. exists o. split; [done|].
    destruct o as [y|]; [|set_solver]. destruct Ho as (l1 & l2 & -> & Hy & Hl). exists (x :: l1), l2. set_solver.
Qed.

Lemma same_name_spec d cs rest : entry_ok d -> chars cs -> same_name (cs ++ 0 :: rest) d = Ok (bool_decide (cstr (name d) = cs)).
Proof.
  intros (dir & v & ds & r & Hg & _ & _ & En & _) Hcs. apply good_chars in Hg. rw /same_name En cstr_app //.
  destruct (StrCmp_spec ds cs r rest Hg Hcs) as (w & -> & Hw & _). simpl. f_equal.
  destruct (Z.eqb_spec w 0); case_bool_decide; tauto.
Qed.

Lemma chain_entry s x k : dnlc_inv s -> 0 <= k < DNAME_HASH -> x ∈ dname_hash s k ->
  (x < NR_DNAME)%nat /\ hash_key (dname_table s x) = k /\ entry_ok (dname_table s x).
Proof. intros Hi Hk Hx. apply (inv_hash _ Hi) in Hx as [? ?]; [|done]. split_and!; [done|done|]. apply (inv_entry _ Hi); [done|lia]. Qed.

(** The chain of a name holds every entry with that name. *)
Lemma in_chain s x dir cs : dnlc_inv s -> (x < NR_DNAME)%nat -> entry_at (dname_table s) x dir cs -> x ∈ dname_hash s (key_of cs).
Proof.
  intros Hi Hx (Hk & _ & Hn). apply (inv_hash _ Hi); [apply key_of_range|]. split; [done|].
  destruct (inv_entry _ Hi x Hx Hk) as (d & v & ds & r & Hg & _ & _ & En & ->). rw En cstr_app in Hn; [by apply good_chars|by subst].
Qed.

Lemma chain_find s dir cs rest :
  dnlc_inv s -> good_name cs ->
  exists o, find_entry (same_entry dir (cs ++ 0 :: rest)) (dname_table s) (dname_hash s (key_of cs)) = Ok o /\
    match o with
    | Some x => (x < NR_DNAME)%nat /\ entry_at (dname_table s) x dir cs
    | None => forall x, (x < NR_DNAME)%nat -> ~ entry_at (dname_table s) x dir cs
    end.
Proof.
  intros Hi Hg. set k := key_of cs. assert (0 <= k < DNAME_HASH) as Hk by apply key_of_range.
  destruct (find_entry_spec (same_entry dir (cs ++ 0 :: rest)) (dname_table s) (dname_hash s k) (fun x => entry_at (dname_table s) x dir cs)) as (o & E & Ho).
  { intros x Hx. destruct (chain_entry s x k Hi Hk Hx) as (Hlt & Hxk & Hok). rw /same_entry.
    destruct (decide _) as [Hd|Hd]; last (rw bool_decide_false //; by intros (_ & ? & _)).
    rw same_name_spec //; [by apply good_chars|]. f_equal. apply bool_decide_ext. rw /entry_at. split; [|tauto].
    intros ?. split_and!; [lia|done|done]. }
  exists o. split; [done|]. destruct o as [x|].
  - destruct Ho as (l1 & l2 & El & He & _). split; [|done]. apply (chain_entry s x k); [done|done|]. rw El. set_solver.
  - intros x Hx He. apply (Ho x); [|done]. by apply (in_chain s x dir).
Qed.
End find.

(** ** Taking an entry out *)
Section unhash.
Implicit Types (s : dnlc) (x : nat).

Lemma on_hash_run s k f l :
  0 <= k < DNAME_HASH -> f (dname_hash s k) = Ok l -> on_hash k f s = Ok (tt, s <| dname_hash ::= fun m => <[k := l]> m |>).
Proof.
  intros Hk Hf. rw /on_hash. destruct (Z.leb_spec 0 k); [|lia]. destruct (Z.ltb_spec k DNAME_HASH); [|lia].
  by rw /= /update Hf.
Qed.

(** The state after [unhash]. *)
Definition unhashed s x k : dnlc :=
  s <| dname_hash ::= fun m => <[k := list_remove1 x (m k)]> m |>
    <| dname_table ::= fun m => <[x := (m x) <| hash_key := -1 |>]> m |>
    <| dname_lru_list ::= fun l => x :: list_remove1 x l |>.

Lemma unhash_run s x k :
  dnlc_inv s -> 0 <= k < DNAME_HASH -> x ∈ dname_hash s k -> unhash x k s = Ok (tt, unhashed s x k).
Proof.
  intros Hi Hk Hx. destruct (chain_entry s x k Hi Hk Hx) as (Hlt & _ & _). apply (in_lru s x Hi) in Hlt.
  rw /unhash {1}/mbind {1}/M_bind (on_hash_run s k _ (list_remove1 x (dname_hash s k))) //; [by apply dl_rem_ok|].
  rw {1}/mbind {1}/M_bind {1}/upd_dname {1}/modify {1}/mbind {1}/M_bind {1}/on_lru {1}/update. simpl. rw dl_rem_ok //.
  rw /on_lru /update /=. rw dl_add_head_ok //. rw elem_of_list_remove1; [by apply lru_nodup|]. tauto.
Qed.

Lemma entry_at_unhash (t : nat -> DName) x y dir cs :
  entry_at (<[x := (t x) <| hash_key := -1 |>]> t) y dir cs <-> y <> x /\ entry_at t y dir cs.
Proof.
  rw /entry_at. destruct (decide (x = y)) as [->|Hne].
  - rw fn_lookup_insert /=. tauto.
  - rw fn_lookup_insert_ne //. split; [split; [congruence|done]|tauto].
Qed.

Lemma unhashed_inv s x k :
  dnlc_inv s -> 0 <= k < DNAME_HASH -> x ∈ dname_hash s k -> dnlc_inv (unhashed s x k).
Proof.
  intros Hi Hk Hx. destruct (chain_entry s x k Hi Hk Hx) as (Hlt & Hxk & _). split; rw /unhashed /=.
  - rw list_remove1_perm; [by apply in_lru|]. apply (inv_lru _ Hi).
  - intros j. destruct (decide (k = j)) as [->|Hj]; reads; [apply NoDup_list_remove1|]; apply (inv_nodup _ Hi).
  - intros y j Hj. destruct (decide (k = j)) as [->|Hkj].
    + rw fn_lookup_insert elem_of_list_remove1; [apply (inv_nodup _ Hi)|]. rw (inv_hash _ Hi) //.
      destruct (decide (x = y)) as [->|Hxy]; reads; [|split; [tauto|intuition congruence]]. split; [tauto|lia].
    + rw fn_lookup_insert_ne //. rw (inv_hash _ Hi) //. destruct (decide (x = y)) as [->|Hxy]; reads; [|done]. lia.
  - intros y Hy. destruct (decide (x = y)) as [->|Hxy]; reads; by apply (inv_size _ Hi).
  - intros y Hy. destruct (decide (x = y)) as [->|Hxy]; reads; [done|]. by apply (inv_entry _ Hi).
  - intros y z dir cs Hy Hz [_ H1]%entry_at_unhash [_ H2]%entry_at_unhash. by apply (inv_uniq _ Hi y z dir cs).
Qed.
End unhash.

(** ** States that read the same *)
#[export] Instance dnlc_equiv : Equiv dnlc := fun s s' =>
  (forall x, dname_table s x = dname_table s' x) /\ (forall k, dname_hash s k = dname_hash s' k) /\
  dname_lru_list s = dname_lru_list s' /\ (forall v, reference_cnt s v = reference_cnt s' v).
#[export] Instance dnlc_equivalence : Equivalence (≡@{dnlc}).
Proof.
  split; rw /equiv /dnlc_equiv.
  - done.
  - intros s s' (H1 & H2 & H3 & H4). by split_and!.
  - intros s s' s'' (H1 & H2 & H3 & H4) (G1 & G2 & G3 & G4). split_and!; intros; congruence.
Qed.

Lemma entry_at_ext (t t' : nat -> DName) x dir cs : t x = t' x -> entry_at t x dir cs <-> entry_at t' x dir cs.
Proof. rw /entry_at. by intros ->. Qed.

#[export] Instance dnlc_inv_proper : Proper ((≡@{dnlc}) ==> iff) dnlc_inv.
Proof.
  assert (forall s s' : dnlc, s ≡ s' -> dnlc_inv s -> dnlc_inv s') as Himp.
  { intros s s' (Et & Eh & El & _) Hi. split.
    - rw -El. apply (inv_lru _ Hi).
    - intros k. rw -Eh. apply (inv_nodup _ Hi).
    - intros x k Hk. rw -Eh -Et. by apply (inv_hash _ Hi).
    - intros x Hx. rw -Et. by apply (inv_size _ Hi).
    - intros x Hx. rw -Et. by apply (inv_entry _ Hi).
    - intros x y dir cs Hx Hy H1 H2. apply (inv_uniq _ Hi x y dir cs Hx Hy); by eapply entry_at_ext. }
  intros s s' E. split; apply Himp; [done|by symmetry].
Qed.

#[export] Instance cache_proper : Proper (pointwise_relation nat eq ==> eq ==> eq ==> eq) cache.
Proof.
  intros t t' Et dir ? <- cs ? <-. rw /cache.
  rw (list_filter_ext (fun x => entry_at t x dir cs) (fun x => entry_at t' x dir cs)).
  { intros x _. apply entry_at_ext, Et. }
  destruct (head _); simpl; [|done]. by rw Et.
Qed.

(** ** Entering a name *)
Section enter.
Implicit Types (s : dnlc) (x : nat) (d : DName).

(** A free entry put on the chain of its new name. *)
Definition rehashed s x d : dnlc :=
  s <| dname_table ::= fun m => <[x := d]> m |>
    <| dname_lru_list ::= fun l => list_remove1 x l ++ [x] |>
    <| dname_hash ::= fun m => <[hash_key d := x :: m (hash_key d)]> m |>.

Lemma rehashed_inv s x d dir cs :
  dnlc_inv s -> (x < NR_DNAME)%nat -> hash_key (dname_table s x) = -1 ->
  entry_ok d -> length (name d) = DNAME_SZ -> dir_vnode d = Some dir -> cstr (name d) = cs ->
  (forall y, (y < NR_DNAME)%nat -> ~ entry_at (dname_table s) y dir cs) -> dnlc_inv (rehashed s x d).
Proof.
  intros Hi Hlt Hfree Hok Hlen Hdir Hcs Hnew.
  assert (0 <= hash_key d < DNAME_HASH) as Hk. { destruct Hok as (? & ? & ds & ? & _ & _ & _ & _ & ->). apply key_of_range. }
  assert (forall j, x ∉ dname_hash s j \/ ~ 0 <= j < DNAME_HASH) as Hout.
  { intros j. destruct (decide (0 <= j < DNAME_HASH)) as [Hj|Hj]; [left|by right]. rw (inv_hash _ Hi) //. lia. }
  split; rw /rehashed /=.
  - rw -Permutation_cons_append list_remove1_perm; [by apply in_lru|]. apply (inv_lru _ Hi).
  - intros j. destruct (decide (hash_key d = j)) as [<-|Hj]; reads; [|apply (inv_nodup _ Hi)].
    apply NoDup_cons. split; [|apply (inv_nodup _ Hi)]. by destruct (Hout (hash_key d)).
  - intros y j Hj. destruct (decide (hash_key d = j)) as [<-|Hkj]; reads.
    + rw elem_of_cons (inv_hash _ Hi) //. destruct (decide (x = y)) as [->|Hxy]; reads; [tauto|].
      split; [intros [->|?]; [done|done]|tauto].
    + rw (inv_hash _ Hi) //. destruct (decide (x = y)) as [->|Hxy]; reads; [|done]. split; [lia|tauto].
  - intros y Hy. destruct (decide (x = y)) as [->|Hxy]; reads; [done|]. by apply (inv_size _ Hi).
  - intros y Hy. destruct (decide (x = y)) as [->|Hxy]; reads; [done|]. by apply (inv_entry _ Hi).
  - assert (forall y dir' cs', (y < NR_DNAME)%nat -> y <> x -> entry_at (<[x:=d]> (dname_table s)) y dir' cs' ->
      entry_at (dname_table s) y dir' cs') as Hold.
    { intros y dir' cs' _ Hyx He. rw /entry_at fn_lookup_insert_ne in He; [congruence|done]. }
    assert (forall y dir' cs', (y < NR_DNAME)%nat -> y <> x -> entry_at (<[x:=d]> (dname_table s)) y dir' cs' ->
      ~ entry_at (<[x:=d]> (dname_table s)) x dir' cs') as Hx.
    { intros y dir' cs' Hy Hyx He. rw {1}/entry_at fn_lookup_insert. intros (_ & Hd' & Hc'). apply (Hnew y Hy).
      assert (dir' = dir /\ cs' = cs) as [-> ->] by (split; congruence). by apply Hold. }
    intros y z dir' cs' Hy Hz H1 H2. destruct (decide (y = x)) as [->|Hyx], (decide (z = x)) as [->|Hzx]; [done|..].
    + by destruct (Hx z dir' cs' Hz Hzx H2).
    + by destruct (Hx y dir' cs' Hy Hyx H1).
    + apply (inv_uniq _ Hi y z dir' cs' Hy Hz); by apply Hold.
Qed.

(** The map after an entry is put in place of another one. *)
Lemma cache_insert (t : nat -> DName) x d dir cs v :
  uniq (<[x := d]> t) -> uniq t -> (x < NR_DNAME)%nat -> hash_key d <> -1 -> dir_vnode d = Some dir -> cstr (name d) = cs -> vnode d = Some v ->
  cache (<[x := d]> t) dir cs = Some v /\
  forall dir' cs', ~ (dir' = dir /\ cs' = cs) ->
    cache (<[x := d]> t) dir' cs' = if decide (entry_at t x dir' cs') then None else cache t dir' cs'.
Proof.
  intros Hu' Hu Hx Hk Hd Hn Hv. split.
  - rw (cache_some _ x) //; [|by rw fn_lookup_insert]. by rw /entry_at fn_lookup_insert.
  - intros dir' cs' Hne. assert (forall y, y <> x -> entry_at (<[x:=d]> t) y dir' cs' <-> entry_at t y dir' cs') as Hext.
    { intros y Hyx. apply entry_at_ext. rw fn_lookup_insert_ne; [congruence|done]. }
    assert (~ entry_at (<[x:=d]> t) x dir' cs') as Hnx.
    { rw /entry_at fn_lookup_insert. intros (_ & ? & ?). apply Hne. split; congruence. }
    destruct (decide _) as [He|He].
    + apply cache_none. intros y Hy Hey. destruct (decide (y = x)) as [->|Hyx]; [done|].
      apply Hyx, (Hu y x dir' cs' Hy Hx); [by apply Hext|done].
    + destruct (cache_cases t dir' cs' Hu) as [(y & Hy & Hey & ->)|[Hno ->]].
      * assert (y <> x) as Hyx by congruence. rw (cache_some _ y) //; [by apply Hext|]. rw fn_lookup_insert_ne; [congruence|done].
      * apply cache_none. intros y Hy Hey. destruct (decide (y = x)) as [->|Hyx]; [done|]. by apply (Hno y Hy), Hext.
Qed.
End enter.

(** ** Theorems on the operations *)
Section ops_thms.
Context (MNT_NODNLC : Z) (superblock : nat -> nat) (sb_flags : nat -> Z).
Implicit Types (s : dnlc) (x v dir : nat) (cs rest : list Z).
Local Abbreviation lookup_op := (dname_lookup MNT_NODNLC superblock sb_flags).
Local Abbreviation enter_op := (dname_enter MNT_NODNLC superblock sb_flags).
Local Abbreviation remove_op := (dname_remove MNT_NODNLC superblock sb_flags).
(** The file system of the directory allows caching. *)
Definition cacheable dir : Prop := has (sb_flags (superblock dir)) MNT_NODNLC = false.

Lemma dname_lookup_run s dir cs rest :
  dnlc_inv s -> good_name cs -> cacheable dir ->
  lookup_op dir (cs ++ 0 :: rest) s =
    match cache (dname_table s) dir cs with
    | Some v => Ok ((0, Some v), s <| reference_cnt ::= fun m => <[v := m v + 1]> m |>)
    | None => Ok ((-1, None), s)
    end.
Proof.
  intros Hi Hg Hc. rw /dname_lookup {1}/mbind {1}/M_bind {1}/lift name_key_spec // {1}/mbind {1}/M_bind {1}/gets {1}/mbind {1}/M_bind {1}/gets.
  destruct (chain_find s dir cs rest Hi Hg) as (o & E & Ho). rw {1}/mbind {1}/M_bind {1}/lift E. destruct o as [x|].
  - destruct Ho as [Hx He]. rw (cache_some _ x) //; [exact (inv_uniq _ Hi)|].
    destruct (inv_entry _ Hi x Hx) as (? & v & ? & ? & _ & _ & -> & _); [by destruct He|]. done.
  - rw cache_none //.
Qed.

Lemma name_key_long dir cs rest : chars cs -> (DNAME_SZ <= length cs)%nat -> name_key MNT_NODNLC superblock sb_flags dir (cs ++ 0 :: rest) = Ok None.
Proof.
  intros Hcs Hl. rw /name_key StrLen_spec //. destruct (has _ _); [done|]. simpl. destruct (decide _); [done|lia].
Qed.

(** Another vnode for a name that is cached. *)
Lemma revnode_inv s x v :
  dnlc_inv s -> (x < NR_DNAME)%nat -> hash_key (dname_table s x) <> -1 ->
  dnlc_inv (s <| dname_table ::= fun m => <[x := (m x) <| vnode := Some v |>]> m |>).
Proof using Type.
  intros Hi Hx Hk. split; simpl.
  - apply (inv_lru _ Hi).
  - apply (inv_nodup _ Hi).
  - intros y k Hk'. rw (inv_hash _ Hi) //. destruct (decide (x = y)) as [->|]; by reads.
  - intros y Hy. destruct (decide (x = y)) as [->|]; reads; by apply (inv_size _ Hi).
  - intros y Hy. destruct (decide (x = y)) as [->|]; reads; [|by apply (inv_entry _ Hi)]. intros _.
    destruct (inv_entry _ Hi y Hy Hk) as (dir & w & cs & rest & ? & ? & ? & ? & ?). by exists dir, v, cs, rest.
  - assert (forall y dir cs, entry_at (<[x:=(dname_table s x) <| vnode := Some v |>]> (dname_table s)) y dir cs -> entry_at (dname_table s) y dir cs) as Hs.
    { intros y dir cs. rw /entry_at. destruct (decide (x = y)) as [->|]; by reads. }
    intros y z dir cs Hy Hz H1%Hs H2%Hs. by apply (inv_uniq _ Hi y z dir cs).
Qed.

(** The copy of the name into an entry. *)
Lemma copy_name old cs rest :
  good_name cs -> length old = DNAME_SZ ->
  exists nm, StrLCpy old (cs ++ 0 :: rest) DNAME_SZ = Ok (nm, length cs) /\ length nm = DNAME_SZ /\ exists r, nm = cs ++ 0 :: r.
Proof using Type.
  intros Hg Hl. destruct (Hg) as [_ Hs]. rw StrLCpy_spec; [by apply good_chars|lia|]. rw /DNAME_SZ in Hs Hl |- *.
  eexists. split; [done|]. rw take_ge; [lia|]. rw Nat.min_r; [lia|]. split; [|eauto]. rw length_app /= length_drop. lia.
Qed.

Lemma enter_hit s dir v cs rest x :
  dnlc_inv s -> good_name cs -> cacheable dir ->
  find_entry (same_entry dir (cs ++ 0 :: rest)) (dname_table s) (dname_hash s (key_of cs)) = Ok (Some x) ->
  (x < NR_DNAME)%nat -> entry_at (dname_table s) x dir cs ->
  exists s', enter_op dir (Some v) (cs ++ 0 :: rest) s = Ok (0, s') /\
    s' ≡ s <| dname_table ::= fun m => <[x := (m x) <| vnode := Some v |>]> m |>.
Proof.
  intros Hi Hg Hc E Hx He. eexists. rw /dname_enter {1}/mbind {1}/M_bind {1}/lift name_key_spec //.
  rw {1}/mbind {1}/M_bind {1}/gets {1}/mbind {1}/M_bind {1}/gets {1}/mbind {1}/M_bind {1}/lift E. split; [done|].
  split_and!; simpl; [|done..]. intros y. destruct (decide (x = y)) as [<-|]; reads; [|done].
  destruct He as (Hk & Hd & Hn). destruct (inv_entry _ Hi x Hx Hk) as (? & ? & ds & r & Hg' & _ & _ & En & Ek).
  rw En cstr_app in Hn; [by apply good_chars|]. subst ds. destruct (dname_table s x) as [a b c k]. simpl in *. by subst.
Qed.

Lemma enter_miss s dir v cs rest x lru :
  dnlc_inv s -> good_name cs -> cacheable dir ->
  find_entry (same_entry dir (cs ++ 0 :: rest)) (dname_table s) (dname_hash s (key_of cs)) = Ok None ->
  dname_lru_list s = x :: lru ->
  exists s' nm r, enter_op dir (Some v) (cs ++ 0 :: rest) s = Ok (0, s') /\ length nm = DNAME_SZ /\ nm = cs ++ 0 :: r /\
    s' ≡ rehashed (if decide (hash_key (dname_table s x) = -1) then s else unhashed s x (hash_key (dname_table s x)))
                  x (mkDName (Some dir) (Some v) nm (key_of cs)).
Proof.
  intros Hi Hg Hc E Hl. assert (x < NR_DNAME)%nat as Hx by (apply (in_lru s x Hi); rw Hl; set_solver).
  assert (x ∉ lru) as Hxl. { assert (NoDup (x :: lru)) as [? _]%NoDup_cons by (rw -Hl; by apply lru_nodup). done. }
  destruct (copy_name (name (dname_table s x)) cs rest Hg (inv_size _ Hi x Hx)) as (nm & Ecp & Hlen & r & ->).
  rw /dname_enter {1}/mbind {1}/M_bind {1}/lift name_key_spec //.
  rw {1}/mbind {1}/M_bind {1}/gets {1}/mbind {1}/M_bind {1}/gets {1}/mbind {1}/M_bind {1}/lift E {1}/mbind {1}/M_bind {1}/gets Hl.
  rw {1}/mbind {1}/M_bind {1}/on_lru {1}/update Hl /=.
  assert (0 <= key_of cs < DNAME_HASH) as Hk by apply key_of_range.
  destruct (Z.eqb_spec (hash_key (dname_table s x)) (-1)) as [Hf|Hf].
  - rw decide_True //. mrun. cbn [upd_dname modify]. rw /upd_dname /modify Ecp /on_lru /update /= dl_add_tail_ok //.
    erewrite on_hash_run; [|done|apply dl_add_head_ok].
    2:{ simpl. rw (inv_hash _ Hi) //. lia. }
    eexists _, (cs ++ 0 :: r), r. split_and!; [done|done|done|]. split_and!; simpl; [|done| |done].
    + intros y. destruct (decide (x = y)) as [<-|]; by reads.
    + by rw Hl /= decide_True.
  - rw decide_False //. assert (0 <= hash_key (dname_table s x) < DNAME_HASH) as Hk'.
    { destruct (inv_entry _ Hi x Hx Hf) as (? & ? & ds & ? & _ & _ & _ & _ & ->). apply key_of_range. }
    assert (x ∈ dname_hash s (hash_key (dname_table s x))) as Hin by (by apply (inv_hash _ Hi)).
    rw {1}/mbind {1}/M_bind. rw (on_hash_run _ _ _ (list_remove1 x (dname_hash s (hash_key (dname_table s x))))) //; [by apply dl_rem_ok|].
    mrun. rw /upd_dname /modify Ecp /on_lru /update /= dl_add_tail_ok //.
    erewrite on_hash_run; [|done|apply dl_add_head_ok].
    2:{ simpl. destruct (decide (hash_key (dname_table s x) = key_of cs)) as [Eq|]; reads.
        - rw Eq fn_lookup_insert elem_of_list_remove1; [apply (inv_nodup _ Hi)|]. tauto.
        - rw (inv_hash _ Hi) //. intuition congruence. }
    eexists _, (cs ++ 0 :: r), r. split_and!; [done|done|done|]. split_and!; simpl; [|done| |done].
    + intros y. destruct (decide (x = y)) as [<-|]; by reads.
    + by rw Hl /= !decide_True //= decide_True.
Qed.

(** The entry that makes room for a new one. *)
Definition victim s dir cs : Prop :=
  match dname_lru_list s with x :: _ => entry_at (dname_table s) x dir cs | [] => False end.
#[export] Instance victim_dec s dir cs : Decision (victim s dir cs).
Proof. rw /victim. destruct (dname_lru_list s); apply _. Defined.

Lemma dname_enter_spec s dir v cs rest :
  dnlc_inv s -> good_name cs -> cacheable dir ->
  exists s', enter_op dir (Some v) (cs ++ 0 :: rest) s = Ok (0, s') /\ dnlc_inv s' /\
    cache (dname_table s') dir cs = Some v /\
    forall dir' cs', ~ (dir' = dir /\ cs' = cs) ->
      cache (dname_table s') dir' cs' =
        if decide (cache (dname_table s) dir cs = None /\ victim s dir' cs') then None else cache (dname_table s) dir' cs'.
Proof.
  intros Hi Hg Hc. destruct (chain_find s dir cs rest Hi Hg) as (o & E & Ho). pose proof (inv_uniq _ Hi) as Hu. destruct o as [x|].
  - destruct Ho as [Hx He]. destruct (enter_hit s dir v cs rest x Hi Hg Hc E Hx He) as (s' & Hr & Heq).
    destruct (He) as (Hk & Hd & Hn). destruct (inv_entry _ Hi x Hx Hk) as (? & w & ? & ? & _ & _ & Hw & _).
    assert (dnlc_inv s') as Hi' by (rw Heq; by apply revnode_inv).
    exists s'. split; [done|]. split; [done|]. destruct Heq as (Et & _). rw (cache_proper _ _ Et dir dir eq_refl cs cs eq_refl).
    set d := (dname_table s x) <| vnode := Some v |> in Et |- *. simpl in Et |- *.
    destruct (cache_insert (dname_table s) x d dir cs v) as [H1 H2]; try done.
    { intros a b dir' cs' Ha Hb H1 H2. apply (inv_uniq _ Hi' a b dir' cs' Ha Hb); by rw (entry_at_ext _ _ _ _ _ (Et _)). }
    split; [done|]. intros dir' cs' Hne. rw (cache_proper _ _ Et dir' dir' eq_refl cs' cs' eq_refl) H2 //.
    rw (cache_some _ x dir cs) // Hw. 
    destruct (decide (entry_at _ _ _ _)) as [(_ & Hd' & Hn')|_]; [destruct Hne; split; congruence|].
    by destruct (decide _) as [[? _]|_].
  - destruct (dname_lru_list s) as [|x lru] eqn:Hl.
    { pose proof (inv_lru _ Hi) as Hp. rw Hl in Hp. by apply Permutation_nil in Hp. }
    destruct (enter_miss s dir v cs rest x lru Hi Hg Hc E Hl) as (s' & nm & r & Hr & Hlen & -> & Heq).
    assert (x < NR_DNAME)%nat as Hx by (apply (in_lru s x Hi); rw Hl; set_solver).
    set d := mkDName _ _ _ _ in Heq. assert (cstr (name d) = cs) as Hcs by (apply cstr_app; by apply good_chars).
    assert (entry_ok d) as Hok by (by exists dir, v, cs, r).
    assert (hash_key d <> -1) as Hkd by (pose proof (key_of_range cs); simpl; lia).
    assert (dnlc_inv s') as Hi'.
    { rw Heq. destruct (decide (hash_key (dname_table s x) = -1)) as [Hf|Hf]; [by apply (rehashed_inv s x d dir cs)|].
      destruct (inv_entry _ Hi x Hx Hf) as (? & ? & ds & ? & _ & _ & _ & _ & Ek).
      assert (0 <= hash_key (dname_table s x) < DNAME_HASH) as Hk by (rw Ek; apply key_of_range).
      apply (rehashed_inv _ x d dir cs); try done.
      - apply unhashed_inv; [done|done|]. by apply (inv_hash _ Hi).
      - by rw /unhashed /= fn_lookup_insert.
      - intros y Hy. rw /unhashed /= entry_at_unhash. intros [_ He]. by apply (Ho y). }
    assert (pointwise_relation nat eq (dname_table s') (<[x := d]> (dname_table s))) as Et.
    { intros y. destruct Heq as (Et & _). rw Et /rehashed /=. destruct (decide (x = y)) as [<-|]; reads; [done|].
      destruct (decide _); [done|]. rw /unhashed /=. by reads. }
    destruct (cache_insert (dname_table s) x d dir cs v) as [H1 H2]; try done.
    { intros a b dir' cs' Ha Hb H1 H2. apply (inv_uniq _ Hi' a b dir' cs' Ha Hb); by rw (entry_at_ext _ _ _ _ _ (Et _)). }
    exists s'. split_and!; [done|done|by rw Et|]. intros dir' cs' Hne. rw Et H2 // (cache_none _ dir cs) //.
    assert (victim s dir' cs' <-> entry_at (dname_table s) x dir' cs') as Hv by (by rw /victim Hl).
    destruct (decide (entry_at _ _ _ _)) as [He|He]; destruct (decide (_ /\ victim _ _ _)) as [Hw|Hw]; [done|..|done].
    + by destruct Hw; split; [|apply Hv].
    + destruct He. apply Hv, Hw.
Qed.

(** C37: entering a name in a cache that satisfies the invariant always succeeds
    and keeps the invariant; a lookup of the name then returns the vnode with
    a new reference, and every other name still has its vnode, except the one
    whose entry was least recently entered, when a free entry was needed. *)
Theorem dname_enter_lookup s dir v cs rest :
  dnlc_inv s -> good_name cs -> cacheable dir ->
  exists s', enter_op dir (Some v) (cs ++ 0 :: rest) s = Ok (0, s') /\ dnlc_inv s' /\
    lookup_op dir (cs ++ 0 :: rest) s' = Ok ((0, Some v), s' <| reference_cnt ::= fun m => <[v := m v + 1]> m |>) /\
    forall dir' cs' rest', good_name cs' -> cacheable dir' -> ~ (dir' = dir /\ cs' = cs) ->
      fst <$> lookup_op dir' (cs' ++ 0 :: rest') s' =
        if decide (cache (dname_table s) dir cs = None /\ victim s dir' cs') then Ok (-1, None)
        else fst <$> lookup_op dir' (cs' ++ 0 :: rest') s.
Proof.
  intros Hi Hg Hc. destruct (dname_enter_spec s dir v cs rest Hi Hg Hc) as (s' & Hr & Hi' & H1 & H2).
  exists s'. split_and!; [done|done|by rw dname_lookup_run // H1|].
  intros dir' cs' rest' Hg' Hc' Hne. rw !dname_lookup_run // H2 //.
  destruct (decide (_ /\ victim _ _ _)); [done|]. by destruct (cache (dname_table s) dir' cs').
Qed.

(** *** Removing *)

(** An entry after a purge of those that [f] picks. *)
Definition purged (f : nat -> nat -> bool) (d d' : DName) : Prop :=
  (hash_key d = -1 -> d' = d) /\
  (hash_key d <> -1 -> exists dir v, dir_vnode d = Some dir /\ vnode d = Some v /\ d' = if f dir v then d <| hash_key := -1 |> else d).

Lemma purge_loop (f : nat -> nat -> bool) (body : nat -> M dnlc unit) s :
  (forall s x, hash_key (dname_table s x) = -1 -> body x s = Ok (tt, s)) ->
  (forall s x dir v, hash_key (dname_table s x) <> -1 -> dir_vnode (dname_table s x) = Some dir -> vnode (dname_table s x) = Some v ->
     body x s = if f dir v then unhash x (hash_key (dname_table s x)) s else Ok (tt, s)) ->
  dnlc_inv s ->
  exists s', mfor (seq 0 NR_DNAME) body s = Ok (tt, s') /\ dnlc_inv s' /\ reference_cnt s' = reference_cnt s /\
    forall dir cs, cache (dname_table s') dir cs =
      match cache (dname_table s) dir cs with Some v => if f dir v then None else Some v | None => None end.
Proof using Type.
  clear MNT_NODNLC superblock sb_flags. intros Hskip Hbody Hi. apply wp_unit.
  apply (wp_mfor (fun l s' => dnlc_inv s' /\ reference_cnt s' = reference_cnt s /\ NoDup l /\
    (forall x, x ∈ l -> (x < NR_DNAME)%nat /\ dname_table s' x = dname_table s x) /\
    (forall x, (x < NR_DNAME)%nat -> x ∉ l -> purged f (dname_table s x) (dname_table s' x)))).
  - split_and!; [done|done|apply NoDup_seq|..].
    + intros x Hx%elem_of_seq. split; [lia|done].
    + intros x Hx Hn. destruct Hn. apply elem_of_seq. lia.
  - intros x l s1 (Hi1 & Hc & [Hxl Hl]%NoDup_cons & Htodo & Hdone). destruct (Htodo x) as [Hx Ex]; [set_solver|].
    destruct (decide (hash_key (dname_table s1 x) = -1)) as [E|E].
    { rw /wp Hskip //. split_and!; [done|done|done|set_solver|]. intros y Hy Hyl.
      destruct (decide (y = x)) as [->|Hne]; [|apply Hdone; set_solver]. rw Ex. split; [done|]. by rw -Ex. }
    destruct (inv_entry _ Hi1 x Hx E) as (dir & v & ds & r & _ & Hd & Hv & _ & Ek).
    rw /wp (Hbody s1 x dir v) //. destruct (f dir v) eqn:Ef.
    + assert (0 <= hash_key (dname_table s1 x) < DNAME_HASH) as Hk by (rw Ek; apply key_of_range).
      assert (x ∈ dname_hash s1 (hash_key (dname_table s1 x))) as Hin by (by apply (inv_hash _ Hi1)).
      rw unhash_run //. split_and!; [by apply unhashed_inv|done|done|..].
      * intros y Hy. destruct (Htodo y) as [? ?]; [set_solver|]. split; [done|]. rw /unhashed /=. by rw fn_lookup_insert_ne; [set_solver|].
      * intros y Hy Hyl. rw /unhashed /=. destruct (decide (x = y)) as [<-|Hne]; reads; [|apply Hdone; set_solver].
        rw Ex. split; [by rw -Ex|]. intros _. exists dir, v. rw -Ex Ef. done.
    + split_and!; [done|done|done|set_solver|]. intros y Hy Hyl.
      destruct (decide (y = x)) as [->|Hne]; [|apply Hdone; set_solver]. rw Ex. split; [done|]. intros _. exists dir, v. rw -Ex Ef. done.
  - intros s' (Hi' & Hc & _ & _ & Hall). split; [done|]. split; [done|].
    apply (cache_purged (dname_table s) (dname_table s') f); [exact (inv_uniq _ Hi)|..].
    + intros x Hx. apply Hall; [done|set_solver].
    + intros x Hx. apply Hall; [done|set_solver].
Qed.

(** C38: purging a vnode, or a superblock, always succeeds and keeps the
    invariant; afterwards exactly the names in the vnode's directory and the
    names of the vnode, or the names of vnodes of the superblock, are gone,
    and the reference counts are as before. *)
Theorem dname_purge_correct s v sb :
  dnlc_inv s ->
  (exists s', dname_purge_vnode v s = Ok (tt, s') /\ dnlc_inv s' /\ reference_cnt s' = reference_cnt s /\
     forall dir cs, cache (dname_table s') dir cs =
       match cache (dname_table s) dir cs with
       | Some w => if bool_decide (w = v \/ dir = v) then None else Some w
       | None => None
       end) /\
  (exists s', dname_purge_superblock superblock sb s = Ok (tt, s') /\ dnlc_inv s' /\ reference_cnt s' = reference_cnt s /\
     forall dir cs, cache (dname_table s') dir cs =
       match cache (dname_table s) dir cs with
       | Some w => if bool_decide (superblock w = sb) then None else Some w
       | None => None
       end).
Proof using Type.
  clear MNT_NODNLC sb_flags. intros Hi. split.
  - apply (purge_loop (fun dir w => bool_decide (w = v \/ dir = v))); [..|done].
    + intros s1 x E. by rw {1}/mbind {1}/M_bind {1}/gets E.
    + intros s1 x dir w E Hd Hv. rw {1}/mbind {1}/M_bind {1}/gets Hd Hv. destruct (Z.eqb_spec (hash_key (dname_table s1 x)) (-1)); [done|].
      simpl. repeat case_bool_decide; simpl; try done; naive_solver.
  - apply (purge_loop (fun dir w => bool_decide (superblock w = sb))); [..|done].
    + intros s1 x E. by rw {1}/mbind {1}/M_bind {1}/gets E.
    + intros s1 x dir w E Hd Hv. rw {1}/mbind {1}/M_bind {1}/gets Hv. destruct (Z.eqb_spec (hash_key (dname_table s1 x)) (-1)); [done|].
      by destruct (decide _); case_bool_decide.
Qed.

(** Removing a name takes the first entry of the chain with that name,
    of whatever directory: the entry that is lost need not be the one of the
    directory given, whose name may stay in the cache. *)
Theorem dname_remove_any_directory s dir cs rest x :
  dnlc_inv s -> good_name cs -> cacheable dir ->
  head (filter (fun x => cstr (name (dname_table s x)) = cs) (dname_hash s (key_of cs))) = Some x ->
  exists s', remove_op dir (cs ++ 0 :: rest) s = Ok (0, s') /\ dnlc_inv s' /\
    forall dir' cs', cache (dname_table s') dir' cs' =
      if decide (cs' = cs /\ dir_vnode (dname_table s x) = Some dir') then None else cache (dname_table s) dir' cs'.
Proof.
  intros Hi Hg Hc Hhd. set k := key_of cs in Hhd. assert (0 <= k < DNAME_HASH) as Hk by apply key_of_range.
  destruct (find_entry_spec (same_name (cs ++ 0 :: rest)) (dname_table s) (dname_hash s k) (fun x => cstr (name (dname_table s x)) = cs)) as (o & E & Ho).
  { intros y Hy. destruct (chain_entry s y k Hi Hk Hy) as (_ & _ & Hok). apply same_name_spec; [done|by apply good_chars]. }
  assert (o = Some x) as ->.
  { destruct o as [y|].
    - destruct Ho as (l1 & l2 & El & Hy & Hl1). rw El filter_app in Hhd. rw list_filter_none in Hhd; [done|]. rw /= filter_cons decide_True // in Hhd.
    - rw list_filter_none // in Hhd. }
  destruct Ho as (l1 & l2 & El & Hn & _). assert (x ∈ dname_hash s k) as Hin by (rw El; set_solver).
  destruct (chain_entry s x k Hi Hk Hin) as (Hx & Hxk & d0 & v0 & _ & _ & _ & Hd0 & Hv0 & _).
  exists (unhashed s x k). split; [|split; [by apply unhashed_inv|]].
  - rw /dname_remove {1}/mbind {1}/M_bind {1}/lift name_key_spec // {1}/mbind {1}/M_bind {1}/gets {1}/mbind {1}/M_bind {1}/gets {1}/mbind {1}/M_bind {1}/lift E.
    by rw {1}/mbind {1}/M_bind unhash_run.
  - intros dir' cs'. pose proof (inv_uniq _ Hi) as Hu. rw /unhashed /= Hd0.
    assert (hash_key (dname_table s x) <> -1) as Hk1 by lia.
    destruct (decide _) as [[-> [= ->]]|Hne].
    + apply cache_none. intros y Hy [Hyx He]%entry_at_unhash. apply Hyx, (Hu y x dir' cs Hy Hx He). done.
    + assert (~ entry_at (dname_table s) x dir' cs') as Hnx. { intros (_ & ? & ?). apply Hne. split; congruence. }
      destruct (cache_cases (dname_table s) dir' cs' Hu) as [(y & Hy & Hey & ->)|[Hno ->]].
      * assert (y <> x) as Hyx by congruence. rw (cache_some _ y) //; [exact (inv_uniq _ (unhashed_inv s x k Hi Hk Hin))|by apply entry_at_unhash|].
        by rw fn_lookup_insert_ne; [congruence|].
      * apply cache_none. intros y Hy [_ He]%entry_at_unhash. by apply (Hno y Hy).
Qed.

Lemma find_entry_ext p (t t' : nat -> DName) l : (forall x, x ∈ l -> p (t x) = p (t' x)) -> find_entry p t l = find_entry p t' l.
Proof using Type.
  clear MNT_NODNLC superblock sb_flags.
  induction l as [|x l IH]; intros H; simpl; [done|]. rw H; [set_solver|]. destruct (p (t' x)) as [[]| |]; simpl; [done| |done..].
  apply IH. set_solver.
Qed.

Lemma purge_all_run s :
  exists s1, dname_purge_all s = Ok (tt, s1) /\ dname_lru_list s1 = [] /\ dname_hash s1 = dname_hash s /\
    forall x, (x < NR_DNAME)%nat -> dname_table s1 x = (dname_table s x) <| hash_key := -1 |> <| vnode := None |>.
Proof using Type.
  clear MNT_NODNLC superblock sb_flags. apply wp_unit. rw /dname_purge_all. apply wp_bind.
  apply (wp_mfor (fun l s1 => dname_hash s1 = dname_hash s /\ NoDup l /\ (forall x, x ∈ l -> dname_table s1 x = dname_table s x) /\
    forall x, (x < NR_DNAME)%nat -> x ∉ l -> dname_table s1 x = (dname_table s x) <| hash_key := -1 |> <| vnode := None |>)).
  - split_and!; [done|apply NoDup_seq|done|]. intros x Hx Hn. destruct Hn. apply elem_of_seq. lia.
  - intros x l s1 (Hh & [Hxl Hl]%NoDup_cons & Htodo & Hdone). apply wp_modify. split_and!; [done|done|..].
    + intros y Hy. simpl. rw fn_lookup_insert_ne; [set_solver|]. apply Htodo. set_solver.
    + intros y Hy Hyl. simpl. destruct (decide (x = y)) as [<-|Hne]; reads; [|apply Hdone; set_solver]. rw Htodo //. set_solver.
  - intros s1 (Hh & _ & _ & Hall). apply wp_modify. split_and!; [done|done|]. intros x Hx. apply Hall; [done|set_solver].
Qed.

(** After [dname_purge_all] the chains still hold the entries while the
    LRU list is empty: looking up a name that was cached references a NULL
    vnode, and entering a name that was not takes an entry from the empty
    list. *)
Theorem dname_purge_all_breaks s dir cs rest (vn : option nat) :
  dnlc_inv s -> good_name cs -> cacheable dir ->
  exists s1, dname_purge_all s = Ok (tt, s1) /\
    (cache (dname_table s) dir cs = None -> enter_op dir vn (cs ++ 0 :: rest) s1 = Fault) /\
    (cache (dname_table s) dir cs <> None -> lookup_op dir (cs ++ 0 :: rest) s1 = Fault).
Proof.
  intros Hi Hg Hc. destruct (purge_all_run s) as (s1 & Hr & Hl & Hh & Ht). exists s1. split; [done|].
  destruct (chain_find s dir cs rest Hi Hg) as (o & E & Ho). assert (0 <= key_of cs < DNAME_HASH) as Hk by apply key_of_range.
  assert (find_entry (same_entry dir (cs ++ 0 :: rest)) (dname_table s1) (dname_hash s1 (key_of cs)) = Ok o) as E1.
  { rw -E Hh. apply find_entry_ext. intros x Hx. destruct (chain_entry s x _ Hi Hk Hx) as (Hlt & _ & _). by rw Ht. }
  split; intros Hcache.
  - rw /dname_enter {1}/mbind {1}/M_bind {1}/lift name_key_spec // {1}/mbind {1}/M_bind {1}/gets {1}/mbind {1}/M_bind {1}/gets {1}/mbind {1}/M_bind {1}/lift E1.
    destruct o as [x|]; [|by rw {1}/mbind {1}/M_bind {1}/gets Hl]. destruct Ho as [Hx He].
    rw (cache_some _ x) // in Hcache; [exact (inv_uniq _ Hi)|].
    destruct (inv_entry _ Hi x Hx) as (? & w & ? & ? & _ & _ & Hw & _); [by destruct He|]. congruence.
  - rw /dname_lookup {1}/mbind {1}/M_bind {1}/lift name_key_spec // {1}/mbind {1}/M_bind {1}/gets {1}/mbind {1}/M_bind {1}/gets {1}/mbind {1}/M_bind {1}/lift E1.
    destruct o as [x|]; [|by rw cache_none in Hcache]. destruct Ho as [Hx _]. by rw Ht.
Qed.
End ops_thms.

(** ** Boot, and a cache to try the theorems on *)

(** The tables before [init_vfs_lists]: zeroed memory. *)
Definition boot : dnlc := mkDnlc (fun _ => mkDName None None (replicate DNAME_SZ 0) 0) (fun _ => []) [] (fun _ => 0).

Lemma init_dnames_spec : exists s, init_dnames boot = Ok (tt, s) /\ dnlc_inv s /\ forall dir cs, cache (dname_table s) dir cs = None.
Proof.
  apply wp_unit. rw /init_dnames. apply wp_bind, wp_modify, wp_bind.
  apply (wp_mfor (fun l s => (forall k, dname_hash s k = []) /\ (forall x, length (name (dname_table s x)) = DNAME_SZ) /\
    exists pre, seq 0 NR_DNAME = pre ++ l /\ dname_lru_list s = pre /\ forall x, x ∈ pre -> hash_key (dname_table s x) = -1)).
  - split_and!; [done..|]. exists []. split_and!; [done|done|set_solver].
  - intros x l s (Hh & Hn & pre & El & Hpre & Hk). assert (NoDup (pre ++ x :: l)) as Hnd by (rw -El; apply NoDup_seq).
    apply wp_bind. eapply (wp_update _ _ _ (pre ++ [x])).
    { rw Hpre. apply dl_add_tail_ok. apply NoDup_app in Hnd as (_ & Hd & _). intros Hx. apply (Hd x Hx). set_solver. }
    apply wp_modify. split_and!; [done|..].
    + intros y. simpl. destruct (decide (x = y)) as [<-|]; by reads.
    + exists (pre ++ [x]). split_and!; [by rw -app_assoc|done|]. intros y Hy. simpl. destruct (decide (x = y)) as [<-|]; reads; [done|].
      apply Hk. set_solver.
  - intros s (Hh & Hn & pre & El & Hpre & Hk). rw app_nil_r in El. subst pre.
    apply (wp_mfor (fun l s' => (forall k, k ∈ l -> (k < 32)%nat) /\ (forall k, dname_hash s' k = []) /\ dname_table s' = dname_table s /\ dname_lru_list s' = dname_lru_list s)).
    + split_and!; [|done..]. intros k Hk'%elem_of_seq. rw /DNAME_HASH in Hk'. lia.
    + intros k l s' (Hlt & Hh' & Ht & Hl). rw /wp (on_hash_run _ _ _ []) //; [rw /DNAME_HASH; specialize (Hlt k); set_solver by lia|].
      split_and!; [set_solver| |done|done]. intros j. simpl. destruct (decide (Z.of_nat k = j)) as [<-|]; by reads.
    + intros s' (_ & Hh' & Ht & Hl).
      assert (forall x, (x < NR_DNAME)%nat -> hash_key (dname_table s' x) = -1) as Hfree.
      { intros x Hx. rw Ht. apply Hk. rw -El. apply elem_of_seq. lia. }
      split; [split|].
      * by rw Hl -El.
      * intros k. rw Hh'. constructor.
      * intros x k Hk'. rw Hh'. split; [set_solver|]. intros [Hx E]. rw Hfree // in E. lia.
      * intros x _. by rw Ht.
      * intros x Hx. by rw Hfree.
      * intros x y dir cs Hx _ [He _]. by rw Hfree in He.
      * intros dir cs. apply cache_none. intros x Hx [He _]. by rw Hfree in He.
Qed.

Module Sample.
(** Every file system may be cached; directories 5 and 6 both have a file
    "ab", the vnodes 7 and 8. *)
Definition ab : list Z := [97; 98].
Definition lookup := dname_lookup 1 (fun v => v) (fun _ => 0).
Definition enter := dname_enter 1 (fun v => v) (fun _ => 0).
Definition remove := dname_remove 1 (fun v => v) (fun _ => 0).
Definition run {A} (m : M dnlc A) (s : dnlc) : dnlc := match m s with Ok (_, s') => s' | _ => s end.
Definition state0 : dnlc := run init_dnames boot.
Definition state : dnlc := run (enter 6 (Some 8%nat) (ab ++ [0])) (run (enter 5 (Some 7%nat) (ab ++ [0])) state0).

Lemma ab_good : good_name ab.
Proof. split; [|rw /DNAME_SZ /=; lia]. repeat (apply Forall_cons; split; [lia|]); apply Forall_nil_2. Qed.
Lemma cacheable_any dir : cacheable 1 (fun v => v) (fun _ => 0) dir.
Proof. done. Qed.
Lemma state0_inv : dnlc_inv state0 /\ forall dir cs, cache (dname_table state0) dir cs = None.
Proof. destruct init_dnames_spec as (s & E & H). by rw /state0 /run E. Qed.
Lemma enter_inv s dir v : dnlc_inv s -> dnlc_inv (run (enter dir (Some v) (ab ++ [0])) s).
Proof.
  intros Hi. destruct (dname_enter_spec 1 (fun v => v) (fun _ => 0) s dir v ab [] Hi ab_good (cacheable_any dir)) as (s' & E & Hi' & _).
  by rw /run /enter E.
Qed.
Lemma state_inv : dnlc_inv state.
Proof. apply enter_inv, enter_inv, state0_inv. Qed.
End Sample.

Lemma dname_enter_lookup_witness :
  exists s', Sample.enter 5 (Some 9%nat) (Sample.ab ++ 0 :: []) Sample.state = Ok (0, s') /\
    Sample.lookup 5 (Sample.ab ++ 0 :: []) s' = Ok ((0, Some 9%nat), s' <| reference_cnt ::= fun m => <[9%nat := m 9%nat + 1]> m |>).
Proof.
  destruct (dname_enter_lookup 1 (fun v => v) (fun _ => 0) Sample.state 5 9 Sample.ab [] Sample.state_inv Sample.ab_good eq_refl)
    as (s' & H1 & _ & H2 & _). exists s'. split; [exact H1|exact H2].
Defined.

Lemma dname_purge_correct_witness :
  exists s', dname_purge_vnode 7 Sample.state = Ok (tt, s') /\ cache (dname_table s') 6 Sample.ab = Some 8%nat /\ cache (dname_table s') 5 Sample.ab = None.
Proof.
  destruct (dname_purge_correct (fun v => v) Sample.state 7 0 Sample.state_inv) as [(s' & H1 & _ & _ & H2) _].
  exists s'. split; [exact H1|]. rewrite !H2. split; vm_compute; reflexivity.
Defined.

Lemma dname_remove_any_directory_witness :
  exists s', Sample.remove 5 (Sample.ab ++ 0 :: []) Sample.state = Ok (0, s') /\
    cache (dname_table s') 5 Sample.ab = Some 7%nat /\ cache (dname_table s') 6 Sample.ab = None.
Proof.
  destruct (dname_remove_any_directory 1 (fun v => v) (fun _ => 0) Sample.state 5 Sample.ab [] 1 Sample.state_inv Sample.ab_good eq_refl)
    as (s' & H1 & _ & H2); [vm_compute; reflexivity|].
  exists s'. split; [exact H1|]. rewrite !H2. split; vm_compute; reflexivity.
Defined.

Lemma dname_purge_all_breaks_witness :
  exists s1, dname_purge_all Sample.state = Ok (tt, s1) /\ Sample.enter 9 (Some 3%nat) (Sample.ab ++ 0 :: []) s1 = Fault.
Proof.
  destruct (dname_purge_all_breaks 1 (fun v => v) (fun _ => 0) Sample.state 9 Sample.ab [] (Some 3%nat) Sample.state_inv Sample.ab_good eq_refl)
    as (s1 & H1 & H2 & _). exists s1. split; [exact H1|]. apply H2. vm_compute; reflexivity.
Defined.
