(* ===== verification/Pipe.v ===== *)
(** * Pipe: fs/pipe.c and the pipe part of fs/vnode.c

    A pipe is a ring of one page. A thread that cannot go on sleeps on the
    pipe's rendez; [sleepers] lists the threads asleep there with what they
    wait for, and waking them all empties it (see [TaskWakeupAll] in
    [BklSteps]). A transfer is modelled from a point where the thread holds the
    kernel lock to the next sleep or the return: when a thread that slept is
    woken it evaluates the loop again from the beginning, so that it goes on as
    the same call in the state it finds. *)

From S2P Require Import Prelude FileDesc.
Local Open Scope Z_scope.
Local Open Scope kernel_scope.

Definition PIPE_BUF_SZ : Z := 4096.

Inductive waits_for : Type := Data | Room.
#[export] Instance waits_for_eq_dec : EqDecision waits_for.
Proof. solve_decision. Defined.

(** [data] is the page, [[]] when there is none. *)
Record Pipe := mkPipe {
  sleepers : list (nat * waits_for);
  data : list Z;
  w_pos : Z;
  r_pos : Z;
  free_sz : Z;
  data_sz : Z;
  reader_cnt : Z;
  writer_cnt : Z }.
Definition eta_Pipe p := mkPipe (sleepers p) (data p) (w_pos p) (r_pos p) (free_sz p) (data_sz p) (reader_cnt p) (writer_cnt p).
#[export] Instance set_sleepers : Setter sleepers := ltac:(solve_setter eta_Pipe).
#[export] Instance set_data : Setter data := ltac:(solve_setter eta_Pipe).
#[export] Instance set_w_pos : Setter w_pos := ltac:(solve_setter eta_Pipe).
#[export] Instance set_r_pos : Setter r_pos := ltac:(solve_setter eta_Pipe).
#[export] Instance set_free_sz : Setter free_sz := ltac:(solve_setter eta_Pipe).
#[export] Instance set_data_sz : Setter data_sz := ltac:(solve_setter eta_Pipe).
#[export] Instance set_reader_cnt : Setter reader_cnt := ltac:(solve_setter eta_Pipe).
#[export] Instance set_writer_cnt : Setter writer_cnt := ltac:(solve_setter eta_Pipe).

(** ** Transfers

    The state is the pipe and the memory of the calling process. *)
Record xfer := mkXfer { pipe : Pipe; umem : Z -> Z }.
Definition eta_xfer s := mkXfer (pipe s) (umem s).
#[export] Instance set_pipe : Setter pipe := ltac:(solve_setter eta_xfer).
#[export] Instance set_umem : Setter umem := ltac:(solve_setter eta_xfer).

(** Bytes from an array, or memory, with a list of bytes written over it. *)
Definition slice (l : list Z) (pos n : Z) : list Z := take (Z.to_nat n) (drop (Z.to_nat pos) l).
Definition splice (l : list Z) (pos : Z) (b : list Z) : list Z :=
  take (Z.to_nat pos) l ++ b ++ drop (Z.to_nat pos + length b) l.
Definition mem_read (m : Z -> Z) (a n : Z) : list Z := map (fun i => m (a + Z.of_nat i)) (seq 0 (Z.to_nat n)).
Definition mem_write (m : Z -> Z) (a : Z) (b : list Z) : Z -> Z := fun x =>
  if a <=? x then default (m x) (b !! Z.to_nat (x - a)) else m x.

(** Where a call got to: asleep, returned, or out of fuel. *)
Inductive progress : Type := Asleep | Returns (r : ret) | Spinning.

Section transfers.
(** Whether the range of user memory can be copied to or from, and the
    system's [PIPE_BUF]. *)
Variable copy_ok : Z -> Z -> bool.
Variable PIPE_BUF : Z.

Definition upd_pipe (f : Pipe -> Pipe) : M xfer unit := modify (fun s => s <| pipe ::= f |>).
Definition sleep (c : nat) (w : waits_for) : M xfer unit := upd_pipe (fun p => p <| sleepers ::= fun l => l ++ [(c, w)] |>).
Definition wakeup_all : M xfer unit := upd_pipe (fun p => p <| sleepers := [] |>).

(** [copyout(dst, pipe->data + pos, n)] and [copyin(pipe->data + pos, src, n)];
    leaving the page is a fault. *)
Definition in_page (p : Pipe) (pos n : Z) : bool := (0 <=? pos) && (0 <=? n) && (pos + n <=? Z.of_nat (length (data p))).
Definition copyout (dst pos n : Z) : M xfer bool :=
  p ← gets pipe;
  if negb (in_page p pos n) then fault
  else if copy_ok dst n then _ ← modify (fun s => s <| umem ::= fun m => mem_write m dst (slice (data p) pos n) |>); mret true
  else mret false.
Definition copyin (pos src n : Z) : M xfer bool :=
  p ← gets pipe;
  if negb (in_page p pos n) then fault
  else if copy_ok src n then
    m ← gets umem; _ ← upd_pipe (fun p => p <| data ::= fun l => splice l pos (mem_read m src n) |>); mret true
  else mret false.

(** The two copies of [read_from_pipe]: both go to [dst], and the second one
    starts at the beginning of the page. *)
Definition read_copy (dst n : Z) : M xfer bool :=
  p ← gets pipe;
  r ← (if PIPE_BUF_SZ <? r_pos p + n then
         let sz1 := PIPE_BUF_SZ - r_pos p in
         ok ← copyout dst (r_pos p) sz1; mret (if (ok : bool) then Some (n - sz1) else None)
       else mret (Some n));
  match r with
  | None => mret false
  | Some sz2 => if sz2 =? 0 then mret true else copyout dst 0 sz2
  end.

Fixpoint read_loop (fuel : nat) (c : nat) (dst sz nbytes_read : Z) : M xfer progress :=
  match fuel with
  | O => mret Spinning
  | S fuel' =>
    if negb (nbytes_read =? 0) then mret (Returns (RVal nbytes_read))
    else
      let remaining := wrap32 (sz - nbytes_read) in
      p ← gets pipe;
      if (data_sz p =? 0) && (0 <? writer_cnt p) then _ ← sleep c Data; mret Asleep
      else if (writer_cnt p =? 0) && (data_sz p =? 0) then mret (Returns (RVal nbytes_read))
      else if (data_sz p =? 0) && (0 <? nbytes_read) then mret (Returns (RVal nbytes_read))
      else
        let n := if remaining <? wrap32 (data_sz p) then remaining else data_sz p in
        ok ← read_copy dst n;
        if (ok : bool) then
          _ ← upd_pipe (fun p => p <| r_pos ::= fun x => Z.rem (x + n) PIPE_BUF_SZ |> <| data_sz ::= fun x => x - n |>
                                   <| free_sz ::= fun x => x + n |>);
          _ ← wakeup_all;
          read_loop fuel' c (dst + n) sz (nbytes_read + n)
        else mret (Returns (RErr EIO))
  end.
Definition read_from_pipe (fuel c : nat) (dst sz : Z) : M xfer progress := read_loop fuel c dst sz 0.

Definition write_copy (src n : Z) : M xfer bool :=
  p ← gets pipe;
  r ← (if PIPE_BUF_SZ <? w_pos p + n then
         let sz1 := PIPE_BUF_SZ - w_pos p in
         ok ← copyin (w_pos p) src sz1; mret (if (ok : bool) then Some (src + sz1, n - sz1) else None)
       else mret (Some (src, n)));
  match r with
  | None => mret false
  | Some (src2, sz2) => if sz2 =? 0 then mret true else copyin 0 src2 sz2
  end.

Fixpoint write_loop (fuel : nat) (c : nat) (src sz nbytes_written : Z) : M xfer progress :=
  match fuel with
  | O => mret Spinning
  | S fuel' =>
    if negb (nbytes_written =? 0) then mret (Returns (RVal nbytes_written))
    else
      let remaining := wrap32 (sz - nbytes_written) in
      p ← gets pipe;
      if (free_sz p <? PIPE_BUF) && (0 <? reader_cnt p) then _ ← sleep c Room; mret Asleep
      else if reader_cnt p =? 0 then mret (Returns (RVal nbytes_written))
      else
        let n := if remaining <? wrap32 (free_sz p) then remaining else free_sz p in
        ok ← write_copy src n;
        if (ok : bool) then
          _ ← upd_pipe (fun p => p <| w_pos ::= fun x => Z.rem (x + n) PIPE_BUF_SZ |> <| data_sz ::= fun x => x + n |>
                                   <| free_sz ::= fun x => x - n |>);
          _ ← wakeup_all;
          write_loop fuel' c (src + n) sz (nbytes_written + n)
        else mret (Returns (RErr EIO))
  end.
Definition write_to_pipe (fuel c : nat) (src sz : Z) : M xfer progress := write_loop fuel c src sz 0.
End transfers.

(** What dropping a reader, or a writer, does to the pipe; the last one wakes
    everybody. *)
Definition put_reader (p : Pipe) : Pipe :=
  let p := p <| reader_cnt ::= fun n => n - 1 |> in if reader_cnt p =? 0 then p <| sleepers := [] |> else p.
Definition put_writer (p : Pipe) : Pipe :=
  let p := p <| writer_cnt ::= fun n => n - 1 |> in if writer_cnt p =? 0 then p <| sleepers := [] |> else p.

(** ** Making and closing pipes

    On top of the descriptors: the pipes and their free list, the vnodes' free
    list and fields, and the reference count of [pipe_sb]. *)
Record pfs := mkPfs {
  files : fs;
  pipe_table : nat -> Pipe;
  free_pipe_list : list nat;
  vnode_free_list : list nat;
  v_valid : nat -> bool;
  v_pipe : nat -> option nat;
  v_owner : nat -> Z * Z;
  pipe_sb_reference_cnt : Z }.
Definition eta_pfs s := mkPfs (files s) (pipe_table s) (free_pipe_list s) (vnode_free_list s) (v_valid s) (v_pipe s) (v_owner s) (pipe_sb_reference_cnt s).
#[export] Instance set_files : Setter files := ltac:(solve_setter eta_pfs).
#[export] Instance set_pipe_table : Setter pipe_table := ltac:(solve_setter eta_pfs).
#[export] Instance set_free_pipe_list : Setter free_pipe_list := ltac:(solve_setter eta_pfs).
#[export] Instance set_vnode_free_list : Setter vnode_free_list := ltac:(solve_setter eta_pfs).
#[export] Instance set_v_valid : Setter v_valid := ltac:(solve_setter eta_pfs).
#[export] Instance set_v_pipe : Setter v_pipe := ltac:(solve_setter eta_pfs).
#[export] Instance set_v_owner : Setter v_owner := ltac:(solve_setter eta_pfs).
#[export] Instance set_pipe_sb_reference_cnt : Setter pipe_sb_reference_cnt := ltac:(solve_setter eta_pfs).

Definition on_files {A} (m : M fs A) : M pfs A := fun s =>
  match m (files s) with Ok (a, f) => Ok (a, s <| files := f |>) | Panic => Panic | Fault => Fault end.
Definition upd_ptable (i : nat) (f : Pipe -> Pipe) : M pfs unit :=
  modify (fun s => s <| pipe_table ::= fun t => <[i := f (t i)]> t |>).

(** [page]: what [kmalloc_page] returned. *)
Definition alloc_pipe (page : option (list Z)) : M pfs (option nat) :=
  l ← gets free_pipe_list;
  match l with
  | [] => mret None
  | i :: _ =>
    _ ← update free_pipe_list (fun l s => s <| free_pipe_list := l |>) dl_rem_head;
    _ ← upd_ptable i (fun p => p <| w_pos := 0 |> <| r_pos := 0 |> <| data_sz := 0 |> <| free_sz := PIPE_BUF_SZ |>
                                 <| reader_cnt := 0 |> <| writer_cnt := 0 |> <| data := default [] page |>);
    match page with
    | None => _ ← update free_pipe_list (fun l s => s <| free_pipe_list := l |>) (dl_add_head i); mret None
    | Some _ => _ ← upd_ptable i (fun p => p <| sleepers := [] |>); mret (Some i)
    end
  end.

Definition free_pipe (i : nat) : M pfs unit :=
  _ ← upd_ptable i (fun p => p <| data := [] |>);
  update free_pipe_list (fun l s => s <| free_pipe_list := l |>) (dl_add_head i).

(** [vnode_get_new(&pipe_sb)]; [pipe_sb] is never aborted. *)
Definition vnode_get_new : M pfs (option nat) :=
  l ← gets vnode_free_list;
  match l with
  | [] => mret None
  | v :: _ =>
    _ ← update vnode_free_list (fun l s => s <| vnode_free_list := l |>) dl_rem_head;
    _ ← modify (fun s => s <| pipe_sb_reference_cnt ::= fun n => n + 1 |>);
    s ← gets id;
    _ ← kassert (negb (v_valid s v) || (v_reference_cnt (files s) v =? 0));
    _ ← modify (fun s => s <| files ::= fun f => f <| v_reference_cnt ::= fun t => <[v := 1]> t |> <| v_mode ::= fun t => <[v := 0]> t |> |>
                           <| v_valid ::= fun t => <[v := false]> t |> <| v_pipe ::= fun t => <[v := None]> t |>
                           <| v_owner ::= fun t => <[v := (9999, 9999)]> t |>);
    mret (Some v)
  end.

Section pipes.
Context `{FsConsts}.
(** The bits [S_IFIFO | S_IRUSR | S_IWUSR] and [O_RDONLY] of the headers. *)
Variables FIFO_MODE O_RDONLY : Z.

(** The common end of the two functions: [do_vnode_discard] returns at once. *)
Definition put_fifo_check (v i : nat) : M pfs unit :=
  s ← gets id;
  if (reader_cnt (pipe_table s i) =? 0) && (writer_cnt (pipe_table s i) =? 0)
  then kassert (v_reference_cnt (files s) v =? 0) else mret tt.
Definition fifo_pipe (v : nat) : M pfs nat :=
  s ← gets id;
  _ ← kassert (S_ISFIFO (v_mode (files s) v));
  match v_pipe s v with Some i => mret i | None => fault end.
Definition vnode_put_fifo_reader (v : nat) : M pfs unit :=
  i ← fifo_pipe v; _ ← upd_ptable i put_reader; put_fifo_check v i.
Definition vnode_put_fifo_writer (v : nat) : M pfs unit :=
  i ← fifo_pipe v; _ ← upd_ptable i put_writer; put_fifo_check v i.
Definition do_close_pipe (v : nat) (is_writer : bool) : M pfs ret :=
  _ ← (if is_writer then vnode_put_fifo_writer v else vnode_put_fifo_reader v);
  mret (RVal 0).

(** [filedesc->filp = filp] and [filedesc->flags |= FDF_VALID]. *)
Definition set_filedesc_filp (p : nat) (fd : Z) (x : nat) : M fs unit :=
  d ← get_fd p fd; set_fd p fd (d <| fd_filp := Some x |>).
Definition set_filedesc_valid (p : nat) (fd : Z) : M fs unit :=
  d ← get_fd p fd; set_fd p fd (d <| fd_flags ::= fun n => Z.lor n FDF_VALID |>).
Definition set_end (x v : nat) (flags : Z) : M fs unit :=
  modify (upd_filp x (fun f => f <| f_type := FILP_TYPE_VNODE |> <| f_u := Some v |> <| f_offset := 0 |> <| f_flags := flags |>)).

(** The code of [sys_pipe] once both descriptors and filps are there, up to
    the copy of the descriptors to the caller. *)
Definition pipe_attach (p : nat) (cred : Z * Z) (i x0 x1 : nat) (fd0 fd1 : Z) : M pfs (option nat) :=
  o ← vnode_get_new;
  match o with
  | None => mret None
  | Some v =>
    _ ← modify (fun s => s <| v_pipe ::= fun t => <[v := Some i]> t |> <| v_owner ::= fun t => <[v := cred]> t |>
                           <| files ::= fun f => f <| v_mode ::= fun t => <[v := Z.lor (t v) FIFO_MODE]> t |> |>);
    _ ← on_files (set_end x0 v O_RDONLY);
    _ ← on_files (set_end x1 v O_WRONLY);
    _ ← upd_ptable i (fun p => p <| reader_cnt := 1 |> <| writer_cnt := 1 |>);
    _ ← on_files (set_filedesc_filp p fd0 x0);
    _ ← on_files (set_filedesc_filp p fd1 x1);
    _ ← on_files (modify (fun f => f <| v_reference_cnt ::= fun t => <[v := t v + 1]> t |>));
    mret (Some v)
  end.
(** [rc]: what that copy returns. *)
Definition pipe_connect (p : nat) (cred : Z * Z) (rc : ret) (i x0 x1 : nat) (fd0 fd1 : Z) : M pfs ret :=
  o ← pipe_attach p cred i x0 x1 fd0 fd1;
  match o with
  | None => mret (RErr ENOMEM)
  | Some v =>
    if bool_decide (rc = RVal 0) then
      _ ← on_files (set_filedesc_valid p fd0); _ ← on_files (set_filedesc_valid p fd1); mret (RVal 0)
    else
      _ ← vnode_put_fifo_writer v; _ ← vnode_put_fifo_reader v; mret rc
  end.

(** The clean-up on the way out of each nesting level. *)
Definition unless_done {A} (r : ret) (m : M pfs A) : M pfs ret :=
  if bool_decide (r = RVal 0) then mret r else _ ← m; mret r.

(** The result and the descriptors. *)
Definition sys_pipe (p : nat) (cred : Z * Z) (page : option (list Z)) (rc : ret) : M pfs (ret * (Z * Z)) :=
  o ← alloc_pipe page;
  match o with
  | None => mret (RErr ENOMEM, (-1, -1))
  | Some i =>
    f0 ← on_files (fd_alloc p 0 (Z.of_nat FILEDESC_MAX));
    r ← (match f0 with
         | None => mret (RErr ENOMEM, (-1, -1))
         | Some fd0 =>
           y0 ← on_files filp_get_new;
           r ← (match y0 with
                | None => mret (RErr ENOMEM, -1)
                | Some x0 =>
                  f1 ← on_files (fd_alloc p 0 (Z.of_nat FILEDESC_MAX));
                  r ← (match f1 with
                       | None => mret (RErr ENOMEM, -1)
                       | Some fd1 =>
                         y1 ← on_files filp_get_new;
                         r ← (match y1 with
                              | None => mret (RErr ENOMEM)
                              | Some x1 => r ← pipe_connect p cred rc i x0 x1 fd0 fd1; unless_done r (on_files (filp_release x1))
                              end);
                         r ← unless_done r (on_files (fd_free p fd1)); mret (r, fd1)
                       end);
                  r' ← unless_done r.1 (on_files (filp_release x0)); mret (r', r.2)
                end);
           r' ← unless_done r.1 (on_files (fd_free p fd0)); mret (r', (fd0, r.2))
         end);
    r' ← unless_done r.1 (free_pipe i); mret (r', r.2)
  end.
End pipes.
