(* ===== verification/PipeThms.v ===== *)
(** * PipeThms: reading, writing and closing pipes

    The ring's invariant and the results of a transfer on every branch; that
    no thread sleeps on a pipe it could use; which bytes a read returns; and
    what closing a pipe does. *)

From S2P Require Import Prelude FileDesc Pipe.
Local Open Scope Z_scope.
Local Open Scope kernel_scope.

Record pipe_inv (p : Pipe) : Prop := {
  pi_page : Z.of_nat (length (data p)) = PIPE_BUF_SZ;
  pi_r : 0 <= r_pos p < PIPE_BUF_SZ;
  pi_w : 0 <= w_pos p < PIPE_BUF_SZ;
  pi_data : 0 <= data_sz p;
  pi_free : 0 <= free_sz p;
  pi_sum : data_sz p + free_sz p = PIPE_BUF_SZ;
  pi_pos : w_pos p = (r_pos p + data_sz p) mod PIPE_BUF_SZ }.

(** ** Copies *)
Section copies.
Context (copy_ok : Z -> Z -> bool).
Implicit Types (s : xfer) (p : Pipe).

Lemma in_page_true p pos n : 0 <= pos -> 0 <= n -> pos + n <= Z.of_nat (length (data p)) -> in_page p pos n = true.
Proof. intros. rw /in_page !andb_true_iff !Z.leb_le. lia. Qed.

Lemma copyout_run s dst pos n :
  0 <= pos -> 0 <= n -> pos + n <= Z.of_nat (length (data (pipe s))) ->
  copyout copy_ok dst pos n s =
    Ok (copy_ok dst n, if copy_ok dst n then s <| umem ::= fun m => mem_write m dst (slice (data (pipe s)) pos n) |> else s).
Proof. intros H1 H2 H3. rw /copyout. mrun. rw in_page_true //=. by destruct (copy_ok dst n). Qed.

Lemma copyin_run s src pos n :
  0 <= pos -> 0 <= n -> pos + n <= Z.of_nat (length (data (pipe s))) ->
  copyin copy_ok pos src n s =
    Ok (copy_ok src n, if copy_ok src n then s <| pipe ::= fun p => p <| data ::= fun l => splice l pos (mem_read (umem s) src n) |> |> else s).
Proof. intros H1 H2 H3. rw /copyin. mrun. rw in_page_true //=. by destruct (copy_ok src n). Qed.

Lemma length_mem_read m a n : length (mem_read m a n) = Z.to_nat n.
Proof. by rw length_map length_seq. Qed.
Lemma length_splice l pos b : 0 <= pos -> pos + Z.of_nat (length b) <= Z.of_nat (length l) -> length (splice l pos b) = length l.
Proof. intros H1 H2. rw /splice !length_app length_take length_drop. lia. Qed.

(** The copies of a read of [n] bytes that are there. *)
Definition wraps p n : bool := PIPE_BUF_SZ <? r_pos p + n.
Definition read_ok p dst n : bool :=
  if wraps p n then copy_ok dst (PIPE_BUF_SZ - r_pos p) && copy_ok dst (n - (PIPE_BUF_SZ - r_pos p))
  else (n =? 0) || copy_ok dst n.

Lemma read_copy_run s dst n :
  pipe_inv (pipe s) -> 0 <= n <= data_sz (pipe s) ->
  exists m, read_copy copy_ok dst n s = Ok (read_ok (pipe s) dst n, s <| umem := m |>) /\
    (wraps (pipe s) n = false -> read_ok (pipe s) dst n = true -> m = if n =? 0 then umem s else mem_write (umem s) dst (slice (data (pipe s)) 0 n)).
Proof.
  intros [Hp Hr Hw Hd Hf Hs Hpos] Hn. rw /PIPE_BUF_SZ in Hp Hr Hs. rw /read_copy {1}/mbind {1}/M_bind {1}/gets /read_ok /wraps /PIPE_BUF_SZ.
  destruct (Z.ltb_spec 4096 (r_pos (pipe s) + n)) as [Hwr|Hwr].
  - rw {1}/mbind {1}/M_bind {1}/mbind {1}/M_bind copyout_run; [lia|lia|lia|]. destruct (copy_ok dst (4096 - r_pos (pipe s))); last first.
    { exists (umem s). split; [by destruct s|done]. }
    mrun. destruct (Z.eqb_spec (n - (4096 - r_pos (pipe s))) 0) as [E|E]; [lia|].
    rw copyout_run /=; [lia|lia|lia|]. destruct (copy_ok dst _); eexists; split; try done.
  - mrun. destruct (Z.eqb_spec n 0) as [->|E]; [exists (umem s); split; [by destruct s|done]|].
    rw copyout_run; [lia|lia|lia|]. simpl. destruct (copy_ok dst n); [by eexists|]. exists (umem s). split; [by destruct s|done].
Qed.

Definition write_wraps p n : bool := PIPE_BUF_SZ <? w_pos p + n.
Definition write_ok p src n : bool :=
  if write_wraps p n then copy_ok src (PIPE_BUF_SZ - w_pos p) && copy_ok (src + (PIPE_BUF_SZ - w_pos p)) (n - (PIPE_BUF_SZ - w_pos p))
  else (n =? 0) || copy_ok src n.

Lemma write_copy_run s src n :
  pipe_inv (pipe s) -> 0 <= n <= free_sz (pipe s) ->
  exists d, write_copy copy_ok src n s = Ok (write_ok (pipe s) src n, s <| pipe ::= fun p => p <| data := d |> |>) /\
    length d = length (data (pipe s)) /\
    (write_wraps (pipe s) n = false -> write_ok (pipe s) src n = true -> d = if n =? 0 then data (pipe s) else splice (data (pipe s)) 0 (mem_read (umem s) src n)).
Proof.
  intros [Hp Hr Hw Hd Hf Hs Hpos] Hn. rw /PIPE_BUF_SZ in Hp Hw Hs. rw /write_copy {1}/mbind {1}/M_bind {1}/gets /write_ok /write_wraps /PIPE_BUF_SZ.
  assert (s = s <| pipe ::= fun p => p <| data := data (pipe s) |> |>) as Es by (by destruct s as [[] ?]).
  destruct (Z.ltb_spec 4096 (w_pos (pipe s) + n)) as [Hwr|Hwr].
  - rw {1}/mbind {1}/M_bind {1}/mbind {1}/M_bind copyin_run; [lia|lia|lia|]. destruct (copy_ok src _); last first.
    { exists (data (pipe s)). mrun. split; [by rw {1}Es|done]. }
    mrun. destruct (Z.eqb_spec (n - (4096 - w_pos (pipe s))) 0) as [E|E]; [lia|].
    assert (forall b pos, Z.of_nat (length b) = 4096 - w_pos (pipe s) -> pos = w_pos (pipe s) -> Z.of_nat (length (splice (data (pipe s)) pos b)) = 4096) as Hl.
    { intros b pos Hb ->. rw length_splice; lia. }
    rw copyin_run /=; [lia|lia|rw Hl //; [rw length_mem_read; lia|lia]|].
    destruct (copy_ok _ _); eexists; (split; [done|]); (split; [|done]).
    + rw length_splice; [lia| |apply Nat2Z.inj; rw Hl //; rw length_mem_read; lia]. rw Hl //; rw !length_mem_read; lia.
    + apply Nat2Z.inj. rw Hl //. rw length_mem_read. lia.
  - mrun. destruct (Z.eqb_spec n 0) as [->|E]; [exists (data (pipe s)); split; [by rw {1}Es|done]|].
    rw copyin_run; [lia|lia|lia|]. simpl. destruct (copy_ok src n).
    + eexists. split; [done|]. split; [|done]. apply length_splice; [lia|]. rw length_mem_read. lia.
    + exists (data (pipe s)). split; [by rw {1}Es|done].
Qed.
End copies.

(** ** Transfers *)
Section transfers.
Context (copy_ok : Z -> Z -> bool) (PIPE_BUF : Z).
Implicit Types (s : xfer) (p : Pipe) (c fuel : nat) (dst src sz n : Z).

Definition after_read p n : Pipe :=
  p <| r_pos := (r_pos p + n) mod PIPE_BUF_SZ |> <| data_sz := data_sz p - n |> <| free_sz := free_sz p + n |> <| sleepers := [] |>.
Definition after_write p n (d : list Z) : Pipe :=
  p <| data := d |> <| w_pos := (w_pos p + n) mod PIPE_BUF_SZ |> <| data_sz := data_sz p + n |> <| free_sz := free_sz p - n |> <| sleepers := [] |>.

Lemma after_read_inv p n : pipe_inv p -> 0 <= n <= data_sz p -> pipe_inv (after_read p n).
Proof.
  intros [Hp Hr Hw Hd Hf Hs Hpos] Hn. split; rw /after_read /=; try done; try lia.
  - by apply Z.mod_pos_bound.
  - rw Hpos Z.add_mod_idemp_l; [done|]. f_equal. lia.
Qed.
Lemma after_write_inv p n d : pipe_inv p -> 0 <= n <= free_sz p -> length d = length (data p) -> pipe_inv (after_write p n d).
Proof.
  intros [Hp Hr Hw Hd Hf Hs Hpos] Hn Hl. split; rw /after_write /=; try done; try lia.
  - by apply Z.mod_pos_bound.
  - rw Hpos Z.add_mod_idemp_l; [done|]. f_equal. lia.
Qed.

Lemma min_size sz a : 0 <= sz < 2 ^ 32 -> 0 <= a <= PIPE_BUF_SZ -> (if wrap32 (sz - 0) <? wrap32 a then wrap32 (sz - 0) else a) = Z.min sz a.
Proof.
  intros Hsz Ha. rw /PIPE_BUF_SZ in Ha. rw Z.sub_0_r (wrap32_id sz) // (wrap32_id a); [rw /u32; lia|]. zcases; lia.
Qed.

(** One turn of the loop of [read_from_pipe] when there are data. *)
Lemma read_turn s fuel c dst sz :
  pipe_inv (pipe s) -> 0 <= sz < 2 ^ 32 -> data_sz (pipe s) <> 0 \/ writer_cnt (pipe s) < 0 ->
  let n := Z.min sz (data_sz (pipe s)) in
  exists m, read_loop copy_ok (S fuel) c dst sz 0 s =
    (if read_ok copy_ok (pipe s) dst n then read_loop copy_ok fuel c (dst + n) sz n (mkXfer (after_read (pipe s) n) m)
     else Ok (Returns (RErr EIO), mkXfer (pipe s) m)) /\
    (wraps (pipe s) n = false -> read_ok copy_ok (pipe s) dst n = true -> 0 < n -> m = mem_write (umem s) dst (slice (data (pipe s)) 0 n)).
Proof.
  intros Hi Hsz Hd n. destruct (Hi) as [_ Hr _ Hd0 Hf0 Hsum _].
  destruct (read_copy_run copy_ok s dst n Hi) as (m & Hm & Hmem); [lia|]. exists m.
  cbn [read_loop]. rw {1}/mbind {1}/M_bind {1}/gets /=.
  assert ((data_sz (pipe s) =? 0) && (0 <? writer_cnt (pipe s)) = false) as -> by (apply andb_false_iff; lia).
  assert ((writer_cnt (pipe s) =? 0) && (data_sz (pipe s) =? 0) = false) as -> by (apply andb_false_iff; lia).
  rw andb_false_r /=.
  rw min_size; [done|lia|]. rw -/n. rw {1}/mbind {1}/M_bind Hm. split.
  - destruct (read_ok copy_ok (pipe s) dst n); [|by destruct s].
    mrun. rw /upd_pipe /wakeup_all /upd_pipe /modify. do 2 f_equal. rw /after_read -Z.rem_mod_nonneg; [lia|done|]. done.
  - intros H1 H2 H3. rw (Hmem H1 H2). destruct (Z.eqb_spec n 0); [lia|done].
Qed.

Lemma write_turn s fuel c src sz :
  pipe_inv (pipe s) -> 0 <= sz < 2 ^ 32 -> (free_sz (pipe s) <? PIPE_BUF) && (0 <? reader_cnt (pipe s)) = false -> reader_cnt (pipe s) <> 0 ->
  let n := Z.min sz (free_sz (pipe s)) in
  exists d, write_loop copy_ok PIPE_BUF (S fuel) c src sz 0 s =
    (if write_ok copy_ok (pipe s) src n then write_loop copy_ok PIPE_BUF fuel c (src + n) sz n (mkXfer (after_write (pipe s) n d) (umem s))
     else Ok (Returns (RErr EIO), mkXfer ((pipe s) <| data := d |>) (umem s))) /\
    length d = length (data (pipe s)) /\
    (write_wraps (pipe s) n = false -> write_ok copy_ok (pipe s) src n = true -> 0 < n -> d = splice (data (pipe s)) 0 (mem_read (umem s) src n)).
Proof.
  intros Hi Hsz Hroom Hrd n. destruct (Hi) as [_ _ Hw Hd0 Hf0 Hsum _].
  destruct (write_copy_run copy_ok s src n Hi) as (d & Hm & Hlen & Hmem); [lia|]. exists d.
  cbn [write_loop]. rw /= {1}/mbind {1}/M_bind {1}/gets Hroom.
  destruct (Z.eqb_spec (reader_cnt (pipe s)) 0); [done|].
  rw min_size; [done|lia|]. rw -/n. rw {1}/mbind {1}/M_bind Hm. split_and!; [|done|].
  - destruct (write_ok copy_ok (pipe s) src n); [|by destruct s].
    mrun. rw /upd_pipe /wakeup_all /upd_pipe /modify. do 2 f_equal. rw /after_write -Z.rem_mod_nonneg; [lia|done|]. done.
  - intros H1 H2 H3. rw (Hmem H1 H2). destruct (Z.eqb_spec n 0); [lia|done].
Qed.

(** C33: a read or write of at least one byte ends within two turns of its loop.
    A read of an empty pipe sleeps while there are writers and returns 0 when
    there are none; otherwise it takes as many bytes as there are, up to the
    size asked for, and returns their number, or -EIO with the pipe unchanged
    when the copy fails. A write sleeps while less than [PIPE_BUF] is free and
    there are readers, returns 0 when there are none, and otherwise adds as
    many bytes as fit. Every transfer keeps the ring's invariant and stays in its page. *)
Theorem pipe_transfers_correct s fuel c buf sz :
  pipe_inv (pipe s) -> 0 < sz < 2 ^ 32 -> (2 <= fuel)%nat -> 0 < PIPE_BUF -> 0 <= writer_cnt (pipe s) -> 0 <= reader_cnt (pipe s) ->
  (exists r s', read_from_pipe copy_ok fuel c buf sz s = Ok (r, s') /\ pipe_inv (pipe s') /\
     let p := pipe s in let n := Z.min sz (data_sz p) in
     if decide (data_sz p = 0) then
       if decide (writer_cnt p = 0) then r = Returns (RVal 0) /\ s' = s
       else r = Asleep /\ s' = s <| pipe := p <| sleepers ::= fun l => l ++ [(c, Data)] |> |>
     else if read_ok copy_ok p buf n then r = Returns (RVal n) /\ pipe s' = after_read p n
     else r = Returns (RErr EIO) /\ pipe s' = p) /\
  (exists r s', write_to_pipe copy_ok PIPE_BUF fuel c buf sz s = Ok (r, s') /\ pipe_inv (pipe s') /\ umem s' = umem s /\
     let p := pipe s in let n := Z.min sz (free_sz p) in
     if decide (reader_cnt p = 0) then r = Returns (RVal 0) /\ s' = s
     else if decide (free_sz p < PIPE_BUF) then r = Asleep /\ s' = s <| pipe := p <| sleepers ::= fun l => l ++ [(c, Room)] |> |>
     else exists d, if write_ok copy_ok p buf n then r = Returns (RVal n) /\ pipe s' = after_write p n d
     else r = Returns (RErr EIO) /\ pipe s' = p <| data := d |>).
Proof.
  intros Hi Hsz Hf Hpb Hw Hr. destruct fuel as [|[|fuel]]; [lia..|]. destruct (Hi) as [Hpg Hrp Hwp Hd0 Hf0 Hsum Hpos]. split; cbv zeta.
  - destruct (decide (data_sz (pipe s) = 0)) as [E|E].
    + destruct (decide (writer_cnt (pipe s) = 0)) as [Ew|Ew].
      * exists (Returns (RVal 0)), s. split_and!; try done. rw /read_from_pipe /= /mbind /M_bind /gets E Ew //.
      * eexists _, _. split; [rw /read_from_pipe /= {1}/mbind {1}/M_bind {1}/gets E /=; destruct (Z.ltb_spec 0 (writer_cnt (pipe s))); [done|lia]|].
        split; [by split|done].
    + destruct (read_turn s (S fuel) c buf sz Hi) as (m & Ht & _); [lia|by left|].
      rw /read_from_pipe Ht. destruct (read_ok copy_ok (pipe s) buf _).
      * eexists _, _. split; [cbn [read_loop]; destruct (Z.eqb_spec (Z.min sz (data_sz (pipe s))) 0); [lia|done]|].
        split; [by apply after_read_inv; [|lia]|done].
      * by eexists _, _.
  - destruct (decide (reader_cnt (pipe s) = 0)) as [E|E].
    + exists (Returns (RVal 0)), s. split_and!; try done. rw /write_to_pipe /= /mbind /M_bind /gets E /= andb_false_r //.
    + destruct (decide (free_sz (pipe s) < PIPE_BUF)) as [Ew|Ew].
      * eexists _, _. split; [rw /write_to_pipe /= {1}/mbind {1}/M_bind {1}/gets; destruct (Z.ltb_spec (free_sz (pipe s)) PIPE_BUF); [|lia];
          destruct (Z.ltb_spec 0 (reader_cnt (pipe s))); [done|lia]|]. split; [by split|done].
      * destruct (write_turn s (S fuel) c buf sz Hi) as (d & Ht & Hl & _); [lia| |done|].
        { destruct (Z.ltb_spec (free_sz (pipe s)) PIPE_BUF); [lia|done]. }
        rw /write_to_pipe Ht. destruct (write_ok copy_ok (pipe s) buf _).
        -- eexists _, _. split; [cbn [write_loop]; destruct (Z.eqb_spec (Z.min sz (free_sz (pipe s))) 0); [lia|done]|].
           split; [by apply after_write_inv; [|lia|]|]. split; [done|]. by exists d.
        -- eexists _, _. split; [done|]. split; [|split; [done|by exists d]].
           split; cbn; rw ?Hl; done.
Qed.

(** *** Sleeping *)

(** Every thread asleep on the pipe waits for something that is not there and
    that somebody can still provide. *)
Definition waiting_ok p : Prop := forall c w, (c, w) ∈ sleepers p ->
  match w with
  | Data => data_sz p = 0 /\ 0 < writer_cnt p
  | Room => free_sz p < PIPE_BUF /\ 0 < reader_cnt p
  end.
Definition ring_ok p : Prop := pipe_inv p /\ waiting_ok p.

Lemma no_sleepers p : sleepers p = [] -> waiting_ok p.
Proof. intros E c w. rw E. set_solver. Qed.

Lemma read_loop_ring fuel : forall c dst sz k s, 0 <= sz < 2 ^ 32 -> ring_ok (pipe s) ->
  exists r s', read_loop copy_ok fuel c dst sz k s = Ok (r, s') /\ ring_ok (pipe s').
Proof.
  induction fuel as [|fuel IH]; intros c dst sz k s Hsz [Hi Hw]; [by eexists _, _|].
  destruct (decide (k = 0)) as [->|Hk]; last first.
  { simpl. destruct (Z.eqb_spec k 0); [done|]. by eexists _, _. }
  destruct (decide (data_sz (pipe s) = 0 /\ 0 <= writer_cnt (pipe s))) as [[Hd Hwr]|Hn].
  - cbn [read_loop]. rw /= {1}/mbind {1}/M_bind {1}/gets Hd /=. destruct (Z.ltb_spec 0 (writer_cnt (pipe s))) as [Hlt|Hge].
    + eexists _, _. split; [done|]. simpl. split; [by destruct Hi; split|]. intros c' w. simpl.
      intros [Hin|Hin]%elem_of_app; [by apply (Hw c' w)|]. apply list_elem_of_singleton in Hin as [= -> ->]. done.
    + assert (writer_cnt (pipe s) = 0) as -> by lia. by eexists _, _.
  - destruct (read_turn s fuel c dst sz Hi Hsz) as (m & -> & _); [lia|]. destruct (read_ok _ _ _ _); [|by eexists _, _].
    apply IH; [done|]. split; [|by apply no_sleepers]. destruct (Hi). apply after_read_inv; [done|lia].
Qed.

Lemma write_loop_ring fuel : forall c src sz k s, 0 <= sz < 2 ^ 32 -> ring_ok (pipe s) ->
  exists r s', write_loop copy_ok PIPE_BUF fuel c src sz k s = Ok (r, s') /\ ring_ok (pipe s').
Proof.
  induction fuel as [|fuel IH]; intros c src sz k s Hsz [Hi Hw]; [by eexists _, _|].
  destruct (decide (k = 0)) as [->|Hk]; last first.
  { simpl. destruct (Z.eqb_spec k 0); [done|]. by eexists _, _. }
  destruct ((free_sz (pipe s) <? PIPE_BUF) && (0 <? reader_cnt (pipe s))) eqn:E.
  - cbn [write_loop]. rw /= {1}/mbind {1}/M_bind {1}/gets E. apply andb_true_iff in E as [E1%Z.ltb_lt E2%Z.ltb_lt].
    eexists _, _. split; [done|]. simpl. split; [by destruct Hi; split|]. intros c' w. simpl.
    intros [Hin|Hin]%elem_of_app; [by apply (Hw c' w)|]. apply list_elem_of_singleton in Hin as [= -> ->]. done.
  - destruct (decide (reader_cnt (pipe s) = 0)) as [Er|Er].
    + cbn [write_loop]. rw /= {1}/mbind {1}/M_bind {1}/gets E Er. by eexists _, _.
    + destruct (write_turn s fuel c src sz Hi Hsz E Er) as (d & -> & Hl & _). destruct (Hi). destruct (write_ok _ _ _ _).
      * apply IH; [done|]. split; [|by apply no_sleepers]. apply after_write_inv; [done|lia|done].
      * eexists _, _. split; [done|]. split; [split; cbn; rw ?Hl; done|]. exact Hw.
Qed.

(** What happens to a pipe: transfers by any thread, and ends that are closed. *)
Inductive pstep : Pipe -> Pipe -> Prop :=
| step_read p m fuel c dst sz r s' :
    0 <= sz < 2 ^ 32 -> read_from_pipe copy_ok fuel c dst sz (mkXfer p m) = Ok (r, s') -> pstep p (pipe s')
| step_write p m fuel c src sz r s' :
    0 <= sz < 2 ^ 32 -> write_to_pipe copy_ok PIPE_BUF fuel c src sz (mkXfer p m) = Ok (r, s') -> pstep p (pipe s')
| step_put_reader p : pstep p (put_reader p)
| step_put_writer p : pstep p (put_writer p).

Lemma pstep_ring p p' : pstep p p' -> ring_ok p -> ring_ok p'.
Proof.
  intros Hs Hr. destruct Hs as [p m fuel c dst sz r s' Hsz E|p m fuel c src sz r s' Hsz E|p|p].
  - destruct (read_loop_ring fuel c dst sz 0 (mkXfer p m) Hsz Hr) as (? & ? & E' & ?). rw /read_from_pipe E' in E. by injection E as -> ->.
  - destruct (write_loop_ring fuel c src sz 0 (mkXfer p m) Hsz Hr) as (? & ? & E' & ?). rw /write_to_pipe E' in E. by injection E as -> ->.
  - destruct Hr as [Hi Hw]. rw /put_reader /=. destruct (Z.eqb_spec (reader_cnt p - 1) 0) as [E|E].
    + split; [by destruct Hi; split|by apply no_sleepers].
    + split; [by destruct Hi; split|]. intros c w Hin. destruct w; pose proof (Hw _ _ Hin) as H; simpl in *; lia.
  - destruct Hr as [Hi Hw]. rw /put_writer /=. destruct (Z.eqb_spec (writer_cnt p - 1) 0) as [E|E].
    + split; [by destruct Hi; split|by apply no_sleepers].
    + split; [by destruct Hi; split|]. intros c w Hin. destruct w; pose proof (Hw _ _ Hin) as H; simpl in *; lia.
Qed.

(** C32: no wakeup is lost: whatever transfers are made and ends are closed, a
    thread sleeps on the pipe only while the pipe is empty and has a writer, or
    lacks room and has a reader; and no transfer leaves the page. *)
Theorem pipe_no_lost_wakeup p p' :
  pipe_inv p -> sleepers p = [] -> rtc pstep p p' ->
  pipe_inv p' /\ waiting_ok p' /\
  forall m fuel c buf sz, 0 <= sz < 2 ^ 32 ->
    (exists r s', read_from_pipe copy_ok fuel c buf sz (mkXfer p' m) = Ok (r, s')) /\
    (exists r s', write_to_pipe copy_ok PIPE_BUF fuel c buf sz (mkXfer p' m) = Ok (r, s')).
Proof.
  intros Hi Hs Hsteps. assert (ring_ok p') as Hr.
  { assert (ring_ok p) as Hr by (split; [done|by apply no_sleepers]). clear Hi Hs.
    induction Hsteps as [|p q p' Hpq _ IH]; [done|]. apply IH, (pstep_ring _ _ Hpq Hr). }
  destruct (Hr) as [Hi' Hw']. split_and!; [done|done|]. intros m fuel c buf sz Hsz. split.
  - destruct (read_loop_ring fuel c buf sz 0 (mkXfer p' m) Hsz Hr) as (r & s' & E & _). by exists r, s'.
  - destruct (write_loop_ring fuel c buf sz 0 (mkXfer p' m) Hsz Hr) as (r & s' & E & _). by exists r, s'.
Qed.

(** A read of no bytes from a pipe with data, and a write of no bytes to a
    pipe with room and a reader, never return: the loop runs on for any number
    of turns. *)
Theorem pipe_zero_length_spins fuel : forall c buf s,
  pipe_inv (pipe s) ->
  (data_sz (pipe s) <> 0 -> exists s', read_from_pipe copy_ok fuel c buf 0 s = Ok (Spinning, s')) /\
  (PIPE_BUF <= free_sz (pipe s) -> reader_cnt (pipe s) <> 0 -> exists s', write_to_pipe copy_ok PIPE_BUF fuel c buf 0 s = Ok (Spinning, s')).
Proof.
  induction fuel as [|fuel IH]; intros c buf s Hi; [by split; intros; eexists|]. destruct (Hi) as [Hpg Hr Hw Hd Hf Hsum Hpos]. split.
  - intros Hne. destruct (read_turn s fuel c buf 0 Hi) as (m & Ht & _); [lia|by left|]. rw /read_from_pipe Ht Z.min_l //.
    rw /read_ok /wraps Z.add_0_r. destruct (Z.ltb_spec PIPE_BUF_SZ (r_pos (pipe s))); [lia|]. rw /= Z.add_0_r.
    destruct (IH c buf (mkXfer (after_read (pipe s) 0) m)) as [Hr' _]; [apply after_read_inv; [done|lia]|]. apply Hr'. simpl. lia.
  - intros Hroom Hrd. destruct (write_turn s fuel c buf 0 Hi) as (d & Ht & Hl & _); [lia| |done|].
    { destruct (Z.ltb_spec (free_sz (pipe s)) PIPE_BUF); [lia|done]. }
    rw /write_to_pipe Ht Z.min_l //. rw /write_ok /write_wraps Z.add_0_r. destruct (Z.ltb_spec PIPE_BUF_SZ (w_pos (pipe s))); [lia|]. rw /= Z.add_0_r.
    destruct (IH c buf (mkXfer (after_write (pipe s) 0 d) (umem s))) as [_ Hw']; [apply after_write_inv; [done|lia|done]|]. apply Hw'; simpl; [lia|done].
Qed.

(** *** The bytes *)
Lemma slice_splice l b n : Z.to_nat n = length b -> slice (splice l 0 b) 0 n = b.
Proof. intros Hn. rw /slice /splice /= Hn. by rw take_app_length. Qed.

Lemma mem_read_write m a b n : Z.to_nat n = length b -> mem_read (mem_write m a b) a n = b.
Proof.
  intros Hn. apply list_eq. intros i. rw /mem_read list_lookup_fmap Hn. destruct (decide (i < length b)%nat) as [Hi|Hi].
  - rw lookup_seq_lt //= /mem_write. destruct (Z.leb_spec a (a + Z.of_nat i)); [|lia].
    replace (Z.to_nat (a + Z.of_nat i - a)) with i by lia. destruct (lookup_lt_is_Some_2 b i Hi) as [x Hx]. by rw Hx.
  - rw lookup_seq_ge; [lia|]. simpl. symmetry. apply lookup_ge_None_2. lia.
Qed.

Lemma length_slice l n : 0 <= n <= Z.of_nat (length l) -> Z.to_nat n = length (slice l 0 n).
Proof. intros Hn. rw /slice length_take drop_0. lia. Qed.

(** A read that stays in the page puts the first bytes of the page at [dst]. *)
Lemma read_bytes s fuel c dst sz :
  pipe_inv (pipe s) -> 0 < sz < 2 ^ 32 -> 0 < data_sz (pipe s) -> let n := Z.min sz (data_sz (pipe s)) in
  r_pos (pipe s) + n <= PIPE_BUF_SZ -> copy_ok dst n = true ->
  exists m, read_from_pipe copy_ok (S (S fuel)) c dst sz s = Ok (Returns (RVal n), mkXfer (after_read (pipe s) n) m) /\
    mem_read m dst n = slice (data (pipe s)) 0 n.
Proof.
  intros Hi Hsz Hd n Hr Hok. assert (wraps (pipe s) n = false) as Hw by (rw /wraps; by apply Z.ltb_ge).
  assert (read_ok copy_ok (pipe s) dst n = true) as Hro by (by rw /read_ok Hw Hok orb_true_r).
  destruct (read_turn s (S fuel) c dst sz Hi) as (m & Ht & Hm); [lia|left; lia|]. rw -/n Hro in Ht.
  exists m. rw /read_from_pipe Ht. split.
  - cbn [read_loop]. destruct (Z.eqb_spec n 0); [lia|done].
  - rw Hm //; [lia|]. apply mem_read_write, length_slice. destruct (Hi). lia.
Qed.

(** C34: what is written to an empty pipe is what the next read returns, when
    it asks for at least as much and the bytes do not go past the end of the
    page. *)
Theorem pipe_roundtrip s fuel c src dst n sz m2 :
  pipe_inv (pipe s) -> data_sz (pipe s) = 0 -> PIPE_BUF <= PIPE_BUF_SZ -> 0 < reader_cnt (pipe s) ->
  0 < n <= sz -> sz < 2 ^ 32 -> w_pos (pipe s) + n <= PIPE_BUF_SZ -> copy_ok src n = true -> copy_ok dst n = true ->
  exists s1 s2, write_to_pipe copy_ok PIPE_BUF (S (S fuel)) c src n s = Ok (Returns (RVal n), s1) /\
    read_from_pipe copy_ok (S (S fuel)) c dst sz (mkXfer (pipe s1) m2) = Ok (Returns (RVal n), s2) /\
    mem_read (umem s2) dst n = mem_read (umem s) src n /\ data_sz (pipe s2) = 0.
Proof.
  intros Hi He Hpb Hrd Hn Hsz Hw Hsrc Hdst. destruct (Hi) as [Hpg Hr Hwp Hd Hf Hsum Hpos].
  assert (Z.min n (free_sz (pipe s)) = n) as Hmin by (rw /PIPE_BUF_SZ in Hsum Hw Hwp; lia).
  destruct (write_turn s (S fuel) c src n Hi) as (d & Ht & Hl & Hmem); [lia| |lia|].
  { destruct (Z.ltb_spec (free_sz (pipe s)) PIPE_BUF); [lia|done]. }
  assert (write_wraps (pipe s) n = false) as Hww by (rw /write_wraps; by apply Z.ltb_ge).
  assert (write_ok copy_ok (pipe s) src n = true) as Hwo by (by rw /write_ok Hww Hsrc orb_true_r).
  rw Hmin Hwo in Ht. rw Hmin in Hmem. specialize (Hmem Hww Hwo (proj1 Hn)). subst d.
  set s1 := mkXfer (after_write (pipe s) n _) (umem s) in Ht.
  assert (pipe_inv (pipe s1)) as Hi1 by (apply after_write_inv; [done|lia|done]).
  assert (Z.min sz (data_sz (pipe s1)) = n) as Hmin1 by (simpl; lia).
  destruct (read_bytes (mkXfer (pipe s1) m2) fuel c dst sz Hi1) as (m & Hread & Hb); [lia|simpl; lia|..].
  { rw /= in Hmin1 |- *. rw Hmin1. rw He Z.add_0_r Z.mod_small // in Hpos. lia. }
  { by rw /= in Hmin1 |- *; rw Hmin1. }
  exists s1, (mkXfer (after_read (pipe s1) n) m). split_and!.
  - rw /write_to_pipe Ht. cbn [write_loop]. destruct (Z.eqb_spec n 0); [lia|done].
  - rw Hread. simpl. rw /= in Hmin1. by rw Hmin1.
  - simpl in Hb, Hmin1 |- *. rw Hmin1 in Hb. rw Hb. apply slice_splice. by rw length_mem_read.
  - simpl. lia.
Qed.

(** Two reads of [k] bytes each from a pipe that holds at least [2 k] bytes
    both return the first [k] bytes of the page, and so the same bytes. *)
Theorem pipe_short_read_repeats s fuel c dst k m2 :
  pipe_inv (pipe s) -> 0 < k -> 2 * k <= data_sz (pipe s) -> r_pos (pipe s) + 2 * k < PIPE_BUF_SZ -> copy_ok dst k = true ->
  exists s1 s2, read_from_pipe copy_ok (S (S fuel)) c dst k s = Ok (Returns (RVal k), s1) /\
    read_from_pipe copy_ok (S (S fuel)) c dst k (mkXfer (pipe s1) m2) = Ok (Returns (RVal k), s2) /\
    mem_read (umem s1) dst k = slice (data (pipe s)) 0 k /\ mem_read (umem s2) dst k = slice (data (pipe s)) 0 k.
Proof.
  intros Hi Hk Hd Hr Hok. destruct (Hi) as [Hpg Hrp Hwp Hd0 Hf Hsum Hpos]. rw /PIPE_BUF_SZ in Hr Hsum Hrp.
  assert (Z.min k (data_sz (pipe s)) = k) as Hm by lia.
  destruct (read_bytes s fuel c dst k Hi) as (m & Hread & Hb); [lia|lia|rw Hm /PIPE_BUF_SZ; lia|by rw Hm|].
  rw Hm in Hread Hb. set s1 := mkXfer (after_read (pipe s) k) m in Hread.
  assert (Z.min k (data_sz (pipe s1)) = k) as Hm1 by (simpl; lia).
  destruct (read_bytes (mkXfer (pipe s1) m2) fuel c dst k) as (m' & Hread' & Hb'); [by apply after_read_inv; [|lia]|lia|simpl; lia|..].
  { rw /= in Hm1 |- *. rw Hm1 Z.mod_small /PIPE_BUF_SZ; lia. }
  { rw /= in Hm1 |- *. by rw Hm1. }
  rw /= in Hm1 Hread' Hb'. rw Hm1 in Hread' Hb'. exists s1, (mkXfer (after_read (pipe s1) k) m'). by split_and!.
Qed.
End transfers.

(** ** Witnesses *)
Definition all_ok : Z -> Z -> bool := fun _ _ => true.
Definition page0 : list Z := replicate (Z.to_nat PIPE_BUF_SZ) 0.
(** A pipe with one end of each kind and [n] bytes in it, at [r]. *)
Definition sample_pipe (r n : Z) : Pipe := mkPipe [] page0 (r + n) r (PIPE_BUF_SZ - n) n 1 1.
Definition sample_xfer (r n : Z) : xfer := mkXfer (sample_pipe r n) (fun a => a mod 251).

Lemma sample_pipe_inv r n : 0 <= r -> 0 <= n -> r + n < PIPE_BUF_SZ -> pipe_inv (sample_pipe r n).
Proof.
  intros Hr Hn Hs. split; rw /sample_pipe /=; try lia; [done|]. by rw Z.mod_small; [lia|].
Qed.

Lemma pipe_transfers_correct_witness :
  (exists s', read_from_pipe all_ok 2 7 100 5 (sample_xfer 10 3) = Ok (Returns (RVal 3), s') /\ pipe s' = after_read (sample_pipe 10 3) 3) /\
  (exists s', write_to_pipe all_ok 512 2 7 100 5 (sample_xfer 10 3) = Ok (Returns (RVal 5), s') /\ data_sz (pipe s') = 8).
Proof.
  destruct (pipe_transfers_correct all_ok 512 (sample_xfer 10 3) 2 7 100 5) as [(r & s' & E & _ & H) (r2 & s2 & E2 & _ & _ & H2)];
    [apply sample_pipe_inv; rw /PIPE_BUF_SZ; lia|lia|lia|lia|done|done|]. cbv zeta in H, H2.
  split.
  - exists s'. destruct (decide (data_sz _ = 0)) as [D|_]; [discriminate D|]. destruct H as [-> Hp]. split; [exact E|exact Hp].
  - exists s2. destruct (decide (reader_cnt _ = 0)) as [D|_]; [discriminate D|]. destruct (decide (free_sz _ < 512)) as [D|_]; [discriminate D|].
    destruct H2 as (d & -> & Hp). split; [exact E2|]. rewrite Hp. reflexivity.
Defined.

Lemma pipe_no_lost_wakeup_witness :
  pipe_inv (put_writer (sample_pipe 10 0)) /\ waiting_ok 512 (put_writer (sample_pipe 10 0)).
Proof.
  destruct (pipe_no_lost_wakeup all_ok 512 (sample_pipe 10 0) (put_writer (sample_pipe 10 0))) as (H1 & H2 & _);
    [apply sample_pipe_inv; rw /PIPE_BUF_SZ; lia|reflexivity|apply rtc_once, step_put_writer|].
  split; [exact H1|exact H2].
Defined.

Lemma pipe_zero_length_spins_witness :
  (exists s', read_from_pipe all_ok 1000 7 100 0 (sample_xfer 10 3) = Ok (Spinning, s')) /\
  (exists s', write_to_pipe all_ok 512 1000 7 100 0 (sample_xfer 10 3) = Ok (Spinning, s')).
Proof.
  destruct (pipe_zero_length_spins all_ok 512 1000 7 100 (sample_xfer 10 3)) as [H1 H2];
    [apply sample_pipe_inv; rw /PIPE_BUF_SZ; lia|].
  split; [apply H1; discriminate|apply H2; discriminate].
Defined.

Lemma pipe_roundtrip_witness :
  exists s1 s2, write_to_pipe all_ok 512 2 7 100 3 (sample_xfer 10 0) = Ok (Returns (RVal 3), s1) /\
    read_from_pipe all_ok 2 7 900 64 (mkXfer (pipe s1) (fun _ => 0)) = Ok (Returns (RVal 3), s2) /\
    mem_read (umem s2) 900 3 = [100; 101; 102].
Proof.
  destruct (pipe_roundtrip all_ok 512 (sample_xfer 10 0) 0 7 100 900 3 64 (fun _ => 0)) as (s1 & s2 & H1 & H2 & H3 & _);
    [apply sample_pipe_inv; rw /PIPE_BUF_SZ; lia|reflexivity|rw /PIPE_BUF_SZ; lia|reflexivity|lia|lia|rw /PIPE_BUF_SZ /=; lia|reflexivity|reflexivity|].
  exists s1, s2. split; [exact H1|]. split; [exact H2|]. rewrite H3. reflexivity.
Defined.

Lemma pipe_short_read_repeats_witness :
  exists s1 s2, read_from_pipe all_ok 2 7 100 2 (sample_xfer 10 6) = Ok (Returns (RVal 2), s1) /\
    read_from_pipe all_ok 2 7 100 2 (mkXfer (pipe s1) (fun _ => 0)) = Ok (Returns (RVal 2), s2) /\
    mem_read (umem s1) 100 2 = mem_read (umem s2) 100 2.
Proof.
  destruct (pipe_short_read_repeats all_ok (sample_xfer 10 6) 0 7 100 2 (fun _ => 0)) as (s1 & s2 & H1 & H2 & H3 & H4);
    [apply sample_pipe_inv; rw /PIPE_BUF_SZ; lia|lia|simpl; lia|rw /PIPE_BUF_SZ /=; lia|reflexivity|].
  exists s1, s2. split; [exact H1|]. split; [exact H2|]. by rewrite H3 H4.
Defined.
