(* ===== verification/PipeOpen.v ===== *)
(** * PipeOpen: making a pipe and closing its ends

    [sys_pipe] on the descriptor tables, and what happens to the pipe it made
    when both ends are closed. *)

From S2P Require Import Prelude FileDesc FileDescInv FileDescThms Pipe PipeThms.
Local Open Scope Z_scope.
Local Open Scope kernel_scope.

Section pipe_open.
Context `{FsConsts}.
Context (FIFO_MODE O_RDONLY : Z).
Context (procs filps : list nat) (procs_nodup : NoDup procs).
Abbreviation fd_inv := (fd_inv procs filps).
Implicit Types (s : pfs) (f : fs) (p i v x : nat).

Lemma on_files_run {A} (m : M fs A) s a f : m (files s) = Ok (a, f) -> on_files m s = Ok (a, s <| files := f |>).
Proof. rw /on_files. by intros ->. Qed.

(** Everything [sys_pipe] needs is there. *)
Record can_pipe s p (i v x0 x1 j0 j1 : nat) (pl vl l : list nat) : Prop := {
  cp_inv : fd_inv (files s);
  cp_pipe : free_pipe_list s = i :: pl;
  cp_vnode : vnode_free_list s = v :: vl;
  cp_unused : v_valid s v = true -> v_reference_cnt (files s) v = 0;
  cp_filps : filp_free_list (files s) = x0 :: x1 :: l;
  cp_low0 : lowest_free (table (files s) p) 0 j0;
  cp_low1 : lowest_free (table (files s) p) (S j0) j1 }.

Definition open_end (x : nat) : FileDesc := mkFileDesc (Z.lor FDF_ALLOCED FDF_VALID) (Some x).
Lemma open_end_ok x : slot_ok (open_end x).
Proof. by split_and!. Qed.

(** The second search starts at the beginning as well. *)
Lemma lowest_free_next (t : list FileDesc) j0 j1 g :
  allocated g = true -> lowest_free t 0 j0 -> lowest_free t (S j0) j1 -> lowest_free (<[j0 := g]> t) 0 j1.
Proof.
  intros Hg (_ & (f0 & Hf0 & _) & Hk0) (Hle & (f1 & Hf1 & Ha1) & Hk1). split; [lia|]. split.
  - exists f1. split; [|done]. by rw list_lookup_insert_ne; [lia|].
  - intros k Hk. destruct (decide (k = j0)) as [->|Hne].
    + exists g. split; [|done]. apply list_lookup_insert_eq. by apply lookup_lt_Some in Hf0.
    + rw list_lookup_insert_ne; [lia|]. destruct (decide (k < j0)%nat); [apply Hk0; lia|apply Hk1; lia].
Qed.

Lemma filp_get_new_raw f x l :
  f_type (filp f x) = FILP_TYPE_FREE -> filp_free_list f = x :: l ->
  filp_get_new f = Ok (Some x, upd_filp x (fun h => h <| f_reference_cnt := 1 |> <| f_type := FILP_TYPE_UNDEF |>
                                       <| f_u := None |> <| f_flags := 0 |>) (f <| filp_free_list := l |>)).
Proof. intros Ht Hl. rw /filp_get_new. mrun. rw Hl Ht bool_decide_true //. cbn. by rw Hl. Qed.

Lemma set_filp_run f p j d x : table f p !! j = Some d ->
  set_filedesc_filp p (Z.of_nat j) x f = Ok (tt, put_fd p j (d <| fd_filp := Some x |>) f).
Proof. intros Hj. rw /set_filedesc_filp {1}/mbind {1}/M_bind (get_fd_run _ _ _ _ Hj). by rw (set_fd_run _ _ _ _ _ Hj). Qed.
Lemma set_valid_run f p j d : table f p !! j = Some d ->
  set_filedesc_valid p (Z.of_nat j) f = Ok (tt, put_fd p j (d <| fd_flags ::= fun n => Z.lor n FDF_VALID |>) f).
Proof. intros Hj. rw /set_filedesc_valid {1}/mbind {1}/M_bind (get_fd_run _ _ _ _ Hj). by rw (set_fd_run _ _ _ _ _ Hj). Qed.

(** The state of the pipe's vnode and of both ends, before the descriptors are valid. *)
Lemma pipe_attach_run s p cred i v x0 x1 j0 j1 d0 d1 vl :
  vnode_free_list s = v :: vl -> (v_valid s v = true -> v_reference_cnt (files s) v = 0) ->
  j0 <> j1 -> x0 <> x1 -> table (files s) p !! j0 = Some d0 -> table (files s) p !! j1 = Some d1 ->
  exists s', pipe_attach FIFO_MODE O_RDONLY p cred i x0 x1 (Z.of_nat j0) (Z.of_nat j1) s = Ok (Some v, s') /\
    v_reference_cnt (files s') v = 2 /\ v_mode (files s') v = FIFO_MODE /\ v_pipe s' v = Some i /\
    pipe_table s' i = (pipe_table s i) <| reader_cnt := 1 |> <| writer_cnt := 1 |> /\
    table (files s') p = <[j1 := d1 <| fd_filp := Some x1 |>]> (<[j0 := d0 <| fd_filp := Some x0 |>]> (table (files s) p)) /\
    (forall q, q <> p -> table (files s') q = table (files s) q) /\
    filp (files s') x0 = mkFilp 0 O_RDONLY (f_reference_cnt (filp (files s) x0)) FILP_TYPE_VNODE (Some v) /\
    filp (files s') x1 = mkFilp 0 O_WRONLY (f_reference_cnt (filp (files s) x1)) FILP_TYPE_VNODE (Some v) /\
    (forall y, y <> x0 -> y <> x1 -> filp (files s') y = filp (files s) y) /\
    filp_free_list (files s') = filp_free_list (files s).
Proof.
  intros Hvl Hun Hj Hx Hd0 Hd1.
  rw /pipe_attach /vnode_get_new. mrun. rw Hvl /=. rw Hvl /=.
  assert (negb (v_valid s v) || (v_reference_cnt (files s) v =? 0) = true) as ->.
  { destruct (v_valid s v); [by rw Hun|done]. }
  rw /on_files /set_end /upd_ptable /modify /=.
  match goal with |- context [set_filedesc_filp p (Z.of_nat j0) x0 ?f] => set f1 := f end.
  rw (set_filp_run f1 p j0 d0) //=.
  assert (table (put_fd p j0 (d0 <| fd_filp := Some x0 |>) f1) p !! j1 = Some d1) as Hd1'.
  { rw table_put decide_True // list_lookup_insert_ne //. }
  rw (set_filp_run _ p j1 d1) //=. eexists. split; [done|]. rw /f1 /=. reads.
  rw Z.lor_0_l. split_and!; try done.
  - intros q Hq. reads. done.
  - intros y Hy0 Hy1. reads. done.
Qed.

Lemma alloc_pipe_run s i pl pg :
  free_pipe_list s = i :: pl ->
  exists s', alloc_pipe (Some pg) s = Ok (Some i, s') /\ files s' = files s /\ vnode_free_list s' = vnode_free_list s /\ v_valid s' = v_valid s /\
    pipe_table s' i = mkPipe [] pg 0 0 PIPE_BUF_SZ 0 0 0.
Proof.
  intros Hl. rw /alloc_pipe /upd_ptable. mrun. rw Hl /=. rw Hl /=. eexists. split; [done|]. simpl. by reads.
Qed.

(** The end of [pipe_connect]. *)
Definition pipe_last p (rc : ret) v (j0 j1 : nat) : M pfs ret :=
  if bool_decide (rc = RVal 0) then
    _ ← on_files (set_filedesc_valid p (Z.of_nat j0)); _ ← on_files (set_filedesc_valid p (Z.of_nat j1)); mret (RVal 0)
  else _ ← vnode_put_fifo_writer v; _ ← vnode_put_fifo_reader v; mret rc.

(** What [sys_pipe] comes down to when nothing it needs is missing: the last
    part, in a state where the descriptors and filps have been allocated. *)
Lemma sys_pipe_prefix s p cred pg rc i v x0 x1 j0 j1 pl vl l :
  can_pipe s p i v x0 x1 j0 j1 pl vl l ->
  exists s5,
    (forall s6, pipe_last p rc v j0 j1 s5 = Ok (RVal 0, s6) ->
       sys_pipe FIFO_MODE O_RDONLY p cred (Some pg) rc s = Ok ((RVal 0, (Z.of_nat j0, Z.of_nat j1)), s6)) /\
    (pipe_last p rc v j0 j1 s5 = Panic -> sys_pipe FIFO_MODE O_RDONLY p cred (Some pg) rc s = Panic) /\
    v_reference_cnt (files s5) v = 2 /\ v_mode (files s5) v = FIFO_MODE /\ v_pipe s5 v = Some i /\
    pipe_table s5 i = mkPipe [] pg 0 0 PIPE_BUF_SZ 0 1 1 /\
    table (files s5) p = <[j1 := mkFileDesc FDF_ALLOCED (Some x1)]> (<[j0 := mkFileDesc FDF_ALLOCED (Some x0)]> (table (files s) p)) /\
    (forall q, q <> p -> table (files s5) q = table (files s) q) /\
    filp (files s5) x0 = mkFilp 0 O_RDONLY 1 FILP_TYPE_VNODE (Some v) /\
    filp (files s5) x1 = mkFilp 0 O_WRONLY 1 FILP_TYPE_VNODE (Some v) /\
    (forall y, y <> x0 -> y <> x1 -> filp (files s5) y = filp (files s) y) /\
    filp_free_list (files s5) = l.
Proof.
  intros [Hinv Hpl Hvl Hun Hfl Hlow0 Hlow1].
  assert (x0 <> x1) as Hx. { pose proof (di_nodup _ _ _ Hinv) as Hnd. rw Hfl in Hnd. apply NoDup_cons in Hnd as [Hnd _]. set_solver. }
  assert (j0 < j1)%nat as Hj by (by destruct Hlow1).
  destruct (Hlow0) as (_ & (g0 & Hg0 & _) & _). destruct (Hlow1) as (_ & (g1 & Hg1 & _) & _).
  assert (length (table (files s) p) = FILEDESC_MAX) as Hlen by (destruct (di_len _ _ _ Hinv p) as [E|]; [by rw E in Hg0|done]).
  pose proof (lookup_lt_Some _ _ _ Hg0) as Hlt0. pose proof (lookup_lt_Some _ _ _ Hg1) as Hlt1.
  destruct (alloc_pipe_run s i pl pg Hpl) as (sA & HA & EA & EvA & EuA & EpA).
  set f1 := put_fd p j0 (mkFileDesc FDF_ALLOCED None) (files s).
  set f2 := upd_filp x0 (fun h => h <| f_reference_cnt := 1 |> <| f_type := FILP_TYPE_UNDEF |> <| f_u := None |> <| f_flags := 0 |>) (f1 <| filp_free_list := x1 :: l |>).
  set f3 := put_fd p j1 (mkFileDesc FDF_ALLOCED None) f2.
  set f4 := upd_filp x1 (fun h => h <| f_reference_cnt := 1 |> <| f_type := FILP_TYPE_UNDEF |> <| f_u := None |> <| f_flags := 0 |>) (f3 <| filp_free_list := l |>).
  assert (forall x, x ∈ [x0; x1] -> f_type (filp (files s) x) = FILP_TYPE_FREE) as Hfree.
  { intros x Hxin. apply (di_free _ _ _ Hinv). rw Hfl. set_solver. }
  assert (table f2 p = <[j0 := mkFileDesc FDF_ALLOCED None]> (table (files s) p)) as Ht2.
  { change (table f2 p) with (table f1 p). by rw /f1 table_put decide_True. }
  assert (table f4 p = <[j1 := mkFileDesc FDF_ALLOCED None]> (<[j0 := mkFileDesc FDF_ALLOCED None]> (table (files s) p))) as Ht4.
  { change (table f4 p) with (table f3 p). by rw /f3 table_put decide_True // Ht2. }
  assert (fd_alloc p 0 (Z.of_nat FILEDESC_MAX) (files s) = Ok (Some (Z.of_nat j0), f1)) as R1.
  { apply (fd_alloc_loop_found procs filps (files s) p _ 0 j0 Hinv Hlow0). lia. }
  assert (filp_get_new f1 = Ok (Some x0, f2)) as R2. { apply filp_get_new_raw; [apply Hfree; set_solver|done]. }
  assert (fd_alloc p 0 (Z.of_nat FILEDESC_MAX) f2 = Ok (Some (Z.of_nat j1), f3)) as R3.
  { apply (fd_alloc_loop_slots f2 p _ 0 j1); [|rw Ht2; by apply lowest_free_next|lia].
    intros k f. rw Ht2. intros [(<- & <- & _)|[_ Hk]]%list_lookup_insert_Some; [by split_and!|]. by apply (di_slot _ _ _ Hinv) in Hk. }
  assert (filp_get_new f3 = Ok (Some x1, f4)) as R4.
  { apply filp_get_new_raw; [|done]. simpl. reads. apply Hfree; set_solver. }
  destruct (pipe_attach_run (sA <| files := f4 |>) p cred i v x0 x1 j0 j1 (mkFileDesc FDF_ALLOCED None) (mkFileDesc FDF_ALLOCED None) vl)
    as (s5 & R5 & H1 & H2 & H3 & H4 & H5 & H6 & H7 & H8 & H9 & H10); [by rw /= EvA|rw /= EuA; done|lia|done|..].
  { simpl. rw Ht4 list_lookup_insert_ne; [lia|]. by apply list_lookup_insert_eq. }
  { simpl. rw Ht4. apply list_lookup_insert_eq. by rw length_insert. }
  assert (forall r, pipe_last p rc v j0 j1 s5 = r -> r = Panic \/ (exists s6, r = Ok (RVal 0, s6)) ->
    sys_pipe FIFO_MODE O_RDONLY p cred (Some pg) rc s =
      match r with Ok (_, s6) => Ok ((RVal 0, (Z.of_nat j0, Z.of_nat j1)), s6) | Panic => Panic | Fault => Fault end) as Hrun.
  { intros r Hr Hcase. rw /sys_pipe.
    assert (on_files (fd_alloc p 0 (Z.of_nat FILEDESC_MAX)) sA = Ok (Some (Z.of_nat j0), sA <| files := f1 |>)) as R1' by (apply on_files_run; by rw EA).
    assert (on_files filp_get_new (sA <| files := f1 |>) = Ok (Some x0, sA <| files := f2 |>)) as R2' by exact (on_files_run _ (sA <| files := f1 |>) _ f2 R2).
    assert (on_files (fd_alloc p 0 (Z.of_nat FILEDESC_MAX)) (sA <| files := f2 |>) = Ok (Some (Z.of_nat j1), sA <| files := f3 |>)) as R3' by exact (on_files_run (fd_alloc p 0 _) (sA <| files := f2 |>) _ f3 R3).
    assert (on_files filp_get_new (sA <| files := f3 |>) = Ok (Some x1, sA <| files := f4 |>)) as R4' by exact (on_files_run _ (sA <| files := f3 |>) _ f4 R4).
    mrun. rw HA R1' R2' R3' R4' /pipe_connect. mrun. rw R5.
    rw /pipe_last in Hr. mrun_in Hr. rw Hr. by destruct Hcase as [->|[s6 ->]]. }
  exists s5. split_and!; try done.
  - intros s6 Hr. apply (Hrun _ Hr). eauto.
  - intros Hr. apply (Hrun _ Hr). eauto.
  - rw H4 /= EpA. done.
  - rw H5 /= Ht4 (list_insert_insert_ne _ j0 j1); [lia|]. by rw !list_insert_insert_eq.
  - intros q Hq. rw H6 //=. by reads.
  - rw H7 /=. by reads.
  - rw H8 /=. by reads.
  - intros y Hy0 Hy1. rw H9 //=. by reads.
Qed.

(** C35: when a pipe, a vnode, two filps and two descriptors are free and the
    caller's buffer can be written, [sys_pipe] returns the two lowest free
    descriptors, the first one open for reading and the second for writing on
    a new vnode, whose pipe is an empty ring with one reader and one writer;
    every other descriptor is unchanged and the reference counts stay exact. *)
Theorem sys_pipe_correct s p cred pg i v x0 x1 j0 j1 pl vl l :
  can_pipe s p i v x0 x1 j0 j1 pl vl l -> Z.of_nat (length pg) = PIPE_BUF_SZ ->
  exists s', sys_pipe FIFO_MODE O_RDONLY p cred (Some pg) (RVal 0) s = Ok ((RVal 0, (Z.of_nat j0, Z.of_nat j1)), s') /\
    fd_inv (files s') /\ table (files s') p = <[j1 := open_end x1]> (<[j0 := open_end x0]> (table (files s) p)) /\
    (forall q, q <> p -> table (files s') q = table (files s) q) /\
    filp (files s') x0 = mkFilp 0 O_RDONLY 1 FILP_TYPE_VNODE (Some v) /\
    filp (files s') x1 = mkFilp 0 O_WRONLY 1 FILP_TYPE_VNODE (Some v) /\
    v_pipe s' v = Some i /\ pipe_inv (pipe_table s' i) /\ sleepers (pipe_table s' i) = [] /\
    data_sz (pipe_table s' i) = 0 /\ reader_cnt (pipe_table s' i) = 1 /\ writer_cnt (pipe_table s' i) = 1.
Proof.
  intros Hcan Hpg. destruct (sys_pipe_prefix s p cred pg (RVal 0) i v x0 x1 j0 j1 pl vl l Hcan)
    as (s5 & Hok & _ & _ & _ & Hvp & Hpt & Ht & Htq & Hf0 & Hf1 & Hfy & Hfl).
  destruct Hcan as [Hinv Hpl Hvl Hun Hfree Hlow0 Hlow1]. destruct (Hlow0) as (_ & (g0 & Hg0 & Ha0) & _). destruct (Hlow1) as (Hj & (g1 & Hg1 & Ha1) & _).
  assert (x0 <> x1) as Hx. { pose proof (di_nodup _ _ _ Hinv) as Hnd. rw Hfree in Hnd. apply NoDup_cons in Hnd as [Hnd _]. set_solver. }
  pose proof (lookup_lt_Some _ _ _ Hg0) as Hlt0. pose proof (lookup_lt_Some _ _ _ Hg1) as Hlt1.
  assert (table (files s5) p !! j0 = Some (mkFileDesc FDF_ALLOCED (Some x0))) as R0.
  { rw Ht list_lookup_insert_ne; [lia|]. by apply list_lookup_insert_eq. }
  pose proof (set_valid_run _ _ _ _ R0) as V0. set f6 := put_fd _ _ _ _ in V0.
  assert (table f6 p !! j1 = Some (mkFileDesc FDF_ALLOCED (Some x1))) as R1.
  { rw /f6 table_put decide_True // list_lookup_insert_ne; [lia|]. rw Ht. apply list_lookup_insert_eq. by rw length_insert. }
  pose proof (set_valid_run _ _ _ _ R1) as V1. set f7 := put_fd _ _ _ _ in V1.
  assert (table f7 p = <[j1 := open_end x1]> (<[j0 := open_end x0]> (table (files s) p))) as Ht7.
  { rw /f7 table_put decide_True // /f6 table_put decide_True // Ht (list_insert_insert_ne _ j0 j1); [lia|]. by rw !list_insert_insert_eq. }
  assert (forall q, q <> p -> table f7 q = table (files s) q) as Htq7.
  { intros q Hq. rw /f7 table_put decide_False // /f6 table_put decide_False //. by apply Htq. }
  exists (s5 <| files := f7 |>). split; [|split_and!; try done].
  - apply Hok. rw /pipe_last bool_decide_true //. mrun. rw (on_files_run (set_filedesc_valid p (Z.of_nat j0)) s5 tt f6 V0). by rw /on_files; change (files (s5 <| files := f6 |>)) with f6; rw V1.
  - set fm := put_fd p j0 (open_end x0) ((files s) <| filp_free_list := x1 :: l |> <| filp ::= fun t => <[x0 := mkFilp 0 O_RDONLY 1 FILP_TYPE_VNODE (Some v)]> t |>).
    assert (fd_inv fm) as Hm.
    { eapply (inv_new procs filps procs_nodup (files s) fm p j0 g0 (open_end x0) x0 (x1 :: l)); try done; try apply open_end_ok.
      - eapply not_allocated; [|exact Ha0]. eapply (di_slot _ _ _ Hinv); exact Hg0.
      - intros y Hy. rw /fm /=. by reads.
      - rw /fm /=. by reads.
      - rw /fm /=. reads. left. eauto. }
    eapply (inv_new procs filps procs_nodup fm f7 p j1 g1 (open_end x1) x1 l); try done; try apply open_end_ok.
    + rw /fm table_put decide_True //= list_lookup_insert_ne; [lia|done].
    + eapply not_allocated; [|exact Ha1]. eapply (di_slot _ _ _ Hinv); exact Hg1.
    + intros q. rw table_put. destruct (decide (q = p)) as [->|Hq]; [by rw Ht7 /fm table_put decide_True|].
      rw Htq7 //. symmetry. rw /fm table_put decide_False //.
    + intros y Hy. change (filp f7 y) with (filp (files s5) y). rw /fm /=. destruct (decide (x0 = y)) as [<-|Hy0]; reads; [done|]. apply Hfy; congruence.
    + change (filp f7 x1) with (filp (files s5) x1). by rw Hf1.
    + change (filp f7 x1) with (filp (files s5) x1). rw Hf1. left. eauto.
  - rw /= Hpt. by split.
  - by rw /= Hpt.
  - by rw /= Hpt.
  - by rw /= Hpt.
  - by rw /= Hpt.
Qed.

(** The vnode of a pipe keeps both its references when the ends are closed,
    so that closing the second end, in either order, fails the assertion that
    there are none left and stops the kernel; and so does [sys_pipe] itself
    when the caller's buffer cannot be written. *)
Theorem pipe_close_both_panics s p cred pg i v x0 x1 j0 j1 pl vl l rc :
  can_pipe s p i v x0 x1 j0 j1 pl vl l -> S_ISFIFO FIFO_MODE = true -> rc <> RVal 0 ->
  (exists s', sys_pipe FIFO_MODE O_RDONLY p cred (Some pg) (RVal 0) s = Ok ((RVal 0, (Z.of_nat j0, Z.of_nat j1)), s') /\
     (_ ← do_close_pipe v true; do_close_pipe v false) s' = Panic /\
     (_ ← do_close_pipe v false; do_close_pipe v true) s' = Panic) /\
  sys_pipe FIFO_MODE O_RDONLY p cred (Some pg) rc s = Panic.
Proof.
  intros Hcan Hfifo Hrc.
  assert (forall s5, v_reference_cnt (files s5) v = 2 -> v_mode (files s5) v = FIFO_MODE -> v_pipe s5 v = Some i ->
    pipe_table s5 i = mkPipe [] pg 0 0 PIPE_BUF_SZ 0 1 1 ->
    (exists s6, vnode_put_fifo_writer v s5 = Ok (tt, s6) /\ vnode_put_fifo_reader v s6 = Panic) /\
    (exists s6, vnode_put_fifo_reader v s5 = Ok (tt, s6) /\ vnode_put_fifo_writer v s6 = Panic)) as Hclose.
  { intros s5 Hr Hm Hp Ht. split; eexists; rw /vnode_put_fifo_writer /vnode_put_fifo_reader /fifo_pipe /put_fifo_check /upd_ptable; mrun; rw Hm Hfifo Hp /=.
    all: rw !fn_lookup_insert Ht /=; split; [done|]; rw Hm Hfifo Hp /= !fn_lookup_insert /= Hr Ht //. }
  split.
  - destruct (sys_pipe_prefix s p cred pg (RVal 0) i v x0 x1 j0 j1 pl vl l Hcan)
      as (s5 & Hok & _ & Hr & Hm & Hvp & Hpt & Ht & _). destruct Hcan as [_ _ _ _ _ (_ & (g0 & Hg0 & _) & _) (Hj & (g1 & Hg1 & _) & _)].
    pose proof (lookup_lt_Some _ _ _ Hg0) as Hlt0. pose proof (lookup_lt_Some _ _ _ Hg1) as Hlt1.
    assert (table (files s5) p !! j0 = Some (mkFileDesc FDF_ALLOCED (Some x0))) as R0.
    { rw Ht list_lookup_insert_ne; [lia|]. by apply list_lookup_insert_eq. }
    pose proof (set_valid_run _ _ _ _ R0) as V0. set f6 := put_fd _ _ _ _ in V0.
    assert (table f6 p !! j1 = Some (mkFileDesc FDF_ALLOCED (Some x1))) as R1.
    { rw /f6 table_put decide_True // list_lookup_insert_ne; [lia|]. rw Ht. apply list_lookup_insert_eq. by rw length_insert. }
    pose proof (set_valid_run _ _ _ _ R1) as V1. set f7 := put_fd _ _ _ _ in V1.
    exists (s5 <| files := f7 |>). split.
    { apply Hok. rw /pipe_last bool_decide_true //. mrun. rw (on_files_run (set_filedesc_valid p (Z.of_nat j0)) s5 tt f6 V0). by rw /on_files; change (files (s5 <| files := f6 |>)) with f6; rw V1. }
    destruct (Hclose (s5 <| files := f7 |>)) as [(s6 & E1 & E2) (s7 & E3 & E4)]; [done..|].
    rw /do_close_pipe. mrun. by rw E1 E2 E3 E4.
  - destruct (sys_pipe_prefix s p cred pg rc i v x0 x1 j0 j1 pl vl l Hcan) as (s5 & _ & Hpanic & Hr & Hm & Hvp & Hpt & _).
    apply Hpanic. rw /pipe_last bool_decide_false //. destruct (Hclose s5 Hr Hm Hvp Hpt) as [(s6 & E1 & E2) _]. mrun. by rw E1 E2.
Qed.
End pipe_open.

(** ** Witnesses: process 0 with one descriptor open, three free *)
#[local] Instance consts_example : FsConsts := small_consts.
Definition sample_pfs : pfs := mkPfs fs_one (fun _ => sample_pipe 0 0) [0; 1]%nat [3; 4]%nat (fun _ => false) (fun _ => None) (fun _ => (0, 0)) 1.

Lemma sample_can_pipe : can_pipe [0; 1]%nat [0; 1; 2]%nat sample_pfs 0 0 3 1 2 1 2 [1]%nat [4]%nat [].
Proof.
  split; try done; [apply fs_one_inv|..].
  - split_and!; [lia|by exists nofd|]. intros k Hk. assert (k = 0%nat) as -> by lia. by exists fd0.
  - split_and!; [lia|by exists nofd|]. intros k Hk. lia.
Qed.

Lemma sys_pipe_correct_witness :
  exists s', sys_pipe 0x1180 0 0 (5, 5) (Some page0) (RVal 0) sample_pfs = Ok ((RVal 0, (1, 2)), s') /\
    table (files s') 0%nat = [fd0; open_end 1; open_end 2; nofd] /\ reader_cnt (pipe_table s' 0%nat) = 1.
Proof.
  destruct (sys_pipe_correct 0x1180 0 [0; 1]%nat [0; 1; 2]%nat procs_example sample_pfs 0 (5, 5) page0 0 3 1 2 1 2 [1]%nat [4]%nat [] sample_can_pipe)
    as (s' & H1 & _ & H2 & _ & _ & _ & _ & _ & _ & _ & H3 & _); [vm_compute; reflexivity|].
  exists s'. split; [exact H1|]. split; [exact H2|exact H3].
Defined.

Lemma pipe_close_both_panics_witness :
  (exists s', sys_pipe 0x1180 0 0 (5, 5) (Some page0) (RVal 0) sample_pfs = Ok ((RVal 0, (1, 2)), s') /\
     (_ ← do_close_pipe 3 true; do_close_pipe 3 false) s' = Panic) /\
  sys_pipe 0x1180 0 0 (5, 5) (Some page0) (RErr EFAULT) sample_pfs = Panic.
Proof.
  destruct (pipe_close_both_panics 0x1180 0 [0; 1]%nat [0; 1; 2]%nat procs_example sample_pfs 0 (5, 5) page0 0 3 1 2 1 2 [1]%nat [4]%nat [] (RErr EFAULT) sample_can_pipe)
    as [(s' & H1 & H2 & _) H3]; [reflexivity|discriminate|]. split; [exists s'; split; [exact H1|exact H2]|exact H3].
Defined.
