(* ===== verification/Lookup.v ===== *)
(** * Lookup: pathname resolution, fs/lookup.c

    The page that holds the path is an array of bytes and the pointers into it
    are indices; reading past its end is a fault. Vnodes are named by numbers,
    [None] being NULL; the references [vnode_ref] takes are counted, and
    [vnode_put] returns at once. *)

From S2P Require Import Prelude Cstring.
Local Open Scope Z_scope.
Local Open Scope kernel_scope.

Definition LOOKUP_PARENT : Z := bit 0.
Definition LOOKUP_REMOVE : Z := 2.
Definition LOOKUP_NOFOLLOW : Z := bit 5.
Definition LOOKUP_KERNEL : Z := bit 6.
(** '/' and '.' *)
Definition SLASH : Z := 47.
Definition DOT : Z := 46.

(** ** What lookup uses of the other parts of the file system

    [vfs_lookup] asks the server of a directory for a name: the vnode, on
    which the caller gets a reference, or an error. *)
Class Vfs := {
  root_vnode : option nat;
  current_dir : option nat;
  is_dir : nat -> bool;
  vnode_covered : nat -> option nat;
  vnode_mounted_here : nat -> option nat;
  is_dev_tty : nat -> bool;
  controlling_tty : option nat;
  vfs_lookup : nat -> list Z -> nat + errno }.

Record lookupdata := mkLookup {
  start_vnode : option nat;
  vnode : option nat;
  parent : option nat;
  path : option (list Z);
  last_component : option nat;
  position : option nat;
  separator : Z;
  flags : Z }.
Definition eta_ld d := mkLookup (start_vnode d) (vnode d) (parent d) (path d) (last_component d) (position d) (separator d) (flags d).
#[export] Instance set_start_vnode : Setter start_vnode := ltac:(solve_setter eta_ld).
#[export] Instance set_vnode : Setter vnode := ltac:(solve_setter eta_ld).
#[export] Instance set_parent : Setter parent := ltac:(solve_setter eta_ld).
#[export] Instance set_path : Setter path := ltac:(solve_setter eta_ld).
#[export] Instance set_last_component : Setter last_component := ltac:(solve_setter eta_ld).
#[export] Instance set_position : Setter position := ltac:(solve_setter eta_ld).
#[export] Instance set_separator : Setter separator := ltac:(solve_setter eta_ld).
#[export] Instance set_flags : Setter flags := ltac:(solve_setter eta_ld).

(** [refs]: the references taken, latest first; [pages_freed] counts the calls
    of [kfree_page]. *)
Record lstate := mkLState { ld : lookupdata; refs : list nat; pages_freed : nat }.
Definition eta_lstate s := mkLState (ld s) (refs s) (pages_freed s).
#[export] Instance set_ld : Setter ld := ltac:(solve_setter eta_lstate).
#[export] Instance set_refs : Setter refs := ltac:(solve_setter eta_lstate).
#[export] Instance set_pages_freed : Setter pages_freed := ltac:(solve_setter eta_lstate).

Definition upd_ld (f : lookupdata -> lookupdata) : M lstate unit := modify (fun s => s <| ld ::= f |>).
Definition vnode_ref (v : option nat) : M lstate unit :=
  match v with None => fault | Some v => modify (fun s => s <| refs ::= cons v |>) end.
Definition vnode_put (v : option nat) : M lstate unit := mret tt.
Definition kfree_page : M lstate unit := modify (fun s => s <| pages_freed ::= S |>).

(** The page and the index, of non-NULL pointers. *)
Definition get_path : M lstate (list Z) := o ← gets (fun s => path (ld s)); match o with Some l => mret l | None => fault end.
Definition get_position : M lstate nat := o ← gets (fun s => position (ld s)); match o with Some i => mret i | None => fault end.
Definition byte_at (l : list Z) (i : nat) : outcome Z := match l !! i with Some c => Ok c | None => Fault end.
Definition store (l : list Z) (i : nat) (c : Z) : outcome (list Z) := if decide (i < length l)%nat then Ok (<[i := c]> l) else Fault.

(** ** Components *)

(** [while ( *ch == '/') ch++] and [while ( *ch != '/' && *ch != '\0') ch++]:
    how far [ch] moves. *)
Fixpoint skip_slashes (s : list Z) : outcome nat :=
  match s with [] => Fault | c :: s' => if c =? SLASH then n ← skip_slashes s'; Ok (S n) else Ok O end.
Fixpoint name_length (s : list Z) : outcome nat :=
  match s with [] => Fault | c :: s' => if (c =? SLASH) || (c =? 0) then Ok O else n ← name_length s'; Ok (S n) end.

Definition path_token : M lstate (option nat) :=
  l ← get_path;
  pos ← get_position;
  k ← lift (skip_slashes (drop pos l));
  let ch := (pos + k)%nat in
  c ← lift (byte_at l ch);
  if c =? 0 then
    _ ← upd_ld (fun d => d <| position := Some ch |> <| separator := 0 |>);
    mret None
  else
    n ← lift (name_length (drop ch l));
    let e := (ch + n)%nat in
    c ← lift (byte_at l e);
    _ ← upd_ld (fun d => if c =? SLASH then d <| position := Some (S e) |> <| separator := SLASH |>
                         else d <| position := Some e |> <| separator := 0 |>);
    l' ← lift (store l e 0);
    _ ← upd_ld (fun d => d <| path := Some l' |>);
    mret (Some ch).

Definition is_last_component : M lstate bool :=
  s ← gets (fun s => separator (ld s));
  if s =? 0 then mret true
  else
    l ← get_path;
    pos ← get_position;
    c ← lift (byte_at l pos);
    mret (c =? 0).

(** The string a pointer into the page points to. *)
Fixpoint string_at (s : list Z) : outcome (list Z) :=
  match s with [] => Fault | c :: s' => if c =? 0 then Ok [] else r ← string_at s'; Ok (c :: r) end.

(** ** Resolution *)
Section resolve.
Context `{Vfs}.

(** The end of [walk_component]: what is mounted on the vnode found is followed. *)
Definition cross_mount (v : nat) : M lstate ret :=
  match vnode_mounted_here v with
  | None => mret (RVal 0)
  | Some m =>
    last ← is_last_component;
    d ← gets ld;
    if (last : bool) && negb (has (flags d) LOOKUP_NOFOLLOW) && is_dev_tty m then
      match controlling_tty with
      | None => _ ← vnode_put (vnode d); _ ← upd_ld (fun d => d <| vnode := None |>); mret (RErr EPERM)
      | Some t => _ ← vnode_put (vnode d); _ ← upd_ld (fun d => d <| vnode := Some t |>); _ ← vnode_ref (Some t); mret (RVal 0)
      end
    else
      _ ← vnode_put (vnode d); _ ← upd_ld (fun d => d <| vnode := Some m |>); _ ← vnode_ref (Some m); mret (RVal 0)
  end.

(** The lookup of the component in [ld->parent], and what is mounted there. *)
Definition walk_name (rest : list Z) : M lstate ret :=
  d ← gets ld;
  match parent d with
  | None => panic
  | Some p =>
    nm ← lift (string_at rest);
    match vfs_lookup p nm with
    | inr e => _ ← upd_ld (fun d => d <| vnode := None |>); mret (RErr e)
    | inl v => _ ← upd_ld (fun d => d <| vnode := Some v |>); _ ← vnode_ref (Some v); cross_mount v
    end
  end.

Definition walk_component : M lstate ret :=
  d ← gets ld;
  match parent d, vnode d, last_component d with
  | Some p, None, Some lc =>
    if negb (is_dir p) then mret (RErr ENOTDIR)
    else
      l ← get_path;
      c1 ← lift (StrCmp (drop lc l) [DOT; 0]);
      if c1 =? 0 then
        _ ← upd_ld (fun d => d <| vnode := Some p |>); _ ← vnode_ref (Some p); mret (RVal 0)
      else
        c2 ← lift (StrCmp (drop lc l) [DOT; DOT; 0]);
        if c2 =? 0 then
          if decide (Some p = root_vnode) then
            _ ← upd_ld (fun d => d <| vnode := root_vnode |>); _ ← vnode_ref root_vnode; mret (RVal 0)
          else match vnode_covered p with
               | Some t =>
                 _ ← vnode_ref (Some t); _ ← vnode_put (Some p); _ ← upd_ld (fun d => d <| parent := Some t |>);
                 walk_name (drop lc l)
               | None => walk_name (drop lc l)
               end
        else walk_name (drop lc l)
  | _, _, _ => panic
  end.

(** The loop of [lookup_path]: [fuel] turns. Each takes a component, so that
    there are no more of them than bytes of the path. *)
Fixpoint lookup_path_loop (fuel : nat) : M lstate ret :=
  match fuel with
  | O => fault
  | S fuel' =>
    t ← path_token;
    _ ← upd_ld (fun d => d <| last_component := t |>);
    match t with
    | None => mret (RErr EINVAL)
    | Some _ =>
      d ← gets ld;
      _ ← (match parent d with
           | Some p => _ ← vnode_put (Some p); upd_ld (fun d => d <| parent := None |>)
           | None => mret tt
           end);
      last ← is_last_component;
      if (last : bool) then mret (RVal 0)
      else
        _ ← upd_ld (fun d => d <| parent := vnode d |> <| vnode := None |>);
        rc ← walk_component;
        if decide (rc = RVal 0) then lookup_path_loop fuel'
        else
          d ← gets ld; _ ← vnode_put (parent d); _ ← upd_ld (fun d => d <| parent := None |>);
          mret rc
    end
  end.
Definition lookup_path : M lstate ret :=
  d ← gets ld;
  _ ← kassert (bool_decide (is_Some (start_vnode d)));
  _ ← upd_ld (fun d => d <| parent := None |> <| vnode := start_vnode d |>);
  _ ← vnode_ref (start_vnode d);
  l ← get_path;
  lookup_path_loop (S (length l)).

Definition lookup_last_component : M lstate ret :=
  d ← gets ld;
  _ ← kassert (bool_decide (is_Some (parent d)));
  match last_component d with None => mret (RErr ENOENT) | Some _ => walk_component end.

(** The loop that is to remove trailing separators: it starts at the NUL. *)
Fixpoint strip_trailing (i : nat) (l : list Z) : outcome (list Z) :=
  match i with
  | O => Ok l
  | S i' => c ← byte_at l i; if c =? SLASH then l' ← store l i 0; strip_trailing i' l' else Ok l
  end.

(** [page]: what [kmalloc_page] returned. [user]: the page after [copyinstring]
    of the caller's string, [None] when that failed. [kpath]: the string of a
    caller in the kernel. [sizeof ld->path] is that of a pointer. *)
Definition SIZEOF_POINTER : nat := 4.
Definition init_lookup (page : option (list Z)) (user : option (list Z)) (kpath : list Z) (fl : Z) : M lstate ret :=
  _ ← upd_ld (fun d => d <| vnode := None |> <| parent := None |> <| position := None |> <| last_component := None |>
                         <| flags := fl |> <| path := page |>);
  match page with
  | None => mret (RVal (-1))
  | Some l0 =>
    l0 ← lift (store l0 0 0);
    o ← (if has fl LOOKUP_KERNEL then r ← lift (StrLCpy l0 kpath SIZEOF_POINTER); mret (Some r.1) else mret user);
    match o with
    | None => _ ← kfree_page; _ ← upd_ld (fun d => d <| path := None |>); mret (RErr EFAULT)
    | Some l =>
      n ← lift (StrLen l);
      l ← lift (strip_trailing n l);
      c ← lift (byte_at l 0);
      let start := if c =? SLASH then root_vnode else current_dir in
      _ ← upd_ld (fun d => d <| path := Some l |> <| start_vnode := start |>);
      match start with
      | None => panic
      | Some v =>
        _ ← vnode_ref (Some v);
        if negb (is_dir v) then _ ← kfree_page; mret (RErr ENOTDIR)
        else _ ← upd_ld (fun d => d <| position := Some O |>); mret (RVal 0)
      end
    end
  end.

(** [ld->path[0] == '/' && ld->path[1] == '\0'] *)
Definition is_root_path : M lstate bool :=
  l ← get_path;
  c0 ← lift (byte_at l 0);
  if c0 =? SLASH then c1 ← lift (byte_at l 1); mret (c1 =? 0) else mret false.

Definition lookup (page user : option (list Z)) (kpath : list Z) (fl : Z) : M lstate ret :=
  rc ← init_lookup page user kpath fl;
  if decide (rc <> RVal 0) then mret rc
  else if has fl LOOKUP_PARENT then
    r ← is_root_path;
    if (r : bool) then mret (RErr EINVAL)
    else
      rc ← lookup_path;
      if decide (rc <> RVal 0) then mret rc
      else
        _ ← upd_ld (fun d => d <| parent := vnode d |> <| vnode := None |>);
        _ ← lookup_last_component;
        mret (RVal 0)
  else if has fl LOOKUP_REMOVE then mret (RErr ENOTSUP)
  else
    r ← is_root_path;
    if (r : bool) then
      _ ← upd_ld (fun d => d <| parent := None |> <| vnode := root_vnode |>); _ ← vnode_ref root_vnode; mret (RVal 0)
    else
      rc ← lookup_path;
      if decide (rc <> RVal 0) then mret rc
      else
        _ ← upd_ld (fun d => d <| parent := vnode d |> <| vnode := None |>);
        d ← gets ld;
        _ ← kassert (bool_decide (is_Some (parent d)));
        rc ← lookup_last_component;
        d ← gets ld;
        _ ← vnode_put (parent d);
        _ ← upd_ld (fun d => d <| parent := None |>);
        mret rc.

Definition lookup_cleanup : M lstate unit :=
  d ← gets ld;
  _ ← (match path d with Some _ => _ ← kfree_page; upd_ld (fun d => d <| path := None |>) | None => mret tt end);
  _ ← (match vnode d with Some v => _ ← vnode_put (Some v); upd_ld (fun d => d <| vnode := None |>) | None => mret tt end);
  _ ← (match parent d with Some v => _ ← vnode_put (Some v); upd_ld (fun d => d <| parent := None |>) | None => mret tt end);
  upd_ld (fun d => d <| last_component := None |> <| position := None |> <| start_vnode := None |>).

Definition path_advance (dv : nat) (nm : list Z) : option nat := match vfs_lookup dv nm with inl v => Some v | inr _ => None end.
End resolve.
