(* ===== verification/LookupThms.v ===== *)
(** * LookupThms: a path is resolved component by component

    The reference: [components] splits a path at its slashes and [resolve]
    walks the list. The theorems relate the lookup of fs/lookup.c to them, and
    say what it does with pages and with paths that end in slashes. *)

From S2P Require Import Prelude Cstring Lookup.
Local Open Scope Z_scope.
Local Open Scope kernel_scope.

(** ** The reference *)
Fixpoint split (acc cs : list Z) : list (list Z) :=
  match cs with
  | [] => match acc with [] => [] | _ => [acc] end
  | c :: cs' =>
    if c =? SLASH then match acc with [] => split [] cs' | _ => acc :: split [] cs' end
    else split (acc ++ [c]) cs'
  end.
Definition components (cs : list Z) : list (list Z) := split [] cs.

Section reference.
Context `{Vfs}.

Definition mounted (last nofollow : bool) (v : nat) : nat + errno :=
  match vnode_mounted_here v with
  | None => inl v
  | Some m =>
    if last && negb nofollow && is_dev_tty m then
      match controlling_tty with None => inr EPERM | Some t => inl t end
    else inl m
  end.
Definition find_name (last nofollow : bool) (p : nat) (nm : list Z) : nat + errno :=
  match vfs_lookup p nm with inr e => inr e | inl v => mounted last nofollow v end.
Definition walk1 (last nofollow : bool) (p : nat) (nm : list Z) : nat + errno :=
  if negb (is_dir p) then inr ENOTDIR
  else if decide (nm = [DOT]) then inl p
  else if decide (nm = [DOT; DOT]) then
    if decide (Some p = root_vnode) then inl p else find_name last nofollow (default p (vnode_covered p)) nm
  else find_name last nofollow p nm.
Fixpoint walk_dirs (nofollow : bool) (p : nat) (comps : list (list Z)) : nat + errno :=
  match comps with
  | [] => inl p
  | c :: comps' => match walk1 false nofollow p c with inl q => walk_dirs nofollow q comps' | inr e => inr e end
  end.
(** The vnode a path names from directory [p]. *)
Fixpoint resolve (nofollow : bool) (p : nat) (comps : list (list Z)) : nat + errno :=
  match comps with
  | [] => inr EINVAL
  | [c] => walk1 true nofollow p c
  | c :: comps' => match walk1 false nofollow p c with inl q => resolve nofollow q comps' | inr e => inr e end
  end.
End reference.

(** ** Strings *)
Section strings.
Implicit Types (cs nm sl : list Z) (l : list Z) (i : nat).

Definition slashes sl : Prop := Forall (fun c => c = SLASH) sl.
Definition plain nm : Prop := Forall (fun c => c <> 0 /\ c <> SLASH) nm.

Lemma plain_chars nm : plain nm -> chars nm.
Proof. intros Hn. eapply Forall_impl; [exact Hn|]. simpl. tauto. Qed.

Lemma split_slashes sl cs : slashes sl -> split [] (sl ++ cs) = split [] cs.
Proof. by induction 1 as [|c sl -> _ IH]. Qed.
Lemma split_plain acc nm cs : plain nm -> split acc (nm ++ cs) = split (acc ++ nm) cs.
Proof.
  intros Hnm. revert acc. induction Hnm as [|c nm [_ Hc] _ IH]; intros acc; simpl; [by rw app_nil_r|].
  destruct (Z.eqb_spec c SLASH); [done|]. by rw IH -app_assoc.
Qed.
Lemma components_cons sl nm cs :
  slashes sl -> plain nm -> nm <> [] -> components (sl ++ nm ++ SLASH :: cs) = nm :: components cs.
Proof. intros Hs Hn Hne. rw /components split_slashes // split_plain //=. by destruct nm. Qed.
Lemma components_last sl nm : slashes sl -> plain nm -> nm <> [] -> components (sl ++ nm) = [nm].
Proof. intros Hs Hn Hne. rw /components split_slashes // -(app_nil_r nm) split_plain //= app_nil_r. by destruct nm. Qed.

(** Every string is slashes, then nothing or a name that ends at the end of
    the string or at a slash. *)
Lemma name_split cs : chars cs -> exists nm rest, cs = nm ++ rest /\ plain nm /\ (rest = [] \/ exists r, rest = SLASH :: r /\ chars r).
Proof.
  induction 1 as [|c cs Hc Hcs IH]; [exists [], []; split_and!; [done|constructor|by left]|].
  destruct (decide (c = SLASH)) as [->|Hne]; [exists [], (SLASH :: cs); split_and!; [done|constructor|right; eauto]|].
  destruct IH as (nm & rest & -> & Hn & Hr). exists (c :: nm), rest. split_and!; [done|by constructor|done].
Qed.
Lemma path_split cs : chars cs ->
  slashes cs \/ exists sl nm rest, cs = sl ++ nm ++ rest /\ slashes sl /\ plain nm /\ nm <> [] /\ (rest = [] \/ exists r, rest = SLASH :: r /\ chars r).
Proof.
  induction 1 as [|c cs Hc Hcs IH]; [left; constructor|]. destruct (decide (c = SLASH)) as [->|Hne].
  - destruct IH as [Hs|(sl & nm & rest & -> & Hs & Hrest)]; [left; by constructor|]. right. exists (SLASH :: sl), nm, rest.
    split_and!; [done|by constructor|by destruct_and?..].
  - right. destruct (name_split cs Hcs) as (nm & rest & -> & Hn & Hr). exists [], (c :: nm), rest.
    split_and!; [done|constructor|by constructor|done|done].
Qed.

Lemma skip_slashes_spec sl c r : slashes sl -> c <> SLASH -> skip_slashes (sl ++ c :: r) = Ok (length sl).
Proof.
  intros Hs Hc. induction Hs as [|x sl -> _ IH]; simpl; [by destruct (Z.eqb_spec c SLASH)|]. by rw IH.
Qed.
Lemma name_length_spec nm c r : plain nm -> c = SLASH \/ c = 0 -> name_length (nm ++ c :: r) = Ok (length nm).
Proof.
  intros Hn Hc. induction Hn as [|x nm [H0 H1] _ IH]; simpl.
  - destruct Hc as [->| ->]; done.
  - destruct (Z.eqb_spec x SLASH); [done|]. destruct (Z.eqb_spec x 0); [done|]. simpl. by rw IH.
Qed.
Lemma string_at_spec cs r : chars cs -> string_at (cs ++ 0 :: r) = Ok cs.
Proof. induction 1 as [|c cs Hc _ IH]; simpl; [done|]. destruct (Z.eqb_spec c 0); [done|]. by rw IH. Qed.

Lemma byte_at_drop l i c r : drop i l = c :: r -> byte_at l i = Ok c.
Proof.
  intros Hd. rw /byte_at. assert (l !! i = Some c) as ->; [|done].
  rw -(Nat.add_0_r i) -lookup_drop Hd. done.
Qed.
Lemma drop_insert_at l i c r : drop i l = c :: r -> drop i (<[i := 0]> l) = 0 :: r /\ drop (S i) (<[i := 0]> l) = r /\ (i < length l)%nat.
Proof.
  intros Hd. assert (i < length l)%nat as Hi. { apply (f_equal length) in Hd. rw length_drop /= in Hd. lia. }
  split; [|split; [|done]].
  - rw drop_insert_ge // Nat.sub_diag Hd. done.
  - rw drop_insert_lt; [lia|]. rw -(Nat.add_1_r i) -drop_drop Hd //.
Qed.
End strings.

(** ** Tokens *)

(** [cs] is what is left of the path; [nm] is the last component. *)
Definition rest_is (d : lookupdata) (cs : list Z) : Prop :=
  exists l pos r, path d = Some l /\ position d = Some pos /\ drop pos l = cs ++ 0 :: r.
Definition component_is (d : lookupdata) (i : nat) (nm : list Z) : Prop :=
  exists l r, path d = Some l /\ drop i l = nm ++ 0 :: r.

Section tokens.
Implicit Types (s : lstate) (d : lookupdata) (cs nm sl : list Z).

Lemma path_token_none s sl :
  rest_is (ld s) sl -> slashes sl ->
  exists pos, path_token s = Ok (None, s <| ld := (ld s) <| position := Some pos |> <| separator := 0 |> |>).
Proof.
  intros (l & pos & r & Hl & Hp & Hd) Hs. rw /path_token /get_path /get_position. mrun. rw Hl Hp Hd skip_slashes_spec //.
  rw (byte_at_drop l _ 0 r); [|by eexists].
  rw -drop_drop Hd drop_app_length //.
Qed.

(** The next token: a name, and what is left. *)
Lemma path_token_some s sl nm rest :
  rest_is (ld s) (sl ++ nm ++ rest) -> slashes sl -> plain nm -> nm <> [] -> (rest = [] \/ exists r, rest = SLASH :: r) ->
  exists i l' pos', path_token s = Ok (Some i, s <| ld := (ld s) <| path := Some l' |> <| position := Some pos' |>
      <| separator := match rest with [] => 0 | _ => SLASH end |> |>) /\
    let d' := (ld s) <| path := Some l' |> <| position := Some pos' |> <| separator := match rest with [] => 0 | _ => SLASH end |> in
    component_is d' i nm /\ rest_is d' (drop 1 rest) /\ exists l0, path (ld s) = Some l0 /\ length l' = length l0.
Proof.
  intros (l & pos & r & Hl & Hp & Hd) Hs Hn Hne Hr. destruct nm as [|c nm]; [done|]. apply Forall_cons in Hn as Hn'. destruct Hn' as [[Hc0 Hcs] _].
  rw -!app_assoc in Hd. set x := match rest with [] => 0 | _ => SLASH end.
  assert (exists r', rest ++ 0 :: r = x :: r' /\ (rest = [] -> r' = r) /\ (rest <> [] -> r' = drop 1 rest ++ 0 :: r)) as (r' & Ex & Er1 & Er2).
  { destruct rest as [|y rest]; [by exists r|]. destruct Hr as [|[q [= -> ->]]]; [done|]. by exists (q ++ 0 :: r). }
  assert (x = SLASH \/ x = 0) as Hx by (rw /x; destruct rest; auto).
  rw Ex in Hd. set ch := (pos + length sl)%nat. assert (drop ch l = (c :: nm) ++ x :: r') as Hch by (rw /ch -drop_drop Hd drop_app_length //).
  set e := (ch + length (c :: nm))%nat. assert (drop e l = x :: r') as He by (rw /e -drop_drop Hch drop_app_length //).
  destruct (drop_insert_at l e x r' He) as (D1 & D2 & Hlt).
  exists ch, (<[e := 0]> l), (if x =? SLASH then S e else e). split; [|split_and!].
  - rw /path_token /get_path /get_position. mrun. rw Hl Hp Hd skip_slashes_spec //. rw -/ch (byte_at_drop l ch c (nm ++ x :: r')) //.
    destruct (Z.eqb_spec c 0); [done|]. rw Hch name_length_spec // -/e (byte_at_drop l e x r') // /store decide_True //.
    rw /upd_ld /modify. do 2 f_equal. destruct s as [[] ? ?]. simpl in *. subst. destruct Hx as [-> | ->]; done.
  - exists (<[e := 0]> l), r'. split; [done|]. rw drop_insert_ge; [rw /e; lia|]. rw Hch.
    replace (e - ch)%nat with (length (c :: nm) + 0)%nat by (rw /e; lia). rw insert_app_r. done.
  - exists (<[e := 0]> l), (if x =? SLASH then S e else e), r. split_and!; [done|done|].
    destruct rest as [|y rest]; [by rw /x /= D1 Er1|]. rw /x /= D2 Er2 //.
  - exists l. split; [done|]. by rw length_insert.
Qed.

Lemma is_last_run s cs : rest_is (ld s) cs -> chars cs -> is_last_component s = Ok (bool_decide (separator (ld s) = 0 \/ cs = []), s).
Proof.
  intros (l & pos & r & Hl & Hp & Hd) Hc. rw /is_last_component /get_path /get_position. mrun.
  destruct (Z.eqb_spec (separator (ld s)) 0) as [E|E]; [by rw bool_decide_true; [left|]|].
  rw Hl Hp. destruct cs as [|c cs].
  - rw (byte_at_drop l pos 0 r) // bool_decide_true //. by right.
  - rw (byte_at_drop l pos c (cs ++ 0 :: r)) // bool_decide_false; [intros [?|?]; done|].
    apply Forall_cons in Hc as [Hc _]. by destruct (Z.eqb_spec c 0).
Qed.
End tokens.

(** ** Walking *)
Section walk.
Context `{Vfs}.
Implicit Types (s : lstate) (d : lookupdata) (cs nm sl : list Z) (p v i : nat).

(** What a walk leaves alone. *)
Definition frame s s' : Prop :=
  path (ld s') = path (ld s) /\ position (ld s') = position (ld s) /\ separator (ld s') = separator (ld s) /\
  flags (ld s') = flags (ld s) /\ last_component (ld s') = last_component (ld s) /\ pages_freed s' = pages_freed s.

Definition result_ret (r : nat + errno) : ret := match r with inl _ => RVal 0 | inr e => RErr e end.
Definition result_vnode (r : nat + errno) : option nat := match r with inl v => Some v | inr _ => None end.
Definition nofollow d : bool := has (flags d) LOOKUP_NOFOLLOW.

Lemma cross_mount_run s v cs :
  vnode (ld s) = Some v -> rest_is (ld s) cs -> chars cs ->
  let r := mounted (bool_decide (separator (ld s) = 0 \/ cs = [])) (nofollow (ld s)) v in
  exists s', cross_mount v s = Ok (result_ret r, s') /\ vnode (ld s') = result_vnode r /\ parent (ld s') = parent (ld s) /\ frame s s'.
Proof.
  intros Hv Hr Hc r. rw /cross_mount /r /mounted. destruct (vnode_mounted_here v) as [m|]; last by exists s.
  rw {1}/mbind {1}/M_bind (is_last_run s cs Hr Hc). mrun. rw /nofollow. destruct (_ && _ && _).
  - destruct controlling_tty as [t|]; by eexists.
  - by eexists.
Qed.

Lemma walk_name_run s p nm r cs :
  parent (ld s) = Some p -> chars nm -> rest_is (ld s) cs -> chars cs ->
  let o := find_name (bool_decide (separator (ld s) = 0 \/ cs = [])) (nofollow (ld s)) p nm in
  exists s', walk_name (nm ++ 0 :: r) s = Ok (result_ret o, s') /\ vnode (ld s') = result_vnode o /\ frame s s'.
Proof.
  intros Hp Hn Hr Hc o. rw /walk_name {1}/mbind {1}/M_bind {1}/gets Hp {1}/mbind {1}/M_bind {1}/lift string_at_spec // /o /find_name.
  destruct (vfs_lookup p nm) as [v|e]; [|by eexists].
  set s1 := s <| ld ::= fun d => d <| vnode := Some v |> |> <| refs ::= cons v |>.
  destruct (cross_mount_run s1 v cs) as (s' & Hrun & Hv & _ & Hf); [done|exact Hr|done|].
  exists s'. split; [|split; [exact Hv|exact Hf]]. rw -Hrun. done.
Qed.

Lemma StrCmp_eq nm ds r : chars nm -> chars ds -> exists c : Z, StrCmp (nm ++ 0 :: r) (ds ++ [0]) = Ok c /\ (c =? 0) = bool_decide (nm = ds).
Proof.
  intros Hn Hd. destruct (StrCmp_spec nm ds r [] Hn Hd) as (c & E & Hc & _). exists c. split; [done|].
  destruct (Z.eqb_spec c 0); case_bool_decide; tauto.
Qed.

Lemma walk_component_run s p i nm cs :
  parent (ld s) = Some p -> vnode (ld s) = None -> last_component (ld s) = Some i -> component_is (ld s) i nm -> chars nm ->
  rest_is (ld s) cs -> chars cs ->
  let o := walk1 (bool_decide (separator (ld s) = 0 \/ cs = [])) (nofollow (ld s)) p nm in
  exists s', walk_component s = Ok (result_ret o, s') /\ vnode (ld s') = result_vnode o /\ frame s s'.
Proof.
  intros Hp Hv Hl (l & r & Hpath & Hd) Hn Hr Hc o. rw /walk_component {1}/mbind {1}/M_bind {1}/gets Hp Hv Hl /o /walk1.
  destruct (is_dir p); [|by exists s]. simpl. rw /get_path. mrun. rw Hpath Hd.
  destruct (StrCmp_eq nm [DOT] r Hn) as (c1 & E1 & D1); [repeat constructor; done|]. rw E1 D1.
  destruct (decide (nm = [DOT])) as [Edot|Ndot]; [rw bool_decide_true //; by eexists|rw bool_decide_false //].
  destruct (StrCmp_eq nm [DOT; DOT] r Hn) as (c2 & E2 & D2); [repeat constructor; done|]. rw E2 D2.
  destruct (decide (nm = [DOT; DOT])) as [Edd|Ndd]; [rw bool_decide_true //|rw bool_decide_false //; by apply walk_name_run].
  destruct (decide (Some p = root_vnode)) as [Er|Nr]; [rw -Er; by eexists|].
  destruct (vnode_covered p) as [t|]; [|by apply walk_name_run]. simpl.
  set s1 := s <| refs ::= cons t |> <| ld ::= fun d => d <| parent := Some t |> |>.
  destruct (walk_name_run s1 t nm r cs) as (s' & Hrun & H1 & H2); [done|done|exact Hr|done|].
  exists s'. split; [exact Hrun|]. split; [exact H1|exact H2].
Qed.

(** A path that names something and does not end in two slashes. *)
Definition proper cs : Prop := components cs <> [] /\ forall x, cs <> x ++ [SLASH; SLASH].

Lemma components_slashes cs : slashes cs -> components cs = [].
Proof. intros Hs. by rw /components -(app_nil_r cs) split_slashes. Qed.

Lemma proper_next a cs : chars cs -> proper (a ++ SLASH :: cs) -> cs <> [] -> proper cs.
Proof.
  intros Hc [_ Hend] Hne. split.
  - intros E. destruct (path_split cs Hc) as [Hs|(sl & nm & rest & -> & Hs & Hn & Hnn & [->|(r & -> & _)])].
    + destruct cs as [|c cs _] using rev_ind; [done|]. apply Forall_app in Hs as [Hs Hc1]. apply Forall_cons in Hc1 as [-> _].
      destruct cs as [|c cs _] using rev_ind; [by apply (Hend a)|]. apply Forall_app in Hs as [_ Hc2]. apply Forall_cons in Hc2 as [-> _].
      apply (Hend (a ++ SLASH :: cs)). by rw -!app_assoc.
    + by rw app_nil_r components_last in E.
    + by rw components_cons in E.
  - intros x ->. apply (Hend (a ++ SLASH :: x)). by rw -app_assoc.
Qed.

Lemma resolve_snoc nf p pre nm :
  resolve nf p (pre ++ [nm]) = match walk_dirs nf p pre with inl q => walk1 true nf q nm | inr e => inr e end.
Proof.
  revert p. induction pre as [|c pre IH]; intros p; [done|]. simpl. destruct (pre ++ [nm]) eqn:E; [by destruct pre|].
  destruct (walk1 false nf p c); [apply IH|done].
Qed.

Lemma split_chars cs : forall acc, chars acc -> chars cs -> Forall chars (split acc cs).
Proof.
  induction cs as [|c cs IH]; intros acc Ha Hc; simpl.
  - destruct acc; [apply Forall_nil_2|]. apply Forall_cons. split; [done|apply Forall_nil_2].
  - apply Forall_cons in Hc as [Hc Hcs]. assert (chars []) as Hnil by apply Forall_nil_2. destruct (Z.eqb_spec c SLASH).
    + destruct acc; [by apply IH|]. apply Forall_cons. split; [done|by apply IH].
    + apply IH; [|done]. apply Forall_app. split; [done|]. apply Forall_cons. by split.
Qed.
Lemma components_chars cs : chars cs -> Forall chars (components cs).
Proof. apply split_chars. constructor. Qed.

(** Where the loop stops: [nm] is the component still to be walked. *)
Definition stopped_at s nm : Prop :=
  exists i cs, last_component (ld s) = Some i /\ component_is (ld s) i nm /\ rest_is (ld s) cs /\ chars cs /\ (separator (ld s) = 0 \/ cs = []).

(** One turn of the loop on a path that starts with a name: it stops there, or
    walks into it. *)
Lemma loop_turn fuel s sl nm rest v :
  rest_is (ld s) (sl ++ nm ++ rest) -> chars (sl ++ nm ++ rest) -> slashes sl -> plain nm -> nm <> [] ->
  (rest = [] \/ exists r, rest = SLASH :: r) -> vnode (ld s) = Some v ->
  exists s1, rest_is (ld s1) (drop 1 rest) /\ flags (ld s1) = flags (ld s) /\ pages_freed s1 = pages_freed s /\ is_Some (path (ld s1)) /\
    if decide (drop 1 rest = []) then
      lookup_path_loop (S fuel) s = Ok (RVal 0, s1) /\ vnode (ld s1) = Some v /\ stopped_at s1 nm
    else match walk1 false (nofollow (ld s)) v nm with
         | inl q => lookup_path_loop (S fuel) s = lookup_path_loop fuel s1 /\ vnode (ld s1) = Some q
         | inr e => lookup_path_loop (S fuel) s = Ok (RErr e, s1) /\ vnode (ld s1) = None /\ parent (ld s1) = None
         end.
Proof.
  intros Hrest Hcs Hs Hn Hnn Hr Hv.
  destruct (path_token_some s sl nm rest Hrest Hs Hn Hnn Hr) as (i & l' & pos' & Htok & Hcomp & Hrest' & _).
  set d' := (ld s) <| path := Some l' |> <| position := Some pos' |> <| separator := _ |> in Htok, Hcomp, Hrest'.
  set s1 := s <| ld := d' <| last_component := Some i |> <| parent := None |> |>.
  assert (chars (drop 1 rest)) as Hcr by (apply Forall_drop; by apply Forall_app in Hcs as [_ [_ ?]%Forall_app]).
  assert (rest_is (ld s1) (drop 1 rest)) as Hrest1 by exact Hrest'.
  assert (lookup_path_loop (S fuel) s =
    (last ← is_last_component;
     if (last : bool) then mret (RVal 0)
     else
       _ ← upd_ld (fun d => d <| parent := vnode d |> <| vnode := None |>);
       rc ← walk_component;
       if decide (rc = RVal 0) then lookup_path_loop fuel
       else d ← gets ld; _ ← vnode_put (parent d); _ ← upd_ld (fun d => d <| parent := None |>); mret rc) s1) as Hloop.
  { cbn [lookup_path_loop]. rw {1}/mbind {1}/M_bind Htok. rw {1}/mbind {1}/M_bind {1}/upd_ld {1}/modify {1}/mbind {1}/M_bind {1}/gets.
    rw {1}/mbind {1}/M_bind. assert (forall m : lstate -> outcome (unit * lstate), forall k s2, m s2 = Ok (tt, s1) ->
      match m s2 with Ok (a, s') => k a s' | Panic => Panic | Fault => Fault end = k tt s1 :> outcome (ret * lstate)) as Hm by (by intros m k s2 ->).
    apply Hm. rw /s1. destruct s as [[? ? par ? ? ? ? ?] ? ?]. simpl. by destruct par. }
  rw {1}/mbind {1}/M_bind (is_last_run s1 _ Hrest1 Hcr) in Hloop. destruct (decide (drop 1 rest = [])) as [Enil|Hne].
  - rw bool_decide_true in Hloop; [by right|]. exists s1. split_and!; [done|done|done|by eexists|done|exact Hv|].
    exists i, (drop 1 rest). split_and!; [done|exact Hcomp|exact Hrest1|done|by right].
  - assert (separator (ld s1) <> 0) as Hsep by (by destruct Hr as [->|[r ->]]).
    rw bool_decide_false in Hloop; [by intros [?|?]|]. rw {1}/mbind {1}/M_bind {1}/upd_ld {1}/modify {1}/mbind {1}/M_bind in Hloop.
    set s2 := s1 <| ld ::= fun d => d <| parent := vnode d |> <| vnode := None |> |> in Hloop.
    destruct (walk_component_run s2 v i nm (drop 1 rest)) as (s3 & Hw & Hv3 & (F1 & F2 & F3 & F4 & F5 & F6));
      [exact Hv|done|done|exact Hcomp|by apply plain_chars|exact Hrest1|done|].
    rw bool_decide_false in Hw Hv3; [by intros [?|?]|]. rw Hw in Hloop. change (nofollow (ld s2)) with (nofollow (ld s)) in Hv3, Hloop.
    assert (rest_is (ld s3) (drop 1 rest)) as Hrest3. { destruct Hrest1 as (l & pos & r & ? & ? & ?). exists l, pos, r. by rw F1 F2. }
    destruct (walk1 false (nofollow (ld s)) v nm) as [q|e] eqn:Ew; simpl in Hloop.
    + exists s3. rw F1 F4 F6. split_and!; [done|done|done|by eexists|done|exact Hv3].
    + exists (s3 <| ld ::= fun d => d <| parent := None |> |>). split_and!; [exact Hrest3|by rw /= F4|by rw /= F6|by rw /= F1; eexists|done|exact Hv3|done].
Qed.

Lemma lookup_path_loop_run fuel : forall s cs v,
  (length cs < fuel)%nat -> rest_is (ld s) cs -> chars cs -> proper cs -> vnode (ld s) = Some v ->
  exists pre nm s', components cs = pre ++ [nm] /\ chars nm /\
    let o := walk_dirs (nofollow (ld s)) v pre in
    lookup_path_loop fuel s = Ok (result_ret o, s') /\ flags (ld s') = flags (ld s) /\ pages_freed s' = pages_freed s /\ is_Some (path (ld s')) /\
    match o with inl q => vnode (ld s') = Some q /\ stopped_at s' nm | inr _ => vnode (ld s') = None /\ parent (ld s') = None end.
Proof.
  induction fuel as [|fuel IH]; intros s cs v Hlen Hrest Hcs Hpr Hv; [lia|].
  destruct (path_split cs Hcs) as [Hs|(sl & nm & rest & -> & Hs & Hn & Hnn & Hr)].
  { destruct Hpr as [Hpr _]. by rw components_slashes in Hpr. }
  assert (rest = [] \/ exists r, rest = SLASH :: r) as Hr' by (destruct Hr as [|(r & ? & _)]; eauto).
  destruct (loop_turn fuel s sl nm rest v Hrest Hcs Hs Hn Hnn Hr' Hv) as (s1 & Hrest1 & F1 & F2 & F3 & Hturn).
  destruct (decide (drop 1 rest = [])) as [Enil|Hne].
  - exists [], nm, s1. destruct Hturn as (T1 & T2 & T3). split; [|split; [by apply plain_chars|by split_and!]].
    destruct Hr as [->|(r & -> & _)]; [by rw app_nil_r components_last|]. destruct r; [|done]. by rw components_cons.
  - destruct Hr as [->|(cs' & -> & Hcs')]; [done|]. simpl in Hrest1, Hne. rw components_cons //.
    assert (proper cs') as Hpr'. { apply (proper_next (sl ++ nm)); [done| |done]. by rw -app_assoc. }
    destruct (walk1 false (nofollow (ld s)) v nm) as [q|e] eqn:Ew; destruct Hturn as (T1 & T2); rw T1.
    + destruct (IH s1 cs' q) as (pre & nm' & s' & Hc & Hn' & Hrun); [rw !length_app /= in Hlen; lia|done|done|done|exact T2|].
      exists (nm :: pre), nm', s'. rw Hc. split; [done|]. split; [done|]. simpl. rw Ew.
      assert (nofollow (ld s1) = nofollow (ld s)) as En by (by rw /nofollow F1). rw En in Hrun. destruct Hrun as (R1 & R2 & R3 & R4 & R5).
      split_and!; [exact R1|by rw R2 F1|by rw R3 F2|done|done].
    + destruct (exists_last (proj1 Hpr')) as (pre & nm' & Ec). pose proof (components_chars cs' Hcs') as Hall. rw Ec in Hall.
      apply Forall_app in Hall as [_ [Hn' _]%Forall_cons]. exists (nm :: pre), nm', s1.
      rw Ec. split; [done|]. split; [done|]. simpl. rw Ew. destruct T2. by split_and!.
Qed.

(** A path of slashes only, or one that ends in two of them. *)
Definition improper cs : Prop := slashes cs \/ exists x, cs = x ++ [SLASH; SLASH].

Lemma improper_next a cs : (exists x, a ++ SLASH :: cs = x ++ [SLASH; SLASH]) -> cs <> [] -> improper cs.
Proof.
  intros [x E] Hcs. destruct cs as [|c1 cs _] using rev_ind; [done|]. destruct cs as [|c2 cs _] using rev_ind.
  - left. rw app_comm_cons app_assoc in E. change (x ++ [SLASH; SLASH]) with (x ++ [SLASH] ++ [SLASH]) in E. rw app_assoc in E.
      apply app_inj_tail in E as [_ ->]. by constructor.
  - right. exists cs. rw -app_assoc. f_equal. change (x ++ [SLASH; SLASH]) with (x ++ [SLASH] ++ [SLASH]) in E.
      rw app_assoc app_comm_cons !app_assoc in E. apply app_inj_tail in E as [E ->].
      rw app_comm_cons app_assoc in E. by apply app_inj_tail in E as [_ ->].
Qed.

Lemma lookup_path_loop_improper fuel : forall s cs v,
  (length cs < fuel)%nat -> rest_is (ld s) cs -> chars cs -> improper cs -> vnode (ld s) = Some v ->
  exists s', lookup_path_loop fuel s =
      Ok (RErr (match walk_dirs (nofollow (ld s)) v (components cs) with inl _ => EINVAL | inr e => e end), s') /\
    pages_freed s' = pages_freed s /\ is_Some (path (ld s')).
Proof.
  induction fuel as [|fuel IH]; intros s cs v Hlen Hrest Hcs Him Hv; [lia|].
  destruct (path_split cs Hcs) as [Hs|(sl & nm & rest & -> & Hs & Hn & Hnn & Hr)].
  { rw components_slashes //=. destruct (path_token_none s cs Hrest Hs) as (pos & Htok).
    eexists. rw {1}/mbind {1}/M_bind Htok. split; [done|]. split; [done|]. destruct Hrest as (l & ? & ? & Hl & _). simpl. rw Hl. by eexists. }
  assert (rest = [] \/ exists r, rest = SLASH :: r) as Hr' by (destruct Hr as [|(r & ? & _)]; eauto).
  destruct (loop_turn fuel s sl nm rest v Hrest Hcs Hs Hn Hnn Hr' Hv) as (s1 & Hrest1 & F1 & F2 & F3 & Hturn).
  destruct (decide (drop 1 rest = [])) as [Enil|Hne].
  { exfalso. destruct Him as [Hsl|[x E]].
    - apply Forall_app in Hsl as [_ [Hsl _]%Forall_app]. destruct nm; [done|]. apply Forall_cons in Hsl as [-> _]. by apply Forall_cons in Hn as [[_ ?] _].
    - destruct nm as [|c nm _] using rev_ind; [done|]. apply Forall_app in Hn as [_ [[_ Hc] _]%Forall_cons].
      destruct Hr as [->|(r & -> & _)]; [|destruct r; [|done]].
      + rw app_nil_r app_assoc in E. change (x ++ [SLASH; SLASH]) with (x ++ [SLASH] ++ [SLASH]) in E. rw app_assoc in E. by apply app_inj_tail in E as [_ ?].
      + change (x ++ [SLASH; SLASH]) with (x ++ [SLASH] ++ [SLASH]) in E. rw !app_assoc in E. apply app_inj_tail in E as [E _]. by apply app_inj_tail in E as [_ ?]. }
  destruct Hr as [->|(cs' & -> & Hcs')]; [done|]. change (drop 1 (SLASH :: cs')) with cs' in Hrest1, Hne. rw components_cons //.
  assert (improper cs') as Him'.
  { destruct Him as [Hsl|Hx]; [|apply (improper_next (sl ++ nm)); [by rw -app_assoc|done]].
    exfalso. apply Forall_app in Hsl as [_ [Hsl _]%Forall_app]. destruct nm; [done|]. apply Forall_cons in Hsl as [-> _]. by apply Forall_cons in Hn as [[_ ?] _]. }
  cbn [walk_dirs]. destruct (walk1 false (nofollow (ld s)) v nm) as [q|e] eqn:Ew; destruct Hturn as (T1 & T2); rw T1.
  - destruct (IH s1 cs' q) as (s' & R1 & R2 & R3); [rw !length_app /= in Hlen; lia|done|done|done|exact T2|].
    exists s'. assert (nofollow (ld s1) = nofollow (ld s)) as En by (by rw /nofollow F1). rw En in R1. split_and!; [exact R1|by rw R2 F2|done].
  - by exists s1.
Qed.

(** ** The whole lookup *)

(** The directory the search starts at. *)
Definition start_of cs : option nat :=
  match cs with c :: _ => if c =? SLASH then root_vnode else current_dir | [] => current_dir end.

(** The loop over trailing separators starts at the NUL and so ends at once. *)
Lemma strip_trailing_noop cs r : strip_trailing (length cs) (cs ++ 0 :: r) = Ok (cs ++ 0 :: r).
Proof.
  destruct (length cs) as [|n] eqn:E; [done|]. cbn [strip_trailing].
  rw (byte_at_drop (cs ++ 0 :: r) (S n) 0 r) //. rw -E drop_app_length //.
Qed.

Lemma init_lookup_run s pg cs r kp fl v :
  pg <> [] -> has fl LOOKUP_KERNEL = false -> chars cs -> start_of cs = Some v -> is_dir v = true ->
  exists s', init_lookup (Some pg) (Some (cs ++ 0 :: r)) kp fl s = Ok (RVal 0, s') /\
    path (ld s') = Some (cs ++ 0 :: r) /\ position (ld s') = Some O /\ start_vnode (ld s') = Some v /\ flags (ld s') = fl /\
    pages_freed s' = pages_freed s.
Proof.
  intros Hpg Hk Hc Hst Hd. destruct pg as [|b pg]; [done|]. rw /init_lookup /store. mrun. rw Hk StrLen_spec // strip_trailing_noop.
  assert (byte_at (cs ++ 0 :: r) 0 = Ok (default 0 (head cs))) as -> by (by destruct cs).
  assert ((if default 0 (head cs) =? SLASH then root_vnode else current_dir) = Some v) as Es by (by destruct cs).
  rw Es Hd /=. by eexists.
Qed.

(** [lookup_path] after [init_lookup]. *)
Lemma lookup_path_start s cs r v :
  path (ld s) = Some (cs ++ 0 :: r) -> position (ld s) = Some O -> start_vnode (ld s) = Some v ->
  exists s1 n, lookup_path s = lookup_path_loop n s1 /\ (length cs < n)%nat /\ rest_is (ld s1) cs /\ vnode (ld s1) = Some v /\
    flags (ld s1) = flags (ld s) /\ pages_freed s1 = pages_freed s.
Proof.
  intros Hp Hpos Hst. rw /lookup_path /get_path. mrun. rw Hst bool_decide_true; [by eexists|]. rw /upd_ld /vnode_ref /modify.
  match goal with |- context [path (ld ?x)] => change (path (ld x)) with (path (ld s)) end. rw Hp.
  eexists _, _. split; [reflexivity|]. split_and!; [rw length_app /=; lia| |exact Hst|done|done]. by exists (cs ++ 0 :: r), O, r.
Qed.

Lemma is_root_path_run s cs r : path (ld s) = Some (cs ++ 0 :: r) -> chars cs -> is_root_path s = Ok (bool_decide (cs = [SLASH]), s).
Proof.
  intros Hp Hc. rw /is_root_path /get_path. mrun. rw Hp. destruct cs as [|c [|c' cs]]; cbn.
  - done.
  - destruct (Z.eqb_spec c SLASH) as [->|Hne]; [done|]. rw bool_decide_false //. congruence.
  - apply Forall_cons in Hc as [_ [Hc' _]%Forall_cons]. rw bool_decide_false //. destruct (c =? SLASH); [|done]. by destruct (Z.eqb_spec c' 0).
Qed.

Lemma proper_not_root cs : proper cs -> cs <> [SLASH].
Proof. by intros [Hn _] ->. Qed.

(** The last component, when the loop has stopped before it. *)
Lemma lookup_last_run s q nm :
  parent (ld s) = Some q -> vnode (ld s) = None -> stopped_at s nm -> chars nm ->
  let o := walk1 true (nofollow (ld s)) q nm in
  exists s', lookup_last_component s = Ok (result_ret o, s') /\ vnode (ld s') = result_vnode o /\ pages_freed s' = pages_freed s /\
    path (ld s') = path (ld s).
Proof.
  intros Hp Hv (i & cs & Hl & Hc & Hr & Hcs & Hlast) Hn o. rw /lookup_last_component. mrun. rw Hp Hl bool_decide_true; [by eexists|]. simpl.
  destruct (walk_component_run s q i nm cs Hp Hv Hl Hc Hn Hr Hcs) as (s' & Hw & Hv' & F1 & _ & _ & _ & _ & F6).
  rw bool_decide_true // in Hw Hv'. by exists s'.
Qed.

(** A proper path, from a directory: the walk of its components. *)
Lemma lookup_proper s pg cs r kp fl v :
  pg <> [] -> chars cs -> proper cs -> start_of cs = Some v -> is_dir v = true -> fl = 0 \/ fl = LOOKUP_NOFOLLOW ->
  let nf := has fl LOOKUP_NOFOLLOW in
  (exists s', lookup (Some pg) (Some (cs ++ 0 :: r)) kp fl s = Ok (result_ret (resolve nf v (components cs)), s') /\
     vnode (ld s') = result_vnode (resolve nf v (components cs)) /\ parent (ld s') = None /\
     pages_freed s' = pages_freed s /\ is_Some (path (ld s'))) /\
  (exists pre nm s', components cs = pre ++ [nm] /\
     let o := walk_dirs nf v pre in
     lookup (Some pg) (Some (cs ++ 0 :: r)) kp (Z.lor LOOKUP_PARENT fl) s = Ok (result_ret o, s') /\
     vnode (ld s') = match o with inl q => result_vnode (walk1 true nf q nm) | inr _ => None end /\
     pages_freed s' = pages_freed s /\ is_Some (path (ld s'))).
Proof.
  intros Hpg Hcs Hpr Hst Hd Hfl nf.
  assert (forall f, has f LOOKUP_KERNEL = false -> has f LOOKUP_NOFOLLOW = nf ->
    exists s1, init_lookup (Some pg) (Some (cs ++ 0 :: r)) kp f s = Ok (RVal 0, s1) /\ is_root_path s1 = Ok (false, s1) /\
      exists pre nm s', components cs = pre ++ [nm] /\ chars nm /\ let o := walk_dirs nf v pre in
        lookup_path s1 = Ok (result_ret o, s') /\ flags (ld s') = f /\ pages_freed s' = pages_freed s /\ is_Some (path (ld s')) /\
        match o with inl q => vnode (ld s') = Some q /\ stopped_at s' nm | inr _ => vnode (ld s') = None /\ parent (ld s') = None end) as Hgo.
  { intros f Hk Hnf. destruct (init_lookup_run s pg cs r kp f v Hpg Hk Hcs Hst Hd) as (s1 & Hi & Hp1 & Hpos1 & Hs1 & Hf1 & Hpf1).
    exists s1. split; [done|]. split. { rw (is_root_path_run s1 cs r) // bool_decide_false //. by apply proper_not_root. }
    destruct (lookup_path_start s1 cs r v Hp1 Hpos1 Hs1) as (s2 & n & Hl & Hlen & Hr2 & Hv2 & Hf2 & Hpf2).
    destruct (lookup_path_loop_run n s2 cs v Hlen Hr2 Hcs Hpr Hv2) as (pre & nm & s' & Hc & Hn & Hrun). exists pre, nm, s'. split; [done|]. split; [done|].
    assert (nofollow (ld s2) = nf) as En by (by rw /nofollow Hf2 Hf1). rw En in Hrun. destruct Hrun as (R1 & R2 & R3 & R4 & R5).
    cbv zeta. rw Hl R2 R3 Hf2 Hf1 Hpf2 Hpf1. by split_and!. }
  split.
  - destruct (Hgo fl) as (s1 & Hi & Hroot & pre & nm & s2 & Hc & Hn & Hrun); [by destruct Hfl as [->| ->]|done|].
    destruct Hrun as (R1 & R2 & R3 & R4 & R5). rw Hc resolve_snoc.
    assert (has fl LOOKUP_PARENT = false /\ has fl LOOKUP_REMOVE = false) as [E1 E2] by (by destruct Hfl as [->| ->]).
    rw /lookup {1}/mbind {1}/M_bind Hi. cbv beta iota. destruct (decide (RVal 0 <> RVal 0)) as [Hx|_]; [by destruct Hx|].
    rw E1 E2 {1}/mbind {1}/M_bind Hroot {1}/mbind {1}/M_bind R1. cbv beta iota. destruct (walk_dirs nf v pre) as [q|e].
    + destruct (decide (result_ret (inl q) <> RVal 0)) as [Hx|_]; [by destruct Hx|]. destruct R5 as [Hv2 Hat].
      set s3 := s2 <| ld ::= fun d => d <| parent := vnode d |> <| vnode := None |> |>.
      destruct (lookup_last_run s3 q nm) as (s4 & L1 & L2 & L3 & L4); [exact Hv2|done|exact Hat|done|].
      assert (nofollow (ld s3) = nf) as En by (by rw /nofollow /= R2). rw En in L1 L2.
      exists (s4 <| ld ::= fun d => d <| parent := None |> |>). split_and!; [|exact L2|done|by rw /= L3 R3|by rw /= L4].
      rw {1}/mbind {1}/M_bind {1}/upd_ld {1}/modify -/s3 {1}/mbind {1}/M_bind {1}/gets {1}/mbind {1}/M_bind.
      rw bool_decide_true; [by rw /= Hv2; eexists|]. rw {1}/kassert {1}/mret {1}/M_ret {1}/mbind {1}/M_bind L1. done.
    + destruct (decide (result_ret (inr e) <> RVal 0)) as [_|Hx]; [|by destruct Hx]. exists s2. destruct R5. by split_and!.
  - destruct (Hgo (Z.lor LOOKUP_PARENT fl)) as (s1 & Hi & Hroot & pre & nm & s2 & Hc & Hn & Hrun); [by destruct Hfl as [->| ->]|by destruct Hfl as [->| ->]|].
    destruct Hrun as (R1 & R2 & R3 & R4 & R5). exists pre, nm.
    assert (has (Z.lor LOOKUP_PARENT fl) LOOKUP_PARENT = true) as E1 by (by destruct Hfl as [->| ->]).
    rw /lookup {1}/mbind {1}/M_bind Hi. cbv beta iota. destruct (decide (RVal 0 <> RVal 0)) as [Hx|_]; [by destruct Hx|].
    rw E1 {1}/mbind {1}/M_bind Hroot {1}/mbind {1}/M_bind R1. cbv beta iota. destruct (walk_dirs nf v pre) as [q|e].
    + destruct (decide (result_ret (inl q) <> RVal 0)) as [Hx|_]; [by destruct Hx|]. destruct R5 as [Hv2 Hat].
      set s3 := s2 <| ld ::= fun d => d <| parent := vnode d |> <| vnode := None |> |>.
      destruct (lookup_last_run s3 q nm) as (s4 & L1 & L2 & L3 & L4); [exact Hv2|done|exact Hat|done|].
      assert (nofollow (ld s3) = nf) as En by (rw /nofollow /= R2; by destruct Hfl as [->| ->]). rw En in L1 L2.
      exists s4. split; [done|]. split_and!; [|exact L2|by rw L3 /= R3|by rw L4].
      rw {1}/mbind {1}/M_bind {1}/upd_ld {1}/modify -/s3 {1}/mbind {1}/M_bind L1. done.
    + destruct (decide (result_ret (inr e) <> RVal 0)) as [_|Hx]; [|by destruct Hx]. exists s2. split; [done|]. destruct R5. by split_and!.
Qed.

(** Slashes at the end of a path are not removed: a path that ends in two
    of them, or has nothing else, fails with -EINVAL even when every component
    is found (or with the error of the first that is not). *)
Theorem lookup_trailing_slashes s pg cs r kp fl v :
  pg <> [] -> chars cs -> improper cs -> cs <> [SLASH] -> start_of cs = Some v -> is_dir v = true -> fl = 0 \/ fl = LOOKUP_NOFOLLOW \/ fl = LOOKUP_PARENT \/ fl = Z.lor LOOKUP_PARENT LOOKUP_NOFOLLOW ->
  exists s', lookup (Some pg) (Some (cs ++ 0 :: r)) kp fl s =
      Ok (RErr (match walk_dirs (has fl LOOKUP_NOFOLLOW) v (components cs) with inl _ => EINVAL | inr e => e end), s') /\
    pages_freed s' = pages_freed s /\ is_Some (path (ld s')).
Proof.
  intros Hpg Hcs Him Hroot Hst Hd Hfl.
  assert (has fl LOOKUP_KERNEL = false /\ has fl LOOKUP_REMOVE = false) as [Ek Er] by (by destruct Hfl as [->|[->|[->| ->]]]).
  destruct (init_lookup_run s pg cs r kp fl v Hpg Ek Hcs Hst Hd) as (s1 & Hi & Hp1 & Hpos1 & Hs1 & Hf1 & Hpf1).
  destruct (lookup_path_start s1 cs r v Hp1 Hpos1 Hs1) as (s2 & n & Hl & Hlen & Hr2 & Hv2 & Hf2 & Hpf2).
  destruct (lookup_path_loop_improper n s2 cs v Hlen Hr2 Hcs Him Hv2) as (s' & R1 & R2 & R3).
  assert (nofollow (ld s2) = has fl LOOKUP_NOFOLLOW) as En by (by rw /nofollow Hf2 Hf1). rw En in R1.
  exists s'. split; [|split; [by rw R2 Hpf2|done]].
  rw /lookup {1}/mbind {1}/M_bind Hi. cbv beta iota. destruct (decide (RVal 0 <> RVal 0)) as [Hx|_]; [by destruct Hx|]. rw Er.
  pose proof (is_root_path_run s1 cs r Hp1 Hcs) as Hrp. rw bool_decide_false // in Hrp.
  destruct (has fl LOOKUP_PARENT); rw {1}/mbind {1}/M_bind Hrp {1}/mbind {1}/M_bind Hl R1; cbv beta iota; by destruct (decide _) as [_|Hx]; [|by destruct Hx].
Qed.

(** ** What a path names *)
Definition ends_in_two cs : bool := match rev cs with c :: c' :: _ => (c =? SLASH) && (c' =? SLASH) | _ => false end.
(** Slashes at the end that are not removed, or no name at all. *)
Definition nameless cs : bool := ends_in_two cs || bool_decide (components cs = []).
Definition no_name (nf : bool) (v : nat) cs : nat + errno := match walk_dirs nf v (components cs) with inl _ => inr EINVAL | inr e => inr e end.
(** The vnode, and the directory that has it: the search from [v]. *)
Definition named (nf : bool) (v : nat) cs : nat + errno :=
  if negb (is_dir v) then inr ENOTDIR else if decide (cs = [SLASH]) then inl v
  else if nameless cs then no_name nf v cs else resolve nf v (components cs).
Definition parent_of (nf : bool) (v : nat) cs : nat + errno :=
  if negb (is_dir v) then inr ENOTDIR else if decide (cs = [SLASH]) then inr EINVAL
  else if nameless cs then no_name nf v cs else walk_dirs nf v (removelast (components cs)).

Lemma ends_in_two_true cs : ends_in_two cs = true -> exists x, cs = x ++ [SLASH; SLASH].
Proof.
  rw /ends_in_two. destruct (rev cs) as [|c [|c' l]] eqn:E; try done. intros [->%Z.eqb_eq ->%Z.eqb_eq]%andb_true_iff. exists (rev l).
  rw -(rev_involutive cs) E /=. by rw -app_assoc.
Qed.
Lemma nameless_spec cs : chars cs -> if nameless cs then improper cs else proper cs.
Proof.
  intros Hc. rw /nameless. destruct (ends_in_two cs) eqn:E; simpl; [right; by apply ends_in_two_true|]. case_bool_decide as Hn.
  - left. destruct (path_split cs Hc) as [|(sl & nm & rest & -> & Hs & Hp & Hne & [->|(r & -> & _)])]; [done|by rw app_nil_r components_last in Hn|by rw components_cons in Hn].
  - split; [done|]. intros x ->. by rw /ends_in_two rev_app_distr in E.
Qed.
(** The search starts at something that is no directory. *)
Lemma lookup_no_dir s pg cs r kp fl v : pg <> [] -> has fl LOOKUP_KERNEL = false -> chars cs -> start_of cs = Some v -> is_dir v = false ->
  exists s', lookup (Some pg) (Some (cs ++ 0 :: r)) kp fl s = Ok (RErr ENOTDIR, s') /\ pages_freed s' = S (pages_freed s) /\ is_Some (path (ld s')).
Proof.
  intros Hpg Hk Hc Hst Hd. destruct pg as [|b pg]; [done|].
  assert (exists s', init_lookup (Some (b :: pg)) (Some (cs ++ 0 :: r)) kp fl s = Ok (RErr ENOTDIR, s') /\ pages_freed s' = S (pages_freed s) /\ is_Some (path (ld s'))) as (s' & Hi & Hrest).
  { rw /init_lookup /store. mrun. rw Hk StrLen_spec // strip_trailing_noop. assert (byte_at (cs ++ 0 :: r) 0 = Ok (default 0 (head cs))) as -> by (by destruct cs).
    assert ((if default 0 (head cs) =? SLASH then root_vnode else current_dir) = Some v) as -> by (by destruct cs). rw Hd /=. eexists. split_and!; [done|done|by eexists]. }
  exists s'. split; [|done]. rw /lookup {1}/mbind {1}/M_bind Hi. cbv beta iota. by destruct (decide (RErr ENOTDIR <> RVal 0)) as [_|Hx]; [|destruct Hx].
Qed.
(** The path "/". *)
Lemma lookup_root s pg r kp fl v : pg <> [] -> fl = 0 \/ fl = LOOKUP_NOFOLLOW -> root_vnode = Some v -> is_dir v = true ->
  (exists s', lookup (Some pg) (Some ([SLASH] ++ 0 :: r)) kp fl s = Ok (RVal 0, s') /\ vnode (ld s') = Some v /\ parent (ld s') = None /\ pages_freed s' = pages_freed s /\ is_Some (path (ld s'))) /\
  (exists s', lookup (Some pg) (Some ([SLASH] ++ 0 :: r)) kp (Z.lor LOOKUP_PARENT fl) s = Ok (RErr EINVAL, s') /\ pages_freed s' = pages_freed s /\ is_Some (path (ld s'))).
Proof.
  intros Hpg Hfl Hrv Hd. assert (chars [SLASH]) as Hc by (by constructor).
  assert (forall f, has f LOOKUP_KERNEL = false -> exists s1, init_lookup (Some pg) (Some ([SLASH] ++ 0 :: r)) kp f s = Ok (RVal 0, s1) /\ is_root_path s1 = Ok (true, s1) /\
    path (ld s1) = Some ([SLASH] ++ 0 :: r) /\ pages_freed s1 = pages_freed s) as Hgo.
  { intros f Hk. destruct (init_lookup_run s pg [SLASH] r kp f v Hpg Hk Hc Hrv Hd) as (s1 & Hi & Hp & _ & _ & _ & Hpf). exists s1. split_and!; try done. by rw (is_root_path_run s1 [SLASH] r). }
  assert (has fl LOOKUP_KERNEL = false /\ has (Z.lor LOOKUP_PARENT fl) LOOKUP_KERNEL = false /\ has fl LOOKUP_PARENT = false /\ has fl LOOKUP_REMOVE = false /\ has (Z.lor LOOKUP_PARENT fl) LOOKUP_PARENT = true)
    as (K1 & K2 & E1 & E2 & E3) by (by destruct Hfl as [->| ->]). split.
  - destruct (Hgo fl K1) as (s1 & Hi & Hroot & Hp & Hpf). rw /lookup {1}/mbind {1}/M_bind Hi. cbv beta iota. destruct (decide (RVal 0 <> RVal 0)) as [Hx|_]; [by destruct Hx|].
    rw E1 E2 {1}/mbind {1}/M_bind Hroot Hrv. eexists. split; [reflexivity|]. split_and!; [done|done|done|]. simpl. rw Hp. by eexists.
  - destruct (Hgo _ K2) as (s1 & Hi & Hroot & Hp & Hpf). rw /lookup {1}/mbind {1}/M_bind Hi. cbv beta iota. destruct (decide (RVal 0 <> RVal 0)) as [Hx|_]; [by destruct Hx|].
    rw E3 {1}/mbind {1}/M_bind Hroot. exists s1. split_and!; [done|done|]. rw Hp. by eexists.
Qed.


(** A caller in the kernel has its path cut to three characters. *)
Theorem kernel_path_truncated s pg cs r :
  (SIZEOF_POINTER <= length pg)%nat -> chars cs -> start_of (take 3 cs) <> None ->
  exists rc s' tl, init_lookup (Some pg) None (cs ++ 0 :: r) LOOKUP_KERNEL s = Ok (rc, s') /\ path (ld s') = Some (take 3 cs ++ 0 :: tl).
Proof.
  intros Hpg Hc Hst. destruct pg as [|b pg]; [simpl in Hpg; rw /SIZEOF_POINTER in Hpg; lia|].
  rw /init_lookup /store. mrun.
  destruct (decide (0 < length (b :: pg))%nat) as [_|Hx]; [|simpl in Hx; lia].
  assert (has LOOKUP_KERNEL LOOKUP_KERNEL = true) as -> by done. rw StrLCpy_spec //. simpl.
  assert (chars (take 3 cs)) as Hc3 by (by apply Forall_take).
  set tl := drop _ _. rw StrLen_spec // strip_trailing_noop.
  assert (byte_at (take 3 cs ++ 0 :: tl) 0 = Ok (default 0 (head (take 3 cs)))) as -> by (by destruct cs).
  assert ((if default 0 (head (take 3 cs)) =? SLASH then root_vnode else current_dir) = start_of (take 3 cs)) as -> by (by destruct cs).
  destruct (start_of (take 3 cs)) as [v|]; [|done]. simpl. destruct (is_dir v); by eexists _, _, _.
Qed.
End walk.

(** ** Witnesses: a root directory with a directory "a", which has a file "b" *)
Definition sample_vfs : Vfs := {|
  root_vnode := Some 0%nat; current_dir := Some 0%nat; is_dir := fun v => bool_decide (v < 2)%nat;
  vnode_covered := fun _ => None; vnode_mounted_here := fun _ => None; is_dev_tty := fun _ => false; controlling_tty := None;
  vfs_lookup := fun d nm =>
    if decide (d = 0%nat /\ nm = [97]) then inl 1%nat else if decide (d = 1%nat /\ nm = [98]) then inl 2%nat else inr ENOENT |}.
Definition sample_state : lstate := mkLState (mkLookup None None None None None None 0 0) [] 0.
(** "/a/b" and "/a//" *)
Definition path_ab : list Z := [47; 97; 47; 98].
Definition path_a2 : list Z := [47; 97; 47; 47].


Lemma lookup_trailing_slashes_witness :
  exists s', @lookup sample_vfs (Some [1]) (Some (path_a2 ++ 0 :: [])) [] 0 sample_state = Ok (RErr EINVAL, s').
Proof.
  destruct (@lookup_trailing_slashes sample_vfs sample_state [1] path_a2 [] [] 0 0) as (s' & H1 & _);
    [done|chars_tac|by right; exists [47; 97]|done|reflexivity|reflexivity|by left|].
  exists s'. exact H1.
Defined.
