(* ===== verification/UserMem.v ===== *)
(** * UserMem: bounds checks and copies between address spaces

    vm/bounds.c and vm/ipcopy.c. The kernel's memory is a function from
    addresses to bytes; an address space is the translation that
    [pmap_pagetable_walk] makes for an access, from virtual addresses to kernel
    addresses or an error. *)

From S2P Require Import Prelude.
Local Open Scope Z_scope.
Local Open Scope kernel_scope.

(** Conversion of a [size_t] to [ssize_t]. *)
Definition ssize (z : Z) : Z := (z + 2 ^ 31) mod 2 ^ 32 - 2 ^ 31.

(** ** vm/bounds.c; the limits are those of the board. *)
Section bounds.
Variables base ceiling : Z.
Definition in_bounds (addr sz : Z) : ret :=
  if ssize sz <? 0 then RErr E2BIG
  else if (addr <? base) || (ceiling <=? addr) || (wrap32 (ceiling - addr) <=? sz) then RErr EFAULT
  else RVal 0.
End bounds.
Definition bounds_check (VM_USER_BASE VM_USER_CEILING addr sz : Z) : ret := in_bounds VM_USER_BASE VM_USER_CEILING addr sz.
Definition bounds_check_kernel (VM_KERNEL_BASE VM_KERNEL_CEILING addr sz : Z) : ret := in_bounds VM_KERNEL_BASE VM_KERNEL_CEILING addr sz.

(** ** vm/ipcopy.c *)
Section ipcopy.
Variables PAGE_SIZE VM_USER_CEILING : Z.
(** [pmap_pagetable_walk] of the source for reading and of the destination
    for writing. *)
Variables src_walk dst_walk : Z -> Z + errno.

(** [memcpy(d, s, n)]; it is undefined when the ranges overlap. *)
Definition overlap (d s n : Z) : bool := (d <? s + n) && (s <? d + n).
Definition memcpy (m : Z -> Z) (d s n : Z) : Z -> Z := fun a => if (d <=? a) && (a <? d + n) then m (s + (a - d)) else m a.

(** The variables of the loop. *)
Record copy := mkCopy {
  svaddr : Z; dvaddr : Z; skaddr : Z; dkaddr : Z;
  src_page_remaining : Z; dst_page_remaining : Z; remaining : Z; kmem : Z -> Z }.

(** The kernel address for the next byte: the page is looked up when the last
    one is used up. *)
Definition translate (walk : Z -> Z + errno) (page_remaining va ka : Z) : Z + errno :=
  if page_remaining =? 0 then walk va else inl ka.

Definition chunk (c : copy) : Z :=
  let n := PAGE_SIZE in
  let n := if remaining c <? n then remaining c else n in
  let n := if PAGE_SIZE - svaddr c mod PAGE_SIZE <? n then PAGE_SIZE - svaddr c mod PAGE_SIZE else n in
  if PAGE_SIZE - dvaddr c mod PAGE_SIZE <? n then PAGE_SIZE - dvaddr c mod PAGE_SIZE else n.

(** The loop; the result and the memory. Each turn copies at least a byte. *)
Fixpoint ipcopy_loop (fuel : nat) (c : copy) : outcome (ret * (Z -> Z)) :=
  if remaining c <=? 0 then Ok (RVal 0, kmem c)
  else match fuel with
  | O => Fault
  | S fuel' =>
    match translate src_walk (src_page_remaining c) (svaddr c) (skaddr c) with
    | inr e => Ok (RErr e, kmem c)
    | inl sk =>
      match translate dst_walk (dst_page_remaining c) (dvaddr c) (dkaddr c) with
      | inr e => Ok (RErr e, kmem c)
      | inl dk =>
        let n := chunk c in
        if overlap dk sk n then Fault
        else ipcopy_loop fuel' (mkCopy (svaddr c + n) (dvaddr c + n) (sk + n) (dk + n)
          (PAGE_SIZE - svaddr c mod PAGE_SIZE - n) (PAGE_SIZE - dvaddr c mod PAGE_SIZE - n) (remaining c - n)
          (memcpy (kmem c) dk sk n))
      end
    end
  end.

Definition ipcopy (m : Z -> Z) (dvaddr svaddr sz : Z) : outcome (ret * (Z -> Z)) :=
  if (VM_USER_CEILING <=? dvaddr) || (wrap32 (VM_USER_CEILING - dvaddr) <? sz)
     || (VM_USER_CEILING <=? svaddr) || (wrap32 (VM_USER_CEILING - svaddr) <? sz)
  then Ok (RErr EFAULT, m)
  else ipcopy_loop (Z.to_nat (ssize sz)) (mkCopy svaddr dvaddr 0 0 0 0 (ssize sz) m).
End ipcopy.

(** ** Theorems *)

(** C40: [bounds_check] accepts a range exactly when it starts in user space
    and ends strictly below the ceiling; the range that ends at the ceiling is
    refused. Sizes from 2 GB on are too big. *)
Theorem bounds_check_correct base ceiling addr sz :
  0 <= base <= ceiling -> ceiling < 2 ^ 31 -> u32 addr -> u32 sz ->
  bounds_check base ceiling addr sz =
    if decide (2 ^ 31 <= sz) then RErr E2BIG
    else if decide (base <= addr /\ addr + sz < ceiling) then RVal 0 else RErr EFAULT.
Proof.
  rw /u32. intros Hb Hc Ha Hs. rw /bounds_check /in_bounds /ssize. destruct (decide (2 ^ 31 <= sz)) as [Hbig|Hbig].
  - replace ((sz + 2 ^ 31) mod 2 ^ 32) with (sz + 2 ^ 31 - 2 ^ 32) by (apply (Z.mod_unique_pos _ _ 1); lia).
    by destruct (Z.ltb_spec (sz + 2 ^ 31 - 2 ^ 32 - 2 ^ 31) 0); [|lia].
  - rw (Z.mod_small (sz + 2 ^ 31)); [lia|]. destruct (Z.ltb_spec (sz + 2 ^ 31 - 2 ^ 31) 0); [lia|].
    destruct (Z.ltb_spec addr base); [by destruct (decide _); [lia|]|]. destruct (Z.leb_spec ceiling addr); [by destruct (decide _); [lia|]|].
    rw wrap32_id; [rw /u32; lia|]. simpl. destruct (Z.leb_spec (ceiling - addr) sz); destruct (decide _); try done; lia.
Qed.

Section copy_thms.
Context (PAGE_SIZE VM_USER_CEILING : Z) (page_pos : 0 < PAGE_SIZE).
Context (src_walk dst_walk : Z -> Z + errno).

(** [pmap_pagetable_walk] maps whole pages: the address in the frame has the
    same offset as the virtual address. *)
Definition maps_pages (walk : Z -> Z + errno) : Prop :=
  forall va ka o, walk va = inl ka -> 0 <= o -> va mod PAGE_SIZE + o < PAGE_SIZE -> walk (va + o) = inl (ka + o).
Context (src_pages : maps_pages src_walk) (dst_pages : maps_pages dst_walk).

Section one_copy.
Context (m : Z -> Z) (dv sv sz b : Z) (e : errno) (S D : Z -> Z).
(** The first [b] bytes are mapped, at [S] and [D], on both sides, and the
    next one, if there is one to copy, is not. *)
Context (b_range : 0 <= b <= sz).
Context (src_mapped : forall i, 0 <= i < b -> src_walk (sv + i) = inl (S i)).
Context (dst_mapped : forall i, 0 <= i < b -> dst_walk (dv + i) = inl (D i)).
Context (stops : b < sz -> src_walk (sv + b) = inr e \/ ((exists k, src_walk (sv + b) = inl k) /\ dst_walk (dv + b) = inr e)).
Context (D_inj : forall i j, 0 <= i < b -> 0 <= j < b -> D i = D j -> i = j).
Context (disjoint : forall i j, 0 <= i < b -> 0 <= j < b -> S i <> D j).

(** The memory after [k] bytes. *)
Definition copied (k : Z) (m' : Z -> Z) : Prop :=
  (forall i, 0 <= i < k -> m' (D i) = m (S i)) /\ (forall a, (forall i, 0 <= i < k -> a <> D i) -> m' a = m a).

Lemma chunk_bounds c : 0 < remaining c ->
  0 < chunk PAGE_SIZE c <= remaining c /\ chunk PAGE_SIZE c <= PAGE_SIZE - svaddr c mod PAGE_SIZE /\ chunk PAGE_SIZE c <= PAGE_SIZE - dvaddr c mod PAGE_SIZE.
Proof using page_pos.
  intros Hr. pose proof (Z.mod_pos_bound (svaddr c) PAGE_SIZE page_pos). pose proof (Z.mod_pos_bound (dvaddr c) PAGE_SIZE page_pos).
  assert (forall a n, (if a <? n then a else n) = Z.min a n) as E by (intros; zcases; lia). rw /chunk !E. lia.
Qed.

Lemma same_page walk va ka n : maps_pages walk -> walk va = inl ka -> 0 <= n -> n <= PAGE_SIZE - va mod PAGE_SIZE ->
  translate walk (PAGE_SIZE - va mod PAGE_SIZE - n) (va + n) (ka + n) = walk (va + n).
Proof using Type.
  intros Hp Hw Hn Hle. rw /translate. destruct (Z.eqb_spec (PAGE_SIZE - va mod PAGE_SIZE - n) 0); [done|]. symmetry. apply Hp; [done|lia|lia].
Qed.

(** A chunk does not reach past the bytes that are mapped, and it is contiguous in both frames. *)
Lemma chunk_mapped k n :
  0 <= k < b -> 0 < n <= sz - k -> n <= PAGE_SIZE - (sv + k) mod PAGE_SIZE -> n <= PAGE_SIZE - (dv + k) mod PAGE_SIZE ->
  k + n <= b /\ forall o, 0 <= o < n -> S (k + o) = S k + o /\ D (k + o) = D k + o.
Proof using b_range src_mapped dst_mapped stops src_pages dst_pages.
  intros Hk Hn Hs Hd. assert (k + n <= b) as Hle.
  { destruct (Z.le_gt_cases (k + n) b) as [|Hgt]; [done|]. exfalso.
    assert (src_walk (sv + b) = inl (S k + (b - k))) as E1.
    { replace (sv + b) with (sv + k + (b - k)) by lia. apply src_pages; [by apply src_mapped|lia|lia]. }
    assert (dst_walk (dv + b) = inl (D k + (b - k))) as E2.
    { replace (dv + b) with (dv + k + (b - k)) by lia. apply dst_pages; [by apply dst_mapped|lia|lia]. }
    destruct stops as [E|[_ E]]; [lia|congruence|congruence]. }
  split; [done|]. intros o Ho. split.
  - assert (src_walk (sv + (k + o)) = inl (S k + o)) as E by (rw Z.add_assoc; apply src_pages; [by apply src_mapped|lia|lia]).
    rw src_mapped in E; [lia|congruence].
  - assert (dst_walk (dv + (k + o)) = inl (D k + o)) as E by (rw Z.add_assoc; apply dst_pages; [by apply dst_mapped|lia|lia]).
    rw dst_mapped in E; [lia|congruence].
Qed.

Lemma copied_step k n m' :
  0 <= k -> 0 < n -> k + n <= b -> (forall o, 0 <= o < n -> S (k + o) = S k + o /\ D (k + o) = D k + o) -> copied k m' ->
  overlap (D k) (S k) n = false /\ copied (k + n) (memcpy m' (D k) (S k) n).
Proof using D_inj disjoint.
  intros Hk Hn Hle Hc [H1 H2]. split.
  - rw /overlap. apply andb_false_iff. destruct (Z.ltb_spec (D k) (S k + n)); [right|by left]. apply Z.ltb_ge.
    destruct (Z.le_gt_cases (D k + n) (S k)) as [|Hgt]; [done|]. exfalso.
    destruct (Z.le_gt_cases (D k) (S k)).
    + apply (disjoint k (k + (S k - D k))); [lia|lia|]. destruct (Hc (S k - D k)) as [_ ->]; lia.
    + apply (disjoint (k + (D k - S k)) k); [lia|lia|]. destruct (Hc (D k - S k)) as [-> _]; lia.
  - split.
    + intros i Hi. rw /memcpy. destruct (decide (i < k)) as [Hik|Hik].
      * destruct (Z.leb_spec (D k) (D i)); [|apply H1; lia]. destruct (Z.ltb_spec (D i) (D k + n)); [|apply H1; lia]. exfalso.
        assert (i = k + (D i - D k)); [|lia]. apply D_inj; [lia|lia|]. destruct (Hc (D i - D k)) as [_ ->]; lia.
      * destruct (Hc (i - k)) as [Es Ed]; [lia|]. replace (k + (i - k)) with i in Es, Ed by lia. rw Ed.
        destruct (Z.leb_spec (D k) (D k + (i - k))); [|lia]. destruct (Z.ltb_spec (D k + (i - k)) (D k + n)); [|lia]. simpl.
        replace (S k + (D k + (i - k) - D k)) with (S i) by lia. apply H2. intros j Hj. apply disjoint; lia.
    + intros a Ha. rw /memcpy. destruct (Z.leb_spec (D k) a); [|apply H2; intros i Hi; apply Ha; lia].
      destruct (Z.ltb_spec a (D k + n)); [|apply H2; intros i Hi; apply Ha; lia]. exfalso.
      apply (Ha (k + (a - D k))); [lia|]. destruct (Hc (a - D k)) as [_ ->]; lia.
Qed.

Lemma ipcopy_loop_spec fuel : forall k c,
  0 <= k <= b -> svaddr c = sv + k -> dvaddr c = dv + k -> remaining c = sz - k -> sz - k <= Z.of_nat fuel ->
  translate src_walk (src_page_remaining c) (svaddr c) (skaddr c) = src_walk (svaddr c) ->
  translate dst_walk (dst_page_remaining c) (dvaddr c) (dkaddr c) = dst_walk (dvaddr c) -> copied k (kmem c) ->
  exists m', ipcopy_loop PAGE_SIZE src_walk dst_walk fuel c = Ok (if decide (b = sz) then RVal 0 else RErr e, m') /\ copied b m'.
Proof using All.
  induction fuel as [|fuel IH]; intros k c Hk Hsv Hdv Hr Hf Ts Td Hc; cbn [ipcopy_loop]; rw Hr.
  - assert (k = sz) as -> by lia. assert (b = sz) as Eb by lia. destruct (Z.leb_spec (sz - sz) 0); [|lia].
    exists (kmem c). rw decide_True //. rw Eb. split; [done|]. by replace b with sz by lia.
  - destruct (Z.leb_spec (sz - k) 0) as [Hz|Hz].
    { assert (k = sz) as -> by lia. assert (b = sz) as Eb by lia. exists (kmem c). rw decide_True // Eb. split; [done|]. by replace b with sz by lia. }
    rw Ts Td Hsv Hdv. destruct (decide (k = b)) as [->|Hne].
    + rw decide_False; [lia|]. destruct stops as [E|[[x Ex] E]]; [lia| |].
      * rw E. by exists (kmem c).
      * rw Ex E. by exists (kmem c).
    + rw src_mapped; [lia|]. rw dst_mapped; [lia|]. destruct (chunk_bounds c) as (Hn & Hns & Hnd); [lia|]. rw Hsv in Hns. rw Hdv in Hnd. rw Hr in Hn.
      set n := chunk PAGE_SIZE c in Hn Hns Hnd |- *. destruct (chunk_mapped k n) as [Hle Hcont]; [lia|lia|lia|lia|].
      destruct (copied_step k n (kmem c)) as [Ho Hc']; [lia|lia|lia|done|done|]. rw Ho.
      apply (IH (k + n)); cbn [svaddr dvaddr skaddr dkaddr src_page_remaining dst_page_remaining remaining kmem]; try lia; [..|done].
      * apply same_page; [done|apply src_mapped; lia|lia|lia].
      * apply same_page; [done|apply dst_mapped; lia|lia|lia].
Qed.
End one_copy.

(** Both ranges in user space, all bytes up to [b] mapped on both sides at
    distinct frames. *)
Lemma ipcopy_spec m dv sv sz b e S D :
  0 <= b <= sz -> 0 <= dv -> 0 <= sv -> sz < 2 ^ 31 -> VM_USER_CEILING < 2 ^ 31 ->
  dv < VM_USER_CEILING -> sv < VM_USER_CEILING -> dv + sz <= VM_USER_CEILING -> sv + sz <= VM_USER_CEILING ->
  (forall i, 0 <= i < b -> src_walk (sv + i) = inl (S i)) -> (forall i, 0 <= i < b -> dst_walk (dv + i) = inl (D i)) ->
  (b < sz -> src_walk (sv + b) = inr e \/ ((exists k, src_walk (sv + b) = inl k) /\ dst_walk (dv + b) = inr e)) ->
  (forall i j, 0 <= i < b -> 0 <= j < b -> D i = D j -> i = j) -> (forall i j, 0 <= i < b -> 0 <= j < b -> S i <> D j) ->
  exists m', ipcopy PAGE_SIZE VM_USER_CEILING src_walk dst_walk m dv sv sz = Ok (if decide (b = sz) then RVal 0 else RErr e, m') /\
    (forall i, 0 <= i < b -> m' (D i) = m (S i)) /\ (forall a, (forall i, 0 <= i < b -> a <> D i) -> m' a = m a).
Proof using All.
  intros Hb Hd Hs Hsz Hcl Hd1 Hs1 Hd2 Hs2 Hsm Hdm Hst Hinj Hdis. rw /ipcopy !wrap32_id; [rw /u32; lia|rw /u32; lia|].
  destruct (Z.leb_spec VM_USER_CEILING dv); [lia|]. destruct (Z.ltb_spec (VM_USER_CEILING - dv) sz); [lia|].
  destruct (Z.leb_spec VM_USER_CEILING sv); [lia|]. destruct (Z.ltb_spec (VM_USER_CEILING - sv) sz); [lia|]. simpl.
  assert (ssize sz = sz) as -> by (rw /ssize Z.mod_small; lia).
  destruct (ipcopy_loop_spec m dv sv sz b e S D Hb Hsm Hdm Hst Hinj Hdis (Z.to_nat sz) 0 (mkCopy sv dv 0 0 0 0 sz m)) as (m' & Hr & HC1 & HC2);
    try (cbn; lia); try done; [|by exists m'].
  split; [lia|]. done.
Qed.

(** C39: [ipcopy] copies byte by byte: when both ranges are in user space, all
    bytes up to [b] are mapped on both sides, the frames written are distinct
    and none of them is read, then it ends, the first [b] bytes of the
    destination are the bytes of the source, and nothing else changes. The
    result is 0 if these are all, and the error of the page that is not mapped
    otherwise. *)
Theorem ipcopy_correct m dv sv sz b e S D :
  0 <= b <= sz -> 0 <= dv -> 0 <= sv -> sz < 2 ^ 31 -> VM_USER_CEILING < 2 ^ 31 ->
  dv < VM_USER_CEILING -> sv < VM_USER_CEILING -> dv + sz <= VM_USER_CEILING -> sv + sz <= VM_USER_CEILING ->
  (forall i, 0 <= i < b -> src_walk (sv + i) = inl (S i)) -> (forall i, 0 <= i < b -> dst_walk (dv + i) = inl (D i)) ->
  (b < sz -> src_walk (sv + b) = inr e \/ ((exists k, src_walk (sv + b) = inl k) /\ dst_walk (dv + b) = inr e)) ->
  (forall i j, 0 <= i < b -> 0 <= j < b -> D i = D j -> i = j) -> (forall i j, 0 <= i < b -> 0 <= j < b -> S i <> D j) ->
  exists m', ipcopy PAGE_SIZE VM_USER_CEILING src_walk dst_walk m dv sv sz = Ok (if decide (b = sz) then RVal 0 else RErr e, m') /\
    (forall i, 0 <= i < b -> m' (D i) = m (S i)) /\ (forall a, (forall i, 0 <= i < b -> a <> D i) -> m' a = m a).
Proof using All. apply ipcopy_spec. Qed.
End copy_thms.

(** ** Witnesses *)
Lemma bounds_check_correct_witness : bounds_check 0x400000 0x7F000000 0x500000 16 = RVal 0 /\ bounds_check 0x400000 0x7F000000 0x7EFFFFF0 16 = RErr EFAULT.
Proof.
  split; (rw bounds_check_correct; [lia|lia|rw /u32; lia|rw /u32; lia|reflexivity]).
Defined.

(** Pages of 16 bytes: the source is mapped at 1000, the destination at 2000 up to address 64. *)
Definition sample_src (va : Z) : Z + errno := inl (1000 + va).
Definition sample_dst (va : Z) : Z + errno := if va <? 64 then inl (2000 + va) else inr EFAULT.

Lemma ipcopy_correct_witness :
  exists m', ipcopy 16 0x7F000000 sample_src sample_dst (fun a => a) 50 7 20 = Ok (RErr EFAULT, m') /\ m' 2050 = 1007 /\ m' 2063 = 1020 /\ m' 2064 = 2064.
Proof.
  destruct (ipcopy_correct 16 0x7F000000 ltac:(lia) sample_src sample_dst) with (m := fun a : Z => a) (dv := 50) (sv := 7) (sz := 20) (b := 14) (e := EFAULT)
    (S := fun i => 1000 + (7 + i)) (D := fun i => 2000 + (50 + i)) as (m' & H1 & H2 & H3); try lia.
  - intros va ka o E _ _. injection E as <-. rw /sample_src. f_equal. lia.
  - intros va ka o. rw /sample_dst. destruct (Z.ltb_spec va 64) as [Hlt|]; [|done]. intros E Ho Hp. injection E as <-.
    destruct (Z.ltb_spec (va + o) 64) as [|Hge]; [f_equal; lia|]. exfalso. pose proof (Z.div_mod va 16 ltac:(lia)). pose proof (Z.mod_pos_bound va 16 ltac:(lia)). lia.
  - intros i Hi. reflexivity.
  - intros i Hi. rw /sample_dst. destruct (Z.ltb_spec (50 + i) 64); [done|lia].
  - intros _. right. split; [by eexists|reflexivity].
  - exists m'. split; [exact H1|]. split; [apply (H2 0); lia|]. split; [apply (H2 13); lia|]. apply H3. intros i Hi. cbv beta. lia.
Defined.
