(* ===== verification/Event.v ===== *)
(** * Event: thread events, proc/thread_events.c

    A thread has 32 event bits. [sys_thread_event_wait] sleeps on the thread's
    own rendez until one of the bits of its mask is set; signalling a bit wakes
    the thread if it sleeps interruptibly. The calls are over the threads of
    [Sched]. A call that sleeps returns [None]; what it does when it runs again
    is [event_wait_resumed]. *)

From S2P Require Import Prelude Sched SchedQueue Bkl BklSteps.
Local Open Scope Z_scope.
Local Open Scope kernel_scope.

Definition INTRF_NONE : Z := 0.
Definition INTRF_ALL : Z := 15.

(** The thread ids ([get_thread] of proc/pid.c), the process of a thread, and
    its own rendez. *)
Class Threads := {
  tid : nat -> Z;
  get_thread : Z -> option nat;
  process_of : nat -> nat;
  thread_rendez : nat -> nat;
  get_thread_tid : forall t, get_thread (tid t) = Some t }.

(** Threads numbered from pid 1 on. *)
Definition plain_threads : Threads.
Proof.
  refine {| tid := fun t => Z.of_nat t + 1;
            get_thread := fun z => if z <=? 0 then None else Some (Z.to_nat (z - 1));
            process_of := fun _ => 0%nat; thread_rendez := fun t => (2 * t)%nat |}.
  intros t. destruct (Z.leb_spec (Z.of_nat t + 1) 0); [lia|]. f_equal. lia.
Defined.

Section ops.
Context `{Threads}.

(** Taking the pending events of a mask. *)
Definition catch_events (c : nat) (mask : Z) : M sched Z :=
  x ← gets (fun s => th s c);
  let caught := Z.land (pending_events x) mask in
  _ ← upd_th c (fun x => x <| pending_events ::= fun p => Z.land p (Z.lnot caught) |>);
  mret caught.

Definition sys_thread_event_check (mask : Z) : M sched Z :=
  c ← get_current_thread; catch_events c mask.

(** After the sleep, or without it. *)
Definition catch_masked : M sched Z :=
  c ← get_current_thread;
  x ← gets (fun s => th s c);
  catch_events c (event_mask x).

Definition event_sleep (ts : option (Z * Z)) (mask : Z) : M sched (option Z) :=
  c ← get_current_thread;
  _ ← upd_th c (fun x => x <| event_mask := mask |>);
  x ← gets (fun s => th s c);
  if Z.land (pending_events x) (event_mask x) =? 0 then
    r ← TaskSleepInterruptible (thread_rendez c) ts INTRF_ALL;
    match r with
    | None => mret None
    | Some _ => v ← catch_masked; mret (Some v)
    end
  else v ← catch_masked; mret (Some v).
Definition event_wait_resumed (ts : bool) : M sched Z :=
  _ ← TaskSleepInterruptible_resumed ts INTRF_ALL; catch_masked.

Definition sys_thread_event_wait (mask : Z) : M sched (option Z) := event_sleep None mask.

(** [_timeout] is NULL ([None]) or what reading it gives. The error is returned
    in the same unsigned word as the events. *)
Definition sys_thread_event_timedwait (mask : Z) (timeout : option (option (Z * Z))) : M sched (option Z + errno) :=
  match timeout with
  | Some None => mret (inr EFAULT)
  | Some (Some ts) => v ← event_sleep (Some ts) mask; mret (inl v)
  | None => v ← event_sleep None mask; mret (inl v)
  end.

(** [1 << event] in a word: a bit from 32 on is shifted out of it. *)
Definition event_bit (event : Z) : Z := wrap32 (bit event).
Definition raise_event (t : nat) (event : Z) : M sched unit :=
  _ ← upd_th t (fun x => x <| pending_events ::= fun p => Z.lor p (event_bit event) |>);
  x ← gets (fun s => th s t);
  if negb (Z.land (pending_events x) (event_mask x) =? 0) then TaskWakeupSpecific t INTRF_EVENT else mret tt.

Definition sys_thread_event_signal (tid event : Z) : M sched ret :=
  c ← get_current_thread;
  match get_thread tid with
  | None => mret (RErr EPERM)
  | Some t =>
    if negb (process_of t =? process_of c)%nat then mret (RErr EPERM)
    else if (event <? 0) || (31 <? event) then mret (RErr EINVAL)
    else _ ← raise_event t event; mret (RVal 0)
  end.

Definition do_thread_event_signal (tid event : Z) : M sched ret :=
  match get_thread tid with
  | None => mret (RErr ENOENT)
  | Some t =>
    if (event <? 0) || (31 <? event) then mret (RErr EINVAL)
    else _ ← raise_event t event; mret (RVal 0)
  end.

Definition isr_thread_event_signal (thread : option nat) (event : Z) : M sched ret :=
  match thread with
  | None => mret (RErr EINVAL)
  | Some t => _ ← raise_event t event; mret (RVal 0)
  end.
End ops.
