(* ===== verification/EventThms.v ===== *)
(** * EventThms: no event is lost

    What an operation of the scheduler leaves alone, stated once for all of
    them as a relation between the states before and after; the invariant that
    a thread sleeps interruptibly only while none of the events it waits for
    is pending; and what the calls of proc/thread_events.c return. *)

From S2P Require Import Prelude Sched SchedQueue Bkl BklSteps Event.
Local Open Scope Z_scope.
Local Open Scope kernel_scope.

(** ** Computations within a preorder on states *)
Section within.
Context {S : Type} (R : relation S) `{!PreOrder R}.

Definition within {A} (m : M S A) : Prop := forall s a s', m s = Ok (a, s') -> R s s'.

Lemma within_run {A} (m : M S A) s a s' : within m -> m s = Ok (a, s') -> R s s'.
Proof. intros Hm. apply Hm. Qed.
Lemma within_ret {A} (a : A) : within (mret a).
Proof. intros s b s' [= _ <-]. reflexivity. Qed.
Lemma within_gets {A} (f : S -> A) : within (gets f).
Proof. intros s b s' [= _ <-]. reflexivity. Qed.
Lemma within_panic {A} : within (panic (A := A)).
Proof. done. Qed.
Lemma within_fault {A} : within (fault (A := A)).
Proof. done. Qed.
Lemma within_kassert b : within (kassert b).
Proof. destruct b; [apply within_ret|apply within_panic]. Qed.
Lemma within_bind {A B} (m : M S A) (k : A -> M S B) : within m -> (forall a, within (k a)) -> within (m ≫= k).
Proof.
  intros Hm Hk s b s'. rw /mbind /M_bind. destruct (m s) as [[a s1]| |] eqn:E; try done. intros Hr.
  transitivity s1; [by apply (Hm s a)|by apply (Hk a s1 b)].
Qed.
Lemma within_modify f : (forall s, R s (f s)) -> within (modify f).
Proof. intros Hf s b s' [= _ <-]. apply Hf. Qed.
Lemma within_update {T} (get : S -> T) put f :
  (forall s x, f (get s) = Ok x -> R s (put x s)) -> within (update get put f).
Proof. intros Hf s b s'. rw /update. destruct (f (get s)) as [x| |] eqn:E; try done. intros [= _ <-]. by apply Hf. Qed.
End within.

Create HintDb within.
#[export] Hint Resolve within_ret within_gets within_panic within_fault within_kassert : within.
#[export] Hint Extern 0 (PreOrder _) => exact _ : within.

(** What waiting threads look like to the events: the flags of their sleep,
    their pending events and their mask. *)
Definition ev (x : Thread) : Z * Z * Z := (intr_flags x, pending_events x, event_mask x).

(** *** Nobody goes to sleep, is woken or gets an event *)
Definition still (s s' : sched) : Prop := (forall t, ev (th s' t) = ev (th s t)) /\ rendez s' = rendez s.
#[export] Instance still_preorder : PreOrder still.
Proof. split; [by split|]. intros s1 s2 s3 [H1 H2] [H3 H4]. split; [intros t; by rw H3|congruence]. Qed.

Lemma still_upd_th t g : (forall x, ev (g x) = ev x) -> within still (upd_th t g).
Proof.
  intros Hg. apply within_modify. intros s. split; [|done]. intros y. simpl.
  destruct (decide (t = y)) as [->|]; by reads.
Qed.
Lemma still_modify f : (forall s, th (f s) = th s /\ rendez (f s) = rendez s) -> within still (modify f).
Proof. intros Hf. apply within_modify. intros s. destruct (Hf s) as [H1 H2]. split; [by rw H1|by rw H2]. Qed.
Lemma still_update {T} (get : sched -> T) put f :
  (forall s x, th (put x s) = th s /\ rendez (put x s) = rendez s) -> within still (update get put f).
Proof. intros Hf. apply within_update. intros s x _. destruct (Hf s x) as [H1 H2]. split; [by rw H1|by rw H2]. Qed.

Lemma still_on_queue p f : within still (on_queue p f).
Proof. rw /on_queue. destruct (_ && _); [by apply still_update|auto with within]. Qed.
Lemma still_on_bkl f : within still (on_bkl f).
Proof. by apply still_update. Qed.
Lemma still_on_wheel p f : within still (on_wheel p f).
Proof. rw /on_wheel. destruct (_ && _); [by apply still_update|auto with within]. Qed.
Lemma still_set_bits f : within still (set_bits f).
Proof. by apply still_modify. Qed.
#[export] Hint Resolve still_on_queue still_on_bkl still_on_wheel still_set_bits : within.

(** Steps through a computation. *)
Ltac still :=
  repeat first
    [ progress intros
    | solve [eauto with within]
    | apply within_bind; [exact _| |]
    | apply still_upd_th; intros; reflexivity
    | apply still_modify; intros; by split
    | match goal with |- within _ (match ?x with _ => _ end) => destruct x end ].

Lemma still_SchedReady t : within still (SchedReady t).
Proof. rw /SchedReady. still. Qed.
Lemma still_SchedUnready t : within still (SchedUnready t).
Proof. rw /SchedUnready /unqueue. still. Qed.
Lemma still_Reschedule : within still Reschedule.
Proof. rw /Reschedule /resched_current /end_turn. still. Qed.
#[export] Hint Resolve still_SchedReady still_SchedUnready still_Reschedule : within.
Lemma still_hand_over : within still bkl_hand_over.
Proof. rw /bkl_hand_over. still. Qed.
Lemma still_current : within still get_current_thread.
Proof. rw /get_current_thread. still. Qed.
Lemma still_assert c : within still (assert_owner c).
Proof. rw /assert_owner. still. Qed.
Lemma still_to_bkl t : within still (to_bkl t).
Proof. rw /to_bkl. still. Qed.
#[export] Hint Resolve still_hand_over still_current still_assert still_to_bkl : within.

(** The calls that neither put threads to sleep nor wake them. *)
Definition plain_call (k : kcall) : bool :=
  match k with CLock | CUnlock | CStart _ | CStop | CSetSched _ _ | CResched => true | _ => false end.
Lemma still_call k : plain_call k = true -> within still (call_run k).
Proof.
  destruct k; simpl; try done; intros _.
  - rw /KernelLock. still.
  - rw /KernelUnlock. still.
  - rw /thread_start. still.
  - rw /thread_stop. still.
  - rw /void /sys_thread_setschedparams /change_params. still.
  - auto with within.
Qed.

(** *** The same, but the rendez lists may shrink *)
Definition calm (s s' : sched) : Prop :=
  (forall t, ev (th s' t) = ev (th s t)) /\ (forall r t, t ∈ rendez s' r -> t ∈ rendez s r).
#[export] Instance calm_preorder : PreOrder calm.
Proof.
  split; [by split|]. intros s1 s2 s3 [H1 H2] [H3 H4]. split; [intros t; by rw H3|naive_solver].
Qed.
Lemma still_calm {A} (m : M sched A) : within still m -> within calm m.
Proof. intros Hm s a s' Hr. destruct (Hm s a s' Hr) as [H1 H2]. split; [done|]. by rw H2. Qed.
#[export] Hint Resolve still_calm : within.

Lemma calm_rem_rendez r f : (forall l l', f l = Ok l' -> forall t, t ∈ l' -> t ∈ l) -> within calm (on_rendez r f).
Proof.
  intros Hf. apply within_update. intros s l Hl. split; [done|]. intros r' t. simpl.
  destruct (decide (r = r')) as [->|]; reads; [|done]. by apply (Hf _ _ Hl).
Qed.
Lemma calm_rem_head r : within calm (on_rendez r dl_rem_head).
Proof. apply calm_rem_rendez. intros [|x l] l' [= <-]. set_solver. Qed.
Lemma list_remove1_sub x t l : t ∈ list_remove1 x l -> t ∈ l.
Proof. induction l as [|y l IH]; simpl; [done|]. case_decide; set_solver. Qed.
Lemma calm_rem r t : within calm (on_rendez r (dl_rem t)).
Proof. apply calm_rem_rendez. rw /dl_rem. intros l l'. case_decide; [|done]. intros [= <-] y. apply list_remove1_sub. Qed.
#[export] Hint Resolve calm_rem_head calm_rem : within.
Ltac calm :=
  repeat first
    [ progress intros
    | solve [eauto with within]
    | apply within_bind; [exact _| |]
    | apply still_calm, still_upd_th; intros; reflexivity
    | match goal with |- within _ (match ?x with _ => _ end) => destruct x end ].

(** ** The invariant's parts are kept *)
Lemma bind_inv {S A B} (m : M S A) (k : A -> M S B) s b s' :
  (m ≫= k) s = Ok (b, s') -> exists a s1, m s = Ok (a, s1) /\ k a s1 = Ok (b, s').
Proof. rw /mbind /M_bind. destruct (m s) as [[a s1]| |]; try done. eauto. Qed.

Section keep.
Implicit Types (s : sched) (t c r : nat) (pc : nat -> loc) (k : kcall) (ep : nat -> bool).

(** The calls that put nobody to sleep. *)
Lemma calm_call k : (forall r, k <> CSleep r) -> (forall r ts f, k <> CSleepIntr r ts f) -> within calm (call_run k).
Proof.
  intros H1 H2. assert (plain_call k = true -> within calm (call_run k)) as Hp. { intros. by apply still_calm, still_call. }
  destruct k; simpl; try (by destruct (H1 r)); try (by destruct (H2 r ts flags)).
  1-2,7-10: by apply Hp.
  - rw /TaskWakeup. calm.
  - rw /TaskWakeupAll. calm. rename a into n. clear H1 H2. induction n as [|n IH]; simpl; calm.
  - rw /TaskWakeupSpecific. calm.
  - rw /TaskTimedSleepCallback. calm.
Qed.

(** Putting [c] on a rendez, and nothing else that events see. *)
Definition stir c s s' : Prop :=
  (forall t, ev (th s' t) = ev (th s t)) /\ (forall r t, t ∈ rendez s' r -> t ∈ rendez s r \/ t = c).
#[export] Instance stir_preorder c : PreOrder (stir c).
Proof. split; [split; [done|by left]|]. intros s1 s2 s3 [H1 H2] [H3 H4]. split; [intros t; by rw H3|]. naive_solver. Qed.
Lemma calm_stir {A} c (m : M sched A) : within calm m -> within (stir c) m.
Proof. intros Hm s a s' Hr. destruct (Hm s a s' Hr) as [H1 H2]. split; [done|]. intros r t Ht. left. by apply (H2 r). Qed.
Lemma stir_add c r : within (stir c) (on_rendez r (dl_add_tail c)).
Proof.
  apply within_update. intros s l. rw /dl_add_tail. case_decide; [done|]. intros [= <-]. split; [done|].
  intros r' t. simpl. destruct (decide (r = r')) as [->|]; reads; [|by left]. set_solver.
Qed.

Lemma stir_TaskSleep c r s s' : current_thread s = Some c -> TaskSleep r s = Ok (tt, s') -> stir c s s'.
Proof.
  intros Hc Hr. apply bind_inv in Hr as (c' & s1 & Hc' & Hr). rw /get_current_thread in Hc'. mrun_in Hc'. rw Hc in Hc'.
  injection Hc' as <- <-. revert Hr. generalize tt.
  cut (within (stir c) (_ ← assert_owner c; _ ← bkl_hand_over; _ ← on_rendez r (dl_add_tail c);
    _ ← upd_th c (fun x => x <| state := THREAD_STATE_RENDEZ_BLOCKED |> <| blocking_rendez := Some r |>); _ ← SchedUnready c; Reschedule)).
  { intros Hw u. apply Hw. }
  repeat (apply within_bind; [exact _| |intros _]); try (apply calm_stir; by calm). apply stir_add.
Qed.

(** The interruptible sleep also sets the flags of the sleeper. *)
Definition dozed c flags s s' : Prop :=
  (forall t, t <> c -> ev (th s' t) = ev (th s t)) /\
  ev (th s' c) = (flags, pending_events (th s c), event_mask (th s c)) /\
  (forall r t, t ∈ rendez s' r -> t ∈ rendez s r \/ t = c).

Lemma doze c r ts flags s res s' :
  current_thread s = Some c -> TaskSleepInterruptible r ts flags s = Ok (res, s') ->
  if TaskCheckInterruptible (th s c) flags then res = Some EINTR /\ s' = s else res = None /\ dozed c flags s s'.
Proof.
  intros Hc Hr. apply bind_inv in Hr as (c' & s1 & Hc' & Hr). rw /get_current_thread in Hc'. mrun_in Hc'. rw Hc in Hc'.
  injection Hc' as <- <-. apply bind_inv in Hr as (u & s1 & Ha & Hr).
  assert (s1 = s) as -> by (move: Ha; rw /assert_owner; mrun; by repeat case_match; intros; simplify_eq).
  apply bind_inv in Hr as (x & s1 & [= <- <-] & Hr). destruct (TaskCheckInterruptible (th s c) flags).
  { by injection Hr as <- <-. }
  apply bind_inv in Hr as (u1 & s1 & H1 & Hr). apply bind_inv in Hr as (u2 & s2 & H2 & Hr).
  apply bind_inv in Hr as (u3 & s3 & H3 & Hr). apply bind_inv in Hr as (u4 & s4 & H4 & Hr).
  apply bind_inv in Hr as (u5 & s5 & H5 & Hr). apply bind_inv in Hr as (u6 & s6 & H6 & Hr). injection Hr as <- <-.
  assert (stir c s s3) as [E1 R1].
  { transitivity s1; [by apply (calm_stir c _ (still_calm _ still_hand_over) s u1)|]. transitivity s2.
    - revert H2. apply (calm_stir c). calm.
    - by apply (stir_add c r s2 u3). }
  assert (calm s4 s6) as [E2 R2].
  { transitivity s5; [by apply (still_calm _ (still_SchedUnready c) s4 u5)|by apply (still_calm _ still_Reschedule s5 u6)]. }
  injection H4 as _ <-. split; [done|]. split_and!.
  - intros t Ht. rw E2 /=. reads. apply E1.
  - rw E2 /=. reads. specialize (E1 c). injection E1 as _ E3 E4. by rw /ev /= E3 E4.
  - intros r' t Ht. apply (R1 r'), (R2 r' t), Ht.
Qed.
End keep.

(** ** Changes the scheduler does not see *)
Section quiet.
Implicit Types (s : sched) (t c r : nat) (pc : nat -> loc).

Definition core (x : Thread) := (sched_policy x, priority x, desired_priority x, state x, blocking_rendez x).
Definition quiet s s' : Prop :=
  (forall t, core (th s' t) = core (th s t)) /\ rendez s' = rendez s /\ sched_queue s' = sched_queue s /\
  bkl_locked s' = bkl_locked s /\ bkl_owner s' = bkl_owner s /\ B s' = B s /\ idle_thread s' = idle_thread s /\
  current_thread s' = current_thread s.
#[export] Instance quiet_preorder : PreOrder quiet.
Proof.
  split; [intros s; by rw /quiet|]. intros s1 s2 s3 (H1 & H2 & H3 & H4 & H5 & H6 & H7 & H8) (G1 & G2 & G3 & G4 & G5 & G6 & G7 & G8).
  rw /quiet. split_and!; congruence.
Qed.

Lemma quiet_kinv s s' pc : quiet s s' -> kinv s pc -> kinv s' pc.
Proof.
  intros (Hc & Hr & Hq & Hl & Ho & HB & Hi & Hcur) [Hk [c Hon]].
  assert (forall t, sched_policy (th s' t) = sched_policy (th s t) /\ priority (th s' t) = priority (th s t) /\
    desired_priority (th s' t) = desired_priority (th s t) /\ state (th s' t) = state (th s t) /\
    blocking_rendez (th s' t) = blocking_rendez (th s t)) as Hf.
  { intros t. specialize (Hc t). rw /core in Hc. by injection Hc. }
  assert (forall t, queued s' t <-> queued s t) as Hqd. { intros t. by rw /queued Hq. }
  split.
  - apply (kcore_requeue s); try done.
    + apply (qinv_perm s); [apply Hk|by intros p; rw Hq|done|]. intros t. destruct (Hf t) as (? & ? & ? & ? & ?). done.
    + intros t _. destruct (Hf t) as (? & ? & ? & ? & ?). rw Hqd. done.
    + intros t. by destruct (Hf t) as (? & ? & ? & -> & ?).
    + intros t _ _ Hn ?. destruct (Hf t) as (-> & _). by rw Hqd.
  - exists c. destruct Hon as [H1 H2]. destruct (Hf c) as (E1 & E2 & _). split; [congruence|]. by rw E1 E2 Hq.
Qed.

Lemma quiet_upd_th t g : (forall x, core (g x) = core x) -> within quiet (upd_th t g).
Proof.
  intros Hg. apply within_modify. intros s. rw /quiet. split_and!; try done. intros y. simpl. destruct (decide (t = y)) as [->|]; by reads.
Qed.
Lemma quiet_on_wheel p f : within quiet (on_wheel p f).
Proof. rw /on_wheel. destruct (_ && _); [|auto with within]. apply within_update. intros. by rw /quiet. Qed.
Lemma quiet_current : within quiet get_current_thread.
Proof. rw /get_current_thread. apply within_bind; [exact _|auto with within|]. intros [t|]; auto with within. Qed.
End quiet.
#[export] Hint Resolve quiet_on_wheel quiet_current : within.
Ltac quiet :=
  repeat first
    [ progress intros
    | solve [eauto with within]
    | apply within_bind; [exact _| |]
    | apply quiet_upd_th; intros; reflexivity
    | match goal with |- within _ (match ?x with _ => _ end) => destruct x end ].

Lemma quiet_resumed ts flags : within quiet (TaskSleepInterruptible_resumed ts flags).
Proof. rw /TaskSleepInterruptible_resumed. quiet. Qed.
Lemma quiet_catch c m : within quiet (catch_events c m).
Proof. rw /catch_events. quiet. Qed.
#[export] Hint Resolve quiet_resumed quiet_catch : within.
Lemma quiet_masked : within quiet catch_masked.
Proof. rw /catch_masked. quiet. Qed.
#[export] Hint Resolve quiet_masked : within.

(** ** Threads that sleep, wait for events and signal them *)
Section system.
Context `{Threads}.
Implicit Types (s : sched) (t c r : nat) (pc : nat -> loc) (k : kcall) (ep : nat -> bool).

(** [ep t]: the thread is inside [TaskSleepInterruptible], asleep or about to
    go on after its sleep. *)
Inductive estep : sched * (nat -> loc) * (nat -> bool) -> sched * (nat -> loc) * (nat -> bool) -> Prop :=
| e_call s pc ep c k s' :
    current_thread s = Some c -> ep c = false \/ k = CResched -> (forall r ts f, k <> CSleepIntr r ts f) ->
    may_call s pc c k -> call_run k s = Ok (tt, s') -> estep (s, pc, ep) (s', call_loc k c pc, ep)
| e_sleep s pc ep c r ts flags res s' :
    current_thread s = Some c -> ep c = false -> may_call s pc c (CSleepIntr r ts flags) ->
    TaskSleepInterruptible r ts flags s = Ok (res, s') ->
    estep (s, pc, ep) (s', pc, if res is None then <[c := true]> ep else ep)
| e_slept s pc ep c ts flags res s' :
    current_thread s = Some c -> ep c = true -> pc c = LKernel -> TaskSleepInterruptible_resumed ts flags s = Ok (res, s') ->
    estep (s, pc, ep) (s', pc, <[c := false]> ep)
| e_wait s pc ep c ts mask res s' :
    current_thread s = Some c -> ep c = false -> may_call s pc c (CSleepIntr (thread_rendez c) ts INTRF_ALL) ->
    event_sleep ts mask s = Ok (res, s') ->
    estep (s, pc, ep) (s', pc, if res is None then <[c := true]> ep else ep)
| e_waited s pc ep c ts res s' :
    current_thread s = Some c -> ep c = true -> pc c = LKernel -> event_wait_resumed ts s = Ok (res, s') ->
    estep (s, pc, ep) (s', pc, <[c := false]> ep)
| e_check s pc ep c mask res s' :
    current_thread s = Some c -> ep c = false -> pc c = LKernel -> sys_thread_event_check mask s = Ok (res, s') ->
    estep (s, pc, ep) (s', pc, ep)
| e_signal s pc ep c t e s' :
    current_thread s = Some c -> ep c = false -> pc c = LKernel -> raise_event t e s = Ok (tt, s') ->
    estep (s, pc, ep) (s', pc, ep).

Definition ev_ok s ep : Prop :=
  (forall t, asleep s t -> has (intr_flags (th s t)) INTRF_EVENT = true -> Z.land (pending_events (th s t)) (event_mask (th s t)) = 0) /\
  (forall t, ep t = false -> intr_flags (th s t) = 0).

Lemma ev_parts x y : ev x = ev y -> intr_flags x = intr_flags y /\ pending_events x = pending_events y /\ event_mask x = event_mask y.
Proof. by intros [= -> -> ->]. Qed.

Lemma calm_ev_ok s s' ep : calm s s' -> ev_ok s ep -> ev_ok s' ep.
Proof.
  intros [E R] [H1 H2]. split.
  - intros t [r Hr]. destruct (ev_parts _ _ (E t)) as (-> & -> & ->). apply H1. exists r. by apply R.
  - intros t Ht. destruct (ev_parts _ _ (E t)) as (-> & _). by apply H2.
Qed.

Lemma stir_ev_ok c s s' ep : stir c s s' -> ep c = false -> ev_ok s ep -> ev_ok s' ep.
Proof.
  intros [E R] Hc [H1 H2]. split.
  - intros t [r Hr] Hf. destruct (ev_parts _ _ (E t)) as (E1 & -> & ->). rw E1 in Hf.
    destruct (R r t Hr) as [Ht| ->]; [apply H1; [by exists r|done]|]. by rw H2 in Hf.
  - intros t Ht. destruct (ev_parts _ _ (E t)) as (-> & _). by apply H2.
Qed.

Lemma dozed_ev_ok c flags s s' ep :
  dozed c flags s s' -> TaskCheckInterruptible (th s c) flags = false -> ev_ok s ep -> ev_ok s' (<[c := true]> ep).
Proof.
  intros (E & Ec & R) Hn [H1 H2]. split.
  - intros t [r Hr] Hf. destruct (decide (t = c)) as [->|Hne].
    + injection Ec as E1 E2 E3. rw E1 in Hf. rw E2 E3. rw /TaskCheckInterruptible Hf /= in Hn.
      rw /has in Hn. apply negb_false_iff in Hn. by apply Z.eqb_eq.
    + destruct (ev_parts _ _ (E t Hne)) as (E1 & -> & ->). rw E1 in Hf. apply H1; [|done].
      exists r. by destruct (R r t Hr).
  - intros t Ht. destruct (decide (t = c)) as [->|]; [by rw fn_lookup_insert in Ht|]. rw fn_lookup_insert_ne in Ht; [congruence|].
    destruct (ev_parts _ _ (E t ltac:(done))) as (-> & _). by apply H2.
Qed.

(** Changes to the events of a thread that is awake. *)
Lemma awake_ev_ok c s s' ep ep' :
  ~ asleep s c -> rendez s' = rendez s -> (forall t, t <> c -> ev (th s' t) = ev (th s t)) ->
  (ep' c = false -> intr_flags (th s' c) = 0) -> (forall t, t <> c -> ep' t = false -> ep t = false) -> ev_ok s ep -> ev_ok s' ep'.
Proof.
  intros Hc Hr E Hi Hep [H1 H2]. split.
  - intros t Ht. assert (asleep s t) as Ht' by (move: Ht; by rw /asleep Hr). assert (t <> c) as Hne by congruence.
    destruct (ev_parts _ _ (E t Hne)) as (-> & -> & ->). by apply H1.
  - intros t Ht. destruct (decide (t = c)) as [->|Hne]; [by apply Hi|]. destruct (ev_parts _ _ (E t Hne)) as (-> & _).
    by apply H2, Hep.
Qed.

Lemma running_awake s pc c : kinv s pc -> current_thread s = Some c -> on_cpu s c /\ ~ asleep s c.
Proof.
  intros [Hk [c' Hon]] Hc. assert (c' = c) as -> by (destruct Hon; congruence). split; [done|].
  by apply (on_cpu_free _ _ _ _ Hk).
Qed.

(** *** What the pieces do to the caller's events and to nobody else's *)
Definition own c s s' : Prop := rendez s' = rendez s /\ (forall t, t <> c -> ev (th s' t) = ev (th s t)).
#[export] Instance own_preorder c : PreOrder (own c).
Proof. split; [by split|]. intros s1 s2 s3 [H1 H2] [H3 H4]. split; [congruence|]. intros t Ht. by rw H4 // H2. Qed.
Lemma own_upd_th c g : within (own c) (upd_th c g).
Proof. apply within_modify. intros s. split; [done|]. intros t Ht. simpl. by reads. Qed.
Lemma own_on_wheel c p f : within (own c) (on_wheel p f).
Proof. rw /on_wheel. destruct (_ && _); [|auto with within]. apply within_update. by intros; split. Qed.
Hint Resolve own_upd_th own_on_wheel : within.

Lemma current_run s c : current_thread s = Some c -> get_current_thread s = Ok (c, s).
Proof. intros Hc. rw /get_current_thread. mrun. by rw Hc. Qed.

Lemma catch_run c mask s :
  catch_events c mask s =
    Ok (Z.land (pending_events (th s c)) mask,
        s <| th ::= fun m => <[c := (m c) <| pending_events ::= fun p => Z.land p (Z.lnot (Z.land (pending_events (th s c)) mask)) |>]> m |>).
Proof. done. Qed.
Lemma masked_run c s : current_thread s = Some c -> catch_masked s = catch_events c (event_mask (th s c)) s.
Proof. intros Hc. rw /catch_masked {1}/mbind {1}/M_bind (current_run s c Hc). done. Qed.

Lemma catch_own c mask s v s' :
  catch_events c mask s = Ok (v, s') -> own c s s' /\ intr_flags (th s' c) = intr_flags (th s c) /\ quiet s s'.
Proof.
  intros Hr. pose proof (quiet_catch c mask s v s' Hr). rw catch_run in Hr. injection Hr as _ <-. split_and!; [split|..]; try done.
  - intros t Ht. simpl. by reads.
  - simpl. by reads.
Qed.

Lemma resumed_own c ts flags s v s' :
  current_thread s = Some c -> TaskSleepInterruptible_resumed ts flags s = Ok (v, s') ->
  own c s s' /\ intr_flags (th s' c) = 0 /\ quiet s s'.
Proof.
  intros Hc Hr. pose proof (quiet_resumed ts flags s v s' Hr) as Hq. rw /TaskSleepInterruptible_resumed {1}/mbind {1}/M_bind (current_run s c Hc) in Hr.
  apply bind_inv in Hr as (u & s1 & H1 & Hr). split; [|split; [|done]].
  - transitivity s1; [exact (within_run _ _ _ _ _ (own_upd_th c _) H1)|]. clear H1. eapply within_run; [|exact Hr]. apply within_bind; [exact _|auto with within|].
    intros x. destruct (negb ts); [auto with within|]. destruct (timer_armed x); [|auto with within].
    apply within_bind; [exact _|auto with within|]. intros _. apply within_bind; [exact _|auto with within|]. auto with within.
  - injection H1 as _ <-. apply bind_inv in Hr as (x & s1 & [= <- <-] & Hr). revert Hr. simpl.
    destruct (negb ts); [intros [= _ <-]; simpl; by reads|]. reads. simpl. destruct (timer_armed (th s c)); [|intros [= _ <-]; simpl; by reads].
    intros Hr. apply bind_inv in Hr as (u1 & s1 & H1 & Hr). apply bind_inv in Hr as (u2 & s2 & [= _ <-] & Hr).
    injection Hr as _ <-. simpl. reads. move: H1. rw /on_wheel /update. destruct (_ && _); [|done].
    destruct (dl_rem _ _); [|done..]. intros [= _ <-]. simpl. by reads.
Qed.

(** A word has the bit of an event up to 31; from 32 on it has none. *)
Lemma event_bit_set e : 0 <= e < 32 -> Z.testbit (event_bit e) e = true.
Proof. intros He. rw /event_bit /wrap32 Z.mod_pow2_bits_low; [lia|]. rw bit_testbit; [lia|]. by apply bool_decide_true. Qed.
Lemma event_bit_lost e : 32 <= e -> event_bit e = 0.
Proof.
  intros He. rw /event_bit /wrap32 /bit Z.shiftl_1_l. replace e with (e - 32 + 32) by lia. rw Z.pow_add_r; [lia..|]. apply Z.mod_mul. lia.
Qed.

(** The event recorded, and the two outcomes of raising it. *)
Definition raised t e s : sched := s <| th ::= fun m => <[t := (m t) <| pending_events ::= fun p => Z.lor p (event_bit e) |>]> m |>.

Lemma raise_cases s pc c t e :
  kinv s pc -> current_thread s = Some c -> pc c = LKernel ->
  exists s', raise_event t e s = Ok (tt, s') /\ kinv s' pc /\
    ((s' = raised t e s /\ (asleep s t -> has (intr_flags (th s t)) INTRF_EVENT = true ->
        Z.land (Z.lor (pending_events (th s t)) (event_bit e)) (event_mask (th s t)) = 0)) \/
     (exists r, t ∈ rendez s r /\ has (intr_flags (th s t)) INTRF_EVENT = true /\
        s' = woken (raised t e s) r t (list_remove1 t (rendez s r)))).
Proof.
  intros Hi Hc Hpc. set s1 := raised t e s.
  assert (quiet s s1) as Hq. { apply (within_run quiet (upd_th t (fun x => x <| pending_events ::= fun p => Z.lor p (event_bit e) |>)) s tt); [by apply quiet_upd_th|done]. }
  pose proof (quiet_kinv _ _ _ Hq Hi) as Hi1.
  assert (th s1 t = (th s t) <| pending_events ::= fun p => Z.lor p (event_bit e) |>) as Ht. { rw /s1 /raised /=. by reads. }
  assert (raise_event t e s = (if negb (Z.land (Z.lor (pending_events (th s t)) (event_bit e)) (event_mask (th s t)) =? 0)
    then TaskWakeupSpecific t INTRF_EVENT else mret tt) s1) as Hrun.
  { rw /raise_event {1}/mbind {1}/M_bind {1}/upd_th {1}/modify {1}/mbind {1}/M_bind {1}/gets -/(raised t e s) -/s1 Ht. done. }
  rw Hrun. destruct (Z.eqb_spec (Z.land (Z.lor (pending_events (th s t)) (event_bit e)) (event_mask (th s t))) 0) as [E|E].
  { exists s1. split; [done|]. split; [done|by left]. }
  destruct (running_awake _ _ _ Hi1 Hc) as [Hon _]. destruct Hi1 as [Hk1 Hcpu1].
  destruct (TaskWakeupSpecific_spec s1 pc t INTRF_EVENT Hk1) as (s' & Hw & Hk' & Hc' & Hyes & Hno).
  { rw (on_cpu_owner _ _ _ Hk1 Hon Hpc) //. }
  exists s'. split; [done|]. split; [split; [done|by exists c; apply Hc']|]. rw Ht /= orb_false_r in Hyes, Hno.
  destruct (decide (state (th s t) = THREAD_STATE_RENDEZ_BLOCKED /\ has (intr_flags (th s t)) INTRF_EVENT = true)) as [[Hs Hf]|Hn].
  - right. destruct (Hyes Hs Hf) as (r & Hr & ->). by exists r.
  - left. split; [apply Hno; destruct (decide (state (th s t) = THREAD_STATE_RENDEZ_BLOCKED)); [right; apply not_true_is_false; naive_solver|by left]|].
    intros [r Hr] Hf. exfalso. apply Hn. split; [|done].
    by apply (k_rdz _ _ _ Hk1 r t) in Hr as (_ & _ & Hst & _); rw Ht in Hst.
Qed.

Lemma raised_woken s pc t e r :
  kinv s pc -> t ∈ rendez s r -> forall r' y,
  y ∈ rendez (woken (raised t e s) r t (list_remove1 t (rendez s r))) r' <-> y ∈ rendez s r' /\ y <> t.
Proof.
  intros [Hk _] Hr r' y. rw /woken /=. destruct (decide (r = r')) as [<-|Hne]; reads.
  - apply elem_of_list_remove1, (k_rnodup _ _ _ Hk).
  - change (rendez (raised t e s) r') with (rendez s r'). split; [|naive_solver]. intros Hy. split; [done|]. intros ->. apply Hne.
    by apply (kcore_one_rendez s pc None r r' t).
Qed.

Lemma raise_spec s pc ep c t e :
  kinv s pc -> current_thread s = Some c -> pc c = LKernel -> ev_ok s ep ->
  exists s', raise_event t e s = Ok (tt, s') /\ kinv s' pc /\ ev_ok s' ep /\
    pending_events (th s' t) = Z.lor (pending_events (th s t)) (event_bit e) /\
    (asleep s t -> has (intr_flags (th s t)) INTRF_EVENT = true ->
     Z.land (Z.lor (pending_events (th s t)) (event_bit e)) (event_mask (th s t)) <> 0 -> t ∈ B s' /\ ~ asleep s' t).
Proof.
  intros Hi Hc Hpc [O1 O2]. destruct (raise_cases s pc c t e Hi Hc Hpc) as (s' & Hrun & Hi' & Hcase). exists s'. split; [done|]. split; [done|].
  assert (forall y, y <> t -> th (raised t e s) y = th s y) as Hy. { intros y ?. rw /raised /=. by reads. }
  assert (th (raised t e s) t = (th s t) <| pending_events ::= fun p => Z.lor p (event_bit e) |>) as Ht. { rw /raised /=. by reads. }
  destruct Hcase as [[-> Hz]|(r & Hr & Hf & ->)].
  - split_and!; [split|by rw Ht|naive_solver]; intros y; (destruct (decide (y = t)) as [->|]; [rw Ht /=|rw Hy //]); auto.
  - set s2 := woken _ _ _ _. pose proof (raised_woken s pc t e r Hi Hr) as Hw.
    assert (forall y, ev (th s2 y) = ev (th (raised t e s) y)) as Hev. { intros y. by apply (woken_fields ev). }
    split_and!.
    + split.
      * intros y [r' [Hya Hyt]%Hw]. destruct (ev_parts _ _ (Hev y)) as (-> & -> & ->). rw Hy //. apply O1. by exists r'.
      * intros y Hep. destruct (ev_parts _ _ (Hev y)) as (-> & _). destruct (decide (y = t)) as [->|]; [rw Ht /=|rw Hy //]; auto.
    + destruct (ev_parts _ _ (Hev t)) as (_ & -> & _). by rw Ht.
    + intros _ _ _. split; [rw /s2 /woken /=; set_solver|]. intros [r' []%Hw]. done.
Qed.

Lemma sleep_step s pc ep c r ts flags res s' :
  kinv s pc -> ev_ok s ep -> current_thread s = Some c -> may_call s pc c (CSleepIntr r ts flags) ->
  TaskSleepInterruptible r ts flags s = Ok (res, s') ->
  kinv s' pc /\ ev_ok s' (if res is None then <[c := true]> ep else ep) /\ (res <> None -> s' = s).
Proof.
  intros Hi Hok Hc Hm Hr. destruct (call_spec s pc c _ Hi Hc Hm) as (s'' & Hr' & Hi'). simpl in Hr', Hi'.
  rw (void_run _ _ _ _ Hr) in Hr'. injection Hr' as <-. split; [done|]. pose proof (doze c r ts flags s res s' Hc Hr) as Hd.
  destruct (TaskCheckInterruptible (th s c) flags) eqn:E; destruct Hd as [-> Hd]; [by subst|].
  split; [by apply (dozed_ev_ok c flags s)|done].
Qed.

Lemma slept_step s pc ep c ts flags res s' :
  kinv s pc -> ev_ok s ep -> current_thread s = Some c -> TaskSleepInterruptible_resumed ts flags s = Ok (res, s') ->
  kinv s' pc /\ ev_ok s' (<[c := false]> ep) /\ current_thread s' = Some c.
Proof.
  intros Hi Hok Hc Hr. destruct (running_awake _ _ _ Hi Hc) as [_ Ha].
  destruct (resumed_own c ts flags s res s' Hc Hr) as ([H1 H2] & H3 & Hq). split_and!; [by apply (quiet_kinv s)| |].
  - apply (awake_ev_ok c s s' ep); try done. intros t Ht. by reads.
  - by destruct Hq as (_ & _ & _ & _ & _ & _ & _ & ->).
Qed.

Lemma catch_step s pc ep c mask v s' :
  kinv s pc -> ev_ok s ep -> current_thread s = Some c -> catch_events c mask s = Ok (v, s') -> kinv s' pc /\ ev_ok s' ep.
Proof.
  intros Hi Hok Hc Hr. destruct (running_awake _ _ _ Hi Hc) as [_ Ha]. destruct (catch_own c mask s v s' Hr) as ([H1 H2] & H3 & Hq).
  split; [by apply (quiet_kinv s)|]. apply (awake_ev_ok c s s' ep); try done. intros Hep. rw H3. by apply Hok.
Qed.

(** The state in which the wait tests for events. *)
Definition masked c mask s : sched := s <| th ::= fun m => <[c := (m c) <| event_mask := mask |>]> m |>.
Lemma masked_step s pc ep c mask :
  kinv s pc -> ev_ok s ep -> current_thread s = Some c -> kinv (masked c mask s) pc /\ ev_ok (masked c mask s) ep.
Proof.
  intros Hi Hok Hc. destruct (running_awake _ _ _ Hi Hc) as [_ Ha]. split.
  - apply (quiet_kinv s); [|done]. apply (within_run quiet (upd_th c (fun x => x <| event_mask := mask |>)) s tt); [by apply quiet_upd_th|done].
  - apply (awake_ev_ok c s _ ep); try done; [intros t Ht; rw /masked /=; by reads|]. intros Hep. rw /masked /=. reads. by apply Hok.
Qed.

Lemma event_sleep_run s c ts mask :
  current_thread s = Some c ->
  event_sleep ts mask s =
    if Z.land (pending_events (th s c)) mask =? 0 then
      (r ← TaskSleepInterruptible (thread_rendez c) ts INTRF_ALL;
       match r with None => mret None | Some _ => v ← catch_masked; mret (Some v) end) (masked c mask s)
    else (v ← catch_masked; mret (Some v)) (masked c mask s).
Proof.
  intros Hc. rw /event_sleep {1}/mbind {1}/M_bind (current_run s c Hc). rw {1}/mbind {1}/M_bind {1}/upd_th {1}/modify.
  rw {1}/mbind {1}/M_bind {1}/gets -/(masked c mask s). assert (th (masked c mask s) c = (th s c) <| event_mask := mask |>) as ->.
  { rw /masked /=. by reads. } simpl. by destruct (_ =? 0).
Qed.

Lemma wait_step s pc ep c ts mask res s' :
  kinv s pc -> ev_ok s ep -> current_thread s = Some c -> may_call s pc c (CSleepIntr (thread_rendez c) ts INTRF_ALL) ->
  event_sleep ts mask s = Ok (res, s') -> kinv s' pc /\ ev_ok s' (if res is None then <[c := true]> ep else ep).
Proof.
  intros Hi Hok Hc Hm Hr. rw (event_sleep_run s c ts mask Hc) in Hr. destruct (masked_step s pc ep c mask Hi Hok Hc) as [Hi1 Hok1].
  assert (forall v s2, (v ← catch_masked; mret (Some v)) (masked c mask s) = Ok (v, s2) -> v <> None /\ kinv s2 pc /\ ev_ok s2 ep) as Hcatch.
  { intros v s2 Hv. apply bind_inv in Hv as (v' & s3 & H3 & Hv). injection Hv as <- <-. split; [done|].
    rw (masked_run c) // in H3. by apply (catch_step (masked c mask s) pc ep c (event_mask (th (masked c mask s) c)) v'). }
  assert (res <> None -> (v ← catch_masked; mret (Some v)) (masked c mask s) = Ok (res, s') ->
    kinv s' pc /\ ev_ok s' (if res is None then <[c := true]> ep else ep)) as Hgo.
  { intros _ Hv. destruct (Hcatch res s' Hv) as (Hn & ? & ?). by destruct res. }
  destruct (_ =? 0); [|apply Hgo; [by apply (Hcatch res s')|done]].
  apply bind_inv in Hr as (r & s2 & Hr & Hk). assert (may_call (masked c mask s) pc c (CSleepIntr (thread_rendez c) ts INTRF_ALL)) as Hm'.
  { destruct Hm as (H1 & H2 & H3). split_and!; try done. rw /masked /=. by reads. }
  destruct (sleep_step (masked c mask s) pc ep c _ ts INTRF_ALL r s2 Hi1 Hok1 Hc Hm' Hr) as (Hi2 & Hok2 & Heq).
  destruct r as [e|]; [|by injection Hk as <- <-]. rw Heq // in Hk. apply Hgo; [by apply (Hcatch res s')|done].
Qed.

Lemma estep_inv x y : estep x y -> kinv x.1.1 x.1.2 -> ev_ok x.1.1 x.2 -> kinv y.1.1 y.1.2 /\ ev_ok y.1.1 y.2.
Proof.
  intros Hs Hi Hok. destruct Hs as [s pc ep c k s' Hc Hep Hk Hm Hr|s pc ep c r ts flags res s' Hc Hep Hm Hr|s pc ep c ts flags res s' Hc Hep Hpc Hr
    |s pc ep c ts mask res s' Hc Hep Hm Hr|s pc ep c ts res s' Hc Hep Hpc Hr|s pc ep c mask res s' Hc Hep Hpc Hr|s pc ep c t e s' Hc Hep Hpc Hr]; simpl in *.
  - destruct (call_spec s pc c k Hi Hc Hm) as (s'' & Hr' & Hi'). assert (s'' = s') as -> by congruence. split; [done|].
    assert ((exists r, k = CSleep r) \/ (forall r, k <> CSleep r)) as [[r ->]|Hn] by (destruct k; by eauto).
    + apply (stir_ev_ok c s); [by apply (stir_TaskSleep c r)|by destruct Hep|done].
    + apply (calm_ev_ok s); [|done]. apply (within_run calm _ _ _ _ (calm_call k Hn Hk) Hr).
  - by destruct (sleep_step s pc ep c r ts flags res s') as (? & ? & _).
  - by destruct (slept_step s pc ep c ts flags res s') as (? & ? & _).
  - by apply (wait_step s pc ep c ts mask).
  - apply bind_inv in Hr as (v & s1 & H1 & Hr). destruct (slept_step s pc ep c ts INTRF_ALL v s1 Hi Hok Hc H1) as (Hi1 & Hok1 & Hc1).
    rw (masked_run c) // in Hr. by apply (catch_step s1 pc _ c (event_mask (th s1 c)) res).
  - rw /sys_thread_event_check {1}/mbind {1}/M_bind (current_run s c Hc) in Hr. by apply (catch_step s pc ep c mask res).
  - destruct (raise_spec s pc ep c t e Hi Hc Hpc Hok) as (s'' & Hr' & ? & ? & _). by assert (s'' = s') as -> by congruence.
Qed.

Lemma reachable_ev x y : rtc estep x y -> kinv x.1.1 x.1.2 -> ev_ok x.1.1 x.2 -> kinv y.1.1 y.1.2 /\ ev_ok y.1.1 y.2.
Proof.
  induction 1 as [|x y z Hs _ IH]; [done|]. intros Hi Hok. destruct (estep_inv _ _ Hs Hi Hok). by apply IH.
Qed.

(** C29: No event is lost: whatever threads sleep, are woken, wait for events
    and signal them, a thread that sleeps and can be woken by events has none
    of those it waits for pending; and a signal sent from inside the kernel
    always succeeds, is recorded, and moves a thread that waits for it to the
    queue of the lock. *)
Theorem thread_events_not_lost s0 pc0 ep0 s pc ep :
  kinv s0 pc0 -> ev_ok s0 ep0 -> rtc estep (s0, pc0, ep0) (s, pc, ep) ->
  (forall t, asleep s t -> has (intr_flags (th s t)) INTRF_EVENT = true ->
     Z.land (pending_events (th s t)) (event_mask (th s t)) = 0) /\
  (forall c t e, current_thread s = Some c -> pc c = LKernel -> 0 <= e < 32 ->
     exists s', do_thread_event_signal (tid t) e s = Ok (RVal 0, s') /\ Z.testbit (pending_events (th s' t)) e = true /\
       (asleep s t -> has (intr_flags (th s t)) INTRF_EVENT = true -> Z.testbit (event_mask (th s t)) e = true ->
        t ∈ bkl_blocked_list s' /\ ~ asleep s' t)).
Proof.
  intros Hi Hok Hrtc. destruct (reachable_ev _ _ Hrtc Hi Hok) as [Hi1 Hok1]. simpl in Hi1, Hok1. split; [apply Hok1|].
  intros c t e Hc Hpc He. destruct (raise_spec s pc ep c t e Hi1 Hc Hpc Hok1) as (s' & Hr & _ & _ & Hp & Hw).
  pose proof (event_bit_set e He) as Hbit.
  exists s'. split_and!.
  - rw /do_thread_event_signal get_thread_tid. destruct (Z.ltb_spec e 0); [lia|]. destruct (Z.ltb_spec 31 e); [lia|]. simpl.
    by rw {1}/mbind {1}/M_bind Hr.
  - by rw Hp Z.lor_spec Hbit orb_true_r.
  - intros Ha Hf Hm. apply Hw; try done. apply (testbit_nonzero _ e). by rw Z.land_spec Z.lor_spec Hbit Hm orb_true_r.
Qed.

(** [sys_thread_event_wait] returns at once the events of the mask that are
    pending, and takes exactly these, when there are any; otherwise it sleeps
    on the thread's own rendez with the mask set. When the thread runs again it
    takes the events of its mask that have arrived. *)
Theorem thread_event_wait_correct s pc c mask :
  kinv s pc -> current_thread s = Some c -> pc c = LKernel -> sched_policy (th s c) <> SCHED_IDLE ->
  let take_events m s' := forall t, pending_events (th s' t) =
    if decide (t = c) then Z.land (pending_events (th s c)) (Z.lnot m) else pending_events (th s t) in
  (Z.land (pending_events (th s c)) mask <> 0 ->
     exists s', sys_thread_event_wait mask s = Ok (Some (Z.land (pending_events (th s c)) mask), s') /\ rendez s' = rendez s /\ take_events mask s') /\
  (Z.land (pending_events (th s c)) mask = 0 ->
     exists s', sys_thread_event_wait mask s = Ok (None, s') /\ kinv s' pc /\ rendez s' (thread_rendez c) = rendez s (thread_rendez c) ++ [c] /\
       event_mask (th s' c) = mask /\ intr_flags (th s' c) = INTRF_ALL) /\
  (exists s', event_wait_resumed false s = Ok (Z.land (pending_events (th s c)) (event_mask (th s c)), s') /\ rendez s' = rendez s /\
     take_events (event_mask (th s c)) s').
Proof.
  intros Hi Hc Hpc Hid take_events. rw /sys_thread_event_wait (event_sleep_run s c None mask Hc).
  assert (forall p m, Z.land p (Z.lnot (Z.land p m)) = Z.land p (Z.lnot m)) as Hland.
  { intros p m. apply Z.bits_inj'. intros n Hn. rw !Z.land_spec !Z.lnot_spec // Z.land_spec. by destruct (Z.testbit p n), (Z.testbit m n). }
  assert (th (masked c mask s) c = (th s c) <| event_mask := mask |>) as Hm by (rw /masked /=; by reads). split_and!.
  - intros Hne. destruct (Z.eqb_spec (Z.land (pending_events (th s c)) mask) 0); [done|].
    rw {1}/mbind {1}/M_bind (masked_run c) // catch_run Hm. eexists. split; [reflexivity|]. split; [done|].
    intros t. simpl. case_decide; [subst t; reads; simpl; by rw Hland|]. by reads.
  - intros E. rw {1}E /=. assert (kinv (masked c mask s) pc) as Hi1.
    { apply (quiet_kinv s); [|done]. apply (within_run quiet (upd_th c (fun x => x <| event_mask := mask |>)) s tt); [by apply quiet_upd_th|done]. }
    destruct (running_awake _ _ _ Hi1 Hc) as [Hon _].
    assert (TaskCheckInterruptible (th (masked c mask s) c) INTRF_ALL = false) as Hchk.
    { rw Hm /TaskCheckInterruptible /has /=. by rw E. }
    destruct (TaskSleepInterruptible_spec (masked c mask s) pc c (thread_rendez c) None INTRF_ALL Hi1 Hon Hpc) as (s' & res & Hr & Hi2 & _ & Hs);
      [by rw Hm|done|]. destruct (Hs Hchk) as (-> & Hrr & _). exists s'. rw {1}/mbind {1}/M_bind Hr. split_and!; try done;
      pose proof (doze c _ None INTRF_ALL (masked c mask s) None s' Hc Hr) as Hd; rw Hchk in Hd; destruct Hd as (_ & _ & Hd & _); rw Hm /ev in Hd; by injection Hd.
  - set s1 := s <| th ::= fun m => <[c := (m c) <| intr_flags := 0 |>]> m |>.
    assert (th s1 c = (th s c) <| intr_flags := 0 |>) as H1 by (rw /s1 /=; by reads).
    assert (exists v, TaskSleepInterruptible_resumed false INTRF_ALL s = Ok (v, s1)) as [v Hv].
    { eexists. by rw /TaskSleepInterruptible_resumed {1}/mbind {1}/M_bind (current_run s c Hc). }
    eexists. rw /event_wait_resumed {1}/mbind {1}/M_bind Hv (masked_run c) // catch_run H1. split; [reflexivity|]. split; [done|].
    intros t. rw /s1 /=. case_decide; [subst t; reads; simpl; by rw Hland|]. by reads.
Qed.
End system.

(** ** Witnesses: on the threads of [Sample], thread 0 running in the kernel *)
Import Sample.
Lemma sample_ev_ok : ev_ok state0 (fun _ => false).
Proof.
  split; [intros t ->%sample_asleep; discriminate|]. intros t _. by destruct t as [|[|[|[|t]]]].
Qed.

Lemma thread_events_not_lost_witness :
  (forall t, asleep state0 t -> has (intr_flags (th state0 t)) INTRF_EVENT = true ->
     Z.land (pending_events (th state0 t)) (event_mask (th state0 t)) = 0) /\
  (exists s', do_thread_event_signal (H := plain_threads) 3 4 state0 = Ok (RVal 0, s') /\ Z.testbit (pending_events (th s' 2%nat)) 4 = true).
Proof.
  destruct (thread_events_not_lost (H := plain_threads) state0 pc0 (fun _ => false) state0 pc0 (fun _ => false)) as [H1 H2];
    [apply sample_kinv|apply sample_ev_ok|apply rtc_refl|]. split; [exact H1|].
  destruct (H2 0%nat 2%nat 4) as (s' & Hr & Hp & _); [reflexivity|reflexivity|lia|]. exists s'. split; [exact Hr|exact Hp].
Defined.

Lemma thread_event_wait_correct_witness :
  exists s', sys_thread_event_wait (H := plain_threads) 6 state0 = Ok (None, s') /\ kinv s' pc0 /\ rendez s' 0%nat = [0%nat] /\
    event_mask (th s' 0%nat) = 6 /\ intr_flags (th s' 0%nat) = INTRF_ALL.
Proof.
  destruct (thread_event_wait_correct (H := plain_threads) state0 pc0 0 6) as (_ & Hs & _);
    [apply sample_kinv|reflexivity|reflexivity|discriminate|]. exact (Hs eq_refl).
Defined.
