(* ===== verification/Frames.v ===== *)
(** * Frames: what kernel calls leave alone

    For the components that keep threads on rendez of their own: what signals,
    sleeping, waking and the calls of other components do to these. *)

From S2P Require Import Prelude Sched SchedQueue Bkl BklSteps Event EventThms.
Local Open Scope Z_scope.
Local Open Scope kernel_scope.

(** Initialising a rendez on which nobody sleeps changes nothing. *)
Lemma InitRendez_kinv s pc r : kinv s pc -> rendez s r = [] ->
  exists s', InitRendez r s = Ok (tt, s') /\ kinv s' pc /\ (forall r', rendez s' r' = rendez s r') /\ th s' = th s /\ current_thread s' = current_thread s /\
    bkl_blocked_list s' = bkl_blocked_list s.
Proof.
  intros [Hk [c Hon]] Hr. eexists. split; [reflexivity|]. set s' := _ <| _ ::= _ |>.
  assert (forall r', rendez s' r' = rendez s r') as Hrz. { intros r'. rw /s' /=. destruct (decide (r = r')) as [->|]; by reads. }
  assert (forall t, asleep s' t <-> asleep s t) as Ha. { intros t. rw /asleep. by setoid_rewrite Hrz. }
  split; [|done]. split; [|by exists c]. destruct Hk as [K1 K2 K3 K4 K5 K6 K7 K8 K9 K10 K11]. split; try done.
  - destruct K1. by split.
  - intros r'. by rw Hrz.
  - intros t Ht. rw Ha. by apply K4.
  - intros r' t. rw Hrz. apply K5.
  - intros t Ht. destruct (K6 t Ht) as (r' & ? & ?). exists r'. by rw Hrz.
  - intros t Ht. rw Ha. by apply K9.
  - intros t. rw Ha. apply K10.
Qed.

Section sched_facts.
Context `{Threads}.
Implicit Types (s : sched) (t u c r : nat) (pc : nat -> loc).

(** Threads whose sleep cannot be interrupted stay where they are. *)
Definition undisturbed s s' : Prop :=
  current_thread s' = current_thread s /\
  (forall t, intr_flags (th s' t) = intr_flags (th s t) /\ sched_policy (th s' t) = sched_policy (th s t)) /\
  (forall r t, t ∈ rendez s' r -> t ∈ rendez s r) /\
  (forall r t, t ∈ rendez s r -> intr_flags (th s t) = 0 -> t ∈ rendez s' r).

Lemma signal_undisturbed s pc c td e :
  kinv s pc -> current_thread s = Some c -> pc c = LKernel ->
  exists res s', do_thread_event_signal td e s = Ok (res, s') /\ kinv s' pc /\ undisturbed s s'.
Proof.
  intros Hi Hc Hpc. rw /do_thread_event_signal. destruct (get_thread td) as [t|]; [|by exists (RErr ENOENT), s].
  destruct (_ || _); [by exists (RErr EINVAL), s|]. destruct (raise_cases s pc c t e Hi Hc Hpc) as (s' & Hr & Hi' & Hcase).
  exists (RVal 0), s'. rw {1}/mbind {1}/M_bind Hr. split; [done|]. split; [done|].
  assert (forall y, intr_flags (th (raised t e s) y) = intr_flags (th s y) /\ sched_policy (th (raised t e s) y) = sched_policy (th s y)) as Hf.
  { intros y. rw /raised /=. destruct (decide (t = y)) as [->|]; by reads. }
  destruct Hcase as [[-> _]|(r & Hrz & Hev & ->)]; [by split_and!|]. pose proof (raised_woken s pc t e r Hi Hrz) as Hw. split_and!; [done|..].
  - intros y. rw (woken_fields intr_flags) // (woken_fields sched_policy) //.
  - intros r' y [? ?]%Hw. done.
  - intros r' y Hy H0. apply Hw. split; [done|]. intros ->. by rw H0 in Hev.
Qed.

(** Lists of such threads keep their order, too. *)
Lemma signal_keeps s pc c td e res s' :
  kinv s pc -> current_thread s = Some c -> pc c = LKernel -> do_thread_event_signal td e s = Ok (res, s') ->
  forall r, (forall t, t ∈ rendez s r -> intr_flags (th s t) = 0) -> rendez s' r = rendez s r.
Proof.
  intros Hi Hc Hpc. rw /do_thread_event_signal. destruct (get_thread td) as [t|]; [|by intros [= _ <-]].
  destruct (_ || _); [by intros [= _ <-]|]. destruct (raise_cases s pc c t e Hi Hc Hpc) as (s1 & Hr & _ & Hcase).
  rw {1}/mbind {1}/M_bind Hr. intros [= _ <-] r Hz. destruct Hcase as [[-> _]|(r' & Hrz & Hev & ->)]; [done|]. rw /woken /=.
  destruct (decide (r' = r)) as [->|]; reads; [|done]. by rw Hz in Hev.
Qed.

(** Waking the only thread that may sleep on a rendez. *)
Lemma wakeup_client s pc c r t :
  kinv s pc -> current_thread s = Some c -> pc c = LKernel -> (forall u, u ∈ rendez s r -> u = t) ->
  exists s', TaskWakeup r s = Ok (tt, s') /\ kinv s' pc /\ current_thread s' = Some c /\
    (forall u, intr_flags (th s' u) = intr_flags (th s u)) /\ rendez s' r = [] /\ (forall r', r' <> r -> rendez s' r' = rendez s r').
Proof.
  intros Hi Hc Hpc Ht. destruct (running_awake _ _ _ Hi Hc) as [Hon _]. destruct Hi as [Hk Hcpu].
  destruct (TaskWakeup_spec s pc r Hk) as (s' & Hr & Hk' & Hon' & E); [rw (on_cpu_owner _ _ _ Hk Hon Hpc) //|].
  exists s'. split; [done|]. split; [split; [done|by exists c; apply Hon']|]. pose proof (k_rnodup _ _ _ Hk r) as Hn.
  destruct (rendez s r) as [|u l] eqn:Er; subst s'; [by split_and!|].
  assert (l = []) as ->. { destruct l as [|v l]; [done|]. apply NoDup_cons in Hn as [Hn _]. rw (Ht u) in Hn; [set_solver|]. rw (Ht v) in Hn; set_solver. }
  split_and!; [done| |by rw /woken /=; reads|].
  - intros y. by rw (woken_fields intr_flags).
  - intros r' Hr'. rw /woken /=. by reads.
Qed.

(** Going to sleep where nothing interrupts. *)
Lemma sleep_client s pc c r :
  kinv s pc -> current_thread s = Some c -> pc c = LKernel -> sched_policy (th s c) <> SCHED_IDLE ->
  exists s', TaskSleepInterruptible r None INTRF_NONE s = Ok (None, s') /\ kinv s' pc /\
    (forall u, u <> c -> intr_flags (th s' u) = intr_flags (th s u)) /\ intr_flags (th s' c) = 0 /\
    rendez s' r = rendez s r ++ [c] /\ (forall r', r' <> r -> rendez s' r' = rendez s r').
Proof.
  intros Hi Hc Hpc Hid. destruct (running_awake _ _ _ Hi Hc) as [Hon _].
  destruct (TaskSleepInterruptible_spec s pc c r None INTRF_NONE Hi Hon Hpc Hid) as (s' & res & Hr & Hi' & _ & Hs); [done|].
  assert (TaskCheckInterruptible (th s c) INTRF_NONE = false) as Hn by done. destruct (Hs Hn) as (-> & Hrr & Hro).
  pose proof (doze c r None INTRF_NONE s None s' Hc Hr) as Hd. rw Hn in Hd. destruct Hd as (_ & Hd & Hdc & _).
  exists s'. split_and!; try done; [|by injection Hdc]. intros u Hu. by injection (Hd u Hu).
Qed.

(** The other calls, as long as they do not use the rendez of [P]. *)
Definition spares (P : nat -> Prop) (k : kcall) : Prop :=
  match k with
  | CSleep r | CSleepIntr r _ _ | CWakeup r | CWakeupAll r => ~ P r
  | CWakeupSpecific _ _ | CTimeout _ => False
  | _ => True
  end.
Lemma spares_spec (P : nat -> Prop) s pc c k :
  kinv s pc -> current_thread s = Some c -> may_call s pc c k -> spares P k ->
  exists s', call_run k s = Ok (tt, s') /\ kinv s' (call_loc k c pc) /\ (forall r, P r -> rendez s' r = rendez s r) /\
    (forall t, t <> c \/ k = CResched -> intr_flags (th s' t) = intr_flags (th s t)).
Proof.
  intros Hi Hc Hm Hs. destruct (call_spec s pc c k Hi Hc Hm) as (s' & Hr & Hi'). exists s'. split; [done|]. split; [done|].
  destruct (running_awake _ _ _ Hi Hc) as [Hon _]. pose proof Hi as [Hk _].
  assert (pc c = LKernel -> bkl_owner s <> None) as Ho. { intros Hpc. by rw (on_cpu_owner _ _ _ Hk Hon Hpc). }
  destruct (plain_call k) eqn:Ep.
  { destruct (still_call k Ep s tt s' Hr) as [He Hz]. split; [by rw Hz|]. intros t _. by destruct (ev_parts _ _ (He t)). }
  assert (forall t, ev (th s' t) = ev (th s t) -> intr_flags (th s' t) = intr_flags (th s t)) as Hev. { intros t E. by destruct (ev_parts _ _ E). }
  destruct k; simpl in *; try done.
  - destruct Hm as [Hpc Hid]. destruct (TaskSleep_spec s pc c r Hi Hon Hpc Hid) as (s'' & Hr' & _ & _ & Hro). assert (s'' = s') as -> by congruence.
    destruct (stir_TaskSleep c r s s' Hc Hr) as [He _]. split; [intros r' Hr''; apply Hro; congruence|]. intros t _. by apply Hev.
  - destruct Hm as (Hpc & Hid & Hts). destruct (TaskSleepInterruptible_spec s pc c r ts flags Hi Hon Hpc Hid Hts) as (s'' & res & Hr' & _ & Hy & Hn).
    rw (void_run _ _ _ _ Hr') in Hr. injection Hr as ->. pose proof (doze c r ts flags s res s' Hc Hr') as Hd.
    destruct (TaskCheckInterruptible (th s c) flags); [by destruct Hd as [_ ->]|]. destruct Hd as (_ & Hd & _). destruct (Hn eq_refl) as (_ & _ & Hro).
    split; [intros r' Hr''; apply Hro; congruence|]. intros t [Ht|]; [|done]. by apply Hev, Hd.
  - destruct Hm as [Hpc Hid]. destruct (TaskWakeup_spec s pc r Hk (Ho Hpc)) as (s'' & Hr' & _ & _ & E). assert (s'' = s') as -> by congruence.
    destruct (rendez s r) as [|u l]; subst s'; [done|]. split; [|intros t _; by rw (woken_fields intr_flags)].
    intros r' Hr''. rw /woken /=. assert (r <> r') by congruence. by reads.
  - destruct Hm as [Hpc Hid]. destruct (TaskWakeupAll_spec s pc r Hk (Ho Hpc)) as (s'' & Hr' & _ & _ & _ & Hro & _). assert (s'' = s') as -> by congruence.
    split; [intros r' Hr''; apply Hro; congruence|]. intros t _. apply Hev.
    by destruct (calm_call (CWakeupAll r) ltac:(done) ltac:(done) s tt s' Hr) as [He _].
Qed.
End sched_facts.
