(* ===== verification/Msg.v ===== *)
(** * Msg: messages between the kernel and its servers

    fs/msg.c and the port part of fs/msgport.c. A client's request is a [Msg]
    on the stack of its [ksendmsg] call, so a thread has at most one and the
    message is named by its thread; [msgs t] is [None] when there is no such
    call, and touching the message then is a fault. A message port belongs to
    a superblock or, for replies, to a thread. Sleeping, waking and events are
    those of [Sched] and [Event]. A call that sleeps returns [None]; what it
    does when its thread runs again is [ksendmsg_resumed]. *)

From S2P Require Import Prelude Sched SchedQueue Bkl BklSteps FileDesc Event.
Local Open Scope Z_scope.
Local Open Scope kernel_scope.

(** ** Data *)
Inductive portid : Type := PServer (sb : nat) | PReply (t : nat).
#[export] Instance portid_eq_dec : EqDecision portid.
Proof. solve_decision. Defined.

Record MsgPort := mkMsgPort {
  pending_msg_list : list nat;
  received_msg_list : list nat;
  mp_flags : Z;
  target_tid : Z;
  target_event : Z }.
Definition eta_MsgPort p := mkMsgPort (pending_msg_list p) (received_msg_list p) (mp_flags p) (target_tid p) (target_event p).
#[export] Instance set_pending_msg_list : Setter pending_msg_list := ltac:(solve_setter eta_MsgPort).
#[export] Instance set_received_msg_list : Setter received_msg_list := ltac:(solve_setter eta_MsgPort).
#[export] Instance set_mp_flags : Setter mp_flags := ltac:(solve_setter eta_MsgPort).

Definition MPF_SHUTDOWN : Z := bit 0.
Definition INVALID_PID : Z := -1.
Definition KUCOPY : Z := 0.
Definition IPCOPY : Z := 1.

Record msgiov := mkIov { iov_addr : Z; iov_size : Z }.

(** [linked] tells whether the [link] field is on a list; a message that is on
    one cannot be put on another. An array of io vectors is what the memory
    from its address on contains; [riov] may be NULL. *)
Record Msg := mkMsg {
  linked : bool;
  msgid : Z;
  port : option portid;
  reply_port : option portid;
  ipc : Z;
  cmd : Z;                         (* [req->cmd] *)
  reply : option (list Z);         (* the buffer for the reply, or NULL *)
  reply_status : ret;
  siov_cnt : Z;
  siov : nat -> msgiov;
  riov_cnt : Z;
  riov : option (nat -> msgiov) }.
Definition eta_Msg m := mkMsg (linked m) (msgid m) (port m) (reply_port m) (ipc m) (cmd m) (reply m) (reply_status m)
  (siov_cnt m) (siov m) (riov_cnt m) (riov m).
#[export] Instance set_linked : Setter linked := ltac:(solve_setter eta_Msg).
#[export] Instance set_msgid : Setter msgid := ltac:(solve_setter eta_Msg).
#[export] Instance set_port : Setter port := ltac:(solve_setter eta_Msg).
#[export] Instance set_cmd : Setter cmd := ltac:(solve_setter eta_Msg).
#[export] Instance set_reply : Setter reply := ltac:(solve_setter eta_Msg).
#[export] Instance set_reply_status : Setter reply_status := ltac:(solve_setter eta_Msg).

(** The threads, the messages, [thread->msg], the ports and the open files. *)
Record ipcs := mkIpcs {
  sch : sched;
  msgs : nat -> option Msg;
  thread_msg : nat -> option nat;
  mport : portid -> MsgPort;
  mfiles : fs }.
Definition eta_ipcs s := mkIpcs (sch s) (msgs s) (thread_msg s) (mport s) (mfiles s).
#[export] Instance set_sch : Setter sch := ltac:(solve_setter eta_ipcs).
#[export] Instance set_msgs : Setter msgs := ltac:(solve_setter eta_ipcs).
#[export] Instance set_thread_msg : Setter thread_msg := ltac:(solve_setter eta_ipcs).
#[export] Instance set_mport : Setter mport := ltac:(solve_setter eta_ipcs).

(** What the headers of the message interface provide, and the rendez of each
    port. *)
Class MsgConsts := {
  CMD_ABORT : Z;
  CMD_SENDIO : Z;
  IOV_MAX : Z;
  port_rendez : portid -> nat }.

(** ** State access *)
Definition on_sch {A} (m : M sched A) : M ipcs A := fun s =>
  match m (sch s) with Ok (a, c) => Ok (a, s <| sch := c |>) | Panic => Panic | Fault => Fault end.
Definition on_mfiles {A} (m : M fs A) : M ipcs A := fun s =>
  match m (mfiles s) with
  | Ok (a, f) => Ok (a, mkIpcs (sch s) (msgs s) (thread_msg s) (mport s) f) | Panic => Panic | Fault => Fault end.
Definition get_msg (m : nat) : M ipcs Msg := o ← gets (fun s => msgs s m); match o with Some x => mret x | None => fault end.
Definition put_msg (m : nat) (x : option Msg) : M ipcs unit := modify (fun s => s <| msgs ::= fun f => <[m := x]> f |>).
Definition upd_msg (m : nat) (f : Msg -> Msg) : M ipcs unit := x ← get_msg m; put_msg m (Some (f x)).
Definition upd_port (p : portid) (f : MsgPort -> MsgPort) : M ipcs unit :=
  modify (fun s => s <| mport ::= fun g => <[p := f (g p)]> g |>).
Definition set_thread_msg_to (t : nat) (o : option nat) : M ipcs unit := modify (fun s => s <| thread_msg ::= fun g => <[t := o]> g |>).

(** [DLIST_ADD_TAIL], [DLIST_REM_HEAD] and [DLIST_REM_ENTRY] on the pending
    list of a port. *)
Definition pend (p : portid) (m : nat) : M ipcs unit :=
  x ← get_msg m;
  if linked x then fault
  else
    _ ← put_msg m (Some (x <| linked := true |>));
    l ← gets (fun s => pending_msg_list (mport s p));
    l' ← lift (dl_add_tail m l);
    upd_port p (fun q => q <| pending_msg_list := l' |>).
Definition unpend (p : portid) (m : nat) : M ipcs unit :=
  l ← gets (fun s => pending_msg_list (mport s p));
  l' ← lift (dl_rem m l);
  _ ← upd_port p (fun q => q <| pending_msg_list := l' |>);
  upd_msg m (fun x => x <| linked := false |>).

Section ops.
Context `{Threads, MsgConsts, FsConsts}.

(** ** Ports *)
Definition init_msgport (p : portid) (tid event : Z) : M ipcs ret :=
  _ ← upd_port p (fun _ => mkMsgPort [] [] 0 tid event);
  _ ← on_sch (InitRendez (port_rendez p));
  mret (RVal 0).

Definition kputmsg (p : portid) (m : nat) : M ipcs ret :=
  q ← gets (fun s => mport s p);
  if has (mp_flags q) MPF_SHUTDOWN then mret (RErr ECONNABORTED)
  else
    _ ← upd_msg m (fun x => x <| port := Some p |>);
    _ ← pend p m;
    _ ← on_sch (do_thread_event_signal (target_tid q) (target_event q));
    mret (RVal 0).

Definition kreplymsg (m : nat) : M ipcs ret :=
  x ← get_msg m;
  match reply_port x with
  | None => panic
  | Some r =>
    _ ← upd_msg m (fun x => x <| port := Some r |>);
    _ ← pend r m;
    _ ← on_sch (TaskWakeup (port_rendez r));
    mret (RVal 0)
  end.

Definition kpeekmsg (p : portid) : M ipcs (option nat) := gets (fun s => head (pending_msg_list (mport s p))).
Definition kremovemsg (p : portid) (m : nat) : M ipcs unit := unpend p m.
Definition kgetmsg (p : portid) : M ipcs (option nat) :=
  q ← gets (fun s => mport s p);
  if has (mp_flags q) MPF_SHUTDOWN then mret None
  else
    o ← kpeekmsg p;
    match o with
    | None => mret None
    | Some m => _ ← unpend p m; mret (Some m)
    end.

(** [timeout] is seconds and nanoseconds, or NULL. *)
Definition kwaitport (p : portid) (timeout : option (Z * Z)) : M ipcs (option ret) :=
  o ← kpeekmsg p;
  match o with
  | Some _ => mret (Some (RVal 0))
  | None =>
    r ← on_sch (TaskSleepInterruptible (port_rendez p) timeout INTRF_NONE);
    match r with
    | None => mret None
    | Some e => o ← kpeekmsg p; mret (Some (if o is None then RErr e else RVal 0))
    end
  end.
Definition kwaitport_resumed (p : portid) (timeout : bool) : M ipcs ret :=
  sc ← on_sch (TaskSleepInterruptible_resumed timeout INTRF_NONE);
  o ← kpeekmsg p;
  mret (if decide (sc = RVal 0) then RVal 0 else if o is None then sc else RVal 0).

Definition msgid_to_msg (p : portid) (id : Z) : M ipcs (option nat) :=
  match get_thread id with
  | None => mret None
  | Some t =>
    o ← gets (fun s => thread_msg s t);
    match o with
    | None => mret None
    | Some m => x ← get_msg m; mret (if decide (port x = Some p) then Some m else None)
    end
  end.

(** ** Aborting *)
Definition forget_msg (m : nat) : M ipcs unit :=
  _ ← upd_msg m (fun x => x <| port := None |> <| msgid := INVALID_PID |> <| reply_status := RErr EINTR |>);
  c ← on_sch get_current_thread;
  set_thread_msg_to c None.

Definition kabortmsg (p : portid) (m : nat) : M ipcs ret :=
  x ← get_msg m;
  if negb (msgid x =? INVALID_PID) then
    if cmd x =? CMD_ABORT then _ ← forget_msg m; mret (RErr EINTR)
    else
      _ ← upd_msg m (fun x => x <| cmd := CMD_ABORT |>);
      _ ← pend p m;
      q ← gets (fun s => mport s p);
      _ ← on_sch (do_thread_event_signal (target_tid q) (target_event q));
      mret (RVal 0)
  else if decide (port x = Some p) then
    _ ← kremovemsg p m; _ ← forget_msg m; mret (RErr EINTR)
  else mret (RVal 0).

(** ** Sending

    The loop that waits for the reply goes round at most twice: the first
    failure to wait starts an abort, the second one ends the call. *)
Definition ksendmsg_return (c : nat) (r : ret) : M ipcs (option ret) := _ ← put_msg c None; mret (Some r).
Definition ksendmsg_replied (c : nat) : M ipcs (option ret) :=
  _ ← kgetmsg (PReply c);
  _ ← set_thread_msg_to c None;
  x ← get_msg c;
  ksendmsg_return c (reply_status x).
Fixpoint ksendmsg_wait (n : nat) (p : portid) (c : nat) (rc : ret) : M ipcs (option ret) :=
  if decide (rc = RVal 0) then ksendmsg_replied c
  else match n with
  | O => fault
  | S n' =>
    sc ← kabortmsg p c;
    if decide (sc = RVal 0) then
      r ← kwaitport (PReply c) None;
      match r with None => mret None | Some rc' => ksendmsg_wait n' p c rc' end
    else ksendmsg_return c sc
  end.

Definition ksendmsg (p : portid) (ipc req_cmd : Z) (reply : option (list Z)) (siov_cnt : Z) (siov : nat -> msgiov)
    (riov_cnt : Z) (riov : option (nat -> msgiov)) : M ipcs (option ret) :=
  c ← on_sch get_current_thread;
  _ ← set_thread_msg_to c (Some c);
  _ ← put_msg c (Some (mkMsg false (tid c) None (Some (PReply c)) ipc req_cmd reply (RVal 0) siov_cnt siov riov_cnt riov));
  sc ← kputmsg p c;
  if decide (sc = RVal 0) then
    r ← kwaitport (PReply c) None;
    match r with None => mret None | Some rc => ksendmsg_wait 2 p c rc end
  else ksendmsg_return c sc.
(** When the thread runs again. *)
Definition ksendmsg_resumed (p : portid) : M ipcs (option ret) :=
  c ← on_sch get_current_thread;
  rc ← kwaitport_resumed (PReply c) false;
  ksendmsg_wait 2 p c rc.

(** ** The server's calls *)
Definition get_superblock (p : nat) (fd : Z) : M ipcs (option nat) :=
  o ← on_mfiles (filp_get p fd);
  match o with
  | None => mret None
  | Some x => f ← gets (fun s => filp (mfiles s) x); mret (if decide (f_type f = FILP_TYPE_SUPERBLOCK) then f_u f else None)
  end.

Definition with_port {A} (fd : Z) (none : A) (k : portid -> M ipcs A) : M ipcs A :=
  c ← on_sch get_current_thread;
  o ← get_superblock (process_of c) fd;
  match o with None => mret none | Some sb => k (PServer sb) end.

(** [args_ok]: the buffers are not NULL and large enough. The result is the
    value returned with the message id and command stored. *)
Definition sys_getmsg (fd : Z) (args_ok : bool) (sizeof_iorequest : Z) : M ipcs (ret * option (Z * Z)) :=
  if negb args_ok then mret (RErr EINVAL, None)
  else
    with_port fd (RErr EINVAL, None) (fun p =>
      o ← kpeekmsg p;
      match o with
      | None => mret (RVal 0, None)
      | Some m =>
        x ← get_msg m;
        o' ← (if negb (cmd x =? CMD_ABORT) then kgetmsg p else _ ← kremovemsg p m; mret (Some m));
        match o' with
        | None => mret (RVal 0, None)
        | Some m' => x' ← get_msg m'; mret (RVal sizeof_iorequest, Some (msgid x', cmd x'))
        end
      end).

(** [rep]: NULL, or what reading it gives; [sz_ok]: its size is that of an
    [ioreply_t]. *)
Definition sys_replymsg (fd id : Z) (status : ret) (rep : option (option (list Z))) (sz_ok : bool) : M ipcs ret :=
  if (if rep is Some _ then negb sz_ok else false) then mret (RErr EINVAL)
  else
    with_port fd (RErr EINVAL) (fun p =>
      o ← msgid_to_msg p id;
      match o with
      | None => mret (RErr EINVAL)
      | Some m =>
        x ← get_msg m;
        _ ← upd_msg m (fun x => x <| reply_status := status |>);
        _ ← (match reply x, rep with
             | Some _, Some (Some bytes) => upd_msg m (fun x => x <| reply := Some bytes |>)
             | Some _, _ => upd_msg m (fun x => x <| reply_status := RErr EFAULT |>)
             | None, _ => mret tt
             end);
        _ ← kassert (if reply_port x is Some _ then true else false);
        _ ← kreplymsg m;
        mret (RVal 0)
      end).

(** ** Shutting a port down *)
Definition connabort (m : nat) : M ipcs unit :=
  _ ← upd_msg m (fun x => x <| msgid := INVALID_PID |> <| reply_status := RErr ECONNABORTED |>);
  x ← get_msg m;
  match reply_port x with
  | None => fault
  | Some r =>
    _ ← upd_msg m (fun x => x <| port := Some r |>);
    _ ← pend r m;
    _ ← on_sch (TaskWakeup (port_rendez r));
    mret tt
  end.
Fixpoint fini_received (n : nat) (p : portid) : M ipcs unit :=
  l ← gets (fun s => received_msg_list (mport s p));
  match l, n with
  | [], _ => mret tt
  | _, O => fault
  | m :: l', S n' =>
    _ ← upd_port p (fun q => q <| received_msg_list := l' |>);
    _ ← upd_msg m (fun x => x <| linked := false |>);
    _ ← connabort m; fini_received n' p
  end.
Fixpoint fini_pending (n : nat) (p : portid) : M ipcs unit :=
  l ← gets (fun s => pending_msg_list (mport s p));
  match l, n with
  | [], _ => mret tt
  | _, O => fault
  | m :: _, S n' => _ ← unpend p m; _ ← connabort m; fini_pending n' p
  end.
Definition fini_msgport (p : portid) : M ipcs ret :=
  _ ← upd_port p (fun q => q <| mp_flags ::= fun f => Z.lor f MPF_SHUTDOWN |>);
  q ← gets (fun s => mport s p);
  _ ← fini_received (length (received_msg_list q)) p;
  _ ← fini_pending (length (pending_msg_list q)) p;
  mret (RVal 0).

Definition sys_unmount : ret := RErr ENOSYS.
End ops.
