(* ===== verification/MsgThms.v ===== *)
(** * MsgThms: the message protocol

    The specification: a client is idle, queued at a port, being served or
    done with a status; ports are queues. The theorems relate the calls of
    fs/msg.c, with the scheduler below them, to it, and derive that requests
    are delivered in order, and each answered once with the status the server
    gave. *)

From S2P Require Import Prelude Sched SchedQueue Bkl BklSteps FileDesc Event EventThms Frames Msg.
Local Open Scope Z_scope.
Local Open Scope kernel_scope.

(** ** The specification *)
Module Spec.
Inductive status : Type := Idle | Queued (p : nat) | Serving (p : nat) | Done (r : ret).
#[export] Instance status_eq_dec : EqDecision status.
Proof. solve_decision. Defined.
Record state := State { stat : nat -> status; queue : nat -> list nat }.

Inductive label : Type :=
| Send (t p : nat) | Get (p t : nat) | Reply (t : nat) (r : ret) | Return (t : nat) (r : ret)
| Close (p : nat) (ts : list nat) | Tau.

Inductive step : state -> label -> state -> Prop :=
| step_send f q t p : f t = Idle -> step (State f q) (Send t p) (State (<[t := Queued p]> f) (<[p := q p ++ [t]]> q))
| step_get f q t p l : q p = t :: l -> step (State f q) (Get p t) (State (<[t := Serving p]> f) (<[p := l]> q))
| step_reply f q t p r : f t = Serving p -> step (State f q) (Reply t r) (State (<[t := Done r]> f) q)
| step_return f q t r : f t = Done r -> step (State f q) (Return t r) (State (<[t := Idle]> f) q)
| step_close a p a' :
    (forall t, stat a' t = if decide (t ∈ queue a p) then Done (RErr ECONNABORTED) else stat a t) ->
    queue a' p = [] -> (forall p', p' <> p -> queue a' p' = queue a p') -> step a (Close p (queue a p)) a'
| step_tau a : step a Tau a.

Inductive exec : state -> list label -> state -> Prop :=
| exec_nil a : exec a [] a
| exec_snoc a ls a1 l a2 : exec a ls a1 -> step a1 l a2 -> exec a (ls ++ [l]) a2.

(** What happened at a port and to a client; closing a port takes the requests
    that are left, in order, and answers each. *)
Definition sent_at (p : nat) (l : label) : list nat := match l with Send t p' => if decide (p' = p) then [t] else [] | _ => [] end.
Definition got_at (p : nat) (l : label) : list nat := match l with Get p' t => if decide (p' = p) then [t] else [] | Close p' ts => if decide (p' = p) then ts else [] | _ => [] end.
Definition replied_to (t : nat) (l : label) : list ret :=
  match l with Reply t' r => if decide (t' = t) then [r] else [] | Close p ts => if decide (t ∈ ts) then [RErr ECONNABORTED] else [] | _ => [] end.
Definition returned_to (t : nat) (l : label) : list ret := match l with Return t' r => if decide (t' = t) then [r] else [] | _ => [] end.
Definition outcome_of (s : status) : list ret := match s with Done r => [r] | _ => [] end.

(** The queued clients are on the queue of their port, once. *)
Definition wf (a : state) : Prop :=
  (forall p t, t ∈ queue a p <-> stat a t = Queued p) /\ (forall p, NoDup (queue a p)).

Lemma step_wf a l a' : step a l a' -> wf a -> wf a'.
Proof.
  intros Hs [Hq Hd]. destruct Hs as [f q t p Hf|f q t p l Hl|f q t p r Hf|f q t r Hf|a p a' Hf Hp Ho|a]; [| | | | |done]; simpl in Hq, Hd.
  - assert (forall p', t ∉ q p') as Hn. { intros p' Hin%Hq. congruence. } split.
    + intros p' t'. simpl. destruct (decide (p = p')) as [<-|]; destruct (decide (t = t')) as [<-|]; reads.
      * set_solver.
      * rw -Hq. set_solver.
      * split; [by intros ?%Hn|congruence].
      * apply Hq.
    + intros p'. simpl. destruct (decide (p = p')) as [<-|]; reads; [|done]. apply NoDup_app. split_and!; [done|set_solver|apply NoDup_singleton].
  - pose proof (Hd p) as Hn. rw Hl in Hn. apply NoDup_cons in Hn as [Htl Hnl]. assert (f t = Queued p) as Ht. { apply Hq. rw Hl. set_solver. } split.
    + intros p' t'. simpl. destruct (decide (p = p')) as [<-|]; destruct (decide (t = t')) as [<-|]; reads.
      * naive_solver.
      * rw -Hq Hl. set_solver.
      * rw Hq Ht. naive_solver.
      * apply Hq.
    + intros p'. simpl. destruct (decide (p = p')) as [<-|]; by reads.
  - split; [|done]. intros p' t'. simpl. rw Hq. destruct (decide (t = t')) as [<-|]; reads; [|done]. rw Hf. naive_solver.
  - split; [|done]. intros p' t'. simpl. rw Hq. destruct (decide (t = t')) as [<-|]; reads; [|done]. rw Hf. naive_solver.
  - split.
    + intros p' t'. rw Hf. destruct (decide (p' = p)) as [->|Hn].
      * rw Hp. case_decide as Ht; [set_solver|]. rw Hq in Ht. set_solver.
      * rw Ho // Hq. case_decide as Ht; [|done]. apply Hq in Ht. rw Ht. split; congruence.
    + intros p'. destruct (decide (p' = p)) as [->|Hn]; [rw Hp; apply NoDup_nil_2|by rw Ho].
Qed.
Lemma exec_wf a ls a' : exec a ls a' -> wf a -> wf a'.
Proof. induction 1 as [|? ? ? ? ? ? IH Hs]; [done|]. intros Ha. exact (step_wf _ _ _ Hs (IH Ha)). Qed.

(** Requests leave a port in the order they came, and what a client got_at back
    is what was replied to it, in order; at most one reply is on its way. *)
Lemma exec_history a ls a' :
  exec a ls a' -> (forall p, queue a p = []) -> (forall t, stat a t = Idle) ->
  (forall p, mjoin (map (sent_at p) ls) = mjoin (map (got_at p) ls) ++ queue a' p) /\
  (forall t, mjoin (map (replied_to t) ls) = mjoin (map (returned_to t) ls) ++ outcome_of (stat a' t)).
Proof.
  intros He Hq Hi. assert (wf a) as Hwf. { split; [intros p t; rw Hq Hi; set_solver|intros p; rw Hq; apply NoDup_nil_2]. }
  induction He as [a|a ls a1 l a2 He IH Hs].
  { split; intros x; simpl; [by rw Hq|by rw Hi]. }
  destruct (IH Hq Hi Hwf) as [Hp Ht]. clear IH. destruct (exec_wf _ _ _ He Hwf) as [Hw _]. split.
  - intros p. rw !map_app !join_app /= Hp. destruct Hs as [f q t p' Hf|f q t p' l Hl|f q t p' r Hf|f q t r Hf|a1 p' a' _ Hpn Hpo|a1]; simpl;
      rw ?app_nil_r //; first last.
    { destruct (decide (p' = p)) as [->|]; [by rw Hpn app_nil_r|]. rw app_nil_r Hpo //. congruence. }
    all: (destruct (decide (p' = p)) as [->|]; [rw fn_lookup_insert|rw fn_lookup_insert_ne //]); rw ?app_nil_r -?app_assoc //=.
    by rw Hl.
  - intros t. rw !map_app !join_app /= Ht. destruct Hs as [f q t' p' Hf|f q t' p' l Hl|f q t' p' r Hf|f q t' r Hf|a1 p' a' Hc _ _|a1]; simpl;
      rw ?app_nil_r //; first last.
    { rw Hc. case_decide as Hin; rw ?app_nil_r //=. apply Hw in Hin. by rw Hin app_nil_r. }
    all: (destruct (decide (t' = t)) as [->|]; [rw fn_lookup_insert|rw fn_lookup_insert_ne //]); rw ?Hf ?app_nil_r //=.
    simpl in Hw. assert (f t = Queued p') as -> by (apply Hw; rw Hl; set_solver). by rw app_nil_r.
Qed.
End Spec.

Import Spec.

(** ** The calls on a state given by its parts *)
Section runs.
Context `{Threads, MsgConsts, FsConsts}.
Implicit Types (k : sched) (ms : nat -> option Msg) (tm : nat -> option nat) (mp : portid -> MsgPort) (fl : fs) (x : Msg) (m c t : nat) (p : portid).

Lemma get_msg_run k ms tm mp fl m x : ms m = Some x -> get_msg m (mkIpcs k ms tm mp fl) = Ok (x, mkIpcs k ms tm mp fl).
Proof. intros Hx. rw /get_msg. mrun. by rw /= Hx. Qed.
Lemma upd_msg_run k ms tm mp fl m x f :
  ms m = Some x -> upd_msg m f (mkIpcs k ms tm mp fl) = Ok (tt, mkIpcs k (<[m := Some (f x)]> ms) tm mp fl).
Proof. intros Hx. rw /upd_msg {1}/mbind {1}/M_bind (get_msg_run _ _ _ _ _ _ x) //. Qed.

(** A port with another pending list. *)
Definition with_pending (l : list nat) (q : MsgPort) : MsgPort := q <| pending_msg_list := l |>.

Lemma pend_run k ms tm mp fl p m x :
  ms m = Some x -> linked x = false -> m ∉ pending_msg_list (mp p) ->
  pend p m (mkIpcs k ms tm mp fl) =
    Ok (tt, mkIpcs k (<[m := Some (x <| linked := true |>)]> ms) tm (<[p := with_pending (pending_msg_list (mp p) ++ [m]) (mp p)]> mp) fl).
Proof.
  intros Hx Hl Hm. rw /pend {1}/mbind {1}/M_bind (get_msg_run _ _ _ _ _ _ x) // Hl. mrun. simpl. by rw dl_add_tail_ok.
Qed.
Lemma unpend_run k ms tm mp fl p m x :
  ms m = Some x -> m ∈ pending_msg_list (mp p) ->
  unpend p m (mkIpcs k ms tm mp fl) =
    Ok (tt, mkIpcs k (<[m := Some (x <| linked := false |>)]> ms) tm (<[p := with_pending (list_remove1 m (pending_msg_list (mp p))) (mp p)]> mp) fl).
Proof.
  intros Hx Hm. rw /unpend {1}/mbind {1}/M_bind {1}/gets {1}/mbind {1}/M_bind {1}/lift /= dl_rem_ok //.
  by rw {1}/mbind {1}/M_bind {1}/upd_port {1}/modify /= (upd_msg_run _ _ _ _ _ _ x).
Qed.
Lemma on_sch_run {A} k k' ms tm mp fl (f : M sched A) a :
  f k = Ok (a, k') -> on_sch f (mkIpcs k ms tm mp fl) = Ok (a, mkIpcs k' ms tm mp fl).
Proof. intros Hf. by rw /on_sch /= Hf. Qed.

(** Moving a message to a port's list and waking its owner. *)
Definition moved ms mp p m x ms' mp' : Prop :=
  changed ms m (Some (x <| port := Some p |> <| linked := true |>)) ms' /\
  changed mp p (with_pending (pending_msg_list (mp p) ++ [m]) (mp p)) mp'.

Lemma move_run {A B} k k' ms tm mp fl p m x (f : M sched A) r (g : A -> M ipcs B) :
  ms m = Some x -> linked x = false -> m ∉ pending_msg_list (mp p) -> f k = Ok (r, k') ->
  exists ms' mp', (_ ← upd_msg m (fun x => x <| port := Some p |>); _ ← pend p m; r ← on_sch f; g r) (mkIpcs k ms tm mp fl) =
    g r (mkIpcs k' ms' tm mp' fl) /\ moved ms mp p m x ms' mp'.
Proof.
  intros Hx Hl Hm Hk. do 2 eexists. split.
  - rw {1}/mbind {1}/M_bind (upd_msg_run _ _ _ _ _ _ x) //.
    rw {1}/mbind {1}/M_bind (pend_run _ _ _ _ _ _ _ (x <| port := Some p |>)) //; [by reads|]. by rw {1}/mbind {1}/M_bind (on_sch_run k k' _ _ _ _ _ r).
  - split; [eapply changed_trans; apply changed_insert|apply changed_insert].
Qed.

Lemma kputmsg_run k k' ms tm mp fl p m x r :
  ms m = Some x -> linked x = false -> m ∉ pending_msg_list (mp p) -> has (mp_flags (mp p)) MPF_SHUTDOWN = false ->
  do_thread_event_signal (target_tid (mp p)) (target_event (mp p)) k = Ok (r, k') ->
  exists ms' mp', kputmsg p m (mkIpcs k ms tm mp fl) = Ok (RVal 0, mkIpcs k' ms' tm mp' fl) /\ moved ms mp p m x ms' mp'.
Proof.
  intros Hx Hl Hm Hs Hk. rw /kputmsg {1}/mbind {1}/M_bind {1}/gets /= Hs. destruct (move_run k k' ms tm mp fl p m x _ r (fun _ => mret (RVal 0)) Hx Hl Hm Hk) as (ms' & mp' & E & Hv). by exists ms', mp'.
Qed.

Lemma kreplymsg_run k k' ms tm mp fl m x q :
  ms m = Some x -> linked x = false -> reply_port x = Some q -> m ∉ pending_msg_list (mp q) ->
  TaskWakeup (port_rendez q) k = Ok (tt, k') ->
  exists ms' mp', kreplymsg m (mkIpcs k ms tm mp fl) = Ok (RVal 0, mkIpcs k' ms' tm mp' fl) /\ moved ms mp q m x ms' mp'.
Proof.
  intros Hx Hl Hq Hm Hk. rw /kreplymsg {1}/mbind {1}/M_bind (get_msg_run _ _ _ _ _ _ x) // Hq. destruct (move_run k k' ms tm mp fl q m x _ tt (fun _ => mret (RVal 0)) Hx Hl Hm Hk) as (ms' & mp' & E & Hv). by exists ms', mp'.
Qed.

Lemma kgetmsg_run k ms tm mp fl p m l x :
  ms m = Some x -> pending_msg_list (mp p) = m :: l -> has (mp_flags (mp p)) MPF_SHUTDOWN = false ->
  kgetmsg p (mkIpcs k ms tm mp fl) =
    Ok (Some m, mkIpcs k (<[m := Some (x <| linked := false |>)]> ms) tm (<[p := with_pending l (mp p)]> mp) fl).
Proof.
  intros Hx Hl Hs. rw /kgetmsg {1}/mbind {1}/M_bind {1}/gets /= Hs. rw {1}/mbind {1}/M_bind {1}/kpeekmsg {1}/gets /= Hl /=.
  rw {1}/mbind {1}/M_bind (unpend_run _ _ _ _ _ _ _ x) //; [rw Hl; set_solver|]. by rw Hl /= decide_True.
Qed.
End runs.

(** ** The refinement *)
Section protocol.
Context `{Threads, MsgConsts, FsConsts} (rendez_inj : forall p q, port_rendez p = port_rendez q -> p = q).
Implicit Types (s : ipcs) (a : Spec.state) (t u c : nat) (pc : nat -> loc).

Abbreviation rr t := (port_rendez (PReply t)).
Abbreviation replies s t := (pending_msg_list (mport s (PReply t))).

(** The message of a client in [ksendmsg]: queued at, or taken from, [p]. *)
Definition posted s t (p : portid) (l : bool) (x : Msg) : Prop :=
  msgs s t = Some x /\ linked x = l /\ (p = PReply t \/ msgid x = tid t) /\ port x = Some p /\ reply_port x = Some (PReply t) /\ cmd x <> CMD_ABORT /\
  thread_msg s t = Some t.
Definition waits s t : Prop := t ∈ rendez (sch s) (rr t) /\ intr_flags (th (sch s) t) = 0.

Definition client s t (st : status) : Prop :=
  match st with
  | Idle => msgs s t = None /\ thread_msg s t = None /\ replies s t = [] /\ t ∉ rendez (sch s) (rr t)
  | Queued p => (exists x, posted s t (PServer p) true x) /\ replies s t = [] /\ waits s t
  | Serving p => (exists x, posted s t (PServer p) false x) /\ replies s t = [] /\ waits s t
  | Done r => (exists x, posted s t (PReply t) true x /\ reply_status x = r) /\ replies s t = [t] /\ t ∉ rendez (sch s) (rr t)
  end.

Record rel s pc a : Prop := {
  r_kinv : kinv (sch s) pc;
  r_wf : wf a;
  r_queue : forall p, pending_msg_list (mport s (PServer p)) = queue a p;
  r_flags : forall t, has (mp_flags (mport s (PReply t))) MPF_SHUTDOWN = false;
  r_received : forall p, received_msg_list (mport s p) = [];
  r_wait : forall t u, u ∈ rendez (sch s) (rr t) -> u = t;
  r_client : forall t, client s t (stat a t) }.

(** The port takes requests. *)
Definition is_open s (p : nat) : Prop := has (mp_flags (mport s (PServer p))) MPF_SHUTDOWN = false.

(** [c] runs inside the kernel. *)
Definition runs s pc c : Prop :=
  current_thread (sch s) = Some c /\ pc c = LKernel /\ sched_policy (th (sch s) c) <> SCHED_IDLE.

Lemma client_frame s s' t st :
  client s t st -> msgs s' t = msgs s t -> thread_msg s' t = thread_msg s t -> replies s' t = replies s t ->
  (t ∈ rendez (sch s') (rr t) -> t ∈ rendez (sch s) (rr t)) ->
  (waits s t -> waits s' t) -> client s' t st.
Proof.
  intros Hc Hm Ht Hp Hr Hw. destruct st; simpl in *; rw /posted Hm Ht Hp; naive_solver.
Qed.

Lemma idle_of s pc a c : rel s pc a -> thread_msg s c = None -> stat a c = Idle.
Proof.
  intros Hr Hn. pose proof (r_client _ _ _ Hr c) as Hc. destruct (stat a c) as [|p|p|r]; [done|..]; simpl in Hc; rw /posted in Hc; naive_solver congruence.
Qed.

Lemma rr_ne t u : t <> u -> rr t <> rr u.
Proof. intros Hn E. apply rendez_inj in E. congruence. Qed.

(** A client sends a request: it is queued, and the client sleeps. *)
Lemma send_spec s pc a c p i cm rep sn si rn ri :
  rel s pc a -> runs s pc c -> thread_msg s c = None -> cm <> CMD_ABORT -> is_open s p ->
  exists s', ksendmsg (PServer p) i cm rep sn si rn ri s = Ok (None, s') /\
    exists a', step a (Send c p) a' /\ rel s' pc a'.
Proof.
  intros Hr (Hc & Hpc & Hid) Htm Hcm Hop. pose proof (idle_of _ _ _ _ Hr Htm) as Hst. pose proof (r_client _ _ _ Hr c) as Hcl. rw Hst in Hcl.
  destruct Hcl as (_ & _ & Hrep & Hnw). destruct Hr as [Hi Hwf Hq Hf Hrv Hw Hcl]. destruct s as [k ms tm mp fl]. simpl in *.
  set x := mkMsg false (tid c) None (Some (PReply c)) i cm rep (RVal 0) sn si rn ri.
  assert (c ∉ pending_msg_list (mp (PServer p))) as Hnq. { rw Hq. intros Hin%Hwf. congruence. }
  destruct (signal_undisturbed k pc c (target_tid (mp (PServer p))) (target_event (mp (PServer p))) Hi Hc Hpc) as (res & k1 & Hsig & Hi1 & Hu1 & Hu2 & Hu3 & Hu4).
  destruct (kputmsg_run k k1 (<[c := Some x]> ms) (<[c := Some c]> tm) mp fl (PServer p) c x res) as (ms' & mp' & Hput & [Hm1 Hm2] & [Hp1 Hp2]);
    [by rw fn_lookup_insert|done|done|done|done|].
  destruct (sleep_client k1 pc c (rr c) Hi1) as (k2 & Hsl & Hi2 & Hfl & Hflc & Hrc & Hro); [congruence|done|by rw (proj2 (Hu2 c))|].
  exists (mkIpcs k2 ms' (<[c := Some c]> tm) mp' fl). split.
  - rw /ksendmsg {1}/mbind {1}/M_bind (on_sch_run k k _ _ _ _ _ c); [by apply current_run|].
    rw {1}/mbind {1}/M_bind {1}/set_thread_msg_to {1}/modify {1}/mbind {1}/M_bind {1}/put_msg {1}/modify /= -/x.
    rw {1}/mbind {1}/M_bind Hput. destruct (decide (RVal 0 = RVal 0)) as [_|]; [|done]. rw {1}/mbind {1}/M_bind /kwaitport {1}/mbind {1}/M_bind {1}/kpeekmsg {1}/gets /=.
    rw Hp2 // Hrep /=. by rw {1}/mbind {1}/M_bind (on_sch_run k1 k2 _ _ _ _ _ None).
  - exists (State (<[c := Queued p]> (stat a)) (<[p := queue a p ++ [c]]> (queue a))). destruct a as [f q]. simpl in *.
    assert (step (State f q) (Send c p) (State (<[c := Queued p]> f) (<[p := q p ++ [c]]> q))) as Hstep by by constructor.
    split; [done|]. split; simpl; try done.
    + by apply (step_wf _ _ _ Hstep).
    + intros p'. destruct (decide (p' = p)) as [->|Hn]; reads; [rw Hp1 /with_pending /= Hq //|]. rw Hp2; [congruence|apply Hq].
    + intros t. rw Hp2 //.
    + intros p'. destruct (decide (p' = PServer p)) as [->|]; [rw Hp1 /with_pending /=|rw Hp2 //]; apply Hrv.
    + intros t u. destruct (decide (t = c)) as [->|Hn].
      * rw Hrc. intros [Hin|Hin]%elem_of_app; [by apply (Hw c), Hu3|set_solver].
      * rw Hro; [by apply rr_ne|]. intros Hin. by apply (Hw t), Hu3.
    + intros t. destruct (decide (t = c)) as [->|Hn]; reads.
      * split_and!; [|by rw /= Hp2|by rw /waits /= Hrc; split; [set_solver|]]. eexists. split_and!; [exact Hm1|..]; simpl; try done; [by right|by reads].
      * apply (client_frame (mkIpcs k ms tm mp fl)); simpl; [apply Hcl|rw Hm2 //; by reads|by reads|by rw Hp2|..].
        -- rw Hro; [by apply rr_ne|]. apply Hu3.
        -- intros [Hin Hz]. rw /waits /= in Hz Hin |- *. rw Hfl // Hro; [by apply rr_ne|]. split; [by apply Hu4|]. by rw (proj1 (Hu2 t)).
Qed.

(** A client that runs again has its reply. *)
Lemma return_spec s pc a c p :
  rel s pc a -> runs s pc c -> thread_msg s c <> None ->
  exists s' r, ksendmsg_resumed (PServer p) s = Ok (Some r, s') /\ exists a', step a (Return c r) a' /\ rel s' pc a'.
Proof.
  intros Hr (Hc & Hpc & Hid) Htm. pose proof (r_client _ _ _ Hr c) as Hcl. destruct (running_awake _ _ _ (r_kinv _ _ _ Hr) Hc) as [_ Hna].
  assert (exists r, stat a c = Done r) as [r Hst].
  { destruct (stat a c) as [|p'|p'|r]; [by destruct Hcl as (_ & ? & _)| | |by exists r];
      destruct Hcl as (_ & _ & Hin & _); exfalso; apply Hna; by exists (rr c). }
  rw Hst in Hcl. destruct Hcl as ((x & (Hx & Hl & Hid' & Hport & Hrp & Hcm & Ht) & Hrs) & Hrep & Hnw).
  destruct Hr as [Hi Hwf Hq Hf Hrv Hw Hcl]. destruct s as [k ms tm mp fl]. simpl in *.
  assert (exists v k1, TaskSleepInterruptible_resumed false INTRF_NONE k = Ok (v, k1) /\ v = RVal 0) as (v & k1 & Hres & ->).
  { do 2 eexists. split; [by rw /TaskSleepInterruptible_resumed {1}/mbind {1}/M_bind (current_run k c Hc)|done]. }
  destruct (resumed_own c false INTRF_NONE k _ k1 Hc Hres) as ([Hrz Hev] & Hic & Hqu).
  exists (mkIpcs k1 (<[c := None]> (<[c := Some (x <| linked := false |>)]> ms)) (<[c := None]> tm) (<[PReply c := with_pending [] (mp (PReply c))]> mp) fl), r. split.
  - rw /ksendmsg_resumed {1}/mbind {1}/M_bind (on_sch_run k k _ _ _ _ _ c); [by apply current_run|].
    rw {1}/mbind {1}/M_bind {1}/kwaitport_resumed {1}/mbind {1}/M_bind (on_sch_run k k1 _ _ _ _ _ (RVal 0)) //.
    rw {1}/mbind {1}/M_bind {1}/kpeekmsg {1}/gets. destruct (decide (RVal 0 = RVal 0)) as [_|]; [|done].
    rw /mret /M_ret /=. destruct (decide (RVal 0 = RVal 0)) as [_|]; [|done].
    rw /ksendmsg_replied {1}/mbind {1}/M_bind (kgetmsg_run _ _ _ _ _ _ c [] x) //.
    rw {1}/mbind {1}/M_bind {1}/set_thread_msg_to {1}/modify /= {1}/mbind {1}/M_bind.
    rw (get_msg_run _ _ _ _ _ _ (x <| linked := false |>)); [by rw /= fn_lookup_insert|]. by rw -Hrs.
  - exists (State (<[c := Idle]> (stat a)) (queue a)). destruct a as [f q]. simpl in *.
    assert (step (State f q) (Return c r) (State (<[c := Idle]> f) q)) as Hstep by by constructor.
    split; [done|]. split; simpl.
    + by apply (quiet_kinv k).
    + by apply (step_wf _ _ _ Hstep).
    + intros p'. reads. apply Hq.
    + intros t. destruct (decide (t = c)) as [->|Hn]; reads; apply Hf.
    + intros p'. destruct (decide (PReply c = p')) as [<-|]; reads; apply Hrv.
    + intros t u. rw Hrz. apply Hw.
    + intros t. destruct (decide (t = c)) as [->|Hn]; reads.
      * by split_and!; simpl; reads; rw ?Hrz.
      * apply (client_frame (mkIpcs k ms tm mp fl)); simpl; [apply Hcl|by reads..|by rw Hrz|].
        intros [Hin Hz]. rw /waits /= Hrz in Hin Hz |- *. split; [done|]. by destruct (ev_parts _ _ (Hev t Hn)) as (-> & _).
Qed.

(** The port of a descriptor. *)
Definition port_of s c (fd : Z) (p : nat) : Prop := get_superblock (process_of c) fd s = Ok (Some p, s).
Lemma with_port_run {A} s c fd p (none : A) k :
  current_thread (sch s) = Some c -> port_of s c fd p -> with_port fd none k s = k (PServer p) s.
Proof.
  intros Hc Hp. destruct s as [sc ms tm mp fl]. rw /with_port {1}/mbind {1}/M_bind (on_sch_run sc sc _ _ _ _ _ c); [by apply current_run|].
  by rw {1}/mbind {1}/M_bind Hp.
Qed.

(** The server takes the first request, if there is one. *)
Definition get_label (p : nat) (r : ret * option (Z * Z)) : label :=
  match r.2 with Some (id, _) => match get_thread id with Some t => Get p t | None => Tau end | None => Tau end.
Lemma get_spec s pc a c fd p sz :
  rel s pc a -> runs s pc c -> port_of s c fd p -> is_open s p ->
  exists s' r, sys_getmsg fd true sz s = Ok (r, s') /\ (r.1 = RVal 0 <-> queue a p = [] \/ sz = 0) /\
    exists a', step a (get_label p r) a' /\ rel s' pc a'.
Proof.
  intros Hr (Hc & Hpc & Hid) Hp Hop. rw /sys_getmsg /= (with_port_run s c fd p) // {1}/mbind {1}/M_bind {1}/kpeekmsg {1}/gets.
  pose proof (r_queue _ _ _ Hr p) as Hq. rw Hq. destruct (queue a p) as [|t l] eqn:El; simpl.
  { exists s, (RVal 0, None). split; [done|]. split; [naive_solver|]. exists a. by split; [constructor|]. }
  assert (stat a t = Queued p) as Hst. { apply (r_wf _ _ _ Hr). rw El. set_solver. }
  pose proof (r_client _ _ _ Hr t) as Hcl. rw Hst in Hcl. destruct Hcl as ((x & Hx & Hl & Hid' & Hport & Hrp & Hcm & Ht) & Hrep & Hwt).
  destruct Hr as [Hi Hwf Hqs Hf Hrv Hw Hcl]. destruct s as [k ms tm mp fl]. simpl in *.
  rw {1}/mbind {1}/M_bind (get_msg_run _ _ _ _ _ _ x) //. destruct (Z.eqb_spec (cmd x) CMD_ABORT); [done|]. simpl.
  rw {1}/mbind {1}/M_bind (kgetmsg_run _ _ _ _ _ _ t l x) // {1}/mbind {1}/M_bind (get_msg_run _ _ _ _ _ _ (x <| linked := false |>)); [by rw fn_lookup_insert|].
  do 2 eexists. split; [reflexivity|]. simpl. split; [naive_solver|].
  exists (State (<[t := Serving p]> (stat a)) (<[p := l]> (queue a))). destruct a as [f q]. simpl in *.
  assert (step (State f q) (Get p t) (State (<[t := Serving p]> f) (<[p := l]> q))) as Hstep by by constructor.
  destruct Hid' as [|Hid']; [done|]. rw /get_label /= Hid' get_thread_tid. split; [done|]. split; simpl; try done.
  - by apply (step_wf _ _ _ Hstep).
  - intros p'. destruct (decide (p' = p)) as [->|Hn]; reads; [done|apply Hqs].
  - intros p'. destruct (decide (PServer p = p')) as [<-|]; reads; apply Hrv.
  - intros t'. destruct (decide (t' = t)) as [->|Hn]; reads.
    + split_and!; [|by simpl; reads|done]. exists (x <| linked := false |>). split_and!; simpl; try done; [by reads|by right].
    + apply (client_frame (mkIpcs k ms tm mp fl)); simpl; [apply Hcl|by reads..|done|done].
Qed.

(** The status a reply leaves in the message. *)
Definition recorded (x : Msg) (st : ret) (rep : option (option (list Z))) : ret :=
  match reply x, rep with Some _, Some (Some _) => st | Some _, _ => RErr EFAULT | None, _ => st end.
Definition reply_label s t (st : ret) rep (r : ret) : label :=
  if decide (r = RVal 0) then match msgs s t with Some x => Reply t (recorded x st rep) | None => Tau end else Tau.

Lemma store_reply_run k ms tm mp fl t x st rep :
  exists ms1 x1, (match reply x, rep with
      | Some _, Some (Some bytes) => upd_msg t (fun x => x <| reply := Some bytes |>)
      | Some _, _ => upd_msg t (fun x => x <| reply_status := RErr EFAULT |>)
      | None, _ => mret tt end) (mkIpcs k (<[t := Some (x <| reply_status := st |>)]> ms) tm mp fl) = Ok (tt, mkIpcs k ms1 tm mp fl) /\
      changed ms t (Some x1) ms1 /\ linked x1 = linked x /\ msgid x1 = msgid x /\ reply_port x1 = reply_port x /\ cmd x1 = cmd x /\
      reply_status x1 = recorded x st rep.
Proof using Type.
  rw /recorded. destruct (reply x) as [b|]; [destruct rep as [[b'|]|]|];
    (do 2 eexists; split; [first [reflexivity|apply upd_msg_run; by rw fn_lookup_insert]|];
     split; [first [apply changed_insert|eapply changed_trans; apply changed_insert]|done]).
Qed.

Lemma msgid_to_msg_run s pc a p t :
  rel s pc a -> t ∉ pending_msg_list (mport s (PServer p)) ->
  msgid_to_msg (PServer p) (tid t) s = Ok (if decide (stat a t = Serving p) then Some t else None, s).
Proof.
  intros Hr Hn. rw (r_queue _ _ _ Hr) in Hn. assert (stat a t <> Queued p) as Hnq. { intros E. by apply Hn, (r_wf _ _ _ Hr). }
  pose proof (r_client _ _ _ Hr t) as Hcl.
  assert ((stat a t = Idle /\ thread_msg s t = None) \/ exists x q l, posted s t q l x /\ (q = PServer p <-> stat a t = Serving p)) as Hcase.
  { destruct (stat a t) as [|p'|p'|r]; simpl in Hcl; [left; tauto|right..].
    - destruct Hcl as [[x Hx] _]. exists x, (PServer p'), true. split; [done|]. naive_solver.
    - destruct Hcl as [[x Hx] _]. exists x, (PServer p'), false. split; [done|]. naive_solver.
    - destruct Hcl as [(x & Hx & _) _]. exists x, (PReply t), true. split; [done|]. naive_solver. }
  destruct s as [k ms tm mp fl]. rw /msgid_to_msg get_thread_tid {1}/mbind {1}/M_bind {1}/gets /=. simpl in Hcase.
  destruct Hcase as [[Hst ->]|(x & q & l & (Hx & Hl & Hid & Hport & Hrp & Hcm & Ht) & Hiff)]; [rw decide_False //; congruence|]. simpl in Hx, Ht.
  rw Ht {1}/mbind {1}/M_bind (get_msg_run _ _ _ _ _ _ x) // Hport.
  destruct (decide (Some q = Some (PServer p))) as [[= E]|E]; destruct (decide (stat a t = Serving p)) as [E'|E']; try done; exfalso; naive_solver.
Qed.

(** The server replies to a request it has taken: the client is woken, and will
    return the status. Any other id is refused. *)
Lemma reply_spec s pc a c fd p t st rep :
  rel s pc a -> runs s pc c -> port_of s c fd p -> t ∉ pending_msg_list (mport s (PServer p)) ->
  exists s' r, sys_replymsg fd (tid t) st rep true s = Ok (r, s') /\ (r = RVal 0 <-> stat a t = Serving p) /\
    exists a', step a (reply_label s t st rep r) a' /\ rel s' pc a'.
Proof.
  intros Hr (Hc & Hpc & Hid) Hp Hn. assert (forall A (y z : A), (if (if rep is Some _ then negb true else false) then y else z) = z) as Hsz.
  { by destruct rep. } rw /sys_replymsg Hsz (with_port_run s c fd p) // {1}/mbind {1}/M_bind (msgid_to_msg_run s pc a p t Hr Hn).
  destruct (decide (stat a t = Serving p)) as [Hst|Hst]; last first.
  { exists s, (RErr EINVAL). split; [done|]. split; [by split|]. exists a. split; [|done]. rw /reply_label. case_decide; [done|constructor]. }
  pose proof (r_client _ _ _ Hr t) as Hcl. rw Hst in Hcl. destruct Hcl as ((x & Hx & Hl & Hid' & Hport & Hrp & Hcm & Ht) & Hrep & Hwt).
  destruct Hr as [Hi Hwf Hqs Hf Hrv Hw Hcl]. destruct s as [k ms tm mp fl]. simpl in *.
  destruct (wakeup_client k pc c (rr t) t Hi Hc Hpc (Hw t)) as (k' & Hwake & Hi' & Hc' & Hfl & Hrt & Hro).
  destruct (store_reply_run k ms tm mp fl t x st rep) as (ms1 & x1 & Hrun & [Hx1 Hms1] & E1 & E2 & E3 & E4 & E5).
  assert (t ∉ pending_msg_list (mp (PReply t))) as Hnr by (rw Hrep; set_solver).
  destruct (kreplymsg_run k k' ms1 tm mp fl t x1 (PReply t)) as (ms' & mp' & Hk & [Hm1 Hm2] & [Hp1 Hp2]); [done|congruence|congruence|done|done|].
  exists (mkIpcs k' ms' tm mp' fl), (RVal 0). split.
  { rw {1}/mbind {1}/M_bind (get_msg_run _ _ _ _ _ _ x) // {1}/mbind {1}/M_bind (upd_msg_run _ _ _ _ _ _ x) //.
    rw {1}/mbind {1}/M_bind Hrun Hrp. rw {1}/mbind {1}/M_bind /kassert. by rw /mret {1}/M_ret {1}/mbind {1}/M_bind Hk. }
  split; [done|]. exists (State (<[t := Done (recorded x st rep)]> (stat a)) (queue a)). destruct a as [f q]. simpl in *.
  assert (step (State f q) (Reply t (recorded x st rep)) (State (<[t := Done (recorded x st rep)]> f) q)) as Hstep by by apply (step_reply _ _ _ p).
  rw /reply_label /= Hx. destruct (decide (RVal 0 = RVal 0)) as [_|]; [|done]. split; [done|]. split; simpl; try done.
  - by apply (step_wf _ _ _ Hstep).
  - intros p'. by rw Hp2.
  - intros t'. destruct (decide (t' = t)) as [->|]; [rw Hp1 /with_pending /=|rw Hp2; [congruence|]]; apply Hf.
  - intros p'. destruct (decide (p' = PReply t)) as [->|]; [rw Hp1 /with_pending /=|rw Hp2 //]; apply Hrv.
  - intros t' u. destruct (decide (t' = t)) as [->|Hne]; [rw Hrt; set_solver|]. rw Hro; [by apply rr_ne|]. apply Hw.
  - intros t'. destruct (decide (t' = t)) as [->|Hne]; reads.
    + split_and!; [|by rw Hp1 /with_pending /= Hrep|rw Hrt; set_solver].
      eexists. split; [split_and!; [exact Hm1|..]; simpl; try done; try congruence; by left|simpl; congruence].
    + apply (client_frame (mkIpcs k ms tm mp fl)); simpl; [apply Hcl|by rw Hm2 // Hms1|done|rw Hp2; congruence|..].
      * rw Hro //. by apply rr_ne.
      * intros [Hin Hz]. rw /waits /= in Hin Hz |- *. rw Hro; [by apply rr_ne|]. by rw Hfl.
Qed.

(** Anything else that threads do in the kernel, and signalling events. *)
Definition not_reply (r : nat) : Prop := exists t, r = rr t.
Lemma quiet_client s pc a k' pc' :
  rel s pc a -> kinv k' pc' -> (forall t u, u ∈ rendez k' (rr t) -> u ∈ rendez (sch s) (rr t)) ->
  (forall t, waits s t -> t ∈ rendez k' (rr t) /\ intr_flags (th k' t) = intr_flags (th (sch s) t)) -> rel (s <| sch := k' |>) pc' a.
Proof.
  intros [Hi Hwf Hq Hf Hrv Hw Hcl] Hi' Hin Hwt. split; simpl; try done.
  - intros t u Hu. by apply (Hw t), Hin.
  - intros t. apply (client_frame s); try done; [by apply Hin|]. intros Hws. destruct (Hwt t Hws) as [? E]. split; [done|].
    simpl. rw E. apply Hws.
Qed.
Lemma kernel_spec s pc a c k :
  rel s pc a -> current_thread (sch s) = Some c -> thread_msg s c = None \/ k = CResched -> may_call (sch s) pc c k -> spares not_reply k ->
  exists k', call_run k (sch s) = Ok (tt, k') /\ rel (s <| sch := k' |>) (call_loc k c pc) a.
Proof.
  intros Hr Hc Htm Hm Hs. destruct (spares_spec not_reply (sch s) pc c k (r_kinv _ _ _ Hr) Hc Hm Hs) as (k' & Hrun & Hi' & Hrz & Hfl).
  exists k'. split; [done|]. apply (quiet_client s pc); try done.
  - intros t u. rw Hrz; [by exists t|]. done.
  - intros t [Hin Hz]. rw Hrz; [by exists t|]. split; [done|]. apply Hfl. destruct Htm as [Htm| ->]; [left|by right]. intros ->.
    pose proof (r_client _ _ _ Hr c) as Hcl. rw (idle_of _ _ _ _ Hr Htm) in Hcl. by destruct Hcl as (_ & _ & _ & ?).
Qed.
Lemma signal_spec s pc a c td e :
  rel s pc a -> runs s pc c -> exists r k', do_thread_event_signal td e (sch s) = Ok (r, k') /\ rel (s <| sch := k' |>) pc a.
Proof.
  intros Hr (Hc & Hpc & _). destruct (signal_undisturbed (sch s) pc c td e (r_kinv _ _ _ Hr) Hc Hpc) as (r & k' & Hrun & Hi' & _ & Hf & Hin & Hst).
  exists r, k'. split; [done|]. apply (quiet_client s pc); try done; [intros t u; apply Hin|].
  intros t [Ht Hz]. split; [by apply Hst|apply Hf].
Qed.

(** Closing a port: each queued request is answered with ECONNABORTED. *)
Lemma abort_one s pc a c p t l :
  rel s pc a -> runs s pc c -> queue a p = t :: l ->
  exists s', (_ ← unpend (PServer p) t; connabort t) s = Ok (tt, s') /\ runs s' pc c /\ mp_flags (mport s' (PServer p)) = mp_flags (mport s (PServer p)) /\
    rel s' pc (State (<[t := Done (RErr ECONNABORTED)]> (stat a)) (<[p := l]> (queue a))).
Proof.
  intros Hr (Hc & Hpc & Hid) El. assert (stat a t = Queued p) as Hst. { apply (r_wf _ _ _ Hr). rw El. set_solver. }
  pose proof (r_client _ _ _ Hr t) as Hcl. rw Hst in Hcl. destruct Hcl as ((x & Hx & Hl & Hid' & Hport & Hrp & Hcm & Ht) & Hrep & Hwt).
  destruct Hr as [Hi Hwf Hqs Hf Hrv Hw Hcl]. destruct s as [k ms tm mp fl]. destruct a as [f q]. simpl in *.
  destruct (wakeup_client k pc c (rr t) t Hi Hc Hpc (Hw t)) as (k' & Hwake & Hi' & Hc' & Hfl & Hrt & Hro).
  assert (list_remove1 t (pending_msg_list (mp (PServer p))) = l) as Hlr. { by rw Hqs El /= decide_True. }
  set x1 := x <| linked := false |> <| msgid := INVALID_PID |> <| reply_status := RErr ECONNABORTED |>.
  set ms1 := <[t := Some x1]> (<[t := Some (x <| linked := false |>)]> ms).
  set mp1 := <[PServer p := with_pending l (mp (PServer p))]> mp.
  destruct (move_run k k' ms1 tm mp1 fl (PReply t) t x1 (TaskWakeup (rr t)) tt (fun _ => mret tt)) as (ms' & mp' & Hmv & [Hm1 Hm2] & [Hp1 Hp2]);
    [by rw /ms1 fn_lookup_insert|done|rw /mp1; reads; rw Hrep; set_solver|done|].
  exists (mkIpcs k' ms' tm mp' fl). split; [|split; [|split]].
  - rw {1}/mbind {1}/M_bind (unpend_run _ _ _ _ _ _ _ x) //; [rw Hqs El; set_solver|]. rw Hlr /connabort {1}/mbind {1}/M_bind.
    rw (upd_msg_run _ _ _ _ _ _ (x <| linked := false |>)); [by rw fn_lookup_insert|].
    rw {1}/mbind {1}/M_bind (get_msg_run _ _ _ _ _ _ x1); [by rw fn_lookup_insert|]. rw Hrp. exact Hmv.
  - assert (sched_policy (th k' c) = sched_policy (th k c)) as E; [|split_and!; try done; by rw /= E].
    destruct (TaskWakeup_spec k pc (rr t) (proj1 Hi)) as (k'' & Hw' & _ & _ & E).
    { destruct (running_awake _ _ _ Hi Hc) as [Hon _]. by rw (on_cpu_owner _ _ _ (proj1 Hi) Hon Hpc). }
    assert (k'' = k') as -> by congruence. destruct (rendez k (rr t)); subst k'; [done|]. by rw (woken_fields sched_policy).
  - rw /= Hp2 // /mp1. by reads.
  - assert (forall p', pending_msg_list (mp' (PServer p')) = <[p := l]> q p') as Hq'.
    { intros p'. rw Hp2 // /mp1. destruct (decide (p' = p)) as [->|Hn]; reads; [done|]. by apply Hqs. }
    split; simpl; try done.
    + destruct Hwf as [W1 W2]. simpl in W1, W2. pose proof (W2 p) as Hn. rw El in Hn. apply NoDup_cons in Hn as [Htl Hnl]. split; simpl.
      * intros p' t'. destruct (decide (p' = p)) as [->|]; destruct (decide (t' = t)) as [->|]; reads.
        -- naive_solver.
        -- rw -W1 El. set_solver.
        -- rw W1 Hst. naive_solver.
        -- apply W1.
      * intros p'. destruct (decide (p' = p)) as [->|]; by reads.
    + intros t'. destruct (decide (t' = t)) as [->|]; [rw Hp1 /with_pending /= /mp1; reads|rw Hp2; [congruence|]; rw /mp1; reads]; apply Hf.
    + intros p'. destruct (decide (p' = PReply t)) as [->|]; [rw Hp1 /with_pending /= /mp1; reads; apply Hrv|]. rw Hp2 // /mp1.
      destruct (decide (PServer p = p')) as [<-|]; reads; apply Hrv.
    + intros t' u. destruct (decide (t' = t)) as [->|Hne]; [rw Hrt; set_solver|]. rw Hro; [by apply rr_ne|]. apply Hw.
    + intros t'. destruct (decide (t' = t)) as [->|Hne]; reads.
      * split_and!; [|by rw Hp1 /with_pending /= /mp1; reads; rw Hrep|rw Hrt; set_solver].
        eexists. split; [split_and!; [exact Hm1|..]; simpl; try done; by left|done].
      * apply (client_frame (mkIpcs k ms tm mp fl)); simpl; [apply Hcl|rw Hm2 // /ms1; by reads|done|rw Hp2; [congruence|]; rw /mp1; by reads|..].
        -- rw Hro //. by apply rr_ne.
        -- intros [Hin Hz]. rw /waits /= in Hin Hz |- *. rw Hro; [by apply rr_ne|]. by rw Hfl.
Qed.

Lemma fini_pending_spec l s pc a c p :
  rel s pc a -> runs s pc c -> queue a p = l ->
  exists s' a', fini_pending (length l) (PServer p) s = Ok (tt, s') /\ rel s' pc a' /\ mp_flags (mport s' (PServer p)) = mp_flags (mport s (PServer p)) /\
    (forall t, stat a' t = if decide (t ∈ l) then Done (RErr ECONNABORTED) else stat a t) /\
    queue a' p = [] /\ (forall p', p' <> p -> queue a' p' = queue a p').
Proof.
  revert s a. induction l as [|t l IH]; intros s a Hr Hrun El.
  { exists s, a. split; [|split_and!; try done].
    - simpl. rw {1}/mbind {1}/M_bind {1}/gets (r_queue _ _ _ Hr) El //. }
  pose proof (r_wf _ _ _ Hr) as [_ Hnd]. specialize (Hnd p). rw El in Hnd. apply NoDup_cons in Hnd as [Htl _].
  destruct (abort_one s pc a c p t l Hr Hrun El) as (s1 & Hone & Hrun1 & Hf1 & Hr1).
  destruct (IH s1 _ Hr1 Hrun1) as (s' & a' & Hrest & Hr' & Hf' & Hst & Hq & Ho); [simpl; by reads|].
  exists s', a'. split; [|split_and!; try done; try congruence].
  - simpl. rw {1}/mbind {1}/M_bind {1}/gets (r_queue _ _ _ Hr) El. rw -Hrest. revert Hone. rw /mbind /M_bind.
    destruct (unpend (PServer p) t s) as [[[] s2]| |]; try done. by intros ->.
  - intros t'. rw Hst /=. destruct (decide (t' = t)) as [->|]; reads; [rw decide_False // decide_True //; set_solver|].
    repeat case_decide; set_solver.
  - intros p' Hp'. rw Ho //=. by reads.
Qed.

Lemma fini_spec s pc a c p :
  rel s pc a -> runs s pc c -> exists s', fini_msgport (PServer p) s = Ok (RVal 0, s') /\ ~ is_open s' p /\
    exists a', step a (Close p (queue a p)) a' /\ rel s' pc a'.
Proof.
  intros Hr Hrun. set s1 := s <| mport ::= fun g => <[PServer p := (g (PServer p)) <| mp_flags ::= fun f => Z.lor f MPF_SHUTDOWN |>]> g |>.
  assert (forall q, pending_msg_list (mport s1 q) = pending_msg_list (mport s q) /\ received_msg_list (mport s1 q) = received_msg_list (mport s q)) as Hsame.
  { intros q. rw /s1 /=. destruct (decide (PServer p = q)) as [<-|]; by reads. }
  assert (rel s1 pc a) as Hr1.
  { destruct Hr as [Hi Hwf Hq Hf Hrv Hw Hcl]. split; try done.
    - intros p'. by rw (proj1 (Hsame _)).
    - intros q. by rw (proj2 (Hsame q)). }
  destruct (fini_pending_spec (queue a p) s1 pc a c p Hr1 Hrun eq_refl) as (s' & a' & Hp & Hr' & Hfl & Hst & Hq & Ho).
  exists s'. split_and!.
  - rw /fini_msgport {1}/mbind {1}/M_bind {1}/upd_port {1}/modify -/s1 {1}/mbind {1}/M_bind {1}/gets (r_received _ _ _ Hr1) (r_queue _ _ _ Hr1) /=.
    rw {1}/mbind {1}/M_bind {1}/mbind {1}/M_bind {1}/gets (r_received _ _ _ Hr1). by rw {1}/mret {1}/M_ret {1}/mbind {1}/M_bind Hp.
  - rw /is_open Hfl /s1 /=. reads. rw /MPF_SHUTDOWN has_bit // Z.lor_spec bit_testbit // bool_decide_true // orb_true_r. done.
  - exists a'. split; [by constructor|done].
Qed.

(** ** Executions

    [c_reply]: a server answers only requests it has taken. *)
Inductive cstep : ipcs * (nat -> loc) -> label -> ipcs * (nat -> loc) -> Prop :=
| c_send s pc c p i cm rep sn si rn ri r s' :
    runs s pc c -> thread_msg s c = None -> cm <> CMD_ABORT -> is_open s p ->
    ksendmsg (PServer p) i cm rep sn si rn ri s = Ok (r, s') -> cstep (s, pc) (Send c p) (s', pc)
| c_return s pc c p r s' :
    runs s pc c -> thread_msg s c <> None -> ksendmsg_resumed (PServer p) s = Ok (Some r, s') -> cstep (s, pc) (Return c r) (s', pc)
| c_get s pc c fd p sz r s' :
    runs s pc c -> port_of s c fd p -> is_open s p -> sys_getmsg fd true sz s = Ok (r, s') -> cstep (s, pc) (get_label p r) (s', pc)
| c_reply s pc c fd p t st rep r s' :
    runs s pc c -> port_of s c fd p -> t ∉ pending_msg_list (mport s (PServer p)) ->
    sys_replymsg fd (tid t) st rep true s = Ok (r, s') -> cstep (s, pc) (reply_label s t st rep r) (s', pc)
| c_close s pc c p r s' :
    runs s pc c -> fini_msgport (PServer p) s = Ok (r, s') -> cstep (s, pc) (Close p (pending_msg_list (mport s (PServer p)))) (s', pc)
| c_kernel s pc c k k' :
    current_thread (sch s) = Some c -> thread_msg s c = None \/ k = CResched -> may_call (sch s) pc c k -> spares not_reply k ->
    call_run k (sch s) = Ok (tt, k') -> cstep (s, pc) Tau (s <| sch := k' |>, call_loc k c pc)
| c_signal s pc c td e r k' :
    runs s pc c -> do_thread_event_signal td e (sch s) = Ok (r, k') -> cstep (s, pc) Tau (s <| sch := k' |>, pc).

Inductive cexec : ipcs * (nat -> loc) -> list label -> ipcs * (nat -> loc) -> Prop :=
| cexec_nil x : cexec x [] x
| cexec_snoc x ls y l z : cexec x ls y -> cstep y l z -> cexec x (ls ++ [l]) z.

Lemma cstep_sim x l y a : cstep x l y -> rel x.1 x.2 a -> exists a', step a l a' /\ rel y.1 y.2 a'.
Proof.
  intros Hs. destruct Hs as [s pc c p i cm rep sn si rn ri r s' Hrun Htm Hcm Hop Hr|s pc c p r s' Hrun Htm Hr|s pc c fd p sz r s' Hrun Hp Hop Hr
    |s pc c fd p t st rep r s' Hrun Hp Hn Hr|s pc c p r s' Hrun Hr|s pc c k k' Hc Htm Hm Hsp Hr|s pc c td e r k' Hrun Hr]; simpl; intros Hrel.
  - destruct (send_spec s pc a c p i cm rep sn si rn ri Hrel Hrun Htm Hcm Hop) as (s'' & Hr' & a' & ? & ?). exists a'. rw Hr in Hr'. by simplify_eq.
  - destruct (return_spec s pc a c p Hrel Hrun Htm) as (s'' & r' & Hr' & a' & ? & ?). exists a'. rw Hr in Hr'. by simplify_eq.
  - destruct (get_spec s pc a c fd p sz Hrel Hrun Hp Hop) as (s'' & r' & Hr' & _ & a' & ? & ?). exists a'. rw Hr in Hr'. by simplify_eq.
  - destruct (reply_spec s pc a c fd p t st rep Hrel Hrun Hp Hn) as (s'' & r' & Hr' & _ & a' & ? & ?). exists a'. rw Hr in Hr'. by simplify_eq.
  - destruct (fini_spec s pc a c p Hrel Hrun) as (s'' & Hr' & _ & a' & ? & ?). exists a'. rw (r_queue _ _ _ Hrel). rw Hr in Hr'. by simplify_eq.
  - destruct (kernel_spec s pc a c k Hrel Hc Htm Hm Hsp) as (k'' & Hr' & ?). exists a. split; [constructor|]. rw Hr in Hr'. by simplify_eq.
  - destruct (signal_spec s pc a c td e Hrel Hrun) as (r' & k'' & Hr' & ?). exists a. split; [constructor|]. rw Hr in Hr'. by simplify_eq.
Qed.

Lemma cexec_sim x ls y a : cexec x ls y -> rel x.1 x.2 a -> exists a', exec a ls a' /\ rel y.1 y.2 a'.
Proof.
  induction 1 as [x|x ls y l z _ IH Hs]; intros Hr; [exists a; by split; [constructor|]|].
  destruct (IH Hr) as (a1 & He & Hr1). destruct (cstep_sim y l z a1 Hs Hr1) as (a2 & Hs2 & ?). exists a2. split; [exact (exec_snoc _ _ _ _ _ He Hs2)|done].
Qed.

(** Everything a thread that runs in the kernel may do with messages returns. *)
Definition calls_return s pc c : Prop :=
  (thread_msg s c = None -> forall p i cm rep sn si rn ri, cm <> CMD_ABORT -> is_open s p ->
     exists s', ksendmsg (PServer p) i cm rep sn si rn ri s = Ok (None, s')) /\
  (thread_msg s c <> None -> forall p, exists s' r, ksendmsg_resumed (PServer p) s = Ok (Some r, s')) /\
  (forall fd p sz, port_of s c fd p -> is_open s p -> exists r s', sys_getmsg fd true sz s = Ok (r, s')) /\
  (forall fd p t st rep, port_of s c fd p -> t ∉ pending_msg_list (mport s (PServer p)) ->
     exists r s', sys_replymsg fd (tid t) st rep true s = Ok (r, s')) /\
  (forall p, exists s', fini_msgport (PServer p) s = Ok (RVal 0, s')).

(** C1: The message calls implement the specification for clients and servers
    that keep to the protocol: threads without a request send one, with a
    command other than CMD_ABORT, to a port that is open, and wait; servers
    take requests from open ports and answer requests that they have taken;
    ports are closed; and threads do other things in the kernel that do not use
    the rendez of the reply ports. Every execution of these calls is an
    execution of the specification, and every such call returns: none panics,
    corrupts a list or touches a message that is gone. The wait of [ksendmsg]
    cannot be interrupted, so that [kabortmsg] is never reached. Outside of the
    protocol the calls go wrong: an answer to a request that is still pending
    and the abort of one fault ([msg_not_taken_faults]), and a request to a
    closed port leaves a dangling pointer ([send_to_closed_port]). *)
Theorem msg_refines_spec s0 pc0 a0 ls s pc :
  rel s0 pc0 a0 -> cexec (s0, pc0) ls (s, pc) ->
  exists a, exec a0 ls a /\ rel s pc a /\ forall c, runs s pc c -> calls_return s pc c.
Proof.
  intros Hr He. destruct (cexec_sim _ _ _ a0 He Hr) as (a & Ha & Hra). exists a. simpl in Hra. split; [done|]. split; [done|].
  intros c Hrun. split_and!.
  - intros Htm p i cm rep sn si rn ri Hcm Hop. destruct (send_spec s pc a c p i cm rep sn si rn ri Hra Hrun Htm Hcm Hop) as (s' & ? & _). by exists s'.
  - intros Htm p. destruct (return_spec s pc a c p Hra Hrun Htm) as (s' & r & ? & _). by exists s', r.
  - intros fd p sz Hp Hop. destruct (get_spec s pc a c fd p sz Hra Hrun Hp Hop) as (s' & r & ? & _). by exists r, s'.
  - intros fd p t st rep Hp Hn. destruct (reply_spec s pc a c fd p t st rep Hra Hrun Hp Hn) as (s' & r & ? & _). by exists r, s'.
  - intros p. destruct (fini_spec s pc a c p Hra Hrun) as (s' & ? & _). by exists s'.
Qed.

(** Nothing has been sent. *)
Definition fresh s pc : Prop :=
  kinv (sch s) pc /\ (forall p, mport s p = mkMsgPort [] [] 0 (target_tid (mport s p)) (target_event (mport s p))) /\
  (forall t, msgs s t = None /\ thread_msg s t = None /\ rendez (sch s) (rr t) = []).
Lemma fresh_rel s pc : fresh s pc -> rel s pc (State (fun _ => Idle) (fun _ => [])).
Proof.
  intros (Hi & Hp & Ht). split; simpl; try done.
  - split; [set_solver|]. intros p. apply NoDup_nil_2.
  - intros p. by rw Hp.
  - intros p. by rw Hp.
  - intros p. by rw Hp.
  - intros t u. destruct (Ht t) as (_ & _ & ->). set_solver.
  - intros t. destruct (Ht t) as (-> & -> & ->). split_and!; [done|done|by rw Hp|set_solver].
Qed.

(** C28: Delivery: the requests taken from a port, by a server or by closing it,
    together with those still pending are the requests sent to it, in the order
    in which they were sent; and the statuses a client's calls return are those
    replied to it, in order, except for at most one reply that it has not
    picked up yet. *)
Theorem msg_delivery s0 pc0 ls s pc :
  fresh s0 pc0 -> cexec (s0, pc0) ls (s, pc) ->
  (forall p, mjoin (map (sent_at p) ls) = mjoin (map (got_at p) ls) ++ pending_msg_list (mport s (PServer p))) /\
  (forall t, exists last, mjoin (map (replied_to t) ls) = mjoin (map (returned_to t) ls) ++ last /\
     (length last <= 1)%nat /\ (replies s t = [] -> last = [])).
Proof.
  intros Hf He. destruct (cexec_sim _ _ _ _ He (fresh_rel _ _ Hf)) as (a & Ha & Hr). simpl in Hr.
  destruct (exec_history _ _ _ Ha) as [Hp Ht]; [done|done|]. split.
  - intros p. by rw (r_queue _ _ _ Hr).
  - intros t. exists (outcome_of (stat a t)). split; [done|]. pose proof (r_client _ _ _ Hr t) as Hcl.
    destruct (stat a t); simpl in *; split; try lia; try done. destruct Hcl as (_ & -> & _). done.
Qed.

(** The id of a request is the sender's thread id: a server that answers one it
    has not taken yet puts the message on two lists, and so does the abort of
    a request that is still pending. *)
Theorem msg_not_taken_faults s pc a c fd p t st rep :
  rel s pc a -> runs s pc c -> port_of s c fd p -> t ∈ pending_msg_list (mport s (PServer p)) -> tid t <> INVALID_PID ->
  sys_replymsg fd (tid t) st rep true s = Fault /\ kabortmsg (PServer p) t s = Fault.
Proof.
  intros Hr (Hc & Hpc & Hid) Hp Hin Hnt. rw (r_queue _ _ _ Hr) in Hin. apply (r_wf _ _ _ Hr) in Hin.
  pose proof (r_client _ _ _ Hr t) as Hcl. rw Hin in Hcl. destruct Hcl as ((x & Hx & Hl & Hid' & Hport & Hrp & Hcm & Ht) & Hrep & Hwt).
  destruct Hid' as [|Hid']; [done|]. split.
  - assert (forall A (y z : A), (if (if rep is Some _ then negb true else false) then y else z) = z) as Hsz by (by destruct rep).
    rw /sys_replymsg Hsz (with_port_run s c fd p) //. destruct s as [k ms tm mp fl]. simpl in *.
    rw {1}/mbind {1}/M_bind /msgid_to_msg get_thread_tid {1}/mbind {1}/M_bind {1}/gets /= Ht.
    rw {1}/mbind {1}/M_bind (get_msg_run _ _ _ _ _ _ x) // Hport. destruct (decide (Some (PServer p) = Some (PServer p))) as [_|]; [|done].
    rw /mret {1}/M_ret {1}/mbind {1}/M_bind (get_msg_run _ _ _ _ _ _ x) // {1}/mbind {1}/M_bind (upd_msg_run _ _ _ _ _ _ x) //.
    assert (forall ms1 x1, ms1 t = Some x1 -> linked x1 = true -> reply_port x1 = Some (PReply t) ->
      kreplymsg t (mkIpcs k ms1 tm mp fl) = Fault) as Hfault.
    { intros ms1 x1 E1 E2 E3. rw /kreplymsg {1}/mbind {1}/M_bind (get_msg_run _ _ _ _ _ _ x1) // E3 {1}/mbind {1}/M_bind (upd_msg_run _ _ _ _ _ _ x1) //.
      rw {1}/mbind {1}/M_bind /pend {1}/mbind {1}/M_bind (get_msg_run _ _ _ _ _ _ (x1 <| port := Some (PReply t) |>)); [by rw fn_lookup_insert|].
      by rw /= E2. }
    destruct (store_reply_run k ms tm mp fl t x st rep) as (ms1 & x1 & Hrun & [Hx1 _] & E1 & _ & E3 & _).
    rw {1}/mbind {1}/M_bind Hrun Hrp {1}/mbind {1}/M_bind /kassert /mret {1}/M_ret {1}/mbind {1}/M_bind. rw (Hfault ms1 x1) //; congruence.
  - destruct s as [k ms tm mp fl]. simpl in *. rw /kabortmsg {1}/mbind {1}/M_bind (get_msg_run _ _ _ _ _ _ x) // Hid'.
    destruct (Z.eqb_spec (tid t) INVALID_PID); [done|]. destruct (Z.eqb_spec (cmd x) CMD_ABORT); [done|]. simpl.
    rw {1}/mbind {1}/M_bind (upd_msg_run _ _ _ _ _ _ x) // {1}/mbind {1}/M_bind /pend {1}/mbind {1}/M_bind.
    rw (get_msg_run _ _ _ _ _ _ (x <| cmd := CMD_ABORT |>)); [by rw fn_lookup_insert|]. by rw /= Hl.
Qed.

(** A request to a port that has been closed is refused, but leaves the thread
    with a pointer to the message of the finished call, which the next reply
    to its id follows. *)
Theorem send_to_closed_port s pc a c p i cm rep sn si rn ri :
  rel s pc a -> runs s pc c -> thread_msg s c = None -> ~ is_open s p ->
  exists s', ksendmsg (PServer p) i cm rep sn si rn ri s = Ok (Some (RErr ECONNABORTED), s') /\
    thread_msg s' c = Some c /\ msgs s' c = None /\
    forall fd q st rp, port_of s' c fd q -> sys_replymsg fd (tid c) st rp true s' = Fault.
Proof.
  intros Hr (Hc & Hpc & Hid) Htm Hop. destruct s as [k ms tm mp fl]. simpl in *. apply not_false_is_true in Hop. simpl in Hop.
  eexists. split_and!.
  - rw /ksendmsg {1}/mbind {1}/M_bind (on_sch_run k k _ _ _ _ _ c); [by apply current_run|].
    rw {1}/mbind {1}/M_bind {1}/set_thread_msg_to {1}/modify {1}/mbind {1}/M_bind {1}/put_msg {1}/modify /=.
    rw {1}/mbind {1}/M_bind /kputmsg {1}/mbind {1}/M_bind {1}/gets /= Hop. reflexivity.
  - simpl. by reads.
  - simpl. by reads.
  - intros fd q st rp Hq. assert (forall A (y z : A), (if (if rp is Some _ then negb true else false) then y else z) = z) as Hsz by (by destruct rp).
    rw /sys_replymsg Hsz (with_port_run _ c fd q) //. rw {1}/mbind {1}/M_bind /msgid_to_msg get_thread_tid {1}/mbind {1}/M_bind {1}/gets /=.
    reads. by rw {1}/mbind {1}/M_bind /get_msg {1}/mbind {1}/M_bind {1}/gets /=; reads.
Qed.
End protocol.

(** ** Witnesses: thread 0 of [Sample] sends a request to port 5 *)
Module MsgSample.
Definition consts : MsgConsts :=
  {| CMD_ABORT := 1; CMD_SENDIO := 2; IOV_MAX := 16;
     port_rendez := fun p => match p with PServer n => 2 * n + 100 | PReply n => 2 * n + 101 end%nat |}.
Lemma consts_inj (p q : portid) : port_rendez (MsgConsts := consts) p = port_rendez (MsgConsts := consts) q -> p = q.
Proof. destruct p, q; simpl; intros E; f_equal; lia. Qed.
(** Descriptor 0 is the port of the superblock 5. *)
Definition files : fs :=
  mkFs (fun _ => mkFilp 0 0 1 FILP_TYPE_SUPERBLOCK (Some 5%nat)) [] (fun _ => mkFProcess 0 None None [mkFileDesc FDF_ALL (Some 0%nat)])
    (fun _ => 0) (fun _ => 0) [].
Definition ipcs0 : ipcs := mkIpcs Sample.state0 (fun _ => None) (fun _ => None) (fun _ => mkMsgPort [] [] 0 3 4) files.
Definition no_iov (n : nat) : msgiov := mkIov 0 0.
End MsgSample.
Import Sample MsgSample.
#[local] Existing Instance plain_threads.
#[local] Existing Instance consts.
#[local] Existing Instance newlib_consts.

Lemma sample_fresh : fresh ipcs0 pc0.
Proof.
  split_and!; [apply sample_kinv|done|]. intros t. split_and!; [done|done|]. simpl. by destruct (Nat.eqb_spec (t + (t + 0) + 101) 7); [lia|].
Qed.
Lemma sample_runs : runs ipcs0 pc0 0.
Proof. by split_and!. Qed.

Lemma msg_refines_spec_witness :
  exists a, exec (State (fun _ => Idle) (fun _ => [])) [] a /\ rel ipcs0 pc0 a /\ forall c, runs ipcs0 pc0 c -> calls_return ipcs0 pc0 c.
Proof. apply (msg_refines_spec consts_inj ipcs0 pc0 _ []); [apply (fresh_rel consts_inj), sample_fresh|apply cexec_nil].
Defined.

(** After one request, which is pending, the same sender's is the only one. *)
Lemma msg_delivery_witness :
  exists s, cexec (ipcs0, pc0) [Send 0 5] (s, pc0) /\ pending_msg_list (mport s (PServer 5)) = [0%nat].
Proof.
  destruct (ksendmsg (PServer 5) KUCOPY 7 None 0 no_iov 0 None ipcs0) as [[r s]| |] eqn:E; [|vm_compute in E; discriminate..].
  exists s. assert (cexec (ipcs0, pc0) ([] ++ [Send 0 5]) (s, pc0)) as He.
  { eapply cexec_snoc; [apply cexec_nil|]. eapply (c_send ipcs0 pc0 0 5 KUCOPY 7); [apply sample_runs|reflexivity|discriminate|reflexivity|exact E]. }
  split; [exact He|]. destruct (msg_delivery consts_inj ipcs0 pc0 _ s pc0 sample_fresh He) as [Hp _]. exact (eq_sym (Hp 5%nat)).
Defined.
