(* ===== verification/MsgData.v ===== *)
(** * MsgData: reading and writing the data of a message

    The calls of fs/msg.c by which a server reads the buffers a client sends
    and writes those it receives in, given as arrays of io vectors; and
    [sys_sendio]. Data moves between two memories through a [channel]: for a
    message between processes this is [ipcopy] ([ipc_channel] below), for one
    from the kernel copyin and copyout. *)

From S2P Require Import Prelude Sched Ids FileDesc Access Event Msg UserMem.
Local Open Scope Z_scope.
Local Open Scope kernel_scope.

(** ** Copying between memories

    [copy d s n] copies [n] bytes from [s] to [d] and tells whether it could;
    [dbyte] and [sbyte] are the bytes of the two memories, [dok] and [sok] the
    addresses that can be written and read. *)
Record channel (mem : Type) := mkChannel {
  copy : Z -> Z -> Z -> mem -> outcome (bool * mem);
  dbyte : mem -> Z -> Z;
  sbyte : mem -> Z -> Z;
  dok : Z -> bool;
  sok : Z -> bool }.
Arguments copy {mem}.
Arguments dbyte {mem}.
Arguments sbyte {mem}.
Arguments dok {mem}.
Arguments sok {mem}.

(** What the calls rely on. *)
Class Lawful {mem : Type} (ch : channel mem) : Prop :=
  law_copy : forall d s n m, 0 <= d -> 0 <= s -> 0 < n < 2 ^ 31 -> d + n <= 2 ^ 32 -> s + n <= 2 ^ 32 ->
    exists b m', copy ch d s n m = Ok (b, m') /\
      (b = true <-> forall i, 0 <= i < n -> dok ch (d + i) = true /\ sok ch (s + i) = true) /\
      (forall a, sbyte ch m' a = sbyte ch m a) /\
      (forall a, ~ d <= a < d + n -> dbyte ch m' a = dbyte ch m a) /\
      (b = true -> forall i, 0 <= i < n -> dbyte ch m' (d + i) = sbyte ch m (s + i)).

(** The channel between two processes: the bytes are in the kernel's memory, at
    the addresses that the two page tables give. *)
Section ipc_channel.
Variables (PAGE_SIZE VM_USER_CEILING : Z) (src_walk dst_walk : Z -> Z + errno).

Definition byte_at (walk : Z -> Z + errno) (m : Z -> Z) (a : Z) : Z := match walk a with inl k => m k | inr _ => 0 end.
Definition mapped (walk : Z -> Z + errno) (a : Z) : bool :=
  (a <? VM_USER_CEILING) && match walk a with inl _ => true | inr _ => false end.
Definition ipc_channel : channel (Z -> Z) := {|
  copy := fun d s n m =>
    match ipcopy PAGE_SIZE VM_USER_CEILING src_walk dst_walk m d s n with
    | Ok (r, m') => Ok (match r with RVal z => z =? 0 | RErr _ => false end, m')
    | Panic => Panic
    | Fault => Fault
    end;
  dbyte := byte_at dst_walk;
  sbyte := byte_at src_walk;
  dok := mapped dst_walk;
  sok := mapped src_walk |}.
End ipc_channel.

(** ** Seeking: the vector that has the byte at an offset *)
Fixpoint seek_loop (n i : nat) (iov : nat -> msgiov) (offset base : Z) : option (nat * Z * Z) :=
  match n with
  | O => None
  | S n' =>
    if (base <=? offset) && (wrap32 offset <? wrap32 (base + iov_size (iov i))) then
      Some (i, wrap32 (base + iov_size (iov i) - offset), offset - base)
    else seek_loop n' (S i) iov offset (ssize (base + iov_size (iov i)))
  end.
Definition seekiov (iov_cnt : Z) (iov : nat -> msgiov) (offset : Z) : outcome (option (nat * Z * Z)) :=
  if offset <? 0 then Ok None
  else if negb (0 <? iov_cnt) then Panic
  else Ok (seek_loop (Z.to_nat iov_cnt) 0 iov offset 0).

(** ** One buffer *)
Section transfer.
Context {mem : Type} (ch : channel mem).
(** [true]: the buffer is copied to the message. *)
Variable wr : bool.

Definition copy_chunk (buf msg n : Z) : mem -> outcome (bool * mem) :=
  if wr then copy ch msg buf n else copy ch buf msg n.

(** The loop of [sys_readmsg] and [sys_writemsg]; at most one turn for each
    vector. *)
Fixpoint iov_loop (fuel : nat) (cnt : Z) (iov : nat -> msgiov) (addr buf_sz : Z) (i : nat) (nbytes buf_remaining iov_remaining iov_offset : Z)
    (m : mem) : outcome (ret * mem) :=
  if (Z.of_nat i <? cnt) && (wrap32 nbytes <? buf_sz) && (0 <? buf_remaining) then
    match fuel with
    | O => Fault
    | S fuel' =>
      let n := if buf_remaining <? iov_remaining then buf_remaining else iov_remaining in
      match copy_chunk (wrap32 (addr + nbytes)) (wrap32 (iov_addr (iov i) + iov_offset)) n m with
      | Ok (true, m') =>
        let nbytes := ssize (nbytes + n) in
        let buf_remaining := wrap32 (buf_sz - nbytes) in
        if iov_remaining - n =? 0 then
          iov_loop fuel' cnt iov addr buf_sz (S i) nbytes buf_remaining (iov_size (iov (S i))) 0 m'
        else iov_loop fuel' cnt iov addr buf_sz i nbytes buf_remaining (iov_remaining - n) (ssize (iov_offset + n)) m'
      | Ok (false, m') => Ok (RErr EFAULT, m')
      | Panic => Panic
      | Fault => Fault
      end
    end
  else Ok (RVal nbytes, m).

Definition msg_transfer (cnt : Z) (iov : nat -> msgiov) (addr buf_sz offset : Z) (m : mem) : outcome (ret * mem) :=
  match seekiov cnt iov offset with
  | Ok None => Ok (RErr EINVAL, m)
  | Ok (Some (i, iov_remaining, iov_offset)) =>
    iov_loop (Z.to_nat cnt) cnt iov addr buf_sz i 0 buf_sz iov_remaining iov_offset m
  | Panic => Panic
  | Fault => Fault
  end.
End transfer.

(** ** Several buffers

    The two loops are written out, since the conditions by which they move to
    the next vector differ. [None]: the loop is not over after [fuel] turns.
    A copy that fails ends the loop with what was moved. *)
Section transfers.
Context {mem : Type} (ch : channel mem).

(** [xiov] is the server's array, [siov] the message's. *)
Fixpoint readmsgiov_loop (fuel : nat) (siov_cnt : Z) (siov : nat -> msgiov) (iov_cnt : Z) (iov : nat -> msgiov)
    (si : nat) (siov_remaining siov_offset : Z) (xi : nat) (xiov_remaining xiov_offset : Z) (nbytes_read : Z) (m : mem)
    : outcome (option ret * mem) :=
  if (Z.of_nat si <? siov_cnt) && (Z.of_nat xi <? iov_cnt) then
    match fuel with
    | O => Ok (None, m)
    | S fuel' =>
      let n := if siov_remaining <? xiov_remaining then siov_remaining else xiov_remaining in
      match copy ch (wrap32 (iov_addr (iov xi) + xiov_offset)) (wrap32 (iov_addr (siov si) + siov_offset)) n m with
      | Ok (true, m') =>
        let '(xi', xr, xo) :=
          if xiov_remaining - n =? 0 then (S xi, iov_size (iov (S xi)), 0) else (xi, xiov_remaining - n, ssize (xiov_offset + n)) in
        let '(si', sr, so) :=
          if xr =? 0 then (S si, iov_size (siov (S si)), 0) else (si, siov_remaining - n, ssize (siov_offset + n)) in
        readmsgiov_loop fuel' siov_cnt siov iov_cnt iov si' sr so xi' xr xo (ssize (nbytes_read + n)) m'
      | Ok (false, m') => Ok (Some (RVal nbytes_read), m')
      | Panic => Panic
      | Fault => Fault
      end
    end
  else Ok (Some (RVal nbytes_read), m).

Fixpoint writemsgiov_loop (fuel : nat) (riov_cnt : Z) (riov : nat -> msgiov) (iov_cnt : Z) (iov : nat -> msgiov)
    (ri : nat) (riov_remaining riov_offset : Z) (xi : nat) (xiov_remaining xiov_offset : Z) (nbytes_written : Z) (m : mem)
    : outcome (option ret * mem) :=
  if (Z.of_nat ri <? riov_cnt) && (Z.of_nat xi <? iov_cnt) then
    match fuel with
    | O => Ok (None, m)
    | S fuel' =>
      let n := if riov_remaining <? xiov_remaining then riov_remaining else xiov_remaining in
      match copy ch (wrap32 (iov_addr (riov ri) + riov_offset)) (wrap32 (iov_addr (iov xi) + xiov_offset)) n m with
      | Ok (true, m') =>
        let '(ri', rr, ro) :=
          if riov_remaining - n =? 0 then (S ri, iov_size (riov (S ri)), 0) else (ri, riov_remaining - n, ssize (riov_offset + n)) in
        let '(xi', xr, xo) :=
          if xiov_remaining - n =? 0 then (S xi, iov_size (riov (S xi)), 0) else (xi, xiov_remaining - n, ssize (xiov_offset + n)) in
        writemsgiov_loop fuel' riov_cnt riov iov_cnt iov ri' rr ro xi' xr xo (ssize (nbytes_written + n)) m'
      | Ok (false, m') => Ok (Some (RVal nbytes_written), m')
      | Panic => Panic
      | Fault => Fault
      end
    end
  else Ok (Some (RVal nbytes_written), m).
End transfers.

(** ** The calls

    The data of the message of thread [t] is behind a channel of its own, one
    for each kind of message and each direction. *)
Section calls.
Context `{Threads, MsgConsts, FsConsts} {mem : Type} (chan : nat -> Z -> bool -> channel mem).

Definition find_msg (fd id : Z) (s : ipcs) : outcome (option (nat * Msg)) :=
  match with_port fd None (fun p => o ← msgid_to_msg p id;
          match o with None => mret None | Some t => x ← get_msg t; mret (Some (t, x)) end) s with
  | Ok (r, _) => Ok r
  | Panic => Panic
  | Fault => Fault
  end.

Definition sys_readmsg (fd id addr buf_sz offset : Z) (s : ipcs) (m : mem) : outcome (ret * mem) :=
  o ← find_msg fd id s;
  match o with
  | None => Ok (RErr EINVAL, m)
  | Some (t, x) =>
    if (siov_cnt x =? 0) || (IOV_MAX <=? siov_cnt x) then Ok (RErr EINVAL, m)
    else msg_transfer (chan t (ipc x) false) false (siov_cnt x) (siov x) addr buf_sz offset m
  end.

Definition sys_writemsg (fd id addr buf_sz offset : Z) (s : ipcs) (m : mem) : outcome (ret * mem) :=
  o ← find_msg fd id s;
  match o with
  | None => Ok (RErr EINVAL, m)
  | Some (t, x) =>
    match riov x with
    | None => Ok (RErr EINVAL, m)
    | Some iov =>
      if (riov_cnt x =? 0) || (IOV_MAX <? riov_cnt x) then Ok (RErr EINVAL, m)
      else msg_transfer (chan t (ipc x) true) true (riov_cnt x) iov addr buf_sz offset m
    end
  end.

(** [user]: what reading the caller's array gives, its entries after [iov_cnt]
    being what the kernel's array held before. *)
Definition sys_readmsgiov (fuel : nat) (fd id iov_cnt : Z) (user : option (nat -> msgiov)) (offset : Z) (s : ipcs) (m : mem)
    : outcome (option ret * mem) :=
  if (iov_cnt <? 1) || (IOV_MAX <? iov_cnt) then Ok (Some (RErr EINVAL), m)
  else match user with
  | None => Ok (Some (RErr EFAULT), m)
  | Some iov =>
    o ← find_msg fd id s;
    match o with
    | None => Ok (Some (RErr EINVAL), m)
    | Some (t, x) =>
      if (siov_cnt x =? 0) || (IOV_MAX <? siov_cnt x) then Ok (Some (RErr EINVAL), m)
      else
        q ← seekiov (siov_cnt x) (siov x) offset;
        match q with
        | None => Ok (Some (RErr EINVAL), m)
        | Some (si, rem, off) =>
          readmsgiov_loop (chan t (ipc x) false) fuel (siov_cnt x) (siov x) iov_cnt iov si rem off 0 (iov_size (iov 0%nat)) 0 0 m
        end
    end
  end.

Definition sys_writemsgiov (fuel : nat) (fd id iov_cnt : Z) (user : option (nat -> msgiov)) (offset : Z) (s : ipcs) (m : mem)
    : outcome (option ret * mem) :=
  if (iov_cnt <? 1) || (IOV_MAX <? iov_cnt) then Ok (Some (RErr EINVAL), m)
  else match user with
  | None => Ok (Some (RErr EFAULT), m)
  | Some iov =>
    o ← find_msg fd id s;
    match o with
    | None => Ok (Some (RErr EINVAL), m)
    | Some (t, x) =>
      match riov x with
      | None => Ok (Some (RVal 0), m)
      | Some riov =>
        if riov_cnt x =? 0 then Ok (Some (RVal 0), m)
        else
          q ← seekiov (riov_cnt x) riov offset;
          match q with
          | None => Ok (Some (RErr EINVAL), m)
          | Some (ri, rem, off) =>
            writemsgiov_loop (chan t (ipc x) true) fuel (riov_cnt x) riov iov_cnt iov ri rem off 0 (iov_size (iov 0%nat)) 0 0 m
          end
      end
    end
  end.
End calls.

(** ** fs/vfs.c and [sys_sendio] *)
Section send.
Context `{Threads, MsgConsts, FsConsts}.
(** The superblock and the other fields of a vnode, and the credentials of the
    caller. *)
Variables (superblock : nat -> nat) (vnode : nat -> VNode) (cred : Cred) (X_OK : Z).

Definition vfs_sendmsg (v : nat) (siov_cnt : Z) (siov : nat -> msgiov) (riov_cnt : Z) (riov : nat -> msgiov) : M ipcs (option ret) :=
  ksendmsg (PServer (superblock v)) IPCOPY CMD_SENDIO None siov_cnt siov riov_cnt (Some riov).

(** The arrays are what reading the user's gives. *)
Definition sys_sendio (fd siov_cnt : Z) (siov : option (nat -> msgiov)) (riov_cnt : Z) (riov : option (nat -> msgiov)) (old_riov : nat -> msgiov)
    : M ipcs (option ret) :=
  if (siov_cnt <? 1) || (IOV_MAX <? siov_cnt) || (riov_cnt <? 0) || (IOV_MAX <? riov_cnt) then mret (Some (RErr EINVAL))
  else match siov, (if 0 <? riov_cnt then riov else Some old_riov) with
  | Some siov, Some riov =>
    c ← on_sch get_current_thread;
    o ← on_mfiles (filp_get (process_of c) fd);
    match o with
    | None => mret (Some (RErr EBADF))
    | Some x =>
      v ← on_mfiles (vnode_get_from_filp x);
      match v with
      | None => mret (Some (RErr EBADF))
      | Some v =>
        mode ← gets (fun s => v_mode (mfiles s) v);
        fl ← gets (fun s => f_flags (filp (mfiles s) x));
        if decide (check_access cred (vnode v) mode (Some fl) X_OK = RVal 0) then vfs_sendmsg v siov_cnt siov riov_cnt riov
        else mret (Some (RErr EACCES))
      end
    end
  | _, _ => mret (Some (RErr EFAULT))
  end.
End send.
