(* ===== verification/MsgDataThms.v ===== *)
(** * MsgDataThms: the data of a message is the concatenation of its buffers

    [sys_readmsg] and [sys_writemsg] against the list of the bytes' addresses;
    the channel between two processes that [ipcopy] makes; and where
    [sys_readmsgiov] does not return. *)

From S2P Require Import Prelude Sched SchedQueue Bkl BklSteps FileDesc Event EventThms Msg MsgThms UserMem MsgData.
Local Open Scope Z_scope.
Local Open Scope kernel_scope.

(** ** Addresses *)
Definition range (a n : Z) : list Z := map (fun i => a + Z.of_nat i) (seq 0 (Z.to_nat n)).
(** The addresses of the bytes of a message. *)
Definition addresses (l : list msgiov) : list Z := mjoin (map (fun v => range (iov_addr v) (iov_size v)) l).
Definition vector (cnt : Z) (iov : nat -> msgiov) : list msgiov := map iov (seq 0 (Z.to_nat cnt)).

Lemma range_length a n : length (range a n) = Z.to_nat n.
Proof. by rw /range length_map length_seq. Qed.
Lemma range_split a n k : 0 <= k <= n -> range a n = range a k ++ range (a + k) (n - k).
Proof.
  intros Hk. rw /range. replace (Z.to_nat n) with (Z.to_nat k + Z.to_nat (n - k))%nat by lia. rw seq_app map_app /=. f_equal.
  rw -(Nat.add_0_r (Z.to_nat k)) -{1}(Nat.add_0_l (Z.to_nat k)). apply list_eq. intros i. rw !list_lookup_fmap.
  destruct (decide (i < Z.to_nat (n - k))%nat); [rw !lookup_seq_lt //=; f_equal; lia|].
  rw !lookup_seq_ge //; lia.
Qed.
Lemma range_drop a n k : 0 <= k <= n -> drop (Z.to_nat k) (range a n) = range (a + k) (n - k).
Proof. intros Hk. rw (range_split a n k) // drop_app_length' //. by rw range_length. Qed.
Lemma elem_of_range a n x : x ∈ range a n <-> a <= x < a + n.
Proof.
  rw /range list_elem_of_fmap. split.
  - intros (i & -> & Hi%elem_of_seq). lia.
  - intros Hx. exists (Z.to_nat (x - a)). split; [lia|]. apply elem_of_seq. lia.
Qed.
Lemma range_nil a n : n <= 0 -> range a n = [].
Proof. intros Hn. by rw /range; replace (Z.to_nat n) with 0%nat by lia. Qed.

(** ** Copying byte by byte, in order *)
Definition copy_bytes (ps : list (Z * Z)) (src dst : Z -> Z) : Z -> Z := foldl (fun f p => <[p.1 := src p.2]> f) dst ps.
Lemma copy_bytes_app ps qs src dst : copy_bytes (ps ++ qs) src dst = copy_bytes qs src (copy_bytes ps src dst).
Proof. apply foldl_app. Qed.
Lemma copy_bytes_ext ps src src' dst dst' :
  (forall a, src a = src' a) -> (forall a, dst a = dst' a) -> forall a, copy_bytes ps src dst a = copy_bytes ps src' dst' a.
Proof.
  intros Hs. revert dst dst'. induction ps as [|[d s] ps IH]; intros dst dst' Hd a; simpl; [done|]. apply IH. intros b.
  rw /insert /fn_insert Hs. by case_decide.
Qed.
Lemma copy_bytes_other ps src dst a : a ∉ ps.*1 -> copy_bytes ps src dst a = dst a.
Proof.
  revert dst. induction ps as [|[d s] ps IH]; intros dst Ha; [done|]. apply not_elem_of_cons in Ha as [Hne Ha]. simpl in *.
  rw IH // fn_lookup_insert_ne //. congruence.
Qed.
(** Each destination is written once. *)
Lemma copy_bytes_nodup ps src dst d s : NoDup ps.*1 -> (d, s) ∈ ps -> copy_bytes ps src dst d = src s.
Proof.
  revert dst. induction ps as [|[d' s'] ps IH]; intros dst Hn Hin; [by apply not_elem_of_nil in Hin|]. apply NoDup_cons in Hn as [Hd Hn]. simpl in *.
  apply elem_of_cons in Hin as [[= <- <-]|Hin]; [|by apply IH]. rw copy_bytes_other // fn_lookup_insert //.
Qed.

(** ** The position in the vectors *)
Section position.
Implicit Types (iov : nat -> msgiov) (i j n N : nat).

(** The addresses from byte [off] of vector [i] on. *)
Definition from_here N iov i (off : Z) : list Z :=
  if decide (i < N)%nat then range (iov_addr (iov i) + off) (iov_size (iov i) - off) ++ addresses (map iov (seq (S i) (N - S i))) else [].

Lemma from_here_next N iov i : from_here N iov i (iov_size (iov i)) = if decide (i < N)%nat then from_here N iov (S i) 0 else [].
Proof.
  rw /from_here. case_decide; [|done]. rw range_nil; [lia|]. simpl. case_decide.
  - destruct (N - S i)%nat as [|k] eqn:E; [lia|]. simpl. replace (N - S (S i))%nat with k by lia. rw Z.add_0_r Z.sub_0_r. done.
  - by replace (N - S i)%nat with 0%nat by lia.
Qed.
Lemma from_here_step N iov i off (n : Z) :
  (i < N)%nat -> 0 <= off -> 0 <= n -> off + n <= iov_size (iov i) ->
  from_here N iov i off = range (iov_addr (iov i) + off) n ++ from_here N iov i (off + n).
Proof.
  intros Hi Ho Hn Hle. rw /from_here !decide_True // (range_split _ _ n); [lia|]. by rw -app_assoc Z.add_assoc Z.sub_add_distr.
Qed.

Lemma addresses_cons iov i n : addresses (map iov (seq i (S n))) = range (iov_addr (iov i)) (iov_size (iov i)) ++ addresses (map iov (seq (S i) n)).
Proof. done. Qed.

Lemma seek_loop_spec n i iov offset base :
  (forall k, (k < i + n)%nat -> 0 <= iov_size (iov k)) -> 0 <= base <= offset -> base + Z.of_nat (length (addresses (map iov (seq i n)))) < 2 ^ 31 -> offset < 2 ^ 31 ->
  if decide (offset - base < Z.of_nat (length (addresses (map iov (seq i n))))) then
    exists j off, seek_loop n i iov offset base = Some (j, iov_size (iov j) - off, off) /\ (j < i + n)%nat /\ 0 <= off < iov_size (iov j) /\
      drop (Z.to_nat (offset - base)) (addresses (map iov (seq i n))) = from_here (i + n) iov j off
  else seek_loop n i iov offset base = None.
Proof.
  revert i base. induction n as [|n IH]; intros i base Hsz Hb Htot Hoff; [simpl; rw decide_False //; lia|].
  rw addresses_cons in Htot |- *. rw length_app range_length in Htot |- *. pose proof (Hsz i ltac:(lia)) as Hi. cbn [seek_loop].
  rw (wrap32_id offset); [rw /u32; lia|]. rw (wrap32_id (base + iov_size (iov i))); [rw /u32; lia|]. destruct (Z.leb_spec base offset); [|lia]. destruct (Z.ltb_spec offset (base + iov_size (iov i))) as [Hlt|Hge]; simpl.
  - rw decide_True; [lia|]. exists i, (offset - base). split_and!; [rw wrap32_id; [rw /u32; lia|do 3 f_equal; lia]|lia|lia|lia|].
    rw /from_here decide_True; [lia|]. rw drop_app_le; [rw range_length; lia|]. rw range_drop; [lia|]. by replace (i + S n - S i)%nat with n by lia.
  - assert (ssize (base + iov_size (iov i)) = base + iov_size (iov i)) as -> by (rw /ssize Z.mod_small; lia).
    specialize (IH (S i) (base + iov_size (iov i)) ltac:(intros; apply Hsz; lia) ltac:(lia) ltac:(lia) Hoff).
    destruct (decide (offset - (base + _) < _)) in IH.
    + rw decide_True; [lia|]. destruct IH as (j & off & Hr & Hj & Ho & Hd).
      exists j, off. split_and!; try done; try lia. replace (i + S n)%nat with (S i + n)%nat by lia. rw -Hd.
      rw drop_app_ge; [rw range_length; lia|]. rw range_length. f_equal. lia.
    + rw decide_False; [lia|]. done.
Qed.
End position.

(** ** One buffer *)
Lemma ssize_id z : - 2 ^ 31 <= z < 2 ^ 31 -> ssize z = z.
Proof. intros Hz. rw /ssize Z.mod_small; lia. Qed.
Lemma zip_range_fst d s n : (zip (range d n) (range s n)).*1 = range d n.
Proof. apply fst_zip. rw !range_length. lia. Qed.
Lemma range_NoDup a n : NoDup (range a n).
Proof. apply NoDup_fmap_2; [intros x y; lia|]. apply NoDup_seq. Qed.
Lemma elem_of_zip_range d s n x y : (x, y) ∈ zip (range d n) (range s n) <-> exists i, 0 <= i < n /\ x = d + i /\ y = s + i.
Proof.
  rw /range zip_with_fmap_l zip_with_fmap_r. split.
  - intros (i & Hi)%list_elem_of_lookup. apply lookup_zip_with_Some in Hi as (u & v & [= -> ->] & [-> Hu]%lookup_seq & [-> Hv]%lookup_seq).
    exists (Z.of_nat i). lia.
  - intros (i & Hi & -> & ->). apply list_elem_of_lookup. exists (Z.to_nat i). apply lookup_zip_with_Some. exists (Z.to_nat i), (Z.to_nat i).
    rw !lookup_seq_lt; [lia|]. split_and!; [f_equal; lia|done|done].
Qed.

Section loop.
Context {mem : Type} (ch : channel mem) `{!Lawful ch}.
Implicit Types (ps : list (Z * Z)) (m : mem).

(** The pairs of destination and source addresses between a buffer and a message. *)
Definition pairs (wr : bool) (buf msg : list Z) : list (Z * Z) := if wr then zip msg buf else zip buf msg.
Definition accessible ps : Prop := Forall (fun p => dok ch p.1 = true /\ sok ch p.2 = true) ps.
#[local] Instance accessible_dec ps : Decision (accessible ps).
Proof. rw /accessible. apply _. Defined.

Lemma copy_spec d s n m : 0 <= d -> 0 <= s -> 0 < n < 2 ^ 31 -> d + n <= 2 ^ 32 -> s + n <= 2 ^ 32 ->
  exists b m', copy ch d s n m = Ok (b, m') /\ (b = true <-> accessible (zip (range d n) (range s n))) /\ (forall a, sbyte ch m' a = sbyte ch m a) /\
    (b = true -> forall a, dbyte ch m' a = copy_bytes (zip (range d n) (range s n)) (sbyte ch m) (dbyte ch m) a).
Proof using Type*.
  intros Hd Hs Hn Hd2 Hs2. destruct (law_copy d s n m) as (b & m' & Hr & Hb & Hsb & Ho & Hc); try done. exists b, m'. split_and!; try done.
  - rw Hb /accessible Forall_forall. split.
    + intros Hall [x y] (i & Hi & -> & ->)%elem_of_zip_range. by apply Hall.
    + intros Hall i Hi. apply (Hall (d + i, s + i)), elem_of_zip_range. by exists i.
  - intros -> a. destruct (decide (d <= a < d + n)) as [Ha|Ha].
    + rw (copy_bytes_nodup _ _ _ a (s + (a - d))); [rw zip_range_fst; apply range_NoDup|apply elem_of_zip_range; exists (a - d); lia|].
      rw -Hc //; [lia|]. f_equal. lia.
    + rw Ho // copy_bytes_other // zip_range_fst elem_of_range //.
Qed.

Lemma copy_chunk_spec wr buf msg n m : 0 <= buf -> 0 <= msg -> 0 < n < 2 ^ 31 -> buf + n <= 2 ^ 32 -> msg + n <= 2 ^ 32 ->
  exists b m', copy_chunk ch wr buf msg n m = Ok (b, m') /\ (b = true <-> accessible (pairs wr (range buf n) (range msg n))) /\
    (forall a, sbyte ch m' a = sbyte ch m a) /\
    (b = true -> forall a, dbyte ch m' a = copy_bytes (pairs wr (range buf n) (range msg n)) (sbyte ch m) (dbyte ch m) a).
Proof using Type*. destruct wr; intros; by apply copy_spec. Qed.

Lemma pairs_app wr a b c d : length a = length c -> pairs wr (a ++ b) (c ++ d) = pairs wr a c ++ pairs wr b d.
Proof using Type. destruct wr; intros; by apply zip_with_app. Qed.
Lemma pairs_nil_l wr l : pairs wr [] l = [].
Proof using Type. destruct wr; [by rw /pairs; destruct l|done]. Qed.
Lemma pairs_nil_r wr l : pairs wr l [] = [].
Proof using Type. destruct wr; [done|by rw /pairs; destruct l]. Qed.
Lemma pairs_length wr a b : length (pairs wr a b) = (length a `min` length b)%nat.
Proof using Type. destruct wr; rw /pairs length_zip; lia. Qed.

(** What a transfer of the bytes [ps] after [nbytes] others does. *)
Definition transferred ps (nbytes : Z) m (o : outcome (ret * mem)) : Prop :=
  exists r m', o = Ok (r, m') /\ (forall a, sbyte ch m' a = sbyte ch m a) /\
    if decide (accessible ps) then r = RVal (nbytes + Z.of_nat (length ps)) /\ forall a, dbyte ch m' a = copy_bytes ps (sbyte ch m) (dbyte ch m) a
    else r = RErr EFAULT.

Lemma transferred_nil nbytes m : transferred [] nbytes m (Ok (RVal nbytes, m)).
Proof using Type. exists (RVal nbytes), m. split_and!; [done|done|]. destruct (decide _) as [_|Hn]; [split; [f_equal; simpl; lia|done]|]. exfalso. apply Hn. constructor. Qed.
Lemma transferred_app ps qs n m m' o : accessible ps -> (forall a, sbyte ch m' a = sbyte ch m a) ->
  (forall a, dbyte ch m' a = copy_bytes ps (sbyte ch m) (dbyte ch m) a) -> transferred qs (n + Z.of_nat (length ps)) m' o -> transferred (ps ++ qs) n m o.
Proof using Type.
  intros Hps Hs Hd (r & m2 & -> & Hs2 & Hr). exists r, m2. split_and!; [done|intros a; by rw Hs2|].
  destruct (decide (accessible qs)) as [Hq|Hq].
  - destruct (decide (accessible (ps ++ qs))) as [_|Hn]; [|exfalso; by apply Hn, Forall_app]. destruct Hr as [-> Hr]. rw length_app. split; [f_equal; lia|]. intros a. rw Hr copy_bytes_app.
    by apply copy_bytes_ext.
  - destruct (decide (accessible (ps ++ qs))) as [[_ ?]%Forall_app|]; done.
Qed.

Section one_buffer.
Context (wr : bool) (cnt : Z) (iov : nat -> msgiov) (addr buf_sz : Z).
Context (sizes : forall k, (k < Z.to_nat cnt)%nat -> 0 <= iov_addr (iov k) /\ 0 < iov_size (iov k) /\ iov_addr (iov k) + iov_size (iov k) <= 2 ^ 32).
Context (cnt_pos : 0 <= cnt) (addr_pos : 0 <= addr) (buf_range : 0 <= buf_sz < 2 ^ 31) (buf_end : addr + buf_sz <= 2 ^ 32).
Let N := Z.to_nat cnt.

Lemma iov_loop_full fuel i rem off m : iov_loop ch wr fuel cnt iov addr buf_sz i buf_sz 0 rem off m = Ok (RVal buf_sz, m).
Proof using Type. destruct fuel; simpl; by rw andb_false_r. Qed.

Lemma iov_loop_spec fuel : forall i nbytes off m,
  (i <= N)%nat -> (N - i <= fuel)%nat -> 0 <= nbytes <= buf_sz -> ((i < N)%nat -> 0 <= off < iov_size (iov i)) ->
  transferred (pairs wr (range (addr + nbytes) (buf_sz - nbytes)) (from_here N iov i off)) nbytes m
    (iov_loop ch wr fuel cnt iov addr buf_sz i nbytes (buf_sz - nbytes) (iov_size (iov i) - off) off m).
Proof using Type*.
  induction fuel as [|fuel IH]; intros i nbytes off m Hi Hf Hn Ho; cbn [iov_loop];
    (destruct (Z.ltb_spec (Z.of_nat i) cnt) as [Hlt|Hge]; [|rw /from_here decide_False; [lia|]; rw pairs_nil_r; apply transferred_nil]); [lia|].
  rw (wrap32_id nbytes); [rw /u32; lia|]. assert (i < N)%nat as HiN by lia. destruct (sizes i HiN) as (Ha & Hsz & He). specialize (Ho HiN).
  destruct (decide (nbytes = buf_sz)) as [->|Hne].
  { rw Z.ltb_irrefl /= range_nil; [lia|]. rw pairs_nil_l. apply transferred_nil. }
  destruct (Z.ltb_spec nbytes buf_sz); [|lia]. destruct (Z.ltb_spec 0 (buf_sz - nbytes)); [|lia]. cbn [andb].
  set rem := iov_size (iov i) - off. set br := buf_sz - nbytes. assert ((if br <? rem then br else rem) = Z.min br rem) as -> by (zcases; lia).
  set n := Z.min br rem. rw (wrap32_id (addr + nbytes)); [rw /u32; lia|]. rw (wrap32_id (iov_addr (iov i) + off)); [rw /u32; lia|].
  rw (range_split _ br n); [lia|]. rw (from_here_step N iov i off n); [lia|lia|lia|lia|]. rw pairs_app; [by rw !range_length|].
  destruct (copy_chunk_spec wr (addr + nbytes) (iov_addr (iov i) + off) n m) as (b & m' & -> & Hb & Hs & Hd); [lia..|].
  set ps := pairs wr (range (addr + nbytes) n) _ in Hb Hd |- *.
  assert (Z.of_nat (length ps) = n) as Hps by (rw pairs_length !range_length; lia).
  destruct b.
  - apply transferred_app with (m' := m'); [by apply Hb|done|by apply Hd|]. rw Hps. rw (ssize_id (nbytes + n)); [lia|]. rw (wrap32_id (buf_sz - _)); [rw /u32; lia|].
    destruct (Z.eqb_spec (rem - n) 0) as [Hz|Hz].
    + replace (off + n) with (iov_size (iov i)) by lia. rw from_here_next decide_True //. replace (addr + nbytes + n) with (addr + (nbytes + n)) by lia.
      replace (br - n) with (buf_sz - (nbytes + n)) by lia. rw -{1}(Z.sub_0_r (iov_size (iov (S i)))). apply IH; [lia|lia|lia|]. intros HS. destruct (sizes (S i) HS). lia.
    + replace (nbytes + n) with buf_sz by lia. rw range_nil; [lia|]. rw pairs_nil_l Z.sub_diag iov_loop_full. apply transferred_nil.
  - exists (RErr EFAULT), m'. split_and!; [done|done|]. destruct (decide (accessible _)) as [[Hac _]%Forall_app|]; [|done]. apply Hb in Hac. done.
Qed.

(** The bytes from [offset] on. *)
Lemma msg_transfer_spec offset m :
  0 < cnt -> Z.of_nat (length (addresses (vector cnt iov))) < 2 ^ 31 -> - 2 ^ 31 <= offset < 2 ^ 31 ->
  if decide (0 <= offset < Z.of_nat (length (addresses (vector cnt iov)))) then
    transferred (pairs wr (range addr buf_sz) (drop (Z.to_nat offset) (addresses (vector cnt iov)))) 0 m (msg_transfer ch wr cnt iov addr buf_sz offset m)
  else msg_transfer ch wr cnt iov addr buf_sz offset m = Ok (RErr EINVAL, m).
Proof using Type*.
  intros Hc Hlen Hoff. rw /msg_transfer /seekiov. destruct (Z.ltb_spec offset 0); [by destruct (decide _); [lia|]|]. destruct (Z.ltb_spec 0 cnt); [|lia]. simpl.
  pose proof (seek_loop_spec N 0 iov offset 0) as Hseek. rw Z.sub_0_r Nat.add_0_l in Hseek.
  specialize (Hseek ltac:(intros k Hk; destruct (sizes k Hk); lia) ltac:(lia) ltac:(done) ltac:(lia)). rw /vector -/N in Hlen |- *.
  destruct (decide (offset < _)) as [Hlt|Hge] in Hseek.
  - destruct (decide (0 <= offset < _)); [|lia]. destruct Hseek as (j & off & -> & Hj & Ho & ->).
    pose proof (iov_loop_spec N j 0 off m ltac:(lia) ltac:(lia) ltac:(lia) ltac:(done)) as Hl. by rw Z.add_0_r Z.sub_0_r in Hl.
  - destruct (decide (0 <= offset < _)); [lia|]. by rw Hseek.
Qed.
End one_buffer.
End loop.

(** ** Messages between processes *)
Section between.
Context (PAGE_SIZE VM_USER_CEILING : Z) (src_walk dst_walk : Z -> Z + errno).
(** Whole pages are mapped; no two pages of the receiver share a frame, and it
    shares none with the sender. *)
Context (page_pos : 0 < PAGE_SIZE) (ceiling : VM_USER_CEILING < 2 ^ 31).
Context (src_pages : maps_pages PAGE_SIZE src_walk) (dst_pages : maps_pages PAGE_SIZE dst_walk).
Context (dst_inj : forall a b k, dst_walk a = inl k -> dst_walk b = inl k -> a = b).
Context (apart : forall a b k, src_walk a = inl k -> dst_walk b = inl k -> False).
Let frame (walk : Z -> Z + errno) (a : Z) : Z := match walk a with inl k => k | inr _ => 0 end.

(** The first byte that is not mapped. *)
Lemma mapped_prefix d s n : 0 <= n -> exists b e, 0 <= b <= n /\
  (forall i, 0 <= i < b -> src_walk (s + i) = inl (frame src_walk (s + i)) /\ dst_walk (d + i) = inl (frame dst_walk (d + i))) /\
  (b < n -> src_walk (s + b) = inr e \/ ((exists k, src_walk (s + b) = inl k) /\ dst_walk (d + b) = inr e)).
Proof using Type.
  intros Hn. pattern n. apply natlike_ind; [exists 0, EFAULT; split_and!; lia| |done]. clear n Hn. intros n Hn (b & e & Hb & Hm & Hs).
  destruct (decide (b < n)) as [Hlt|Hge]; [exists b, e; split_and!; [lia|lia|done|intros _; by apply Hs]|]. assert (b = n) as -> by lia.
  destruct (src_walk (s + n)) as [ks|es] eqn:Es; [|exists n, es; split_and!; [lia|lia|done|by left]].
  destruct (dst_walk (d + n)) as [kd|ed] eqn:Ed; [|exists n, ed; split_and!; [lia|lia|done|]].
  - exists (n + 1), EFAULT. split_and!; [lia|lia| |lia]. intros i Hi. destruct (decide (i = n)) as [->|]; [|apply Hm; lia]. by rw /frame Es Ed.
  - intros _. right. by split; [exists ks|].
Qed.

#[local] Instance ipc_channel_lawful : Lawful (ipc_channel PAGE_SIZE VM_USER_CEILING src_walk dst_walk).
Proof using All.
  intros d s n m Hd Hs Hn Hd2 Hs2. simpl. destruct (decide (d + n <= VM_USER_CEILING /\ s + n <= VM_USER_CEILING)) as [[Hd3 Hs3]|Hout].
  - destruct (mapped_prefix d s n) as (b & e & Hb & Hm & Hst); [lia|].
    destruct (ipcopy_spec PAGE_SIZE VM_USER_CEILING page_pos src_walk dst_walk src_pages dst_pages m d s n b e
      (fun i => frame src_walk (s + i)) (fun i => frame dst_walk (d + i))) as (m' & -> & Hc & Ho); try lia; try done.
    { intros i Hi. by apply Hm. }
    { intros i Hi. by apply Hm. }
    { intros i j Hi Hj E. destruct (Hm i Hi) as [_ H1], (Hm j Hj) as [_ H2]. rw E in H1. pose proof (dst_inj _ _ _ H1 H2). lia. }
    { intros i j Hi Hj E. destruct (Hm i Hi) as [H1 _], (Hm j Hj) as [_ H2]. rw E in H1. apply (apart _ _ _ H1 H2). }
    eexists _, m'. split_and!; [done| | | |].
    + rw /mapped. destruct (decide (b = n)) as [->|Hne]; split; try done.
      * intros _ i Hi. destruct (Hm i Hi) as [-> ->]. split; apply andb_true_iff; split; try done; apply Z.ltb_lt; lia.
      * intros Hall. destruct (Hall b) as [[_ E1]%andb_true_iff [_ E2]%andb_true_iff]; [lia|]. destruct Hst as [E|[_ E]]; [lia| |]; rw E in E1 E2; done.
    + intros a. rw /byte_at. destruct (src_walk a) as [k|] eqn:Ea; [|done]. apply Ho. intros i Hi ->. destruct (Hm i Hi) as [_ H2]. apply (apart _ _ _ Ea H2).
    + intros a Ha. rw /byte_at. destruct (dst_walk a) as [k|] eqn:Ea; [|done]. apply Ho. intros i Hi ->. destruct (Hm i Hi) as [_ H2].
      pose proof (dst_inj _ _ _ Ea H2). lia.
    + destruct (decide (b = n)) as [->|]; [|done]. intros _ i Hi. rw /byte_at. destruct (Hm i Hi) as [H1 H2]. rw H1 H2. by apply Hc.
  - exists false, m. split_and!; try done.
    + rw /ipcopy. destruct (_ || _ || _ || _) eqn:E; [done|]. exfalso. apply Hout. rw !orb_false_iff !Z.leb_gt !Z.ltb_ge in E.
      destruct E as [[[E1 E2] E3] E4]. rw wrap32_id in E2; [rw /u32; lia|]. rw wrap32_id in E4; [rw /u32; lia|]. lia.
    + split; [done|]. intros Hall. exfalso. destruct (Hall (n - 1)) as [[E1 _]%andb_true_iff [E2 _]%andb_true_iff]; [lia|]. apply Z.ltb_lt in E1, E2. lia.
Qed.
End between.

(** ** The bytes of a message, by position *)
Lemma zip_fst_elem {A B} (l : list A) (k : list B) x : x ∈ (zip l k).*1 -> x ∈ l.
Proof.
  intros ([a b] & -> & (i & Hi)%list_elem_of_lookup)%list_elem_of_fmap. apply lookup_zip_with_Some in Hi as (? & ? & [= <- <-] & Hl & _).
  apply list_elem_of_lookup. by exists i.
Qed.
Lemma zip_fst_NoDup {A B} (l : list A) (k : list B) : NoDup l -> NoDup (zip l k).*1.
Proof.
  intros Hl. revert k. induction Hl as [|x l Hx Hl IH]; intros [|y k]; simpl; try apply NoDup_nil_2. apply NoDup_cons. split; [|apply IH].
  intros Hin. by apply Hx, (zip_fst_elem _ k).
Qed.

(** Byte [i] of what a buffer and the rest of the message have in common is at
    [addr + i] in the one and at the address [a] in the other. *)
Definition facing (data : list Z) (buf_sz offset i a : Z) : Prop := 0 <= i < buf_sz /\ data !! Z.to_nat (offset + i) = Some a.

Lemma lookup_range a n i : 0 <= i < n -> range a n !! Z.to_nat i = Some (a + i).
Proof. intros Hi. rw /range list_lookup_fmap lookup_seq_lt /=; [lia|]. f_equal. lia. Qed.
Lemma facing_pairs (wr : bool) (data : list Z) (addr buf_sz offset x y : Z) : 0 <= offset ->
  (if wr then (y, x) else (x, y)) ∈ pairs wr (range addr buf_sz) (drop (Z.to_nat offset) data) <-> exists i, x = addr + i /\ facing data buf_sz offset i y.
Proof.
  intros Ho. assert (forall i, drop (Z.to_nat offset) data !! Z.to_nat i = data !! Z.to_nat (offset + i) \/ i < 0) as Hd.
  { intros i. destruct (decide (i < 0)); [by right|]. left. rw lookup_drop. f_equal. lia. }
  split.
  - intros (k & Hk)%list_elem_of_lookup. exists (Z.of_nat k).
    assert (range addr buf_sz !! k = Some x /\ drop (Z.to_nat offset) data !! k = Some y) as [Hr Hy].
    { rw /pairs in Hk. destruct wr; apply lookup_zip_with_Some in Hk as (? & ? & [= <- <-] & ? & ?); done. }
    pose proof (lookup_lt_Some _ _ _ Hr) as Hlt. rw range_length in Hlt. rw -(Nat2Z.id k) lookup_range in Hr; [lia|].
    destruct (Hd (Z.of_nat k)) as [E|]; [|lia]. rw Nat2Z.id Hy in E. split; [congruence|]. split; [lia|done].
  - intros (i & -> & Hi & Hy). apply list_elem_of_lookup. exists (Z.to_nat i). destruct (Hd i) as [E|]; [|lia]. rw /pairs.
    destruct wr; apply lookup_zip_with_Some; do 2 eexists; (split_and!; [done| |]); try (by rw lookup_range); by rw E.
Qed.

(** What a transfer does for the bytes that the buffer and the message from
    [offset] on have in common: if all of them are accessible, they are copied
    to their places, no other byte changes, and their number is returned; if
    not, EFAULT is. [wr]: from the buffer to the message; if the vectors of the
    message overlap, nothing is said of what its bytes get. *)
Section bytes.
Context {mem : Type} (ch : channel mem) `{!Lawful ch} (wr : bool) (data : list Z) (addr buf_sz offset : Z).
Definition dst (i a : Z) : Z := if wr then a else addr + i.
Definition src (i a : Z) : Z := if wr then addr + i else a.
Definition all_accessible : Prop := forall i a, facing data buf_sz offset i a -> dok ch (dst i a) = true /\ sok ch (src i a) = true.
Definition bytes_moved (m : mem) (o : outcome (ret * mem)) : Prop :=
  exists r m', o = Ok (r, m') /\ (forall a, sbyte ch m' a = sbyte ch m a) /\ (~ all_accessible -> r = RErr EFAULT) /\
    (all_accessible -> r = RVal (Z.min buf_sz (Z.of_nat (length data) - offset)) /\
      ((wr = true -> NoDup data) -> forall i a, facing data buf_sz offset i a -> dbyte ch m' (dst i a) = sbyte ch m (src i a)) /\
      (forall b, (forall i a, facing data buf_sz offset i a -> b <> dst i a) -> dbyte ch m' b = dbyte ch m b)).

Lemma dst_src_pairs p : 0 <= offset ->
  p ∈ pairs wr (range addr buf_sz) (drop (Z.to_nat offset) data) <-> exists i a, p = (dst i a, src i a) /\ facing data buf_sz offset i a.
Proof using Type.
  intros Ho. rw /dst /src. destruct p as [u v]. split.
  - intros Hp. assert (exists x y, (u, v) = if wr then (y, x) else (x, y)) as (x & y & E) by (destruct wr; eauto).
    rw E in Hp. apply facing_pairs in Hp as (i & -> & Hi); [|done]. exists i, y. rw E. split; [by destruct wr|done].
  - intros (i & a & -> & Hi). pose proof (facing_pairs wr data addr buf_sz offset (addr + i) a Ho) as [_ E]. destruct wr; apply E; by exists i.
Qed.

Lemma transferred_bytes m o : 0 <= buf_sz -> 0 <= offset <= Z.of_nat (length data) ->
  transferred ch (pairs wr (range addr buf_sz) (drop (Z.to_nat offset) data)) 0 m o -> bytes_moved m o.
Proof using Type.
  intros Hb Ho (r & m' & -> & Hs & Hr). exists r, m'. split_and!; [done|done|..].
  - intros Hnok. destruct (decide _) as [Hac|]; [|done]. destruct Hnok. intros i a Hi. rw /accessible Forall_forall in Hac.
    apply (Hac (dst i a, src i a)), dst_src_pairs; [lia|]. by exists i, a.
  - intros Hok. destruct (decide _) as [Hac|Hac].
    2:{ destruct Hac. apply Forall_forall. intros p Hp. apply dst_src_pairs in Hp as (i & a & -> & Hi); [|lia]. by apply Hok. }
    destruct Hr as [-> Hd]. rw pairs_length range_length length_drop. split_and!; [f_equal; lia|..].
    + intros Hnd i a Hi. rw Hd. apply copy_bytes_nodup; [|apply dst_src_pairs; [lia|]; by exists i, a].
      rw /pairs. destruct wr; apply zip_fst_NoDup; [|apply range_NoDup]. eapply sublist_NoDup; [apply Hnd|apply sublist_drop]. done.
    + intros b Hnb. rw Hd. apply copy_bytes_other. intros (p & -> & Hp)%list_elem_of_fmap. apply dst_src_pairs in Hp as (i & a & -> & Hi); [|lia].
      by apply (Hnb i a).
Qed.
End bytes.

Section calls.
Context `{Threads, MsgConsts, FsConsts} {mem : Type} (chan : nat -> Z -> bool -> channel mem).
Implicit Types (s : ipcs) (m : mem).

(** The vectors are not empty and do not wrap around the address space. *)
Definition good_iov (cnt : Z) (iov : nat -> msgiov) : Prop :=
  0 < cnt /\ (forall k, (k < Z.to_nat cnt)%nat -> 0 <= iov_addr (iov k) /\ 0 < iov_size (iov k) /\ iov_addr (iov k) + iov_size (iov k) <= 2 ^ 32) /\
  Z.of_nat (length (addresses (vector cnt iov))) < 2 ^ 31.
Definition good_buf (addr buf_sz offset : Z) : Prop := 0 <= addr /\ 0 <= buf_sz < 2 ^ 31 /\ addr + buf_sz <= 2 ^ 32 /\ - 2 ^ 31 <= offset < 2 ^ 31.

Lemma msg_transfer_bytes ch wr cnt iov addr buf_sz offset m : Lawful (mem := mem) ch -> good_iov cnt iov -> good_buf addr buf_sz offset ->
  let data := addresses (vector cnt iov) in
  if decide (0 <= offset < Z.of_nat (length data)) then bytes_moved ch wr data addr buf_sz offset m (msg_transfer ch wr cnt iov addr buf_sz offset m)
  else msg_transfer ch wr cnt iov addr buf_sz offset m = Ok (RErr EINVAL, m).
Proof using Type.
  intros HL (Hc & Hsz & Hlen) (Ha & Hb & He & Ho) data.
  pose proof (msg_transfer_spec ch wr cnt iov addr buf_sz Hsz ltac:(lia) Ha Hb He offset m Hc Hlen Ho) as Ht.
  rw -/data in Ht. destruct (decide _); [|done]. apply transferred_bytes; [lia|lia|done].
Qed.

(** C30: [sys_readmsg] reads the concatenation of the buffers the client sends,
    from [offset] on: it refuses an offset outside of it (and messages of
    [IOV_MAX] vectors, which the other calls allow); otherwise it returns, and
    either every byte that the buffer and the rest of the message have in
    common is accessible, and then it returns their number, each of them is
    copied to its place and no other byte of the server changes; or it returns
    EFAULT. *)
Theorem readmsg_correct s m fd id t x addr buf_sz offset :
  find_msg fd id s = Ok (Some (t, x)) -> Lawful (chan t (ipc x) false) -> good_iov (siov_cnt x) (siov x) -> good_buf addr buf_sz offset ->
  let data := addresses (vector (siov_cnt x) (siov x)) in
  if decide (siov_cnt x < IOV_MAX /\ 0 <= offset < Z.of_nat (length data)) then
    bytes_moved (chan t (ipc x) false) false data addr buf_sz offset m (sys_readmsg chan fd id addr buf_sz offset s m)
  else sys_readmsg chan fd id addr buf_sz offset s m = Ok (RErr EINVAL, m).
Proof using Type.
  intros Hf HL Hi Hb data. pose proof (msg_transfer_bytes _ false _ _ addr buf_sz offset m HL Hi Hb) as Ht. destruct Hi as (Hc & _ & _).
  rw /sys_readmsg {1 2}/mbind {1 2}/outcome_bind Hf. destruct (Z.eqb_spec (siov_cnt x) 0); [lia|].
  destruct (Z.leb_spec IOV_MAX (siov_cnt x)); simpl in *; repeat destruct (decide _); tauto || lia.
Qed.

(** C31: [sys_writemsg] writes to the concatenation of the buffers in which the
    client receives, with the same behaviour: EINVAL if there are none or for
    an offset outside of them, EFAULT if a byte is not accessible; otherwise
    the bytes of the server's buffer that fit are in the client's buffers from
    [offset] on, and no other byte of the client changes. *)
Theorem writemsg_correct s m fd id t x addr buf_sz offset :
  find_msg fd id s = Ok (Some (t, x)) -> Lawful (chan t (ipc x) true) -> good_buf addr buf_sz offset ->
  match riov x with
  | None => sys_writemsg chan fd id addr buf_sz offset s m = Ok (RErr EINVAL, m)
  | Some iov =>
    let data := addresses (vector (riov_cnt x) iov) in
    good_iov (riov_cnt x) iov ->
    if decide (riov_cnt x <= IOV_MAX /\ 0 <= offset < Z.of_nat (length data)) then
      bytes_moved (chan t (ipc x) true) true data addr buf_sz offset m (sys_writemsg chan fd id addr buf_sz offset s m)
    else sys_writemsg chan fd id addr buf_sz offset s m = Ok (RErr EINVAL, m)
  end.
Proof using Type.
  intros Hf HL Hb. rw /sys_writemsg {1 2 3}/mbind {1 2 3}/outcome_bind Hf. destruct (riov x) as [iov|]; [|done]. cbv zeta. intros Hi.
  pose proof (msg_transfer_bytes _ true _ _ addr buf_sz offset m HL Hi Hb) as Ht. destruct Hi as (Hc & _ & _).
  destruct (Z.eqb_spec (riov_cnt x) 0); [lia|]. destruct (Z.ltb_spec IOV_MAX (riov_cnt x)); simpl in *; repeat destruct (decide _); tauto || lia.
Qed.
End calls.

(** ** Several buffers *)
Section hangs.
Context `{Threads, MsgConsts, FsConsts} {mem : Type} (chan : nat -> Z -> bool -> channel mem).

(** Once the vector of the message is used up and the buffer is not, nothing
    changes any more. *)
Lemma readmsgiov_stuck ch fuel cnt siov icnt iov si so xi xr xo nb m :
  Z.of_nat si < cnt -> Z.of_nat xi < icnt -> 0 < xr -> - 2 ^ 31 <= so < 2 ^ 31 -> - 2 ^ 31 <= xo < 2 ^ 31 -> - 2 ^ 31 <= nb < 2 ^ 31 ->
  copy ch (wrap32 (iov_addr (iov xi) + xo)) (wrap32 (iov_addr (siov si) + so)) 0 m = Ok (true, m) ->
  readmsgiov_loop (mem := mem) ch fuel cnt siov icnt iov si 0 so xi xr xo nb m = Ok (None, m).
Proof using Type.
  intros Hsi Hxi Hxr Hso Hxo Hnb Hc. induction fuel as [|fuel IH]; cbn [readmsgiov_loop];
    (destruct (Z.ltb_spec (Z.of_nat si) cnt); [|lia]); (destruct (Z.ltb_spec (Z.of_nat xi) icnt); [|lia]); [done|].
  destruct (Z.ltb_spec 0 xr); [|lia]. cbn [andb]. rw Hc Z.sub_0_r. destruct (Z.eqb_spec xr 0); [lia|]. rw !Z.sub_0_r. destruct (Z.eqb_spec xr 0); [lia|].
  by rw !Z.add_0_r !ssize_id.
Qed.

(** [sys_readmsgiov] does not return when the vector of the message that it
    reads is shorter than the first buffer, both are accessible and a copy of
    no bytes succeeds: it moves to the next vector of the message only when
    there is no room left in the buffer, so that from the second turn on it
    copies nothing, for ever. *)
Theorem readmsgiov_hangs s m fd id t x iov_cnt iov offset si rem off fuel :
  find_msg fd id s = Ok (Some (t, x)) -> Lawful (chan t (ipc x) false) -> good_iov (siov_cnt x) (siov x) -> siov_cnt x <= IOV_MAX ->
  1 <= iov_cnt <= IOV_MAX -> seekiov (siov_cnt x) (siov x) offset = Ok (Some (si, rem, off)) ->
  let ch := chan t (ipc x) false in
  let da := iov_addr (iov 0%nat) in
  let sa := iov_addr (siov x si) + off in
  Z.of_nat si < siov_cnt x -> 0 < rem < iov_size (iov 0%nat) -> rem < 2 ^ 31 -> 0 <= off < 2 ^ 31 - rem ->
  0 <= da < 2 ^ 32 - rem -> 0 <= sa < 2 ^ 32 - rem ->
  (forall i, 0 <= i < rem -> dok ch (da + i) = true /\ sok ch (sa + i) = true) ->
  (forall m', copy ch (da + rem) (sa + rem) 0 m' = Ok (true, m')) ->
  exists m', sys_readmsgiov chan fuel fd id iov_cnt (Some iov) offset s m = Ok (None, m').
Proof using Type.
  intros Hf HL (Hc & _ & _) Hmax Hic Hseek ch da sa Hsi Hrem Hr31 Hoff Hda Hsa Hok Hzero. rw /sys_readmsgiov /mbind /outcome_bind Hf.
  destruct (Z.ltb_spec iov_cnt 1); [lia|]. destruct (Z.ltb_spec IOV_MAX iov_cnt); [lia|]. destruct (Z.eqb_spec (siov_cnt x) 0); [lia|].
  destruct (Z.ltb_spec IOV_MAX (siov_cnt x)); [lia|]. cbn [orb]. rw Hseek.
  destruct fuel as [|fuel]; cbn [readmsgiov_loop];
    (destruct (Z.ltb_spec (Z.of_nat si) (siov_cnt x)); [|lia]); (destruct (Z.ltb_spec (Z.of_nat 0) iov_cnt); [|lia]); cbn [andb]; [by eexists|].
  destruct (Z.ltb_spec rem (iov_size (iov 0%nat))); [|lia]. rw Z.add_0_r -/sa -/da -/ch !wrap32_id; [rw /u32; lia|rw /u32; lia|].
  destruct (law_copy (ch := ch) da sa rem m) as (b & m' & -> & [_ Hb] & _); try lia. rw Hb //.
  rw Z.add_0_l !ssize_id; [lia|lia|]. destruct (Z.eqb_spec (iov_size (iov 0%nat) - rem) 0); [lia|]. destruct (Z.eqb_spec (iov_size (iov 0%nat) - rem) 0); [lia|].
  exists m'. rw Z.sub_diag. apply readmsgiov_stuck; try lia. rw -/ch -/da. replace (iov_addr (siov x si) + (off + rem)) with (sa + rem) by lia.
  rw !wrap32_id; [rw /u32; lia|rw /u32; lia|]. apply Hzero.
Qed.
End hangs.

(** ** Witnesses

    Pages of 16 bytes; the first four are mapped in both address spaces. Thread
    3 sends 4 bytes at 20 and 6 at 40, and receives in 8 at 8. *)
Module DataSample.
Definition walk (base va : Z) : Z + errno := if (0 <=? va) && (va <? 64) then inl (base + va) else inr EFAULT.
Definition vectors (i : nat) : msgiov := match i with O => mkIov 20 4 | _ => mkIov 40 6 end.
Definition buffer (i : nat) : msgiov := mkIov 8 8.
Definition chan (t : nat) (k : Z) (wr : bool) : channel (Z -> Z) :=
  if wr then ipc_channel 16 0x7F000000 (walk 2000) (walk 1000) else ipc_channel 16 0x7F000000 (walk 1000) (walk 2000).
Definition request : Msg := mkMsg false 4 (Some (PServer 5)) (Some (PReply 3)) IPCOPY 7 None (RVal 0) 2 vectors 1 (Some buffer).
Definition state : ipcs :=
  mkIpcs Sample.state0 (<[3%nat := Some request]> (fun _ => None)) (<[3%nat := Some 3%nat]> (fun _ => None)) (fun _ => mkMsgPort [] [] 0 3 4) MsgSample.files.
End DataSample.
Import Sample MsgSample DataSample.
#[local] Existing Instance plain_threads.
#[local] Existing Instance consts.
#[local] Existing Instance newlib_consts.

Lemma walk_pages base : maps_pages 16 (walk base).
Proof.
  intros va ka o. rw /walk. destruct (Z.leb_spec 0 va), (Z.ltb_spec va 64); try done. simpl. intros [= <-] Ho Hp.
  pose proof (Z.div_mod va 16 ltac:(lia)). pose proof (Z.mod_pos_bound va 16 ltac:(lia)).
  destruct (Z.leb_spec 0 (va + o)), (Z.ltb_spec (va + o) 64); try lia. simpl. f_equal. lia.
Qed.
Lemma walk_inv base va k : walk base va = inl k -> 0 <= va < 64 /\ k = base + va.
Proof. rw /walk. destruct (Z.leb_spec 0 va), (Z.ltb_spec va 64); try done. intros [= <-]. lia. Qed.
Lemma chan_lawful t k wr : Lawful (chan t k wr).
Proof.
  rw /chan. destruct wr; (apply ipc_channel_lawful; [lia|lia|apply walk_pages|apply walk_pages|..]);
    intros a b j Ha%walk_inv Hb%walk_inv; lia.
Qed.
Lemma sample_found : find_msg 0 4 state = Ok (Some (3%nat, request)).
Proof. reflexivity. Qed.

Lemma walk_ok base a : 0 <= a < 64 -> mapped 0x7F000000 (walk base) a = true.
Proof. intros Ha. rw /mapped /walk. destruct (Z.leb_spec 0 a), (Z.ltb_spec a 64), (Z.ltb_spec a 0x7F000000); try lia. done. Qed.
Lemma sample_access wr data addr buf_sz offset :
  Forall (fun a => 0 <= a < 64) data -> 0 <= addr -> addr + buf_sz <= 64 -> all_accessible (chan 3 IPCOPY wr) wr data addr buf_sz offset.
Proof.
  intros Hall Ha Hb i a [Hi Hl]. pose proof (Forall_lookup_1 _ _ _ _ Hall Hl) as Hr. cbv beta in Hr.
  rw /dst /src /chan. destruct wr; split; apply walk_ok; lia.
Qed.
Lemma sample_good : good_iov 2 vectors /\ good_iov 1 buffer.
Proof. split; (split_and!; [done| |done]); intros [|[|k]] Hk; simpl; lia. Qed.

(** Six bytes from offset 2 on: two of the first vector, four of the second. *)
Lemma readmsg_correct_witness :
  exists m', sys_readmsg chan 0 4 0 6 2 state (fun a => a) = Ok (RVal 6, m') /\ m' 2000 = 1022 /\ m' 2002 = 1040 /\ m' 2005 = 1043.
Proof.
  pose proof (readmsg_correct chan state (fun a => a) 0 4 3 request 0 6 2 sample_found (chan_lawful _ _ _) (proj1 sample_good) ltac:(rw /good_buf; lia)) as Hr.
  cbv zeta in Hr. destruct (decide _) as [_|Hn] in Hr; [|exfalso; apply Hn; vm_compute; split_and!; congruence].
  destruct Hr as (r & m' & E & _ & _ & Hok). destruct Hok as (-> & Hd & _); [apply sample_access; [|lia|lia]; vm_compute; repeat constructor; congruence|].
  exists m'. split; [exact E|]. specialize (Hd ltac:(discriminate)).
  split_and!; [exact (Hd 0 22 ltac:(split; [lia|reflexivity]))|exact (Hd 2 40 ltac:(split; [lia|reflexivity]))|exact (Hd 5 43 ltac:(split; [lia|reflexivity]))].
Defined.

(** Ten bytes to write, three of them fit from offset 5 on. *)
Lemma writemsg_correct_witness :
  exists m', sys_writemsg chan 0 4 30 10 5 state (fun a => a) = Ok (RVal 3, m') /\ m' 1013 = 2030 /\ m' 1015 = 2032.
Proof.
  pose proof (writemsg_correct chan state (fun a => a) 0 4 3 request 30 10 5 sample_found (chan_lawful _ _ _) ltac:(rw /good_buf; lia) (proj2 sample_good)) as Hr.
  cbv zeta in Hr. destruct (decide _) as [_|Hn] in Hr; [|exfalso; apply Hn; vm_compute; split_and!; congruence].
  destruct Hr as (r & m' & E & _ & _ & Hok). destruct Hok as (-> & Hd & _); [apply sample_access; [|lia|lia]; vm_compute; repeat constructor; congruence|].
  exists m'. split; [exact E|]. specialize (Hd ltac:(intros _; apply (range_NoDup 8 8))).
  split; [exact (Hd 0 13 ltac:(split; [lia|reflexivity]))|exact (Hd 2 15 ltac:(split; [lia|reflexivity]))].
Defined.

(** A buffer of 30 bytes for the first vector, which has 4. *)
Lemma readmsgiov_hangs_witness : exists m', sys_readmsgiov chan 1000 0 4 1 (Some (fun _ => mkIov 0 30)) 0 state (fun a => a) = Ok (None, m').
Proof.
  apply (readmsgiov_hangs chan state (fun a => a) 0 4 3 request 1 (fun _ => mkIov 0 30) 0 0%nat 4 0 1000 sample_found (chan_lawful _ _ _) (proj1 sample_good));
    try reflexivity; try (simpl; lia).
  - intros i Hi. split; apply walk_ok; simpl in *; lia.
Defined.
