(* ===== verification/Futex.v ===== *)
(** * Futex: waiting on an address of user memory

    proc/thread_futex.c. A futex is found by a process and an address, through
    a hash table; it is made when it is first used. Threads wait on its rendez.
    The calls run with the big lock held; interrupts, which the loop of
    [sys_futex_requeue] lets in between two threads, do not touch futexes. *)

From S2P Require Import Prelude Sched Event.
Local Open Scope Z_scope.
Local Open Scope kernel_scope.

Record Futex := mkFutex { uaddr : Z; futex_proc : nat; hash : Z }.

(** The futexes; the lists on which [link] and [hash_link] put them: the free
    ones, those of a process, those of a hash value; and the lock of the
    table. *)
Record futexes := mkFutexes {
  fsch : sched;
  futex : nat -> Futex;
  free_futex_list : list nat;
  futex_list : nat -> list nat;
  futex_hash_table : Z -> list nat;
  futex_table_busy : bool }.
Definition eta_futexes s :=
  mkFutexes (fsch s) (futex s) (free_futex_list s) (futex_list s) (futex_hash_table s) (futex_table_busy s).
#[export] Instance set_fsch : Setter fsch := ltac:(solve_setter eta_futexes).
#[export] Instance set_futex : Setter futex := ltac:(solve_setter eta_futexes).
#[export] Instance set_free_futex_list : Setter free_futex_list := ltac:(solve_setter eta_futexes).
#[export] Instance set_futex_list : Setter futex_list := ltac:(solve_setter eta_futexes).
#[export] Instance set_futex_hash_table : Setter futex_hash_table := ltac:(solve_setter eta_futexes).
#[export] Instance set_futex_table_busy : Setter futex_table_busy := ltac:(solve_setter eta_futexes).

(** The pids, and the rendez of each futex and of the lock of the table. *)
Class FutexConsts := {
  pid_of : nat -> Z;
  futex_rendez : nat -> nat;
  futex_table_busy_rendez : nat }.

Definition FUTEX_HASH_SZ : Z := 128.

(** What a call comes to: a result; the thread sleeps, and continues with the
    definition [..._resumed]; the process exits. *)
Inductive fresult : Type := Returns (r : ret) | Sleeps | Exits.

Definition on_fsch {A} (m : M sched A) : M futexes A := fun s =>
  match m (fsch s) with Ok (a, c) => Ok (a, s <| fsch := c |>) | Panic => Panic | Fault => Fault end.
Definition on_free (f : list nat -> outcome (list nat)) : M futexes unit :=
  update free_futex_list (fun l s => s <| free_futex_list := l |>) f.
Definition on_proc (p : nat) (f : list nat -> outcome (list nat)) : M futexes unit :=
  update (fun s => futex_list s p) (fun l s => s <| futex_list ::= fun m => <[p := l]> m |>) f.
Definition on_hash (h : Z) (f : list nat -> outcome (list nat)) : M futexes unit :=
  update (fun s => futex_hash_table s h) (fun l s => s <| futex_hash_table ::= fun m => <[h := l]> m |>) f.

Section ops.
Context `{Threads, FutexConsts}.

Definition futex_hash (p : nat) (ua : Z) : Z := wrap32 (ua + pid_of p) mod FUTEX_HASH_SZ.

(** ** The lock of the table; [false]: the thread sleeps, and tries again when
    it runs. *)
Definition lock_futex_table : M futexes bool :=
  b ← gets futex_table_busy;
  if (b : bool) then _ ← on_fsch (TaskSleep futex_table_busy_rendez); mret false
  else _ ← modify (fun s => s <| futex_table_busy := true |>); mret true.
Definition unlock_futex_table : M futexes unit :=
  _ ← modify (fun s => s <| futex_table_busy := false |>);
  on_fsch (TaskWakeup futex_table_busy_rendez).
Definition locked (k : M futexes fresult) : M futexes fresult :=
  b ← lock_futex_table; if (b : bool) then k else mret Sleeps.
Definition unlocked (r : ret) : M futexes fresult := _ ← unlock_futex_table; mret (Returns r).

(** ** The table *)
Definition futex_create (p : nat) (ua : Z) : M futexes (option nat) :=
  l ← gets free_futex_list;
  match l with
  | [] => mret None
  | f :: _ =>
    _ ← on_free dl_rem_head;
    _ ← on_proc p (dl_add_head f);
    _ ← modify (fun s => s <| futex ::= fun m => <[f := mkFutex ua p (futex_hash p ua)]> m |>);
    _ ← on_hash (futex_hash p ua) (dl_add_head f);
    _ ← on_fsch (InitRendez (futex_rendez f));
    mret (Some f)
  end.

Fixpoint find_futex (tab : nat -> Futex) (p : nat) (ua : Z) (l : list nat) : option nat :=
  match l with
  | [] => None
  | f :: l' => if (uaddr (tab f) =? ua) && (futex_proc (tab f) =? p)%nat then Some f else find_futex tab p ua l'
  end.

(** [None]: the process exits. *)
Definition futex_get (p : nat) (ua : Z) (create : bool) : M futexes (option (option nat)) :=
  if negb (ua mod 4 =? 0) then mret (Some None)
  else
    s ← gets id;
    match find_futex (futex s) p ua (futex_hash_table s (futex_hash p ua)) with
    | Some f => mret (Some (Some f))
    | None =>
      if create then
        o ← futex_create p ua;
        match o with None => mret None | Some f => mret (Some (Some f)) end
      else mret (Some None)
    end.

Definition futex_free (p f : nat) : M futexes unit :=
  x ← gets (fun s => futex s f);
  _ ← on_hash (hash x) (dl_rem f);
  _ ← on_proc p (dl_rem f);
  on_free (dl_add_head f).

(** ** The calls *)
Definition sys_futex_destroy (ua : Z) : M futexes fresult :=
  c ← on_fsch get_current_thread;
  locked (
    o ← futex_get (process_of c) ua false;
    match o with
    | None => mret Exits
    | Some None => unlocked (RErr EINVAL)
    | Some (Some f) => _ ← futex_free (process_of c) f; unlocked (RVal 0)
    end).

(** [cval]: the word at [ua], unless it cannot be read; [timeout]: NULL, or
    whether it can be read. The timeout is not used. *)
Definition sys_futex_wait (ua val : Z) (cval : option Z) (timeout : option bool) : M futexes fresult :=
  c ← on_fsch get_current_thread;
  locked (
    match cval with
    | None => unlocked (RErr EFAULT)
    | Some v =>
      if negb (v =? val) then unlocked (RErr EAGAIN)
      else if (if timeout is Some b then b else false) then unlocked (RErr EFAULT)
      else
        o ← futex_get (process_of c) ua true;
        match o with
        | None => mret Exits
        | Some None => unlocked (RErr EINVAL)
        | Some (Some f) => _ ← unlock_futex_table; _ ← on_fsch (TaskSleep (futex_rendez f)); mret Sleeps
        end
    end).
(** When a thread that slept on a futex runs again. *)
Definition sys_futex_wait_resumed : M futexes fresult := _ ← on_fsch TaskSleep_resumed; mret (Returns (RVal 0)).

(** [f2]: the second futex, unless [uaddr2] is NULL. The loop takes at most
    [n + m] turns. *)
Fixpoint requeue_loop (fuel : nat) (f : nat) (f2 : option nat) (n total count : Z) : M futexes Z :=
  l ← gets (fun s => rendez (fsch s) (futex_rendez f));
  match l with
  | [] => mret count
  | t :: _ =>
    if count <? total then
      match fuel with
      | O => fault
      | S fuel' =>
        _ ← (if count <? n then on_fsch (TaskWakeupSpecific t INTRF_NONE)
             else match f2 with
                  | Some g => on_fsch (TaskRendezRequeue t (futex_rendez f) (futex_rendez g))
                  | None => mret tt
                  end);
        requeue_loop fuel' f f2 n total (wrap32 (count + 1))
      end
    else mret count
  end.

Definition sys_futex_requeue (ua n ua2 m : Z) : M futexes fresult :=
  c ← on_fsch get_current_thread;
  if ua =? ua2 then mret (Returns (RErr EINVAL))
  else locked (
    o ← futex_get (process_of c) ua true;
    match o with
    | None => mret Exits
    | Some None => unlocked (RVal 0)
    | Some (Some f) =>
      o2 ← (if negb (ua2 =? 0) then
              o2 ← futex_get (process_of c) ua2 true;
              mret (match o2 with None => None | Some None => Some None | Some (Some g) => Some (Some (Some g)) end)
            else mret (Some (Some None)));
      match o2 with
      | None => mret Exits
      | Some None => unlocked (RVal 0)
      | Some (Some f2) =>
        count ← requeue_loop (Z.to_nat (wrap32 (n + m))) f f2 n (wrap32 (n + m)) 0;
        unlocked (RVal count)
      end
    end).

Definition sys_futex_wake (ua n : Z) : M futexes fresult := sys_futex_requeue ua n 0 0.

(** ** A process that exits or executes another program *)
Fixpoint cleanup_loop (p : nat) (l : list nat) : M futexes unit :=
  match l with
  | [] => mret tt
  | f :: l' =>
    x ← gets (fun s => futex s f);
    _ ← (if (futex_proc x =? p)%nat then futex_free p f else mret tt);
    cleanup_loop p l'
  end.
Definition do_cleanup_futexes (p : nat) : M futexes ret :=
  l ← gets (fun s => futex_list s p); _ ← cleanup_loop p l; mret (RVal 0).
Definition fini_futexes (p : nat) : M futexes fresult :=
  locked (sc ← do_cleanup_futexes p; unlocked sc).
End ops.
