(* ===== verification/FutexThms.v ===== *)
(** * FutexThms: futexes are queues of threads

    The table of futexes with its hash chains, the lists of the processes and
    the rendez of the scheduler implements a queue of threads for each process
    and address. *)

From S2P Require Import Prelude Sched SchedQueue Bkl BklSteps Event EventThms Frames Futex.
Local Open Scope Z_scope.
Local Open Scope kernel_scope.

Section table.
Context `{Threads, FutexConsts}.
Implicit Types (s : futexes) (p f g : nat) (ua : Z).

(** The futexes of a process are on the chains of their hash values, once;
    those on a chain belong to the process whose list they are on; no two have
    the same process and address; the free ones are on neither. *)
Record table_ok s : Prop := {
  t_free : NoDup (free_futex_list s);
  t_procs : forall p, NoDup (futex_list s p);
  t_chains : forall h, NoDup (futex_hash_table s h);
  t_live : forall p f, f ∈ futex_list s p ->
    futex_proc (futex s f) = p /\ f ∉ free_futex_list s /\ f ∈ futex_hash_table s (hash (futex s f)) /\ uaddr (futex s f) mod 4 = 0;
  t_hash : forall h f, f ∈ futex_hash_table s h ->
    hash (futex s f) = h /\ h = futex_hash (futex_proc (futex s f)) (uaddr (futex s f)) /\ f ∈ futex_list s (futex_proc (futex s f));
  t_unique : forall p f g, f ∈ futex_list s p -> g ∈ futex_list s p -> uaddr (futex s f) = uaddr (futex s g) -> f = g }.

(** The futex of a process and an address. *)
Definition lookup_futex s p ua : option nat := find_futex (futex s) p ua (futex_hash_table s (futex_hash p ua)).

Lemma find_futex_Some s p ua l f : find_futex (futex s) p ua l = Some f -> f ∈ l /\ uaddr (futex s f) = ua /\ futex_proc (futex s f) = p.
Proof.
  induction l as [|g l IH]; simpl; [done|]. destruct (Z.eqb_spec (uaddr (futex s g)) ua), (Nat.eqb_spec (futex_proc (futex s g)) p); simpl;
    [intros [= <-]; set_solver|intros [? ?]%IH; set_solver..].
Qed.
Lemma find_futex_None s p ua l f : find_futex (futex s) p ua l = None -> f ∈ l -> uaddr (futex s f) = ua -> futex_proc (futex s f) <> p.
Proof.
  induction l as [|g l IH]; simpl; [set_solver|]. destruct (Z.eqb_spec (uaddr (futex s g)) ua), (Nat.eqb_spec (futex_proc (futex s g)) p); simpl;
    intros Hn [->|Hf]%elem_of_cons Hu; try done; by apply IH.
Qed.
Lemma lookup_futex_Some s p ua f : table_ok s -> lookup_futex s p ua = Some f <-> f ∈ futex_list s p /\ uaddr (futex s f) = ua.
Proof.
  intros Hok. rw /lookup_futex. split.
  - intros (Hin & Hu & Hp)%find_futex_Some. apply (t_hash _ Hok) in Hin as (_ & _ & Hin). by rw Hp in Hin.
  - intros [Hin Hu]. destruct (t_live _ Hok _ _ Hin) as (Hp & _ & Hh & _). destruct (find_futex _ _ _ _) as [g|] eqn:E.
    + apply find_futex_Some in E as (Hg & Hgu & Hgp). apply (t_hash _ Hok) in Hg as (_ & _ & Hg). rw Hgp in Hg.
      f_equal. apply (t_unique _ Hok p); [done|done|congruence].
    + exfalso. destruct (t_hash _ Hok _ _ Hh) as (_ & Eh & _). rw Hp Hu in Eh. rw Eh in Hh. by apply (find_futex_None _ _ _ _ _ E Hh Hu).
Qed.

(** Making a futex. *)
Definition made s p ua f l : futexes :=
  s <| free_futex_list := l |> <| futex_list ::= fun m => <[p := f :: futex_list s p]> m |>
    <| futex ::= fun m => <[f := mkFutex ua p (futex_hash p ua)]> m |>
    <| futex_hash_table ::= fun m => <[futex_hash p ua := f :: futex_hash_table s (futex_hash p ua)]> m |>.
Lemma made_ok s p ua f l : table_ok s -> free_futex_list s = f :: l -> lookup_futex s p ua = None -> ua mod 4 = 0 -> table_ok (made s p ua f l).
Proof.
  intros Hok Hfl Hnew Hua. pose proof Hok as [T1 T2 T3 T4 T5 T6]. rw Hfl in T1. apply NoDup_cons in T1 as [Hfl' T1].
  assert (forall p', f ∉ futex_list s p') as Hnp. { intros p' Hin. destruct (T4 _ _ Hin) as (_ & Hn & _). rw Hfl in Hn. set_solver. }
  assert (forall h, f ∉ futex_hash_table s h) as Hnh. { intros h Hin. destruct (T5 _ _ Hin) as (_ & _ & Hn). by apply Hnp in Hn. }
  assert (forall p' g, g ∈ futex_list (made s p ua f l) p' <-> g ∈ futex_list s p' \/ (g = f /\ p' = p)) as Hin.
  { intros p' g. rw /made /=. destruct (decide (p = p')) as [<-|]; reads; set_solver. }
  assert (forall h g, g ∈ futex_hash_table (made s p ua f l) h <-> g ∈ futex_hash_table s h \/ (g = f /\ h = futex_hash p ua)) as Hch.
  { intros h g. rw /made /=. destruct (decide (futex_hash p ua = h)) as [<-|]; reads; set_solver. }
  assert (futex (made s p ua f l) f = mkFutex ua p (futex_hash p ua)) as Hf by (rw /made /=; by reads).
  assert (forall g, g <> f -> futex (made s p ua f l) g = futex s g) as Hg by (intros g Hne; rw /made /=; by reads).
  assert (forall p' g, g ∈ futex_list s p' -> g <> f) as Hne. { intros p' g Hg' ->. by apply Hnp in Hg'. }
  split.
  - done.
  - intros p'. rw /made /=. destruct (decide (p = p')) as [<-|]; reads; [by apply NoDup_cons|done].
  - intros h. rw /made /=. destruct (decide (futex_hash p ua = h)) as [<-|]; reads; [by apply NoDup_cons|done].
  - intros p' g [Hl|[-> ->]]%Hin; [|rw Hf Hch /=; set_solver]. rw (Hg g); [exact (Hne _ _ Hl)|]. rw Hch. destruct (T4 _ _ Hl) as (? & Hn & ? & ?).
    split_and!; try done; [|by left]. simpl. rw Hfl in Hn. set_solver.
  - intros h g [Hl|[-> ->]]%Hch; [|rw Hf Hin /=; set_solver]. rw (Hg g); [intros ->; by apply Hnh in Hl|]. rw Hin. destruct (T5 _ _ Hl) as (? & ? & ?). by split_and!; [| |left].
  - intros p' g g' [Hl|[-> ->]]%Hin [Hl'|[-> ?]]%Hin; try done.
    + rw (Hg g); [exact (Hne _ _ Hl)|]. rw (Hg g'); [exact (Hne _ _ Hl')|]. by apply (T6 p').
    + subst p'. rw Hf Hg; [exact (Hne _ _ Hl)|]. simpl. intros Hu. pose proof (proj2 (lookup_futex_Some s p ua g Hok) (conj Hl Hu)). congruence.
    + rw Hf Hg; [exact (Hne _ _ Hl')|]. simpl. intros Hu. pose proof (proj2 (lookup_futex_Some s p ua g' Hok) (conj Hl' (eq_sym Hu))). congruence.
Qed.

(** Freeing one. *)
Definition freed s p f : futexes :=
  s <| futex_hash_table ::= fun m => <[hash (futex s f) := list_remove1 f (futex_hash_table s (hash (futex s f)))]> m |>
    <| futex_list ::= fun m => <[p := list_remove1 f (futex_list s p)]> m |> <| free_futex_list ::= fun l => f :: l |>.
Lemma freed_ok s p f : table_ok s -> f ∈ futex_list s p ->
  futex_free p f s = Ok (tt, freed s p f) /\ table_ok (freed s p f) /\
  (forall p' g, g ∈ futex_list (freed s p f) p' <-> g ∈ futex_list s p' /\ g <> f).
Proof.
  intros Hok Hf. pose proof Hok as [T1 T2 T3 T4 T5 T6]. destruct (T4 _ _ Hf) as (Hp & Hfl & Hh & Ha).
  assert (forall p' g, g ∈ futex_list (freed s p f) p' <-> g ∈ futex_list s p' /\ g <> f) as Hin.
  { intros p' g. rw /freed /=. destruct (decide (p = p')) as [<-|Hpp]; reads; [by apply elem_of_list_remove1|].
    split; [|naive_solver]. intros Hg. split; [done|]. intros ->. destruct (T4 _ _ Hg) as (? & _). congruence. }
  assert (forall h g, g ∈ futex_hash_table (freed s p f) h <-> g ∈ futex_hash_table s h /\ g <> f) as Hch.
  { intros h g. rw /freed /=. destruct (decide (hash (futex s f) = h)) as [<-|Hhh]; reads; [by apply elem_of_list_remove1|].
    split; [|naive_solver]. intros Hg. split; [done|]. intros ->. destruct (T5 _ _ Hg) as (? & _). congruence. }
  split; [|split; [|done]].
  - rw /futex_free /on_hash /on_proc /on_free. mrun. rw dl_rem_ok //= dl_rem_ok //= dl_add_head_ok //.
  - split.
    + simpl. by apply NoDup_cons.
    + intros p'. rw /freed /=. destruct (decide (p = p')) as [<-|]; reads; [by apply NoDup_list_remove1|done].
    + intros h. rw /freed /=. destruct (decide (hash (futex s f) = h)) as [<-|]; reads; [by apply NoDup_list_remove1|done].
    + intros p' g [Hg Hne]%Hin. destruct (T4 _ _ Hg) as (? & ? & ? & ?). split_and!; try done; [set_solver|by apply Hch].
    + intros h g [Hg Hne]%Hch. destruct (T5 _ _ Hg) as (? & ? & ?). split_and!; try done. by apply Hin.
    + intros p' g g' [Hg _]%Hin [Hg' _]%Hin. by apply (T6 p').
Qed.
End table.

(** ** The specification: a queue of threads for each process and address *)
Module FutexSpec.
Inductive label : Type := Wait (t p : nat) (ua : Z) | Wake (p : nat) (ua : Z) (ts : list nat) | Quiet.
Inductive step : (nat -> Z -> list nat) -> label -> (nat -> Z -> list nat) -> Prop :=
| step_wait q t p ua q' :
    q' p ua = q p ua ++ [t] -> (forall p' ua', ~ (p' = p /\ ua' = ua) -> q' p' ua' = q p' ua') -> step q (Wait t p ua) q'
| step_wake q p ua ts q' :
    q p ua = ts ++ q' p ua -> (forall p' ua', ~ (p' = p /\ ua' = ua) -> q' p' ua' = q p' ua') -> step q (Wake p ua ts) q'
| step_quiet q : step q Quiet q.
Inductive exec : (nat -> Z -> list nat) -> list label -> (nat -> Z -> list nat) -> Prop :=
| exec_nil q : exec q [] q
| exec_snoc q ls q1 l q2 : exec q ls q1 -> step q1 l q2 -> exec q (ls ++ [l]) q2.

(** Who went to sleep at an address and who was woken there. *)
Definition waited_at (p : nat) (ua : Z) (l : label) : list nat :=
  match l with Wait t p' ua' => if decide (p' = p /\ ua' = ua) then [t] else [] | _ => [] end.
Definition woken_at (p : nat) (ua : Z) (l : label) : list nat :=
  match l with Wake p' ua' ts => if decide (p' = p /\ ua' = ua) then ts else [] | _ => [] end.

Lemma exec_fifo q ls q' : exec q ls q' -> forall p ua,
  q p ua ++ mjoin (map (waited_at p ua) ls) = mjoin (map (woken_at p ua) ls) ++ q' p ua.
Proof.
  induction 1 as [q|q ls q1 l q2 _ IH Hs]; intros p ua; [by rw /= app_nil_r|].
  rw !map_app !join_app /= !app_nil_r app_assoc IH -!app_assoc. f_equal. destruct Hs as [q1 t p' ua' q2 E Hne|q1 p' ua' ts q2 E Hne|q1]; simpl; [..|by rw app_nil_r].
  - destruct (decide (p' = p /\ ua' = ua)) as [[-> ->]|Hn]; [done|]. rw app_nil_r. symmetry. apply Hne. intros [-> ->]. by apply Hn.
  - rw app_nil_r. destruct (decide (p' = p /\ ua' = ua)) as [[-> ->]|Hn]; [done|]. symmetry. apply Hne. intros [-> ->]. by apply Hn.
Qed.
End FutexSpec.
Import FutexSpec.

(** ** The queues *)
Section protocol.
Context `{Threads, FutexConsts}.
Context (fr_inj : forall f g, futex_rendez f = futex_rendez g -> f = g).
Context (fr_busy : forall f, futex_rendez f <> futex_table_busy_rendez).
Implicit Types (s : futexes) (p f g c t : nat) (ua : Z) (pc : nat -> loc) (q : nat -> Z -> list nat).

Definition waiters s p ua : list nat :=
  match lookup_futex s p ua with Some f => rendez (fsch s) (futex_rendez f) | None => [] end.

(** The queue [q p ua] is the rendez of the futex, if there is one. *)
Record fcore s pc q : Prop := {
  f_kinv : kinv (fsch s) pc;
  f_table : table_ok s;
  f_nolock : rendez (fsch s) futex_table_busy_rendez = [];
  f_idle : forall f, f ∈ free_futex_list s -> rendez (fsch s) (futex_rendez f) = [];
  f_flags : forall f t, t ∈ rendez (fsch s) (futex_rendez f) -> intr_flags (th (fsch s) t) = 0;
  f_abs : forall p ua, waiters s p ua = q p ua }.
Definition frel s pc q : Prop := fcore s pc q /\ futex_table_busy s = false.
Definition runs s pc c : Prop := current_thread (fsch s) = Some c /\ pc c = LKernel /\ sched_policy (th (fsch s) c) <> SCHED_IDLE.

Lemma on_fsch_run {A} (m : M sched A) s a k : m (fsch s) = Ok (a, k) -> on_fsch m s = Ok (a, s <| fsch := k |>).
Proof using Type. intros Hm. by rw /on_fsch Hm. Qed.
Lemma current_frun s pc c : runs s pc c -> on_fsch get_current_thread s = Ok (c, s).
Proof using Type. intros (Hc & _). rw (on_fsch_run _ s c (fsch s)); [by apply current_run|]. by destruct s. Qed.

(** Changes of the table that keep the queues. *)
Lemma fcore_frame s s' pc pc' q :
  fcore s pc q -> kinv (fsch s') pc' -> table_ok s' -> (forall f, f ∈ free_futex_list s' -> rendez (fsch s') (futex_rendez f) = []) ->
  rendez (fsch s') futex_table_busy_rendez = [] -> (forall f t, t ∈ rendez (fsch s') (futex_rendez f) -> intr_flags (th (fsch s') t) = 0) ->
  (forall p ua, waiters s' p ua = waiters s p ua) -> fcore s' pc' q.
Proof using Type. intros [K1 K2 K3 K4 K5 K6] ? ? ? ? ? Hw. split; try done. intros p ua. by rw Hw. Qed.

Lemma fcore_busy s pc q b : fcore s pc q -> fcore (s <| futex_table_busy := b |>) pc q.
Proof using Type. intros [K1 K2 K3 K4 K5 K6]. split; try done. destruct K2. by split. Qed.

(** The lock is free, and taken by the caller alone. *)
Lemma locked_run s pc q (k : M futexes fresult) : frel s pc q ->
  locked k s = k (s <| futex_table_busy := true |>) /\ fcore (s <| futex_table_busy := true |>) pc q.
Proof using Type.
  intros [Hf Hb]. split; [by rw /locked {1}/mbind {1}/M_bind /lock_futex_table; mrun; rw Hb|]. by apply fcore_busy.
Qed.
Lemma unlock_run s pc q c : fcore s pc q -> runs s pc c ->
  unlock_futex_table s = Ok (tt, s <| futex_table_busy := false |>) /\ frel (s <| futex_table_busy := false |>) pc q.
Proof using Type.
  intros Hf (Hc & Hpc & _). split; [|split; [by apply fcore_busy|done]]. pose proof Hf as [[Hk _] _ Hn _ _ _]. destruct (running_awake _ _ _ (f_kinv _ _ _ Hf) Hc) as [Hon _].
  destruct (TaskWakeup_spec (fsch s) pc futex_table_busy_rendez Hk) as (k & Hr & _ & _ & ->); [by rw (on_cpu_owner _ _ _ Hk Hon Hpc)|].
  rw Hn in Hr. rw /unlock_futex_table {1}/mbind {1}/M_bind {1}/modify (on_fsch_run _ _ tt (fsch s)) //.
Qed.
Lemma unlocked_run s pc q c r : fcore s pc q -> runs s pc c ->
  unlocked r s = Ok (Returns r, s <| futex_table_busy := false |>) /\ frel (s <| futex_table_busy := false |>) pc q.
Proof using Type. intros Hf Hc. destruct (unlock_run s pc q c Hf Hc) as [Hu Hr]. split; [|done]. by rw /unlocked {1}/mbind {1}/M_bind Hu. Qed.

(** Finding or making a futex. *)
Lemma futex_get_spec s pc q c p ua create : fcore s pc q -> runs s pc c -> ua mod 4 = 0 ->
  exists o s', futex_get p ua create s = Ok (o, s') /\ fcore s' pc q /\ runs s' pc c /\ th (fsch s') = th (fsch s) /\ bkl_blocked_list (fsch s') = bkl_blocked_list (fsch s) /\
    match o with
    | None => create = true /\ free_futex_list s = [] /\ lookup_futex s p ua = None
    | Some None => create = false /\ lookup_futex s p ua = None /\ s' = s
    | Some (Some f) => lookup_futex s' p ua = Some f /\ (create = false -> s' = s)
    end.
Proof using fr_inj fr_busy.
  intros Hf Hc Hua. rw /futex_get. destruct (Z.eqb_spec (ua mod 4) 0); [|done]. simpl. rw {1}/mbind {1}/M_bind {1}/gets /id -/(lookup_futex s p ua).
  destruct (lookup_futex s p ua) as [f|] eqn:Hl; [by exists (Some (Some f)), s|]. destruct create; [|by exists (Some None), s].
  destruct (free_futex_list s) as [|f l] eqn:Hfl.
  { exists None, s. split; [|done]. rw {1}/mbind {1}/M_bind /futex_create. mrun. by rw Hfl. }
  pose proof Hf as [K1 K2 K3 K4 K5 K6]. assert (rendez (fsch s) (futex_rendez f) = []) as Hrf by (apply K4; rw Hfl; set_solver).
  destruct (InitRendez_kinv (fsch s) pc (futex_rendez f) K1 Hrf) as (k & Hk & Hi & Hrz & Hth & Hcur & Hbl).
  pose proof (made_ok s p ua f l K2 Hfl Hl Hua) as Hok. set s' := (made s p ua f l) <| fsch := k |>.
  assert (table_ok s') as Hok' by (destruct Hok; by split). exists (Some (Some f)), s'. split; [|split; [|split; [|split; [|split]]]].
  - destruct K2 as [T1 T2 T3 T4 T5 T6].
    assert (forall p', f ∉ futex_list s p') as Hnp. { intros p' Hin. destruct (T4 _ _ Hin) as (_ & Hn & _). rw Hfl in Hn. set_solver. }
    assert (forall h, f ∉ futex_hash_table s h) as Hnh. { intros h Hin. destruct (T5 _ _ Hin) as (_ & _ & Hn). by apply Hnp in Hn. }
    rw {1}/mbind {1}/M_bind /futex_create {1}/mbind {1}/M_bind {1}/gets Hfl. rw {1}/mbind {1}/M_bind {1}/on_free {1}/update Hfl /=.
    rw {1}/mbind {1}/M_bind {1}/on_proc {1}/update /= dl_add_head_ok // {1}/mbind {1}/M_bind {1}/modify.
    rw {1}/mbind {1}/M_bind {1}/on_hash {1}/update /= dl_add_head_ok //. rw {1}/mbind {1}/M_bind (on_fsch_run _ _ tt k) //.
  - apply (fcore_frame s s' pc); try done.
    + intros g Hg. simpl. rw Hrz. apply K4. rw Hfl. set_solver.
    + simpl. by rw Hrz.
    + intros g t. simpl. rw Hrz Hth. apply K5.
    + intros p' ua'. rw /waiters /=. destruct (lookup_futex s' p' ua') as [g|] eqn:Eg.
      * apply (lookup_futex_Some s') in Eg as [Hin Hu]; [|done]. rw /s' /made /= in Hin Hu |- *. rw Hrz. destruct (decide (g = f)) as [->|Hne].
        -- rw Hrf. destruct (lookup_futex s p' ua') as [g|] eqn:Eg; [|done]. apply lookup_futex_Some in Eg as [Hin' Hu']; [|done].
           rw fn_lookup_insert /= in Hu. rw -Hu in Hu'. destruct (decide (p = p')) as [<-|Hpp]; reads.
           ++ pose proof (proj2 (lookup_futex_Some s p ua g K2) (conj Hin' Hu')). congruence.
           ++ rw fn_lookup_insert_ne // in Hin. destruct (t_live _ K2 _ _ Hin) as (_ & Hn & _). rw Hfl in Hn. set_solver.
        -- rw fn_lookup_insert_ne in Hu; [congruence|]. assert (g ∈ futex_list s p') as Hin'.
           { destruct (decide (p = p')) as [<-|]; [rw fn_lookup_insert in Hin; set_solver|by rw fn_lookup_insert_ne in Hin]. }
           by rw (proj2 (lookup_futex_Some s p' ua' g K2) (conj Hin' Hu)).
      * destruct (lookup_futex s p' ua') as [g|] eqn:Eg'; [|done]. apply lookup_futex_Some in Eg' as [Hin Hu]; [|done].
        assert (g <> f) as Hne. { intros ->. destruct (t_live _ K2 _ _ Hin) as (_ & Hn & _). rw Hfl in Hn. set_solver. }
        assert (lookup_futex s' p' ua' = Some g) as E; [|congruence]. apply (lookup_futex_Some s' p' ua' g Hok'). rw /s' /made /=.
        rw (fn_lookup_insert_ne _ f g); [congruence|]. split; [|done]. destruct (decide (p = p')) as [<-|]; reads; set_solver.
  - destruct Hc as (? & ? & ?). rw /runs /= Hcur Hth. done.
  - done.
  - done.
  - split; [|done]. apply (lookup_futex_Some s' p ua f Hok'). rw /s' /made /=. reads. set_solver.
Qed.

(** The calls on the queues. *)
Definition upd_queue q p ua l : nat -> Z -> list nat := fun p' ua' => if decide (p' = p /\ ua' = ua) then l else q p' ua'.

Lemma queue_change s pc q p ua f k : fcore s pc q -> lookup_futex s p ua = Some f -> kinv k pc ->
  (forall r, r <> futex_rendez f -> rendez k r = rendez (fsch s) r) -> (forall g t, t ∈ rendez k (futex_rendez g) -> intr_flags (th k t) = 0) ->
  fcore (s <| fsch := k |>) pc (upd_queue q p ua (rendez k (futex_rendez f))).
Proof using fr_inj fr_busy.
  intros [K1 K2 K3 K4 K5 K6] Hl Hk Hr Hfl. apply lookup_futex_Some in Hl as [Hin Hu]; [|done]. split; simpl; try done.
  - destruct K2. by split.
  - rw Hr // => E. by apply (fr_busy f).
  - intros g Hg. rw Hr; [|by apply K4]. intros ->%fr_inj. by destruct (t_live _ K2 _ _ Hin) as (_ & ? & _).
  - intros p' ua'. rw /upd_queue /waiters -/(lookup_futex s p' ua') /=. change (lookup_futex (s <| fsch := k |>) p' ua') with (lookup_futex s p' ua').
    case_decide as Hd.
    + destruct Hd as [-> ->]. by rw (proj2 (lookup_futex_Some s p ua f K2) (conj Hin Hu)).
    + rw -K6 /waiters. destruct (lookup_futex s p' ua') as [g|] eqn:Eg; [|done]. apply Hr. intros ->%fr_inj.
      apply lookup_futex_Some in Eg as [Hin' Hu']; [|done]. destruct (t_live _ K2 _ _ Hin) as [E _], (t_live _ K2 _ _ Hin') as [E' _]. apply Hd. split; congruence.
Qed.
Lemma lookup_unaligned s p ua : table_ok s -> ua mod 4 <> 0 -> lookup_futex s p ua = None.
Proof using Type.
  intros Hok Hua. destruct (lookup_futex s p ua) as [f|] eqn:E; [|done]. apply lookup_futex_Some in E as [Hin <-]; [|done].
  by destruct (t_live _ Hok _ _ Hin) as (_ & _ & _ & ?).
Qed.

Definition wait_result s pc q c ua (val : Z) (cval : option Z) (r : fresult) s' : Prop :=
  match r with
  | Sleeps => cval = Some val /\ frel s' pc (upd_queue q (process_of c) ua (q (process_of c) ua ++ [c]))
  | Exits => free_futex_list s = [] /\ lookup_futex s (process_of c) ua = None
  | Returns e => e <> RVal 0 /\ frel s' pc q
  end.
Lemma wait_spec s pc q c ua val cval to : frel s pc q -> runs s pc c -> intr_flags (th (fsch s) c) = 0 ->
  exists r s', sys_futex_wait ua val cval to s = Ok (r, s') /\ wait_result s pc q c ua val cval r s'.
Proof using fr_inj fr_busy.
  intros Hf Hc Hz. rw /sys_futex_wait {1}/mbind {1}/M_bind (current_frun s pc c Hc).
  match goal with |- context [locked ?k s] => destruct (locked_run s pc q k Hf) as [-> Hf1] end.
  set s1 := s <| futex_table_busy := true |>. assert (runs s1 pc c) as Hc1 by done.
  assert (forall e, e <> RVal 0 -> exists r s', unlocked e s1 = Ok (r, s') /\ wait_result s pc q c ua val cval r s') as Hret.
  { intros e He. destruct (unlocked_run s1 pc q c e Hf1 Hc1) as [-> ?]. by eexists _, _. }
  destruct cval as [v|]; [|by apply Hret]. destruct (Z.eqb_spec v val) as [->|]; simpl; [|by apply Hret].
  destruct (if to is Some b then b else false); [by apply Hret|]. destruct (decide (ua mod 4 = 0)) as [Hua|Hua];
    [|rw /futex_get {1}/mbind {1}/M_bind; destruct (Z.eqb_spec (ua mod 4) 0); [done|]; by apply Hret].
  destruct (futex_get_spec s1 pc q c (process_of c) ua true Hf1 Hc1 Hua) as (o & s2 & Hg & Hf2 & Hc2 & Hth & Hbl & Ho). rw {1}/mbind {1}/M_bind Hg.
  destruct o as [[f|]|]; [|by destruct Ho|by destruct Ho as (_ & ? & ?); eexists _, _]. destruct Ho as [Hl _].
  destruct (unlock_run s2 pc q c Hf2 Hc2) as [Hu [Hf3 Hb3]]. rw {1}/mbind {1}/M_bind Hu. set s3 := s2 <| futex_table_busy := false |> in Hf3 Hb3 |- *.
  destruct Hc2 as (Hcur & Hpc & Hid). destruct (running_awake _ _ _ (f_kinv _ _ _ Hf3) Hcur) as [Hon _].
  destruct (TaskSleep_spec (fsch s3) pc c (futex_rendez f) (f_kinv _ _ _ Hf3) Hon Hpc Hid) as (k & Hk & Hi & Hrr & Hro).
  rw {1}/mbind {1}/M_bind (on_fsch_run _ _ tt k) //. eexists _, _. split; [reflexivity|]. split; [done|]. split; [|done].
  assert (q (process_of c) ua = rendez (fsch s3) (futex_rendez f)) as ->.
  { rw -(f_abs _ _ _ Hf3) /waiters. change (lookup_futex s3) with (lookup_futex s2). by rw Hl. }
  rw -Hrr. apply queue_change; try done. destruct (stir_TaskSleep c _ _ _ Hcur Hk) as [He _].
  intros g t. destruct (ev_parts _ _ (He t)) as [-> _]. destruct (decide (g = f)) as [->|Hne].
  - rw Hrr elem_of_app list_elem_of_singleton. intros [Ht| ->]; [by apply (f_flags _ _ _ Hf3 f)|]. simpl. by rw Hth.
  - rw Hro; [intros ?%fr_inj; congruence|]. apply (f_flags _ _ _ Hf3 g).
Qed.

(** Waking the first [n]. *)
Lemma requeue_loop_spec pc c f n fuel : forall s count,
  kinv (fsch s) pc -> current_thread (fsch s) = Some c -> pc c = LKernel -> 0 <= count <= n -> n < 2 ^ 32 -> fuel = Z.to_nat (n - count) ->
  let l := rendez (fsch s) (futex_rendez f) in
  exists k, requeue_loop fuel f None n n count s = Ok (count + Z.min (n - count) (Z.of_nat (length l)), s <| fsch := k |>) /\
    kinv k pc /\ current_thread k = Some c /\ (forall t, intr_flags (th k t) = intr_flags (th (fsch s) t) /\ sched_policy (th k t) = sched_policy (th (fsch s) t)) /\
    rendez k (futex_rendez f) = drop fuel l /\ (forall r, r <> futex_rendez f -> rendez k r = rendez (fsch s) r) /\
    bkl_blocked_list k = bkl_blocked_list (fsch s) ++ take fuel l.
Proof using fr_inj fr_busy.
  induction fuel as [|fuel IH]; intros s count Hi Hcur Hpc Hn Hn32 Hfu l.
  - exists (fsch s). assert (count = n) as -> by lia. split; [|by rw drop_0 take_0 app_nil_r].
    cbn [requeue_loop]. rw {1}/mbind {1}/M_bind {1}/gets -/l. replace (n + _) with n by lia. destruct l; [by destruct s|]. rw Z.ltb_irrefl. by destruct s.
  - cbn [requeue_loop]. rw {1}/mbind {1}/M_bind {1}/gets -/l. destruct l as [|t l'] eqn:El.
    { exists (fsch s). split; [simpl; replace (count + _) with count by lia; by destruct s|]. rw -/l El. by rw app_nil_r. }
    destruct (Z.ltb_spec count n); [|lia]. destruct (running_awake _ _ _ Hi Hcur) as [Hon _]. pose proof Hi as [Hk _].
    assert (bkl_owner (fsch s) <> None) as Ho by (by rw (on_cpu_owner _ _ _ Hk Hon Hpc)).
    assert (t ∈ rendez (fsch s) (futex_rendez f)) as Ht by (rw -/l El; set_solver).
    destruct (TaskWakeupSpecific_spec (fsch s) pc t INTRF_NONE Hk Ho) as (k & Hr & Hk' & Hon' & Hw & _).
    destruct (k_rdz _ _ _ Hk _ _ Ht) as (_ & _ & Hst & _). destruct Hw as (r & Hin & Ek); [done|by rw orb_true_r|].
    assert (r = futex_rendez f) as -> by (by apply (kcore_one_rendez (fsch s) pc None _ _ t)).
    rw -/l El /= decide_True // in Ek. rw {1}/mbind {1}/M_bind (on_fsch_run _ _ tt k) //. rw wrap32_id; [rw /u32; lia|].
    destruct (IH (s <| fsch := k |>) (count + 1)) as (k2 & Hr2 & Hi2 & Hc2 & Hfl & Hd & Hro & Hb); simpl; try lia; try done.
    { split; [done|]. exists c. by apply Hon'. }
    { by rw Ek. }
    exists k2. rw Hr2. simpl in Hfl, Hd, Hro, Hb. assert (rendez k (futex_rendez f) = l') as Hl' by (rw Ek /woken /=; by reads). rw Hl' in Hd Hb |- *.
    split_and!; try done.
    + simpl. f_equal. f_equal. lia.
    + intros u. destruct (Hfl u) as [-> ->]. rw Ek. by rw (woken_fields intr_flags) // (woken_fields sched_policy).
    + intros r Hr'. rw Hro // Ek /woken /=. by reads.
    + rw Hb Ek /woken /=. by rw -app_assoc.
Qed.

Lemma wake_spec_futex s pc q c ua n : frel s pc q -> runs s pc c -> ua <> 0 -> 0 <= n < 2 ^ 32 ->
  let l := q (process_of c) ua in
  exists r s', sys_futex_wake ua n s = Ok (r, s') /\
    match r with
    | Sleeps => False
    | Exits => free_futex_list s = [] /\ lookup_futex s (process_of c) ua = None
    | Returns v => v = RVal (Z.min n (Z.of_nat (length l))) /\ frel s' pc (upd_queue q (process_of c) ua (drop (Z.to_nat n) l)) /\
        bkl_blocked_list (fsch s') = bkl_blocked_list (fsch s) ++ take (Z.to_nat n) l
    end.
Proof using fr_inj fr_busy.
  intros Hf Hc Hu Hn l. rw /sys_futex_wake /sys_futex_requeue {1}/mbind {1}/M_bind (current_frun s pc c Hc). destruct (Z.eqb_spec ua 0); [done|].
  match goal with |- context [locked ?k s] => destruct (locked_run s pc q k Hf) as [-> Hf1] end.
  set s1 := s <| futex_table_busy := true |>. assert (runs s1 pc c) as Hc1 by done.
  destruct (decide (ua mod 4 = 0)) as [Hua|Hua]; last first.
  { rw /futex_get {1}/mbind {1}/M_bind. destruct (Z.eqb_spec (ua mod 4) 0); [done|]. destruct (unlocked_run s1 pc q c (RVal 0) Hf1 Hc1) as [Hr Hf2].
    assert (l = []) as El. { rw /l -(f_abs _ _ _ Hf1) /waiters lookup_unaligned //. apply Hf1. }
    eexists _, _. split; [exact Hr|]. rw El take_nil drop_nil app_nil_r. split; [f_equal; simpl; lia|]. split; [|done].
    destruct Hf2 as [[K1 K2 K3 K4 K5 K6] Hb]. split; [|done]. split; try done. intros p' ua'. rw K6 /upd_queue. case_decide as Hd; [|done]. by destruct Hd as [-> ->]. }
  destruct (futex_get_spec s1 pc q c (process_of c) ua true Hf1 Hc1 Hua) as (o & s2 & Hg & Hf2 & Hc2 & Hth & Hbl & Ho). rw {1}/mbind {1}/M_bind Hg.
  destruct o as [[f|]|]; [|by destruct Ho|by destruct Ho as (_ & ? & ?); eexists _, _]. destruct Ho as [Hl _].
  rw {1}/mbind {1}/M_bind. cbn [Z.eqb negb]. rw {1}/mret {1}/M_ret Z.add_0_r wrap32_id //.
  assert (rendez (fsch s2) (futex_rendez f) = l) as El. { rw /l -(f_abs _ _ _ Hf2) /waiters. by rw Hl. }
  destruct Hc2 as (Hcur & Hpc & Hid).
  destruct (requeue_loop_spec pc c f n (Z.to_nat n) s2 0) as (k & Hr & Hi & Hcur' & Hfl & Hd & Hro & Hb); try lia; try done; [apply Hf2|].
  rw El in Hr Hd Hb. rw {1}/mbind {1}/M_bind Hr. pose proof (queue_change s2 pc q (process_of c) ua f k Hf2 Hl Hi Hro) as Hf3.
  destruct (unlocked_run (s2 <| fsch := k |>) pc (upd_queue q (process_of c) ua (drop (Z.to_nat n) l)) c (RVal (0 + Z.min (n - 0) (Z.of_nat (length l))))) as [Hu2 Hf4].
  { rw -Hd. apply Hf3. intros g t Ht. destruct (Hfl t) as [-> _]. destruct (decide (g = f)) as [->|Hne].
    - apply (f_flags _ _ _ Hf2 f). rw El. rw Hd in Ht. by eapply (subseteq_drop (Z.to_nat n)).
    - rw Hro in Ht; [intros ?%fr_inj; congruence|]. by apply (f_flags _ _ _ Hf2 g). }
  { split_and!; [done|done|]. simpl. by destruct (Hfl c) as [_ ->]. }
  eexists _, _. split; [exact Hu2|]. split; [f_equal; lia|]. split; [done|]. simpl. by rw Hb Hbl.
Qed.

(** Futexes without threads may be freed. *)
Lemma freed_core s pc q p f : fcore s pc q -> f ∈ futex_list s p -> rendez (fsch s) (futex_rendez f) = [] ->
  futex_free p f s = Ok (tt, freed s p f) /\ fcore (freed s p f) pc q.
Proof using fr_inj fr_busy.
  intros Hf Hin Hr. pose proof Hf as [K1 K2 K3 K4 K5 K6]. destruct (freed_ok s p f K2 Hin) as (Hrun & Hok & Hl). split; [done|].
  apply (fcore_frame s _ pc); try done.
  - intros g [->|Hg]%elem_of_cons; [done|by apply K4].
  - intros p' ua'. rw /waiters. change (fsch (freed s p f)) with (fsch s). destruct (lookup_futex s p' ua') as [g|] eqn:E.
    + apply lookup_futex_Some in E as [Hg Hu]; [|done]. destruct (decide (g = f)) as [->|Hne].
      * destruct (lookup_futex (freed s p f) p' ua') as [g|] eqn:E; [|done]. apply lookup_futex_Some in E as [[Hg' Hne]%Hl Hu']; [|done].
        destruct Hne. apply (t_unique _ K2 p'); [done|done|]. etransitivity; [exact Hu'|done].
      * by rw (proj2 (lookup_futex_Some (freed s p f) p' ua' g Hok) (conj (proj2 (Hl p' g) (conj Hg Hne)) Hu)).
    + destruct (lookup_futex (freed s p f) p' ua') as [g|] eqn:E'; [|done]. apply lookup_futex_Some in E' as [[Hg _]%Hl Hu]; [|done].
      pose proof (proj2 (lookup_futex_Some s p' ua' g K2) (conj Hg Hu)). congruence.
Qed.
Lemma empty_futex s pc q p f : fcore s pc q -> f ∈ futex_list s p -> q p (uaddr (futex s f)) = [] -> rendez (fsch s) (futex_rendez f) = [].
Proof using fr_inj fr_busy.
  intros Hf Hin Hq. rw -Hq -(f_abs _ _ _ Hf) /waiters. by rw (proj2 (lookup_futex_Some s p _ f (f_table _ _ _ Hf)) (conj Hin eq_refl)).
Qed.

Lemma destroy_spec s pc q c ua : frel s pc q -> runs s pc c -> q (process_of c) ua = [] ->
  exists r s', sys_futex_destroy ua s = Ok (Returns r, s') /\ frel s' pc q.
Proof using fr_inj fr_busy.
  intros Hf Hc Hq. rw /sys_futex_destroy {1}/mbind {1}/M_bind (current_frun s pc c Hc).
  match goal with |- context [locked ?k s] => destruct (locked_run s pc q k Hf) as [-> Hf1] end.
  set s1 := s <| futex_table_busy := true |>. assert (runs s1 pc c) as Hc1 by done.
  assert (exists r s', unlocked (RErr EINVAL) s1 = Ok (Returns r, s') /\ frel s' pc q) as Hno.
  { destruct (unlocked_run s1 pc q c (RErr EINVAL) Hf1 Hc1) as [-> ?]. by eexists _, _. }
  destruct (decide (ua mod 4 = 0)) as [Hua|Hua]; last first.
  { rw /futex_get {1}/mbind {1}/M_bind. by destruct (Z.eqb_spec (ua mod 4) 0). }
  destruct (futex_get_spec s1 pc q c (process_of c) ua false Hf1 Hc1 Hua) as (o & s2 & Hg & Hf2 & Hc2 & Hth & Hbl & Ho). rw {1}/mbind {1}/M_bind Hg.
  destruct o as [[f|]|]; [|by destruct Ho as (_ & _ & ->)|by destruct Ho]. destruct Ho as [Hl Es]. rw (Es eq_refl) in Hl |- *.
  apply lookup_futex_Some in Hl as [Hin Hu]; [|apply Hf1]. destruct (freed_core s1 pc q (process_of c) f Hf1 Hin) as [Hr Hf3].
  { apply (empty_futex s1 pc q (process_of c)); [done|done|]. by rw Hu. }
  rw {1}/mbind {1}/M_bind Hr. destruct (unlocked_run _ pc q c (RVal 0) Hf3 Hc1) as [-> ?]. by eexists _, _.
Qed.

Lemma cleanup_spec pc q p l : forall s, fcore s pc q -> NoDup l -> (forall f, f ∈ l -> f ∈ futex_list s p) -> (forall ua, q p ua = []) ->
  exists s', cleanup_loop p l s = Ok (tt, s') /\ fcore s' pc q /\ fsch s' = fsch s.
Proof using fr_inj fr_busy.
  induction l as [|f l IH]; intros s Hf Hn Hin Hq; [by exists s|]. apply NoDup_cons in Hn as [Hfl Hn]. assert (f ∈ futex_list s p) as Hp by (apply Hin; set_solver).
  destruct (freed_core s pc q p f Hf Hp) as [Hr Hf2]; [by apply (empty_futex s pc q p)|].
  destruct (t_live _ (f_table _ _ _ Hf) _ _ Hp) as [Ep _]. cbn [cleanup_loop]. rw {1}/mbind {1}/M_bind {1}/gets Ep Nat.eqb_refl {1}/mbind {1}/M_bind Hr.
  destruct (IH (freed s p f) Hf2 Hn) as (s' & ? & ? & E); [|done|by exists s'].
  intros g Hg. apply (freed_ok s p f (f_table _ _ _ Hf) Hp). split; [apply Hin; set_solver|]. intros ->. done.
Qed.
Lemma futex_fini_spec s pc q c p : frel s pc q -> runs s pc c -> (forall ua, q p ua = []) ->
  exists s', fini_futexes p s = Ok (Returns (RVal 0), s') /\ frel s' pc q.
Proof using fr_inj fr_busy.
  intros Hf Hc Hq. rw /fini_futexes. match goal with |- context [locked ?k s] => destruct (locked_run s pc q k Hf) as [-> Hf1] end.
  set s1 := s <| futex_table_busy := true |>. destruct (cleanup_spec pc q p (futex_list s1 p) s1) as (s2 & Hr & Hf2 & Es); [done|apply Hf1|done|done|].
  rw /do_cleanup_futexes {1}/mbind {1}/M_bind {1}/mbind {1}/M_bind {1}/gets {1}/mbind {1}/M_bind Hr /mret {1}/M_ret.
  destruct (unlocked_run s2 pc q c (RVal 0) Hf2) as [-> ?]; [by rw /runs Es|]. by eexists _.
Qed.

(** Everything else that threads do in the kernel. *)
Definition ours (r : nat) : Prop := r = futex_table_busy_rendez \/ exists f, r = futex_rendez f.
Lemma quiet_core s pc q k pc' : frel s pc q -> kinv k pc' -> (forall r, ours r -> rendez k r = rendez (fsch s) r) ->
  (forall f t, t ∈ rendez (fsch s) (futex_rendez f) -> intr_flags (th k t) = intr_flags (th (fsch s) t)) -> frel (s <| fsch := k |>) pc' q.
Proof using fr_inj fr_busy.
  intros [[K1 K2 K3 K4 K5 K6] Hb] Hk Hr Hf. split; [|done].
  assert (forall f, rendez k (futex_rendez f) = rendez (fsch s) (futex_rendez f)) as Hrf. { intros f. apply Hr. right. by exists f. }
  split; simpl; try done.
  - destruct K2. by split.
  - rw Hr //. by left.
  - intros f ?. rw Hrf. by apply K4.
  - intros f t. rw Hrf. intros Ht. rw (Hf f) //. by apply (K5 f).
  - intros p ua. rw -K6 /waiters. change (lookup_futex (s <| fsch := k |>) p ua) with (lookup_futex s p ua). simpl. destruct (lookup_futex s p ua); [apply Hrf|done].
Qed.
Lemma kernel_call_spec s pc q c k : frel s pc q -> current_thread (fsch s) = Some c -> may_call (fsch s) pc c k -> spares ours k ->
  exists k', call_run k (fsch s) = Ok (tt, k') /\ frel (s <| fsch := k' |>) (call_loc k c pc) q.
Proof using fr_inj fr_busy.
  intros Hf Hc Hm Hs. pose proof (f_kinv _ _ _ (proj1 Hf)) as Hi. destruct (spares_spec ours (fsch s) pc c k Hi Hc Hm Hs) as (k' & Hr & Hi' & Hrz & Hfl).
  exists k'. split; [done|]. apply (quiet_core s pc); try done. intros f t Ht. apply Hfl. left. intros ->.
  destruct (running_awake _ _ _ Hi Hc) as [_ Ha]. apply Ha. by exists (futex_rendez f).
Qed.
Lemma signal_futex_spec s pc q c td e : frel s pc q -> runs s pc c ->
  exists r k, do_thread_event_signal td e (fsch s) = Ok (r, k) /\ frel (s <| fsch := k |>) pc q.
Proof using fr_inj fr_busy.
  intros Hf (Hc & Hpc & Hid). pose proof Hf as [[Hi _ Hn _ Hz _] _].
  destruct (signal_undisturbed (fsch s) pc c td e Hi Hc Hpc) as (r & k & Hr & Hi' & _ & Hfl & Hin & Hst). exists r, k. split; [done|].
  pose proof (signal_keeps (fsch s) pc c td e r k Hi Hc Hpc Hr) as Hkeep. apply (quiet_core s pc); try done.
  - intros r' [->|[f ->]]; apply Hkeep; [rw Hn; set_solver|by apply Hz].
  - intros f t _. apply Hfl.
Qed.

(** ** Executions

    Threads wait and wake; futexes without waiting threads are destroyed, by a
    call or when their process ends; and anything else happens in the kernel
    that does not use the rendez of futexes. *)
Inductive fstep : futexes * (nat -> loc) -> label -> futexes * (nat -> loc) -> Prop :=
| c_wait s pc c ua val cval to s' :
    runs s pc c -> intr_flags (th (fsch s) c) = 0 -> sys_futex_wait ua val cval to s = Ok (Sleeps, s') ->
    fstep (s, pc) (Wait c (process_of c) ua) (s', pc)
| c_wait_not s pc c ua val cval to r s' :
    runs s pc c -> intr_flags (th (fsch s) c) = 0 -> sys_futex_wait ua val cval to s = Ok (Returns r, s') -> fstep (s, pc) Quiet (s', pc)
| c_wake s pc c ua n r s' :
    runs s pc c -> ua <> 0 -> 0 <= n < 2 ^ 32 -> sys_futex_wake ua n s = Ok (Returns r, s') ->
    fstep (s, pc) (Wake (process_of c) ua (take (Z.to_nat n) (waiters s (process_of c) ua))) (s', pc)
| c_destroy s pc c ua r s' :
    runs s pc c -> waiters s (process_of c) ua = [] -> sys_futex_destroy ua s = Ok (r, s') -> fstep (s, pc) Quiet (s', pc)
| c_fini s pc c p r s' :
    runs s pc c -> (forall ua, waiters s p ua = []) -> fini_futexes p s = Ok (r, s') -> fstep (s, pc) Quiet (s', pc)
| c_kernel s pc c k k' :
    current_thread (fsch s) = Some c -> may_call (fsch s) pc c k -> spares ours k -> call_run k (fsch s) = Ok (tt, k') ->
    fstep (s, pc) Quiet (s <| fsch := k' |>, call_loc k c pc)
| c_signal s pc c td e r k' :
    runs s pc c -> do_thread_event_signal td e (fsch s) = Ok (r, k') -> fstep (s, pc) Quiet (s <| fsch := k' |>, pc).
Inductive fexec : futexes * (nat -> loc) -> list label -> futexes * (nat -> loc) -> Prop :=
| fexec_nil x : fexec x [] x
| fexec_snoc x ls y l z : fexec x ls y -> fstep y l z -> fexec x (ls ++ [l]) z.

Lemma upd_queue_at q p ua l : upd_queue q p ua l p ua = l.
Proof using Type. rw /upd_queue decide_True //. Qed.
Lemma upd_queue_ne q p ua l p' ua' : ~ (p' = p /\ ua' = ua) -> upd_queue q p ua l p' ua' = q p' ua'.
Proof using Type. intros. rw /upd_queue decide_False //. Qed.

Lemma fstep_sim x l y q : fstep x l y -> frel x.1 x.2 q -> exists q', step q l q' /\ frel y.1 y.2 q'.
Proof using fr_inj fr_busy.
  intros Hs. destruct Hs as [s pc c ua val cval to s' Hc Hz Hr|s pc c ua val cval to r s' Hc Hz Hr|s pc c ua n r s' Hc Hu Hn Hr
    |s pc c ua r s' Hc Hw Hr|s pc c p r s' Hc Hw Hr|s pc c k k' Hc Hm Hsp Hr|s pc c td e r k' Hc Hr]; simpl; intros Hf.
  - destruct (wait_spec s pc q c ua val cval to Hf Hc Hz) as (r & s'' & Hr' & Hres). rw Hr in Hr'. injection Hr' as <- <-. destruct Hres as [_ Hres].
    eexists. split; [|exact Hres]. constructor; [apply upd_queue_at|intros; by apply upd_queue_ne].
  - destruct (wait_spec s pc q c ua val cval to Hf Hc Hz) as (r' & s'' & Hr' & Hres). rw Hr in Hr'. injection Hr' as <- <-. exists q. split; [constructor|apply Hres].
  - destruct (wake_spec_futex s pc q c ua n Hf Hc Hu Hn) as (r' & s'' & Hr' & Hres). rw Hr in Hr'. injection Hr' as <- <-. destruct Hres as (_ & Hres & _).
    eexists. split; [|exact Hres]. rw (f_abs _ _ _ (proj1 Hf)). constructor; [by rw upd_queue_at take_drop|intros; by apply upd_queue_ne].
  - rw (f_abs _ _ _ (proj1 Hf)) in Hw. destruct (destroy_spec s pc q c ua Hf Hc Hw) as (r' & s'' & Hr' & Hres). rw Hr in Hr'. injection Hr' as _ <-. exists q. by split; [constructor|].
  - destruct (futex_fini_spec s pc q c p Hf Hc) as (s'' & Hr' & Hres); [intros ua; by rw -(f_abs _ _ _ (proj1 Hf))|]. rw Hr in Hr'. injection Hr' as _ <-. exists q. by split; [constructor|].
  - destruct (kernel_call_spec s pc q c k Hf Hc Hm Hsp) as (k'' & Hr' & Hres). rw Hr in Hr'. injection Hr' as <-. exists q. by split; [constructor|].
  - destruct (signal_futex_spec s pc q c td e Hf Hc) as (r' & k'' & Hr' & Hres). rw Hr in Hr'. injection Hr' as _ <-. exists q. by split; [constructor|].
Qed.
Lemma fexec_sim x ls y q : fexec x ls y -> frel x.1 x.2 q -> exists q', exec q ls q' /\ frel y.1 y.2 q'.
Proof using fr_inj fr_busy.
  induction 1 as [x|x ls y l z _ IH Hs]; intros Hf; [exists q; by split; [constructor|]|]. destruct (IH Hf) as (q1 & He & Hf1).
  destruct (fstep_sim y l z q1 Hs Hf1) as (q2 & Hs2 & ?). exists q2. split; [exact (exec_snoc _ _ _ _ _ He Hs2)|done].
Qed.

(** What the running thread may do, and what it gets. *)
Definition futex_calls s pc c : Prop :=
  (forall ua val cval to, intr_flags (th (fsch s) c) = 0 ->
     exists r s', sys_futex_wait ua val cval to s = Ok (r, s') /\ (r = Sleeps -> cval = Some val) /\ (r = Exits -> free_futex_list s = [])) /\
  (forall ua n, ua <> 0 -> 0 <= n < 2 ^ 32 ->
     exists r s', sys_futex_wake ua n s = Ok (r, s') /\ (r = Exits -> free_futex_list s = []) /\
       (r <> Exits -> r = Returns (RVal (Z.min n (Z.of_nat (length (waiters s (process_of c) ua))))) /\
          bkl_blocked_list (fsch s') = bkl_blocked_list (fsch s) ++ take (Z.to_nat n) (waiters s (process_of c) ua))) /\
  (forall ua, waiters s (process_of c) ua = [] -> exists r s', sys_futex_destroy ua s = Ok (Returns r, s')) /\
  (forall p, (forall ua, waiters s p ua = []) -> exists s', fini_futexes p s = Ok (Returns (RVal 0), s')).

(** C3: Futexes are queues, as long as threads only wait, wake at addresses
    other than 0, and destroy futexes on which nobody waits, by a call or when
    a process ends: in every execution of these the threads that have gone to
    sleep at an address of a process are those woken there, in the same order,
    followed by those on the rendez of its futex. The lock of the table is
    never found taken; a wait sleeps only if the word has the value expected; a
    wake wakes the first [n] threads, all if there are fewer, and returns their
    number; none of these calls panics or corrupts a list, and a process is
    killed only when there is no free futex. Not covered, because the code goes
    wrong there: requeuing to a second address ([futex_requeue_faults]), waking
    at address 0, destroying a futex with waiters, and the exit of a process
    that finds no free futex ([futex_exit_deadlocks]). *)
Theorem futex_refines s0 pc0 q0 ls s pc :
  frel s0 pc0 q0 -> fexec (s0, pc0) ls (s, pc) ->
  (exists q, exec q0 ls q /\ frel s pc q) /\
  (forall p ua, waiters s0 p ua ++ mjoin (map (waited_at p ua) ls) = mjoin (map (woken_at p ua) ls) ++ waiters s p ua) /\
  forall c, runs s pc c -> futex_calls s pc c.
Proof using fr_inj fr_busy.
  intros Hf He. destruct (fexec_sim _ _ _ q0 He Hf) as (q & Hq & Hf'). simpl in Hf'. pose proof (f_abs _ _ _ (proj1 Hf')) as Hw.
  split_and!; [by exists q|intros p ua; rw Hw (f_abs _ _ _ (proj1 Hf)); by apply exec_fifo|].
  intros c Hc. split_and!.
  - intros ua val cval to Hz. destruct (wait_spec s pc q c ua val cval to Hf' Hc Hz) as (r & s' & Hr & Hres). exists r, s'. split; [done|].
    split; intros ->; apply Hres.
  - intros ua n Hu Hn. destruct (wake_spec_futex s pc q c ua n Hf' Hc Hu Hn) as (r & s' & Hr & Hres). exists r, s'. rw Hw. split; [done|].
    split; [intros ->; apply Hres|]. destruct r; [|done|done]. by destruct Hres as (-> & _ & ->).
  - intros ua Hua. rw Hw in Hua. destruct (destroy_spec s pc q c ua Hf' Hc Hua) as (r & s' & ? & _). by exists r, s'.
  - intros p Hp. destruct (futex_fini_spec s pc q c p Hf' Hc) as (s' & ? & _); [intros ua; by rw -Hw|]. by exists s'.
Qed.

(** [sys_futex_requeue] passes the two rendez in the wrong order: the first
    thread that it should move to the second futex corrupts the lists. *)
Theorem futex_requeue_faults s pc q c ua ua2 m f g :
  frel s pc q -> runs s pc c -> ua <> ua2 -> ua2 <> 0 -> ua mod 4 = 0 -> ua2 mod 4 = 0 -> 0 < m < 2 ^ 32 ->
  lookup_futex s (process_of c) ua = Some f -> lookup_futex s (process_of c) ua2 = Some g -> waiters s (process_of c) ua <> [] ->
  sys_futex_requeue ua 0 ua2 m s = Fault.
Proof using fr_inj fr_busy.
  intros Hf Hc Hne Hne2 Hua Hua2 Hm Hl Hl2 Hw. rw /waiters Hl in Hw.
  rw /sys_futex_requeue {1}/mbind {1}/M_bind (current_frun s pc c Hc). destruct (Z.eqb_spec ua ua2); [done|].
  match goal with |- context [locked ?k s] => destruct (locked_run s pc q k Hf) as [-> Hf1] end. set s1 := s <| futex_table_busy := true |>.
  assert (forall ua' h, ua' mod 4 = 0 -> lookup_futex s (process_of c) ua' = Some h -> futex_get (process_of c) ua' true s1 = Ok (Some (Some h), s1)) as Hget.
  { intros ua' h Ha Hh. rw /futex_get Ha. cbn [negb Z.eqb]. rw {1}/mbind {1}/M_bind {1}/gets /id -/(lookup_futex s1 (process_of c) ua'). change (lookup_futex s1) with (lookup_futex s). by rw Hh. }
  rw {1}/mbind {1}/M_bind (Hget ua f) // {1}/mbind {1}/M_bind. destruct (Z.eqb_spec ua2 0); [done|]. cbn [negb].
  rw {1}/mbind {1}/M_bind (Hget ua2 g) // /mret {1}/M_ret {1}/mbind {1}/M_bind Z.add_0_l wrap32_id; [rw /u32; lia|].
  destruct (Z.to_nat m) as [|k] eqn:Em; [lia|]. cbn [requeue_loop]. rw {1}/mbind {1}/M_bind {1}/gets. change (fsch s1) with (fsch s).
  destruct (rendez (fsch s) (futex_rendez f)) as [|t l] eqn:El; [done|]. destruct (Z.ltb_spec 0 m); [|lia]. cbn [Z.ltb Z.compare].
  assert (f <> g) as Hfg.
  { intros ->. apply lookup_futex_Some in Hl as [_ Hu], Hl2 as [_ Hu2]; try apply Hf. congruence. }
  assert (TaskRendezRequeue t (futex_rendez f) (futex_rendez g) (fsch s) = Fault) as Hq.
  { rw /TaskRendezRequeue {1}/mbind {1}/M_bind {1}/on_rendez {1}/update. destruct (rendez (fsch s) (futex_rendez g)) as [|u l']; [done|]. simpl.
    rw {1}/mbind {1}/M_bind {1}/on_rendez {1}/update /=. rw fn_lookup_insert_ne; [by intros E%fr_inj; apply Hfg; congruence|]. rw El /dl_add_tail decide_True //. set_solver. }
  by rw {1}/mbind {1}/M_bind {1}/on_fsch Hq.
Qed.

(** The process that finds no free futex is killed while it holds the lock of
    the table, for which its own exit then waits. *)
Theorem futex_exit_deadlocks s pc q c ua val to :
  frel s pc q -> runs s pc c -> ua mod 4 = 0 -> free_futex_list s = [] -> lookup_futex s (process_of c) ua = None -> (to = Some true -> False) ->
  exists s', sys_futex_wait ua val (Some val) to s = Ok (Exits, s') /\ futex_table_busy s' = true /\
    exists s'', fini_futexes (process_of c) s' = Ok (Sleeps, s'') /\ c ∈ rendez (fsch s'') futex_table_busy_rendez.
Proof using fr_inj fr_busy.
  intros Hf Hc Hua Hfl Hl Hto. rw /sys_futex_wait {1}/mbind {1}/M_bind (current_frun s pc c Hc).
  match goal with |- context [locked ?k s] => destruct (locked_run s pc q k Hf) as [-> Hf1] end. set s1 := s <| futex_table_busy := true |>.
  rw Z.eqb_refl. cbn [negb]. assert ((if to is Some b then b else false) = false) as ->. { destruct to as [[]|]; [by destruct Hto|done..]. }
  exists s1. split; [|split; [done|]].
  - rw {1}/mbind {1}/M_bind /futex_get Hua. cbn [negb Z.eqb]. rw {1}/mbind {1}/M_bind {1}/gets /id -/(lookup_futex s1 (process_of c) ua). change (lookup_futex s1) with (lookup_futex s). rw Hl.
    by rw {1}/mbind {1}/M_bind /futex_create {1}/mbind {1}/M_bind {1}/gets Hfl.
  - destruct Hc as (Hcur & Hpc & Hid). destruct (running_awake _ _ _ (f_kinv _ _ _ Hf1) Hcur) as [Hon _].
    destruct (TaskSleep_spec (fsch s1) pc c futex_table_busy_rendez (f_kinv _ _ _ Hf1) Hon Hpc Hid) as (k & Hk & _ & Hrr & _).
    exists (s1 <| fsch := k |>). split; [|simpl; rw Hrr; set_solver].
    rw /fini_futexes /locked {1}/mbind {1}/M_bind /lock_futex_table {1}/mbind {1}/M_bind {1}/gets /=.
    by rw {1}/mbind {1}/M_bind (on_fsch_run _ s1 tt k).
Qed.
End protocol.

(** ** Witness: thread 0 of [Sample] waits at address 8 *)
Module FutexSample.
Definition consts : FutexConsts :=
  {| pid_of := fun p => Z.of_nat p + 1; futex_rendez := fun f => (f + 100)%nat; futex_table_busy_rendez := 99 |}.
Definition state : futexes := mkFutexes Sample.state0 (fun _ => mkFutex 0 0 0) [0; 1]%nat (fun _ => []) (fun _ => []) false.
End FutexSample.
Import Sample FutexSample.
#[local] Existing Instance plain_threads.
#[local] Existing Instance consts.

Lemma sample_inj f g : futex_rendez f = futex_rendez g -> f = g.
Proof. simpl. lia. Qed.
Lemma sample_ne f : futex_rendez f <> futex_table_busy_rendez.
Proof. simpl. lia. Qed.
Lemma sample_frel : frel state pc0 (fun _ _ => []).
Proof.
  split; [|done]. split; simpl; try done.
  - apply sample_kinv.
  - split; simpl; try (intros; apply NoDup_nil_2); try (intros *; set_solver). apply NoDup_cons. split; [set_solver|apply NoDup_singleton].
  - intros f _. by destruct (Nat.eqb_spec (f + 100) 7); [lia|].
  - intros f t. destruct (Nat.eqb_spec (f + 100) 7); [lia|]. set_solver.
Qed.
Definition after_wait : futexes := match sys_futex_wait 8 5 (Some 5) None state with Ok (_, s) => s | _ => state end.
Lemma futex_refines_witness :
  fexec (state, pc0) [Wait 0 0 8] (after_wait, pc0) /\ waiters after_wait 0 8 = [0%nat].
Proof.
  assert (fexec (state, pc0) ([] ++ [Wait 0 0 8]) (after_wait, pc0)) as He.
  { eapply fexec_snoc; [apply fexec_nil|]. exact (c_wait state pc0 0 8 5 (Some 5) None after_wait ltac:(by split_and!) ltac:(reflexivity) ltac:(vm_compute; reflexivity)). }
  split; [exact He|]. destruct (futex_refines sample_inj sample_ne _ _ _ _ _ _ sample_frel He) as (_ & Hq & _). exact (eq_sym (Hq 0%nat 8)).
Defined.
