(* ===== verification/Cache.v ===== *)
(** * Cache: the cache of file blocks and the pages it is made of

    fs/cache.c and vm/page.c. A page is on the queue of free pages when nobody
    uses it; it may still hold a block of a file, and is then on the hash chain
    of the file and the offset and on the list of the file. A page in use is
    marked busy. Reading and writing a block is a request to the file-system
    server: [bread] and [bwrite] are modelled up to the request, and
    [bread_read] and [bwrite_written] go on with its answer. *)

From S2P Require Import Prelude Sched.
Local Open Scope Z_scope.
Local Open Scope kernel_scope.

(** ** include/kernel/hash.h: the hash of a file and an offset *)
Definition rot (x k : Z) : Z := Z.lor (wrap32 (Z.shiftl x k)) (Z.shiftr x (32 - k)).

(** One line of [hash_mix]: [a -= c; a ^= rot(c, k); c += b]. *)
Definition mix_line (k : Z) (x : Z * Z * Z) : Z * Z * Z :=
  let '(a, b, c) := x in (Z.lxor (wrap32 (a - c)) (rot c k), b, wrap32 (c + b)).
(** The names of the three words move on by one from line to line. *)
Definition turn (x : Z * Z * Z) : Z * Z * Z := let '(a, b, c) := x in (b, c, a).
Definition hash_mix (x : Z * Z * Z) : Z * Z * Z :=
  foldl (fun x k => turn (mix_line k x)) x [4; 6; 8; 16; 19; 4].

(** One statement pair of [hash_final]: [c ^= b; c -= rot(b, k)]. *)
Definition final_line (k b c : Z) : Z := wrap32 (Z.lxor c b - rot b k).
Definition hash_final (x : Z * Z * Z) : Z * Z * Z :=
  let '(a, b, c) := x in
  let c := final_line 14 b c in
  let a := final_line 11 c a in
  let b := final_line 25 a b in
  let c := final_line 16 b c in
  let a := final_line 4 c a in
  let b := final_line 14 a b in
  let c := final_line 24 b c in
  (a, b, c).

Definition PAGE_LOOKUP_HASH_SZ : Z := 1024.
Definition calc_page_lookup_hash (inode_nr file_offset : Z) : Z :=
  let x := (wrap32 inode_nr, wrap32 file_offset, wrap32 (Z.shiftr file_offset 32)) in
  (hash_final (hash_mix x)).2 mod PAGE_LOOKUP_HASH_SZ.

#[global] Arguments calc_page_lookup_hash : simpl never.

(** ** Pages

    The bits of [bflags] are fields of their own. For each of its three links
    a page remembers the neighbours it had when it was last removed. *)
Record Page := mkPage {
  B_VALID : bool;
  B_BUSY : bool;
  B_ERROR : bool;
  B_DISCARD : bool;
  pg_vnode : option nat;
  file_offset : Z;
  data : Z -> Z;                   (* the bytes at [vaddr] *)
  mflags : Z;
  reference_cnt : Z;
  free_old : stale;
  lookup_old : stale;
  vnode_old : stale }.
Definition eta_Page p := mkPage (B_VALID p) (B_BUSY p) (B_ERROR p) (B_DISCARD p) (pg_vnode p) (file_offset p) (data p)
  (mflags p) (reference_cnt p) (free_old p) (lookup_old p) (vnode_old p).
#[export] Instance set_B_VALID : Setter B_VALID := ltac:(solve_setter eta_Page).
#[export] Instance set_B_BUSY : Setter B_BUSY := ltac:(solve_setter eta_Page).
#[export] Instance set_B_ERROR : Setter B_ERROR := ltac:(solve_setter eta_Page).
#[export] Instance set_B_DISCARD : Setter B_DISCARD := ltac:(solve_setter eta_Page).
#[export] Instance set_pg_vnode : Setter pg_vnode := ltac:(solve_setter eta_Page).
#[export] Instance set_file_offset : Setter file_offset := ltac:(solve_setter eta_Page).
#[export] Instance set_data : Setter data := ltac:(solve_setter eta_Page).
#[export] Instance set_mflags : Setter mflags := ltac:(solve_setter eta_Page).
#[export] Instance set_reference_cnt : Setter reference_cnt := ltac:(solve_setter eta_Page).
#[export] Instance set_free_old : Setter free_old := ltac:(solve_setter eta_Page).
#[export] Instance set_lookup_old : Setter lookup_old := ltac:(solve_setter eta_Page).
#[export] Instance set_vnode_old : Setter vnode_old := ltac:(solve_setter eta_Page).

(** The scheduler; the pages, the queue of free ones and its length, the hash
    chains; of each file the list of its pages, its size and whether its
    superblock has [SBF_ABORT]. *)
Record cache := mkCache {
  csch : sched;
  page : nat -> Page;
  free_page_queue : list nat;
  free_page_cnt : Z;
  page_lookup_hash : Z -> list nat;
  page_list : nat -> list nat;
  vn_size : nat -> Z;
  sb_abort : nat -> bool }.
Definition eta_cache s := mkCache (csch s) (page s) (free_page_queue s) (free_page_cnt s) (page_lookup_hash s) (page_list s) (vn_size s) (sb_abort s).
#[export] Instance set_csch : Setter csch := ltac:(solve_setter eta_cache).
#[export] Instance set_page : Setter page := ltac:(solve_setter eta_cache).
#[export] Instance set_free_page_queue : Setter free_page_queue := ltac:(solve_setter eta_cache).
#[export] Instance set_free_page_cnt : Setter free_page_cnt := ltac:(solve_setter eta_cache).
#[export] Instance set_page_lookup_hash : Setter page_lookup_hash := ltac:(solve_setter eta_cache).
#[export] Instance set_page_list : Setter page_list := ltac:(solve_setter eta_cache).
#[export] Instance set_vn_size : Setter vn_size := ltac:(solve_setter eta_cache).

(** Inode numbers, the rendez of the pages and of the queue, the size of a page,
    and the kernel addresses of the pages. *)
Class CacheConsts := {
  inode_nr : nat -> Z;
  page_rendez : nat -> nat;
  page_list_rendez : nat;
  PAGE_SIZE : Z;
  pmap_page_to_va : nat -> Z;
  pmap_va_to_page : Z -> option nat }.

Definition on_csch {A} (m : M sched A) : M cache A := fun s =>
  match m (csch s) with Ok (a, c) => Ok (a, s <| csch := c |>) | Panic => Panic | Fault => Fault end.
Definition get_page (p : nat) : M cache Page := gets (fun s => page s p).
Definition upd_page (p : nat) (f : Page -> Page) : M cache unit := modify (fun s => s <| page ::= fun m => <[p := f (m p)]> m |>).

Section ops.
Context `{CacheConsts}.

(** [memset(page->vaddr + from, 0, PAGE_SIZE - from)] *)
Definition zero_from (from : Z) (d : Z -> Z) : Z -> Z := fun i => if (from <=? i) && (i <? PAGE_SIZE) then 0 else d i.
Definition clear_page (p : nat) : M cache unit := upd_page p (fun x => x <| data ::= zero_from 0 |>).

(** ** The lists *)
Definition add_to_free_page_queue (p : nat) : M cache unit :=
  _ ← update free_page_queue (fun l s => s <| free_page_queue := l |>) (dl_add_head p);
  modify (fun s => s <| free_page_cnt ::= fun n => n + 1 |>).
Definition add_to_free_page_queue_tail (p : nat) : M cache unit :=
  _ ← update free_page_queue (fun l s => s <| free_page_queue := l |>) (dl_add_tail p);
  modify (fun s => s <| free_page_cnt ::= fun n => n + 1 |>).
Definition remove_from_free_page_queue (p : nat) : M cache unit :=
  x ← get_page p;
  l ← gets free_page_queue;
  r ← lift (dl_unlink p (free_old x) l);
  _ ← modify (fun s => s <| free_page_queue := r.1 |>);
  _ ← upd_page p (fun x => x <| free_old := r.2 |>);
  modify (fun s => s <| free_page_cnt ::= fun n => n - 1 |>).

Definition page_hash (x : Page) : M cache Z :=
  match pg_vnode x with None => fault | Some v => mret (calc_page_lookup_hash (inode_nr v) (file_offset x)) end.
Definition add_to_lookup_page_hash (p : nat) : M cache unit :=
  x ← get_page p;
  h ← page_hash x;
  update (fun s => page_lookup_hash s h) (fun l s => s <| page_lookup_hash ::= fun m => <[h := l]> m |>) (dl_add_head p).
Definition remove_from_lookup_page_hash (p : nat) : M cache unit :=
  x ← get_page p;
  h ← page_hash x;
  l ← gets (fun s => page_lookup_hash s h);
  r ← lift (dl_unlink p (lookup_old x) l);
  _ ← modify (fun s => s <| page_lookup_hash ::= fun m => <[h := r.1]> m |>);
  upd_page p (fun x => x <| lookup_old := r.2 |>).

Definition add_to_vnode_page_list (p : nat) : M cache unit :=
  x ← get_page p;
  match pg_vnode x with
  | None => panic
  | Some v => update (fun s => page_list s v) (fun l s => s <| page_list ::= fun m => <[v := l]> m |>) (dl_add_head p)
  end.
Definition remove_from_vnode_page_list (p : nat) : M cache unit :=
  x ← get_page p;
  match pg_vnode x with
  | None => panic
  | Some v =>
    l ← gets (fun s => page_list s v);
    r ← lift (dl_unlink p (vnode_old x) l);
    _ ← modify (fun s => s <| page_list ::= fun m => <[v := r.1]> m |>);
    upd_page p (fun x => x <| vnode_old := r.2 |>)
  end.

(** ** Finding blocks *)
Fixpoint find_in_chain (pg : nat -> Page) (v : nat) (off : Z) (l : list nat) : option nat :=
  match l with
  | [] => None
  | p :: l' => if bool_decide (pg_vnode (pg p) = Some v) && (file_offset (pg p) =? off) then Some p else find_in_chain pg v off l'
  end.
Definition find_blk (v : nat) (off : Z) : M cache (option nat) :=
  gets (fun s => find_in_chain (page s) v off (page_lookup_hash s (calc_page_lookup_hash (inode_nr v) off))).
Definition find_available_blk : M cache (option nat) := gets (fun s => last (free_page_queue s)).

(** A block; none; or the thread sleeps and starts again when it runs. *)
Inductive got : Type := Got (p : nat) | NoBlock | Sleeping.

(** The free page [p] gives up the block it holds. *)
Definition take_free (p : nat) : M cache unit :=
  x ← get_page p;
  _ ← kassert (negb (B_BUSY x));
  _ ← upd_page p (fun x => x <| B_BUSY := true |>);
  _ ← remove_from_free_page_queue p;
  if B_VALID x then
    _ ← remove_from_lookup_page_hash p;
    _ ← remove_from_vnode_page_list p;
    upd_page p (fun x => x <| B_VALID := false |>)
  else mret tt.

Definition getblk (v : nat) (off : Z) : M cache got :=
  a ← gets (fun s => sb_abort s v);
  if (a : bool) then mret NoBlock
  else
    o ← find_blk v off;
    match o with
    | Some p =>
      x ← get_page p;
      if B_BUSY x then _ ← on_csch (TaskSleep (page_rendez p)); mret Sleeping
      else
        _ ← upd_page p (fun x => x <| B_BUSY := true |>);
        _ ← remove_from_free_page_queue p;
        _ ← (if B_VALID x then mret tt else clear_page p);
        mret (Got p)
    | None =>
      o ← find_available_blk;
      match o with
      | None => _ ← on_csch (TaskSleep page_list_rendez); mret Sleeping
      | Some p =>
        _ ← take_free p;
        _ ← upd_page p (fun x => x <| pg_vnode := Some v |> <| file_offset := off |>);
        _ ← add_to_lookup_page_hash p;
        _ ← add_to_vnode_page_list p;
        _ ← clear_page p;
        mret (Got p)
      end
    end.

Definition getblk_anon : M cache got :=
  o ← find_available_blk;
  match o with
  | None => _ ← on_csch (TaskSleep page_list_rendez); mret Sleeping
  | Some p =>
    _ ← take_free p;
    _ ← upd_page p (fun x => x <| pg_vnode := None |> <| file_offset := 0 |>);
    _ ← clear_page p;
    mret (Got p)
  end.

Definition putblk_anon (p : nat) : M cache unit :=
  _ ← add_to_free_page_queue_tail p;
  _ ← upd_page p (fun x => x <| B_BUSY := false |>);
  on_csch (TaskWakeupAll page_list_rendez).

(** ** Releasing *)
Definition brelse_page (p : nat) : M cache unit :=
  x ← get_page p;
  if B_ERROR x || B_DISCARD x then
    _ ← remove_from_lookup_page_hash p;
    _ ← remove_from_vnode_page_list p;
    _ ← upd_page p (fun x => x <| file_offset := 0 |> <| pg_vnode := None |>
                               <| B_VALID := false |> <| B_BUSY := false |> <| B_ERROR := false |> <| B_DISCARD := false |>);
    add_to_free_page_queue_tail p
  else
    _ ← upd_page p (fun x => x <| B_BUSY := false |>);
    add_to_free_page_queue p.
Definition brelse (p : nat) : M cache unit :=
  _ ← brelse_page p;
  _ ← on_csch (TaskWakeupAll page_list_rendez);
  on_csch (TaskWakeupAll (page_rendez p)).
Definition bdiscard (p : nat) : M cache ret :=
  _ ← upd_page p (fun x => x <| B_DISCARD := true |>); _ ← brelse p; mret (RVal 0).

(** ** Reading *)
Inductive readres : Type := Block (p : nat) | NoRead | ReadSleeps | Reads (p : nat).
Definition bread (v : nat) (off : Z) : M cache readres :=
  r ← getblk v off;
  match r with
  | NoBlock => mret NoRead
  | Sleeping => mret ReadSleeps
  | Got p => x ← get_page p; mret (if B_VALID x then Block p else Reads p)
  end.
(** The server has put [xfered] bytes in the page, or failed. *)
Definition fill (xfered : Z) (bytes : Z -> Z) (d : Z -> Z) : Z -> Z := fun i => if (0 <=? i) && (i <? xfered) then bytes i else d i.
Definition bread_read (p : nat) (xfered : Z) (bytes : Z -> Z) : M cache readres :=
  _ ← upd_page p (fun x => x <| data ::= fill xfered bytes |>);
  _ ← kassert (xfered <=? PAGE_SIZE);
  if xfered <=? 0 then
    _ ← upd_page p (fun x => x <| B_ERROR := true |>);
    _ ← brelse p;
    mret NoRead
  else
    _ ← (if xfered <? PAGE_SIZE then upd_page p (fun x => x <| data ::= zero_from xfered |>) else mret tt);
    _ ← upd_page p (fun x => x <| B_VALID := true |>);
    mret (Block p).
Definition bread_zero (v : nat) (off : Z) : M cache readres :=
  r ← getblk v off;
  match r with
  | NoBlock => fault
  | Sleeping => mret ReadSleeps
  | Got p => _ ← clear_page p; _ ← upd_page p (fun x => x <| B_VALID := true |>); mret (Block p)
  end.

(** ** Writing: the number of bytes to write; then what is done with the
    server's answer. *)
Definition bwrite (p : nat) : M cache Z :=
  x ← get_page p;
  match pg_vnode x with
  | None => fault
  | Some v =>
    sz ← gets (fun s => vn_size s v);
    mret (if sz - file_offset x <? PAGE_SIZE then Z.rem sz PAGE_SIZE else PAGE_SIZE)
  end.
Definition bwrite_written (p : nat) (nbytes_to_write xfered : Z) : M cache ret :=
  if negb (xfered =? nbytes_to_write) then
    _ ← upd_page p (fun x => x <| B_ERROR := true |>); _ ← brelse p; mret (RVal (-1))
  else _ ← brelse p; mret (RVal 0).

(** ** The pages of a file *)
Definition mark_all_vnode_pages_as_busy (v : nat) : M cache unit :=
  l ← gets (fun s => page_list s v);
  mfor l (fun p => upd_page p (fun x => x <| B_BUSY := true |>)).

(** Removing a page from everything, then [bdiscard]. *)
Definition drop_page (p : nat) : M cache unit :=
  _ ← upd_page p (fun x => x <| B_VALID := false |>);
  _ ← remove_from_free_page_queue p;
  _ ← remove_from_lookup_page_hash p;
  _ ← remove_from_vnode_page_list p;
  _ ← bdiscard p;
  mret tt.

(** [btruncatev] from a page on. [Some (p, n, next)]: the page [p] is written,
    [n] bytes of it, and the loop goes on at [next]. [fuel] turns are enough
    for a list of [fuel] pages. *)
Fixpoint btruncate_from (fuel : nat) (v : nat) (o : option nat) : M cache (option (nat * Z * option nat)) :=
  match o with
  | None => mret None
  | Some p =>
    match fuel with
    | O => fault
    | S fuel' =>
      l ← gets (fun s => page_list s v);
      let next := dl_next p l in
      x ← get_page p;
      sz ← gets (fun s => vn_size s v);
      if sz <=? file_offset x then _ ← drop_page p; btruncate_from fuel' v next
      else if sz - file_offset x <? PAGE_SIZE then
        _ ← upd_page p (fun x => x <| data ::= zero_from (sz - file_offset x) |>);
        n ← bwrite p;
        mret (Some (p, n, next))
      else btruncate_from fuel' v next
    end
  end.
Definition btruncatev (v : nat) : M cache (option (nat * Z * option nat)) :=
  _ ← mark_all_vnode_pages_as_busy v;
  l ← gets (fun s => page_list s v);
  btruncate_from (length l) v (head l).
Definition btruncatev_written (v p : nat) (n xfered : Z) (next : option nat) : M cache (option (nat * Z * option nat)) :=
  _ ← bwrite_written p n xfered;
  l ← gets (fun s => page_list s v);
  btruncate_from (length l) v next.

Fixpoint binvalidate_loop (fuel : nat) (v : nat) : M cache unit :=
  l ← gets (fun s => page_list s v);
  match l with
  | [] => mret tt
  | p :: _ =>
    match fuel with
    | O => fault
    | S fuel' => _ ← upd_page p (fun x => x <| B_BUSY := true |>); _ ← drop_page p; binvalidate_loop fuel' v
    end
  end.
Definition binvalidatev (v : nat) : M cache ret :=
  l ← gets (fun s => page_list s v); _ ← binvalidate_loop (length l) v; mret (RVal 0).

(** ** vm/page.c *)
Definition PGF_INUSE : Z := bit 0.
Definition alloc_page : M cache got :=
  r ← getblk_anon;
  match r with
  | Got p => _ ← upd_page p (fun x => x <| mflags := PGF_INUSE |> <| reference_cnt := 0 |>); mret (Got p)
  | _ => mret r
  end.
Definition ref_page (p : nat) : M cache ret := _ ← upd_page p (fun x => x <| reference_cnt ::= fun n => n + 1 |>); mret (RVal 0).
(** [p < max_page] holds of every index. *)
Definition free_page (p : nat) : M cache unit :=
  _ ← upd_page p (fun x => x <| reference_cnt ::= fun n => n - 1 |>);
  x ← get_page p;
  if 0 <? reference_cnt x then mret tt else putblk_anon p.
(** The address of the page, 0 if there is none; [None]: the thread sleeps. *)
Definition kmalloc_page : M cache (option Z) :=
  r ← alloc_page;
  mret (match r with Got p => Some (pmap_page_to_va p) | NoBlock => Some 0 | Sleeping => None end).
Definition kfree_page (va : Z) : M cache unit :=
  match pmap_va_to_page va with None => mret tt | Some p => free_page p end.
End ops.
