(* ===== verification/CacheInv.v ===== *)
(** * CacheInv: what holds of the pages at all times

    Each page has a use: free, without a file, being read, or held with the
    contents of a block. The invariant ties the uses to the flags, the lists and
    the contents of the pages. *)

From S2P Require Import Prelude Sched Cache.
Local Open Scope Z_scope.
Local Open Scope kernel_scope.
#[local] Opaque calc_page_lookup_hash.

(** [Other]: not a page. *)
Inductive use : Type := Free | Anon | Fresh | Held | Other.
#[export] Instance use_eq_dec : EqDecision use.
Proof. solve_decision. Defined.

Section inv.
Context `{CacheConsts}.
Implicit Types (s : cache) (p q v : nat) (u : nat -> use) (f : nat -> Z -> Z).

Abbreviation hk v off := (calc_page_lookup_hash (inode_nr v) off).

(** The pages that hold a block, or will. *)
Definition cached s u p : bool := match u p with Free => B_VALID (page s p) | Fresh | Held => true | Anon | Other => false end.
Definition in_use (x : use) : bool := match x with Free => false | _ => true end.

Definition flags_ok (x : Page) (y : use) : Prop :=
  match y with
  | Other => True
  | _ => B_BUSY x = in_use y /\ B_ERROR x = false /\ B_DISCARD x = false /\
         match y with Free => True | Held => B_VALID x = true | _ => B_VALID x = false end
  end.

(** [f] is what the servers store: [f v i] is byte [i] of the file [v], 0 after
    its end. *)
Definition holds_block (x : Page) f : Prop :=
  forall v i, pg_vnode x = Some v -> 0 <= i < PAGE_SIZE -> data x i = f v (file_offset x + i).

Record pinv s u f : Prop := {
  p_nodup : NoDup (free_page_queue s);
  p_cnt : free_page_cnt s = Z.of_nat (length (free_page_queue s));
  p_free : forall p, p ∈ free_page_queue s <-> u p = Free;
  p_flags : forall p, flags_ok (page s p) (u p);
  p_key : forall p, cached s u p = true -> pg_vnode (page s p) <> None /\ file_offset (page s p) mod PAGE_SIZE = 0;
  p_chains : forall h, NoDup (page_lookup_hash s h);
  p_lists : forall v, NoDup (page_list s v);
  p_hash : forall h p, p ∈ page_lookup_hash s h <->
    cached s u p = true /\ exists v, pg_vnode (page s p) = Some v /\ h = hk v (file_offset (page s p));
  p_list : forall v p, p ∈ page_list s v <-> cached s u p = true /\ pg_vnode (page s p) = Some v;
  p_unique : forall p q, cached s u p = true -> cached s u q = true -> pg_vnode (page s p) = pg_vnode (page s q) ->
    file_offset (page s p) = file_offset (page s q) -> p = q;
  p_data : forall p, u p = Free -> B_VALID (page s p) = true -> holds_block (page s p) f }.

(** When only the page [p] changes. *)
Lemma pinv_change s s' u u' f p :
  pinv s u f -> (forall q, q <> p -> page s' q = page s q) -> (forall q, q <> p -> u' q = u q) ->
  NoDup (free_page_queue s') -> free_page_cnt s' = Z.of_nat (length (free_page_queue s')) ->
  (p ∈ free_page_queue s' <-> u' p = Free) -> (forall q, q <> p -> q ∈ free_page_queue s' <-> q ∈ free_page_queue s) ->
  flags_ok (page s' p) (u' p) ->
  (cached s' u' p = true -> pg_vnode (page s' p) <> None /\ file_offset (page s' p) mod PAGE_SIZE = 0) ->
  (forall h, NoDup (page_lookup_hash s' h)) -> (forall v, NoDup (page_list s' v)) ->
  (forall h, p ∈ page_lookup_hash s' h <-> cached s' u' p = true /\ exists v, pg_vnode (page s' p) = Some v /\ h = hk v (file_offset (page s' p))) ->
  (forall h q, q <> p -> q ∈ page_lookup_hash s' h <-> q ∈ page_lookup_hash s h) ->
  (forall v, p ∈ page_list s' v <-> cached s' u' p = true /\ pg_vnode (page s' p) = Some v) ->
  (forall v q, q <> p -> q ∈ page_list s' v <-> q ∈ page_list s v) ->
  (cached s' u' p = true -> forall q, q <> p -> cached s u q = true -> pg_vnode (page s q) = pg_vnode (page s' p) ->
     file_offset (page s q) <> file_offset (page s' p)) ->
  (u' p = Free -> B_VALID (page s' p) = true -> holds_block (page s' p) f) -> pinv s' u' f.
Proof.
  intros [K1 K2 K3 K4 K5 K6 K7 K8 K9 K10 K11] Hpg Hu Hn Hc Hfp Hfq Hfl Hk Hcn Hln Hhp Hhq Hlp Hlq Huq Hd.
  assert (forall q, q <> p -> cached s' u' q = cached s u q) as Hca. { intros q Hq. by rw /cached Hpg // Hu. }
  split; try done.
  - intros q. destruct (decide (q = p)) as [->|Hq]; [done|]. by rw Hfq // Hu // K3.
  - intros q. destruct (decide (q = p)) as [->|Hq]; [done|]. rw Hpg // Hu //.
  - intros q. destruct (decide (q = p)) as [->|Hq]; [done|]. rw Hca // Hpg //. apply K5.
  - intros h q. destruct (decide (q = p)) as [->|Hq]; [done|]. rw Hca // Hpg // Hhq //.
  - intros v q. destruct (decide (q = p)) as [->|Hq]; [done|]. rw Hca // Hpg // Hlq //.
  - intros q r. destruct (decide (q = p)) as [->|Hq], (decide (r = p)) as [->|Hr]; try done.
    + rw (Hca r) // (Hpg r) //. intros Hc1 Hc2 E1 E2. exfalso. by apply (Huq Hc1 r Hr Hc2).
    + rw (Hca q) // (Hpg q) //. intros Hc1 Hc2 E1 E2. exfalso. by apply (Huq Hc2 q Hq Hc1).
    + rw !Hca // !Hpg //. apply K10.
  - intros q. destruct (decide (q = p)) as [->|Hq]; [done|]. rw Hu // Hpg //. apply K11.
Qed.

(** ** The operations on the lists, on a state given by its parts *)
Section runs.
Variables (k : sched) (pg : nat -> Page) (fr : list nat) (n : Z) (hs : Z -> list nat) (ls : nat -> list nat) (sz : nat -> Z) (ab : nat -> bool).
Abbreviation st := (mkCache k pg fr n hs ls sz ab).

Lemma upd_page_run p g : exists pg', upd_page p g st = Ok (tt, mkCache k pg' fr n hs ls sz ab) /\ changed pg p (g (pg p)) pg'.
Proof. eexists. split; [reflexivity|apply changed_insert]. Qed.
Lemma rem_free_run p : p ∈ fr -> exists pg', remove_from_free_page_queue p st = Ok (tt, mkCache k pg' (list_remove1 p fr) (n - 1) hs ls sz ab) /\
  changed pg p ((pg p) <| free_old := (dl_prev p fr, dl_next p fr) |>) pg'.
Proof. intros Hp. eexists. split; [|apply changed_insert]. rw /remove_from_free_page_queue /get_page /upd_page. mrun. by rw /= dl_unlink_ok. Qed.
Lemma add_free_run p : p ∉ fr -> add_to_free_page_queue p st = Ok (tt, mkCache k pg (p :: fr) (n + 1) hs ls sz ab).
Proof. intros Hp. rw /add_to_free_page_queue. mrun. by rw /= dl_add_head_ok. Qed.
Lemma add_free_tail_run p : p ∉ fr -> add_to_free_page_queue_tail p st = Ok (tt, mkCache k pg (fr ++ [p]) (n + 1) hs ls sz ab).
Proof. intros Hp. rw /add_to_free_page_queue_tail. mrun. by rw /= dl_add_tail_ok. Qed.

Section hash.
Context (p v : nat) (Hv : pg_vnode (pg p) = Some v).
Let h := hk v (file_offset (pg p)).
Lemma rem_hash_run : p ∈ hs h -> exists pg' hs', remove_from_lookup_page_hash p st = Ok (tt, mkCache k pg' fr n hs' ls sz ab) /\
  changed pg p ((pg p) <| lookup_old := (dl_prev p (hs h), dl_next p (hs h)) |>) pg' /\ changed hs h (list_remove1 p (hs h)) hs'.
Proof using Hv.
  intros Hp. do 2 eexists. split; [|split; apply changed_insert]. rw /remove_from_lookup_page_hash /get_page /upd_page /page_hash. mrun.
  by rw /= Hv -/h dl_unlink_ok.
Qed.
(** Removing it again. *)
Lemma rem_hash_again l : NoDup l -> p ∈ l -> hs h = list_remove1 p l -> lookup_old (pg p) = (dl_prev p l, dl_next p l) ->
  exists pg' hs', remove_from_lookup_page_hash p st = Ok (tt, mkCache k pg' fr n hs' ls sz ab) /\
    changed pg p ((pg p) <| lookup_old := (dl_prev p l, dl_next p l) |>) pg' /\ changed hs h (list_remove1 p l) hs'.
Proof using Hv.
  intros Hn Hp E Eo. do 2 eexists. split; [|split; apply changed_insert]. rw /remove_from_lookup_page_hash /get_page /upd_page /page_hash. mrun.
  rw /= Hv /=. fold h. by rw E Eo dl_unlink_again.
Qed.
Lemma add_hash_run : p ∉ hs h -> exists hs', add_to_lookup_page_hash p st = Ok (tt, mkCache k pg fr n hs' ls sz ab) /\ changed hs h (p :: hs h) hs'.
Proof using Hv. intros Hp. eexists. split; [|apply changed_insert]. rw /add_to_lookup_page_hash /get_page /page_hash. mrun. by rw /= Hv -/h dl_add_head_ok. Qed.

Lemma rem_list_run : p ∈ ls v -> exists pg' ls', remove_from_vnode_page_list p st = Ok (tt, mkCache k pg' fr n hs ls' sz ab) /\
  changed pg p ((pg p) <| vnode_old := (dl_prev p (ls v), dl_next p (ls v)) |>) pg' /\ changed ls v (list_remove1 p (ls v)) ls'.
Proof using Hv.
  intros Hp. do 2 eexists. split; [|split; apply changed_insert]. rw /remove_from_vnode_page_list /get_page /upd_page. mrun. by rw /= Hv /= dl_unlink_ok.
Qed.
Lemma rem_list_again l : NoDup l -> p ∈ l -> ls v = list_remove1 p l -> vnode_old (pg p) = (dl_prev p l, dl_next p l) ->
  exists pg' ls', remove_from_vnode_page_list p st = Ok (tt, mkCache k pg' fr n hs ls' sz ab) /\
    changed pg p ((pg p) <| vnode_old := (dl_prev p l, dl_next p l) |>) pg' /\ changed ls v (list_remove1 p l) ls'.
Proof using Hv.
  intros Hn Hp E Eo. do 2 eexists. split; [|split; apply changed_insert]. rw /remove_from_vnode_page_list /get_page /upd_page. mrun.
  by rw /= Hv /= E Eo dl_unlink_again.
Qed.
Lemma add_list_run : p ∉ ls v -> exists ls', add_to_vnode_page_list p st = Ok (tt, mkCache k pg fr n hs ls' sz ab) /\ changed ls v (p :: ls v) ls'.
Proof using Hv. intros Hp. eexists. split; [|apply changed_insert]. rw /add_to_vnode_page_list /get_page. mrun. by rw /= Hv /= dl_add_head_ok. Qed.
End hash.
End runs.

(** Taking [p] off, or putting it on, one of several lists. *)
Lemma lists_removed {A} `{!EqDecision A} (m m' : A -> list nat) a p :
  changed m a (list_remove1 p (m a)) m' -> (forall x, NoDup (m x)) -> (forall x, p ∈ m x -> x = a) ->
  (forall x, NoDup (m' x)) /\ (forall x, p ∉ m' x) /\ forall x q, q <> p -> q ∈ m' x <-> q ∈ m x.
Proof.
  intros [Ea Ex] Hn Hp. split_and!.
  - intros x. destruct (decide (x = a)) as [->|Hx]; [rw Ea; by apply NoDup_list_remove1|by rw Ex].
  - intros x. destruct (decide (x = a)) as [->|Hx]; [rw Ea; by intros [_ ?]%elem_of_list_remove1|rw Ex //; by intros ?%Hp].
  - intros x q Hq. destruct (decide (x = a)) as [->|Hx]; [rw Ea elem_of_list_remove1 //; naive_solver|by rw Ex].
Qed.
Lemma lists_added {A} `{!EqDecision A} (m m' : A -> list nat) a p :
  changed m a (p :: m a) m' -> (forall x, NoDup (m x)) -> (forall x, p ∉ m x) ->
  (forall x, NoDup (m' x)) /\ (forall x, p ∈ m' x <-> x = a) /\ forall x q, q <> p -> q ∈ m' x <-> q ∈ m x.
Proof.
  intros [Ea Ex] Hn Hp. split_and!.
  - intros x. destruct (decide (x = a)) as [->|Hx]; [rw Ea; by apply NoDup_cons|by rw Ex].
  - intros x. destruct (decide (x = a)) as [->|Hx]; [rw Ea; set_solver|rw Ex //]. split; [by intros ?%Hp|done].
  - intros x q Hq. destruct (decide (x = a)) as [->|Hx]; [rw Ea; set_solver|by rw Ex].
Qed.
Lemma free_removed p (l : list nat) (n : Z) : NoDup l -> n = Z.of_nat (length l) -> p ∈ l ->
  NoDup (list_remove1 p l) /\ n - 1 = Z.of_nat (length (list_remove1 p l)) /\ (p ∉ list_remove1 p l) /\ forall q, q <> p -> q ∈ list_remove1 p l <-> q ∈ l.
Proof.
  intros Hn -> Hp. split_and!; [by apply NoDup_list_remove1| |by intros [_ ?]%elem_of_list_remove1|intros q Hq; rw elem_of_list_remove1 //; naive_solver].
  pose proof (Permutation_length (list_remove1_perm p _ Hp)) as Hl. simpl in Hl. lia.
Qed.

(** ** The changes of use *)
Definition same_rest s s' : Prop := csch s' = csch s /\ vn_size s' = vn_size s /\ sb_abort s' = sb_abort s.

Lemma free_flags s u f p : pinv s u f -> u p = Free ->
  p ∈ free_page_queue s /\ B_BUSY (page s p) = false /\ B_ERROR (page s p) = false /\ B_DISCARD (page s p) = false.
Proof. intros Hi Hu. pose proof (p_flags _ _ _ Hi p) as Hf. rw Hu in Hf. destruct Hf as (? & ? & ? & _). split_and!; try done. by apply (p_free _ _ _ Hi). Qed.
Lemma cached_place s u f p : pinv s u f -> cached s u p = true ->
  exists v, pg_vnode (page s p) = Some v /\ p ∈ page_lookup_hash s (hk v (file_offset (page s p))) /\ p ∈ page_list s v /\
    (forall h, p ∈ page_lookup_hash s h -> h = hk v (file_offset (page s p))) /\ (forall w, p ∈ page_list s w -> w = v).
Proof.
  intros Hi Hc. destruct (p_key _ _ _ Hi p Hc) as [Hv _]. destruct (pg_vnode (page s p)) as [v|] eqn:E; [|done]. exists v. split_and!; [done|..].
  - apply (p_hash _ _ _ Hi). split; [done|]. by exists v.
  - by apply (p_list _ _ _ Hi).
  - intros h (_ & w & ? & ->)%(p_hash _ _ _ Hi). congruence.
  - intros w [_ ?]%(p_list _ _ _ Hi). congruence.
Qed.
Lemma uncached_place s u f p : pinv s u f -> cached s u p = false -> (forall h, p ∉ page_lookup_hash s h) /\ (forall v, p ∉ page_list s v).
Proof. intros Hi Hc. split; [intros h [? _]%(p_hash _ _ _ Hi)|intros v [? _]%(p_list _ _ _ Hi)]; congruence. Qed.

(** A free block is taken by the one who looked for it. *)
Lemma grab_spec s u f p : pinv s u f -> u p = Free -> B_VALID (page s p) = true ->
  exists s', (_ ← upd_page p (fun x => x <| B_BUSY := true |>); remove_from_free_page_queue p) s = Ok (tt, s') /\
    pinv s' (<[p := Held]> u) f /\ same_rest s s' /\ B_VALID (page s' p) = true /\ pg_vnode (page s' p) = pg_vnode (page s p) /\
    file_offset (page s' p) = file_offset (page s p) /\ data (page s' p) = data (page s p) /\ (forall q, q <> p -> page s' q = page s q).
Proof.
  intros Hi Hu Hv. destruct (free_flags s u f p Hi Hu) as (Hp & Hb & He & Hdi). assert (cached s u p = true) as Hc by (by rw /cached Hu).
  pose proof (p_key _ _ _ Hi p Hc) as Hk. pose proof Hi as [K1 K2 K3 K4 K5 K6 K7 K8 K9 K10 K11]. destruct s as [k pg fr n hs ls sz ab]. simpl in *.
  destruct (upd_page_run k pg fr n hs ls sz ab p (fun x => x <| B_BUSY := true |>)) as (pg1 & R1 & [E1 Eo1]).
  destruct (rem_free_run k pg1 fr n hs ls sz ab p Hp) as (pg2 & R2 & [E2 Eo2]). rw E1 in E2. destruct (free_removed p fr n K1 K2 Hp) as (F1 & F2 & F3 & F4).
  eexists. split; [by rw {1}/mbind {1}/M_bind R1 R2|]. assert (forall q, q <> p -> pg2 q = pg q) as Hq. { intros q Hq. by rw Eo2 // Eo1. }
  simpl. rw E2 /=. split_and!; try done. assert (cached (mkCache k pg2 (list_remove1 p fr) (n - 1) hs ls sz ab) (<[p := Held]> u) p = true) as Hc2 by (rw /cached; by reads).
  apply (pinv_change (mkCache k pg fr n hs ls sz ab) _ u _ f p Hi); simpl; rw ?E2 ?Hc2 ?fn_lookup_insert /=; try done.
  - intros q Hne. by reads.
  - intros h. by rw K8 Hc.
  - intros v. by rw K9 Hc.
  - intros _ q Hne Hcq Ev Eo. apply Hne. by apply K10.
Qed.

(** A free page gives up its block. *)
Lemma take_free_spec s u f p : pinv s u f -> u p = Free ->
  exists s', take_free p s = Ok (tt, s') /\ pinv s' (<[p := Anon]> u) f /\ same_rest s s' /\ (forall q, q <> p -> page s' q = page s q).
Proof.
  intros Hi Hu. destruct (free_flags s u f p Hi Hu) as (Hp & Hb & He & Hdi). pose proof (cached_place s u f p Hi) as Hpl. pose proof (uncached_place s u f p Hi) as Hun.
  pose proof Hi as [K1 K2 K3 K4 K5 K6 K7 K8 K9 K10 K11]. destruct s as [k pg fr n hs ls sz ab]. simpl in *.
  destruct (upd_page_run k pg fr n hs ls sz ab p (fun x => x <| B_BUSY := true |>)) as (pg1 & R1 & [E1 Eo1]).
  destruct (rem_free_run k pg1 fr n hs ls sz ab p Hp) as (pg2 & R2 & [E2 Eo2]). rw E1 in E2. destruct (free_removed p fr n K1 K2 Hp) as (F1 & F2 & F3 & F4).
  rw /take_free {1}/mbind {1}/M_bind {1}/get_page {1}/gets /= Hb {1}/mbind {1}/M_bind /= {1}/mbind {1}/M_bind R1 {1}/mbind {1}/M_bind R2.
  destruct (B_VALID (pg p)) eqn:Hv.
  - destruct Hpl as (v & Ev & Hh & Hl & Hho & Hlo); [by rw /cached Hu|].
    destruct (rem_hash_run k pg2 (list_remove1 p fr) (n - 1) hs ls sz ab p v) as (pg3 & hs' & R3 & [E3 Eo3] & Ch); [by rw E2|by rw E2|].
    destruct (rem_list_run k pg3 (list_remove1 p fr) (n - 1) hs' ls sz ab p v) as (pg4 & ls' & R4 & [E4 Eo4] & Cl); [by rw E3 E2|done|].
    destruct (upd_page_run k pg4 (list_remove1 p fr) (n - 1) hs' ls' sz ab p (fun x => x <| B_VALID := false |>)) as (pg5 & R5 & [E5 Eo5]).
    rw {1}/mbind {1}/M_bind R3 {1}/mbind {1}/M_bind R4 R5. rw E2 /= in Ch. rw E4 E3 E2 in E5.
    destruct (lists_removed hs hs' _ p Ch K6 Hho) as (G1 & G2 & G3). destruct (lists_removed ls ls' _ p Cl K7 Hlo) as (L1 & L2 & L3).
    assert (forall q, q <> p -> pg5 q = pg q) as Hq. { intros q Hq. by rw Eo5 // Eo4 // Eo3 // Eo2 // Eo1. }
    eexists. split; [reflexivity|]. split; [|by split]. assert (cached (mkCache k pg5 (list_remove1 p fr) (n - 1) hs' ls' sz ab) (<[p := Anon]> u) p = false) as Hc2 by (rw /cached; by reads).
    apply (pinv_change (mkCache k pg fr n hs ls sz ab) _ u _ f p Hi); simpl; rw ?E5 ?Hc2 ?fn_lookup_insert /=; try done.
    + intros q Hne. by reads.
    + intros h. split; [by intros ?%G2|by intros [? _]].
    + intros w. split; [by intros ?%L2|by intros [? _]].
  - destruct Hun as [Hh Hl]; [by rw /cached Hu|]. assert (forall q, q <> p -> pg2 q = pg q) as Hq. { intros q Hq. by rw Eo2 // Eo1. }
    eexists. split; [reflexivity|]. split; [|by split]. assert (cached (mkCache k pg2 (list_remove1 p fr) (n - 1) hs ls sz ab) (<[p := Anon]> u) p = false) as Hc2 by (rw /cached; by reads).
    apply (pinv_change (mkCache k pg fr n hs ls sz ab) _ u _ f p Hi); simpl; rw ?E2 ?Hc2 ?fn_lookup_insert /=; try done.
    + intros q Hne. by reads.
    + intros h. split; [by intros ?%Hh|by intros [? _]].
    + intros w. split; [by intros ?%Hl|by intros [? _]].
Qed.

(** A page without a file gets one. *)
Definition unheld s u v off : Prop := forall q, cached s u q = true -> pg_vnode (page s q) = Some v -> file_offset (page s q) <> off.
Lemma assign_spec s u f p v off : pinv s u f -> u p = Anon -> unheld s u v off -> off mod PAGE_SIZE = 0 ->
  exists s', (_ ← upd_page p (fun x => x <| pg_vnode := Some v |> <| file_offset := off |>);
              _ ← add_to_lookup_page_hash p; _ ← add_to_vnode_page_list p; clear_page p) s = Ok (tt, s') /\
    pinv s' (<[p := Fresh]> u) f /\ same_rest s s' /\ pg_vnode (page s' p) = Some v /\ file_offset (page s' p) = off /\
    (forall i, 0 <= i < PAGE_SIZE -> data (page s' p) i = 0) /\ (forall q, q <> p -> page s' q = page s q).
Proof.
  intros Hi Hu Hno Hal. pose proof (uncached_place s u f p Hi) as Hun. pose proof (p_flags _ _ _ Hi p) as Hfl. rw Hu in Hfl. destruct Hfl as (Hb & He & Hdi & Hva).
  pose proof Hi as [K1 K2 K3 K4 K5 K6 K7 K8 K9 K10 K11]. destruct s as [k pg fr n hs ls sz ab]. simpl in *. destruct Hun as [Hh Hl]; [by rw /cached Hu|].
  destruct (upd_page_run k pg fr n hs ls sz ab p (fun x => x <| pg_vnode := Some v |> <| file_offset := off |>)) as (pg1 & R1 & [E1 Eo1]).
  destruct (add_hash_run k pg1 fr n hs ls sz ab p v) as (hs' & R2 & Ch); [by rw E1|done|]. rw E1 /= in Ch.
  destruct (add_list_run k pg1 fr n hs' ls sz ab p v) as (ls' & R3 & Cl); [by rw E1|done|].
  destruct (upd_page_run k pg1 fr n hs' ls' sz ab p (fun x => x <| data ::= zero_from 0 |>)) as (pg2 & R4 & [E2 Eo2]). rw E1 in E2.
  destruct (lists_added hs hs' _ p Ch K6 Hh) as (G1 & G2 & G3). destruct (lists_added ls ls' _ p Cl K7 Hl) as (L1 & L2 & L3).
  eexists. split; [by rw {1}/mbind {1}/M_bind R1 {1}/mbind {1}/M_bind R2 {1}/mbind {1}/M_bind R3 /clear_page R4|].
  assert (forall q, q <> p -> pg2 q = pg q) as Hq. { intros q Hq. by rw Eo2 // Eo1. }
  simpl. rw E2 /=. split_and!; try done; last first.
  { intros i Hr. rw /zero_from. by destruct (Z.leb_spec 0 i), (Z.ltb_spec i PAGE_SIZE); try lia. }
  assert (cached (mkCache k pg2 fr n hs' ls' sz ab) (<[p := Fresh]> u) p = true) as Hc2 by (rw /cached; by reads).
  apply (pinv_change (mkCache k pg fr n hs ls sz ab) _ u _ f p Hi); simpl; rw ?E2 ?Hc2 ?fn_lookup_insert /=; try done.
  - intros q Hne. by reads.
  - rw K3 Hu. done.
  - intros h. rw G2. split; [intros ->; split; [done|by exists v]|by intros (_ & w & [= <-] & ->)].
  - intros w. rw L2. split; [by intros ->|by intros [_ [= ->]]].
  - intros _ q Hne Hcq Ev. by apply Hno.
Qed.

(** A page is released with its block. *)
Lemma release_spec s u f p : pinv s u f -> u p = Held -> holds_block (page s p) f ->
  exists s', brelse_page p s = Ok (tt, s') /\ pinv s' (<[p := Free]> u) f /\ same_rest s s' /\ free_page_queue s' = p :: free_page_queue s /\
    (forall q, q <> p -> page s' q = page s q) /\ B_BUSY (page s' p) = false.
Proof.
  intros Hi Hu Hd. assert (cached s u p = true) as Hc by (by rw /cached Hu). pose proof (p_key _ _ _ Hi p Hc) as Hk.
  pose proof (p_flags _ _ _ Hi p) as Hfl. rw Hu in Hfl. destruct Hfl as (Hb & He & Hdi & Hva).
  pose proof Hi as [K1 K2 K3 K4 K5 K6 K7 K8 K9 K10 K11]. destruct s as [k pg fr n hs ls sz ab]. simpl in *.
  assert (p ∉ fr) as Hp by (rw K3 Hu; done). destruct (upd_page_run k pg fr n hs ls sz ab p (fun x => x <| B_BUSY := false |>)) as (pg1 & R1 & [E1 Eo1]).
  eexists. split; [rw /brelse_page {1}/mbind {1}/M_bind {1}/get_page {1}/gets /= He Hdi /= {1}/mbind {1}/M_bind R1 add_free_run //|].
  split; [|by rw /= E1]. assert (cached (mkCache k pg1 (p :: fr) (n + 1) hs ls sz ab) (<[p := Free]> u) p = true) as Hc2 by (rw /cached; reads; by rw E1 /=).
  apply (pinv_change (mkCache k pg fr n hs ls sz ab) _ u _ f p Hi); simpl; rw ?E1 ?Hc2 ?fn_lookup_insert /=; try done.
  - intros q Hne. by reads.
  - by apply NoDup_cons.
  - rw K2. lia.
  - set_solver.
  - intros q Hne. set_solver.
  - intros h. by rw K8 Hc.
  - intros v. by rw K9 Hc.
  - intros _ q Hne Hcq Ev Eo. apply Hne. by apply K10.
Qed.

(** What is left of a page. *)
Definition cleared (x : Page) : Page :=
  x <| file_offset := 0 |> <| pg_vnode := None |> <| B_VALID := false |> <| B_BUSY := false |> <| B_ERROR := false |> <| B_DISCARD := false |>.

(** A page is released without its block: [g] has set one of the two flags. *)
Lemma discard_spec s u f p (g : Page -> Page) : pinv s u f -> cached s u p = true -> in_use (u p) = true ->
  (forall x, B_ERROR (g x) || B_DISCARD (g x) = true /\ pg_vnode (g x) = pg_vnode x /\ file_offset (g x) = file_offset x) ->
  exists s', (_ ← upd_page p g; brelse_page p) s = Ok (tt, s') /\ pinv s' (<[p := Free]> u) f /\ same_rest s s' /\
    free_page_queue s' = free_page_queue s ++ [p] /\ (forall q, q <> p -> page s' q = page s q) /\ B_BUSY (page s' p) = false.
Proof.
  intros Hi Hc Hu Hg. destruct (cached_place s u f p Hi Hc) as (v & Ev & Hh & Hl & Hho & Hlo).
  pose proof Hi as [K1 K2 K3 K4 K5 K6 K7 K8 K9 K10 K11]. destruct s as [k pg fr n hs ls sz ab]. simpl in *.
  assert (p ∉ fr) as Hp by (rw K3; by destruct (u p)). destruct (Hg (pg p)) as (G0 & Gv & Go).
  destruct (upd_page_run k pg fr n hs ls sz ab p g) as (pg0 & R0 & [E0 Eo0]).
  destruct (rem_hash_run k pg0 fr n hs ls sz ab p v) as (pg1 & hs' & R1 & [E1 Eo1] & Ch); [by rw E0 Gv|by rw E0 Go|].
  destruct (rem_list_run k pg1 fr n hs' ls sz ab p v) as (pg2 & ls' & R2 & [E2 Eo2] & Cl); [by rw E1 E0 /= Gv|done|].
  destruct (upd_page_run k pg2 fr n hs' ls' sz ab p cleared) as (pg3 & R3 & [E3 Eo3]). rw E0 Go in Ch.
  destruct (lists_removed hs hs' _ p Ch K6 Hho) as (G1 & G2 & G3). destruct (lists_removed ls ls' _ p Cl K7 Hlo) as (L1 & L2 & L3).
  eexists. split.
  { rw {1}/mbind {1}/M_bind R0 /brelse_page {1}/mbind {1}/M_bind {1}/get_page {1}/gets /= E0 G0 {1}/mbind {1}/M_bind R1 {1}/mbind {1}/M_bind R2.
    by rw {1}/mbind {1}/M_bind R3 add_free_tail_run. }
  assert (forall q, q <> p -> pg3 q = pg q) as Hq. { intros q Hq. by rw Eo3 // Eo2 // Eo1 // Eo0. } split; [|by rw /= E3].
  assert (cached (mkCache k pg3 (fr ++ [p]) (n + 1) hs' ls' sz ab) (<[p := Free]> u) p = false) as Hc2 by (rw /cached; reads; by rw E3).
  apply (pinv_change (mkCache k pg fr n hs ls sz ab) _ u _ f p Hi); simpl; rw ?E3 ?Hc2 ?fn_lookup_insert /=; try done.
  - intros q Hne. by reads.
  - apply NoDup_app. split_and!; [done|set_solver|apply NoDup_singleton].
  - rw K2 length_app /=. lia.
  - set_solver.
  - intros q Hne. set_solver.
  - intros h. split; [by intros ?%G2|by intros [? _]].
  - intros w. split; [by intros ?%L2|by intros [? _]].
Qed.

(** A page without a file is released. *)
Lemma put_anon_spec s u f p : pinv s u f -> u p = Anon ->
  exists s', (_ ← add_to_free_page_queue_tail p; upd_page p (fun x => x <| B_BUSY := false |>)) s = Ok (tt, s') /\ pinv s' (<[p := Free]> u) f /\
    same_rest s s' /\ free_page_queue s' = free_page_queue s ++ [p] /\ (forall q, q <> p -> page s' q = page s q) /\ B_BUSY (page s' p) = false.
Proof.
  intros Hi Hu. pose proof (uncached_place s u f p Hi) as Hun. pose proof (p_flags _ _ _ Hi p) as Hfl. rw Hu in Hfl. destruct Hfl as (Hb & He & Hdi & Hva).
  pose proof Hi as [K1 K2 K3 K4 K5 K6 K7 K8 K9 K10 K11]. destruct s as [k pg fr n hs ls sz ab]. simpl in *. destruct Hun as [Hh Hl]; [by rw /cached Hu|].
  assert (p ∉ fr) as Hp by (rw K3 Hu; done).
  destruct (upd_page_run k pg (fr ++ [p]) (n + 1) hs ls sz ab p (fun x => x <| B_BUSY := false |>)) as (pg1 & R1 & [E1 Eo1]).
  eexists. split; [rw {1}/mbind {1}/M_bind add_free_tail_run; [done|exact R1]|]. split; [|by rw /= E1].
  assert (cached (mkCache k pg1 (fr ++ [p]) (n + 1) hs ls sz ab) (<[p := Free]> u) p = false) as Hc2 by (rw /cached; reads; by rw E1).
  apply (pinv_change (mkCache k pg fr n hs ls sz ab) _ u _ f p Hi); simpl; rw ?E1 ?Hc2 ?fn_lookup_insert /=; try done.
  - intros q Hne. by reads.
  - apply NoDup_app. split_and!; [done|set_solver|apply NoDup_singleton].
  - rw K2 length_app /=. lia.
  - set_solver.
  - intros q Hne. set_solver.
  - intros h. split; [by intros ?%Hh|by intros [? _]].
  - intros w. split; [by intros ?%Hl|by intros [? _]].
  - congruence.
Qed.

(** The user of a block changes the page, or learns its contents. *)
Lemma update_spec s u f p y (g : Page -> Page) : pinv s u f -> cached s u p = true -> in_use (u p) = true -> y = Fresh \/ y = Held ->
  (forall x, pg_vnode (g x) = pg_vnode x /\ file_offset (g x) = file_offset x) -> flags_ok (g (page s p)) y ->
  exists s', upd_page p g s = Ok (tt, s') /\ pinv s' (<[p := y]> u) f /\ same_rest s s' /\ page s' p = g (page s p) /\
    (forall q, q <> p -> page s' q = page s q) /\ free_page_queue s' = free_page_queue s.
Proof.
  intros Hi Hc Hu Hy Hg Hf. pose proof (p_key _ _ _ Hi p Hc) as Hk. pose proof Hi as [K1 K2 K3 K4 K5 K6 K7 K8 K9 K10 K11].
  destruct s as [k pg fr n hs ls sz ab]. simpl in *. destruct (Hg (pg p)) as [Gv Go].
  destruct (upd_page_run k pg fr n hs ls sz ab p g) as (pg1 & R1 & [E1 Eo1]). eexists. split; [exact R1|]. split; [|by split_and!].
  assert (y <> Free) as Hyf by (by destruct Hy as [-> | ->]).
  assert (cached (mkCache k pg1 fr n hs ls sz ab) (<[p := y]> u) p = true) as Hc2 by (rw /cached; reads; by destruct Hy as [-> | ->]).
  apply (pinv_change (mkCache k pg fr n hs ls sz ab) _ u _ f p Hi); simpl; rw ?E1 ?Hc2 ?fn_lookup_insert ?Gv ?Go /=; try done.
  - intros q Hne. by reads.
  - rw K3. by destruct (u p).
  - intros h. by rw K8 Hc.
  - intros v. by rw K9 Hc.
  - intros _ q Hne Hcq Ev Eo. apply Hne. by apply K10.
Qed.

(** A page without a file changes. *)
Lemma anon_spec s u f p (g : Page -> Page) : pinv s u f -> u p = Anon -> flags_ok (g (page s p)) Anon ->
  exists s', upd_page p g s = Ok (tt, s') /\ pinv s' u f /\ same_rest s s' /\ page s' p = g (page s p) /\
    (forall q, q <> p -> page s' q = page s q) /\ free_page_queue s' = free_page_queue s.
Proof.
  intros Hi Hu Hf. pose proof (uncached_place s u f p Hi) as Hun. pose proof Hi as [K1 K2 K3 K4 K5 K6 K7 K8 K9 K10 K11].
  destruct s as [k pg fr n hs ls sz ab]. simpl in *. destruct Hun as [Hh Hl]; [by rw /cached Hu|].
  destruct (upd_page_run k pg fr n hs ls sz ab p g) as (pg1 & R1 & [E1 Eo1]). eexists. split; [exact R1|]. split; [|by split_and!].
  assert (cached (mkCache k pg1 fr n hs ls sz ab) u p = false) as Hc2 by (by rw /cached Hu).
  apply (pinv_change (mkCache k pg fr n hs ls sz ab) _ u _ f p Hi); simpl; rw ?E1 ?Hc2 ?Hu /=; try done.
  - rw K3 Hu. done.
  - intros h. split; [by intros ?%Hh|by intros [? _]].
  - intros v. split; [by intros ?%Hl|by intros [? _]].
Qed.

(** The server changes the block of a page that is in use. *)
Lemma aligned_apart a b i j : 0 < PAGE_SIZE -> a mod PAGE_SIZE = 0 -> b mod PAGE_SIZE = 0 -> 0 <= i < PAGE_SIZE -> 0 <= j < PAGE_SIZE -> a + i = b + j -> a = b.
Proof.
  generalize PAGE_SIZE. intros c Hp Ha Hb Hi Hj E. assert (c <> 0) as Hc by lia. pose proof (Z.div_mod a c Hc) as Da. pose proof (Z.div_mod b c Hc) as Db.
  rw Ha in Da. rw Hb in Db. revert Da Db. generalize (a / c) (b / c). intros x y Da Db. destruct (Z.lt_trichotomy x y) as [?|[?|?]]; [nia|congruence|nia].
Qed.
Lemma server_spec s u f f' p v : 0 < PAGE_SIZE -> pinv s u f -> cached s u p = true -> in_use (u p) = true -> pg_vnode (page s p) = Some v ->
  (forall w i, ~ (w = v /\ file_offset (page s p) <= i < file_offset (page s p) + PAGE_SIZE) -> f' w i = f w i) -> pinv s u f'.
Proof.
  intros Hps Hi Hc Hu Hv Hf. pose proof Hi as [K1 K2 K3 K4 K5 K6 K7 K8 K9 K10 K11]. split; try done.
  intros q Hq Hva w i Ew Hr. rw (K11 q Hq Hva w i Ew Hr). symmetry. apply Hf. intros [-> Hin].
  assert (cached s u q = true) as Hcq by (by rw /cached Hq). destruct (K5 p Hc) as [_ Ap], (K5 q Hcq) as [_ Aq].
  assert (file_offset (page s q) = file_offset (page s p)) as Eo.
  { apply (aligned_apart _ _ i (file_offset (page s q) + i - file_offset (page s p))); try lia. }
  assert (q = p) as -> by (apply K10; congruence). rw Hq in Hu. done.
Qed.

(** A free page is dropped: the second removal from its lists finds the
    neighbours of the first. *)
Lemma drop_spec s u f p : pinv s u f -> u p = Free -> cached s u p = true ->
  exists s' v, (_ ← upd_page p (fun x => x <| B_BUSY := true |>); _ ← upd_page p (fun x => x <| B_VALID := false |>);
    _ ← remove_from_free_page_queue p; _ ← remove_from_lookup_page_hash p; _ ← remove_from_vnode_page_list p;
    _ ← upd_page p (fun x => x <| B_DISCARD := true |>); brelse_page p) s = Ok (tt, s') /\ pinv s' u f /\ same_rest s s' /\
    pg_vnode (page s p) = Some v /\ changed (page_list s) v (list_remove1 p (page_list s v)) (page_list s') /\
    (forall q, q <> p -> page s' q = page s q) /\ B_BUSY (page s' p) = false /\ free_page_queue s' <> [].
Proof.
  intros Hi Hu Hc. destruct (cached_place s u f p Hi Hc) as (v & Ev & Hh & Hl & Hho & Hlo). destruct (free_flags s u f p Hi Hu) as (Hp & Hb & He & Hdi).
  pose proof Hi as [K1 K2 K3 K4 K5 K6 K7 K8 K9 K10 K11]. destruct s as [k pg fr n hs ls sz ab]. simpl in *.
  destruct (free_removed p fr n K1 K2 Hp) as (F1 & F2 & F3 & F4). set fr' := list_remove1 p fr in F1 F2 F3 F4.
  destruct (upd_page_run k pg fr n hs ls sz ab p (fun x => x <| B_BUSY := true |>)) as (pg1 & R1 & [E1 Eo1]).
  destruct (upd_page_run k pg1 fr n hs ls sz ab p (fun x => x <| B_VALID := false |>)) as (pg2 & R2 & [E2 Eo2]). rw E1 in E2.
  destruct (rem_free_run k pg2 fr n hs ls sz ab p Hp) as (pg3 & R3 & [E3 Eo3]). rw E2 in E3.
  destruct (rem_hash_run k pg3 fr' (n - 1) hs ls sz ab p v) as (pg4 & hs1 & R4 & [E4 Eo4] & Ch); [by rw E3|by rw E3|]. rw E3 in E4 Ch. simpl in Ch.
  set h := hk v (file_offset (pg p)) in Ch Hh Hho.
  destruct (rem_list_run k pg4 fr' (n - 1) hs1 ls sz ab p v) as (pg5 & ls1 & R5 & [E5 Eo5] & Cl); [by rw E4|done|]. rw E4 in E5.
  destruct (upd_page_run k pg5 fr' (n - 1) hs1 ls1 sz ab p (fun x => x <| B_DISCARD := true |>)) as (pg6 & R6 & [E6 Eo6]). rw E5 in E6.
  destruct (rem_hash_again k pg6 fr' (n - 1) hs1 ls1 sz ab p v ltac:(by rw E6) (hs h) (K6 h) Hh) as (pg7 & hs2 & R7 & [E7 Eo7] & Ch2);
    [rw E6 /=; apply Ch|by rw E6|]. rw E6 in E7 Ch2. simpl in Ch2.
  destruct (rem_list_again k pg7 fr' (n - 1) hs2 ls1 sz ab p v ltac:(by rw E7) (ls v) (K7 v) Hl) as (pg8 & ls2 & R8 & [E8 Eo8] & Cl2); [apply Cl|by rw E7|]. rw E7 in E8.
  destruct (upd_page_run k pg8 fr' (n - 1) hs2 ls2 sz ab p cleared) as (pg9 & R9 & [E9 Eo9]). rw E8 in E9.
  assert (B_ERROR (pg6 p) || B_DISCARD (pg6 p) = true) as G0 by (by rw E6 /= orb_true_r).
  pose proof (changed_trans _ _ _ _ _ _ Ch Ch2) as Ch3. pose proof (changed_trans _ _ _ _ _ _ Cl Cl2) as Cl3.
  destruct (lists_removed hs hs2 _ p Ch3 K6 Hho) as (G1 & G2 & G3). destruct (lists_removed ls ls2 _ p Cl3 K7 Hlo) as (L1 & L2 & L3).
  eexists _, v. split.
  { rw {1}/mbind {1}/M_bind R1 {1}/mbind {1}/M_bind R2 {1}/mbind {1}/M_bind R3 {1}/mbind {1}/M_bind R4 {1}/mbind {1}/M_bind R5 {1}/mbind {1}/M_bind R6.
    rw /brelse_page {1}/mbind {1}/M_bind {1}/get_page {1}/gets /= G0 {1}/mbind {1}/M_bind R7 {1}/mbind {1}/M_bind R8.
    rw {1}/mbind {1}/M_bind R9.
    by apply add_free_tail_run. }
  assert (forall q, q <> p -> pg9 q = pg q) as Hq. { intros q Hq. by rw Eo9 // Eo8 // Eo7 // Eo6 // Eo5 // Eo4 // Eo3 // Eo2 // Eo1. }
  split; [|simpl; rw E9; split_and!; try done; by destruct fr'].
  assert (cached (mkCache k pg9 (fr' ++ [p]) (n - 1 + 1) hs2 ls2 sz ab) u p = false) as Hc2 by (rw /cached Hu /=; by rw E9).
  apply (pinv_change (mkCache k pg fr n hs ls sz ab) _ u _ f p Hi); simpl; rw ?E9 ?Hc2 ?Hu /=; try done.
  - apply NoDup_app. split_and!; [done|set_solver|apply NoDup_singleton].
  - rw F2 length_app /=. lia.
  - set_solver.
  - intros q Hne. rw elem_of_app list_elem_of_singleton F4 //. naive_solver.
  - intros h'. split; [by intros ?%G2|by intros [? _]].
  - intros w. split; [by intros ?%L2|by intros [? _]].
Qed.
End inv.
