(* ===== verification/CacheThms.v ===== *)
(** * CacheThms: the cache is coherent

    Whatever the threads do with the cache, every free page with a block holds
    what the server stores, nobody gets a page that another thread uses, and
    whoever waits for a page can be woken. *)

From S2P Require Import Prelude Sched SchedQueue Bkl BklSteps Event EventThms Frames Cache CacheInv.
Local Open Scope Z_scope.
Local Open Scope kernel_scope.
#[local] Opaque calc_page_lookup_hash.

Section protocol.
Context `{Threads, CacheConsts}.
Context (ps_pos : 0 < PAGE_SIZE).
Context (pr_inj : forall p q, page_rendez p = page_rendez q -> p = q).
Context (pr_list : forall p, page_rendez p <> page_list_rendez).
Implicit Types (s : cache) (p q v c t : nat) (pc : nat -> loc) (u : nat -> use) (f : nat -> Z -> Z).

(** Threads sleep on the rendez of the list only while no page is free, and on
    the rendez of a page only while it is in use. *)
Definition held (x : use) : bool := match x with Fresh | Held => true | _ => false end.
Record cinv s pc u f : Prop := {
  c_kinv : kinv (csch s) pc;
  c_pages : pinv s u f;
  c_list : forall t, t ∈ rendez (csch s) page_list_rendez -> free_page_queue s = [];
  c_page : forall p t, t ∈ rendez (csch s) (page_rendez p) -> held (u p) = true }.
Definition runs s pc c : Prop := current_thread (csch s) = Some c /\ pc c = LKernel /\ sched_policy (th (csch s) c) <> SCHED_IDLE.

Lemma on_csch_run {A} (m : M sched A) s a k : m (csch s) = Ok (a, k) -> on_csch m s = Ok (a, s <| csch := k |>).
Proof using All. intros Hm. by rw /on_csch Hm. Qed.

#[local] Instance same_rest_preorder : PreOrder same_rest.
Proof using Type. split; [by intros s|]. intros s1 s2 s3 (E1 & E2 & E3) (F1 & F2 & F3). rw /same_rest F1 F2 F3. by split_and!. Qed.
Lemma pinv_ext s u u' f : pinv s u f -> (forall p, u p = u' p) -> pinv s u' f.
Proof using Type.
  intros [] E. assert (forall p, cached s u' p = cached s u p) as Ec by (intros p; by rw /cached E).
  split; try done; setoid_rewrite Ec || setoid_rewrite <-E; done.
Qed.
Lemma pinv_sch s u f k : pinv s u f -> pinv (s <| csch := k |>) u f.
Proof using All. intros []. by split. Qed.
Lemma runs_rest s s' pc c : same_rest s s' -> runs s pc c -> runs s' pc c.
Proof using All. intros [E _]. by rw /runs E. Qed.

Lemma cinv_ext s pc u u' f : cinv s pc u f -> (forall p, u p = u' p) -> cinv s pc u' f.
Proof using All. intros [? ? ? K] E. split; try done; [by apply (pinv_ext _ u)|]. intros p t ?%K. by rw -E. Qed.

Lemma use_ne u p y q : q <> p -> (<[p := y]> u) q = u q.
Proof using Type. intros Hq. rw fn_lookup_insert_ne //. by intros ->. Qed.

(** Sleeping on one of the rendez. *)
Lemma sleep_cache s pc u f c r : cinv s pc u f -> runs s pc c ->
  (r = page_list_rendez -> free_page_queue s = []) -> (forall p, r = page_rendez p -> held (u p) = true) ->
  exists k, on_csch (TaskSleep r) s = Ok (tt, s <| csch := k |>) /\ cinv (s <| csch := k |>) pc u f /\ c ∈ rendez k r.
Proof using All.
  intros [K1 K2 K3 K4] (Hcur & Hpc & Hid) Hl Hp. destruct (running_awake _ _ _ K1 Hcur) as [Hon _].
  destruct (TaskSleep_spec (csch s) pc c r K1 Hon Hpc Hid) as (k & Hk & Hi & Hrr & Hro). exists k. split; [by apply on_csch_run|].
  split; [|rw Hrr; set_solver]. split; simpl; [done|by apply pinv_sch|..].
  - intros t. destruct (decide (r = page_list_rendez)) as [E|Hne]; [intros _; by apply Hl|]. rw Hro; [congruence|]. apply K3.
  - intros p t. destruct (decide (r = page_rendez p)) as [E|Hne]; [intros _; by apply Hp|]. rw Hro; [congruence|]. apply K4.
Qed.

(** Waking. *)
Lemma wakeup_all_cache s pc c r : kinv (csch s) pc -> runs s pc c ->
  exists k, on_csch (TaskWakeupAll r) s = Ok (tt, s <| csch := k |>) /\ kinv k pc /\ runs (s <| csch := k |>) pc c /\
    rendez k r = [] /\ (forall r', r' <> r -> rendez k r' = rendez (csch s) r').
Proof using All.
  intros Hi (Hcur & Hpc & Hid). destruct (running_awake _ _ _ Hi Hcur) as [Hon Ha]. pose proof Hi as [Hk _].
  destruct (TaskWakeupAll_spec (csch s) pc r Hk) as (k & Hr & Hk' & Hon' & Hz & Hro & _ & _ & Hth); [by rw (on_cpu_owner _ _ _ Hk Hon Hpc)|].
  exists k. split; [by apply on_csch_run|]. split; [split; [done|by exists c; apply Hon']|]. split; [|done].
  destruct (Hon' c Hon) as [Hc' _]. split_and!; [done|done|]. simpl. rw Hth //. intros Hin. apply Ha. by exists r.
Qed.

(** A page is put on the queue: both its own sleepers and those who wait for
    any page wake. *)
Lemma released s s' pc u u' f c p : cinv s pc u f -> runs s pc c -> pinv s' u' f -> same_rest s s' -> (forall q, q <> p -> u' q = u q) ->
  exists k, (_ ← on_csch (TaskWakeupAll page_list_rendez); on_csch (TaskWakeupAll (page_rendez p))) s' = Ok (tt, s' <| csch := k |>) /\
    cinv (s' <| csch := k |>) pc u' f /\ runs (s' <| csch := k |>) pc c.
Proof using All.
  intros [K1 K2 K3 K4] Hc Hi Hsr Hq. pose proof Hsr as [E _]. pose proof (runs_rest _ _ _ _ Hsr Hc) as Hc'.
  destruct (wakeup_all_cache s' pc c page_list_rendez) as (k & Hr & Hk & Hck & Hz & Ho); [by rw E|done|].
  destruct (wakeup_all_cache (s' <| csch := k |>) pc c (page_rendez p)) as (k2 & Hr2 & Hk2 & Hck2 & Hz2 & Ho2); [done|done|].
  exists k2. rw {1}/mbind {1}/M_bind Hr Hr2. split; [done|]. split; [|done]. split; simpl; [done|by apply pinv_sch|..].
  - intros t. rw Ho2; [by intros ?; apply (pr_list p)|]. simpl. rw Hz. set_solver.
  - intros q t. destruct (decide (q = p)) as [->|Hne]; [rw Hz2; set_solver|]. rw Ho2; [by intros ?%pr_inj|]. simpl. rw Ho; [apply pr_list|].
    rw E Hq //. apply K4.
Qed.

(** A page leaves the queue, or changes while in use: nobody sleeps on the rendez of a page that was
    free. *)
Lemma taken s s' pc u u' f c p : cinv s pc u f -> runs s pc c -> pinv s' u' f -> same_rest s s' -> (forall q, q <> p -> u' q = u q) ->
  (free_page_queue s = [] -> free_page_queue s' = []) -> (held (u p) = true -> held (u' p) = true) ->
  cinv s' pc u' f /\ runs s' pc c.
Proof using All.
  intros [K1 K2 K3 K4] Hc Hi Hsr Hq Hf Hb. split; [|by apply (runs_rest s)]. destruct Hsr as [E _]. split; simpl; [by rw E|done|..].
  - intros t. rw E. intros Ht. by apply Hf, (K3 t).
  - intros q t. rw E. intros Ht. apply K4 in Ht. destruct (decide (q = p)) as [->|Hne]; [by apply Hb|by rw Hq].
Qed.

(** ** Getting a page *)
Lemma find_in_chain_Some (pg : nat -> Page) v off l p : find_in_chain pg v off l = Some p -> p ∈ l /\ pg_vnode (pg p) = Some v /\ file_offset (pg p) = off.
Proof using All.
  induction l as [|q l IH]; simpl; [done|]. case_bool_decide; destruct (Z.eqb_spec (file_offset (pg q)) off); simpl;
    [intros [= <-]; set_solver|intros (? & ? & ?)%IH; set_solver..].
Qed.
Lemma find_in_chain_None (pg : nat -> Page) v off l q : find_in_chain pg v off l = None -> q ∈ l -> pg_vnode (pg q) = Some v -> file_offset (pg q) <> off.
Proof using All.
  induction l as [|p l IH]; simpl; [set_solver|]. case_bool_decide; destruct (Z.eqb_spec (file_offset (pg p)) off); simpl;
    intros Hn [->|Hq]%elem_of_cons Hv; try done; by apply IH.
Qed.
Lemma find_blk_spec s u f v off : pinv s u f ->
  match find_in_chain (page s) v off (page_lookup_hash s (calc_page_lookup_hash (inode_nr v) off)) with
  | Some p => cached s u p = true /\ pg_vnode (page s p) = Some v /\ file_offset (page s p) = off
  | None => unheld s u v off
  end.
Proof using All.
  intros Hi. destruct (find_in_chain _ _ _ _) as [p|] eqn:E.
  - apply find_in_chain_Some in E as (Hin & ? & ?). by apply (p_hash _ _ _ Hi) in Hin as [? _].
  - intros q Hc Hv Ho. apply (find_in_chain_None _ _ _ _ q E); try done. apply (p_hash _ _ _ Hi). split; [done|]. exists v. by rw Ho.
Qed.
Lemma last_in (l : list nat) p : last l = Some p -> p ∈ l.
Proof using All. intros [l' ->]%last_Some. set_solver. Qed.

(** How the thread [c] waits for the block. *)
Definition waits s s' u c v off : Prop :=
  (exists p, c ∈ rendez (csch s') (page_rendez p) /\ pg_vnode (page s p) = Some v /\ file_offset (page s p) = off /\ held (u p) = true) \/
  (c ∈ rendez (csch s') page_list_rendez /\ free_page_queue s = []).
(** The page [p] was free, and is now used for the block. *)
Definition gets_page s' u f p v off : Prop :=
  u p = Free /\ pg_vnode (page s' p) = Some v /\ file_offset (page s' p) = off /\ B_BUSY (page s' p) = true.

(** Joining the steps of a sequence that is known to end in a state. *)
Ltac join H :=
  revert H; unfold mbind, M_bind;
  repeat (match goal with |- context [match ?m with Ok _ => _ | Panic => _ | Fault => _ end] => destruct m as [[[] ?]| |]; [|done..] end); intros [= <-].

Lemma getblk_anon_spec s pc u f c : cinv s pc u f -> runs s pc c ->
  exists r s', getblk_anon s = Ok (r, s') /\
    match r with
    | Got p => u p = Free /\ cinv s' pc (<[p := Anon]> u) f /\ runs s' pc c /\ same_rest s s' /\ forall i, 0 <= i < PAGE_SIZE -> data (page s' p) i = 0
    | NoBlock => False
    | Sleeping => cinv s' pc u f /\ c ∈ rendez (csch s') page_list_rendez /\ free_page_queue s = []
    end.
Proof using All.
  intros Hi Hc. pose proof (c_pages _ _ _ _ Hi) as Hp. rw /getblk_anon {1}/mbind {1}/M_bind {1}/find_available_blk {1}/gets.
  destruct (last (free_page_queue s)) as [p|] eqn:El; last first.
  { apply last_None in El. destruct (sleep_cache s pc u f c page_list_rendez Hi Hc) as (k & Hr & Hi' & Hin); [done|by intros p E; destruct (pr_list p)|].
    exists Sleeping, (s <| csch := k |>). by rw {1}/mbind {1}/M_bind Hr. }
  apply last_in in El. assert (u p = Free) as Hu by (by apply (p_free _ _ _ Hp)).
  destruct (take_free_spec s u f p Hp Hu) as (s1 & Hr & Hp1 & Hsr & Hq). rw {1}/mbind {1}/M_bind Hr. set u1 := <[p := Anon]> u in Hp1 |- *.
  assert (u1 p = Anon) as Hu1 by (rw /u1; by reads).
  destruct (anon_spec s1 u1 f p (fun x => x <| pg_vnode := None |> <| file_offset := 0 |>) Hp1 Hu1) as (s2 & Hr2 & Hp2 & Hsr2 & E2 & Hq2 & Hf2).
  { pose proof (p_flags _ _ _ Hp1 p) as Hfl. by rw Hu1 in Hfl. }
  destruct (anon_spec s2 u1 f p (fun x => x <| data ::= zero_from 0 |>) Hp2 Hu1) as (s3 & Hr3 & Hp3 & Hsr3 & E3 & Hq3 & Hf3).
  { pose proof (p_flags _ _ _ Hp2 p) as Hfl. by rw Hu1 in Hfl. }
  exists (Got p), s3. rw {1}/mbind {1}/M_bind Hr2 {1}/mbind {1}/M_bind /clear_page Hr3. split; [done|]. split; [done|].
  assert (same_rest s s3) as Hs3 by (transitivity s1; [done|by transitivity s2]).
  assert (B_BUSY (page s3 p) = true) as Hb3. { pose proof (p_flags _ _ _ Hp3 p) as Hfl. rw Hu1 in Hfl. apply Hfl. }
  destruct (taken s s3 pc u u1 f c p Hi Hc Hp3 Hs3 (use_ne u p Anon)) as [Hi3 Hc3]; [intros E; rw E in El; set_solver|by rw Hu|].
  split_and!; try done; try apply Hs3. intros i Hi'. rw E3 /= /zero_from. by destruct (Z.leb_spec 0 i), (Z.ltb_spec i PAGE_SIZE); try lia.
Qed.

Lemma zeroed (x : Page) i : 0 <= i < PAGE_SIZE -> zero_from 0 (data x) i = 0.
Proof using All. intros Hi. rw /zero_from. by destruct (Z.leb_spec 0 i), (Z.ltb_spec i PAGE_SIZE); try lia. Qed.

(** A page for a block: with its contents, or cleared. *)
Definition block_page s' pc u f p v off : Prop :=
  gets_page s' u f p v off /\
  if B_VALID (page s' p) then holds_block (page s' p) f /\ cinv s' pc (<[p := Held]> u) f
  else (forall i, 0 <= i < PAGE_SIZE -> data (page s' p) i = 0) /\ cinv s' pc (<[p := Fresh]> u) f.

Lemma getblk_spec s pc u f c v off : cinv s pc u f -> runs s pc c -> off mod PAGE_SIZE = 0 ->
  exists r s', getblk v off s = Ok (r, s') /\
    match r with
    | Got p => block_page s' pc u f p v off /\ runs s' pc c /\ same_rest s s' /\ sb_abort s v = false
    | NoBlock => s' = s /\ sb_abort s v = true
    | Sleeping => cinv s' pc u f /\ waits s s' u c v off
    end.
Proof using All.
  intros Hi Hc Hal. pose proof (c_pages _ _ _ _ Hi) as Hp. rw /getblk {1}/mbind {1}/M_bind {1}/gets. destruct (sb_abort s v) eqn:Ea; [by exists NoBlock, s|].
  rw {1}/mbind {1}/M_bind {1}/find_blk {1}/gets. pose proof (find_blk_spec s u f v off Hp) as Hfind. destruct (find_in_chain _ _ _ _) as [p|].
  - destruct Hfind as (Hca & Hv & Ho). pose proof (p_flags _ _ _ Hp p) as Hfl. rw {1}/mbind {1}/M_bind {1}/get_page {1}/gets. destruct (B_BUSY (page s p)) eqn:Eb.
    + assert (held (u p) = true) as Hh. { rw /cached in Hca. destruct (u p); try done. destruct Hfl as [Hfl _]. by rw Eb in Hfl. }
      destruct (sleep_cache s pc u f c (page_rendez p) Hi Hc) as (k & Hr & Hi' & Hin); [by intros E; destruct (pr_list p)|by intros q <-%pr_inj|].
      exists Sleeping, (s <| csch := k |>). rw {1}/mbind {1}/M_bind Hr. split; [done|]. split; [done|]. left. by exists p.
    + assert (u p = Free) as Hu. { rw /cached in Hca. destruct (u p); try done; destruct Hfl as [Hfl _]; by rw Eb in Hfl. }
      assert (B_VALID (page s p) = true) as Hva by (by rw /cached Hu in Hca).
      destruct (grab_spec s u f p Hp Hu Hva) as (s1 & Hr & Hp1 & Hsr & Hv1 & En & Eo & Ed & Hq). assert (B_BUSY (page s1 p) = true) as Hb1.
      { pose proof (p_flags _ _ _ Hp1 p) as Hfl1. rw fn_lookup_insert in Hfl1. apply Hfl1. }
      exists (Got p), s1. split; [rw Hva; by join Hr|]. destruct (taken s s1 pc u (<[p := Held]> u) f c p Hi Hc Hp1 Hsr (use_ne u p Held)) as [Hi1 Hc1].
      { intros E. apply (p_free _ _ _ Hp) in Hu. rw E in Hu. set_solver. }
      { by rw Hu. }
      split; [|done]. split; [rw /gets_page; split_and!; congruence|]. rw Hv1. split; [|done]. intros w i Hw Hr'. rw Ed Eo. apply (p_data _ _ _ Hp p Hu Hva); congruence.
  - rw {1}/mbind {1}/M_bind {1}/find_available_blk {1}/gets. destruct (last (free_page_queue s)) as [p|] eqn:El; last first.
    { apply last_None in El. destruct (sleep_cache s pc u f c page_list_rendez Hi Hc) as (k & Hr & Hi' & Hin); [done|by intros p E; destruct (pr_list p)|].
      exists Sleeping, (s <| csch := k |>). rw {1}/mbind {1}/M_bind Hr. split; [done|]. split; [done|]. by right. }
    apply last_in in El. assert (u p = Free) as Hu by (by apply (p_free _ _ _ Hp)).
    destruct (take_free_spec s u f p Hp Hu) as (s1 & Hr & Hp1 & Hsr & Hq). rw {1}/mbind {1}/M_bind Hr.
    destruct (assign_spec s1 (<[p := Anon]> u) f p v off Hp1) as (s2 & Hr2 & Hp2 & Hsr2 & Hv2 & Ho2 & Hz2 & Hq2); [by reads| |done|].
    { intros q Hcq Hvq. assert (q <> p) as Hne by (intros ->; by rw /cached fn_lookup_insert in Hcq). rw Hq // in Hvq |- *. apply Hfind; [|done].
      rw /cached Hq // in Hcq. rw fn_lookup_insert_ne in Hcq; [congruence|done]. }
    exists (Got p), s2. split; [by join Hr2|].
    apply (pinv_ext _ _ (<[p := Fresh]> u)) in Hp2; [|intros q; by destruct (decide (p = q)) as [->|]; reads]. pose proof (p_flags _ _ _ Hp2 p) as Hfl. rw fn_lookup_insert in Hfl. destruct Hfl as (Hb2 & _ & _ & Hva2).
    destruct (taken s s2 pc u (<[p := Fresh]> u) f c p Hi Hc Hp2 ltac:(by transitivity s1) (use_ne u p Fresh)) as [Hi2 Hc2]; [intros E; rw E in El; set_solver|by rw Hu|].
    split; [|split_and!; try done; by transitivity s1]. split; [done|]. by rw Hva2.
Qed.

(** ** Using a page *)
Lemma use_page s pc u f c p y (g : Page -> Page) : cinv s pc u f -> runs s pc c -> u p = Fresh \/ u p = Held -> y = Fresh \/ y = Held ->
  (forall x, pg_vnode (g x) = pg_vnode x /\ file_offset (g x) = file_offset x) -> flags_ok (g (page s p)) y ->
  exists s', upd_page p g s = Ok (tt, s') /\ cinv s' pc (<[p := y]> u) f /\ runs s' pc c /\ same_rest s s' /\ page s' p = g (page s p) /\
    (forall q, q <> p -> page s' q = page s q).
Proof using All.
  intros Hi Hc Hu Hy Hg Hf. pose proof (c_pages _ _ _ _ Hi) as Hp. assert (cached s u p = true /\ in_use (u p) = true) as [Hca Hin].
  { rw /cached. by destruct Hu as [-> | ->]. }
  destruct (update_spec s u f p y g Hp Hca Hin Hy Hg Hf) as (s' & Hr & Hp' & Hsr & E & Hq & Hfr). exists s'.
  destruct (taken s s' pc u (<[p := y]> u) f c p Hi Hc Hp' Hsr (use_ne u p y)) as [Hi' Hc']; [by rw Hfr| |by split_and!].
  reads. by destruct Hy as [-> | ->].
Qed.

(** Giving one back, with or without its contents. *)
Lemma brelse_spec s pc u f c p : cinv s pc u f -> runs s pc c -> u p = Held -> holds_block (page s p) f ->
  exists s', brelse p s = Ok (tt, s') /\ cinv s' pc (<[p := Free]> u) f /\ runs s' pc c.
Proof using All.
  intros Hi Hc Hu Hd. destruct (release_spec s u f p (c_pages _ _ _ _ Hi) Hu Hd) as (s1 & Hr & Hp & Hsr & _ & Hq & _).
  destruct (released s s1 pc u (<[p := Free]> u) f c p Hi Hc Hp Hsr (use_ne u p Free)) as (k & Hr2 & Hi' & Hc'). eexists. split; [|exact (conj Hi' Hc')].
  by rw /brelse {1}/mbind {1}/M_bind Hr Hr2.
Qed.
Lemma drop_block s pc u f c p (g : Page -> Page) : cinv s pc u f -> runs s pc c -> u p = Fresh \/ u p = Held ->
  (forall x, B_ERROR (g x) || B_DISCARD (g x) = true /\ pg_vnode (g x) = pg_vnode x /\ file_offset (g x) = file_offset x) ->
  exists s1 s', upd_page p g s = Ok (tt, s1) /\ brelse p s1 = Ok (tt, s') /\ cinv s' pc (<[p := Free]> u) f /\ runs s' pc c.
Proof using All.
  intros Hi Hc Hu Hg. assert (cached s u p = true /\ in_use (u p) = true) as [Hca Hin]. { rw /cached. by destruct Hu as [-> | ->]. }
  destruct (discard_spec s u f p g (c_pages _ _ _ _ Hi) Hca Hin Hg) as (s1 & Hr & Hp & Hsr & _ & Hq & _).
  destruct (released s s1 pc u (<[p := Free]> u) f c p Hi Hc Hp Hsr (use_ne u p Free)) as (k & Hr2 & Hi' & Hc').
  eexists _, _. split; [reflexivity|]. split; [|exact (conj Hi' Hc')].
  rw {1}/mbind {1}/M_bind {1}/upd_page {1}/modify in Hr. by rw /brelse {1}/mbind {1}/M_bind Hr Hr2.
Qed.

(** ** Reading *)
Definition read_result s s' pc u f c v off (r : readres) : Prop :=
  match r with
  | Block p => gets_page s' u f p v off /\ holds_block (page s' p) f /\ cinv s' pc (<[p := Held]> u) f /\ runs s' pc c
  | Reads p => gets_page s' u f p v off /\ (forall i, 0 <= i < PAGE_SIZE -> data (page s' p) i = 0) /\ cinv s' pc (<[p := Fresh]> u) f /\ runs s' pc c
  | ReadSleeps => cinv s' pc u f /\ waits s s' u c v off
  | NoRead => s' = s /\ sb_abort s v = true
  end.
Lemma bread_spec s pc u f c v off : cinv s pc u f -> runs s pc c -> off mod PAGE_SIZE = 0 ->
  exists r s', bread v off s = Ok (r, s') /\ read_result s s' pc u f c v off r.
Proof using All.
  intros Hi Hc Hal. destruct (getblk_spec s pc u f c v off Hi Hc Hal) as (r & s' & Hr & Hres). rw /bread {1}/mbind {1}/M_bind Hr.
  destruct r as [p| |]; [|by eexists _, _..]. eexists _, _. split; [reflexivity|]. destruct Hres as ((Hg & Hb) & Hc' & _). destruct (B_VALID (page s' p)); destruct Hb; split_and!; done.
Qed.

Lemma bread_read_spec s pc u f c p v xfered bytes : cinv s pc u f -> runs s pc c -> u p = Fresh -> pg_vnode (page s p) = Some v -> xfered <= PAGE_SIZE ->
  exists r s', bread_read p xfered bytes s = Ok (r, s') /\ runs s' pc c /\
    if xfered <=? 0 then r = NoRead /\ cinv s' pc (<[p := Free]> u) f
    else r = Block p /\ cinv s' pc (<[p := Held]> u) f /\ pg_vnode (page s' p) = Some v /\ file_offset (page s' p) = file_offset (page s p) /\
      (forall i, 0 <= i < PAGE_SIZE -> data (page s' p) i = if i <? xfered then bytes i else 0).
Proof using All.
  intros Hi Hc Hu Hv Hx. pose proof (p_flags _ _ _ (c_pages _ _ _ _ Hi) p) as Hfl. rw Hu in Hfl.
  destruct (use_page s pc u f c p Fresh (fun x => x <| data ::= fill xfered bytes |>) Hi Hc) as (s1 & Hr1 & Hi1 & Hc1 & Hs1 & E1 & Hq1); [by left|by left|done|done|].
  rw /bread_read {1}/mbind {1}/M_bind Hr1 {1}/mbind {1}/M_bind {1}/kassert. destruct (Z.leb_spec xfered PAGE_SIZE); [|lia]. rw {1}/mret {1}/M_ret.
  assert ((<[p := Fresh]> u) p = Fresh) as Hu1 by (by reads). assert (forall y q, (<[p := y]> (<[p := Fresh]> u)) q = (<[p := y]> u) q) as Eu.
  { intros y q. by destruct (decide (p = q)) as [->|]; reads. }
  destruct (Z.leb_spec xfered 0).
  - destruct (drop_block s1 pc (<[p := Fresh]> u) f c p (fun x => x <| B_ERROR := true |>) Hi1 Hc1) as (s2 & s3 & Hr2 & Hr3 & Hi3 & Hc3); [by left|done|].
    eexists _, _. rw {1}/mbind {1}/M_bind Hr2 {1}/mbind {1}/M_bind Hr3. split; [reflexivity|]. split; [done|]. split; [done|]. by apply (cinv_ext _ _ _ _ _ Hi3).
  - assert (flags_ok (page s1 p) Fresh) as Hfl1 by (by rw E1).
    assert (forall i, 0 <= i < xfered -> data (page s1 p) i = bytes i) as Hd1.
    { intros i Hi'. rw E1 /= /fill. by destruct (Z.leb_spec 0 i), (Z.ltb_spec i xfered); try lia. }
    assert (exists s2, (if xfered <? PAGE_SIZE then upd_page p (fun x => x <| data ::= zero_from xfered |>) else mret tt) s1 = Ok (tt, s2) /\
      cinv s2 pc (<[p := Fresh]> u) f /\ runs s2 pc c /\ pg_vnode (page s2 p) = Some v /\ file_offset (page s2 p) = file_offset (page s p) /\
      flags_ok (page s2 p) Fresh /\ forall i, 0 <= i < PAGE_SIZE -> data (page s2 p) i = if i <? xfered then bytes i else 0) as (s2 & Hr2 & Hi2 & Hc2 & Ev2 & Eo2 & Hf2 & Hd2).
    { destruct (Z.ltb_spec xfered PAGE_SIZE).
      - destruct (use_page s1 pc (<[p := Fresh]> u) f c p Fresh (fun x => x <| data ::= zero_from xfered |>) Hi1 Hc1) as (s2 & Hr2 & Hi2 & Hc2 & _ & E2 & _);
          [by left|by left|done|done|]. exists s2. rw E2. split_and!; try done; [by apply (cinv_ext _ _ _ _ _ Hi2)|by rw E1|by rw E1|]. intros i Hi'. rw /= /zero_from.
        destruct (Z.ltb_spec i xfered), (Z.leb_spec xfered i), (Z.ltb_spec i PAGE_SIZE); try lia; try done. apply Hd1; lia.
      - exists s1. split_and!; try done; [by rw E1|by rw E1|]. intros i Hi'. destruct (Z.ltb_spec i xfered); [apply Hd1; lia|lia]. }
    rw {1}/mbind {1}/M_bind Hr2.
    destruct (use_page s2 pc (<[p := Fresh]> u) f c p Held (fun x => x <| B_VALID := true |>) Hi2 Hc2) as (s3 & Hr3 & Hi3 & Hc3 & _ & E3 & _); [by left|by right|done| |].
    { destruct Hf2 as (? & ? & ? & _). by split_and!. }
    eexists _, _. rw {1}/mbind {1}/M_bind Hr3. split; [reflexivity|]. split; [done|]. rw E3. split_and!; try done. by apply (cinv_ext _ _ _ _ _ Hi3).
Qed.

(** A block known to be empty need not be read. *)
Lemma bread_zero_spec s pc u f c v off : cinv s pc u f -> runs s pc c -> off mod PAGE_SIZE = 0 -> sb_abort s v = false ->
  exists r s', bread_zero v off s = Ok (r, s') /\
    match r with
    | Block p => gets_page s' u f p v off /\ (forall i, 0 <= i < PAGE_SIZE -> data (page s' p) i = 0) /\ cinv s' pc (<[p := Held]> u) f /\ runs s' pc c
    | ReadSleeps => cinv s' pc u f /\ waits s s' u c v off
    | _ => False
    end.
Proof using All.
  intros Hi Hc Hal Ha. destruct (getblk_spec s pc u f c v off Hi Hc Hal) as (r & s1 & Hr & Hres). rw /bread_zero {1}/mbind {1}/M_bind Hr.
  destruct r as [p| |]; [|destruct Hres; congruence|by eexists _, _]. destruct Hres as (((Hu & Hv & Ho & Hb) & Hx) & Hc1 & _).
  assert (exists y, (y = Fresh \/ y = Held) /\ cinv s1 pc (<[p := y]> u) f) as (y & Hy & Hi1).
  { destruct (B_VALID (page s1 p)); [exists Held|exists Fresh]; (split; [by auto|apply Hx]). }
  assert (forall z q, (<[p := z]> (<[p := y]> u)) q = (<[p := z]> u) q) as Eu. { intros z q. by destruct (decide (p = q)) as [->|]; reads. }
  pose proof (p_flags _ _ _ (c_pages _ _ _ _ Hi1) p) as Hfl. rw fn_lookup_insert in Hfl. assert ((<[p := y]> u) p = Fresh \/ (<[p := y]> u) p = Held) as Hy' by (by reads).
  destruct (use_page s1 pc (<[p := y]> u) f c p y (fun x => x <| data ::= zero_from 0 |>) Hi1 Hc1 Hy' Hy) as (s2 & Hr2 & Hi2 & Hc2 & _ & E2 & _); [done|by destruct Hy as [-> | ->]|].
  apply (cinv_ext _ _ _ (<[p := y]> u)) in Hi2; [|done].
  destruct (use_page s2 pc (<[p := y]> u) f c p Held (fun x => x <| B_VALID := true |>) Hi2 Hc2 Hy') as (s3 & Hr3 & Hi3 & Hc3 & _ & E3 & _); [by right|done| |].
  { rw E2. by destruct Hy as [-> | ->]; destruct Hfl as (? & ? & ? & _); split_and!. }
  apply (cinv_ext _ _ _ (<[p := Held]> u)) in Hi3; [|done].
  eexists _, _. rw {1}/mbind {1}/M_bind /clear_page Hr2 {1}/mbind {1}/M_bind Hr3. split; [reflexivity|]. rw /gets_page E3 E2. split_and!; try done. apply zeroed.
Qed.

Lemma bdiscard_spec s pc u f c p : cinv s pc u f -> runs s pc c -> u p = Held ->
  exists s', bdiscard p s = Ok (RVal 0, s') /\ cinv s' pc (<[p := Free]> u) f /\ runs s' pc c.
Proof using All.
  intros Hi Hc Hu. destruct (drop_block s pc u f c p (fun x => x <| B_DISCARD := true |>) Hi Hc) as (s1 & s2 & Hr1 & Hr2 & Hi2 & Hc2);
    [by right|intros x; simpl; by rw orb_true_r|]. eexists. split; [|exact (conj Hi2 Hc2)]. by rw /bdiscard {1}/mbind {1}/M_bind Hr1 {1}/mbind {1}/M_bind Hr2.
Qed.

(** ** Writing

    The server stores the first [n] bytes of the page; or it fails, and nothing
    is known of the block. *)
Lemma cinv_server s pc u f f' p v : cinv s pc u f -> u p = Held -> pg_vnode (page s p) = Some v ->
  (forall w i, ~ (w = v /\ file_offset (page s p) <= i < file_offset (page s p) + PAGE_SIZE) -> f' w i = f w i) -> cinv s pc u f'.
Proof using All.
  intros [K1 K2 K3 K4] Hu Hv Hf. split; try done. apply (server_spec s u f f' p v ps_pos K2); try done; [by rw /cached Hu|by rw Hu].
Qed.
Lemma bwrite_spec s pc u f c p v : cinv s pc u f -> u p = Held -> pg_vnode (page s p) = Some v -> 0 <= vn_size s v ->
  exists n, bwrite p s = Ok (n, s) /\ 0 <= n <= PAGE_SIZE /\ (file_offset (page s p) + PAGE_SIZE <= vn_size s v -> n = PAGE_SIZE) /\
    (file_offset (page s p) <= vn_size s v < file_offset (page s p) + PAGE_SIZE -> n = vn_size s v - file_offset (page s p)).
Proof using All.
  intros Hi Hu Hv Hsz. assert (cached s u p = true) as Hc by (by rw /cached Hu). destruct (p_key _ _ _ (c_pages _ _ _ _ Hi) p Hc) as [_ Hal].
  rw /bwrite {1}/mbind {1}/M_bind {1}/get_page {1}/gets Hv {1}/mbind {1}/M_bind {1}/gets. eexists. split; [reflexivity|].
  destruct (Z.ltb_spec (vn_size s v - file_offset (page s p)) PAGE_SIZE); [|lia]. rw Z.rem_mod_nonneg //. pose proof (Z.mod_pos_bound (vn_size s v) PAGE_SIZE ps_pos).
  split_and!; [lia|lia|lia|]. intros Hr. replace (vn_size s v) with ((vn_size s v - file_offset (page s p)) + file_offset (page s p)) at 1 by lia.
  rw Z.add_mod; [lia|]. rw Hal Z.add_0_r Z.mod_mod; [lia|]. apply Z.mod_small. lia.
Qed.
Lemma bwrite_written_ok s pc u f f' c p v n : cinv s pc u f -> runs s pc c -> u p = Held -> pg_vnode (page s p) = Some v ->
  (forall w i, ~ (w = v /\ file_offset (page s p) <= i < file_offset (page s p) + n) -> f' w i = f w i) -> n <= PAGE_SIZE ->
  (forall i, 0 <= i < n -> f' v (file_offset (page s p) + i) = data (page s p) i) ->
  (forall i, n <= i < PAGE_SIZE -> f v (file_offset (page s p) + i) = data (page s p) i) ->
  exists s', bwrite_written p n n s = Ok (RVal 0, s') /\ cinv s' pc (<[p := Free]> u) f' /\ runs s' pc c.
Proof using All.
  intros Hi Hc Hu Hv Hf Hn Hw Hold. assert (cinv s pc u f') as Hi'. { apply (cinv_server s pc u f f' p v); try done. intros w i Hno. apply Hf. intros [-> ?]. apply Hno. split; [done|lia]. }
  destruct (brelse_spec s pc u f' c p Hi' Hc Hu) as (s' & Hr & ? & ?).
  { intros w i. rw Hv. intros [= <-] Hi2. destruct (Z.lt_ge_cases i n); [rw Hw; [lia|done]|]. rw Hf; [intros [_ ?]; lia|]. rw Hold; [lia|done]. }
  exists s'. rw /bwrite_written Z.eqb_refl. cbn [negb]. by rw {1}/mbind {1}/M_bind Hr.
Qed.
Lemma bwrite_written_failed s pc u f f' c p v n m : cinv s pc u f -> runs s pc c -> u p = Held -> pg_vnode (page s p) = Some v -> m <> n ->
  (forall w i, ~ (w = v /\ file_offset (page s p) <= i < file_offset (page s p) + PAGE_SIZE) -> f' w i = f w i) ->
  exists s', bwrite_written p n m s = Ok (RVal (-1), s') /\ cinv s' pc (<[p := Free]> u) f' /\ runs s' pc c.
Proof using All.
  intros Hi Hc Hu Hv Hm Hf. assert (cinv s pc u f') as Hi' by (by apply (cinv_server s pc u f f' p v)).
  destruct (drop_block s pc u f' c p (fun x => x <| B_ERROR := true |>) Hi' Hc) as (s1 & s2 & Hr1 & Hr2 & Hi2 & Hc2); [by right|done|].
  exists s2. rw /bwrite_written. destruct (Z.eqb_spec m n); [done|]. cbn [negb]. by rw {1}/mbind {1}/M_bind Hr1 {1}/mbind {1}/M_bind Hr2.
Qed.

(** ** Pages without a file *)
Lemma use_anon s pc u f c p (g : Page -> Page) : cinv s pc u f -> runs s pc c -> u p = Anon -> (forall x, flags_ok x Anon -> flags_ok (g x) Anon) ->
  exists s', upd_page p g s = Ok (tt, s') /\ cinv s' pc u f /\ runs s' pc c /\ same_rest s s' /\ page s' p = g (page s p).
Proof using All.
  intros Hi Hc Hu Hg. pose proof (c_pages _ _ _ _ Hi) as Hp. pose proof (p_flags _ _ _ Hp p) as Hfl. rw Hu in Hfl.
  destruct (anon_spec s u f p g Hp Hu (Hg _ Hfl)) as (s' & Hr & Hp' & Hsr & E & Hq & Hfr). exists s'.
  destruct (taken s s' pc u u f c p Hi Hc Hp' Hsr) as [? ?]; [done|by rw Hfr|done|by split_and!].
Qed.
Lemma alloc_page_spec s pc u f c : cinv s pc u f -> runs s pc c ->
  exists r s', alloc_page s = Ok (r, s') /\
    match r with
    | Got p => u p = Free /\ cinv s' pc (<[p := Anon]> u) f /\ runs s' pc c /\ reference_cnt (page s' p) = 0 /\ forall i, 0 <= i < PAGE_SIZE -> data (page s' p) i = 0
    | NoBlock => False
    | Sleeping => cinv s' pc u f /\ c ∈ rendez (csch s') page_list_rendez /\ free_page_queue s = []
    end.
Proof using All.
  intros Hi Hc. destruct (getblk_anon_spec s pc u f c Hi Hc) as (r & s1 & Hr & Hres). rw /alloc_page {1}/mbind {1}/M_bind Hr.
  destruct r as [p| |]; [|done|by eexists _, _]. destruct Hres as (Hu & Hi1 & Hc1 & _ & Hz).
  destruct (use_anon s1 pc (<[p := Anon]> u) f c p (fun x => x <| mflags := PGF_INUSE |> <| reference_cnt := 0 |>) Hi1 Hc1) as (s2 & Hr2 & Hi2 & Hc2 & _ & E); [by reads|done|].
  exists (Got p), s2. rw {1}/mbind {1}/M_bind Hr2 E. by split_and!.
Qed.
Lemma free_page_spec s pc u f c p : cinv s pc u f -> runs s pc c -> u p = Anon ->
  exists s', free_page p s = Ok (tt, s') /\ runs s' pc c /\
    (if 1 <? reference_cnt (page s p) then cinv s' pc u f /\ reference_cnt (page s' p) = reference_cnt (page s p) - 1 else cinv s' pc (<[p := Free]> u) f).
Proof using All.
  intros Hi Hc Hu. destruct (use_anon s pc u f c p (fun x => x <| reference_cnt ::= fun n => n - 1 |>) Hi Hc Hu) as (s1 & Hr & Hi1 & Hc1 & _ & E); [done|].
  rw /free_page {1}/mbind {1}/M_bind Hr {1}/mbind {1}/M_bind {1}/get_page {1}/gets E /=.
  destruct (Z.ltb_spec 0 (reference_cnt (page s p) - 1)), (Z.ltb_spec 1 (reference_cnt (page s p))); try lia; [exists s1; by rw E|].
  destruct (put_anon_spec s1 u f p (c_pages _ _ _ _ Hi1) Hu) as (s2 & Hr2 & Hp2 & Hsr & _ & Hq & Hb). pose proof (runs_rest _ _ _ _ Hsr Hc1) as Hc2. pose proof Hsr as [Es _].
  destruct (wakeup_all_cache s2 pc c page_list_rendez) as (k & Hr3 & Hk & Hc3 & Hz & Ho); [rw Es; apply Hi1|done|].
  exists (s2 <| csch := k |>). split. { rw /putblk_anon. join Hr2. exact Hr3. } split; [done|]. split; simpl; [done|by apply pinv_sch|rw Hz; set_solver|].
  intros q t. rw Ho; [apply pr_list|]. rw Es. intros Ht%(c_page _ _ _ _ Hi1). destruct (decide (q = p)) as [->|Hne]; [by rw Hu in Ht|by rw use_ne].
Qed.

(** ** Dropping the pages of a file *)
Lemma drop_page_spec s pc u f c p v : cinv s pc u f -> runs s pc c -> u p = Free -> p ∈ page_list s v ->
  exists s', (_ ← upd_page p (fun x => x <| B_BUSY := true |>); drop_page p) s = Ok (tt, s') /\ cinv s' pc u f /\ runs s' pc c /\
    page_list s' v = list_remove1 p (page_list s v).
Proof using All.
  intros Hi Hc Hu Hin. pose proof (c_pages _ _ _ _ Hi) as Hp. destruct (proj1 (p_list _ _ _ Hp v p) Hin) as [Hca Hv].
  destruct (drop_spec s u f p Hp Hu Hca) as (s1 & w & Hr & Hp1 & Hsr & Hw & [Hl _] & _). assert (w = v) as -> by congruence.
  destruct (released s s1 pc u u f c p Hi Hc Hp1 Hsr ltac:(done)) as (k & Hr2 & Hi2 & Hc2). exists (s1 <| csch := k |>).
  split; [|by split_and!]. rw {1}/mbind {1}/M_bind in Hr2. rw /drop_page /bdiscard /brelse. join Hr. by rw Hr2.
Qed.
Lemma binvalidate_spec pc u f c v : forall n s, cinv s pc u f -> runs s pc c -> (forall p, p ∈ page_list s v -> u p = Free) -> length (page_list s v) = n ->
  exists s', binvalidate_loop n v s = Ok (tt, s') /\ cinv s' pc u f /\ runs s' pc c /\ page_list s' v = [].
Proof using All.
  induction n as [|n IH]; intros s Hi Hc Hf Hn; cbn [binvalidate_loop]; rw {1}/mbind {1}/M_bind {1}/gets; destruct (page_list s v) as [|p l] eqn:El; try done; [by exists s|].
  destruct (drop_page_spec s pc u f c p v Hi Hc) as (s1 & Hr & Hi1 & Hc1 & Hl1); [apply Hf; set_solver|rw El; set_solver|].
  rw El /= decide_True // in Hl1. destruct (IH s1 Hi1 Hc1) as (s2 & Hr2 & ?); [intros q Hq; apply Hf; rw Hl1 in Hq; set_solver|rw Hl1; simpl in Hn; lia|].
  exists s2. split; [|done]. rw {1}/mbind {1}/M_bind in Hr. rw {1}/mbind {1}/M_bind. destruct (upd_page _ _ s) as [[[] s0]| |]; [|done..].
  by rw {1}/mbind {1}/M_bind Hr.
Qed.
Lemma binvalidatev_spec s pc u f c v : cinv s pc u f -> runs s pc c -> (forall p, p ∈ page_list s v -> u p = Free) ->
  exists s', binvalidatev v s = Ok (RVal 0, s') /\ cinv s' pc u f /\ runs s' pc c /\ page_list s' v = [].
Proof using All.
  intros Hi Hc Hf. destruct (binvalidate_spec pc u f c v _ s Hi Hc Hf eq_refl) as (s' & Hr & ?). exists s'. split; [|done].
  by rw /binvalidatev {1}/mbind {1}/M_bind {1}/gets {1}/mbind {1}/M_bind Hr.
Qed.
(** When none of its blocks is in the cache, a file may change. *)
Lemma cinv_file s pc u f f' v : cinv s pc u f -> page_list s v = [] -> (forall w i, w <> v -> f' w i = f w i) -> cinv s pc u f'.
Proof using All.
  intros [K1 K2 K3 K4] Hl Hf. split; try done. pose proof K2 as [L1 L2 L3 L4 L5 L6 L7 L8 L9 L10 L11]. split; try done.
  intros p Hu Hva w i Hw Hi. rw Hf; [|by apply L11]. intros ->. assert (p ∈ page_list s v) as Hin; [|rw Hl in Hin; set_solver].
  apply L9. split; [by rw /cached Hu|done].
Qed.

(** ** Everything else that threads do in the kernel *)
Definition ours (r : nat) : Prop := r = page_list_rendez \/ exists p, r = page_rendez p.
Lemma cinv_quiet s pc u f k pc' : cinv s pc u f -> kinv k pc' -> (forall r t, ours r -> t ∈ rendez k r -> t ∈ rendez (csch s) r) -> cinv (s <| csch := k |>) pc' u f.
Proof using All.
  intros [K1 K2 K3 K4] Hk Hr. split; simpl; [done|by apply pinv_sch|..].
  - intros t Ht. apply (K3 t), Hr; [by left|done].
  - intros p t Ht. apply (K4 p t), Hr; [by right; exists p|done].
Qed.
Lemma cinv_kernel s pc u f c k : cinv s pc u f -> current_thread (csch s) = Some c -> may_call (csch s) pc c k -> spares ours k ->
  exists k', call_run k (csch s) = Ok (tt, k') /\ cinv (s <| csch := k' |>) (call_loc k c pc) u f.
Proof using All.
  intros Hi Hc Hm Hs. destruct (spares_spec ours (csch s) pc c k (c_kinv _ _ _ _ Hi) Hc Hm Hs) as (k' & Hr & Hi' & Hrz & _).
  exists k'. split; [done|]. apply (cinv_quiet s pc); try done. intros r t Ho. by rw Hrz.
Qed.
Lemma cinv_signal s pc u f c td e : cinv s pc u f -> runs s pc c ->
  exists r k, do_thread_event_signal td e (csch s) = Ok (r, k) /\ cinv (s <| csch := k |>) pc u f.
Proof using All.
  intros Hi (Hc & Hpc & _). destruct (signal_undisturbed (csch s) pc c td e (c_kinv _ _ _ _ Hi) Hc Hpc) as (r & k & Hr & Hi' & _ & _ & Hin & _).
  exists r, k. split; [done|]. apply (cinv_quiet s pc); try done. intros r' t _. apply Hin.
Qed.

(** ** Executions

    A thread reads a block, changes the page it has got, gives it back or
    writes it; the server answers; threads take and free pages without a file;
    the pages of a file are dropped while nobody uses them; and anything else
    happens in the kernel that does not use the rendez of the cache. *)
Record world := mkW { wc : cache; wpc : nat -> loc; wu : nat -> use; wf : nat -> Z -> Z }.
Definition in_block s p v (n : Z) (w : nat) (i : Z) : Prop := w = v /\ file_offset (page s p) <= i < file_offset (page s p) + n.

Inductive cstep : world -> world -> Prop :=
| k_bread s pc u f c v off p s' :
    runs s pc c -> off mod PAGE_SIZE = 0 -> bread v off s = Ok (Block p, s') -> cstep (mkW s pc u f) (mkW s' pc (<[p := Held]> u) f)
| k_bread_request s pc u f c v off p s' :
    runs s pc c -> off mod PAGE_SIZE = 0 -> bread v off s = Ok (Reads p, s') -> cstep (mkW s pc u f) (mkW s' pc (<[p := Fresh]> u) f)
| k_bread_sleep s pc u f c v off s' :
    runs s pc c -> off mod PAGE_SIZE = 0 -> bread v off s = Ok (ReadSleeps, s') -> cstep (mkW s pc u f) (mkW s' pc u f)
| k_read s pc u f c p v xfered bytes r s' :
    runs s pc c -> u p = Fresh -> pg_vnode (page s p) = Some v -> 0 < xfered <= PAGE_SIZE ->
    (forall i, 0 <= i < PAGE_SIZE -> f v (file_offset (page s p) + i) = if i <? xfered then bytes i else 0) ->
    bread_read p xfered bytes s = Ok (r, s') -> cstep (mkW s pc u f) (mkW s' pc (<[p := Held]> u) f)
| k_read_failed s pc u f c p v xfered bytes r s' :
    runs s pc c -> u p = Fresh -> pg_vnode (page s p) = Some v -> xfered <= 0 ->
    bread_read p xfered bytes s = Ok (r, s') -> cstep (mkW s pc u f) (mkW s' pc (<[p := Free]> u) f)
| k_zero s pc u f c v off p s' :
    runs s pc c -> off mod PAGE_SIZE = 0 -> sb_abort s v = false -> bread_zero v off s = Ok (Block p, s') -> cstep (mkW s pc u f) (mkW s' pc (<[p := Held]> u) f)
| k_zero_sleep s pc u f c v off s' :
    runs s pc c -> off mod PAGE_SIZE = 0 -> sb_abort s v = false -> bread_zero v off s = Ok (ReadSleeps, s') -> cstep (mkW s pc u f) (mkW s' pc u f)
| k_modify s pc u f c p d s' :
    runs s pc c -> u p = Held -> upd_page p (fun x => x <| data := d |>) s = Ok (tt, s') -> cstep (mkW s pc u f) (mkW s' pc u f)
| k_brelse s pc u f c p s' :
    runs s pc c -> u p = Held -> holds_block (page s p) f -> brelse p s = Ok (tt, s') -> cstep (mkW s pc u f) (mkW s' pc (<[p := Free]> u) f)
| k_write s pc u f f' c p v n r s' :
    runs s pc c -> u p = Held -> pg_vnode (page s p) = Some v -> bwrite p s = Ok (n, s) -> 0 <= vn_size s v ->
    (forall w i, ~ in_block s p v n w i -> f' w i = f w i) -> (forall i, 0 <= i < n -> f' v (file_offset (page s p) + i) = data (page s p) i) ->
    (forall i, n <= i < PAGE_SIZE -> f v (file_offset (page s p) + i) = data (page s p) i) ->
    bwrite_written p n n s = Ok (r, s') -> cstep (mkW s pc u f) (mkW s' pc (<[p := Free]> u) f')
| k_write_failed s pc u f f' c p v n m r s' :
    runs s pc c -> u p = Held -> pg_vnode (page s p) = Some v -> m <> n -> (forall w i, ~ in_block s p v PAGE_SIZE w i -> f' w i = f w i) ->
    bwrite_written p n m s = Ok (r, s') -> cstep (mkW s pc u f) (mkW s' pc (<[p := Free]> u) f')
| k_discard s pc u f c p r s' : runs s pc c -> u p = Held -> bdiscard p s = Ok (r, s') -> cstep (mkW s pc u f) (mkW s' pc (<[p := Free]> u) f)
| k_alloc s pc u f c p s' : runs s pc c -> alloc_page s = Ok (Got p, s') -> cstep (mkW s pc u f) (mkW s' pc (<[p := Anon]> u) f)
| k_alloc_sleep s pc u f c s' : runs s pc c -> alloc_page s = Ok (Sleeping, s') -> cstep (mkW s pc u f) (mkW s' pc u f)
| k_ref s pc u f c p r s' : runs s pc c -> u p = Anon -> ref_page p s = Ok (r, s') -> cstep (mkW s pc u f) (mkW s' pc u f)
| k_free s pc u f c p s' :
    runs s pc c -> u p = Anon -> free_page p s = Ok (tt, s') -> cstep (mkW s pc u f) (mkW s' pc (if 1 <? reference_cnt (page s p) then u else <[p := Free]> u) f)
| k_invalidate s pc u f c v r s' :
    runs s pc c -> (forall p, p ∈ page_list s v -> u p = Free) -> binvalidatev v s = Ok (r, s') -> cstep (mkW s pc u f) (mkW s' pc u f)
| k_file s pc u f f' v : page_list s v = [] -> (forall w i, w <> v -> f' w i = f w i) -> cstep (mkW s pc u f) (mkW s pc u f')
| k_size s pc u f z : cstep (mkW s pc u f) (mkW (s <| vn_size := z |>) pc u f)
| k_kernel s pc u f c k k' :
    current_thread (csch s) = Some c -> may_call (csch s) pc c k -> spares ours k -> call_run k (csch s) = Ok (tt, k') ->
    cstep (mkW s pc u f) (mkW (s <| csch := k' |>) (call_loc k c pc) u f)
| k_signal s pc u f c td e r k' :
    runs s pc c -> do_thread_event_signal td e (csch s) = Ok (r, k') -> cstep (mkW s pc u f) (mkW (s <| csch := k' |>) pc u f).

Ltac same Hr := match type of Hr with ?a = _ => match goal with E : a = _ |- _ => rewrite Hr in E; injection E; intros; subst end end.

Lemma cstep_cinv x y : cstep x y -> cinv (wc x) (wpc x) (wu x) (wf x) -> cinv (wc y) (wpc y) (wu y) (wf y).
Proof using All.
  destruct 1 as [s pc u f c v off p s' Hc Ha Hr|s pc u f c v off p s' Hc Ha Hr|s pc u f c v off s' Hc Ha Hr|s pc u f c p v xf by_ r s' Hc Hu Hv Hx Hf Hr
    |s pc u f c p v xf by_ r s' Hc Hu Hv Hx Hr|s pc u f c v off p s' Hc Ha Hs Hr|s pc u f c v off s' Hc Ha Hs Hr|s pc u f c p d s' Hc Hu Hr|s pc u f c p s' Hc Hu Hb Hr
    |s pc u f f' c p v n r s' Hc Hu Hv Hn Hz Hf1 Hf2 Hf3 Hr|s pc u f f' c p v n m r s' Hc Hu Hv Hm Hf Hr|s pc u f c p r s' Hc Hu Hr|s pc u f c p s' Hc Hr|s pc u f c s' Hc Hr
    |s pc u f c p r s' Hc Hu Hr|s pc u f c p s' Hc Hu Hr|s pc u f c v r s' Hc Hl Hr|s pc u f f' v Hl Hf|s pc u f z|s pc u f c k k' Hc Hm Hs Hr|s pc u f c td e r k' Hc Hr];
    simpl; intros Hi.
  - destruct (bread_spec s pc u f c v off Hi Hc Ha) as (r & s1 & E & Hres). same Hr. by destruct Hres as (_ & _ & ? & _).
  - destruct (bread_spec s pc u f c v off Hi Hc Ha) as (r & s1 & E & Hres). same Hr. by destruct Hres as (_ & _ & ? & _).
  - destruct (bread_spec s pc u f c v off Hi Hc Ha) as (r & s1 & E & Hres). same Hr. by destruct Hres as [? _].
  - destruct (bread_read_spec s pc u f c p v xf by_ Hi Hc Hu Hv) as (r' & s1 & E & _ & Hres); [lia|]. same Hr. destruct (Z.leb_spec xf 0); [lia|]. apply Hres.
  - destruct (bread_read_spec s pc u f c p v xf by_ Hi Hc Hu Hv) as (r' & s1 & E & _ & Hres); [lia|]. same Hr. destruct (Z.leb_spec xf 0); [|lia]. apply Hres.
  - destruct (bread_zero_spec s pc u f c v off Hi Hc Ha Hs) as (r & s1 & E & Hres). same Hr. by destruct Hres as (_ & _ & ? & _).
  - destruct (bread_zero_spec s pc u f c v off Hi Hc Ha Hs) as (r & s1 & E & Hres). same Hr. by destruct Hres as [? _].
  - pose proof (p_flags _ _ _ (c_pages _ _ _ _ Hi) p) as Hfl. rw Hu in Hfl.
    destruct (use_page s pc u f c p Held (fun x => x <| data := d |>) Hi Hc) as (s1 & E & Hi1 & _); [by right|by right|done|done|]. same Hr.
    apply (cinv_ext _ _ _ _ _ Hi1). intros q. destruct (decide (p = q)) as [<-|]; by reads.
  - destruct (brelse_spec s pc u f c p Hi Hc Hu Hb) as (s1 & E & ? & _). by same Hr.
  - destruct (bwrite_spec s pc u f c p v Hi Hu Hv Hz) as (n' & E' & Hn' & _). rw Hn in E'. injection E' as <-.
    destruct (bwrite_written_ok s pc u f f' c p v n Hi Hc Hu Hv Hf1) as (s1 & E & ? & _); [lia|done|done|]. by same Hr.
  - destruct (bwrite_written_failed s pc u f f' c p v n m Hi Hc Hu Hv Hm Hf) as (s1 & E & ? & _). by same Hr.
  - destruct (bdiscard_spec s pc u f c p Hi Hc Hu) as (s1 & E & ? & _). by same Hr.
  - destruct (alloc_page_spec s pc u f c Hi Hc) as (r & s1 & E & Hres). same Hr. by destruct Hres as (_ & ? & _).
  - destruct (alloc_page_spec s pc u f c Hi Hc) as (r & s1 & E & Hres). same Hr. by destruct Hres as (? & _).
  - destruct (use_anon s pc u f c p (fun x => x <| reference_cnt ::= fun n => n + 1 |>) Hi Hc Hu) as (s1 & E & Hi1 & _); [done|].
    rw /ref_page {1}/mbind {1}/M_bind E in Hr. by injection Hr as _ <-.
  - destruct (free_page_spec s pc u f c p Hi Hc Hu) as (s1 & E & _ & Hres). same Hr. destruct (1 <? reference_cnt (page s p)); [apply Hres|done].
  - destruct (binvalidatev_spec s pc u f c v Hi Hc Hl) as (s1 & E & ? & _). by same Hr.
  - by apply (cinv_file s pc u f f' v).
  - destruct Hi as [K1 [] K3 K4]. by split.
  - destruct (cinv_kernel s pc u f c k Hi Hc Hm Hs) as (k1 & E & ?). by same Hr.
  - destruct (cinv_signal s pc u f c td e Hi Hc) as (r' & k1 & E & ?). by same Hr.
Qed.

Lemma reach_cinv x y : rtc cstep x y -> cinv (wc x) (wpc x) (wu x) (wf x) -> cinv (wc y) (wpc y) (wu y) (wf y).
Proof using All. induction 1 as [|x y z Hxy _ IH]; [done|]. intros Hx. by apply IH, (cstep_cinv x). Qed.

(** What the running thread may do, and what it gets. *)
Definition cache_calls s pc u f c : Prop :=
  (forall v off, off mod PAGE_SIZE = 0 -> exists r s', bread v off s = Ok (r, s') /\ read_result s s' pc u f c v off r) /\
  (forall p v n bytes, u p = Fresh -> pg_vnode (page s p) = Some v -> n <= PAGE_SIZE ->
     exists s', bread_read p n bytes s = Ok (if n <=? 0 then NoRead else Block p, s')) /\
  (forall v off, off mod PAGE_SIZE = 0 -> sb_abort s v = false -> exists r s', bread_zero v off s = Ok (r, s') /\ (r = ReadSleeps \/ exists p, r = Block p)) /\
  (forall p, u p = Held -> holds_block (page s p) f -> exists s', brelse p s = Ok (tt, s')) /\
  (forall p v, u p = Held -> pg_vnode (page s p) = Some v -> 0 <= vn_size s v -> exists n, bwrite p s = Ok (n, s) /\ 0 <= n <= PAGE_SIZE /\
     (file_offset (page s p) + PAGE_SIZE <= vn_size s v -> n = PAGE_SIZE) /\
     (file_offset (page s p) <= vn_size s v < file_offset (page s p) + PAGE_SIZE -> n = vn_size s v - file_offset (page s p))) /\
  (forall p v n m, u p = Held -> pg_vnode (page s p) = Some v -> m <> n -> exists s', bwrite_written p n m s = Ok (RVal (-1), s')) /\
  (exists r s', alloc_page s = Ok (r, s') /\ (r = Sleeping <-> free_page_queue s = [])) /\
  (forall p, u p = Anon -> exists s', free_page p s = Ok (tt, s')) /\
  (forall v, (forall p, p ∈ page_list s v -> u p = Free) -> exists s', binvalidatev v s = Ok (RVal 0, s') /\ page_list s' v = []).

Lemma calls_ok s pc u f c : cinv s pc u f -> runs s pc c -> cache_calls s pc u f c.
Proof using All.
  intros Hi Hc. split_and!.
  - intros v off. by apply bread_spec.
  - intros p v n bytes Hu Hv Hn. destruct (bread_read_spec s pc u f c p v n bytes Hi Hc Hu Hv Hn) as (r & s' & E & _ & Hres). exists s'. rw E.
    by destruct (n <=? 0), Hres as [-> _].
  - intros v off Ha Hs. destruct (bread_zero_spec s pc u f c v off Hi Hc Ha Hs) as (r & s' & E & Hres). exists r, s'. split; [done|]. destruct r; try done; [right; eauto|by left].
  - intros p Hu Hb. destruct (brelse_spec s pc u f c p Hi Hc Hu Hb) as (s' & ? & _). by exists s'.
  - intros p v Hu Hv Hz. by apply (bwrite_spec s pc u f c p v).
  - intros p v n m Hu Hv Hm. destruct (bwrite_written_failed s pc u f f c p v n m Hi Hc Hu Hv Hm) as (s' & ? & _); [done|]. by exists s'.
  - destruct (alloc_page_spec s pc u f c Hi Hc) as (r & s' & E & Hres). exists r, s'. split; [done|]. destruct r as [p| |]; [|done|by destruct Hres as (_ & _ & ?)].
    split; [done|]. intros El. destruct Hres as [Hu _]. apply (p_free _ _ _ (c_pages _ _ _ _ Hi)) in Hu. rw El in Hu. set_solver.
  - intros p Hu. destruct (free_page_spec s pc u f c p Hi Hc Hu) as (s' & ? & _). by exists s'.
  - intros v Hl. destruct (binvalidatev_spec s pc u f c v Hi Hc Hl) as (s' & ? & _ & _ & ?). by exists s'.
Qed.

(** C2: The block cache is coherent under the calls of [cstep]. In every
    execution of threads that read blocks at multiples of the page size, modify
    the pages they hold, write them back, release pages that they have not
    changed, discard pages they hold, take, share and free pages, and drop the
    pages of a file of which none is in use, with a server that answers a read
    with the bytes it stores or fails, and stores what it is sent or fails: a
    free page that is valid holds the bytes which the file's server stores; a
    block is in one page at most; the free pages are exactly those on the queue
    and are not busy; a thread waits for the queue only while it is empty, and
    for a page only while the page is in use. Reading a block gives a page that
    nobody used, marked busy, with the contents of the block, or a cleared one
    to read it into, or makes the thread wait for the page that has the block
    or for any page; and none of these calls, made as [cache_calls] says,
    panics, faults or corrupts a list. Not covered: [btruncatev], which breaks
    the cache ([btruncate_keeps_busy], [btruncate_faults]); [bread_zero] on a
    file system that is being aborted, which dereferences NULL; and
    [binvalidatev] of a file with pages in use. *)
Theorem cache_coherent s0 pc0 u0 f0 s pc u f :
  cinv s0 pc0 u0 f0 -> rtc cstep (mkW s0 pc0 u0 f0) (mkW s pc u f) ->
  (forall p, p ∈ free_page_queue s -> B_VALID (page s p) = true -> holds_block (page s p) f) /\
  (forall p q, cached s u p = true -> cached s u q = true -> pg_vnode (page s p) = pg_vnode (page s q) -> file_offset (page s p) = file_offset (page s q) -> p = q) /\
  (forall p, (p ∈ free_page_queue s <-> u p = Free) /\ (u p <> Other -> B_BUSY (page s p) = in_use (u p))) /\
  (forall t, t ∈ rendez (csch s) page_list_rendez -> free_page_queue s = []) /\
  (forall p t, t ∈ rendez (csch s) (page_rendez p) -> u p = Fresh \/ u p = Held) /\
  forall c, runs s pc c -> cache_calls s pc u f c.
Proof using All.
  intros Hi Hs. pose proof (reach_cinv _ _ Hs Hi) as Hi'. simpl in Hi'.
  pose proof (c_pages _ _ _ _ Hi') as Hp. split_and!.
  - intros p Hin%(p_free _ _ _ Hp). by apply (p_data _ _ _ Hp).
  - apply (p_unique _ _ _ Hp).
  - intros p. split; [apply (p_free _ _ _ Hp)|]. pose proof (p_flags _ _ _ Hp p) as Hfl. destruct (u p); try done; intros _; apply Hfl.
  - apply (c_list _ _ _ _ Hi').
  - intros p t Ht%(c_page _ _ _ _ Hi'). destruct (u p); try done; auto.
  - intros c. by apply calls_ok.
Qed.

(** ** Truncating *)
Lemma mark_busy_run l : forall s, exists s', mfor l (fun p => upd_page p (fun x => x <| B_BUSY := true |>)) s = Ok (tt, s') /\
  (forall p, page s' p = if decide (p ∈ l) then (page s p) <| B_BUSY := true |> else page s p) /\
  free_page_queue s' = free_page_queue s /\ page_list s' = page_list s /\ vn_size s' = vn_size s.
Proof using All.
  induction l as [|p l IH]; intros s; [exists s; split_and!; try done; intros p; by case_decide; [set_solver|]|].
  cbn [mfor]. rw {1}/mbind {1}/M_bind {1}/upd_page {1}/modify. destruct (IH (s <| page ::= fun m => <[p := (m p) <| B_BUSY := true |>]> m |>)) as (s' & -> & Hp & Hf & Hl & Hz).
  exists s'. split_and!; try done. intros q. rw Hp /=. destruct (decide (p = q)) as [<-|Hne]; reads.
  - rw (decide_True (P := p ∈ p :: l)); [set_solver|]. by case_decide.
  - destruct (decide (q ∈ l)); [rw decide_True //; set_solver|rw decide_False //; set_solver].
Qed.
Lemma mark_all_run s v : exists s', mark_all_vnode_pages_as_busy v s = Ok (tt, s') /\
  (forall p, page s' p = if decide (p ∈ page_list s v) then (page s p) <| B_BUSY := true |> else page s p) /\
  free_page_queue s' = free_page_queue s /\ page_list s' = page_list s /\ vn_size s' = vn_size s.
Proof using All. apply mark_busy_run. Qed.

Lemma btruncate_rest v l2 : forall l1 s, page_list s v = l1 ++ l2 -> NoDup (l1 ++ l2) ->
  (forall q, q ∈ l2 -> file_offset (page s q) + PAGE_SIZE <= vn_size s v) -> btruncate_from (length l2) v (head l2) s = Ok (None, s).
Proof using All.
  induction l2 as [|p l2 IH]; intros l1 s Hl Hn Hsz; [done|]. assert (file_offset (page s p) + PAGE_SIZE <= vn_size s v) as Hp by (apply Hsz; set_solver).
  simpl. rw {1}/mbind {1}/M_bind {1}/gets {1}/mbind {1}/M_bind {1}/get_page {1}/gets {1}/mbind {1}/M_bind {1}/gets.
  destruct (Z.leb_spec (vn_size s v) (file_offset (page s p))); [lia|]. destruct (Z.ltb_spec (vn_size s v - file_offset (page s p)) PAGE_SIZE); [lia|].
  rw Hl dl_next_app. { apply NoDup_app in Hn as (_ & Hd & _). intros Hin. apply (Hd p Hin). set_solver. }
  apply (IH (l1 ++ [p])); [by rw -app_assoc|by rw -app_assoc|]. intros q Hq. apply Hsz. set_solver.
Qed.

(** When the file keeps all its pages, they stay marked as busy for ever: no
    thread uses them, they are still on the queue of free pages, and whoever
    takes one from there stops the kernel. *)
Theorem btruncate_keeps_busy s v p :
  (forall q, q ∈ page_list s v -> file_offset (page s q) + PAGE_SIZE <= vn_size s v) -> NoDup (page_list s v) -> p ∈ page_list s v -> p ∈ free_page_queue s ->
  exists s', btruncatev v s = Ok (None, s') /\ B_BUSY (page s' p) = true /\ p ∈ free_page_queue s' /\ take_free p s' = Panic.
Proof using All.
  intros Hsz Hnd Hp Hf. destruct (mark_all_run s v) as (s1 & Hr & Hpg & Hfr & Hl & Hz).
  exists s1. rw /btruncatev {1}/mbind {1}/M_bind Hr {1}/mbind {1}/M_bind {1}/gets Hl. split.
  { apply (btruncate_rest v (page_list s v) []); [by rw Hl|done|]. intros q Hq. rw Hpg Hz decide_True //. by apply Hsz. }
  assert (B_BUSY (page s1 p) = true) as Hb by (by rw Hpg decide_True). rw Hfr. split_and!; try done.
  by rw /take_free {1}/mbind {1}/M_bind {1}/get_page {1}/gets Hb.
Qed.

(** When the end of the file falls into the first of its pages, releasing the
    page after writing it puts it on the queue where it already is. *)
Theorem btruncate_faults s u f v p l :
  pinv s u f -> page_list s v = p :: l -> u p = Free -> file_offset (page s p) < vn_size s v < file_offset (page s p) + PAGE_SIZE ->
  exists n next s', btruncatev v s = Ok (Some (p, n, next), s') /\ btruncatev_written v p n n next s' = Fault.
Proof using All.
  intros Hi Hpl Hu Hsz. destruct (mark_all_run s v) as (s1 & Hr & Hpg & Hfr & Hl & Hz). destruct (free_flags s u f p Hi Hu) as (Hf & Hb & He & Hd).
  assert (p ∈ page_list s v) as Hin by (rw Hpl; set_solver). pose proof (Hpg p) as Ep. rw decide_True // in Ep.
  assert (pg_vnode (page s p) = Some v) as Hv by (by apply (p_list _ _ _ Hi) in Hin as [_ ?]).
  rw /btruncatev {1}/mbind {1}/M_bind Hr {1}/mbind {1}/M_bind {1}/gets Hl Hpl. simpl.
  rw {1}/mbind {1}/M_bind {1}/gets {1}/mbind {1}/M_bind {1}/get_page {1}/gets {1}/mbind {1}/M_bind {1}/gets Ep Hz /=.
  destruct (Z.leb_spec (vn_size s v) (file_offset (page s p))); [lia|]. destruct (Z.ltb_spec (vn_size s v - file_offset (page s p)) PAGE_SIZE); [|lia].
  rw {1}/mbind {1}/M_bind {1}/upd_page {1}/modify {1}/mbind {1}/M_bind /bwrite {1}/mbind {1}/M_bind {1}/get_page {1}/gets /=. reads. rw Ep /= Hv.
  eexists _, _, _. split; [reflexivity|].
  rw /btruncatev_written {1}/mbind {1}/M_bind /bwrite_written Z.eqb_refl. cbn [negb]. rw {1}/mbind {1}/M_bind /brelse {1}/mbind {1}/M_bind /brelse_page.
  rw {1}/mbind {1}/M_bind {1}/get_page {1}/gets /=. reads. rw Ep /= He Hd /=. rw {1}/mbind {1}/M_bind {1}/upd_page {1}/modify.
  rw /add_to_free_page_queue {1}/mbind {1}/M_bind {1}/update /= Hfr /dl_add_head decide_True //.
Qed.
End protocol.

(** ** Witness: a block is read, changed and written *)
Module CacheSample.
Definition consts : CacheConsts :=
  {| inode_nr := fun v => Z.of_nat v + 2; page_rendez := fun p => (p + 100)%nat; page_list_rendez := 99; PAGE_SIZE := 4;
     pmap_page_to_va := fun p => Z.of_nat p * 4; pmap_va_to_page := fun a => Some (Z.to_nat (a / 4)) |}.
Definition empty_page : Page := mkPage false false false false None 0 (fun _ => 0) 0 0 (None, None) (None, None) (None, None).
Definition state : cache := mkCache Sample.state0 (fun _ => empty_page) [0; 1]%nat 2 (fun _ => []) (fun _ => []) (fun _ => 6) (fun _ => false).
Definition uses (p : nat) : use := if decide (p = 0 \/ p = 1)%nat then Free else Other.
(** The file is [10; 11; 12; 13; 14; 15]. *)
Definition file (v : nat) (i : Z) : Z := if (v =? 0)%nat && (0 <=? i) && (i <? 6) then i + 10 else 0.
End CacheSample.
Import Sample CacheSample.
#[local] Existing Instance plain_threads.
#[local] Existing Instance consts.

Lemma sample_size : 0 < PAGE_SIZE.
Proof. simpl. lia. Qed.
Lemma sample_pr_inj p q : page_rendez p = page_rendez q -> p = q.
Proof. simpl. lia. Qed.
Lemma sample_pr_list p : page_rendez p <> page_list_rendez.
Proof. simpl. lia. Qed.
Lemma sample_cinv : cinv state pc0 uses file.
Proof.
  assert (forall p, cached state uses p = false) as Hc. { intros p. rw /cached /=. by destruct (uses p) eqn:E; rw /uses in E; case_decide. }
  split; simpl.
  - apply sample_kinv.
  - split; simpl; try done; try (intros; apply NoDup_nil_2).
    + apply NoDup_cons. split; [set_solver|apply NoDup_singleton].
    + intros p. rw /uses. case_decide; set_solver.
    + intros p. rw /uses. by case_decide.
    + intros p. by rw Hc.
    + intros h p. rw Hc. set_solver.
    + intros v p. rw Hc. set_solver.
    + intros p q. by rw Hc.
  - intros t. simpl. set_solver.
  - intros p t. simpl. destruct (Nat.eqb_spec (p + 100) 7); [lia|]. set_solver.
Qed.

Definition run {A} (m : M cache A) (s : cache) : cache := match m s with Ok (_, s') => s' | _ => s end.
Definition state1 : cache := run (bread 0 4) state.
Definition state2 : cache := run (bread_read 1 2 (fun i => i + 14)) state1.
Definition state3 : cache := run (brelse 1) state2.
Definition uses1 : nat -> use := <[1%nat := Fresh]> uses.
Definition uses2 : nat -> use := <[1%nat := Held]> uses1.
Definition uses3 : nat -> use := <[1%nat := Free]> uses2.

Lemma sample_holds : holds_block (page state2 1%nat) file.
Proof.
  intros v i Hv. assert (v = 0%nat) as -> by (vm_compute in Hv; congruence). simpl. intros Hi.
  assert (i = 0 \/ i = 1 \/ i = 2 \/ i = 3) as [->|[->|[->| ->]]] by lia; vm_compute; reflexivity.
Qed.
Lemma sample_runs_cache s : csch s = state0 -> runs s pc0 0.
Proof. intros E. rw /runs E. by split_and!. Qed.
Lemma sample_step1 : cstep (mkW state pc0 uses file) (mkW state1 pc0 uses1 file).
Proof. apply (k_bread_request state pc0 uses file 0 0 4 1 state1); [by apply sample_runs_cache|by vm_compute|by vm_compute]. Qed.
Lemma sample_step2 : cstep (mkW state1 pc0 uses1 file) (mkW state2 pc0 uses2 file).
Proof.
  apply (k_read state1 pc0 uses1 file 0 1 0 2 (fun i => i + 14) (Block 1) state2); [apply sample_runs_cache; by vm_compute|by vm_compute|by vm_compute|simpl; lia| |by vm_compute].
  simpl. intros i Hi. assert (i = 0 \/ i = 1 \/ i = 2 \/ i = 3) as [->|[->|[->| ->]]] by lia; vm_compute; reflexivity.
Qed.
Lemma sample_step3 : cstep (mkW state2 pc0 uses2 file) (mkW state3 pc0 uses3 file).
Proof. apply (k_brelse state2 pc0 uses2 file 0 1 state3); [apply sample_runs_cache; by vm_compute|by vm_compute|apply sample_holds|by vm_compute]. Qed.
Lemma sample_queue : (free_page_queue state3 = [1; 0])%nat /\ B_VALID (page state3 1%nat) = true.
Proof. by vm_compute. Qed.

Lemma cache_coherent_witness :
  rtc cstep (mkW state pc0 uses file) (mkW state3 pc0 uses3 file) /\ (free_page_queue state3 = [1; 0])%nat /\ holds_block (page state3 1%nat) file.
Proof.
  assert (rtc cstep (mkW state pc0 uses file) (mkW state3 pc0 uses3 file)) as Hs.
  { exact (rtc_l _ _ _ _ sample_step1 (rtc_l _ _ _ _ sample_step2 (rtc_once _ _ sample_step3))). }
  destruct (cache_coherent sample_size sample_pr_inj sample_pr_list _ _ _ _ _ _ _ _ sample_cinv Hs) as (Hd & _). destruct sample_queue as [Hq Hv].
  split; [exact Hs|]. split; [exact Hq|]. apply Hd; [rewrite Hq; left|exact Hv].
Defined.
