(* ===== verification/FileIo.v ===== *)
(** * FileIo: reading and writing files through the cache

    fs/file.c: [read_from_file] and [write_to_file]. Both may stop in the middle,
    to sleep for a page or with a request to the file-system server; the
    definitions return at these points with what the call keeps in its
    variables, and [read_loop], [read_answered], [write_turn], [write_read] and
    [write_answered] go on from there. *)

From S2P Require Import Prelude Sched Cache.
Local Open Scope Z_scope.
Local Open Scope kernel_scope.

(** The cache and the memory of the user. *)
Record fio := mkFio { fcache : cache; umem : Z -> Z }.

(** [copyin] and [copyout] are assembly: [uaccess a n] is the number of bytes
    of [a .. a + n) they move before they fault, if they do; [off_t] is the
    conversion to that type. *)
Class IoConsts := { uaccess : Z -> Z -> option Z; to_off_t : Z -> Z }.

Definition on_cache {A} (m : M cache A) : M fio A := fun s =>
  match m (fcache s) with Ok (a, c) => Ok (a, mkFio c (umem s)) | Panic => Panic | Fault => Fault end.

(** [n] bytes of [src] from [i] on are copied to [a]. *)
Definition put_bytes (a n : Z) (src : Z -> Z) (i : Z) (m : Z -> Z) : Z -> Z := fun x => if (a <=? x) && (x <? a + n) then src (i + (x - a)) else m x.

(** Where the transfer is: the next address of the buffer, the offset in the
    file and the number of bytes done. *)
Record iox := mkIox { x_buf : Z; x_off : Z; x_total : Z }.
Inductive io : Type :=
| IoDone (r : ret) (off : Z)
| IoSleeps (x : iox)
| IoReads (p : nat) (x : iox)
| IoWrites (p : nat) (n : Z) (x : iox).

Section ops.
Context `{CacheConsts, IoConsts}.

Definition cluster_base (off : Z) : Z := off - Z.rem off PAGE_SIZE.
Definition cluster_offset (off : Z) : Z := Z.rem off PAGE_SIZE.
Definition nbytes_xfer (n : Z) (x : iox) : Z := Z.min (n - x_total x) (PAGE_SIZE - cluster_offset (x_off x)).
Definition advance (n : Z) (x : iox) : iox :=
  let k := nbytes_xfer n x in mkIox (x_buf x + k) (x_off x + k) (x_total x + k).
(** What is returned when there is no page. *)
Definition no_page (x : iox) : io := IoDone (if 0 <? x_total x then RVal (x_total x) else RErr EIO) (x_off x).

(** [copyout]: the memory after the copy, and whether it faulted. *)
Definition copyout (a n : Z) (src : Z -> Z) (i : Z) : M fio bool := fun s =>
  match uaccess a n with
  | None => Ok (true, mkFio (fcache s) (put_bytes a n src i (umem s)))
  | Some k => Ok (false, mkFio (fcache s) (put_bytes a k src i (umem s)))
  end.
Definition memcpy_out (a n : Z) (src : Z -> Z) (i : Z) : M fio bool := fun s => Ok (true, mkFio (fcache s) (put_bytes a n src i (umem s))).
(** [copyin] to the page [p]. *)
Definition copyin (p : nat) (i a n : Z) : M fio bool := fun s =>
  let d k := put_bytes i k (umem s) a in
  match uaccess a n with
  | None => (_ ← on_cache (upd_page p (fun x => x <| data ::= d n |>)); mret true) s
  | Some k => (_ ← on_cache (upd_page p (fun x => x <| data ::= d k |>)); mret false) s
  end.

(** ** Reading *)
Definition read_page (inkernel : bool) (p : nat) (n : Z) (x : iox) : M fio (option iox) :=
  pg ← on_cache (get_page p);
  let k := nbytes_xfer n x in
  ok ← (if inkernel then memcpy_out else copyout) (x_buf x) k (data pg) (cluster_offset (x_off x));
  if (ok : bool) then _ ← on_cache (brelse p); mret (Some (advance n x)) else mret None.

Fixpoint read_loop (fuel : nat) (inkernel : bool) (v : nat) (n : Z) (x : iox) : M fio io :=
  if x_total x <? n then
    match fuel with
    | O => fault
    | S fuel' =>
      r ← on_cache (bread v (cluster_base (x_off x)));
      match r with
      | ReadSleeps => mret (IoSleeps x)
      | Reads p => mret (IoReads p x)
      | NoRead => mret (no_page x)
      | Block p =>
        o ← read_page inkernel p n x;
        match o with Some x' => read_loop fuel' inkernel v n x' | None => mret (IoDone (RErr EFAULT) (x_off x)) end
      end
    end
  else mret (IoDone (RVal (x_total x)) (x_off x)).
Definition read_from (inkernel : bool) (v : nat) (n : Z) (x : iox) : M fio io := read_loop (Z.to_nat (n - x_total x)) inkernel v n x.

(** The number of bytes to read. *)
Definition nbytes_to_read (size off sz : Z) : Z := Z.min (wrap32 (size - off)) sz.
Definition read_from_file (v : nat) (dst sz off : Z) (inkernel : bool) : M fio io :=
  size ← gets (fun s => vn_size (fcache s) v);
  if size <=? off then mret (IoDone (RVal 0) off)
  else read_from inkernel v (nbytes_to_read size off sz) (mkIox dst off 0).
(** The server has answered. *)
Definition read_answered (inkernel : bool) (v : nat) (n : Z) (p : nat) (xfered : Z) (bytes : Z -> Z) (x : iox) : M fio io :=
  r ← on_cache (bread_read p xfered bytes);
  match r with
  | Block p =>
    o ← read_page inkernel p n x;
    match o with Some x' => read_from inkernel v n x' | None => mret (IoDone (RErr EFAULT) (x_off x)) end
  | _ => mret (no_page x)
  end.

(** ** Writing *)
Definition write_page (v : nat) (p : nat) (n : Z) (x : iox) : M fio io :=
  let k := nbytes_xfer n x in
  ok ← copyin p (cluster_offset (x_off x)) (x_buf x) k;
  if (ok : bool) then
    let x' := advance n x in
    _ ← on_cache (modify (fun s => if vn_size s v <? x_off x' then s <| vn_size ::= fun m => <[v := x_off x']> m |> else s));
    w ← on_cache (bwrite p);
    mret (IoWrites p w x')
  else mret (IoDone (RErr EFAULT) (x_off x)).
Definition write_turn (v : nat) (n : Z) (x : iox) : M fio io :=
  if x_total x <? n then
    let base := to_off_t (cluster_base (x_off x)) in
    size ← gets (fun s => vn_size (fcache s) v);
    r ← on_cache (if base <? size then bread v base else bread_zero v base);
    match r with
    | ReadSleeps => mret (IoSleeps x)
    | Reads p => mret (IoReads p x)
    | NoRead => mret (no_page x)
    | Block p => write_page v p n x
    end
  else mret (IoDone (RVal (x_total x)) (x_off x)).
Definition write_to_file (v : nat) (src sz off : Z) : M fio io := write_turn v sz (mkIox src off 0).
Definition write_read (v : nat) (n : Z) (p : nat) (xfered : Z) (bytes : Z -> Z) (x : iox) : M fio io :=
  r ← on_cache (bread_read p xfered bytes);
  match r with Block p => write_page v p n x | _ => mret (no_page x) end.
(** The result of [bwrite] is not looked at. *)
Definition write_answered (v : nat) (n : Z) (p : nat) (w xfered : Z) (x : iox) : M fio io :=
  _ ← on_cache (bwrite_written p w xfered);
  write_turn v n x.
End ops.
