(* ===== verification/FileIoThms.v ===== *)
(** * FileIoThms: what reading and writing a file does

    [read_from_file] returns the bytes of the file and [write_to_file] stores
    those of the buffer, whatever the other threads do with the cache in the
    meantime, as long as they leave the file alone. *)

From S2P Require Import Prelude Sched SchedQueue Bkl BklSteps Event EventThms Cache CacheInv CacheThms FileIo.
Local Open Scope Z_scope.
Local Open Scope kernel_scope.
#[local] Opaque calc_page_lookup_hash.

(** ** Copies *)
Lemma put_bytes_0 a src i m x : put_bytes a 0 src i m x = m x.
Proof. rw /put_bytes. by destruct (Z.leb_spec a x), (Z.ltb_spec x (a + 0)); try lia. Qed.
Lemma put_bytes_ext a n src src' i i' m m' x :
  (forall k, 0 <= k < n -> src (i + k) = src' (i' + k)) -> m x = m' x -> put_bytes a n src i m x = put_bytes a n src' i' m' x.
Proof. intros Hs Hm. rw /put_bytes. destruct (Z.leb_spec a x), (Z.ltb_spec x (a + n)); simpl; try done. apply Hs. lia. Qed.
Lemma put_bytes_app a t k src i m x : 0 <= t -> 0 <= k -> put_bytes (a + t) k src (i + t) (put_bytes a t src i m) x = put_bytes a (t + k) src i m x.
Proof.
  intros Ht Hk. rw /put_bytes. destruct (Z.leb_spec (a + t) x), (Z.ltb_spec x (a + t + k)), (Z.leb_spec a x), (Z.ltb_spec x (a + t)), (Z.ltb_spec x (a + (t + k)));
    simpl; try lia; try done. f_equal. lia.
Qed.

(** ** What the calls on the cache leave alone *)
Section files.
Context `{CacheConsts}.
Definition files (s s' : cache) : Prop := vn_size s' = vn_size s /\ sb_abort s' = sb_abort s.
#[local] Instance files_preorder : PreOrder files.
Proof. split; [by split|]. intros s1 s2 s3 [E1 E2] [E3 E4]. split; congruence. Qed.
Lemma files_modify f : (forall s, files s (f s)) -> within files (modify f).
Proof. intros Hf. by apply within_modify. Qed.
Lemma files_update {T} (get : cache -> T) put f : (forall s x, files s (put x s)) -> within files (update get put f).
Proof. intros Hf. apply within_update. intros s x _. apply Hf. Qed.
Lemma files_lift {A} (a : outcome A) : within files (lift a).
Proof. intros s b s'. rw /lift. destruct a; try done. by intros [= _ <-]. Qed.
Lemma files_upd_page p g : within files (upd_page p g).
Proof. by apply files_modify. Qed.
Lemma files_on_csch {A} (a : M sched A) : within files (on_csch a).
Proof. intros s b s'. rw /on_csch. destruct (a (csch s)) as [[? ?]| |]; try done. by intros [= _ <-]. Qed.
Hint Resolve files_lift files_upd_page files_on_csch : within.
Ltac files :=
  repeat first
    [ progress intros
    | solve [eauto with within]
    | apply within_bind; [exact _| |]
    | apply files_modify; intros; by split
    | apply files_update; intros; by split
    | match goal with |- within _ (match ?x with _ => _ end) => destruct x end ].
Lemma files_brelse p : within files (brelse p).
Proof.
  rw /brelse /brelse_page /remove_from_lookup_page_hash /remove_from_vnode_page_list /add_to_free_page_queue_tail /add_to_free_page_queue /get_page /page_hash. files.
Qed.
Hint Resolve files_brelse : within.
Lemma files_getblk v off : within files (getblk v off).
Proof.
  rw /getblk /take_free /remove_from_free_page_queue /remove_from_lookup_page_hash /remove_from_vnode_page_list /add_to_lookup_page_hash /add_to_vnode_page_list
    /find_blk /find_available_blk /clear_page /get_page /page_hash. files.
Qed.
Hint Resolve files_getblk : within.
Lemma files_bread v off : within files (bread v off).
Proof. rw /bread /get_page. files. Qed.
Lemma files_bread_zero v off : within files (bread_zero v off).
Proof. rw /bread_zero /clear_page. files. Qed.
Lemma files_bread_read p n bytes : within files (bread_read p n bytes).
Proof. rw /bread_read. files. Qed.
Lemma files_bwrite_written p n k : within files (bwrite_written p n k).
Proof. rw /bwrite_written. files. Qed.
End files.

Section protocol.
Context `{Threads, CacheConsts, IoConsts}.
Context (ps_pos : 0 < PAGE_SIZE).
Context (pr_inj : forall p q, page_rendez p = page_rendez q -> p = q).
Context (pr_list : forall p, page_rendez p <> page_list_rendez).
Implicit Types (s : cache) (p q v c t : nat) (pc : nat -> loc) (u : nat -> use) (f : nat -> Z -> Z) (m : Z -> Z) (o : io) (x : iox).

Lemma base_offset off : 0 <= off -> cluster_base off + cluster_offset off = off /\ cluster_base off mod PAGE_SIZE = 0 /\
  0 <= cluster_offset off < PAGE_SIZE /\ 0 <= cluster_base off.
Proof using All.
  intros Ho. rw /cluster_base /cluster_offset Z.rem_mod_nonneg //. pose proof (Z.mod_pos_bound off PAGE_SIZE ps_pos). pose proof (Z.mod_le off PAGE_SIZE Ho ps_pos).
  split_and!; try lia. rw Zminus_mod Z.mod_mod; [lia|]. by rw Z.sub_diag Zmod_0_l.
Qed.
Lemma on_cache_run {A} (a : M cache A) s m r s' : a s = Ok (r, s') -> on_cache a (mkFio s m) = Ok (r, mkFio s' m).
Proof using Type. intros E. by rw /on_cache /= E. Qed.

(** The pages the call uses while it waits. *)
Definition after o u : nat -> use := match o with IoReads p _ => <[p := Fresh]> u | IoWrites p _ _ => <[p := Held]> u | _ => u end.

(** ** Reading

    The call reads [n] bytes of the file [v] from [off] on to [dst]. *)
Section reading.
Context (ik : bool) (v : nat) (dst off n : Z) (m0 : Z -> Z).
Context (off_ok : 0 <= off) (n_ok : 0 <= n).
Context (buf_ok : forall a k, dst <= a -> 0 <= k -> a + k <= dst + n -> ik = true \/ uaccess a k = None).

(** What has been read is in the buffer, and nothing else has changed. *)
Definition rx_ok f m x : Prop :=
  x_buf x = dst + x_total x /\ x_off x = off + x_total x /\ 0 <= x_total x <= n /\ forall a, m a = put_bytes dst (x_total x) (f v) off m0 a.

Lemma xfer_bounds f m x : rx_ok f m x -> x_total x < n -> 0 < nbytes_xfer n x <= n - x_total x /\ cluster_offset (x_off x) + nbytes_xfer n x <= PAGE_SIZE.
Proof using All. intros (_ & Eo & Ht & _) Hn. destruct (base_offset (x_off x)) as (_ & _ & ? & _); [lia|]. rw /nbytes_xfer. lia. Qed.

Lemma read_page_spec s pc u f c p m x : cinv s pc u f -> runs s pc c -> u p = Held -> pg_vnode (page s p) = Some v -> file_offset (page s p) = cluster_base (x_off x) ->
  holds_block (page s p) f -> rx_ok f m x -> x_total x < n ->
  exists s' m', read_page ik p n x (mkFio s m) = Ok (Some (advance n x), mkFio s' m') /\ cinv s' pc (<[p := Free]> u) f /\ runs s' pc c /\
    rx_ok f m' (advance n x) /\ x_total x < x_total (advance n x).
Proof using All.
  intros Hi Hc Hu Hv Ho Hh Hx Hn. destruct (xfer_bounds f m x Hx Hn) as [Hk Hk2]. pose proof Hx as (Eb & Eo & Ht & Hm).
  destruct (base_offset (x_off x)) as (Hbo & Hal & Hco & _); [lia|].
  destruct (brelse_spec ps_pos pr_inj pr_list s pc u f c p Hi Hc Hu Hh) as (s' & Hr & Hi' & Hc').
  set k := nbytes_xfer n x in Hk Hk2 |- *. set d := data (page s p). set m' := put_bytes (x_buf x) k d (cluster_offset (x_off x)) m.
  exists s', m'. split.
  - rw /read_page {1}/mbind {1}/M_bind (on_cache_run _ s m (page s p) s) //.
    assert ((if ik then memcpy_out else copyout) (x_buf x) k d (cluster_offset (x_off x)) (mkFio s m) = Ok (true, mkFio s m')) as Hcp.
    { destruct (buf_ok (x_buf x) k) as [->|Hua]; try lia; [done|]. destruct ik; [done|]. by rw /copyout Hua. }
    by rw {1}/mbind {1}/M_bind -/k -/d Hcp {1}/mbind {1}/M_bind (on_cache_run _ s m' tt s').
  - split; [done|]. split; [done|]. rw /rx_ok /advance /= -/k. split_and!; try lia. intros a. rw -put_bytes_app; try lia. rw /m' Eb. apply put_bytes_ext; [|apply Hm].
    intros i Hi2. rw /d (Hh v _ Hv); [lia|]. rw Ho. f_equal. lia.
Qed.

(** What the call has done when it stops. *)
Definition read_out pc u f c (o : io) (y : fio) : Prop :=
  cinv (fcache y) pc (after o u) f /\
  match o with
  | IoDone r off' => runs (fcache y) pc c /\ exists x, rx_ok f (umem y) x /\ off' = x_off x /\
      (r = RVal n /\ x_total x = n \/ sb_abort (fcache y) v = true /\ o = no_page x)
  | IoSleeps x => rx_ok f (umem y) x
  | IoReads p x => u p = Free /\ pg_vnode (page (fcache y) p) = Some v /\ file_offset (page (fcache y) p) = cluster_base (x_off x) /\ rx_ok f (umem y) x /\ x_total x < n
  | IoWrites _ _ _ => False
  end.
Lemma read_loop_spec pc u f c : forall fuel s m x, cinv s pc u f -> runs s pc c -> rx_ok f m x -> n - x_total x <= Z.of_nat fuel ->
  exists o y, read_loop fuel ik v n x (mkFio s m) = Ok (o, y) /\ read_out pc u f c o y.
Proof using All.
  induction fuel as [|fuel IH]; intros s m x Hi Hc Hx Hf.
  { destruct Hx as (? & ? & Hn & ?). eexists _, _. simpl. destruct (Z.ltb_spec (x_total x) n); [lia|]. split; [reflexivity|]. split; [done|]. split; [done|].
    exists x. split; [done|]. split; [done|]. left. split; [f_equal|]; lia. }
  cbn [read_loop]. destruct (Z.ltb_spec (x_total x) n) as [Hn|Hn].
  2: { destruct Hx as (? & ? & Hn' & ?). eexists _, _. split; [reflexivity|]. split; [done|]. split; [done|]. exists x. split; [done|]. split; [done|]. left. split; [f_equal|]; lia. }
  pose proof Hx as (Eb & Eo & Ht & Hm). destruct (base_offset (x_off x)) as (Hbo & Hal & Hco & _); [lia|].
  destruct (bread_spec ps_pos pr_inj pr_list s pc u f c v (cluster_base (x_off x)) Hi Hc Hal) as (r & s1 & Hr & Hres).
  rw {1}/mbind {1}/M_bind (on_cache_run _ s m r s1) //. destruct r as [p| | |p].
  - destruct Hres as ((Hu & Hv & Ho & _) & Hh & Hi1 & Hc1).
    destruct (read_page_spec s1 pc (<[p := Held]> u) f c p m x Hi1 Hc1) as (s2 & m2 & Hr2 & Hi2 & Hc2 & Hx2 & Hlt); try done; [by reads|].
    rw {1}/mbind {1}/M_bind Hr2. apply IH; try done; [|lia]. apply (cinv_ext ps_pos pr_inj pr_list _ _ _ _ _ Hi2).
    intros q. destruct (decide (p = q)) as [<-|]; by reads.
  - destruct Hres as [-> Ha]. eexists _, _. split; [reflexivity|]. split; [done|]. split; [done|]. exists x. split_and!; try done. by right.
  - destruct Hres as [Hi1 _]. by eexists _, _.
  - destruct Hres as ((Hu & Hv & Ho & _) & _ & Hi1 & Hc1). eexists _, _. split; [reflexivity|]. by split_and!.
Qed.

Lemma read_from_spec pc u f c s m x : cinv s pc u f -> runs s pc c -> rx_ok f m x ->
  exists o y, read_from ik v n x (mkFio s m) = Ok (o, y) /\ read_out pc u f c o y.
Proof using All. intros Hi Hc Hx. apply read_loop_spec; try done. destruct Hx as (_ & _ & ? & _). lia. Qed.

(** The server's answer is right: it has the bytes of the block, or those up to
    the end of the file, after which the file is zero. *)
Definition right_answer s f p (xfered : Z) (bytes : Z -> Z) : Prop :=
  0 < xfered <= PAGE_SIZE /\ forall i, 0 <= i < PAGE_SIZE -> f v (file_offset (page s p) + i) = if i <? xfered then bytes i else 0.
Lemma read_answered_spec pc u f c s m x p xfered bytes : cinv s pc u f -> runs s pc c -> rx_ok f m x -> x_total x < n ->
  u p = Fresh -> pg_vnode (page s p) = Some v -> file_offset (page s p) = cluster_base (x_off x) -> right_answer s f p xfered bytes ->
  exists o y, read_answered ik v n p xfered bytes x (mkFio s m) = Ok (o, y) /\ read_out pc (<[p := Free]> u) f c o y.
Proof using All.
  intros Hi Hc Hx Hn Hu Hv Ho [Hxf Hb]. destruct (bread_read_spec ps_pos pr_inj pr_list s pc u f c p v xfered bytes Hi Hc Hu Hv) as (r & s1 & Hr & Hc1 & Hres); [lia|].
  destruct (Z.leb_spec xfered 0); [lia|]. destruct Hres as (-> & Hi1 & Hv1 & Ho1 & Hd1). rw /read_answered {1}/mbind {1}/M_bind (on_cache_run _ s m (Block p) s1) //.
  destruct (read_page_spec s1 pc (<[p := Held]> u) f c p m x Hi1 Hc1) as (s2 & m2 & Hr2 & Hi2 & Hc2 & Hx2 & Hlt); try done; [by reads|congruence| |].
  { intros w i. rw Hv1. intros [= <-] Hi'. rw Hd1 // Ho1. by rw Hb. }
  rw {1}/mbind {1}/M_bind Hr2. apply read_from_spec; try done. apply (cinv_ext ps_pos pr_inj pr_list _ _ _ _ _ Hi2).
  intros q. destruct (decide (p = q)) as [<-|]; by reads.
Qed.
Lemma read_failed_spec pc u f c s m x p xfered bytes : cinv s pc u f -> runs s pc c -> u p = Fresh -> pg_vnode (page s p) = Some v -> xfered <= 0 ->
  exists s', read_answered ik v n p xfered bytes x (mkFio s m) = Ok (no_page x, mkFio s' m) /\ cinv s' pc (<[p := Free]> u) f /\ runs s' pc c.
Proof using All.
  intros Hi Hc Hu Hv Hxf. destruct (bread_read_spec ps_pos pr_inj pr_list s pc u f c p v xfered bytes Hi Hc Hu Hv) as (r & s1 & Hr & Hc1 & Hres); [lia|].
  destruct (Z.leb_spec xfered 0); [|lia]. destruct Hres as [-> Hi1]. exists s1. by rw /read_answered {1}/mbind {1}/M_bind (on_cache_run _ s m NoRead s1).
Qed.

(** ** Executions: other threads use the cache while the call waits; they leave
    the file and the page of the call alone. *)
Definition keeps o (w w' : world) : Prop :=
  (forall i, wf w' v i = wf w v i) /\
  match o with IoReads p _ | IoWrites p _ _ => wu w' p = wu w p /\ page (wc w') p = page (wc w) p | _ => True end.
Inductive rstep : world * (Z -> Z) * io -> world * (Z -> Z) * io -> Prop :=
| r_other w w' m o : (forall r off', o <> IoDone r off') -> cstep w w' -> keeps o w w' -> rstep (w, m, o) (w', m, o)
| r_resumes s pc u f c m x o y :
    runs s pc c -> read_from ik v n x (mkFio s m) = Ok (o, y) -> rstep (mkW s pc u f, m, IoSleeps x) (mkW (fcache y) pc (after o u) f, umem y, o)
| r_answer s pc u f c m p x xfered bytes o y :
    runs s pc c -> right_answer s f p xfered bytes -> read_answered ik v n p xfered bytes x (mkFio s m) = Ok (o, y) ->
    rstep (mkW s pc u f, m, IoReads p x) (mkW (fcache y) pc (after o (<[p := Free]> u)) f, umem y, o).

(** What holds of the call at all times. *)
Definition rinv (f0 : nat -> Z -> Z) (z : world * (Z -> Z) * io) : Prop :=
  let '(w, m, o) := z in
  cinv (wc w) (wpc w) (wu w) (wf w) /\ (forall i, wf w v i = f0 v i) /\
  match o with
  | IoDone r off' => exists x, rx_ok f0 m x /\ off' = x_off x /\ (r = RVal n /\ x_total x = n \/ sb_abort (wc w) v = true /\ o = no_page x)
  | IoSleeps x => rx_ok f0 m x
  | IoReads p x => wu w p = Fresh /\ pg_vnode (page (wc w) p) = Some v /\ file_offset (page (wc w) p) = cluster_base (x_off x) /\ rx_ok f0 m x /\ x_total x < n
  | IoWrites _ _ _ => False
  end.
Lemma rx_ok_file f f0 m x : (forall i, f v i = f0 v i) -> rx_ok f m x <-> rx_ok f0 m x.
Proof using All.
  intros E. rw /rx_ok. split; intros (? & ? & ? & Hm); (split_and!; [done|done|lia|lia|]); intros a; rw Hm; apply put_bytes_ext; try done; intros k _; by rw E.
Qed.
Lemma read_out_rinv pc u f f0 c o y : (forall i, f v i = f0 v i) -> read_out pc u f c o y -> rinv f0 (mkW (fcache y) pc (after o u) f, umem y, o).
Proof using All.
  intros E [Hi Ho]. split; [done|]. split; [done|]. destruct o as [r off'|x|p x|]; simpl in *; try done.
  - destruct Ho as (_ & x & Hx & -> & Hr). exists x. by rw -(rx_ok_file f).
  - by rw -(rx_ok_file f).
  - destruct Ho as (? & ? & ? & ? & ?). reads. by rw -(rx_ok_file f).
Qed.
Lemma rstep_rinv f0 z z' : rstep z z' -> rinv f0 z -> rinv f0 z'.
Proof using All.
  destruct 1 as [w w' m o Hnd Hs Hk|s pc u f c m x o y Hc Hr|s pc u f c m p x xf by_ o y Hc Hb Hr]; intros (Hi & Ef & Hz); simpl in *.
  - destruct Hk as [Hf Hk]. split; [by apply (cstep_cinv ps_pos pr_inj pr_list _ _ Hs)|]. split; [intros i; by rw Hf|].
    destruct o as [r off'|x|p x|]; try done; [by destruct (Hnd r off')|]. destruct Hk as [-> ->]. done.
  - destruct (read_from_spec pc u f c s m x Hi Hc) as (o' & y' & E & Hout); [by rw (rx_ok_file f f0)|]. rw Hr in E. injection E as <- <-. by apply (read_out_rinv _ _ _ _ c).
  - destruct Hz as (Hu & Hv & Ho & Hx & Hn).
    destruct (read_answered_spec pc u f c s m x p xf by_ Hi Hc) as (o' & y' & E & Hout); try done; [by rw (rx_ok_file f f0)|]. rw Hr in E. injection E as <- <-.
    by apply (read_out_rinv _ _ _ _ c).
Qed.
Lemma reach_rinv f0 z z' : rtc rstep z z' -> rinv f0 z -> rinv f0 z'.
Proof using All. induction 1 as [|z1 z2 z3 H12 _ IH]; [done|]. intros Hz. by apply IH, (rstep_rinv f0 z1). Qed.
End reading.

(** The number of bytes there are to read. *)
Definition available s v (off sz : Z) : Z := Z.max 0 (Z.min sz (vn_size s v - off)).

(** C7: Reading a file, when less than 4 GB of it are left at the offset and
    the part of the buffer that is needed can be written. Whatever other
    threads do with the cache while the call waits, as long as they leave the
    file alone: when the call is over, the buffer holds the bytes of the file
    from the offset on, nothing else in memory has changed and the offset has
    moved past them; all the bytes asked for that the file has, unless its file
    system was aborted, when the call returns those it has got, or EIO if there
    are none. At every point where it waits the call can go on: it never
    faults, and a failed read of the server ends it. A buffer that cannot be
    written is [read_fault_keeps_page]. *)
Theorem read_from_file_correct ik v dst sz off s pc u f c m :
  cinv s pc u f -> runs s pc c -> 0 <= off -> 0 <= sz < 2 ^ 32 -> vn_size s v - off < 2 ^ 32 ->
  let n := available s v off sz in
  (forall a k, dst <= a -> 0 <= k -> a + k <= dst + n -> ik = true \/ uaccess a k = None) ->
  exists o y, read_from_file v dst sz off ik (mkFio s m) = Ok (o, y) /\
  forall w m' o', rtc (rstep ik v n) (mkW (fcache y) pc (after o u) f, umem y, o) (w, m', o') ->
    cinv (wc w) (wpc w) (wu w) (wf w) /\
    (forall r off', o' = IoDone r off' -> exists k, 0 <= k <= n /\ off' = off + k /\ (forall a, m' a = put_bytes dst k (f v) off m a) /\
       (r = RVal n /\ k = n \/ sb_abort (wc w) v = true /\ r = if 0 <? k then RVal k else RErr EIO)) /\
    (forall x c', o' = IoSleeps x -> runs (wc w) (wpc w) c' -> exists o2 y2, read_from ik v n x (mkFio (wc w) m') = Ok (o2, y2)) /\
    (forall p x c' xfered bytes, o' = IoReads p x -> runs (wc w) (wpc w) c' ->
       (right_answer v (wc w) (wf w) p xfered bytes -> exists o2 y2, read_answered ik v n p xfered bytes x (mkFio (wc w) m') = Ok (o2, y2)) /\
       (xfered <= 0 -> exists y2, read_answered ik v n p xfered bytes x (mkFio (wc w) m') = Ok (no_page x, y2))).
Proof using All.
  intros Hi Hc Hoff Hsz Hsize n Hbuf. assert (0 <= n) as Hn by (rw /n /available; lia).
  assert (exists o y, read_from_file v dst sz off ik (mkFio s m) = Ok (o, y) /\ read_out v dst off n m pc u f c o y) as (o & y & Hr & Hout).
  { assert (rx_ok v dst off n m f m (mkIox dst off 0)) as Hx. { split_and!; simpl; try lia. intros a. by rw put_bytes_0. }
    rw /read_from_file {1}/mbind {1}/M_bind {1}/gets. destruct (Z.leb_spec (vn_size (fcache (mkFio s m)) v) off) as [Hle|Hle]; simpl in Hle.
    - assert (n = 0) as En by (rw /n /available; lia). eexists _, _. split; [reflexivity|]. split; [done|]. split; [done|]. eexists. split; [exact Hx|]. split; [done|].
      left. by rw En.
    - assert (nbytes_to_read (vn_size (fcache (mkFio s m)) v) off sz = n) as ->. { rw /nbytes_to_read /n /available /= wrap32_id; [rw /u32; lia|]. lia. }
      by apply read_from_spec. }
  exists o, y. split; [done|]. intros w m' o' Hs.
  pose proof (reach_rinv ik v dst off n m Hoff Hn Hbuf f _ _ Hs (read_out_rinv ik v dst off n m Hoff Hn Hbuf _ _ _ _ _ _ _ ltac:(done) Hout)) as (Hi' & Ef & Hz). split; [done|]. split_and!.
  - intros r off' ->. destruct Hz as (x & (Eb & Eo & Ht & Hm) & -> & Hr'). exists (x_total x). split_and!; try lia; try done.
    destruct Hr' as [?|[? E]]; [by left|right]. split; [done|]. rw /no_page in E. by injection E.
  - intros x c' -> Hc'. destruct (read_from_spec ik v dst off n m Hoff Hn Hbuf (wpc w) (wu w) (wf w) c' (wc w) m' x Hi' Hc') as (o2 & y2 & ? & _); [by rw (rx_ok_file ik v dst off n m Hoff Hn Hbuf (wf w) f)|by exists o2, y2].
  - intros p x c' xfered bytes -> Hc'. destruct Hz as (Hu & Hv & Ho & Hx & Hlt). split; intros Hans.
    + destruct (read_answered_spec ik v dst off n m Hoff Hn Hbuf (wpc w) (wu w) (wf w) c' (wc w) m' x p xfered bytes) as (o2 & y2 & ? & _); try done; [by rw (rx_ok_file ik v dst off n m Hoff Hn Hbuf (wf w) f)|by exists o2, y2].
    + destruct (read_failed_spec ik v dst off n m Hoff Hn Hbuf (wpc w) (wu w) (wf w) c' (wc w) m' x p xfered bytes) as (s' & ? & _); try done. by eexists (mkFio s' m').
Qed.

(** ** Writing

    The call writes [n] bytes from [src] on to the file [v] at [off]; [g] is the
    file before the call, and [size0] its size. *)
Section writing.
Context (v : nat) (src off n size0 : Z) (g : Z -> Z) (m : Z -> Z).
Context (off_ok : 0 <= off) (n_ok : 0 <= n) (size_ok : 0 <= size0).
Context (buf_ok : forall a k, src <= a -> 0 <= k -> a + k <= src + n -> uaccess a k = None).
Context (off_t_ok : forall z, 0 <= z <= off + n -> to_off_t z = z).
Context (tail_ok : forall i, size0 <= i -> g i = 0).

(** The file and its size when [t] bytes are written. *)
Definition wfile (t : Z) : Z -> Z := put_bytes off t m src g.
Definition wsize (t : Z) : Z := if t =? 0 then size0 else Z.max size0 (off + t).
Lemma wfile_tail (t : Z) i : 0 <= t -> wsize t <= i -> wfile t i = 0.
Proof using All.
  intros Ht Hs. rw /wfile /put_bytes. rw /wsize in Hs. destruct (Z.eqb_spec t 0), (Z.leb_spec off i), (Z.ltb_spec i (off + t)); simpl; try lia; apply tail_ok; lia.
Qed.
Lemma wfile_step (t : Z) k i : 0 <= t -> 0 <= k -> wfile (t + k) i = put_bytes (off + t) k m (src + t) (wfile t) i.
Proof using All. intros Ht Hk. rw /wfile. by rw put_bytes_app. Qed.
Lemma wsize_pos (t : Z) : 0 <= t -> 0 <= wsize t.
Proof using All. intros Ht. rw /wsize. destruct (t =? 0); lia. Qed.

Definition wx_at s x : Prop := x_buf x = src + x_total x /\ x_off x = off + x_total x /\ 0 <= x_total x <= n /\ vn_size s v = wsize (x_total x).
Definition wx_ok s f x : Prop := wx_at s x /\ forall i, f v i = wfile (x_total x) i.
(** While the page [p] is written: only its first [w] bytes are not yet in the
    file. *)
Definition writing_ok s f p (w : Z) x : Prop :=
  wx_at s x /\ 0 < x_total x /\ pg_vnode (page s p) = Some v /\ 0 <= w <= PAGE_SIZE /\ bwrite p s = Ok (w, s) /\
  (forall i, ~ (file_offset (page s p) <= i < file_offset (page s p) + w) -> f v i = wfile (x_total x) i) /\
  (forall i, 0 <= i < PAGE_SIZE -> data (page s p) i = wfile (x_total x) (file_offset (page s p) + i)).

Lemma cinv_size s pc u f (z : nat -> Z) : cinv s pc u f -> cinv (s <| vn_size := z |>) pc u f.
Proof using All. intros [K1 [] K3 K4]. by split. Qed.
(** The size after the bytes up to [off'] are in the file. *)
Definition grown (off' : Z) s : cache := if vn_size s v <? off' then s <| vn_size ::= fun z => <[v := off']> z |> else s.
Lemma grown_spec s pc u f c off' : cinv s pc u f -> runs s pc c ->
  cinv (grown off' s) pc u f /\ runs (grown off' s) pc c /\ vn_size (grown off' s) v = Z.max (vn_size s v) off' /\ page (grown off' s) = page s /\ sb_abort (grown off' s) = sb_abort s.
Proof using All.
  intros Hi Hc. rw /grown. destruct (Z.ltb_spec (vn_size s v) off'); [|split_and!; try done; lia]. split_and!; try done; [by apply cinv_size|]. simpl. reads. lia.
Qed.

Lemma write_page_spec s pc u f c p x : cinv s pc u f -> runs s pc c -> u p = Held -> pg_vnode (page s p) = Some v -> file_offset (page s p) = cluster_base (x_off x) ->
  (forall i, 0 <= i < PAGE_SIZE -> data (page s p) i = wfile (x_total x) (file_offset (page s p) + i)) -> wx_ok s f x -> x_total x < n ->
  exists s' w, write_page v p n x (mkFio s m) = Ok (IoWrites p w (advance n x), mkFio s' m) /\ cinv s' pc u f /\ writing_ok s' f p w (advance n x) /\ sb_abort s' = sb_abort s.
Proof using All.
  intros Hi Hc Hu Hv Ho Hd [(Eb & Eo & Ht & Es) Hf] Hn. destruct (base_offset (x_off x)) as (Hbo & Hal & Hco & Hb0); [lia|].
  set k := nbytes_xfer n x. assert (0 < k <= n - x_total x /\ cluster_offset (x_off x) + k <= PAGE_SIZE) as [Hk Hk2] by (rw /k /nbytes_xfer; lia).
  set d := put_bytes (cluster_offset (x_off x)) k m (x_buf x). pose proof (p_flags _ _ _ (c_pages _ _ _ _ Hi) p) as Hfl. rw Hu in Hfl.
  destruct (use_page ps_pos pr_inj pr_list s pc u f c p Held (fun y => y <| data ::= d |>) Hi Hc) as (s1 & Hr1 & Hi1 & Hc1 & (_ & Ez1 & Ea1) & E1 & _); [by right|by right|done|done|].
  apply (cinv_ext ps_pos pr_inj pr_list _ _ _ u) in Hi1; [|intros q; by destruct (decide (p = q)) as [<-|]; reads].
  destruct (grown_spec s1 pc u f c (x_off x + k) Hi1 Hc1) as (Hi2 & Hc2 & Ez2 & Ep2 & Ea2). set s2 := grown (x_off x + k) s1 in Hi2 Hc2 Ez2 Ep2 Ea2.
  assert (page s2 p = (page s p) <| data ::= d |>) as E2 by (by rw Ep2).
  assert (vn_size s2 v = wsize (x_total x + k)) as Es2. { rw Ez2 Ez1 Es /wsize. destruct (Z.eqb_spec (x_total x) 0), (Z.eqb_spec (x_total x + k) 0); lia. }
  destruct (bwrite_spec ps_pos pr_inj pr_list s2 pc u f c p v Hi2 Hu) as (w & Hw & Hw1 & Hw2 & Hw3); [by rw E2|rw Es2; apply wsize_pos; lia|].
  exists s2, w. split; [|split; [done|split; [|congruence]]].
  - rw /write_page {1}/mbind {1}/M_bind /copyin -/k buf_ok; try lia. rw {1}/mbind {1}/M_bind (on_cache_run _ s m tt s1) // {1}/mret {1}/M_ret.
    rw {1}/mbind {1}/M_bind (on_cache_run _ s1 m tt s2); [done|]. by rw {1}/mbind {1}/M_bind (on_cache_run _ s2 m w s2).
  - assert (forall i, wfile (x_total x + k) (cluster_base (x_off x) + i) = d (fun j => wfile (x_total x) (cluster_base (x_off x) + j)) i) as Hnew.
    { intros i. rw wfile_step; try lia. rw /d /put_bytes Eb. destruct (Z.leb_spec (off + x_total x) (cluster_base (x_off x) + i)), (Z.ltb_spec (cluster_base (x_off x) + i) (off + x_total x + k)),
        (Z.leb_spec (cluster_offset (x_off x)) i), (Z.ltb_spec i (cluster_offset (x_off x) + k)); simpl; try lia; try done. f_equal. lia. }
    rw /writing_ok /wx_at E2 /advance /= -/k Ho. rw E2 /= Ho Es2 in Hw2 Hw3. split_and!; try lia; try done.
    + intros i Hno. rw Hf wfile_step; try lia. rw /put_bytes. destruct (Z.leb_spec (off + x_total x) i), (Z.ltb_spec i (off + x_total x + k)); simpl; try done. exfalso. apply Hno.
      assert (off + x_total x + k <= wsize (x_total x + k)) by (rw /wsize; destruct (Z.eqb_spec (x_total x + k) 0); lia).
      destruct (Z.lt_ge_cases (wsize (x_total x + k)) (cluster_base (x_off x) + PAGE_SIZE)); [rw Hw3|rw Hw2]; lia.
    + intros i Hi'. rw Hnew /d. apply put_bytes_ext; [done|]. by rw Hd // Ho.
Qed.

Definition write_out pc u f o (y : fio) : Prop :=
  umem y = m /\ sb_abort (fcache y) v = false /\ cinv (fcache y) pc (after o u) f /\
  match o with
  | IoDone r off' => exists x, wx_ok (fcache y) f x /\ x_total x = n /\ r = RVal n /\ off' = x_off x
  | IoSleeps x => wx_ok (fcache y) f x
  | IoReads p x => u p = Free /\ pg_vnode (page (fcache y) p) = Some v /\ file_offset (page (fcache y) p) = cluster_base (x_off x) /\ wx_ok (fcache y) f x /\ x_total x < n
  | IoWrites p w x => u p = Free /\ writing_ok (fcache y) f p w x
  end.
Lemma wx_files s s' f x : files s s' -> wx_ok s f x -> wx_ok s' f x.
Proof using All. intros [E _] [(? & ? & ? & ?) ?]. rw /wx_ok /wx_at E. done. Qed.
Lemma write_turn_spec pc u f c s x : cinv s pc u f -> runs s pc c -> wx_ok s f x -> sb_abort s v = false ->
  exists o y, write_turn v n x (mkFio s m) = Ok (o, y) /\ write_out pc u f o y.
Proof using All.
  intros Hi Hc Hx Ha. rw /write_turn. pose proof Hx as [(Eb & Eo & Ht & Es) Hf]. destruct (Z.ltb_spec (x_total x) n) as [Hn|Hn].
  2: { eexists _, _. split; [reflexivity|]. split_and!; try done. exists x. split_and!; try done; [lia|f_equal; lia]. }
  destruct (base_offset (x_off x)) as (Hbo & Hal & Hco & Hb0); [lia|]. set base := cluster_base (x_off x) in Hbo Hal Hb0 |- *.
  rw off_t_ok; [lia|]. rw {1}/mbind {1}/M_bind {1}/gets. simpl. rw Es.
  assert (forall p s1, u p = Free -> pg_vnode (page s1 p) = Some v -> file_offset (page s1 p) = base -> files s s1 -> cinv s1 pc (<[p := Held]> u) f -> runs s1 pc c ->
    (forall i, 0 <= i < PAGE_SIZE -> data (page s1 p) i = wfile (x_total x) (base + i)) ->
    exists o y, write_page v p n x (mkFio s1 m) = Ok (o, y) /\ write_out pc u f o y) as Hgo.
  { intros p s1 Hu Hv Ho Hfs Hi1 Hc1 Hd. destruct (write_page_spec s1 pc (<[p := Held]> u) f c p x Hi1 Hc1) as (s2 & w & Hr & Hi2 & Hw & Ea); try done; [by reads|by rw Ho|by apply (wx_files s)|].
    eexists _, _. split; [exact Hr|]. split_and!; try done. simpl. rw Ea. by rw (proj2 Hfs). }
  destruct (Z.ltb_spec base (wsize (x_total x))) as [Hlt|Hge].
  - destruct (bread_spec ps_pos pr_inj pr_list s pc u f c v base Hi Hc Hal) as (r & s1 & Hr & Hres). pose proof (files_bread v base s r s1 Hr) as Hfs.
    rw {1}/mbind {1}/M_bind (on_cache_run _ s m r s1) //. destruct r as [p| | |p].
    + destruct Hres as ((Hu & Hv & Ho & _) & Hh & Hi1 & Hc1). apply (Hgo p s1); try done. intros i Hi'. by rw (Hh v i Hv Hi') Ho Hf.
    + destruct Hres as [_ ?]. congruence.
    + destruct Hres as [Hi1 _]. eexists _, _. split; [reflexivity|]. split_and!; try done; [by rw /= (proj2 Hfs)|]. by apply (wx_files s).
    + destruct Hres as ((Hu & Hv & Ho & _) & _ & Hi1 & Hc1). eexists _, _. split; [reflexivity|]. split; [done|]. split; [by rw /= (proj2 Hfs)|]. split; [done|].
      split_and!; try done. by apply (wx_files s).
  - destruct (bread_zero_spec ps_pos pr_inj pr_list s pc u f c v base Hi Hc Hal Ha) as (r & s1 & Hr & Hres). pose proof (files_bread_zero v base s r s1 Hr) as Hfs.
    rw {1}/mbind {1}/M_bind (on_cache_run _ s m r s1) //. destruct r as [p| | |p]; try done.
    + destruct Hres as ((Hu & Hv & Ho & _) & Hz & Hi1 & Hc1). apply (Hgo p s1); try done. intros i Hi'. rw Hz // wfile_tail //; lia.
    + destruct Hres as [Hi1 _]. eexists _, _. split; [reflexivity|]. split_and!; try done; [by rw /= (proj2 Hfs)|]. by apply (wx_files s).
Qed.
Lemma write_read_spec pc u f c s x p xfered bytes : cinv s pc u f -> runs s pc c -> wx_ok s f x -> sb_abort s v = false -> x_total x < n ->
  u p = Fresh -> pg_vnode (page s p) = Some v -> file_offset (page s p) = cluster_base (x_off x) -> right_answer v s f p xfered bytes ->
  exists o y, write_read v n p xfered bytes x (mkFio s m) = Ok (o, y) /\ write_out pc (<[p := Free]> u) f o y.
Proof using All.
  intros Hi Hc Hx Ha Hn Hu Hv Ho [Hxf Hb]. destruct (bread_read_spec ps_pos pr_inj pr_list s pc u f c p v xfered bytes Hi Hc Hu Hv) as (r & s1 & Hr & Hc1 & Hres); [lia|].
  pose proof (files_bread_read p xfered bytes s r s1 Hr) as Hfs. destruct (Z.leb_spec xfered 0); [lia|]. destruct Hres as (-> & Hi1 & Hv1 & Ho1 & Hd1).
  rw /write_read {1}/mbind {1}/M_bind (on_cache_run _ s m (Block p) s1) //.
  destruct (write_page_spec s1 pc (<[p := Held]> u) f c p x Hi1 Hc1) as (s2 & w & Hr2 & Hi2 & Hw & Ea); try done; [by reads|congruence| |by apply (wx_files s)|].
  { intros i Hi'. rw Hd1 // Ho1 -(proj2 Hx). by rw Hb. }
  eexists _, _. split; [exact Hr2|]. split; [done|]. split; [by rw /= Ea (proj2 Hfs)|]. split; [|by split; [reads|]].
  apply (cinv_ext ps_pos pr_inj pr_list _ _ _ _ _ Hi2). intros q. simpl. destruct (decide (p = q)) as [<-|]; by reads.
Qed.
(** The server has stored the bytes of the page. *)
Definition stored s f f' p (w : Z) : Prop :=
  (forall v' i, ~ in_block s p v w v' i -> f' v' i = f v' i) /\ (forall i, 0 <= i < w -> f' v (file_offset (page s p) + i) = data (page s p) i).
Lemma write_answered_spec pc u f f' c s x p w : cinv s pc u f -> runs s pc c -> sb_abort s v = false -> u p = Held -> writing_ok s f p w x -> stored s f f' p w ->
  exists o y, write_answered v n p w w x (mkFio s m) = Ok (o, y) /\ write_out pc (<[p := Free]> u) f' o y.
Proof using All.
  intros Hi Hc Ha Hu ((Eb & Eo & Ht & Es) & Ht0 & Hv & Hw & _ & Hf & Hd) [Hf1 Hf2].
  destruct (bwrite_written_ok ps_pos pr_inj pr_list s pc u f f' c p v w Hi Hc Hu Hv Hf1) as (s1 & Hr & Hi1 & Hc1); [lia|done| |].
  { intros i Hi'. rw Hd; [lia|]. apply Hf. lia. }
  pose proof (files_bwrite_written p w w s _ s1 Hr) as Hfs. rw /write_answered {1}/mbind {1}/M_bind (on_cache_run _ s m (RVal 0) s1) //.
  apply (write_turn_spec pc (<[p := Free]> u) f' c); try done; [|by rw (proj2 Hfs)]. split; [rw /wx_at (proj1 Hfs); done|].
  intros i. destruct (decide (file_offset (page s p) <= i < file_offset (page s p) + w)) as [Hin|Hno].
  - replace i with (file_offset (page s p) + (i - file_offset (page s p))) by lia. rw Hf2; [lia|]. apply Hd. lia.
  - rw Hf1; [intros [_ ?]; done|]. by apply Hf.
Qed.

Inductive wstep : world * io -> world * io -> Prop :=
| w_other w w' o :
    (forall r off', o <> IoDone r off') -> cstep w w' -> keeps v o w w' -> vn_size (wc w') v = vn_size (wc w) v -> sb_abort (wc w') v = sb_abort (wc w) v -> wstep (w, o) (w', o)
| w_resumes s pc u f c x o y :
    runs s pc c -> write_turn v n x (mkFio s m) = Ok (o, y) -> wstep (mkW s pc u f, IoSleeps x) (mkW (fcache y) pc (after o u) f, o)
| w_read s pc u f c p x xfered bytes o y :
    runs s pc c -> right_answer v s f p xfered bytes -> write_read v n p xfered bytes x (mkFio s m) = Ok (o, y) ->
    wstep (mkW s pc u f, IoReads p x) (mkW (fcache y) pc (after o (<[p := Free]> u)) f, o)
| w_written s pc u f f' c p w x o y :
    runs s pc c -> stored s f f' p w -> write_answered v n p w w x (mkFio s m) = Ok (o, y) ->
    wstep (mkW s pc u f, IoWrites p w x) (mkW (fcache y) pc (after o (<[p := Free]> u)) f', o).

Definition winv (z : world * io) : Prop :=
  let '(w, o) := z in
  cinv (wc w) (wpc w) (wu w) (wf w) /\ sb_abort (wc w) v = false /\
  match o with
  | IoDone r off' => exists x, wx_ok (wc w) (wf w) x /\ x_total x = n /\ r = RVal n /\ off' = x_off x
  | IoSleeps x => wx_ok (wc w) (wf w) x
  | IoReads p x => wu w p = Fresh /\ pg_vnode (page (wc w) p) = Some v /\ file_offset (page (wc w) p) = cluster_base (x_off x) /\ wx_ok (wc w) (wf w) x /\ x_total x < n
  | IoWrites p w' x => wu w p = Held /\ writing_ok (wc w) (wf w) p w' x
  end.
Lemma write_out_winv pc u f o y : write_out pc u f o y -> winv (mkW (fcache y) pc (after o u) f, o).
Proof using All.
  intros (Hm & Ha & Hi & Ho). split; [done|]. split; [done|]. destruct o as [r off'|x|p x|p w x]; simpl in *; try done.
  - destruct Ho as (? & ? & ? & ? & ?). by reads.
  - destruct Ho as (? & ?). by reads.
Qed.
Lemma wstep_winv z z' : wstep z z' -> winv z -> winv z'.
Proof using All.
  destruct 1 as [w w' o Hnd Hs Hk Ez Ea|s pc u f c x o y Hc Hr|s pc u f c p x xf by_ o y Hc Hb Hr|s pc u f f' c p w x o y Hc Hst Hr]; intros (Hi & Ha & Hz); simpl in *.
  - destruct Hk as [Hf Hk]. split; [by apply (cstep_cinv ps_pos pr_inj pr_list _ _ Hs)|]. split; [congruence|].
    assert (forall x, wx_ok (wc w) (wf w) x -> wx_ok (wc w') (wf w') x) as Hwx. { intros x [(? & ? & ? & ?) Hff]. rw /wx_ok /wx_at Ez. split; [done|]. intros i. by rw Hf. }
    destruct o as [r off'|x|p x|p k x]; [by destruct (Hnd r off')|by apply Hwx| |]; destruct Hk as [-> Ep].
    + destruct Hz as (? & ? & ? & ? & ?). rw Ep. split_and!; try done. by apply Hwx.
    + destruct Hz as (? & (? & ? & ? & ?) & ? & ? & ? & Hbw & Hff & ?). split; [done|]. rw /writing_ok /wx_at Ez Ep. split_and!; try done; try lia; [|intros i Hno; rw Hf; by apply Hff].
      rw /bwrite {1}/mbind {1}/M_bind {1}/get_page {1}/gets in Hbw. rw /bwrite {1}/mbind {1}/M_bind {1}/get_page {1}/gets Ep. destruct (pg_vnode (page (wc w) p)) as [v'|] eqn:Ev; [|done].
      assert (v' = v) as -> by congruence. rw {1}/mbind {1}/M_bind {1}/gets in Hbw. rw {1}/mbind {1}/M_bind {1}/gets Ez. injection Hbw as Hbw. by rw Hbw.
  - destruct (write_turn_spec pc u f c s x Hi Hc) as (o' & y' & E & Hout); try done. rw Hr in E. injection E as <- <-. by apply write_out_winv.
  - destruct Hz as (Hu & Hv & Ho & Hx & Hn). destruct (write_read_spec pc u f c s x p xf by_ Hi Hc) as (o' & y' & E & Hout); try done. rw Hr in E. injection E as <- <-. by apply write_out_winv.
  - destruct Hz as (Hu & Hw). destruct (write_answered_spec pc u f f' c s x p w Hi Hc) as (o' & y' & E & Hout); try done. rw Hr in E. injection E as <- <-. by apply write_out_winv.
Qed.
Lemma reach_winv z z' : rtc wstep z z' -> winv z -> winv z'.
Proof using All. induction 1 as [|z1 z2 z3 H12 _ IH]; [done|]. intros Hz. by apply IH, (wstep_winv z1). Qed.
End writing.

(** C6: Writing a file on a file system that is not being aborted, from a
    buffer that can be read, to offsets that an off_t can hold, whatever other
    threads do with the cache as long as they leave the file alone, and with a
    server that stores what it is sent and answers reads rightly: when the call
    is over it has returned the number of bytes asked for, the file holds them
    at the offset and is otherwise unchanged, its size is extended to the end
    of what was written if that is further, what lies beyond is zero, and the
    offset has moved. At every point where it waits the call can go on; it
    never faults. A server that refuses a write goes unnoticed
    ([write_errors_ignored]). *)
Theorem write_to_file_correct v src sz off s pc u f c m :
  cinv s pc u f -> runs s pc c -> 0 <= off -> 0 <= sz -> sb_abort s v = false -> 0 <= vn_size s v ->
  (forall i, vn_size s v <= i -> f v i = 0) ->
  (forall a k, src <= a -> 0 <= k -> a + k <= src + sz -> uaccess a k = None) -> (forall z, 0 <= z <= off + sz -> to_off_t z = z) ->
  exists o y, write_to_file v src sz off (mkFio s m) = Ok (o, y) /\
  forall w o', rtc (wstep v sz m) (mkW (fcache y) pc (after o u) f, o) (w, o') ->
    cinv (wc w) (wpc w) (wu w) (wf w) /\
    (forall r off', o' = IoDone r off' -> r = RVal sz /\ off' = off + sz /\ (forall i, wf w v i = put_bytes off sz m src (f v) i) /\
       vn_size (wc w) v = (if sz =? 0 then vn_size s v else Z.max (vn_size s v) (off + sz)) /\ (forall i, vn_size (wc w) v <= i -> wf w v i = 0)) /\
    (forall x c', o' = IoSleeps x -> runs (wc w) (wpc w) c' -> exists o2 y2, write_turn v sz x (mkFio (wc w) m) = Ok (o2, y2)) /\
    (forall p x c' xfered bytes, o' = IoReads p x -> runs (wc w) (wpc w) c' -> right_answer v (wc w) (wf w) p xfered bytes ->
       exists o2 y2, write_read v sz p xfered bytes x (mkFio (wc w) m) = Ok (o2, y2)) /\
    (forall p k x c' f', o' = IoWrites p k x -> runs (wc w) (wpc w) c' -> stored v (wc w) (wf w) f' p k ->
       exists o2 y2, write_answered v sz p k k x (mkFio (wc w) m) = Ok (o2, y2)).
Proof using All.
  intros Hi Hc Hoff Hsz Ha Hs0 Htail Hbuf Hot.
  destruct (write_turn_spec v src off sz (vn_size s v) (f v) m Hoff Hsz Hs0 Hbuf Hot Htail pc u f c s (mkIox src off 0) Hi Hc) as (o & y & Hr & Hout); [|done|].
  { split; [split_and!; simpl; try done; lia|]. intros i. by rw /wfile put_bytes_0. }
  exists o, y. split; [exact Hr|]. intros w o' Hs.
  pose proof (reach_winv v src off sz (vn_size s v) (f v) m Hoff Hsz Hs0 Hbuf Hot Htail _ _ Hs (write_out_winv v src off sz (vn_size s v) (f v) m Hoff Hsz Hs0 Hbuf Hot Htail _ _ _ _ _ Hout)) as (Hi' & Ha' & Hz).
  split; [done|]. split_and!.
  - intros r off' ->. destruct Hz as (x & [(Eb & Eo & Ht & Es) Hf] & Ex & -> & ->). rw Ex in Eo Es Hf. split_and!; try done. rw Es. intros i Hi2. rw Hf.
    apply (wfile_tail v src off sz (vn_size s v) (f v) m Hoff Hsz Hs0 Hbuf Hot Htail); done.
  - intros x c' -> Hc'. destruct (write_turn_spec v src off sz (vn_size s v) (f v) m Hoff Hsz Hs0 Hbuf Hot Htail (wpc w) (wu w) (wf w) c' (wc w) x Hi' Hc' Hz Ha') as (o2 & y2 & ? & _). by exists o2, y2.
  - intros p x c' xfered bytes -> Hc' Hans. destruct Hz as (Hu & Hv & Ho & Hx & Hlt).
    destruct (write_read_spec v src off sz (vn_size s v) (f v) m Hoff Hsz Hs0 Hbuf Hot Htail (wpc w) (wu w) (wf w) c' (wc w) x p xfered bytes) as (o2 & y2 & ? & _); try done. by exists o2, y2.
  - intros p k x c' f' -> Hc' Hst. destruct Hz as (Hu & Hw).
    destruct (write_answered_spec v src off sz (vn_size s v) (f v) m Hoff Hsz Hs0 Hbuf Hot Htail (wpc w) (wu w) (wf w) f' c' (wc w) x p k) as (o2 & y2 & ? & _); try done. by exists o2, y2.
Qed.

(** An error of the server is not reported: the bytes count as written. *)
Theorem write_errors_ignored v n p w xfered x s pc u f c m :
  cinv s pc u f -> runs s pc c -> u p = Held -> pg_vnode (page s p) = Some v -> xfered <> w -> x_total x = n ->
  exists y, write_answered v n p w xfered x (mkFio s m) = Ok (IoDone (RVal n) (x_off x), y).
Proof using All.
  intros Hi Hc Hu Hv Hne Hn. destruct (bwrite_written_failed ps_pos pr_inj pr_list s pc u f f c p v w xfered Hi Hc Hu Hv Hne) as (s1 & Hr & _); [done|].
  eexists. rw /write_answered {1}/mbind {1}/M_bind (on_cache_run _ s m (RVal (-1)) s1) // /write_turn Hn Z.ltb_irrefl. reflexivity.
Qed.
(** A fault in the buffer ends the call with the page still in use, for ever. *)
Theorem read_fault_keeps_page p n x s m k :
  uaccess (x_buf x) (nbytes_xfer n x) = Some k ->
  exists m', read_page false p n x (mkFio s m) = Ok (None, mkFio s m').
Proof using All.
  intros Hk. eexists. rw /read_page {1}/mbind {1}/M_bind (on_cache_run _ s m (page s p) s) // {1}/mbind {1}/M_bind /copyout Hk. reflexivity.
Qed.
End protocol.

(** ** Witnesses: the file of [CacheSample] has 6 bytes, 10 to 15 *)
Module IoSample.
Definition consts : IoConsts := {| uaccess := fun _ _ => None; to_off_t := fun z => z |}.
Definition mem (a : Z) : Z := a + 1.
Definition result {A S} (d : A) (o : outcome (A * S)) : A := match o with Ok (a, _) => a | _ => d end.
Definition final {A} (d : fio) (o : outcome (A * fio)) : fio := match o with Ok (_, s) => s | _ => d end.
End IoSample.
Import Sample CacheSample IoSample.
#[local] Existing Instance plain_threads.
#[local] Existing Instance CacheSample.consts.
#[local] Existing Instance IoSample.consts.

Definition start : fio := mkFio state mem.
Definition read1 : fio := final start (read_from_file 0 100 10 4 false start).
Definition read2 : fio := final start (read_answered false 0 2 1 2 (fun i => i + 14) (mkIox 100 4 0) read1).
Lemma read_start : read_from_file 0 100 10 4 false start = Ok (IoReads 1 (mkIox 100 4 0), read1).
Proof. by vm_compute. Qed.
Lemma read_step : rstep false 0 2 (mkW (fcache read1) pc0 (after (IoReads 1 (mkIox 100 4 0)) uses) file, umem read1, IoReads 1 (mkIox 100 4 0))
  (mkW (fcache read2) pc0 (after (IoDone (RVal 2) 6) (<[1%nat := Free]> (after (IoReads 1 (mkIox 100 4 0)) uses))) file, umem read2, IoDone (RVal 2) 6).
Proof.
  apply (r_answer false 0 2 (fcache read1) pc0 _ file 0 (umem read1) 1 (mkIox 100 4 0) 2 (fun i => i + 14) (IoDone (RVal 2) 6) read2).
  - apply sample_runs_cache. by vm_compute.
  - split; [simpl; lia|]. simpl. intros i Hi. assert (i = 0 \/ i = 1 \/ i = 2 \/ i = 3) as [->|[->|[->| ->]]] by lia; by vm_compute.
  - by vm_compute.
Qed.
Lemma read_from_file_correct_witness :
  read_from_file 0 100 10 4 false start = Ok (IoReads 1 (mkIox 100 4 0), read1) /\ umem read2 100 = 14 /\ umem read2 101 = 15 /\ umem read2 102 = 103.
Proof.
  destruct (read_from_file_correct sample_size sample_pr_inj sample_pr_list false 0 100 10 4 state pc0 uses file 0 mem sample_cinv) as (o & y & Hr & Hall);
    [by apply sample_runs_cache|lia|lia|simpl; lia|by right|].
  pose proof (eq_trans (eq_sym Hr) read_start) as E. injection E as -> ->.
  destruct (Hall _ _ _ (rtc_once _ _ read_step)) as (_ & Hd & _). destruct (Hd _ _ eq_refl) as (k & _ & Ek & Hm & _). assert (k = 2) as -> by lia.
  split; [exact read_start|]. split; [|split]; rewrite Hm; vm_compute; reflexivity.
Defined.

Definition write1 : fio := final start (write_to_file 0 50 1 5 start).
Definition write2 : fio := final start (write_read 0 1 1 2 (fun i => i + 14) (mkIox 50 5 0) write1).
Definition write3 : fio := final start (write_answered 0 1 1 2 2 (mkIox 51 6 1) write2).
Definition file' (v : nat) (i : Z) : Z := if (v =? 0)%nat && (i =? 5) then 51 else file v i.
Definition used1 : nat -> use := after (IoReads 1 (mkIox 50 5 0)) uses.
Definition used2 : nat -> use := after (IoWrites 1 2 (mkIox 51 6 1)) (<[1%nat := Free]> used1).
Definition used3 : nat -> use := after (IoDone (RVal 1) 6) (<[1%nat := Free]> used2).
Lemma write_start : write_to_file 0 50 1 5 start = Ok (IoReads 1 (mkIox 50 5 0), write1).
Proof. by vm_compute. Qed.
Lemma write_step1 : wstep 0 1 mem (mkW (fcache write1) pc0 used1 file, IoReads 1 (mkIox 50 5 0)) (mkW (fcache write2) pc0 used2 file, IoWrites 1 2 (mkIox 51 6 1)).
Proof.
  apply (w_read 0 1 mem (fcache write1) pc0 used1 file 0 1 (mkIox 50 5 0) 2 (fun i => i + 14) (IoWrites 1 2 (mkIox 51 6 1)) write2).
  - apply sample_runs_cache. by vm_compute.
  - split; [simpl; lia|]. simpl. intros i Hi. assert (i = 0 \/ i = 1 \/ i = 2 \/ i = 3) as [->|[->|[->| ->]]] by lia; by vm_compute.
  - by vm_compute.
Qed.
Lemma write_step2 : wstep 0 1 mem (mkW (fcache write2) pc0 used2 file, IoWrites 1 2 (mkIox 51 6 1)) (mkW (fcache write3) pc0 used3 file', IoDone (RVal 1) 6).
Proof.
  apply (w_written 0 1 mem (fcache write2) pc0 used2 file file' 0 1 2 (mkIox 51 6 1) (IoDone (RVal 1) 6) write3).
  - apply sample_runs_cache. by vm_compute.
  - assert (file_offset (page (fcache write2) 1%nat) = 4) as E by (by vm_compute). split.
    + intros v i. rw /in_block E /file'. destruct (Nat.eqb_spec v 0), (Z.eqb_spec i 5); simpl; try done. intros Hno. exfalso. apply Hno. split; [done|lia].
    + intros i Hi. assert (i = 0 \/ i = 1) as [->| ->] by lia; by vm_compute.
  - by vm_compute.
Qed.
Lemma write_steps : rtc (wstep 0 1 mem) (mkW (fcache write1) pc0 (after (IoReads 1 (mkIox 50 5 0)) uses) file, IoReads 1 (mkIox 50 5 0)) (mkW (fcache write3) pc0 used3 file', IoDone (RVal 1) 6).
Proof. exact (rtc_l _ _ _ _ write_step1 (rtc_once _ _ write_step2)). Qed.
Lemma sample_tail i : vn_size state 0%nat <= i -> file 0%nat i = 0.
Proof. simpl. intros Hi. rw /file. destruct (Z.leb_spec 0 i), (Z.ltb_spec i 6); simpl; lia. Qed.
Lemma write_to_file_correct_witness :
  write_to_file 0 50 1 5 start = Ok (IoReads 1 (mkIox 50 5 0), write1) /\ forall i, file' 0 i = put_bytes 5 1 mem 50 (file 0) i.
Proof.
  destruct (write_to_file_correct sample_size sample_pr_inj sample_pr_list 0 50 1 5 state pc0 uses file 0 mem sample_cinv) as (o & y & Hr & Hall);
    [by apply sample_runs_cache|lia|lia|reflexivity|simpl; lia|exact sample_tail|reflexivity|reflexivity|].
  pose proof (eq_trans (eq_sym Hr) write_start) as E. injection E as -> ->. split; [exact write_start|].
  destruct (Hall _ _ write_steps) as (_ & Hd & _). destruct (Hd _ _ eq_refl) as (_ & _ & Hf & _). exact Hf.
Defined.
