(* ===== verification/Proc.v ===== *)
(** * Proc: processes, their children and their threads

    proc/proc.c and the part of proc/thread.c that ends threads. The lists a
    process keeps of its children and of its threads, exit and wait. What exit
    and fork also do in other components (futexes, descriptors, address
    spaces, sessions, signals, the kernel stacks of threads) is modelled with
    these; of leaving the process group [sys_exit] keeps what [sys_waitpid]
    sees, the group id. The table of pids is an interface, [PidTable]. *)

From S2P Require Import Prelude Sched Event.
Local Open Scope Z_scope.
Local Open Scope kernel_scope.

(** What the processes need of the table of pids, which processes and threads
    share. *)
Inductive owner : Type := OwnProc (p : nat) | OwnThread (t : nat).
Class PidTable (T : Type) := {
  pt_alloc : owner -> M T ret;
  pt_free : Z -> M T unit;
  pt_get : T -> Z -> option owner;
  pt_ok : T -> Prop;
  pt_alloc_ok : forall s p, pt_ok s -> exists r s', pt_alloc p s = Ok (r, s') /\ pt_ok s' /\
    match r with
    | RVal v => 0 < v /\ pt_get s v = None /\ pt_get s' v = Some p /\ forall w, w <> v -> pt_get s' w = pt_get s w
    | RErr _ => s' = s
    end;
  pt_free_ok : forall s v p, pt_ok s -> pt_get s v = Some p ->
    exists s', pt_free v s = Ok (tt, s') /\ pt_ok s' /\ pt_get s' v = None /\ forall w, w <> v -> pt_get s' w = pt_get s w }.

Inductive pstate : Type := PROC_STATE_FREE | PROC_STATE_INIT | PROC_STATE_ALIVE | PROC_STATE_EXITED.
#[export] Instance pstate_eq_dec : EqDecision pstate.
Proof. solve_decision. Defined.

(** [child_old]: the neighbours in [child_link] when it was last removed. *)
Record Proc := mkProc {
  p_pid : Z;
  p_pgid : Z;
  p_parent : option nat;
  p_state : pstate;
  p_exit_status : Z;
  exit_in_progress : bool;
  child_old : stale }.
Definition eta_Proc p := mkProc (p_pid p) (p_pgid p) (p_parent p) (p_state p) (p_exit_status p) (exit_in_progress p) (child_old p).
#[export] Instance set_p_pid : Setter p_pid := ltac:(solve_setter eta_Proc).
#[export] Instance set_p_pgid : Setter p_pgid := ltac:(solve_setter eta_Proc).
#[export] Instance set_p_parent : Setter p_parent := ltac:(solve_setter eta_Proc).
#[export] Instance set_p_state : Setter p_state := ltac:(solve_setter eta_Proc).
#[export] Instance set_p_exit_status : Setter p_exit_status := ltac:(solve_setter eta_Proc).
#[export] Instance set_exit_in_progress : Setter exit_in_progress := ltac:(solve_setter eta_Proc).
#[export] Instance set_child_old : Setter child_old := ltac:(solve_setter eta_Proc).
Definition zero_Proc : Proc := mkProc 0 0 None PROC_STATE_FREE 0 false (None, None).

Record Thr := mkThr { t_process : nat; t_tid : Z; t_detached : bool; t_exit_status : Z; joiner_thread : option nat }.
Definition eta_Thr t := mkThr (t_process t) (t_tid t) (t_detached t) (t_exit_status t) (joiner_thread t).
#[export] Instance set_t_process : Setter t_process := ltac:(solve_setter eta_Thr).
#[export] Instance set_t_tid : Setter t_tid := ltac:(solve_setter eta_Thr).
#[export] Instance set_t_detached : Setter t_detached := ltac:(solve_setter eta_Thr).
#[export] Instance set_t_exit_status : Setter t_exit_status := ltac:(solve_setter eta_Thr).
#[export] Instance set_joiner_thread : Setter joiner_thread := ltac:(solve_setter eta_Thr).
Definition zero_Thr : Thr := mkThr 0 0 false 0 None.
(** The zeroed fields of the scheduler; policy 0 is SCHED_OTHER. *)
Definition zero_Thread : Thread := mkThread SCHED_OTHER 0 0 0 THREAD_STATE_FREE None 0 0 0 0 0 0 false false None 0.

Section state.
Context {T : Type}.
Record procs := mkProcs {
  psch : sched;
  ptab : T;
  prc : nat -> Proc;
  child_list : nat -> list nat;
  thread_list : nat -> list nat;
  free_process_list : list nat;
  thr : nat -> Thr;
  free_thread_list : list nat;
  thread_reaper_detached_thread_list : list nat }.
Definition eta_procs (s : procs) := mkProcs (psch s) (ptab s) (prc s) (child_list s) (thread_list s) (free_process_list s) (thr s) (free_thread_list s)
  (thread_reaper_detached_thread_list s).
#[global] Instance set_psch : Setter psch := ltac:(solve_setter eta_procs).
#[global] Instance set_ptab : Setter ptab := ltac:(solve_setter eta_procs).
#[global] Instance set_prc : Setter prc := ltac:(solve_setter eta_procs).
#[global] Instance set_child_list : Setter child_list := ltac:(solve_setter eta_procs).
#[global] Instance set_thread_list : Setter thread_list := ltac:(solve_setter eta_procs).
#[global] Instance set_free_process_list : Setter free_process_list := ltac:(solve_setter eta_procs).
#[global] Instance set_thr : Setter thr := ltac:(solve_setter eta_procs).
#[global] Instance set_free_thread_list : Setter free_thread_list := ltac:(solve_setter eta_procs).
#[global] Instance set_reaper_list : Setter thread_reaper_detached_thread_list := ltac:(solve_setter eta_procs).
End state.
Arguments procs : clear implicits.

(** The rendez of the processes and of the reaper, the root process, and the
    number of processes. *)
Class ProcConsts := {
  child_list_rendez : nat -> nat;
  thread_list_rendez : nat -> nat;
  thread_reaper_rendez : nat;
  root_process : nat;
  max_process : Z }.
(** [INVALID_PID], as a group. *)
Definition INVALID_PGID : Z := -1.

Section ops.
Context {T : Type} `{PidTable T, ProcConsts, Threads}.
Abbreviation PM := (M (procs T)).

Definition on_psch {A} (m : M sched A) : PM A := fun s =>
  match m (psch s) with Ok (a, k) => Ok (a, s <| psch := k |>) | Panic => Panic | Fault => Fault end.
Definition on_ptab {A} (m : M T A) : PM A := fun s =>
  match m (ptab s) with Ok (a, k) => Ok (a, s <| ptab := k |>) | Panic => Panic | Fault => Fault end.
Definition upd_prc (p : nat) (f : Proc -> Proc) : PM unit := modify (fun s => s <| prc ::= fun m => <[p := f (m p)]> m |>).
Definition upd_thr (t : nat) (f : Thr -> Thr) : PM unit := modify (fun s => s <| thr ::= fun m => <[t := f (m t)]> m |>).
Definition on_children (p : nat) (f : list nat -> outcome (list nat)) : PM unit :=
  update (fun s => child_list s p) (fun l s => s <| child_list ::= fun m => <[p := l]> m |>) f.
Definition on_threads (p : nat) (f : list nat -> outcome (list nat)) : PM unit :=
  update (fun s => thread_list s p) (fun l s => s <| thread_list ::= fun m => <[p := l]> m |>) f.
Definition on_free_procs (f : list nat -> outcome (list nat)) : PM unit := update free_process_list (fun l s => s <| free_process_list := l |>) f.
Definition on_free_threads (f : list nat -> outcome (list nat)) : PM unit := update free_thread_list (fun l s => s <| free_thread_list := l |>) f.
Definition on_reaper (f : list nat -> outcome (list nat)) : PM unit :=
  update thread_reaper_detached_thread_list (fun l s => s <| thread_reaper_detached_thread_list := l |>) f.
(** [DLIST_REM_ENTRY(&p->child_list, ch, child_link)] *)
Definition unlink_child (p ch : nat) : PM unit :=
  x ← gets (fun s => prc s ch);
  l ← gets (fun s => child_list s p);
  r ← lift (dl_unlink ch (child_old x) l);
  _ ← modify (fun s => s <| child_list ::= fun m => <[p := r.1]> m |>);
  upd_prc ch (fun x => x <| child_old := r.2 |>).

(** ** Process structures *)

(** [memset(proc, 0, sizeof *proc)], which clears the lists and rendez too. *)
Definition clear_process (p : nat) : PM unit :=
  _ ← upd_prc p (fun _ => zero_Proc);
  _ ← modify (fun s => s <| child_list ::= fun m => <[p := []]> m |> <| thread_list ::= fun m => <[p := []]> m |>);
  _ ← on_psch (InitRendez (child_list_rendez p));
  on_psch (InitRendez (thread_list_rendez p)).
Definition alloc_process_struct : PM (option nat) :=
  l ← gets free_process_list;
  match l with
  | [] => mret None
  | p :: _ => _ ← on_free_procs dl_rem_head; _ ← clear_process p; mret (Some p)
  end.
Definition free_process_struct (p : nat) : PM unit :=
  _ ← clear_process p;
  _ ← upd_prc p (fun x => x <| p_state := PROC_STATE_FREE |>);
  on_free_procs (dl_add_tail p).
Definition alloc_process (parent : option nat) : PM (option nat) :=
  o ← alloc_process_struct;
  match o with
  | None => mret None
  | Some p =>
    r ← on_ptab (pt_alloc (OwnProc p));
    match r with
    | RErr _ => _ ← free_process_struct p; mret None
    | RVal v =>
      _ ← upd_prc p (fun x => x <| p_pid := v |> <| p_parent := parent |>);
      _ ← (match parent with Some q => on_children q (dl_add_tail p) | None => mret tt end);
      _ ← upd_prc p (fun x => x <| p_state := PROC_STATE_INIT |> <| p_exit_status := 0 |>);
      _ ← on_psch (InitRendez (child_list_rendez p));
      _ ← on_psch (InitRendez (thread_list_rendez p));
      _ ← modify (fun s => s <| child_list ::= fun m => <[p := []]> m |> <| thread_list ::= fun m => <[p := []]> m |>);
      mret (Some p)
    end
  end.
Definition free_process (p : nat) : PM unit :=
  x ← gets (fun s => prc s p);
  _ ← on_ptab (pt_free (p_pid x));
  _ ← (match p_parent x with
       | Some q => _ ← unlink_child q p; upd_prc p (fun x => x <| p_parent := None |>)
       | None => mret tt
       end);
  free_process_struct p.

(** ** Waiting *)
Inductive found : Type := NoChild | NotYet | Exited (ch : nat).
(** The loops over the children: the first exited one of those that match, and
    how many of these there were. *)
Fixpoint scan (s : procs T) (m : nat -> bool) (n : Z) (l : list nat) : option nat * Z :=
  match l with
  | [] => (None, n)
  | ch :: l' =>
    if m ch then if decide (p_state (prc s ch) = PROC_STATE_EXITED) then (Some ch, n + 1) else scan s m (n + 1) l'
    else scan s m n l'
  end.
Definition scan_group (s : procs T) (c : nat) (g : Z) : found :=
  match child_list s c with
  | [] => NoChild
  | l => match scan s (fun ch => p_pgid (prc s ch) =? g) 0 l with
         | (Some ch, _) => Exited ch
         | (None, n) => if n =? 0 then NoChild else NotYet
         end
  end.
Definition find_child (s : procs T) (c : nat) (pid : Z) : found :=
  if 0 <? pid then
    match pt_get (ptab s) pid with
    | Some (OwnProc ch) =>
      if decide (p_parent (prc s ch) = Some c) then if decide (p_state (prc s ch) = PROC_STATE_EXITED) then Exited ch else NotYet
      else NoChild
    | _ => NoChild
    end
  else if pid =? 0 then scan_group s c (p_pgid (prc s c))
  else if pid =? -1 then
    match child_list s c with
    | [] => if decide (c = root_process) then NotYet else NoChild
    | l => match scan s (fun _ => true) 0 l with (Some ch, _) => Exited ch | (None, _) => NotYet end
    end
  else scan_group s c (- pid).

(** The result with the status that is stored; or the thread sleeps, and looks
    again when it runs. [status]: no status is wanted, or whether it can be
    stored. *)
Inductive waits : Type := WReturns (r : ret) (st : option Z) | WSleeps.
Definition sys_waitpid (t : nat) (pid : Z) (status : option bool) (nohang : bool) : PM waits :=
  if (max_process <=? - pid) || (max_process <=? pid) then mret (WReturns (RErr EINVAL) None)
  else
    c ← gets (fun s => t_process (thr s t));
    f ← gets (fun s => find_child s c pid);
    match f with
    | NoChild => mret (WReturns (RErr EINVAL) None)
    | NotYet => if nohang then mret (WReturns (RErr EAGAIN) None) else _ ← on_psch (TaskSleep (child_list_rendez c)); mret WSleeps
    | Exited ch =>
      x ← gets (fun s => prc s ch);
      match status with
      | Some false => mret (WReturns (RErr EFAULT) None)
      | _ =>
        _ ← unlink_child c ch;
        _ ← free_process ch;
        mret (WReturns (RVal (p_pid x)) (if status is Some _ then Some (p_exit_status x) else None))
      end
    end.

(** ** Exiting *)
Fixpoint detach_loop (fuel : nat) (p : nat) : PM unit :=
  l ← gets (fun s => child_list s p);
  match l with
  | [] => mret tt
  | ch :: _ =>
    match fuel with
    | O => fault
    | S fuel' =>
      _ ← modify (fun s => s <| child_list ::= fun m => <[p := tail l]> m |>);
      _ ← upd_prc ch (fun x => x <| child_old := (None, head (tail l)) |>);
      x ← gets (fun s => prc s ch);
      _ ← (if decide (p_state x = PROC_STATE_EXITED) then free_process ch
           else
             _ ← on_children root_process (dl_add_tail ch);
             upd_prc ch (fun x => x <| p_parent := Some root_process |>));
      detach_loop fuel' p
    end
  end.
Definition detach_child_processes (p : nat) : PM unit := l ← gets (fun s => child_list s p); detach_loop (length l) p.

Definition do_exit_thread (t : nat) (status : Z) : PM unit :=
  p ← gets (fun s => t_process (thr s t));
  _ ← upd_thr t (fun x => x <| t_exit_status := status |>);
  _ ← on_threads p (dl_rem t);
  l ← gets (fun s => thread_list s p);
  _ ← (match l with
       | [] =>
         _ ← upd_thr t (fun x => x <| t_detached := true |>);
         _ ← upd_prc p (fun x => x <| p_state := PROC_STATE_EXITED |>);
         o ← gets (fun s => p_parent (prc s p));
         match o with Some q => on_psch (TaskWakeupAll (child_list_rendez q)) | None => mret tt end
       | _ => mret tt
       end);
  d ← gets (fun s => t_detached (thr s t));
  _ ← (if (d : bool) then
         _ ← upd_thr t (fun x => x <| t_process := root_process |>);
         _ ← on_reaper (dl_add_tail t);
         on_psch (TaskWakeup thread_reaper_rendez)
       else
         _ ← on_threads p (dl_add_tail t);
         on_psch (TaskWakeupAll (thread_list_rendez p)));
  on_psch thread_stop.

(** The other threads are told to exit, and the caller waits to be alone: the
    test at the end of [do_kill_other_threads_and_wait]. [do_kill_thread], which
    should kill them, does nothing. *)
Definition do_kill_other_threads (t : nat) : PM unit :=
  p ← gets (fun s => t_process (thr s t));
  l ← gets (fun s => thread_list s p);
  mfor l (fun u => if decide (u = t) then mret tt else upd_thr u (fun x => x <| t_detached := true |>)).
(** [true]: the thread sleeps, and tests again when it runs. *)
Definition wait_for_threads (t : nat) : PM bool :=
  p ← gets (fun s => t_process (thr s t));
  l ← gets (fun s => thread_list s p);
  if decide (head l <> Some t /\ last l <> Some t) then _ ← on_psch (TaskSleep (thread_list_rendez p)); mret true else mret false.

(** [sys_exit]; [true]: the thread sleeps, and goes on with [exit_alone] when
    it runs again. Futexes, descriptors and memory are given up in between. *)
Definition exit_alone (t : nat) : PM bool :=
  b ← wait_for_threads t;
  if (b : bool) then mret true
  else
    p ← gets (fun s => t_process (thr s t));
    _ ← upd_prc p (fun x => x <| p_pgid := INVALID_PGID |>);
    _ ← detach_child_processes p;
    _ ← do_exit_thread t 0;
    mret false.
Definition sys_exit (t : nat) (status : Z) : PM bool :=
  p ← gets (fun s => t_process (thr s t));
  x ← gets (fun s => prc s p);
  _ ← kassert (bool_decide (p_parent x <> None));
  if exit_in_progress x then _ ← do_exit_thread t 0; mret false
  else
    _ ← upd_prc p (fun x => x <| p_exit_status := status |> <| exit_in_progress := true |>);
    _ ← do_kill_other_threads t;
    exit_alone t.

(** ** Threads *)
Definition init_thread (t p : nat) (tid : Z) (detached : bool) : PM unit :=
  _ ← on_psch (InitRendez (thread_rendez t));
  _ ← on_threads p (dl_add_tail t);
  _ ← upd_thr t (fun _ => mkThr p tid detached 0 None);
  on_psch (upd_th t (fun x => x <| state := THREAD_STATE_INIT |> <| blocking_rendez := None |> <| intr_flags := 0 |> <| event_mask := 0 |> <| pending_events := 0 |>)).
(** [memset(thread, 0, sizeof *thread)] *)
Definition clear_thread (t : nat) : PM unit := _ ← upd_thr t (fun _ => zero_Thr); on_psch (upd_th t (fun _ => zero_Thread)).
Definition alloc_thread_struct : PM (option nat) :=
  l ← gets free_thread_list;
  match l with
  | [] => mret None
  | t :: _ => _ ← on_free_threads dl_rem_head; _ ← clear_thread t; mret (Some t)
  end.
Definition free_thread_struct (t : nat) : PM unit := _ ← clear_thread t; on_free_threads (dl_add_tail t).
Definition free_thread (t : nat) : PM unit :=
  x ← gets (fun s => thr s t);
  _ ← on_ptab (pt_free (t_tid x));
  free_thread_struct t.
(** The first thread of a new process; [stack]: there is a page for its stack. *)
Definition fork_thread (p old : nat) (stack : bool) : PM (option nat) :=
  o ← alloc_thread_struct;
  match o with
  | None => mret None
  | Some t =>
    r ← on_ptab (pt_alloc (OwnThread t));
    match r with
    | RErr _ => _ ← free_thread_struct t; mret None
    | RVal v =>
      if stack then
        _ ← init_thread t p v true;
        y ← gets (fun s => th (psch s) old);
        _ ← on_psch (upd_th t (fun x => dup_schedparams x y));
        mret (Some t)
      else _ ← on_ptab (pt_free v); _ ← free_thread_struct t; mret None
    end
  end.
Definition do_create_thread (p : nat) (pol : policy) (prio : Z) (detached stack : bool) : PM (option nat) :=
  o ← alloc_thread_struct;
  match o with
  | None => mret None
  | Some t =>
    r ← on_ptab (pt_alloc (OwnThread t));
    match r with
    | RErr _ => _ ← free_thread_struct t; mret None
    | RVal v =>
      if stack then
        _ ← init_thread t p v detached;
        x ← gets (fun s => th (psch s) t);
        y ← lift (init_schedparams x pol prio);
        _ ← on_psch (upd_th t (fun _ => y));
        mret (Some t)
      else _ ← on_ptab (pt_free v); _ ← free_thread_struct t; mret None
    end
  end.
(** [as_ok]: the address space could be made. A NULL thread is started, too. *)
Definition do_create_process (c : nat) (as_ok stack : bool) : PM (option nat) :=
  p ← gets (fun s => t_process (thr s c));
  o ← alloc_process (Some p);
  match o with
  | None => mret None
  | Some n =>
    if negb as_ok then _ ← free_process n; mret None
    else
      _ ← upd_prc n (fun y => y <| p_pgid := INVALID_PGID |>);
      o ← do_create_thread n SCHED_RR 16 false stack;
      match o with
      | None => _ ← upd_prc n (fun y => y <| p_pgid := INVALID_PGID |>); _ ← free_process n; fault
      | Some t => _ ← on_psch (thread_start t); mret (Some n)
      end
  end.
(** [as_ok]: the address space could be copied. *)
Definition sys_fork (c : nat) (as_ok stack : bool) : PM ret :=
  p ← gets (fun s => t_process (thr s c));
  o ← alloc_process (Some p);
  match o with
  | None => mret (RErr ENOMEM)
  | Some n =>
    if negb as_ok then _ ← free_process n; mret (RErr ENOMEM)
    else
      x ← gets (fun s => prc s p);
      _ ← upd_prc n (fun y => y <| p_pgid := p_pgid x |>);
      o ← fork_thread n c stack;
      match o with
      | None => _ ← upd_prc n (fun y => y <| p_pgid := INVALID_PGID |>); _ ← free_process n; mret (RErr ENOMEM)
      | Some t => _ ← on_psch (thread_start t); v ← gets (fun s => p_pid (prc s n)); mret (RVal v)
      end
  end.
(** [true]: the thread sleeps. *)
Definition join_loop (c t : nat) : PM (option Z) :=
  p ← gets (fun s => t_process (thr s c));
  e ← gets (fun s => bool_decide (state (th (psch s) t) = THREAD_STATE_EXITED));
  if (e : bool) then
    _ ← on_threads p (dl_rem t);
    x ← gets (fun s => thr s t);
    _ ← free_thread t;
    mret (Some (t_exit_status x))
  else _ ← on_psch (TaskSleep (thread_list_rendez p)); mret None.
Inductive joined : Type := JReturns (r : ret) (st : option Z) | JSleeps.
Definition do_join_thread (c t : nat) : PM joined :=
  x ← gets (fun s => thr s c);
  y ← gets (fun s => thr s t);
  if decide (joiner_thread x = Some t) then mret (JReturns (RErr EDEADLK) None)
  else
    match joiner_thread y with
    | Some _ => mret (JReturns (RErr EBUSY) None)
    | None =>
      _ ← upd_thr t (fun x => x <| joiner_thread := Some c |>);
      o ← join_loop c t;
      mret (match o with Some v => JReturns (RVal 0) (Some v) | None => JSleeps end)
    end.
(** A turn of the thread that frees the others; [true]: it sleeps. *)
Definition thread_reaper_task : PM bool :=
  l ← gets thread_reaper_detached_thread_list;
  match l with
  | [] => _ ← on_psch (TaskSleep thread_reaper_rendez); mret true
  | t :: _ =>
    _ ← on_reaper dl_rem_head;
    p ← gets (fun s => t_process (thr s t));
    _ ← free_thread t;
    _ ← on_psch (TaskWakeupAll (thread_list_rendez p));
    mret false
  end.
End ops.
