(* ===== verification/ProcInv.v ===== *)
(** * ProcInv: the tree of processes

    The lists of children and threads agree with the processes and the table of
    pids; taking a process off the tree keeps that. *)

From S2P Require Import Prelude Sched SchedQueue Bkl BklSteps Event EventThms Frames Proc.
Local Open Scope Z_scope.
Local Open Scope kernel_scope.

(** The rendez of processes, of threads and of the reaper are all different. *)
Class Apart `{ProcConsts, Threads} : Prop := {
  cr_inj : forall p q, child_list_rendez p = child_list_rendez q -> p = q;
  tr_inj : forall p q, thread_list_rendez p = thread_list_rendez q -> p = q;
  own_inj : forall t u, thread_rendez t = thread_rendez u -> t = u;
  cr_tr : forall p q, child_list_rendez p <> thread_list_rendez q;
  cr_own : forall p t, child_list_rendez p <> thread_rendez t;
  tr_own : forall p t, thread_list_rendez p <> thread_rendez t;
  cr_reaper : forall p, child_list_rendez p <> thread_reaper_rendez;
  tr_reaper : forall p, thread_list_rendez p <> thread_reaper_rendez;
  own_reaper : forall t, thread_rendez t <> thread_reaper_rendez }.

Section inv.
Context {T : Type} `{PidTable T, Apart}.
Implicit Types (s : procs T) (p q ch c t : nat) (pc : nat -> loc).

Definition live s p : Prop := p_state (prc s p) <> PROC_STATE_FREE.
Definition running s p : Prop := live s p /\ p_state (prc s p) <> PROC_STATE_EXITED.

Record tree s : Prop := {
  t_pt : pt_ok (ptab s);
  t_nofree : NoDup (free_process_list s);
  t_freed : forall p, p ∈ free_process_list s -> ~ live s p;
  t_pid : forall p, live s p -> pt_get (ptab s) (p_pid (prc s p)) = Some (OwnProc p);
  t_own : forall v p, pt_get (ptab s) v = Some (OwnProc p) -> live s p /\ p_pid (prc s p) = v;
  t_nodup : forall q, NoDup (child_list s q);
  t_child : forall q ch, ch ∈ child_list s q <-> live s ch /\ p_parent (prc s ch) = Some q;
  t_parent : forall p q, live s p -> p_parent (prc s p) = Some q -> running s q;
  t_root : running s root_process /\ p_parent (prc s root_process) = None;
  t_threads : forall p, NoDup (thread_list s p);
  t_member : forall p t, t ∈ thread_list s p -> t_process (thr s t) = p /\ running s p /\
    (t ∉ thread_reaper_detached_thread_list s) /\ (t ∉ free_thread_list s);
  t_nothreads : NoDup (free_thread_list s);
  t_self : forall p, live s p -> p_parent (prc s p) <> Some p }.

(** No thread waits on a rendez of a process that it does not belong to. *)
Record quiet_procs s pc : Prop := {
  q_kinv : kinv (psch s) pc;
  q_child : forall q t, t ∈ rendez (psch s) (child_list_rendez q) -> t ∈ thread_list s q;
  q_thread : forall q t, t ∈ rendez (psch s) (thread_list_rendez q) -> t ∈ thread_list s q }.

Lemma on_psch_run {A} (m : M sched A) s a k : m (psch s) = Ok (a, k) -> on_psch m s = Ok (a, s <| psch := k |>).
Proof using All. intros Hm. by rw /on_psch Hm. Qed.
Lemma on_ptab_run {A} (m : M T A) s a k : m (ptab s) = Ok (a, k) -> on_ptab m s = Ok (a, s <| ptab := k |>).
Proof using All. intros Hm. by rw /on_ptab Hm. Qed.

(** ** The operations on a state given by its parts *)
Section runs.
Variables (k : sched) (tb : T) (pr : nat -> Proc) (cl tl : nat -> list nat) (fp : list nat) (th_ : nat -> Thr) (ft rp : list nat).
Abbreviation st := (mkProcs k tb pr cl tl fp th_ ft rp).
Lemma upd_prc_run p g : exists pr', upd_prc p g st = Ok (tt, mkProcs k tb pr' cl tl fp th_ ft rp) /\ changed pr p (g (pr p)) pr'.
Proof using All. eexists. split; [reflexivity|apply changed_insert]. Qed.
Lemma unlink_run q ch : ch ∈ cl q -> exists pr' cl', unlink_child q ch st = Ok (tt, mkProcs k tb pr' cl' tl fp th_ ft rp) /\
  changed pr ch ((pr ch) <| child_old := (dl_prev ch (cl q), dl_next ch (cl q)) |>) pr' /\ changed cl q (list_remove1 ch (cl q)) cl'.
Proof using All. intros Hch. do 2 eexists. split; [|split; apply changed_insert]. rw /unlink_child /upd_prc. mrun. by rw /= dl_unlink_ok. Qed.
Lemma unlink_again_run q ch l : NoDup l -> ch ∈ l -> cl q = list_remove1 ch l -> child_old (pr ch) = (dl_prev ch l, dl_next ch l) ->
  exists pr' cl', unlink_child q ch st = Ok (tt, mkProcs k tb pr' cl' tl fp th_ ft rp) /\
    changed pr ch ((pr ch) <| child_old := (dl_prev ch l, dl_next ch l) |>) pr' /\ changed cl q (list_remove1 ch l) cl'.
Proof using All.
  intros Hn Hch Hl Ho. do 2 eexists. split; [|split; apply changed_insert]. rw /unlink_child /upd_prc. mrun. by rw /= Ho Hl dl_unlink_again.
Qed.
(** Nobody sleeps on the rendez of the process. *)
Lemma clear_process_run pc p : kinv k pc -> rendez k (child_list_rendez p) = [] -> rendez k (thread_list_rendez p) = [] ->
  exists k' pr' cl' tl', clear_process p st = Ok (tt, mkProcs k' tb pr' cl' tl' fp th_ ft rp) /\ changed pr p zero_Proc pr' /\ changed cl p [] cl' /\ changed tl p [] tl' /\
    kinv k' pc /\ (forall r, rendez k' r = rendez k r) /\ th k' = th k /\ current_thread k' = current_thread k.
Proof using All.
  intros Hk Hc Ht. destruct (InitRendez_kinv k pc (child_list_rendez p) Hk Hc) as (k1 & R1 & Hk1 & Z1 & Th1 & C1 & _).
  destruct (InitRendez_kinv k1 pc (thread_list_rendez p) Hk1) as (k2 & R2 & Hk2 & Z2 & Th2 & C2 & _); [by rw Z1|].
  exists k2. do 3 eexists. split; [|split; [apply changed_insert|split; [apply changed_insert|split; [apply changed_insert|]]]].
  - rw /clear_process {1}/mbind {1}/M_bind {1}/upd_prc {1}/modify {1}/mbind {1}/M_bind {1}/modify {1}/mbind {1}/M_bind (on_psch_run _ _ tt k1) // (on_psch_run _ _ tt k2) //.
  - split_and!; [done|intros r; by rw Z2 Z1|congruence|congruence].
Qed.
End runs.

(** [l]: what the list of the parent is after the process was taken off, now
    or before. *)
Lemma free_process_run k tb pr cl tl fp th_ ft rp pc q ch l : kinv k pc -> rendez k (child_list_rendez ch) = [] -> rendez k (thread_list_rendez ch) = [] -> (ch ∉ fp) -> pt_ok tb ->
  pt_get tb (p_pid (pr ch)) = Some (OwnProc ch) -> p_parent (pr ch) = Some q -> q <> ch ->
  (forall tb' : T, exists pr1 cl1, unlink_child q ch (mkProcs k tb' pr cl tl fp th_ ft rp) = Ok (tt, mkProcs k tb' pr1 cl1 tl fp th_ ft rp) /\
     (forall x, x <> ch -> pr1 x = pr x) /\ changed cl q l cl1) ->
  exists k' tb' pr' cl' tl', free_process ch (mkProcs k tb pr cl tl fp th_ ft rp) = Ok (tt, mkProcs k' tb' pr' cl' tl' (fp ++ [ch]) th_ ft rp) /\
    changed pr ch zero_Proc pr' /\ cl' ch = [] /\ cl' q = l /\ (forall x, x <> ch -> x <> q -> cl' x = cl x) /\ changed tl ch [] tl' /\
    kinv k' pc /\ (forall r, rendez k' r = rendez k r) /\ th k' = th k /\ current_thread k' = current_thread k /\
    pt_ok tb' /\ pt_get tb' (p_pid (pr ch)) = None /\ (forall w, w <> p_pid (pr ch) -> pt_get tb' w = pt_get tb w).
Proof using All.
  intros Hk Hc Ht Hfp Hok Hget Hpa Hne Hun. destruct (pt_free_ok tb (p_pid (pr ch)) (OwnProc ch) Hok Hget) as (tb' & Rt & Hok' & Hno & Hoth).
  destruct (Hun tb') as (pr1 & cl1 & R1 & Eo1 & [L1 Lo1]).
  destruct (upd_prc_run k tb' pr1 cl1 tl fp th_ ft rp ch (fun x => x <| p_parent := None |>)) as (pr2 & R2 & [E2 Eo2]).
  destruct (clear_process_run k tb' pr2 cl1 tl fp th_ ft rp pc ch Hk Hc Ht) as (k' & pr3 & cl2 & tl2 & R3 & [E3 Eo3] & [L2 Lo2] & Ct & Hk' & Hz & Hth & Hcur).
  destruct (upd_prc_run k' tb' pr3 cl2 tl2 fp th_ ft rp ch (fun x => x <| p_state := PROC_STATE_FREE |>)) as (pr4 & R4 & [E4 Eo4]).
  exists k', tb', pr4, cl2, tl2. split; [|split_and!; try done].
  - rw /free_process {1}/mbind {1}/M_bind {1}/gets /= {1}/mbind {1}/M_bind (on_ptab_run _ _ tt tb') //. cbn [psch ptab prc child_list thread_list]. rw {1}/mbind {1}/M_bind Hpa.
    rw {1}/mbind {1}/M_bind R1 R2 /free_process_struct {1}/mbind {1}/M_bind R3 {1}/mbind {1}/M_bind R4 /on_free_procs. mrun. by rw /= dl_add_tail_ok.
  - split; [by rw E4 E3|]. intros x Hx. by rw Eo4 // Eo3 // Eo2 // Eo1.
  - by rw Lo2.
  - intros x H1' H2'. by rw Lo2 // Lo1.
Qed.

(** A process without children and threads leaves the tree. *)
Lemma tree_reaped s s' ch q : tree s -> live s ch -> p_parent (prc s ch) = Some q -> child_list s ch = [] -> thread_list s ch = [] ->
  changed (prc s) ch zero_Proc (prc s') -> (forall x, x <> q -> child_list s' x = child_list s x) -> child_list s' q = list_remove1 ch (child_list s q) ->
  (forall x, thread_list s' x = thread_list s x) -> free_process_list s' = free_process_list s ++ [ch] -> thr s' = thr s -> free_thread_list s' = free_thread_list s ->
  thread_reaper_detached_thread_list s' = thread_reaper_detached_thread_list s -> pt_ok (ptab s') -> pt_get (ptab s') (p_pid (prc s ch)) = None ->
  (forall w, w <> p_pid (prc s ch) -> pt_get (ptab s') w = pt_get (ptab s) w) -> tree s'.
Proof using All.
  intros [K1 K2 K3 K4 K5 K6 K7 K8 K9 K10 K11 K12 K13] Hlv Hpa Hnc Hnt [Ech Eo] Hco Hcq Ht Hfp Hth Hft Hrp Hok Hno Hoth.
  assert (forall x, live s' x <-> live s x /\ x <> ch) as Hlive.
  { intros x. rw /live. destruct (decide (x = ch)) as [->|Hne]; [rw Ech; naive_solver|rw Eo //; naive_solver]. }
  assert (forall x, x <> ch -> running s x -> running s' x) as Hrun. { intros x Hne [? ?]. split; [by apply Hlive|by rw Eo]. }
  assert (forall p x, live s p -> p_parent (prc s p) = Some x -> x <> ch) as Hnp.
  { intros p x Hp Hx ->. assert (p ∈ child_list s ch) as Hin by (by apply K7). rw Hnc in Hin. set_solver. }
  assert (forall x y, x ∈ child_list s' y <-> x ∈ child_list s y /\ x <> ch) as Hcl.
  { intros x y. destruct (decide (y = q)) as [->|Hy]; [rw Hcq; by apply elem_of_list_remove1|]. rw Hco //. split; [|by intros [? _]].
    intros Hin. split; [done|]. intros ->. apply K7 in Hin as [_ Hin]. congruence. }
  split; rw ?Hfp ?Hth ?Hft ?Hrp; try done.
  - apply NoDup_app. split_and!; [done| |apply NoDup_singleton]. intros x Hx Hx'. apply list_elem_of_singleton in Hx' as ->. by apply (K3 ch).
  - intros x [Hx|Hx]%elem_of_app; rw Hlive; [intros [Hl _]; by apply (K3 x)|]. apply list_elem_of_singleton in Hx as ->. by intros [_ ?].
  - intros x [Hx Hne]%Hlive. rw Eo // Hoth; [|by apply K4]. intros E. pose proof (K4 x Hx) as E1. rw E (K4 ch Hlv) in E1. congruence.
  - intros v x Hv. assert (v <> p_pid (prc s ch)) as Hne by (intros ->; congruence). rw Hoth // in Hv. destruct (K5 v x Hv) as [Hx Ex].
    assert (x <> ch) as Hxc by (intros ->; congruence). split; [by apply Hlive|by rw Eo].
  - intros x. destruct (decide (x = q)) as [->|Hx]; [rw Hcq; by apply NoDup_list_remove1|by rw Hco].
  - intros x y. rw Hcl K7 Hlive. destruct (decide (y = ch)) as [->|Hne]; [naive_solver|]. rw Eo //. naive_solver.
  - intros x y [Hx Hne]%Hlive. rw Eo //. intros Hy. apply Hrun; [by apply (Hnp x)|by apply (K8 x)].
  - destruct K9 as [Hr Hn]. assert (root_process <> ch) as Hne by (intros E; congruence). split; [by apply Hrun|by rw Eo].
  - intros x. by rw Ht.
  - intros x t. rw Ht. intros Hin. destruct (K11 x t Hin) as (? & ? & ? & ?). split_and!; try done. apply Hrun; [|done]. intros ->. rw Hnt in Hin. set_solver.
  - intros x [Hx Hne]%Hlive. rw Eo //. by apply K13.
Qed.

(** The threads are as they were. *)
Record same_threads s s' : Prop := {
  h_thr : thr s' = thr s;
  h_free : free_thread_list s' = free_thread_list s;
  h_reaper : thread_reaper_detached_thread_list s' = thread_reaper_detached_thread_list s;
  h_list : forall p, thread_list s' p = thread_list s p;
  h_rendez : forall r, rendez (psch s') r = rendez (psch s) r;
  h_th : th (psch s') = th (psch s);
  h_cur : current_thread (psch s') = current_thread (psch s) }.
Lemma same_threads_refl s : same_threads s s.
Proof using Type. by split. Qed.
Lemma same_threads_trans s1 s2 s3 : same_threads s1 s2 -> same_threads s2 s3 -> same_threads s1 s3.
Proof using Type. intros [] []. split; try congruence; intros x; congruence. Qed.
Lemma quiet_same s s' pc : quiet_procs s pc -> kinv (psch s') pc -> same_threads s s' -> quiet_procs s' pc.
Proof using Type. intros [K1 K2 K3] Hk Hs. split; [done|..]; intros q t; rw (h_rendez _ _ Hs) (h_list _ _ Hs); auto. Qed.

(** ** An exited process is freed *)
Definition reaped s s' q ch : Prop :=
  same_threads s s' /\ changed (prc s) ch zero_Proc (prc s') /\
  (forall x, x <> q -> child_list s' x = child_list s x) /\ child_list s' q = list_remove1 ch (child_list s q) /\
  pt_get (ptab s') (p_pid (prc s ch)) = None /\ (forall w, w <> p_pid (prc s ch) -> pt_get (ptab s') w = pt_get (ptab s) w).
Lemma exited_bare s ch : tree s -> p_state (prc s ch) = PROC_STATE_EXITED -> child_list s ch = [] /\ thread_list s ch = [].
Proof using All.
  intros Ht He. split.
  - destruct (child_list s ch) as [|x l] eqn:El; [done|]. assert (x ∈ child_list s ch) as Hx by (rw El; set_solver). apply (t_child _ Ht) in Hx as [Hx Hp].
    by destruct (t_parent _ Ht x ch Hx Hp).
  - destruct (thread_list s ch) as [|x l] eqn:El; [done|]. assert (x ∈ thread_list s ch) as Hx by (rw El; set_solver). by destruct (t_member _ Ht ch x Hx) as (_ & [_ ?] & _).
Qed.
Lemma empty_rendez s pc ch : quiet_procs s pc -> thread_list s ch = [] -> rendez (psch s) (child_list_rendez ch) = [] /\ rendez (psch s) (thread_list_rendez ch) = [].
Proof using All.
  intros [_ Hc Ht] Hl. split.
  - destruct (rendez _ _) as [|x l] eqn:El; [done|]. specialize (Hc ch x). rw El Hl in Hc. set_solver.
  - destruct (rendez _ _) as [|x l] eqn:El; [done|]. specialize (Ht ch x). rw El Hl in Ht. set_solver.
Qed.
(** [s1] is [s] after [ch] was taken off the list of its parent, unless
    [free_process] does that. *)
Lemma reap_run s s1 pc q ch : tree s -> quiet_procs s pc -> live s ch -> child_list s ch = [] -> thread_list s ch = [] -> p_parent (prc s ch) = Some q ->
  (exists o, changed (prc s) ch ((prc s ch) <| child_old := o |>) (prc s1)) -> (forall x, x <> q -> child_list s1 x = child_list s x) ->
  (forall tb', exists pr1 cl1, unlink_child q ch (s1 <| ptab := tb' |>) = Ok (tt, s1 <| ptab := tb' |> <| prc := pr1 |> <| child_list := cl1 |>) /\
     (forall x, x <> ch -> pr1 x = prc s1 x) /\ changed (child_list s1) q (list_remove1 ch (child_list s q)) cl1) ->
  same_threads s s1 -> psch s1 = psch s -> ptab s1 = ptab s -> free_process_list s1 = free_process_list s ->
  exists s', free_process ch s1 = Ok (tt, s') /\ tree s' /\ quiet_procs s' pc /\ reaped s s' q ch.
Proof using All.
  intros Ht Hq Hlv Hnc Hnt Hpa [o [E1 Eo1]] Lo1 Hun [Th1 Ft1 R1 Htl1 _ _ _] K1 T1 F1.
  destruct (empty_rendez s pc ch Hq Hnt) as [Hrc Hrt]. assert (ch ∈ child_list s q) as Hin by (by apply (t_child _ Ht)).
  assert (q <> ch) as Hne by (intros ->; rw Hnc in Hin; set_solver). assert (ch ∉ free_process_list s) as Hnf by (intros ?%(t_freed _ Ht); done).
  pose proof (t_pid _ Ht ch Hlv) as Hget. destruct s1 as [k tb pr cl tl fp th_ ft rp]. simpl in *. subst k tb fp th_ ft rp.
  destruct (free_process_run (psch s) (ptab s) pr cl tl (free_process_list s) (thr s) (free_thread_list s) (thread_reaper_detached_thread_list s) pc q ch (list_remove1 ch (child_list s q)))
    as (k' & tb' & pr' & cl' & tl' & Hr & [Ep Epo] & Ec & Hcq & Eco & [Et Eto] & Hk' & Hz & Hth & Hcur & Hok & Hno & Hoth); try done; try (by rw E1); [apply Hq|apply Ht|].
  rw E1 /= in Hno Hoth. eexists. split; [exact Hr|].
  assert (changed (prc s) ch zero_Proc pr') as Hpr'. { split; [done|]. intros x Hx. by rw Epo // Eo1. }
  assert (forall x, x <> q -> cl' x = child_list s x) as Hcx. { intros x Hx. destruct (decide (x = ch)) as [->|]; [by rw Ec|]. by rw Eco // Lo1. }
  assert (forall x, tl' x = thread_list s x) as Htx. { intros x. destruct (decide (x = ch)) as [->|]; [by rw Et|]. by rw Eto. }
  assert (same_threads s (mkProcs k' tb' pr' cl' tl' (free_process_list s ++ [ch]) (thr s) (free_thread_list s) (thread_reaper_detached_thread_list s))) as Hsame by (by split).
  split; [by apply (tree_reaped s _ ch q)|]. split; [by apply (quiet_same s)|]. by split_and!.
Qed.
Lemma reap_after s s1 pc q ch : tree s -> quiet_procs s pc -> p_state (prc s ch) = PROC_STATE_EXITED -> p_parent (prc s ch) = Some q ->
  changed (prc s) ch ((prc s ch) <| child_old := (dl_prev ch (child_list s q), dl_next ch (child_list s q)) |>) (prc s1) ->
  changed (child_list s) q (list_remove1 ch (child_list s q)) (child_list s1) ->
  same_threads s s1 -> psch s1 = psch s -> ptab s1 = ptab s -> free_process_list s1 = free_process_list s ->
  exists s', free_process ch s1 = Ok (tt, s') /\ tree s' /\ quiet_procs s' pc /\ reaped s s' q ch.
Proof using All.
  intros Ht Hq He Hpa [E1 Eo1] [L1 Lo1] Hs K1 T1 F1. assert (live s ch) as Hlv by (rw /live He; done). destruct (exited_bare s ch Ht He) as [Hnc Hnt].
  assert (ch ∈ child_list s q) as Hin by (by apply (t_child _ Ht)). pose proof (t_nodup _ Ht q) as Hnd.
  apply (reap_run s s1 pc q ch); try done; [eexists; split; [exact E1|done]|]. intros tb'. destruct s1 as [k tb pr cl tl fp th_ ft rp]. simpl in *.
  destruct (unlink_again_run k tb' pr cl tl fp th_ ft rp q ch (child_list s q) Hnd Hin L1) as (pr1 & cl1 & R1 & [_ ?] & ?); [by rw E1|]. by exists pr1, cl1.
Qed.
(** A process that is still on its parent's list. *)
Lemma free_linked_spec s pc q ch : tree s -> quiet_procs s pc -> live s ch -> child_list s ch = [] -> thread_list s ch = [] -> p_parent (prc s ch) = Some q ->
  exists s', free_process ch s = Ok (tt, s') /\ tree s' /\ quiet_procs s' pc /\ reaped s s' q ch.
Proof using All.
  intros Ht Hq Hlv Hnc Hnt Hpa. apply (reap_run s s pc q ch); try done.
  - exists (child_old (prc s ch)). split; [by destruct (prc s ch)|done].
  - intros tb'. assert (ch ∈ child_list s q) as Hin by (by apply (t_child _ Ht)). destruct s as [k tb pr cl tl fp th_ ft rp]. simpl in *.
    destruct (unlink_run k tb' pr cl tl fp th_ ft rp q ch Hin) as (pr1 & cl1 & R1 & [_ ?] & ?). by exists pr1, cl1.
Qed.
Lemma wait_reap_spec s pc q ch : tree s -> quiet_procs s pc -> p_state (prc s ch) = PROC_STATE_EXITED -> p_parent (prc s ch) = Some q ->
  exists s', (_ ← unlink_child q ch; free_process ch) s = Ok (tt, s') /\ tree s' /\ quiet_procs s' pc /\ reaped s s' q ch.
Proof using All.
  intros Ht Hq He Hpa. assert (ch ∈ child_list s q) as Hin by (apply (t_child _ Ht); by rw /live He).
  destruct s as [k tb pr cl tl fp th_ ft rp] eqn:Es. rw -Es in Ht Hq |- *.
  destruct (unlink_run k tb pr cl tl fp th_ ft rp q ch Hin) as (pr1 & cl1 & R1 & Cp & Cl). rw {1}/mbind {1}/M_bind {1}Es R1.
  apply (reap_after s _ pc q ch); subst s; done.
Qed.

(** ** The children of a process that exits *)
Definition adopted s s' p ch : Prop :=
  same_threads s s' /\ changed (prc s) ch ((prc s ch) <| child_old := (None, head (tail (child_list s p))) |> <| p_parent := Some root_process |>) (prc s') /\
  child_list s' p = tail (child_list s p) /\ child_list s' root_process = child_list s root_process ++ [ch] /\
  (forall x, x <> p -> x <> root_process -> child_list s' x = child_list s x) /\ ptab s' = ptab s.
Lemma tree_adopted s s' p ch l : tree s -> child_list s p = ch :: l -> p <> root_process -> adopted s s' p ch -> 
  free_process_list s' = free_process_list s -> tree s'.
Proof using All.
  intros [K1 K2 K3 K4 K5 K6 K7 K8 K9 K10 K11 K12 K13] Hl Hpr ([Hth Hft Hrp Htl _ _ _] & [Ech Eo] & Hcp & Hcr & Hco & Hpt) Hfp.
  assert (forall x, p_state (prc s' x) = p_state (prc s x) /\ p_pid (prc s' x) = p_pid (prc s x)) as Hst.
  { intros x. destruct (decide (x = ch)) as [->|]; [by rw Ech|by rw Eo]. }
  assert (forall x, live s' x <-> live s x) as Hlive. { intros x. rw /live. by destruct (Hst x) as [-> _]. }
  assert (forall x, running s' x <-> running s x) as Hrun. { intros x. rw /running Hlive. by destruct (Hst x) as [-> _]. }
  assert (ch ∈ child_list s p) as Hch by (rw Hl; set_solver). apply K7 in Hch as [Hlv Hpa]. pose proof (K6 p) as Hnd. rw Hl in Hnd. apply NoDup_cons in Hnd as [Hchl Hnd].
  rw Hl /= in Hcp. assert (ch ∉ child_list s root_process) as Hnr by (intros [_ ?]%K7; congruence).
  split; rw ?Hpt ?Hfp ?Hrp ?Hft; try done.
  - intros x. rw Hlive. apply K3.
  - intros x. rw Hlive. destruct (Hst x) as [_ ->]. apply K4.
  - intros v x. rw Hlive. destruct (Hst x) as [_ ->]. apply K5.
  - intros q. destruct (decide (q = p)) as [->|]; [by rw Hcp|]. destruct (decide (q = root_process)) as [->|]; [|by rw Hco].
    rw Hcr. apply NoDup_app. split_and!; [done|set_solver|apply NoDup_singleton].
  - intros q x. rw Hlive. destruct (decide (x = ch)) as [->|Hx].
    + rw Ech /=. destruct (decide (q = p)) as [->|]; [rw Hcp; naive_solver|]. destruct (decide (q = root_process)) as [->|]; [rw Hcr; set_solver|].
      rw Hco // K7. naive_solver.
    + rw Eo // -K7. destruct (decide (q = p)) as [->|]; [rw Hcp Hl; set_solver|]. destruct (decide (q = root_process)) as [->|]; [rw Hcr; set_solver|by rw Hco].
  - intros x q. rw Hlive Hrun. destruct (decide (x = ch)) as [->|Hx]; [rw Ech /=; intros _ [= <-]; apply K9|]. rw Eo //. apply K8.
  - rw Hrun. destruct K9 as [Hr Hn]. split; [done|]. rw Eo //. intros E. congruence.
  - intros q. by rw Htl.
  - intros q t. rw Htl Hrun Hth. apply K11.
  - intros x. rw Hlive. destruct (decide (x = ch)) as [->|Hne]; [|rw Eo //; apply K13]. rw Ech /=. intros _ [= E]. destruct K9 as [_ Hn]. congruence.
Qed.

(** What has become of the rest when the children of [p] are gone. *)
Record detached s s' p : Prop := {
  d_threads : same_threads s s';
  d_prc : forall x, x ∉ child_list s p -> prc s' x = prc s x;
  d_freed : forall x, x ∈ child_list s p -> p_state (prc s x) = PROC_STATE_EXITED -> prc s' x = zero_Proc;
  d_moved : forall x, x ∈ child_list s p -> p_state (prc s x) <> PROC_STATE_EXITED ->
    exists o, prc s' x = (prc s x) <| child_old := o |> <| p_parent := Some root_process |>;
  d_lists : forall q, q <> p -> q <> root_process -> child_list s' q = child_list s q;
  d_root : exists l, child_list s' root_process = child_list s root_process ++ l /\ forall x, x ∈ l <-> x ∈ child_list s p /\ p_state (prc s x) <> PROC_STATE_EXITED;
  d_pids : forall v o, pt_get (ptab s') v = Some o -> pt_get (ptab s) v = Some o;
  d_kept : forall v o, pt_get (ptab s) v = Some o -> pt_get (ptab s') v = None -> exists x, o = OwnProc x /\ x ∈ child_list s p /\ p_state (prc s x) = PROC_STATE_EXITED }.
Lemma detach_turn s pc p ch l : tree s -> quiet_procs s pc -> p <> root_process -> child_list s p = ch :: l ->
  exists s', (_ ← modify (fun s => s <| child_list ::= fun m => <[p := l]> m |>);
      _ ← upd_prc ch (fun x => x <| child_old := (None, head l) |>);
      x ← gets (fun s => prc s ch);
      if decide (p_state x = PROC_STATE_EXITED) then free_process ch
      else _ ← on_children root_process (dl_add_tail ch); upd_prc ch (fun x => x <| p_parent := Some root_process |>)) s = Ok (tt, s') /\
    tree s' /\ quiet_procs s' pc /\ child_list s' p = l /\
    (if decide (p_state (prc s ch) = PROC_STATE_EXITED) then reaped s s' p ch else adopted s s' p ch).
Proof using All.
  intros Ht Hq Hpr Hl. assert (ch ∈ child_list s p) as Hch by (rw Hl; set_solver). apply (t_child _ Ht) in Hch as [Hlv Hpa].
  assert (dl_prev ch (child_list s p) = None /\ dl_next ch (child_list s p) = head l /\ list_remove1 ch (child_list s p) = l) as (D1 & D2 & D3).
  { rw Hl /dl_prev /=. rw !decide_True //. }
  set s1 := s <| child_list ::= fun m => <[p := l]> m |> <| prc ::= fun m => <[ch := (m ch) <| child_old := (None, head l) |>]> m |>.
  assert (changed (prc s) ch ((prc s ch) <| child_old := (None, head l) |>) (prc s1)) as Cp by apply changed_insert.
  assert (changed (child_list s) p l (child_list s1)) as Cl by apply changed_insert. pose proof Cp as [Ep Epo]. pose proof Cl as [El Elo].
  rw {1}/mbind {1}/M_bind {1}/modify {1}/mbind {1}/M_bind {1}/upd_prc {1}/modify {1}/mbind {1}/M_bind {1}/gets -/s1 Ep. cbn [p_state].
  change (p_state ((prc s ch) <| child_old := (None, head l) |>)) with (p_state (prc s ch)).
  destruct (decide (p_state (prc s ch) = PROC_STATE_EXITED)) as [He|He].
  - destruct (reap_after s s1 pc p ch Ht Hq He Hpa) as (s' & Hr & Ht' & Hq' & Hre); try done; [by rw D1 D2|by rw D3|].
    exists s'. split_and!; try done. destruct Hre as (_ & _ & _ & -> & _). done.
  - assert (ch ∉ child_list s root_process) as Hnr. { intros [_ E]%(t_child _ Ht). congruence. }
    rw {1}/mbind {1}/M_bind {1}/on_children {1}/update Elo; [congruence|]. rw dl_add_tail_ok //. eexists. split; [reflexivity|]. set s' := _ <| prc ::= _ |>.
    assert (adopted s s' p ch) as Ha.
    { split_and!; [by split|..|done].
      - split; [rw /s' /s1 /= !fn_lookup_insert Hl //|]. intros x Hx. rw /s' /s1 /=. by reads.
      - rw /s' /s1 /= Hl. by reads.
      - rw /s' /s1 /=. by reads.
      - intros x H1' H2'. rw /s' /s1 /=. by reads. }
    split; [by apply (tree_adopted s s' p ch l)|]. split; [apply (quiet_same s); [done|apply Hq|apply Ha]|]. split; [|done]. destruct Ha as (_ & _ & -> & _). by rw Hl.
Qed.

Lemma reaped_detached s s1 s' p ch l : tree s -> p <> root_process -> child_list s p = ch :: l -> p_state (prc s ch) = PROC_STATE_EXITED -> reaped s s1 p ch ->
  detached s1 s' p -> detached s s' p.
Proof using All.
  intros Ht Hpr Hl He (Hs & [Ep Epo] & Hco & Hcp & Hno & Hoth) [D1 D2 D3 D4 D5 D6 D7 D8].
  pose proof (t_nodup _ Ht p) as Hnd. rw Hl in Hnd. apply NoDup_cons in Hnd as [Hchl Hnd]. rw Hl /= decide_True // in Hcp.
  assert (forall x, x ∈ l -> x <> ch) as Hne by (intros x ? ->; done). rw Hcp in D2 D3 D4 D6 D8.
  split; rw ?Hl; [by apply (same_threads_trans s s1)|..].
  - intros x Hx. rw D2; [set_solver|]. apply Epo. set_solver.
  - intros x [->|Hx]%elem_of_cons Hs'; [by rw D2|]. apply D3; [done|]. rw Epo //. by apply Hne.
  - intros x [->|Hx]%elem_of_cons Hs'; [done|]. rw -(Epo x (Hne x Hx)) in Hs' |- *. by apply D4.
  - intros q H1' H2'. by rw D5 // Hco.
  - destruct D6 as (l' & E & Hl'). exists l'. rw E Hco; [congruence|]. split; [done|]. intros x. rw Hl'. split.
    + intros [Hx Hsx]. rw Epo in Hsx; [by apply Hne|]. set_solver.
    + intros [[->|Hx]%elem_of_cons Hsx]; [done|]. split; [done|]. rw Epo //. by apply Hne.
  - intros v o Hv%D7. rw -Hoth //. intros ->. congruence.
  - intros v o Hv Hv'. destruct (decide (v = p_pid (prc s ch))) as [->|Hvn].
    + exists ch. rw (t_pid _ Ht) in Hv; [rw /live; congruence|]. injection Hv as <-. set_solver.
    + destruct (D8 v o) as (x & -> & Hx & Hsx); [by rw Hoth|done|]. rw Epo in Hsx; [by apply Hne|]. exists x. set_solver.
Qed.
Lemma adopted_detached s s1 s' p ch l : tree s -> p <> root_process -> child_list s p = ch :: l -> p_state (prc s ch) <> PROC_STATE_EXITED -> adopted s s1 p ch ->
  detached s1 s' p -> detached s s' p.
Proof using All.
  intros Ht Hpr Hl He (Hs & [Ep Epo] & Hcp & Hcr & Hco & Hpt) [D1 D2 D3 D4 D5 D6 D7 D8].
  pose proof (t_nodup _ Ht p) as Hnd. rw Hl in Hnd. apply NoDup_cons in Hnd as [Hchl Hnd]. rw Hl /= in Hcp.
  assert (forall x, x ∈ l -> x <> ch) as Hne by (intros x ? ->; done). rw Hcp in D2 D3 D4 D6 D8. rw Hpt in D7 D8.
  split; rw ?Hl; [by apply (same_threads_trans s s1)|..].
  - intros x Hx. rw D2; [set_solver|]. apply Epo. set_solver.
  - intros x [->|Hx]%elem_of_cons Hs'; [done|]. apply D3; [done|]. rw Epo //. by apply Hne.
  - intros x [->|Hx]%elem_of_cons Hs'; [rw D2 // Ep; by eexists|]. rw -(Epo x (Hne x Hx)) in Hs' |- *. by apply D4.
  - intros q H1' H2'. by rw D5 // Hco.
  - destruct D6 as (l' & E & Hl'). exists (ch :: l'). rw E Hcr -app_assoc. split; [done|]. intros x. rw elem_of_cons Hl'. split.
    + intros [->|[Hx Hsx]]; [set_solver|]. rw Epo in Hsx; [by apply Hne|]. set_solver.
    + intros [[->|Hx]%elem_of_cons Hsx]; [by left|right]. split; [done|]. rw Epo //. by apply Hne.
  - done.
  - intros v o Hv Hv'. destruct (D8 v o Hv Hv') as (x & -> & Hx & Hsx). rw Epo in Hsx; [by apply Hne|]. exists x. set_solver.
Qed.
Lemma detach_spec pc p : p <> root_process -> forall l s, tree s -> quiet_procs s pc -> child_list s p = l ->
  exists s', detach_loop (length l) p s = Ok (tt, s') /\ tree s' /\ quiet_procs s' pc /\ child_list s' p = [] /\ detached s s' p.
Proof using All.
  intros Hpr. induction l as [|ch l IH]; intros s Ht Hq Hl.
  { exists s. cbn [length detach_loop]. rw {1}/mbind {1}/M_bind {1}/gets Hl. split_and!; try done. split; rw ?Hl; try done; try (intros x Hx; by apply elem_of_nil in Hx); try by split.
    - exists []. rw app_nil_r. set_solver.
    - intros v o Hv. by rw Hv. }
  destruct (detach_turn s pc p ch l Ht Hq Hpr Hl) as (s1 & Hr & Ht1 & Hq1 & Hl1 & Hcase). destruct (IH s1 Ht1 Hq1 Hl1) as (s' & Hr' & Ht' & Hq' & Hl' & Hd).
  exists s'. split.
  { cbn [length detach_loop]. rw {1}/mbind {1}/M_bind {1}/gets Hl. cbn [tail]. revert Hr. rw /mbind /M_bind /modify /upd_prc /gets /=. clear -Hr'.
    set b := decide _. destruct b as [e|e]; [destruct (free_process ch _) as [[[] s2]| |]; try done; intros [= ->]; exact Hr'|].
    destruct (on_children root_process (dl_add_tail ch) _) as [[[] s2]| |]; try done. intros [= <-]. exact Hr'. }
  split_and!; try done. destruct (decide (p_state (prc s ch) = PROC_STATE_EXITED)) as [He|He]; [by apply (reaped_detached s s1 s' p ch l)|by apply (adopted_detached s s1 s' p ch l)].
Qed.
End inv.
