(* ===== verification/ProcFork.v ===== *)
(** * ProcFork: new processes and their threads

    What [alloc_process], [fork_thread] and [sys_fork] do to the tree of
    processes, and that they return on every path. *)

From S2P Require Import Prelude Sched SchedQueue Bkl BklSteps Event EventThms Frames Proc ProcInv.
Local Open Scope Z_scope.
Local Open Scope kernel_scope.

(** A thread that has stopped may be given new contents. *)
Lemma exited_reset s pc t x : kinv s pc -> pc t = LExited -> params_ok x -> sched_policy x <> SCHED_IDLE -> state x <> THREAD_STATE_RENDEZ_BLOCKED ->
  kinv (s <| th ::= fun m => <[t := x]> m |>) pc.
Proof.
  intros Hi Hx Hp Hid Hst. pose proof Hi as [Hk [c Hon]]. destruct (exited_outside s pc c t Hi Hon Hx) as [(Hq & HB & Ha & _) Hne].
  destruct (k_exited _ _ _ Hk t Hx) as [_ Hnid]; [done|]. set s' := s <| th ::= _ |>.
  assert (th s' t = x) as Et by (rw /s' /=; by reads). assert (forall y, y <> t -> th s' y = th s y) as Eo by (intros y Hy; rw /s' /=; by reads).
  apply not_eq_sym in Hne. split; [|exists c; destruct Hon as [? ?]; split; [done|]; by rw Eo]. apply (kcore_requeue s); try done.
  - destruct (k_q _ _ _ Hk) as [Q1 Q2 Q3 Q4]. split; try done.
    + intros p y Hy. rw Eo; [intros ->; apply Hq; by exists p|]. by apply Q1.
    + intros y. destruct (decide (y = t)) as [->|]; [by rw Et|by rw Eo].
    + destruct Q4 as (i & Hi' & Hpi). exists i. split; [done|]. rw Eo //. congruence.
  - intros y Hy. rw Eo //. intros ->. naive_solver.
  - intros y. destruct (decide (y = t)) as [->|]; [by rw Et|by rw Eo].
  - intros y _ _ Hy ?. split; [done|]. destruct (decide (y = t)) as [->|]; [|by rw Eo].
  by rw Et.
Qed.

Section fork.
Context {T : Type} `{PidTable T, Apart}.
Implicit Types (s : procs T) (p q n c t : nat) (pc : nat -> loc).

(** ** Process structures *)
Lemma free_bare s p : tree s -> ~ live s p -> child_list s p = [] /\ thread_list s p = [].
Proof using All.
  intros Ht Hn. split.
  - destruct (child_list s p) as [|x l] eqn:El; [done|]. assert (x ∈ child_list s p) as Hx by (rw El; set_solver). apply (t_child _ Ht) in Hx as [Hx Hp].
    by destruct (t_parent _ Ht x p Hx Hp).
  - destruct (thread_list s p) as [|x l] eqn:El; [done|]. assert (x ∈ thread_list s p) as Hx by (rw El; set_solver). by destruct (t_member _ Ht p x Hx) as (_ & [? _] & _).
Qed.
Lemma clear_spec s pc p : quiet_procs s pc -> child_list s p = [] -> thread_list s p = [] ->
  exists s', clear_process p s = Ok (tt, s') /\ quiet_procs s' pc /\ same_threads s s' /\ ptab s' = ptab s /\ free_process_list s' = free_process_list s /\
    changed (prc s) p zero_Proc (prc s') /\ (forall x, child_list s' x = child_list s x).
Proof using All.
  intros Hq Hc Ht. destruct (empty_rendez s pc p Hq Ht) as [Hrc Hrt]. destruct s as [k tb pr cl tl fp th_ ft rp] eqn:Es.
  destruct (clear_process_run k tb pr cl tl fp th_ ft rp pc p (q_kinv _ _ Hq) Hrc Hrt) as (k' & pr' & cl' & tl' & Hr & Cp & [Cc Cco] & [Ct Cto] & Hk & Hz & Hth & Hcur).
  eexists. split; [exact Hr|]. simpl in *. assert (forall x, tl' x = tl x) as Htl. { intros x. destruct (decide (x = p)) as [->|]; [by rw Ct|by rw Cto]. }
  assert (same_threads (mkProcs k tb pr cl tl fp th_ ft rp) (mkProcs k' tb pr' cl' tl' fp th_ ft rp)) as Hs by (by split).
  split_and!; try done; [by apply (quiet_same _ _ _ Hq)|apply Cp..|]. intros x. simpl. destruct (decide (x = p)) as [->|]; [by rw Cc|by rw Cco].
Qed.

(** The process [n] is new, with the pid [v] and the parent [q]. *)
Definition born s s' q n v : Prop :=
  same_threads s s' /\ changed (prc s) n (mkProc v 0 (Some q) PROC_STATE_INIT 0 false (None, None)) (prc s') /\
  child_list s' q = child_list s q ++ [n] /\ (forall x, x <> q -> child_list s' x = child_list s x) /\
  0 < v /\ pt_get (ptab s) v = None /\ pt_get (ptab s') v = Some (OwnProc n) /\ (forall w, w <> v -> pt_get (ptab s') w = pt_get (ptab s) w).
(** Nothing but unused structures changed. *)
Definition unborn s s' : Prop :=
  same_threads s s' /\ (forall p, live s p -> prc s' p = prc s p) /\ (forall p, live s' p -> live s p) /\
  (forall p, child_list s' p = child_list s p) /\ (forall v, pt_get (ptab s') v = pt_get (ptab s) v).
Lemma unborn_refl s : unborn s s.
Proof using Type. by split; [split|]. Qed.

Lemma tree_unborn s s' : tree s -> unborn s s' -> pt_ok (ptab s') -> NoDup (free_process_list s') -> (forall p, p ∈ free_process_list s' -> p ∈ free_process_list s) -> tree s'.
Proof using All.
  intros [K1 K2 K3 K4 K5 K6 K7 K8 K9 K10 K11 K12 K13] ([H1' H2' H3' H4' _ _ _] & Hpr & Hlv & Hcl & Hpt) Hok Hn Hf.
  assert (forall p, live s' p <-> live s p) as Hlive. { intros p. split; [apply Hlv|]. intros Hp. rw /live Hpr //. }
  assert (forall p, running s' p <-> running s p) as Hrun. { intros p. rw /running Hlive. split; intros [? ?]; (split; [done|]); [rw -Hpr //|rw Hpr //]. }
  split; rw ?H1' ?H2' ?H3'; try done.
  - intros p Hp. rw Hlive. by apply K3, Hf.
  - intros p Hp%Hlv. rw Hpr // Hpt. by apply K4.
  - intros v p. rw Hpt Hlive. intros Hv. destruct (K5 v p Hv) as [Hp E]. by rw Hpr.
  - intros q. by rw Hcl.
  - intros q ch. rw Hcl K7 Hlive. split; intros [Hl E]; (split; [done|]); [rw Hpr //|rw -Hpr //].
  - intros p q Hp%Hlv. rw Hpr // Hrun. by apply K8.
  - rw Hrun. destruct K9 as [Hr Hp]. split; [done|]. rw Hpr //. apply Hr.
  - intros p. by rw H4'.
  - intros p t. rw H4' Hrun. apply K11.
  - intros p Hp%Hlv. rw Hpr //. by apply K13.
Qed.
Lemma tree_born s s' q n v l : tree s -> running s q -> free_process_list s = n :: l -> born s s' q n v -> pt_ok (ptab s') -> free_process_list s' = l -> tree s'.
Proof using All.
  intros Ht Hq Hfp ([H1' H2' H3' H4' _ _ _] & [En Eo] & Hcq & Hco & Hv0 & Hv & Hv' & Hoth) Hok Hfp'.
  assert (~ live s n) as Hnl by (apply (t_freed _ Ht); rw Hfp; set_solver). destruct (free_bare s n Ht Hnl) as [Hnc Hnt].
  destruct Ht as [K1 K2 K3 K4 K5 K6 K7 K8 K9 K10 K11 K12 K13]. rw Hfp in K2. apply NoDup_cons in K2 as [Hnf K2].
  assert (forall p, p <> n -> live s' p <-> live s p) as Hlive. { intros p Hp. rw /live Eo //. }
  assert (forall p, live s p -> p <> n) as Hne by (intros p Hp ->; done).
  assert (forall p, running s p -> running s' p) as Hrun. { intros p [Hp Hs]. split; [by apply Hlive; [apply Hne|]|]. rw Eo //. by apply Hne. }
  assert (live s' n) as Hln by (rw /live En; done).
  assert (forall p, live s' p -> p = n \/ live s p) as Hcase. { intros p Hp. destruct (decide (p = n)); [by left|right]. by apply Hlive. }
  assert (n <> q) as Hnq by (intros ->; by destruct Hq).
  split; rw ?H1' ?H2' ?H3' ?Hfp'; try done.
  - intros p Hp. rw Hlive; [intros ->; done|]. apply K3. rw Hfp. set_solver.
  - intros p [->|Hp]%Hcase; [by rw En|]. rw Eo; [by apply Hne|]. rw Hoth; [|by apply K4]. intros E. pose proof (K4 p Hp) as E'. rw E Hv in E'. done.
  - intros w p Hw. destruct (decide (w = v)) as [->|Hwv].
    + rw Hv' in Hw. injection Hw as <-. by rw En.
    + rw Hoth // in Hw. destruct (K5 w p Hw) as [Hp E]. rw Hlive; [by apply Hne|]. rw Eo //. by apply Hne.
  - intros x. destruct (decide (x = q)) as [->|Hx]; [|by rw Hco]. rw Hcq. apply NoDup_app. split_and!; [done| |apply NoDup_singleton].
    intros y Hy ->%list_elem_of_singleton. by apply K7 in Hy as [? _].
  - intros x ch. destruct (decide (ch = n)) as [->|Hch].
    + rw En /=. destruct (decide (x = q)) as [->|Hx]; [rw Hcq; set_solver|]. rw Hco // K7. naive_solver.
    + rw Hlive // Eo // -K7. destruct (decide (x = q)) as [->|Hx]; [rw Hcq; set_solver|by rw Hco].
  - intros p x [->|Hp]%Hcase; [rw En /=; intros [= <-]; by apply Hrun|]. rw Eo; [by apply Hne|]. intros Hx. by apply Hrun, (K8 p).
  - destruct K9 as [Hr Hp]. split; [by apply Hrun|]. rw Eo //. apply Hne, Hr.
  - intros p. by rw H4'.
  - intros p t. rw H4'. intros Hin. destruct (K11 p t Hin) as (? & ? & ? & ?). split_and!; try done. by apply Hrun.
  - intros p [->|Hp]%Hcase; [rw En /=; congruence|]. rw Eo; [by apply Hne|]. by apply K13.
Qed.

Lemma struct_free_spec s pc p : quiet_procs s pc -> child_list s p = [] -> thread_list s p = [] -> (p ∉ free_process_list s) ->
  exists s', free_process_struct p s = Ok (tt, s') /\ quiet_procs s' pc /\ same_threads s s' /\ ptab s' = ptab s /\ free_process_list s' = free_process_list s ++ [p] /\
    changed (prc s) p zero_Proc (prc s') /\ (forall x, child_list s' x = child_list s x).
Proof using All.
  intros Hq Hc Ht Hn. destruct (clear_spec s pc p Hq Hc Ht) as (s1 & Hr & Hq1 & Hs & Hpt & Hf & [Ep Epo] & Hcl).
  rw /free_process_struct {1}/mbind {1}/M_bind Hr {1}/mbind {1}/M_bind {1}/upd_prc {1}/modify /on_free_procs /update /=. rw Hf dl_add_tail_ok //.
  eexists. split; [reflexivity|]. assert (same_threads s (s1 <| prc ::= fun m => <[p := (m p) <| p_state := PROC_STATE_FREE |>]> m |> <| free_process_list := free_process_list s ++ [p] |>)) as Hs'.
  { destruct Hs. by split. }
  split_and!; [by apply (quiet_same s); try apply Hq1|done..| |done]. split; simpl; [by reads; rw Ep|]. intros x Hx. reads. by apply Epo.
Qed.
Lemma struct_alloc_spec s pc n l : tree s -> quiet_procs s pc -> free_process_list s = n :: l ->
  exists s', alloc_process_struct s = Ok (Some n, s') /\ quiet_procs s' pc /\ same_threads s s' /\ ptab s' = ptab s /\ free_process_list s' = l /\
    changed (prc s) n zero_Proc (prc s') /\ (forall x, child_list s' x = child_list s x).
Proof using All.
  intros Ht Hq Hf. destruct (free_bare s n Ht) as [Hc Htl]; [apply (t_freed _ Ht); rw Hf; set_solver|]. set s0 := s <| free_process_list := l |>.
  assert (quiet_procs s0 pc) as Hq0 by (apply (quiet_same s s0 pc Hq); [apply Hq|by split]).
  destruct (clear_spec s0 pc n Hq0 Hc Htl) as (s1 & Hr & Hq1 & Hs & Hpt & Hf1 & Cp & Hcl). exists s1. split_and!; try done.
  - rw /alloc_process_struct {1}/mbind {1}/M_bind {1}/gets Hf {1}/mbind {1}/M_bind {1}/on_free_procs {1}/update Hf /= -/s0. by rw {1}/mbind {1}/M_bind Hr.
  - apply (same_threads_trans s s0); [by split|done].
Qed.
Lemma alloc_process_spec s pc q : tree s -> quiet_procs s pc -> running s q ->
  exists r s', alloc_process (Some q) s = Ok (r, s') /\ tree s' /\ quiet_procs s' pc /\
    match r with None => unborn s s' | Some n => ~ live s n /\ exists v, born s s' q n v end.
Proof using All.
  intros Ht Hq Hrq. rw /alloc_process {1}/mbind {1}/M_bind. destruct (free_process_list s) as [|n l] eqn:Hf.
  { exists None, s. rw /alloc_process_struct {1}/mbind {1}/M_bind {1}/gets Hf. split_and!; try done. }
  assert (~ live s n) as Hnl by (apply (t_freed _ Ht); rw Hf; set_solver). destruct (free_bare s n Ht Hnl) as [Hnc Hnt].
  pose proof (t_nofree _ Ht) as Hnd. rw Hf in Hnd. apply NoDup_cons in Hnd as [Hnl' Hnd].
  destruct (struct_alloc_spec s pc n l Ht Hq Hf) as (s1 & -> & Hq1 & Hs1 & Hpt1 & Hf1 & [Ep1 Eo1] & Hcl1).
  destruct (pt_alloc_ok (ptab s1) (OwnProc n)) as (r & tb & Ha & Hok & Hr); [rw Hpt1; apply Ht|]. rw {1}/mbind {1}/M_bind (on_ptab_run _ _ r tb) //.
  set s2 := s1 <| ptab := tb |>. assert (quiet_procs s2 pc) as Hq2 by (apply (quiet_same s1 s2 pc Hq1); [apply Hq1|by split]).
  destruct r as [v|e].
  - destruct Hr as (Hv0 & Hv & Hv' & Hoth). rw Hpt1 in Hv Hoth. assert (n <> q) as Hnq by (intros ->; by destruct Hrq).
    destruct (empty_rendez s2 pc n Hq2) as [Hrc Hrt]. { change (thread_list s2 n) with (thread_list s1 n). by rw (h_list _ _ Hs1). }
    destruct (InitRendez_kinv (psch s2) pc (child_list_rendez n) (q_kinv _ _ Hq2) Hrc) as (k1 & R1 & Hk1 & Z1 & Th1 & C1 & _).
    destruct (InitRendez_kinv k1 pc (thread_list_rendez n) Hk1) as (k2 & R2 & Hk2 & Z2 & Th2 & C2 & _); [by rw Z1|].
    rw {1}/mbind {1}/M_bind {1}/upd_prc {1}/modify {1}/mbind {1}/M_bind {1}/on_children {1}/update. set s3 := s2 <| prc ::= _ |>.
    change (child_list s3 q) with (child_list s1 q). rw Hcl1 dl_add_tail_ok; [by intros [? _]%(t_child _ Ht)|].
    rw {1}/mbind {1}/M_bind {1}/upd_prc {1}/modify {1}/mbind {1}/M_bind (on_psch_run _ _ tt k1) // {1}/mbind {1}/M_bind (on_psch_run _ _ tt k2) // {1}/mbind {1}/M_bind {1}/modify.
    eexists (Some n), _. split; [reflexivity|]. set s' := _ <| thread_list ::= _ |>.
    assert (same_threads s s') as Hs.
    { destruct Hs1 as [A1 A2 A3 A4 A5 A6 A7]. split; try done.
      - intros p. rw /s' /=. destruct (decide (n = p)) as [->|]; reads; [done|apply A4].
      - intros r. rw /s' /= Z2 Z1. apply A5.
      - rw /s' /= Th2 Th1. apply A6.
      - rw /s' /= C2 C1. apply A7. }
    assert (born s s' q n v) as Hb.
    { split_and!; try done.
      - split; [rw /s' /s3 /=; reads; by rw Ep1|]. intros x Hx. rw /s' /s3 /=. reads. by apply Eo1.
      - rw /s' /s3 /=. by reads.
      - intros x Hx. rw /s' /s3 /=. destruct (decide (n = x)) as [<-|]; reads; [done|]. apply Hcl1. }
    split; [by apply (tree_born s s' q n v l)|]. split; [by apply (quiet_same s s' pc Hq)|]. split; [done|]. by exists v.
  - subst tb. destruct (struct_free_spec s2 pc n Hq2) as (s3 & Hr3 & Hq3 & Hs3 & Hpt3 & Hf3 & [Ep3 Eo3] & Hcl3).
    { by rw /s2 /= Hcl1. } { change (thread_list s2 n) with (thread_list s1 n). by rw (h_list _ _ Hs1). } { by rw /s2 /= Hf1. }
    exists None, s3. rw {1}/mbind {1}/M_bind Hr3. split; [done|]. assert (same_threads s s3) as Hs.
    { apply (same_threads_trans s s1); [done|]. by apply (same_threads_trans s1 s2); [split|]. }
    assert (unborn s s3) as Hu.
    { split_and!; [done|..].
      - intros p Hp. assert (p <> n) as Hne by (intros ->; done). by rw Eo3 // Eo1.
      - intros p. rw /live. destruct (decide (p = n)) as [->|]; [by rw Ep3|]. by rw Eo3 // Eo1.
      - intros p. by rw Hcl3 Hcl1.
      - intros v. rw Hpt3 /s2 /=. by rw Hpt1. }
    split_and!; try done. apply (tree_unborn s); try done; rw ?Hpt3 ?Hf3 /s2 /= ?Hf1 ?Hf; try done.
    + apply NoDup_app. split_and!; [done|set_solver|apply NoDup_singleton].
    + set_solver.
Qed.

(** ** Threads *)

(** A thread sleeps on its own rendez only; those that are free, or wait for
    the reaper, have stopped; the others and the latter have a tid. *)
Record pool s pc : Prop := {
  i_own : forall u t, u ∈ rendez (psch s) (thread_rendez t) -> u = t;
  i_dead : forall t, t ∈ free_thread_list s \/ t ∈ thread_reaper_detached_thread_list s -> pc t = LExited;
  i_reap : NoDup (thread_reaper_detached_thread_list s);
  i_apart : forall t, t ∈ thread_reaper_detached_thread_list s -> t ∉ free_thread_list s;
  i_tid : forall t, (exists p, t ∈ thread_list s p) \/ t ∈ thread_reaper_detached_thread_list s -> pt_get (ptab s) (t_tid (thr s t)) = Some (OwnThread t) }.

Lemma tree_same_procs s s' : tree s -> prc s' = prc s -> (forall p, child_list s' p = child_list s p) -> free_process_list s' = free_process_list s -> pt_ok (ptab s') ->
  (forall v p, pt_get (ptab s') v = Some (OwnProc p) <-> pt_get (ptab s) v = Some (OwnProc p)) -> (forall p, NoDup (thread_list s' p)) -> NoDup (free_thread_list s') ->
  (forall p t, t ∈ thread_list s' p -> t_process (thr s' t) = p /\ running s p /\ (t ∉ thread_reaper_detached_thread_list s') /\ (t ∉ free_thread_list s')) -> tree s'.
Proof using All.
  intros [K1 K2 K3 K4 K5 K6 K7 K8 K9 K10 K11 K12 K13] Hp Hc Hf Hok Hpt Hnt Hnf Hmem.
  assert (forall p, live s' p <-> live s p) as Hl by (intros p; by rw /live Hp). assert (forall p, running s' p <-> running s p) as Hr by (intros p; by rw /running Hl Hp).
  split; rw ?Hp ?Hf; try done.
  - intros p. rw Hl. apply K3.
  - intros p. rw Hl Hpt. apply K4.
  - intros v p. rw Hl Hpt. apply K5.
  - intros q. by rw Hc.
  - intros q ch. by rw Hc Hl K7.
  - intros p q. rw Hl Hr. apply K8.
  - by rw Hr.
  - intros p t Ht. rw Hr. by apply Hmem.
  - intros p. rw Hl. apply K13.
Qed.

(** The threads in use are as they were. *)
Record same_pool s s' : Prop := {
  l_prc : prc s' = prc s;
  l_child : child_list s' = child_list s;
  l_fproc : free_process_list s' = free_process_list s;
  l_reaper : thread_reaper_detached_thread_list s' = thread_reaper_detached_thread_list s;
  l_list : thread_list s' = thread_list s;
  l_free : free_thread_list s' ≡ₚ free_thread_list s;
  l_thr : forall t, t ∉ free_thread_list s -> thr s' t = thr s t;
  l_rendez : forall r, rendez (psch s') r = rendez (psch s) r;
  l_cur : current_thread (psch s') = current_thread (psch s);
  l_pids : forall v, pt_get (ptab s') v = pt_get (ptab s) v }.
Lemma same_pool_ok s s' pc : tree s -> quiet_procs s pc -> pool s pc -> same_pool s s' -> pt_ok (ptab s') -> kinv (psch s') pc -> tree s' /\ quiet_procs s' pc /\ pool s' pc.
Proof using All.
  intros Ht [Q1 Q2 Q3] [I1 I2 I3 I4 I5] [L1 L2 L3 L4 L5 L6 L7 L8 L9 L10] Hok Hk. split_and!.
  - apply (tree_same_procs s); try done; rw ?L4 ?L5 ?L2 //; [intros v p; by rw L10|apply Ht|rw L6; apply Ht|].
    intros p t Hin. rw L6. destruct (t_member _ Ht p t Hin) as (? & ? & ? & ?). by rw L7.
  - split; [done|..]; intros q t; rw L8 L5; auto.
  - split; rw ?L4 ?L5; try done.
    + intros u t. rw L8. apply I1.
    + intros t. rw L6. apply I2.
    + intros t Hin. rw L6. by apply I4.
    + intros t Hin. rw L10 L7; [|by apply I5]. destruct Hin as [[p Hin]|Hin]; [by destruct (t_member _ Ht p t Hin) as (_ & _ & _ & ?)|by apply I4].
Qed.

Lemma upd_exited k pc t f : kinv k pc -> pc t = LExited -> params_ok (f (th k t)) -> sched_policy (f (th k t)) <> SCHED_IDLE -> state (f (th k t)) <> THREAD_STATE_RENDEZ_BLOCKED ->
  exists k', upd_th t f k = Ok (tt, k') /\ kinv k' pc /\ rendez k' = rendez k /\ current_thread k' = current_thread k /\ changed (th k) t (f (th k t)) (th k').
Proof using All. intros Hk Hx Hp Hid Hst. eexists. split; [reflexivity|]. split; [by apply (exited_reset k pc t)|]. split_and!; [done..|apply changed_insert]. Qed.
Lemma clear_thread_spec s pc t : kinv (psch s) pc -> pc t = LExited ->
  exists k, clear_thread t s = Ok (tt, s <| thr ::= fun m => <[t := zero_Thr]> m |> <| psch := k |>) /\ kinv k pc /\ rendez k = rendez (psch s) /\
    current_thread k = current_thread (psch s) /\ changed (th (psch s)) t zero_Thread (th k).
Proof using All.
  intros Hk Hx. destruct (upd_exited (psch s) pc t (fun _ => zero_Thread) Hk Hx) as (k & Hr & ? & ? & ? & ?); [by rw /params_ok /=|done..|].
  exists k. split; [|done]. rw /clear_thread {1}/mbind {1}/M_bind {1}/upd_thr {1}/modify. by apply on_psch_run.
Qed.

(** The first thread [t] of the process [n], with the tid [v]. *)
Record threaded s s' n t v : Prop := {
  w_prc : prc s' = prc s;
  w_child : child_list s' = child_list s;
  w_fproc : free_process_list s' = free_process_list s;
  w_reaper : thread_reaper_detached_thread_list s' = thread_reaper_detached_thread_list s;
  w_list : changed (thread_list s) n [t] (thread_list s');
  w_free : free_thread_list s = t :: free_thread_list s';
  w_thr : changed (thr s) t (mkThr n v true 0 None) (thr s');
  w_rendez : forall r, rendez (psch s') r = rendez (psch s) r;
  w_cur : current_thread (psch s') = current_thread (psch s);
  w_th : forall u, u <> t -> th (psch s') u = th (psch s) u;
  w_new : pt_get (ptab s) v = None /\ pt_get (ptab s') v = Some (OwnThread t);
  w_pids : forall w, w <> v -> pt_get (ptab s') w = pt_get (ptab s) w }.

Lemma threaded_ok s s' n t v pc pc' : tree s -> quiet_procs s pc -> pool s pc -> running s n -> thread_list s n = [] -> threaded s s' n t v -> pt_ok (ptab s') ->
  (forall k, (forall r, rendez k r = rendez (psch s') r) -> kinv k pc' -> (forall u, u <> t -> pc' u = pc u) -> 
   tree (s' <| psch := k |>) /\ quiet_procs (s' <| psch := k |>) pc' /\ pool (s' <| psch := k |>) pc').
Proof using All.
  intros Ht [Q1 Q2 Q3] [I1 I2 I3 I4 I5] Hn Hnt [W1 W2 W3 W4 [W5 W5o] W6 [W7 W7o] W8 W9 W10 [W11 W11'] W12] Hok k Hr Hk Hpc.
  pose proof (t_nothreads _ Ht) as Hnd. rw W6 in Hnd. apply NoDup_cons in Hnd as [Htf Hnd].
  assert (t ∈ free_thread_list s) as Htin by (rw W6; set_solver).
  assert (forall p u, u ∈ thread_list s' p <-> u ∈ thread_list s p \/ (u = t /\ p = n)) as Hl.
  { intros p u. destruct (decide (p = n)) as [->|]; [rw W5 Hnt; set_solver|rw W5o //; naive_solver]. }
  assert (forall p u, u ∈ thread_list s p -> u <> t) as Hne. { intros p u Hu ->. by destruct (t_member _ Ht p t Hu) as (_ & _ & _ & ?). }
  assert (t ∉ thread_reaper_detached_thread_list s) as Htr by (intros ?%I4; done).
  assert (forall w u, pt_get (ptab s) w = Some u -> pt_get (ptab s') w = Some u) as Hpt. { intros w u Hw. rw W12 //. intros ->. congruence. }
  split_and!.
  - apply (tree_same_procs s); simpl; try done; rw ?W2 //.
    + intros w p. destruct (decide (w = v)) as [->|]; [rw W11 W11'; naive_solver|by rw W12].
    + intros p. destruct (decide (p = n)) as [->|]; [rw W5; apply NoDup_singleton|rw W5o //; apply Ht].
    + rw W4. intros p u [Hu|[-> ->]]%Hl; [|by rw W7]. rw W7o; [by apply (Hne p)|]. destruct (t_member _ Ht p u Hu) as (? & ? & ? & Hu'). split_and!; try done. rw W6 in Hu'. set_solver.
  - split; [done|..]; intros q u; simpl; rw Hr W8 Hl; auto.
  - split; simpl; rw ?W4; try done.
    + intros u x. rw Hr W8. apply I1.
    + intros u Hu. assert (u <> t) as Hut by (intros ->; naive_solver). rw Hpc //. apply I2. rw W6. set_solver.
    + intros u Hu. pose proof (I4 u Hu) as Hu'. rw W6 in Hu'. set_solver.
    + intros u [[p [Hu|[-> ->]]%Hl]|Hu]; [|by rw W7|]; (rw W7o; [first [by apply (Hne p)|by intros ->]|]); apply Hpt, I5; [left; by exists p|by right].
Qed.
Lemma unfork_thread_spec s s1 pc t l : tree s -> pool s pc -> free_thread_list s = t :: l -> kinv (psch s1) pc ->
  prc s1 = prc s -> child_list s1 = child_list s -> free_process_list s1 = free_process_list s -> thread_list s1 = thread_list s -> free_thread_list s1 = l ->
  thread_reaper_detached_thread_list s1 = thread_reaper_detached_thread_list s -> (forall u, u <> t -> thr s1 u = thr s u) ->
  (forall r, rendez (psch s1) r = rendez (psch s) r) -> current_thread (psch s1) = current_thread (psch s) -> (forall v, pt_get (ptab s1) v = pt_get (ptab s) v) ->
  exists s', free_thread_struct t s1 = Ok (tt, s') /\ ptab s' = ptab s1 /\ kinv (psch s') pc /\ same_pool s s'.
Proof using All.
  intros Ht Hp Hf Hk E1 E2 E3 E4 E5 E6 E7 E8 E9 E10. pose proof (t_nothreads _ Ht) as Hnd. rw Hf in Hnd. apply NoDup_cons in Hnd as [Htl Hnd].
  assert (pc t = LExited) as Hx by (apply (i_dead _ _ Hp); left; rw Hf; set_solver).
  destruct (clear_thread_spec s1 pc t Hk Hx) as (k & Hr & Hk' & Z & C & _). rw /free_thread_struct {1}/mbind {1}/M_bind Hr /on_free_threads /update /= E5 dl_add_tail_ok //.
  eexists. split; [reflexivity|]. split_and!; [done..|]. split; simpl; rw ?Z ?C; try done.
  - rw Hf. by rw Permutation_app_comm.
  - intros u Hu. assert (u <> t) by (intros ->; apply Hu; rw Hf; set_solver). reads. by apply E7.
Qed.
Lemma fork_thread_spec s pc n c stack : tree s -> quiet_procs s pc -> pool s pc -> thread_list s n = [] -> current_thread (psch s) = Some c -> sched_policy (th (psch s) c) <> SCHED_IDLE ->
  exists r s', fork_thread n c stack s = Ok (r, s') /\ pt_ok (ptab s') /\ kinv (psch s') pc /\
    match r with None => same_pool s s' | Some t => queueable (th (psch s') t) /\ pc t = LExited /\ exists v, threaded s s' n t v end.
Proof using All.
  intros Ht Hq Hp Hnt Hcur Hid. pose proof (q_kinv _ _ Hq) as Hk. rw /fork_thread /alloc_thread_struct {1}/mbind {1}/M_bind {1}/mbind {1}/M_bind {1}/gets. destruct (free_thread_list s) as [|t l] eqn:Hf.
  { exists None, s. split_and!; try done. apply Ht. }
  assert (pc t = LExited) as Hx by (apply (i_dead _ _ Hp); left; rw Hf; set_solver).
  destruct (running_awake _ _ _ Hk Hcur) as [Hon _]. destruct (exited_outside _ _ _ t Hk Hon Hx) as [(Hnq & _ & Has & _) Hne].
  set s1 := s <| free_thread_list := l |>. assert (on_free_threads dl_rem_head s = Ok (tt, s1)) as Hrem by (by rw /on_free_threads /update Hf).
  destruct (clear_thread_spec s1 pc t Hk Hx) as (k1 & Hr1 & Hk1 & Z1 & C1 & [T1 To1]). rw {1}/mbind {1}/M_bind Hrem {1}/mbind {1}/M_bind Hr1. set s2 := s1 <| thr ::= _ |> <| psch := k1 |>.
  destruct (pt_alloc_ok (ptab s2) (OwnThread t)) as (r & tb & Ha & Hok & Hr); [apply Ht|]. rw {1}/mbind {1}/M_bind {1}/mret {1}/M_ret (on_ptab_run _ s2 r tb) //. set s3 := s2 <| ptab := tb |>.
  assert (forall u, u <> t -> thr s3 u = thr s u) as Hthr by (intros u Hu; rw /s3 /s2 /=; by reads).
  destruct r as [v|e]; last first.
  { subst tb. destruct (unfork_thread_spec s s3 pc t l) as (s' & Hr' & Hpt & ? & ?); try done; [by intros r; rw /s3 /= Z1|].
    rw {1}/mbind {1}/M_bind Hr'. exists None, s'. split_and!; try done. by rw Hpt. }
  destruct Hr as (Hv0 & Hv & Hv' & Hoth). destruct stack; last first.
  { destruct (pt_free_ok tb v (OwnThread t) Hok Hv') as (tb2 & Hfr & Hok2 & Hv2 & Hoth2). rw {1}/mbind {1}/M_bind (on_ptab_run _ s3 tt tb2) //.
    destruct (unfork_thread_spec s (s3 <| ptab := tb2 |>) pc t l) as (s' & Hr' & Hpt & ? & ?); try done; [by intros r; rw /s3 /= Z1| |].
    { intros w. simpl. destruct (decide (w = v)) as [->|]; [by rw Hv2|by rw Hoth2 // Hoth]. }
    rw {1}/mbind {1}/M_bind Hr'. exists None, s'. split_and!; try done. by rw Hpt. }
  assert (rendez k1 (thread_rendez t) = []) as Hown.
  { rw Z1. destruct (rendez (psch s1) (thread_rendez t)) as [|u m] eqn:Eu; [done|]. assert (u = t) as ->; [|exfalso; apply Has; exists (thread_rendez t)].
    - apply (i_own _ _ Hp u t). change (psch s) with (psch s1). rw Eu. set_solver.
    - change (psch s) with (psch s1). rw Eu. set_solver. }
  destruct (InitRendez_kinv k1 pc (thread_rendez t) Hk1 Hown) as (k2 & R2 & Hk2 & Z2 & T2 & C2 & _).
  set f := fun x : Thread => x <| state := THREAD_STATE_INIT |> <| blocking_rendez := None |> <| intr_flags := 0 |> <| event_mask := 0 |> <| pending_events := 0 |>.
  assert (th k2 t = zero_Thread) as T2t by (by rw T2).
  destruct (upd_exited k2 pc t f Hk2 Hx) as (k3 & R3 & Hk3 & Z3 & C3 & [T3 To3]); [by rw T2t|by rw T2t|done|].
  assert (th k3 c = th (psch s) c) as Tc. { rw To3; [congruence|]. rw T2 To1; [congruence|done]. }
  destruct Hon as [_ [Hid'|Hhd]]; [done|]. destruct (q_mem _ (k_q _ _ _ (proj1 Hk)) (priority (th (psch s) c)) c) as (_ & _ & Hqa).
  { destruct (Q (psch s) (priority (th (psch s) c))); [done|]. injection Hhd as ->. set_solver. }
  pose proof (q_params _ (k_q _ _ _ (proj1 Hk)) c) as Hpar.
  destruct (upd_exited k3 pc t (fun x => dup_schedparams x (th k3 c)) Hk3 Hx) as (k4 & R4 & Hk4 & Z4 & C4 & [T4 To4]); [by rw Tc|by rw Tc|by rw T3|].
  assert (t ∉ thread_list s n) as Htn by (rw Hnt; set_solver).
  set s4 := s3 <| psch := k2 |> <| thread_list ::= fun m => <[n := thread_list s n ++ [t]]> m |> <| thr ::= fun m => <[t := mkThr n v true 0 None]> m |> <| psch := k3 |>.
  assert (init_thread t n v true s3 = Ok (tt, s4)) as Hin.
  { rw /init_thread {1}/mbind {1}/M_bind (on_psch_run _ s3 tt k2) // {1}/mbind {1}/M_bind {1}/on_threads {1}/update.
    change (thread_list (s3 <| psch := k2 |>) n) with (thread_list s n). rw dl_add_tail_ok // {1}/mbind {1}/M_bind {1}/upd_thr {1}/modify. by apply on_psch_run. }
  rw {1}/mbind {1}/M_bind Hin {1}/mbind {1}/M_bind {1}/gets. change (th (psch s4) c) with (th k3 c). rw {1}/mbind {1}/M_bind (on_psch_run _ s4 tt k4) //.
  exists (Some t), (s4 <| psch := k4 |>). split_and!; try done; [by rw /queueable /= T4 /= Tc|]. exists v. split; simpl; try done.
  - split; [by reads; rw Hnt|]. intros x Hx'. by reads.
  - split; [by reads|]. intros u Hu. by reads.
  - intros r. by rw Z4 Z3 Z2 Z1.
  - by rw C4 C3 C2 C1.
  - intros u Hu. by rw To4 // To3 // T2 To1.
Qed.

(** ** [sys_fork] *)

(** The fields the tree depends on. *)
Definition place (x : Proc) : Z * option nat * pstate := (p_pid x, p_parent x, p_state x).
Lemma place_parts x y : place x = place y -> p_pid x = p_pid y /\ p_parent x = p_parent y /\ p_state x = p_state y.
Proof using Type. by intros [= ? ? ?]. Qed.
Lemma tree_fields s p f : tree s -> (forall x, place (f x) = place x) -> tree (s <| prc ::= fun m => <[p := f (m p)]> m |>).
Proof using All.
  intros [K1 K2 K3 K4 K5 K6 K7 K8 K9 K10 K11 K12 K13] Hf. set s' := s <| prc ::= _ |>.
  assert (forall x, place (prc s' x) = place (prc s x)) as Hpl. { intros x. rw /s' /=. destruct (decide (p = x)) as [->|]; reads; [apply Hf|done]. }
  assert (forall x, p_pid (prc s' x) = p_pid (prc s x)) as Hpid by (intros x; by destruct (place_parts _ _ (Hpl x))).
  assert (forall x, p_parent (prc s' x) = p_parent (prc s x)) as Hpar by (intros x; by destruct (place_parts _ _ (Hpl x)) as (_ & ? & _)).
  assert (forall x, live s' x <-> live s x) as Hl. { intros x. rw /live. by destruct (place_parts _ _ (Hpl x)) as (_ & _ & ->). }
  assert (forall x, running s' x <-> running s x) as Hr. { intros x. rw /running Hl. by destruct (place_parts _ _ (Hpl x)) as (_ & _ & ->). }
  split; try done.
  - intros x. rw Hl. apply K3.
  - intros x. rw Hl Hpid. apply K4.
  - intros v x. rw Hl Hpid. apply K5.
  - intros q ch. rw Hl Hpar. apply K7.
  - intros x q. rw Hl Hr Hpar. apply K8.
  - by rw Hr Hpar.
  - intros x t. rw Hr. apply K11.
  - intros x. rw Hl Hpar. apply K13.
Qed.
Definition with_pgid (g : Z) n s : procs T := s <| prc ::= fun m => <[n := (m n) <| p_pgid := g |>]> m |>.
Lemma with_pgid_ok g n s pc : tree s -> quiet_procs s pc -> pool s pc -> tree (with_pgid g n s) /\ quiet_procs (with_pgid g n s) pc /\ pool (with_pgid g n s) pc.
Proof using All. intros Ht [] []. split_and!; [by apply tree_fields|by split..]. Qed.

(** What is left alone when no process could be made. *)
Record unforked s s' : Prop := {
  u_prc : forall p, live s p -> prc s' p = prc s p;
  u_live : forall p, live s' p -> live s p;
  u_child : forall p, child_list s' p = child_list s p;
  u_list : forall p, thread_list s' p = thread_list s p;
  u_rendez : forall r, rendez (psch s') r = rendez (psch s) r;
  u_pids : forall v, pt_get (ptab s') v = pt_get (ptab s) v }.
Lemma unborn_unforked s s' : unborn s s' -> unforked s s'.
Proof using Type. intros ([] & ? & ? & ? & ?). by split. Qed.
(** [s1]: after the process was allocated; [s2]: with things in it changed. *)
Lemma unfork_spec s s1 s2 s' q n v : tree s -> running s q -> ~ live s n -> born s s1 q n v -> (forall x, x <> n -> prc s2 x = prc s1 x) -> p_pid (prc s2 n) = v -> child_list s2 = child_list s1 ->
  (forall p, thread_list s2 p = thread_list s1 p) -> (forall r, rendez (psch s2) r = rendez (psch s1) r) -> (forall w, pt_get (ptab s2) w = pt_get (ptab s1) w) ->
  reaped s2 s' q n -> unforked s s'.
Proof using All.
  intros Ht Hq Hn ([A1 A2 A3 A4 A5 A6 A7] & [Bn Bo] & Bq & Bco & Hv0 & Hv & Hv' & Hoth) Hpr Hpid Hcl Htl Hrz Hpt ([C1 C2 C3 C4 C5 C6 C7] & [Rn Ro] & Rco & Rq & Rv & Rot).
  assert (forall p, live s p -> p <> n) as Hne by (intros p ? ->; done). rw Hpid in Rv Rot. split.
  - intros p Hp. specialize (Hne p Hp). by rw Ro // Hpr // Bo.
  - intros p. rw /live. destruct (decide (p = n)) as [->|]; [by rw Rn|]. by rw Ro // Hpr // Bo.
  - intros p. destruct (decide (p = q)) as [->|]; [|by rw Rco // Hcl Bco]. rw Rq Hcl Bq (list_remove1_app _ _ []); [by intros [? _]%(t_child _ Ht)|]. by rw app_nil_r.
  - intros p. by rw C4 Htl A4.
  - intros r. by rw C5 Hrz A5.
  - intros w. destruct (decide (w = v)) as [->|]; [by rw Rv Hv|]. by rw Rot // Hpt Hoth.
Qed.

(** The process [n] with the pid [v] and the thread [t] is new. *)
Record forked s s' q n v t : Prop := {
  o_new : ~ live s n /\ pt_get (ptab s) v = None /\ 0 < v;
  o_prc : changed (prc s) n (mkProc v (p_pgid (prc s q)) (Some q) PROC_STATE_INIT 0 false (None, None)) (prc s');
  o_child : child_list s' q = child_list s q ++ [n];
  o_others : forall p, p <> q -> child_list s' p = child_list s p;
  o_list : changed (thread_list s) n [t] (thread_list s');
  o_rendez : forall r, rendez (psch s') r = rendez (psch s) r;
  o_pid : pt_get (ptab s') v = Some (OwnProc n);
  o_old : forall w o, pt_get (ptab s) w = Some o -> pt_get (ptab s') w = Some o;
  o_only : forall w p, pt_get (ptab s') w = Some (OwnProc p) -> w = v \/ pt_get (ptab s) w = Some (OwnProc p);
  o_sub : forall w, pt_get (ptab s) w = None -> pt_get (ptab s') w = None \/ w = v \/ exists u, pt_get (ptab s') w = Some (OwnThread u) }.
Lemma pool_same s s' pc : pool s pc -> same_threads s s' -> (forall v t, pt_get (ptab s) v = Some (OwnThread t) -> pt_get (ptab s') v = Some (OwnThread t)) -> pool s' pc.
Proof using Type.
  intros [I1 I2 I3 I4 I5] [A1 A2 A3 A4 A5 A6 A7] Hpt. split; rw ?A2 ?A3; try done.
  - intros u t. rw A5. apply I1.
  - intros t. setoid_rewrite A4. intros Hin. rw A1. by apply Hpt, I5.
Qed.
Lemma born_pool s s' pc q n v : pool s pc -> born s s' q n v -> pool s' pc.
Proof using Type. intros Hp (Hs & _ & _ & _ & _ & Hv & _ & Hoth). apply (pool_same s); [done..|]. intros w t Hw. rw Hoth //. congruence. Qed.
Lemma reaped_pool s s' pc q ch : tree s -> live s ch -> pool s pc -> reaped s s' q ch -> pool s' pc.
Proof using All.
  intros Ht Hl Hp (Hs & _ & _ & _ & _ & Hoth). apply (pool_same s); [done..|]. intros w t Hw. rw Hoth //. intros ->. rw (t_pid _ Ht) // in Hw.
Qed.
(** The process is given up again. *)
Lemma free_new_spec s s1 s2 pc q n v : tree s -> running s q -> ~ live s n -> born s s1 q n v -> tree s2 -> quiet_procs s2 pc -> pool s2 pc ->
  (forall x, x <> n -> prc s2 x = prc s1 x) -> place (prc s2 n) = place (prc s1 n) -> child_list s2 = child_list s1 ->
  (forall p, thread_list s2 p = thread_list s1 p) -> (forall r, rendez (psch s2) r = rendez (psch s1) r) -> (forall w, pt_get (ptab s2) w = pt_get (ptab s1) w) ->
  exists s', free_process n s2 = Ok (tt, s') /\ tree s' /\ quiet_procs s' pc /\ pool s' pc /\ unforked s s'.
Proof using All.
  intros Ht Hq Hn Hb Ht2 Hq2 Hp2 Hpr Hpl Hcl Htl Hrz Hpt. pose proof Hb as (Hs & [Bn Bo] & Bq & Bco & _). destruct (free_bare s n Ht Hn) as [Hnc Hnt].
  assert (n <> q) as Hnq by (intros ->; by destruct Hq). rw Bn in Hpl. destruct (place_parts _ _ Hpl) as (E1 & E2 & E3). assert (live s2 n) as Hl by (rw /live E3; done).
  destruct (free_linked_spec s2 pc q n) as (s' & Hr & Ht' & Hq' & Hre); try done; [by rw Hcl Bco|by rw Htl (h_list _ _ Hs)|].
  exists s'. split_and!; try done; [by apply (reaped_pool s2 s' pc q n)|by apply (unfork_spec s s1 s2 s' q n v)].
Qed.
Lemma sys_fork_spec s pc c as_ok stack : let q := t_process (thr s c) in
  tree s -> quiet_procs s pc -> pool s pc -> c ∈ thread_list s q -> current_thread (psch s) = Some c -> pc c = LKernel -> sched_policy (th (psch s) c) <> SCHED_IDLE ->
  exists r s', sys_fork c as_ok stack s = Ok (r, s') /\
    match r with
    | RErr _ => tree s' /\ quiet_procs s' pc /\ pool s' pc /\ unforked s s'
    | RVal v => exists n t, head (free_thread_list s) = Some t /\ forked s s' q n v t /\
        tree s' /\ quiet_procs s' (<[t := LUser]> pc) /\ pool s' (<[t := LUser]> pc)
    end.
Proof using All.
  intros q Ht Hq Hp Hc Hcur Hpc Hid. destruct (t_member _ Ht q c Hc) as (_ & Hrq & _).
  rw /sys_fork {1}/mbind {1}/M_bind {1}/gets {1}/mbind {1}/M_bind. fold q.
  destruct (alloc_process_spec s pc q Ht Hq Hrq) as (o & s1 & -> & Ht1 & Hq1 & Ho). destruct o as [n|]; last first.
  { eexists _, s1. split; [reflexivity|]. split_and!; [done..| |by apply unborn_unforked]. destruct Ho as (? & _ & _ & _ & Hpt). apply (pool_same s); [done..|]. intros v t. by rw Hpt. }
  destruct Ho as [Hnl [v Hb]]. pose proof (born_pool s s1 pc q n v Hp Hb) as Hp1. destruct as_ok; simpl; last first.
  { destruct (free_new_spec s s1 s1 pc q n v) as (s' & Hr & ? & ? & ? & ?); try done. rw {1}/mbind {1}/M_bind Hr. by eexists _, s'. }
  pose proof Hb as (Hs & [Bn Bo] & Bq & Bco & Hv0 & Hv & Hv' & Hoth). assert (n <> q) as Hnq by (intros ->; by destruct Hrq).
  rw {1}/mbind {1}/M_bind {1}/gets Bo //; [congruence|]. set g := p_pgid (prc s q). rw {1}/mbind {1}/M_bind {1}/upd_prc {1}/modify -/(with_pgid g n s1). set s2 := with_pgid g n s1.
  destruct (with_pgid_ok g n s1 pc Ht1 Hq1 Hp1) as (Ht2 & Hq2 & Hp2). fold s2 in Ht2, Hq2, Hp2. destruct (free_bare s n Ht Hnl) as [_ Hnt].
  assert (prc s2 n = mkProc v g (Some q) PROC_STATE_INIT 0 false (None, None)) as Gn by (rw /s2 /=; reads; by rw Bn).
  assert (forall x, x <> n -> prc s2 x = prc s1 x) as Go by (intros x Hx; rw /s2 /=; by reads).
  destruct (fork_thread_spec s2 pc n c stack) as (r & s3 & Hr & Hok3 & Hk3 & Hcase); try done; [..|].
  { change (thread_list s2 n) with (thread_list s1 n). by rw (h_list _ _ Hs). } { change (psch s2) with (psch s1). by rw (h_cur _ _ Hs). } { change (psch s2) with (psch s1). by rw (h_th _ _ Hs). }
  rw {1}/mbind {1}/M_bind Hr. destruct r as [t|]; last first.
  { destruct (same_pool_ok s2 s3 pc Ht2 Hq2 Hp2 Hcase Hok3 Hk3) as (Ht3 & Hq3 & Hp3). destruct (with_pgid_ok INVALID_PGID n s3 pc Ht3 Hq3 Hp3) as (Ht4 & Hq4 & Hp4).
    destruct Hcase as [L1 L2 L3 L4 L5 L6 L7 L8 L9 L10]. rw {1}/mbind {1}/M_bind {1}/upd_prc {1}/modify -/(with_pgid INVALID_PGID n s3).
    destruct (free_new_spec s s1 (with_pgid INVALID_PGID n s3) pc q n v) as (s' & Hr' & ? & ? & ? & ?); try done; [..|rw {1}/mbind {1}/M_bind Hr'; by eexists _, s'].
    - intros x Hx. simpl. reads. by rw L1 Go.
    - simpl. reads. by rw L1 Gn Bn.
    - intros p. simpl. by rw L5. }
  destruct Hcase as (Hqa & Hxt & w & Hw). destruct (running_awake _ _ c Hk3) as [Hon _]; [rw (w_cur _ _ _ _ _ Hw); change (psch s2) with (psch s1); by rw (h_cur _ _ Hs)|].
  destruct (exited_outside _ _ _ t Hk3 Hon Hxt) as [Hout Htc]. destruct (thread_start_spec (psch s3) pc t (proj1 Hk3) Hout Hqa) as (k & Hrk & Hk & Hck & _).
  assert (kinv k (<[t := LUser]> pc)) as Hki by (split; [done|exists c; by apply Hck; [congruence|]]).
  assert (forall r, rendez k r = rendez (psch s3) r) as Hrz. { intros r. by destruct (still_call (CStart t) eq_refl (psch s3) tt k Hrk) as [_ ->]. }
  assert (running s2 n) as Hrn by (rw /running /live Gn; done).
  destruct (threaded_ok s2 s3 n t w pc (<[t := LUser]> pc) Ht2 Hq2 Hp2 Hrn) with (k := k) as (Ht' & Hq' & Hp'); try done.
  { change (thread_list s2 n) with (thread_list s1 n). by rw (h_list _ _ Hs). } { intros u Hu. by reads. }
  rw {1}/mbind {1}/M_bind (on_psch_run _ s3 tt k) // {1}/mbind {1}/M_bind {1}/gets. change (prc (s3 <| psch := k |>)) with (prc s3).
  destruct Hw as [W1 W2 W3 W4 [W5 W5o] W6 [W7 W7o] W8 W9 W10 [W11 W11'] W12]. rw W1 Gn. eexists _, (s3 <| psch := k |>). split; [reflexivity|]. exists n, t.
  change (ptab s2) with (ptab s1) in W11, W12. split_and!; try done.
  - change (free_thread_list s2) with (free_thread_list s1) in W6. rw (h_free _ _ Hs) in W6. by rw W6.
  - split; simpl; try done.
    + rw W1. split; [done|]. intros x Hx. by rw Go // Bo.
    + by rw W2.
    + intros p Hpq. rw W2. by apply Bco.
    + split; [done|]. intros p Hpq. rw W5o //. apply (h_list _ _ Hs).
    + intros r. rw Hrz W8. apply (h_rendez _ _ Hs).
    + rw W12 //. congruence.
    + intros x o Hx. assert (x <> v) by congruence. assert (x <> w) by (intros ->; rw Hoth // in W11; congruence). by rw W12 // Hoth.
    + intros x p Hx. destruct (decide (x = v)); [by left|right]. rw -Hoth // -W12 //. intros ->. congruence.
    + intros x Hx. destruct (decide (x = w)) as [->|]; [right; right; by exists t|]. destruct (decide (x = v)); [by right; left|left]. by rw W12 // Hoth.
Qed.
End fork.
