(* ===== verification/ProcThms.v ===== *)
(** * ProcThms: fork, exit and wait

    Processes of one thread each, and the threads of the root process, as a
    step system over the scheduler: it implements a table of pids with their
    parents and exit statuses, and no thread sleeps in [sys_waitpid] while
    there is a child that it could collect. What the code does with processes
    of several threads is at the end. *)

From S2P Require Import Prelude Sched SchedQueue Bkl BklSteps Event EventThms Frames Proc ProcInv ProcFork.
Local Open Scope Z_scope.
Local Open Scope kernel_scope.

Section protocol.
Context {T : Type} `{PidTable T, Apart}.
Implicit Types (s : procs T) (p q ch c t : nat) (pc : nat -> loc) (w : nat -> Z).

(** ** Waiting *)

(** The children [sys_waitpid] with the argument [pid] asks for. *)
Definition matches s q (pid : Z) ch : Prop :=
  if 0 <? pid then pt_get (ptab s) pid = Some (OwnProc ch)
  else if pid =? 0 then p_pgid (prc s ch) = p_pgid (prc s q)
  else if pid =? -1 then True
  else p_pgid (prc s ch) = - pid.
Definition exited s ch : Prop := p_state (prc s ch) = PROC_STATE_EXITED.
#[local] Instance exited_dec s ch : Decision (exited s ch).
Proof using Type. rw /exited. apply _. Defined.
(** There are such children, and none has exited. *)
Definition waiting s q pid : Prop :=
  (forall ch, ch ∈ child_list s q -> matches s q pid ch -> ~ exited s ch) /\
  ((exists ch, ch ∈ child_list s q /\ matches s q pid ch) \/ q = root_process /\ pid = -1).

Lemma scan_spec s m l : forall n,
  match scan s m n l with
  | (Some ch, _) => ch ∈ l /\ m ch = true /\ exited s ch
  | (None, k) => (forall ch, ch ∈ l -> m ch = true -> ~ exited s ch) /\ n <= k /\ (k = n <-> forall ch, ch ∈ l -> m ch = false)
  end.
Proof using All.
  induction l as [|ch l IH]; intros n; cbn [scan]; [split_and!; [set_solver|lia|split; [set_solver|done]]|].
  destruct (m ch) eqn:Em.
  - case_decide as He; [split_and!; [set_solver|done|done]|]. specialize (IH (n + 1)). destruct (scan s m (n + 1) l) as [[y|] k]; [destruct IH as (? & ? & ?); set_solver|].
    destruct IH as (H1' & H2' & H3'). split_and!; [|lia|].
    + intros y [->|Hy]%elem_of_cons; [done|by apply H1'].
    + split; [lia|]. intros Hall. rw Hall // in Em. set_solver.
  - specialize (IH n). destruct (scan s m n l) as [[y|] k]; [destruct IH as (? & ? & ?); set_solver|]. destruct IH as (H1' & H2' & H3'). split_and!; [|done|].
    + intros y [->|Hy]%elem_of_cons; [congruence|by apply H1'].
    + rw H3'. split; intros Hall y; [intros [->|Hy]%elem_of_cons; [done|by apply Hall]|intros Hy; apply Hall; set_solver].
Qed.
Lemma scan_group_spec s c g :
  match scan_group s c g with
  | Exited ch => ch ∈ child_list s c /\ p_pgid (prc s ch) = g /\ exited s ch
  | NotYet => (forall ch, ch ∈ child_list s c -> p_pgid (prc s ch) = g -> ~ exited s ch) /\ exists ch, ch ∈ child_list s c /\ p_pgid (prc s ch) = g
  | NoChild => forall ch, ch ∈ child_list s c -> p_pgid (prc s ch) <> g
  end.
Proof using All.
  rw /scan_group. destruct (child_list s c) as [|x l] eqn:El; [set_solver|]. rw -El. clear x l El. set l := child_list s c.
  pose proof (scan_spec s (fun ch => p_pgid (prc s ch) =? g) l 0) as Hs. destruct (scan s _ 0 l) as [[ch|] k]; [by destruct Hs as (? & ?%Z.eqb_eq & ?)|].
  destruct Hs as (H1' & H2' & H3'). destruct (Z.eqb_spec k 0) as [->|Hk].
  - intros ch Hch. apply Z.eqb_neq. by apply (proj1 H3').
  - split; [intros ch Hch Hg; apply H1'; [done|by apply Z.eqb_eq]|].
    destruct (decide (Exists (fun ch => p_pgid (prc s ch) = g) l)) as [He|He]; [apply Exists_exists in He as (ch & ? & ?); by exists ch|].
    exfalso. apply Hk, H3'. intros ch Hch. apply Z.eqb_neq. intros Hg. apply He, Exists_exists. by exists ch.
Qed.
Lemma find_child_spec s q pid : tree s -> live s q ->
  match find_child s q pid with
  | Exited ch => ch ∈ child_list s q /\ matches s q pid ch /\ exited s ch
  | NotYet => waiting s q pid
  | NoChild => forall ch, ch ∈ child_list s q -> ~ matches s q pid ch
  end.
Proof using All.
  intros Ht Hq. rw /find_child /waiting /matches. destruct (0 <? pid) eqn:Hpos.
  - assert (forall ch, pt_get (ptab s) pid = Some (OwnProc ch) -> ch ∈ child_list s q <-> p_parent (prc s ch) = Some q) as Hch.
    { intros ch E. rw (t_child _ Ht). destruct (t_own _ Ht _ _ E) as [? _]. naive_solver. }
    destruct (pt_get (ptab s) pid) as [[ch|t]|] eqn:E; [|by intros ch _|by intros ch _]. case_decide as Hp; [|intros x Hx [= ->]; apply Hp; by apply Hch].
    assert (ch ∈ child_list s q) as Hin by (by apply Hch). case_decide as He; [done|]. split; [by intros x _ [= <-]|]. left. by exists ch.
  - destruct (Z.eqb_spec pid 0) as [->|Hz].
    + pose proof (scan_group_spec s q (p_pgid (prc s q))) as Hg. destruct (scan_group _ _ _); [done| |done]. destruct Hg. split; [done|by left].
    + destruct (Z.eqb_spec pid (-1)) as [->|Hm].
      * destruct (child_list s q) as [|x l] eqn:El; [case_decide as Hr; [split; [set_solver|by right]|set_solver]|]. rw -El.
        pose proof (scan_spec s (fun _ => true) (child_list s q) 0) as Hs. destruct (scan s _ 0 _) as [[ch|] k]; [by destruct Hs as (? & _ & ?)|].
        destruct Hs as (Hs & _). split; [by intros ch Hch _; apply Hs|]. left. exists x. rw El. set_solver.
      * pose proof (scan_group_spec s q (- pid)) as Hg. destruct (scan_group _ _ _); [done| |done]. destruct Hg. split; [done|by left].
Qed.
(** Those that wait go on waiting if no child exits. *)
Lemma waiting_mono s s' q pid : waiting s q pid -> p_pgid (prc s' q) = p_pgid (prc s q) ->
  (forall ch, ch ∈ child_list s' q -> exited s' ch -> ch ∈ child_list s q /\ exited s ch /\ p_pgid (prc s' ch) = p_pgid (prc s ch) /\
     forall v, pt_get (ptab s') v = Some (OwnProc ch) -> pt_get (ptab s) v = Some (OwnProc ch)) ->
  (forall ch, ch ∈ child_list s q -> ~ exited s ch -> ch ∈ child_list s' q /\ p_pgid (prc s' ch) = p_pgid (prc s ch) /\
     forall v, pt_get (ptab s) v = Some (OwnProc ch) -> pt_get (ptab s') v = Some (OwnProc ch)) -> waiting s' q pid.
Proof using All.
  intros [Hn He] Hq Hex Hkeep. split.
  - intros ch Hch Hm Hx. destruct (Hex ch Hch Hx) as (Hc & Hx' & Hg & Hv). apply (Hn ch Hc); [|done]. revert Hm. rw /matches Hg Hq. destruct (0 <? pid); [apply Hv|done].
  - destruct He as [(ch & Hch & Hm)|He]; [left|by right]. destruct (Hkeep ch Hch (Hn ch Hch Hm)) as (Hc & Hg & Hv). exists ch. split; [done|].
    revert Hm. rw /matches Hg Hq. destruct (0 <? pid); [apply Hv|done].
Qed.

(** ** The invariant; [w]: what the threads that sleep wait for *)
Record pinv s pc w : Prop := {
  i_tree : tree s;
  i_quiet : quiet_procs s pc;
  i_pool : pool s pc;
  i_single : forall p, running s p -> p <> root_process -> exists t, thread_list s p = [t];
  i_exit : forall p, running s p -> exit_in_progress (prc s p) = false;
  i_parent : forall p, live s p -> p <> root_process -> p_parent (prc s p) <> None;
  i_wait : forall q t, t ∈ rendez (psch s) (child_list_rendez q) -> waiting s q (w t) }.
Definition runs s pc c : Prop :=
  current_thread (psch s) = Some c /\ pc c = LKernel /\ sched_policy (th (psch s) c) <> SCHED_IDLE /\ c ∈ thread_list s (t_process (thr s c)).

(** Only what the scheduler knows has changed. *)
Lemma pinv_sched s k pc pc' w w' : pinv s pc w -> kinv k pc' ->
  (forall q t, t ∈ rendez k (child_list_rendez q) -> t ∈ thread_list s q /\ waiting s q (w' t)) ->
  (forall q t, t ∈ rendez k (thread_list_rendez q) -> t ∈ thread_list s q) ->
  (forall u t, u ∈ rendez k (thread_rendez t) -> u = t) ->
  (forall t, t ∈ free_thread_list s \/ t ∈ thread_reaper_detached_thread_list s -> pc' t = LExited) -> pinv (s <| psch := k |>) pc' w'.
Proof using All.
  intros [[K1 K2 K3 K4 K5 K6 K7 K8 K9 K10 K11 K12 K13] [Q1 Q2 Q3] [P1 P2 P3 P4 P5] I4 I5 I6 I7] Hk Hc Ht Ho Hx. split; try done; try (split; try done; intros q t Hin; by apply Hc).
  intros q t Hin. by destruct (Hc q t Hin).
Qed.
Lemma runs_awake s pc c : quiet_procs s pc -> runs s pc c -> on_cpu (psch s) c /\ ~ asleep (psch s) c.
Proof using All. intros [Hk _ _] (Hcur & _). by apply (running_awake _ pc). Qed.

(** ** [sys_waitpid] *)
Lemma reaped_waiting s s' q ch x pid : tree s -> exited s ch -> p_parent (prc s ch) = Some q -> reaped s s' q ch -> x <> ch -> waiting s x pid -> waiting s' x pid.
Proof using All.
  intros Ht He Hp (_ & [En Eo] & Hco & Hcq & Hno & Hoth) Hxc Hw. assert (live s ch) as Hl by (rw /live He; done).
  assert (forall y z, z ∈ child_list s' y <-> z ∈ child_list s y /\ z <> ch) as Hcl.
  { intros y z. destruct (decide (y = q)) as [->|Hy]; [rw Hcq; apply elem_of_list_remove1, Ht|]. rw Hco //. split; [|by intros [? _]]. intros Hz. split; [done|]. intros ->.
    apply (t_child _ Ht) in Hz as [_ ?]. congruence. }
  apply (waiting_mono s); [done|by rw Eo|..].
  - rw /exited. intros z [Hz Hne]%Hcl. rw Eo //. intros Hx. split_and!; try done. intros v Hv. destruct (decide (v = p_pid (prc s ch))) as [->|]; [congruence|by rw -Hoth].
  - intros z Hz Hx. assert (z <> ch) as Hne by (intros ->; done). rw Eo // Hcl. split_and!; try done. intros v Hv. rw Hoth //. intros ->. rw (t_pid _ Ht) // in Hv. congruence.
Qed.
Lemma reaped_pinv s s' pc w q ch : pinv s pc w -> exited s ch -> p_parent (prc s ch) = Some q -> reaped s s' q ch -> tree s' -> quiet_procs s' pc -> pinv s' pc w.
Proof using All.
  intros [I1 I2 I3 I4 I5 I6 I7] He Hp Hr Ht' Hq'. assert (live s ch) as Hl by (rw /live He; done).
  pose proof (reaped_pool s s' pc q ch I1 Hl I3 Hr) as Hp'. destruct (exited_bare s ch I1 He) as [_ Hnt]. pose proof Hr as (Hs & [En Eo] & _).
  assert (forall x, live s' x -> x <> ch /\ live s x) as Hlv. { intros x. rw /live. destruct (decide (x = ch)) as [->|]; [by rw En|by rw Eo]. }
  assert (forall x, running s' x -> x <> ch /\ running s x) as Hrun. { intros x [[? Hx]%Hlv Hex]. rw Eo // in Hex. }
  split; try done.
  - intros x [_ Hx]%Hrun. rw (h_list _ _ Hs). by apply I4.
  - intros x [Hne Hx]%Hrun. rw Eo //. by apply I5.
  - intros x [Hne Hx]%Hlv. rw Eo //. by apply I6.
  - intros x t. rw (h_rendez _ _ Hs). intros Hin. apply (reaped_waiting s s' q ch); try done; [|by apply I7]. intros ->. pose proof (q_child _ _ I2 ch t Hin) as Hin'. rw Hnt in Hin'. set_solver.
Qed.

(** What a call returns, and what it leaves. *)
Definition wait_result s s' pc w c pid (st : option bool) (nohang : bool) (r : waits) : Prop :=
  let q := t_process (thr s c) in
  match r with
  | WSleeps => nohang = false /\ waiting s q pid /\ c ∈ rendez (psch s') (child_list_rendez q) /\ (exists k, s' = s <| psch := k |>) /\ pinv s' pc (<[c := pid]> w)
  | WReturns (RVal v) o => exists ch, ch ∈ child_list s q /\ matches s q pid ch /\ exited s ch /\ v = p_pid (prc s ch) /\
      o = (if st is Some _ then Some (p_exit_status (prc s ch)) else None) /\ reaped s s' q ch /\ pinv s' pc w
  | WReturns (RErr e) o => s' = s /\ o = None /\
      (e = EINVAL /\ (max_process <= - pid \/ max_process <= pid \/ forall ch, ch ∈ child_list s q -> ~ matches s q pid ch) \/
       e = EAGAIN /\ nohang = true /\ waiting s q pid \/ e = EFAULT /\ st = Some false)
  end.
Lemma waitpid_spec s pc w c pid st nohang : pinv s pc w -> runs s pc c ->
  exists r s', sys_waitpid c pid st nohang s = Ok (r, s') /\ wait_result s s' pc w c pid st nohang r.
Proof using All.
  intros Hi Hc. pose proof Hi as [I1 I2 I3 I4 I5 I6 I7]. pose proof Hc as (Hcur & Hpc & Hid & Hin). set q := t_process (thr s c) in Hin.
  destruct (t_member _ I1 q c Hin) as (_ & [Hq _] & _). rw /sys_waitpid /wait_result -/q. destruct (Z.leb_spec max_process (- pid)) as [?|?]; simpl.
  { eexists _, s. split; [reflexivity|]. simpl. naive_solver. }
  destruct (Z.leb_spec max_process pid) as [?|?]; simpl.
  { eexists _, s. split; [reflexivity|]. simpl. naive_solver. }
  rw {1}/mbind {1}/M_bind {1}/gets -/q {1}/mbind {1}/M_bind {1}/gets. pose proof (find_child_spec s q pid I1 Hq) as Hf. destruct (find_child s q pid) as [| |ch].
  - eexists _, s. split; [reflexivity|]. simpl. naive_solver.
  - destruct nohang. { eexists _, s. split; [reflexivity|]. simpl. naive_solver. }
    destruct (runs_awake s pc c I2 Hc) as [Hon Has].
    destruct (TaskSleep_spec (psch s) pc c (child_list_rendez q) (q_kinv _ _ I2) Hon Hpc Hid) as (k & Hk & Hi' & Hrr & Hro).
    rw {1}/mbind {1}/M_bind (on_psch_run _ s tt k) //. eexists _, _. split; [reflexivity|]. simpl. split_and!; try done; [rw Hrr; set_solver|by exists k|].
    apply (pinv_sched s k pc pc w); try done.
    + intros x t Ht. destruct (decide (x = q)) as [->|Hx].
      * rw Hrr in Ht. apply elem_of_app in Ht as [Ht|Ht%list_elem_of_singleton]; [|subst t; by reads]. assert (c <> t) as Hct by (intros ->; apply Has; by exists (child_list_rendez q)).
        reads. split; [by apply I2|by apply I7].
      * rw Hro in Ht; [intros ?%cr_inj; congruence|]. assert (c <> t) as Hct by (intros ->; apply Has; by exists (child_list_rendez x)). reads. split; [by apply I2|by apply I7].
    + intros x t. rw Hro; [intros E; symmetry in E; by apply cr_tr in E|]. apply I2.
    + intros u t. rw Hro; [intros E; symmetry in E; by apply cr_own in E|]. apply I3.
    + apply I3.
  - destruct Hf as (Hch & Hm & He). rw {1}/mbind {1}/M_bind {1}/gets. apply (t_child _ I1) in Hch as Hp. destruct Hp as [_ Hp].
    destruct (wait_reap_spec s pc q ch I1 I2 He Hp) as (s' & Hr & Ht' & Hq' & Hre). pose proof (reaped_pinv s s' pc w q ch Hi He Hp Hre Ht' Hq') as Hi'.
    assert (forall o : waits, (_ ← unlink_child q ch; _ ← free_process ch; mret o) s = Ok (o, s')) as Hrun.
    { intros o. move: Hr. rw {1}/mbind {1}/M_bind. rw {1}/mbind {1}/M_bind. destruct (unlink_child q ch s) as [[[] s1]| |]; try done. intros Hr. by rw {1}/mbind {1}/M_bind Hr. }
    destruct st as [[]|].
    + eexists _, s'. split; [apply Hrun|]. by exists ch.
    + eexists _, s. split; [reflexivity|]. simpl. naive_solver.
    + eexists _, s'. split; [apply Hrun|]. by exists ch.
Qed.

(** ** [sys_exit] *)

(** The last thread [c] of the process [q] goes. *)
Lemma last_thread_run s pc c q r : kinv (psch s) pc -> current_thread (psch s) = Some c -> pc c = LKernel -> sched_policy (th (psch s) c) <> SCHED_IDLE ->
  t_process (thr s c) = q -> thread_list s q = [c] -> p_parent (prc s q) = Some r -> (c ∉ thread_reaper_detached_thread_list s) ->
  exists s' k, do_exit_thread c 0 s = Ok (tt, s') /\ psch s' = k /\ ptab s' = ptab s /\ changed (prc s) q ((prc s q) <| p_state := PROC_STATE_EXITED |>) (prc s') /\
    child_list s' = child_list s /\ changed (thread_list s) q [] (thread_list s') /\ free_process_list s' = free_process_list s /\
    changed (thr s) c (mkThr root_process (t_tid (thr s c)) true 0 (joiner_thread (thr s c))) (thr s') /\ free_thread_list s' = free_thread_list s /\
    thread_reaper_detached_thread_list s' = thread_reaper_detached_thread_list s ++ [c] /\
    kinv k (<[c := LExited]> pc) /\ rendez k (child_list_rendez r) = [] /\ (forall x t, t ∈ rendez k x -> t ∈ rendez (psch s) x).
Proof using All.
  intros Hk Hcur Hpc Hid Hq Hl Hr Hnr. destruct (running_awake _ _ _ Hk Hcur) as [Hon _]. pose proof Hk as [Hkc _].
  assert (bkl_owner (psch s) <> None) as Ho by (rw (on_cpu_owner _ _ _ Hkc Hon Hpc); done).
  destruct (TaskWakeupAll_spec (psch s) pc (child_list_rendez r) Hkc Ho) as (k1 & R1 & Hk1 & Hc1 & Zr1 & Zo1 & _ & O1 & Th1).
  destruct (TaskWakeup_spec k1 pc thread_reaper_rendez Hk1) as (k2 & R2 & Hk2 & Hc2 & E2); [by rw O1|]. pose proof (Hc2 _ (Hc1 _ Hon)) as Hon2.
  assert (forall x, sched_policy (th k2 x) = sched_policy (th k1 x)) as Hpol. { intros x. rw E2. destruct (rendez k1 thread_reaper_rendez); [done|]. by rw (woken_fields sched_policy). }
  assert (sched_policy (th k2 c) <> SCHED_IDLE) as Hid2. { rw Hpol Th1 //. intros Hin. destruct (on_cpu_free _ _ _ _ Hkc Hon) as [_ Has]. apply Has. by exists (child_list_rendez r). }
  assert (forall x t, t ∈ rendez k2 x -> t ∈ rendez k1 x) as Zo2.
  { intros x t. rw E2. destruct (rendez k1 thread_reaper_rendez) as [|y l] eqn:Ey; [done|]. rw /woken /=. destruct (decide (thread_reaper_rendez = x)) as [<-|]; reads; [rw Ey; set_solver|done]. }
  destruct (thread_stop_spec k2 pc c) as (k3 & R3 & Hk3); [split; [done|by exists c]|done..|]. assert (rendez k3 = rendez k2) as Z3 by (by destruct (still_call CStop eq_refl k2 tt k3 R3)).
  destruct s as [k tb pr cl tl fp th_ ft rp]. simpl in *.
  eexists _, k3. split.
  - rw /do_exit_thread {1}/mbind {1}/M_bind {1}/gets {1}/mbind {1}/M_bind {1}/upd_thr {1}/modify. cbn [thr]. rw Hq.
    rw {1}/mbind {1}/M_bind {1}/on_threads {1}/update /= Hl dl_rem_ok; [set_solver|]. rw /= decide_True //.
    rw {1}/mbind {1}/M_bind {1}/gets /=. reads. rw {1}/mbind {1}/M_bind {1}/mbind {1}/M_bind {1}/upd_thr {1}/modify {1}/mbind {1}/M_bind {1}/upd_prc {1}/modify {1}/mbind {1}/M_bind {1}/gets.
    reads. rw Hr (on_psch_run _ _ tt k1) //. rw {1}/mbind {1}/M_bind {1}/gets. reads. rw {1}/mbind {1}/M_bind {1}/mbind {1}/M_bind {1}/upd_thr {1}/modify {1}/mbind {1}/M_bind {1}/on_reaper {1}/update /= dl_add_tail_ok //.
    rw (on_psch_run _ _ tt k2) //. apply on_psch_run. exact R3.
  - simpl. split_and!; try done.
    + split; [by reads|]. intros x Hx. by reads.
    + split; [by reads|]. intros x Hx. by reads.
    + split; [by reads|]. intros x Hx. by reads.
    + rw Z3. destruct (rendez k2 (child_list_rendez r)) as [|y l] eqn:E; [done|]. assert (y ∈ rendez k1 (child_list_rendez r)) as Hy by (apply Zo2; rw E; set_solver). rw Zr1 in Hy. set_solver.
    + intros x t. rw Z3. intros Ht%Zo2. destruct (decide (x = child_list_rendez r)) as [->|]; [rw Zr1 in Ht; set_solver|by rw -Zo1].
Qed.

(** The process [q] has exited with [status], and its children have gone to the
    root process or, those that had exited, been freed. *)
Record departed s s' q status : Prop := {
  e_pid : p_pid (prc s' q) = p_pid (prc s q);
  e_par : p_parent (prc s' q) = p_parent (prc s q);
  e_state : exited s' q;
  e_status : p_exit_status (prc s' q) = status;
  e_pgid : p_pgid (prc s' q) = INVALID_PGID;
  e_prc : forall x, x <> q -> (x ∉ child_list s q) -> prc s' x = prc s x;
  e_freed : forall x, x ∈ child_list s q -> exited s x -> prc s' x = zero_Proc;
  e_moved : forall x, x ∈ child_list s q -> ~ exited s x -> exists o, prc s' x = (prc s x) <| child_old := o |> <| p_parent := Some root_process |>;
  e_own : child_list s' q = [];
  e_lists : forall x, x <> q -> x <> root_process -> child_list s' x = child_list s x;
  e_root : exists l, child_list s' root_process = child_list s root_process ++ l /\ forall x, x ∈ l <-> x ∈ child_list s q /\ ~ exited s x;
  e_pids : forall v o, pt_get (ptab s') v = Some o -> pt_get (ptab s) v = Some o;
  e_kept : forall v o, pt_get (ptab s) v = Some o -> pt_get (ptab s') v = None -> exists x, o = OwnProc x /\ x ∈ child_list s q /\ exited s x }.

Lemma departed_waiting s s' q status x pid : tree s -> p_parent (prc s q) <> Some x -> q <> root_process -> x <> q -> running s x -> departed s s' q status -> waiting s x pid -> waiting s' x pid.
Proof using All.
  intros Ht Hpq Hqr Hxq [_ Hx] [E1 E2 E3 E4 Eg E5 E6 E7 E8 E9 [l [E10 E10l]] E11 E12] Hw.
  assert (forall y, y ∈ child_list s x -> prc s' y = prc s y) as Hy.
  { intros y [_ Hp]%(t_child _ Ht). apply E5; [by intros ->|]. intros [_ Hp']%(t_child _ Ht). congruence. }
  assert (forall y, y ∈ child_list s x -> y ∈ child_list s' x) as Hin. { intros y Hyx. destruct (decide (x = root_process)) as [->|]; [rw E10; set_solver|by rw E9]. }
  apply (waiting_mono s); try done.
  - destruct (decide (x ∈ child_list s q)) as [Hin'|Hin']; [|by rw E5]. by destruct (E7 x Hin' Hx) as [o ->].
  - intros y Hyx He. assert (y ∈ child_list s x) as Hyx'.
    { destruct (decide (x = root_process)) as [->|]; [|by rw -E9]. rw E10 in Hyx. apply elem_of_app in Hyx as [|[Hyq Hne]%E10l]; [done|]. destruct (E7 y Hyq Hne) as [o Eo]. rw /exited Eo /= in He. done. }
    rw /exited Hy // in He. rw Hy //. split_and!; try done. intros v. apply E11.
  - intros y Hyx He. rw Hy //. split_and!; [by apply Hin|done|]. intros v Hv. destruct (pt_get (ptab s') v) as [o|] eqn:Eo; [apply E11 in Eo; congruence|].
    destruct (E12 v _ Hv Eo) as (z & [= <-] & _ & Hz). done.
Qed.
Lemma tree_exited s s' q c x : tree s -> q <> root_process -> running s q -> child_list s q = [] -> thread_list s q = [c] ->
  changed (prc s) q ((prc s q) <| p_state := PROC_STATE_EXITED |>) (prc s') -> child_list s' = child_list s -> changed (thread_list s) q [] (thread_list s') ->
  free_process_list s' = free_process_list s -> changed (thr s) c x (thr s') -> free_thread_list s' = free_thread_list s ->
  thread_reaper_detached_thread_list s' = thread_reaper_detached_thread_list s ++ [c] -> ptab s' = ptab s -> tree s'.
Proof using All.
  intros Ht Hqr Hrq Hnc Hl [Pq Po] Hcl [Lq Lo] Hfp [Tc To] Hft Hrp Hpt. assert (c ∈ thread_list s q) as Hc by (rw Hl; set_solver).
  destruct (t_member _ Ht q c Hc) as (Ec & _). destruct Ht as [K1 K2 K3 K4 K5 K6 K7 K8 K9 K10 K11 K12 K13].
  assert (forall y, live s' y <-> live s y) as Hlv. { intros y. rw /live. destruct (decide (y = q)) as [->|]; [rw Pq; destruct Hrq; naive_solver|by rw Po]. }
  assert (forall y, y <> q -> running s' y <-> running s y) as Hrun. { intros y Hy. rw /running Hlv Po //. }
  assert (forall y, p_pid (prc s' y) = p_pid (prc s y)) as Hpid. { intros y. destruct (decide (y = q)) as [->|]; [by rw Pq|by rw Po]. }
  assert (forall y, p_parent (prc s' y) = p_parent (prc s y)) as Hpar. { intros y. destruct (decide (y = q)) as [->|]; [by rw Pq|by rw Po]. }
  split; rw ?Hfp ?Hcl ?Hft ?Hpt; try done.
  - intros y. rw Hlv. apply K3.
  - intros y. rw Hlv Hpid. apply K4.
  - intros v y. rw Hlv Hpid. apply K5.
  - intros y ch. rw Hlv Hpar. apply K7.
  - intros y z. rw Hlv Hpar. intros Hy Hz. apply Hrun; [|by apply (K8 y)]. intros ->. assert (y ∈ child_list s q) as Hin by (by apply K7). rw Hnc in Hin. set_solver.
  - rw Hpar Hrun //. congruence.
  - intros y. destruct (decide (y = q)) as [->|]; [rw Lq; apply NoDup_nil_2|by rw Lo].
  - intros y t Hin. assert (y <> q) as Hyq by (intros ->; rw Lq in Hin; set_solver). rw Lo // in Hin. destruct (K11 y t Hin) as (Et & ? & ? & ?).
    assert (t <> c) as Htc by (intros ->; congruence). rw To // Hrun // Hrp. split_and!; try done. set_solver.
  - intros y. rw Hlv Hpar. apply K13.
Qed.
(** What the exit of the only thread [c] of the process leaves of the threads. *)
Record left_by s s' pc q c : Prop := {
  g_kinv : kinv (psch s') (<[c := LExited]> pc);
  g_sub : forall x t, t ∈ rendez (psch s') x -> t ∈ rendez (psch s) x;
  g_woken : forall r, p_parent (prc s q) = Some r -> rendez (psch s') (child_list_rendez r) = [];
  g_list : changed (thread_list s) q [] (thread_list s');
  g_thr : changed (thr s) c (mkThr root_process (t_tid (thr s c)) true 0 (joiner_thread (thr s c))) (thr s');
  g_free : free_thread_list s' = free_thread_list s;
  g_reaper : thread_reaper_detached_thread_list s' = thread_reaper_detached_thread_list s ++ [c] }.
Lemma exit_run s pc w c status : let q := t_process (thr s c) in pinv s pc w -> runs s pc c -> q <> root_process ->
  exists s', sys_exit c status s = Ok (false, s') /\ tree s' /\ departed s s' q status /\ left_by s s' pc q c.
Proof using All.
  intros q Hi Hc Hqr. pose proof Hi as [I1 I2 I3 I4 I5 I6 I7]. pose proof Hc as (Hcur & Hpc & Hid & Hin). fold q in Hin.
  destruct (t_member _ I1 q c Hin) as (_ & Hrq & Hnr & Hnf). destruct (I4 q Hrq Hqr) as [t Hl]. assert (t = c) as -> by (rw Hl in Hin; set_solver).
  destruct (p_parent (prc s q)) as [r|] eqn:Hp; [|by destruct (I6 q (proj1 Hrq) Hqr)]. assert (r <> q) as Hrq' by (intros ->; by apply (t_self _ I1 q (proj1 Hrq))).
  set f := fun x : Proc => x <| p_exit_status := status |> <| exit_in_progress := true |>. set s1 := s <| prc ::= fun m => <[q := f (m q)]> m |>. set s2 := with_pgid INVALID_PGID q s1.
  assert (tree s1) as Ht1 by (by apply tree_fields). assert (quiet_procs s1 pc) as Hq1 by (destruct I2; by split). assert (pool s1 pc) as Hp1 by (destruct I3; by split).
  destruct (with_pgid_ok INVALID_PGID q s1 pc Ht1 Hq1 Hp1) as (Ht2 & Hq2 & Hp2). fold s2 in Ht2, Hq2, Hp2.
  destruct (detach_spec pc q Hqr (child_list s q) s2 Ht2 Hq2 eq_refl) as (s3 & Hr3 & Ht3 & Hq3 & Hl3 & [[A1 A2 A3 A4 A5 A6 A7] D2 D3 D4 D5 D6 D7 D8]).
  change (child_list s2) with (child_list s) in D2, D3, D4, D5, D6, D8. change (ptab s2) with (ptab s) in D7, D8.
  assert (q ∉ child_list s q) as Hqq by (intros [_ E]%(t_child _ I1); congruence).
  assert (prc s2 q = (f (prc s q)) <| p_pgid := INVALID_PGID |>) as E2q by (rw /s2 /s1 /=; by reads). assert (forall x, x <> q -> prc s2 x = prc s x) as E2o by (intros x Hx; rw /s2 /s1 /=; by reads).
  destruct (last_thread_run s3 pc c q r) as (s' & k & Hr & Hk & Hpt & [Pq Po] & Hcl & [Lq Lo] & Hfp & [Tc To] & Hft & Hrp & Hki & Zr & Zo); try done.
  { apply Hq3. } { by rw A7. } { by rw A6. } { by rw A1. } { by rw A4. } { rw D2 // E2q. exact Hp. } { by rw A3. }
  assert (sys_exit c status s = Ok (false, s')) as Hrun.
  { rw /sys_exit {1}/mbind {1}/M_bind {1}/gets -/q {1}/mbind {1}/M_bind {1}/gets {1}/mbind {1}/M_bind Hp {1}/kassert /=. rw (I5 q Hrq) {1}/mbind {1}/M_bind {1}/upd_prc {1}/modify -/f -/s1.
    assert (do_kill_other_threads c s1 = Ok (tt, s1)) as Hkill. { rw /do_kill_other_threads {1}/mbind {1}/M_bind {1}/gets {1}/mbind {1}/M_bind {1}/gets. change (thread_list s1 _) with (thread_list s q). rw Hl /=. by rw decide_True. }
    rw {1}/mbind {1}/M_bind Hkill /exit_alone.
    assert (wait_for_threads c s1 = Ok (false, s1)) as Hwait. { rw /wait_for_threads {1}/mbind {1}/M_bind {1}/gets {1}/mbind {1}/M_bind {1}/gets. change (thread_list s1 _) with (thread_list s q). rw Hl /=. by rw decide_False; [intros [? _]|]. }
    rw {1}/mbind {1}/M_bind Hwait {1}/mbind {1}/M_bind {1}/gets. change (t_process (thr s1 c)) with q. rw {1}/mbind {1}/M_bind {1}/upd_prc {1}/modify -/(with_pgid INVALID_PGID q s1) -/s2.
    rw {1}/mbind {1}/M_bind {1}/detach_child_processes {1}/mbind {1}/M_bind {1}/gets. change (child_list s2 q) with (child_list s q). rw Hr3. by rw {1}/mbind {1}/M_bind Hr. }
  exists s'. split; [done|].
  assert (prc s' q = (f (prc s q)) <| p_pgid := INVALID_PGID |> <| p_state := PROC_STATE_EXITED |>) as Eq by (rw Pq D2 // E2q //).
  assert (departed s s' q status) as Hd.
  { split; rw ?Hcl ?Hpt; try done; try (by rw ?/exited Eq).
    - intros x Hx Hn. by rw Po // D2 // E2o.
    - intros x Hx He. assert (x <> q) as Hxq by (intros ->; done). rw Po //. apply D3; [done|]. by rw E2o.
    - intros x Hx He. assert (x <> q) as Hxq by (intros ->; done). rw Po // -(E2o x Hxq). apply D4; [done|]. by rw E2o.
    - destruct D6 as (l & E & Hl'). exists l. split; [done|]. intros x. rw Hl' /exited. split; intros [Hx He]; (split; [done|]); [rw E2o // in He|rw E2o //]; intros ->; done.
    - intros v o Hv Hv'. destruct (D8 v o Hv Hv') as (x & -> & Hx & He). exists x. rw E2o // in He. intros ->. done. }
  assert (running s3 q) as Hrq3. { rw /running /live D2 // E2q. exact Hrq. }
  split_and!; [|done|].
  - apply (tree_exited s3 s' q c (mkThr root_process (t_tid (thr s3 c)) true 0 (joiner_thread (thr s3 c)))); try done; by rw A4.
  - split; rw ?Hk ?Hft ?Hrp ?A2 ?A3; try done.
    + intros x t Ht%Zo. by rw A5 in Ht.
    + rw Hp. by intros ? [= <-].
    + split; [done|]. intros x Hx. by rw Lo // A4.
    + rw A1 in Tc To. by split.
Qed.
(** The only thread of a process that exits. *)
Lemma exit_spec s pc w c status : let q := t_process (thr s c) in pinv s pc w -> runs s pc c -> q <> root_process ->
  exists s', sys_exit c status s = Ok (false, s') /\ pinv s' (<[c := LExited]> pc) w /\ departed s s' q status.
Proof using All.
  intros q Hi Hc Hqr. destruct (exit_run s pc w c status Hi Hc Hqr) as (s' & Hr & Ht' & Hd & [Hki Hsub Zr [Lq Lo] [Tc To] Hft Hrp]). exists s'. split; [done|]. split; [|done].
  pose proof Hi as [I1 I2 I3 I4 I5 I6 I7]. pose proof Hc as (Hcur & Hpc & Hid & Hin). fold q in Hin, Hd, Zr, Lq, Lo.
  destruct (t_member _ I1 q c Hin) as (_ & Hrq & Hnr & Hnf). destruct (I4 q Hrq Hqr) as [t Hl]. assert (t = c) as -> by (rw Hl in Hin; set_solver).
  assert (forall x, live s' x -> x <> q -> live s x /\ (exited s x -> exited s' x) /\ exit_in_progress (prc s' x) = exit_in_progress (prc s x) /\ (p_parent (prc s x) <> None -> p_parent (prc s' x) <> None)) as Hback.
  { intros x Hx Hxq. destruct (decide (x ∈ child_list s q)) as [Hin'|Hin']; [|rw /live /exited (e_prc _ _ _ _ Hd) // in Hx |- *]. destruct (decide (exited s x)) as [He|He].
    - by rw /live (e_freed _ _ _ _ Hd x) in Hx.
    - rw /live /exited in Hx |- *. by destruct (e_moved _ _ _ _ Hd x Hin' He) as [o Eo]; rw Eo in Hx |- *. }
  assert (forall x, running s' x -> x <> q /\ running s x) as Hrunning.
  { intros x [Hx He]. assert (x <> q) as Hxq by (intros ->; by apply He, (e_state _ _ _ _ Hd)). destruct (Hback x Hx Hxq) as (? & Hex & _). split; [done|]. split; [done|]. by intros ?%Hex. }
  destruct (runs_awake s pc c I2 Hc) as [_ Hawake]. assert (forall x t, t ∈ rendez (psch s) x -> t ∈ thread_list s q -> False) as Hnq.
  { intros x t Hx Ht. rw Hl in Ht. apply list_elem_of_singleton in Ht as ->. apply Hawake. by exists x. }
  assert (forall v t, pt_get (ptab s) v = Some (OwnThread t) -> pt_get (ptab s') v = Some (OwnThread t)) as Hkeep.
  { intros v t Hv. destruct (pt_get (ptab s') v) as [o|] eqn:Eo; [apply (e_pids _ _ _ _ Hd) in Eo; congruence|]. by destruct (e_kept _ _ _ _ Hd v _ Hv Eo) as (? & ? & _). }
  split; [done|..].
  - destruct I2 as [Q1 Q2 Q3]. split; [done|..]; intros x t Hx%Hsub; (assert (t ∈ thread_list s x) as Hx' by auto); (assert (x <> q) as Hxq by (intros ->; exact (Hnq _ t Hx Hx'))); by rw Lo //.
  - destruct I3 as [P1 P2 P3 P4 P5]. split; rw ?Hft ?Hrp.
    + intros u t Hu%Hsub. by apply P1.
    + intros t Ht. destruct (decide (c = t)) as [->|]; reads; [done|]. apply P2. set_solver.
    + apply NoDup_app. split_and!; [done|set_solver|apply NoDup_singleton].
    + intros t [Ht|Ht%list_elem_of_singleton]%elem_of_app; [by apply P4|by subst t].
    + intros t Ht. destruct (decide (t = c)) as [->|Htc]; [rw Tc; apply Hkeep, P5; left; by exists q|]. rw To //. apply Hkeep, P5.
      destruct Ht as [[x Hx]|Ht]; [left|right; by apply elem_of_app in Ht as [|?%list_elem_of_singleton]]. exists x. destruct (decide (x = q)) as [->|]; [rw Lq in Hx; set_solver|]. by rw Lo // in Hx.
  - intros x [Hxq Hx]%Hrunning Hxr. rw Lo //. by apply I4.
  - intros x Hx. destruct (Hrunning x Hx) as [Hxq Hrx]. destruct (Hback x (proj1 Hx) Hxq) as (_ & _ & -> & _). by apply I5.
  - intros x Hx Hxr. destruct (decide (x = q)) as [->|Hxq]; [rw (e_par _ _ _ _ Hd); by apply I6; [apply Hrq|]|]. destruct (Hback x Hx Hxq) as (Hlx & _ & _ & Hpx). by apply Hpx, I6.
  - intros x t Ht. pose proof (Hsub _ _ Ht) as Ht0. pose proof (q_child _ _ I2 x t Ht0) as Htx. assert (x <> q) as Hxq by (intros ->; exact (Hnq _ t Ht0 Htx)).
    apply (departed_waiting s s' q status); try done; [|by destruct (t_member _ I1 x t Htx) as (_ & ? & _)|by apply I7]. intros E. rw Zr // in Ht. set_solver.
Qed.

(** ** [sys_fork] *)
Lemma forked_pinv s s' pc w q n v t : pinv s pc w -> forked s s' q n v t -> tree s' -> quiet_procs s' (<[t := LUser]> pc) -> pool s' (<[t := LUser]> pc) -> pinv s' (<[t := LUser]> pc) w.
Proof using All.
  intros [I1 I2 I3 I4 I5 I6 I7] [(O1 & O2 & _) [O3 O3o] O4 O5 [O6 O6o] O7 O8 O9 O10 O11] Ht Hq Hp.
  assert (forall x, x <> n -> (live s' x -> live s x) /\ (running s' x -> running s x)) as Hback. { intros x Hx. rw /running /live (O3o x Hx). by split. }
  split; try done.
  - intros x Hx Hxr. destruct (decide (x = n)) as [->|Hn]; [by exists t|]. rw O6o //. apply I4; [|done]. by apply Hback.
  - intros x Hx. destruct (decide (x = n)) as [->|Hn]; [by rw O3|]. rw O3o //. apply I5. by apply Hback.
  - intros x Hx Hxr. destruct (decide (x = n)) as [->|Hn]; [by rw O3|]. rw O3o //. apply I6; [|done]. by apply (proj1 (Hback x Hn)).
  - intros x u. rw O7. intros Hin. assert (x <> n) as Hxn. { intros ->. apply (q_child _ _ I2) in Hin. by destruct (t_member _ I1 n u Hin) as (_ & [? _] & _). }
    assert (forall y, y ∈ child_list s x -> y <> n) as Hne. { intros y [? _]%(t_child _ I1) ->. done. }
    assert (forall y, y <> n -> y ∈ child_list s' x <-> y ∈ child_list s x) as Hcl. { intros y Hy. destruct (decide (x = q)) as [->|]; [rw O4; set_solver|by rw O5]. }
    apply (waiting_mono s); [by apply I7|by rw O3o|..].
    + intros y Hy He. assert (y <> n) as Hyn by (intros ->; by rw /exited O3 in He). rw Hcl // in Hy. rw /exited O3o // in He. rw O3o //. split_and!; try done.
      intros z Hz. destruct (O10 z y Hz) as [->|]; [|done]. rw O8 in Hz. congruence.
    + intros y Hy He. pose proof (Hne y Hy) as Hyn. rw Hcl // O3o //. split_and!; try done. intros z. apply O9.
Qed.
Lemma unforked_pinv s s' pc w : pinv s pc w -> unforked s s' -> tree s' -> quiet_procs s' pc -> pool s' pc -> pinv s' pc w.
Proof using All.
  intros [I1 I2 I3 I4 I5 I6 I7] [U1 U2 U3 U4 U5 U6] Ht Hq Hp. assert (forall x, running s' x -> running s x) as Hrun. { intros x [Hx%U2 He]. split; [done|]. by rw -U1. }
  split; try done.
  - intros x Hx%Hrun. rw U4. by apply I4.
  - intros x [Hl He]%Hrun. rw U1 //. by apply I5.
  - intros x Hx%U2. rw U1 //. by apply I6.
  - intros x u. rw U5. intros Hin. assert (live s x) as Hx. { apply (q_child _ _ I2) in Hin. by destruct (t_member _ I1 x u Hin) as (_ & [? _] & _). }
    assert (forall y, y ∈ child_list s x -> prc s' y = prc s y) as Hpr. { intros y [? _]%(t_child _ I1). by apply U1. }
    apply (waiting_mono s); [by apply I7|by rw U1|..]; rw U3; intros y Hy; rw /exited Hpr //; intros He; split_and!; try done; intros z; by rw U6.
Qed.

(** ** The reaper *)
Lemma reaper_spec s pc w c : pinv s pc w -> runs s pc c ->
  exists b s', thread_reaper_task s = Ok (b, s') /\ pinv s' pc w /\ prc s' = prc s /\ (forall v p, pt_get (ptab s') v = Some (OwnProc p) <-> pt_get (ptab s) v = Some (OwnProc p)) /\
    (forall t l q, thread_reaper_detached_thread_list s = t :: l -> t_process (thr s t) <> q -> rendez (psch s') (thread_list_rendez q) = rendez (psch s) (thread_list_rendez q)).
Proof using All.
  intros Hi Hc. pose proof Hi as [I1 I2 I3 I4 I5 I6 I7]. pose proof Hc as (Hcur & Hpc & Hid & _). destruct (runs_awake s pc c I2 Hc) as [Hon Has]. pose proof (q_kinv _ _ I2) as Hk.
  rw /thread_reaper_task {1}/mbind {1}/M_bind {1}/gets. destruct (thread_reaper_detached_thread_list s) as [|t l] eqn:El.
  { destruct (TaskSleep_spec (psch s) pc c thread_reaper_rendez Hk Hon Hpc Hid) as (k & Hr & Hi' & Hrr & Hro). rw {1}/mbind {1}/M_bind (on_psch_run _ s tt k) //.
    eexists _, _. split; [reflexivity|]. split; [|done]. apply (pinv_sched s k pc pc w); try done.
    - intros q u. rw Hro; [by apply cr_reaper|]. intros Hu. split; [by apply I2|by apply I7].
    - intros q u. rw Hro; [by apply tr_reaper|]. apply I2.
    - intros u x. rw Hro; [by apply own_reaper|]. apply I3.
    - apply I3. }
  pose proof I3 as [P1 P2 P3 P4 P5]. rw El in P3 P4. apply NoDup_cons in P3 as [Htl P3]. assert (t ∈ thread_reaper_detached_thread_list s) as Htr by (rw El; set_solver).
  pose proof (P2 t (or_intror Htr)) as Hx. pose proof (P5 t (or_intror Htr)) as Htid. assert (t ∉ free_thread_list s) as Htf by (apply P4; set_solver).
  destruct (pt_free_ok (ptab s) (t_tid (thr s t)) (OwnThread t) (t_pt _ I1) Htid) as (tb & Hfr & Hok & Hno & Hoth).
  set s1 := s <| thread_reaper_detached_thread_list := l |>. set s2 := s1 <| ptab := tb |>. destruct (clear_thread_spec s2 pc t Hk Hx) as (k1 & Hr1 & Hk1 & Z1 & C1 & _).
  set s3 := s2 <| thr ::= fun m => <[t := zero_Thr]> m |> <| psch := k1 |>. set s4 := s3 <| free_thread_list := free_thread_list s ++ [t] |>.
  assert (free_thread t s1 = Ok (tt, s4)) as Hft.
  { rw /free_thread {1}/mbind {1}/M_bind {1}/gets {1}/mbind {1}/M_bind (on_ptab_run _ s1 tt tb) // /free_thread_struct {1}/mbind {1}/M_bind Hr1 /on_free_threads /update.
    change (free_thread_list _) with (free_thread_list s). by rw dl_add_tail_ok. }
  destruct (running_awake k1 pc c Hk1) as [Hon1 _]; [by rw C1|]. set p := t_process (thr s t).
  destruct (TaskWakeupAll_spec k1 pc (thread_list_rendez p) (proj1 Hk1)) as (k2 & R2 & Hk2 & Hc2 & Z2 & Zo2 & _); [rw (on_cpu_owner _ _ _ (proj1 Hk1) Hon1 Hpc); done|].
  assert (forall x u, u ∈ rendez k2 x -> u ∈ rendez (psch s) x) as Hsub.
  { intros x u. destruct (decide (x = thread_list_rendez p)) as [->|]; [rw Z2; set_solver|]. by rw Zo2 // Z1. }
  assert (forall v o, o <> OwnThread t -> pt_get tb v = Some o <-> pt_get (ptab s) v = Some o) as Hpt.
  { intros v o Ho. destruct (decide (v = t_tid (thr s t))) as [->|]; [rw Hno Htid; naive_solver|by rw Hoth]. }
  assert (forall u, u <> t -> thr s4 u = thr s u) as Hthr by (intros u Hu; rw /s4 /s3 /=; by reads).
  rw {1}/mbind {1}/M_bind {1}/on_reaper {1}/update El /= -/s1 {1}/mbind {1}/M_bind {1}/gets. change (t_process (thr s1 t)) with p. rw {1}/mbind {1}/M_bind Hft {1}/mbind {1}/M_bind (on_psch_run _ s4 tt k2) //.
  eexists _, _. split; [reflexivity|]. split; [|split_and!; [done|intros v x; by apply Hpt|]]; last first.
  { intros t' l' q [= <- <-] Hq. simpl. rw Zo2; [intros ->%tr_inj; by apply Hq|]. by rw Z1. }
  destruct I2 as [Q1 Q2 Q3]. split; try done.
  - apply (tree_same_procs s); try done; simpl; try apply I1.
    + intros v x. by apply Hpt.
    + apply NoDup_app. split_and!; [apply I1|set_solver|apply NoDup_singleton].
    + intros x u Hu. destruct (t_member _ I1 x u Hu) as (Eu & ? & Hur & Huf). assert (u <> t) as Hut by (intros ->; done). rw fn_lookup_insert_ne //; [congruence|]. rw El in Hur. split_and!; try done; set_solver.
  - split; [split; [done|by exists c; apply Hc2]|..]; intros q u Hu%Hsub; simpl; auto.
  - split; simpl; try done.
    + intros u x Hu%Hsub. by apply P1.
    + intros u Hu. destruct (decide (u = t)) as [->|]; [done|]. apply P2. rw El. set_solver.
    + intros u Hu [?|?%list_elem_of_singleton]%elem_of_app; [|congruence]. apply (P4 u); [set_solver|done].
    + intros u Hu. assert (u <> t) as Hut. { intros ->. destruct Hu as [[x Hu]|Hu]; [|done]. by destruct (t_member _ I1 x t Hu) as (_ & _ & ? & _). }
      rw fn_lookup_insert_ne //; [congruence|]. apply Hpt; [congruence|]. apply P5. rw El. destruct Hu; [by left|right; set_solver].
  - intros q u Hu%Hsub. apply (waiting_mono s); [by apply I7|done|..]; intros y Hy He; split_and!; try done; intros v Hv; by apply Hpt.
Qed.

(** ** The rest of the kernel *)

(** Other calls keep off the rendez of processes and threads, except that a
    thread may sleep on its own; threads start and stop as above only. *)
Definition ours (r : nat) : Prop := (exists p, r = child_list_rendez p \/ r = thread_list_rendez p) \/ exists t, r = thread_rendez t.
Definition others c (k : kcall) : Prop :=
  match k with
  | CStart _ | CStop => False
  | CSleepIntr r _ _ => r = thread_rendez c \/ ~ ours r
  | _ => spares ours k
  end.
Lemma exited_stay s pc w c k t : pinv s pc w -> current_thread (psch s) = Some c -> others c k ->
  t ∈ free_thread_list s \/ t ∈ thread_reaper_detached_thread_list s -> call_loc k c pc t = LExited.
Proof using All.
  intros Hi Hc Ho Ht. pose proof (i_dead _ _ (i_pool _ _ _ Hi) t Ht) as Hx. pose proof (q_kinv _ _ (i_quiet _ _ _ Hi)) as Hk. destruct (running_awake _ _ _ Hk Hc) as [Hon _].
  destruct (exited_outside _ _ _ t Hk Hon Hx) as [_ Hne]. destruct k; simpl in *; by reads.
Qed.
Lemma proc_kernel_spec s pc w c k : pinv s pc w -> current_thread (psch s) = Some c -> may_call (psch s) pc c k -> others c k ->
  exists k', call_run k (psch s) = Ok (tt, k') /\ pinv (s <| psch := k' |>) (call_loc k c pc) w.
Proof using All.
  intros Hi Hc Hm Ho. pose proof Hi as [I1 [Q1 Q2 Q3] [P1 P2 P3 P4 P5] I4 I5 I6 I7].
  assert (forall t, t ∈ free_thread_list s \/ t ∈ thread_reaper_detached_thread_list s -> call_loc k c pc t = LExited) as Hex by (intros t; by apply (exited_stay s pc w)).
  assert (spares ours k \/ exists ts flags, k = CSleepIntr (thread_rendez c) ts flags) as [Hs|(ts & flags & ->)].
  { destruct k; simpl in *; try (by left). destruct Ho as [->|]; [right; by eexists _, _|by left]. }
  - destruct (spares_spec ours (psch s) pc c k Q1 Hc Hm Hs) as (k' & Hr & Hk' & Hz & _). exists k'. split; [done|]. apply (pinv_sched s k' pc _ w); try done.
    + intros q t. rw Hz; [left; exists q; by left|]. auto.
    + intros q t. rw Hz; [left; exists q; by right|]. auto.
    + intros u t. rw Hz; [right; by exists t|]. auto.
  - destruct Hm as (Hpc & Hid & Hts). destruct (running_awake _ _ _ Q1 Hc) as [Hon _].
    destruct (TaskSleepInterruptible_spec (psch s) pc c (thread_rendez c) ts flags Q1 Hon Hpc Hid Hts) as (k' & r & Hr & Hk' & Hy & Hn).
    exists k'. split; [by apply (void_run _ _ r)|]. destruct (TaskCheckInterruptible (th (psch s) c) flags).
    { destruct (Hy eq_refl) as [_ ->]. apply (pinv_sched s (psch s) pc _ w); auto. }
    destruct (Hn eq_refl) as (_ & Hrr & Hro). apply (pinv_sched s k' pc _ w); try done.
    + intros q t. rw Hro; [by apply cr_own|]. auto.
    + intros q t. rw Hro; [by apply tr_own|]. auto.
    + intros u t. destruct (decide (t = c)) as [->|Htc]; [|rw Hro; [by intros ?%own_inj|]; auto]. rw Hrr. intros [?|?%list_elem_of_singleton]%elem_of_app; auto.
Qed.
Lemma proc_signal_spec s pc w c td e : pinv s pc w -> runs s pc c ->
  exists r k', do_thread_event_signal td e (psch s) = Ok (r, k') /\ pinv (s <| psch := k' |>) pc w.
Proof using All.
  intros Hi (Hc & Hpc & _). pose proof Hi as [I1 [Q1 Q2 Q3] [P1 P2 P3 P4 P5] I4 I5 I6 I7].
  destruct (signal_undisturbed (psch s) pc c td e Q1 Hc Hpc) as (r & k' & Hr & Hk & _ & _ & Hsub & _). exists r, k'. split; [done|].
  apply (pinv_sched s k' pc _ w); try done.
  - intros q t Ht%Hsub. auto.
  - intros q t Ht%Hsub. auto.
  - intros u t Ht%Hsub. auto.
Qed.

(** ** The table of processes *)

(** For a pid: its parent's, and its exit status if it has exited. *)
Definition ptable : Type := Z -> option (option Z * option Z).
Inductive label : Type := Fork (v u : Z) | Exit (v status : Z) | Collect (v u : Z) (status : option Z) | Quiet.
Definition orphaned (root v : Z) (x : option (option Z * option Z)) : option (option Z * option Z) :=
  match x with
  | Some (Some v', e) => if decide (v' = v) then (if e is Some _ then None else Some (Some root, None)) else x
  | _ => x
  end.
Inductive tstep (root : Z) (m m' : ptable) : label -> Prop :=
| t_fork v u o : m v = Some (o, None) -> 0 < u -> m u = None -> m' u = Some (Some v, None) -> (forall x, x <> u -> m' x = m x) -> tstep root m m' (Fork v u)
| t_exit v par status : m v = Some (Some par, None) -> m' v = Some (Some par, Some status) -> (forall x, x <> v -> m' x = orphaned root v (m x)) -> tstep root m m' (Exit v status)
| t_collect v u status o : m u = Some (Some v, Some status) -> (o = None \/ o = Some status) -> m' u = None -> (forall x, x <> u -> m' x = m x) -> tstep root m m' (Collect v u o)
| t_quiet : (forall x, m' x = m x) -> tstep root m m' Quiet.
Inductive texec (root : Z) (m : ptable) : list label -> ptable -> Prop :=
| texec_nil : texec root m [] m
| texec_snoc ls m' l m'' : texec root m ls m' -> tstep root m' m'' l -> texec root m (ls ++ [l]) m''.

Definition exit_of s p : option Z := if decide (exited s p) then Some (p_exit_status (prc s p)) else None.
Definition parent_pid s p : option Z := (fun q => p_pid (prc s q)) <$> p_parent (prc s p).
Definition table s : ptable := fun v => match pt_get (ptab s) v with Some (OwnProc p) => Some (parent_pid s p, exit_of s p) | _ => None end.

Lemma table_eq s s' v : (forall p, pt_get (ptab s') v = Some (OwnProc p) <-> pt_get (ptab s) v = Some (OwnProc p)) ->
  (forall p, pt_get (ptab s) v = Some (OwnProc p) -> parent_pid s' p = parent_pid s p /\ exit_of s' p = exit_of s p) -> table s' v = table s v.
Proof using All.
  intros Hpt Hp. rw /table. destruct (pt_get (ptab s) v) as [[p|t]|] eqn:E.
  - rw (proj2 (Hpt p) eq_refl). by destruct (Hp p eq_refl) as [-> ->].
  - destruct (pt_get (ptab s') v) as [[p|u]|] eqn:E'; try done. pose proof (proj1 (Hpt p) eq_refl). congruence.
  - destruct (pt_get (ptab s') v) as [[p|u]|] eqn:E'; try done. pose proof (proj1 (Hpt p) eq_refl). congruence.
Qed.
Lemma table_pid s p : tree s -> live s p -> table s (p_pid (prc s p)) = Some (parent_pid s p, exit_of s p).
Proof using All. intros Ht Hp. by rw /table (t_pid _ Ht). Qed.
Lemma parent_pid_eq s s' p : p_parent (prc s' p) = p_parent (prc s p) -> (forall q, p_parent (prc s p) = Some q -> p_pid (prc s' q) = p_pid (prc s q)) -> parent_pid s' p = parent_pid s p.
Proof using All. rw /parent_pid. intros -> Hq. destruct (p_parent (prc s p)) as [q|]; [|done]. simpl. by rw Hq. Qed.
Lemma exit_of_eq s s' p : p_state (prc s' p) = p_state (prc s p) -> p_exit_status (prc s' p) = p_exit_status (prc s p) -> exit_of s' p = exit_of s p.
Proof using All. intros E1 E2. rw /exit_of. destruct (decide (exited s' p)) as [a|a], (decide (exited s p)) as [b|b]; rw /exited in a b; congruence. Qed.
Lemma running_exit s p : running s p -> exit_of s p = None.
Proof using All. intros [_ He]. by rw /exit_of decide_False. Qed.

Lemma fork_sim s s' q n v t root : tree s -> running s q -> forked s s' q n v t -> tstep root (table s) (table s') (Fork (p_pid (prc s q)) v).
Proof using All.
  intros Ht Hq [(O1 & O2 & O0) [O3 O3o] O4 O5 O6 O7 O8 O9 O10 O11]. assert (forall x, live s x -> x <> n) as Hne by (intros x ? ->; done).
  assert (q <> n) as Hqn by (apply Hne, Hq). eapply t_fork.
  - rw table_pid //; [apply Hq|]. by rw running_exit.
  - done.
  - by rw /table O2.
  - rw /table O8 /parent_pid /exit_of decide_False; [by rw /exited O3|]. rw O3 /=. by rw O3o.
  - intros x Hx. apply table_eq.
    + intros p. split; [|apply O9]. intros Hp. by destruct (O10 x p Hp).
    + intros p Hp. destruct (t_own _ Ht _ _ Hp) as [Hl _]. pose proof (Hne p Hl) as Hpn. split; [apply parent_pid_eq|apply exit_of_eq]; rw ?O3o //. intros r Hr. rw O3o //. apply Hne. by apply (t_parent _ Ht p).
Qed.
Lemma collect_sim s s' q ch o root : tree s -> exited s ch -> p_parent (prc s ch) = Some q -> reaped s s' q ch -> (o = None \/ o = Some (p_exit_status (prc s ch))) ->
  tstep root (table s) (table s') (Collect (p_pid (prc s q)) (p_pid (prc s ch)) o).
Proof using All.
  intros Ht He Hp (_ & [En Eo] & _ & _ & Hno & Hoth) Ho. assert (live s ch) as Hl by (rw /live He; done). eapply t_collect; [|exact Ho|..].
  - rw table_pid //. rw /parent_pid Hp /exit_of decide_True //.
  - by rw /table Hno.
  - intros x Hx. apply table_eq; [intros p; by rw Hoth|]. intros p Hp'. destruct (t_own _ Ht _ _ Hp') as [Hlp Ex]. assert (p <> ch) as Hpc by (intros ->; congruence).
    split; [apply parent_pid_eq|apply exit_of_eq]; rw ?Eo //. intros r Hr. rw Eo //. intros ->. by destruct (t_parent _ Ht p ch Hlp Hr).
Qed.
Lemma unforked_sim s s' root : tree s -> unforked s s' -> tstep root (table s) (table s') Quiet.
Proof using All.
  intros Ht [U1 U2 U3 U4 U5 U6]. apply t_quiet. intros x. apply table_eq; [intros p; by rw U6|]. intros p Hp. destruct (t_own _ Ht _ _ Hp) as [Hl _].
  split; [apply parent_pid_eq|apply exit_of_eq]; rw ?U1 //. intros r Hr. rw U1 //. by apply (t_parent _ Ht p).
Qed.
Lemma same_sim s s' root : prc s' = prc s -> (forall v p, pt_get (ptab s') v = Some (OwnProc p) <-> pt_get (ptab s) v = Some (OwnProc p)) -> tstep root (table s) (table s') Quiet.
Proof using All. intros Hp Hpt. apply t_quiet. intros x. apply table_eq; [done|]. intros p _. split; [apply parent_pid_eq|apply exit_of_eq]; by rw Hp. Qed.
Lemma exit_sim s s' q r status : tree s -> tree s' -> running s q -> p_parent (prc s q) = Some r -> q <> root_process -> departed s s' q status ->
  tstep (p_pid (prc s root_process)) (table s) (table s') (Exit (p_pid (prc s q)) status).
Proof using All.
  intros Ht Ht' Hq Hp Hqr [E1 E2 E3 E4 Eg E5 E6 E7 E8 E9 E10 E11 E12]. assert (live s' q) as Hlq by (rw /live E3; done). destruct (t_root _ Ht) as [Hroot Hroot0].
  assert (forall y, live s y -> y <> q -> (y ∈ child_list s q -> ~ exited s y) -> p_pid (prc s' y) = p_pid (prc s y)) as Hpid.
  { intros y Hy Hyq Hne. destruct (decide (y ∈ child_list s q)) as [Hin|Hin]; [|by rw E5]. by destruct (E7 y Hin (Hne Hin)) as [o ->]. }
  assert (forall y, running s y -> p_pid (prc s' y) = p_pid (prc s y)) as Hrun. { intros y [Hy He]. destruct (decide (y = q)) as [->|]; [done|by apply Hpid]. }
  assert (r <> q) as Hrq by (intros ->; by apply (t_self _ Ht q (proj1 Hq))). pose proof (t_parent _ Ht q r (proj1 Hq) Hp) as Hr.
  apply (t_exit _ _ _ _ (p_pid (prc s r))).
  - rw table_pid //; [apply Hq|]. by rw /parent_pid Hp running_exit.
  - rw -E1 table_pid // /parent_pid E2 Hp /exit_of decide_True //= E4 Hrun //.
  - intros v Hv. destruct (pt_get (ptab s) v) as [[y|t]|] eqn:E.
    + destruct (t_own _ Ht _ _ E) as [Hy Ey]. assert (y <> q) as Hyq by (intros ->; congruence). rw {2}/table E. destruct (decide (y ∈ child_list s q)) as [Hin|Hin].
      * pose proof Hin as [_ Hpy]%(t_child _ Ht). rw {1}/parent_pid Hpy /= decide_True //. destruct (decide (exited s y)) as [He|He].
        { rw /exit_of decide_True // /table. destruct (pt_get (ptab s') v) as [o|] eqn:Eo; [|done]. apply E11 in Eo as Eo'. rw E in Eo'. injection Eo' as <-.
          destruct (t_own _ Ht' _ _ Eo) as [Hy' _]. by rw /live (E6 y Hin He) in Hy'. }
        rw /exit_of decide_False // /table. assert (pt_get (ptab s') v = Some (OwnProc y)) as ->.
        { destruct (pt_get (ptab s') v) as [o|] eqn:Eo; [apply E11 in Eo; congruence|]. by destruct (E12 v _ E Eo) as (z & [= <-] & _ & ?). }
        destruct (E7 y Hin He) as [o Eo]. rw /parent_pid /exit_of decide_False; [by rw /exited Eo|]. rw Eo /= Hrun //.
      * assert (prc s' y = prc s y) as Epy by (by apply E5). assert (table s' v = table s v) as Et.
        { apply table_eq.
          - intros z. split; [apply E11|]. intros Ez. assert (z = y) as -> by congruence. destruct (pt_get (ptab s') v) as [o|] eqn:Eo; [apply E11 in Eo; congruence|].
            destruct (E12 v _ Ez Eo) as (x & [= <-] & Hx & _). done.
          - intros z Ez. assert (z = y) as -> by congruence. split; [apply parent_pid_eq|apply exit_of_eq]; rw ?Epy //. intros x Hx. by apply Hrun, (t_parent _ Ht y). }
        rw Et /table E. rw /orphaned. destruct (parent_pid s y) as [v'|] eqn:Ep; [|done]. rw decide_False //. intros ->. rw /parent_pid in Ep. destruct (p_parent (prc s y)) as [x|] eqn:Ex; [|done].
        injection Ep as Ep. pose proof (t_parent _ Ht y x Hy Ex) as [Hx _]. pose proof (t_pid _ Ht x Hx) as Ox. rw Ep (t_pid _ Ht q (proj1 Hq)) in Ox. injection Ox as <-. apply Hin. by apply (t_child _ Ht).
    + rw /table E. destruct (pt_get (ptab s') v) as [[y|u]|] eqn:Eo; try done. apply E11 in Eo. congruence.
    + rw /table E. destruct (pt_get (ptab s') v) as [[y|u]|] eqn:Eo; try done. apply E11 in Eo. congruence.
Qed.

(** ** The step system *)
Definition wait_label s c (r : waits) : label :=
  match r with WReturns (RVal u) o => Collect (p_pid (prc s (t_process (thr s c)))) u o | _ => Quiet end.
Definition wait_wants w c pid (r : waits) : nat -> Z := match r with WSleeps => <[c := pid]> w | _ => w end.
Definition fork_label s c (r : ret) : label := match r with RVal u => Fork (p_pid (prc s (t_process (thr s c)))) u | RErr _ => Quiet end.
(** The new thread is the first of the unused ones. *)
Definition fork_loc s pc (r : ret) : nat -> loc := match r, free_thread_list s with RVal _, t :: _ => <[t := LUser]> pc | _, _ => pc end.

Inductive pstep : procs T * (nat -> loc) * (nat -> Z) -> label -> procs T * (nat -> loc) * (nat -> Z) -> Prop :=
| p_fork s pc w c as_ok stack r s' : runs s pc c -> sys_fork c as_ok stack s = Ok (r, s') -> pstep (s, pc, w) (fork_label s c r) (s', fork_loc s pc r, w)
| p_wait s pc w c pid st nohang r s' : runs s pc c -> sys_waitpid c pid st nohang s = Ok (r, s') -> pstep (s, pc, w) (wait_label s c r) (s', pc, wait_wants w c pid r)
| p_exit s pc w c status b s' : runs s pc c -> t_process (thr s c) <> root_process -> sys_exit c status s = Ok (b, s') ->
    pstep (s, pc, w) (Exit (p_pid (prc s (t_process (thr s c)))) status) (s', <[c := LExited]> pc, w)
| p_reap s pc w c b s' : runs s pc c -> thread_reaper_task s = Ok (b, s') -> pstep (s, pc, w) Quiet (s', pc, w)
| p_kernel s pc w c k k' : current_thread (psch s) = Some c -> may_call (psch s) pc c k -> others c k -> call_run k (psch s) = Ok (tt, k') ->
    pstep (s, pc, w) Quiet (s <| psch := k' |>, call_loc k c pc, w)
| p_signal s pc w c td e r k' : runs s pc c -> do_thread_event_signal td e (psch s) = Ok (r, k') -> pstep (s, pc, w) Quiet (s <| psch := k' |>, pc, w).
Inductive pexec (x : procs T * (nat -> loc) * (nat -> Z)) : list label -> procs T * (nat -> loc) * (nat -> Z) -> Prop :=
| pexec_nil : pexec x [] x
| pexec_snoc ls y l z : pexec x ls y -> pstep y l z -> pexec x (ls ++ [l]) z.

Lemma fork_pinv s pc w c as_ok stack : pinv s pc w -> runs s pc c ->
  exists r s', sys_fork c as_ok stack s = Ok (r, s') /\ pinv s' (fork_loc s pc r) w /\ p_pid (prc s' root_process) = p_pid (prc s root_process) /\
    tstep (p_pid (prc s root_process)) (table s) (table s') (fork_label s c r).
Proof using All.
  intros Hi Hc. pose proof Hi as [I1 I2 I3 _ _ _ _]. destruct Hc as (Hcur & Hpc & Hid & Hin). destruct (t_member _ I1 _ c Hin) as (_ & Hq & _). destruct (t_root _ I1) as [[Hroot _] _].
  destruct (sys_fork_spec s pc c as_ok stack I1 I2 I3 Hin Hcur Hpc Hid) as (r & s' & Hr & Hres). exists r, s'. split; [done|]. destruct r as [v|e].
  - destruct Hres as (n & t & Hf & Hfk & Ht & Hq' & Hp). assert (fork_loc s pc (RVal v) = <[t := LUser]> pc) as ->. { rw /fork_loc. destruct (free_thread_list s); [done|]. by injection Hf as ->. }
    split_and!; [by apply (forked_pinv s s' pc w (t_process (thr s c)) n v t)| |by apply (fork_sim s s' _ n v t)].
    destruct (o_prc _ _ _ _ _ _ Hfk) as [_ Eo]. rw Eo //. intros E. destruct (o_new _ _ _ _ _ _ Hfk) as [Hn _]. apply Hn. by rw -E.
  - destruct Hres as (Ht & Hq' & Hp & Hu). split_and!; [by apply (unforked_pinv s)|by rw (u_prc _ _ Hu)|by apply unforked_sim].
Qed.
Lemma wait_pinv s pc w c pid st nohang r s' : pinv s pc w -> runs s pc c -> sys_waitpid c pid st nohang s = Ok (r, s') ->
  pinv s' pc (wait_wants w c pid r) /\ p_pid (prc s' root_process) = p_pid (prc s root_process) /\ tstep (p_pid (prc s root_process)) (table s) (table s') (wait_label s c r).
Proof using All.
  intros Hi Hc Hr. destruct (waitpid_spec s pc w c pid st nohang Hi Hc) as (r' & s'' & Hr' & Hres). rw Hr in Hr'. injection Hr' as <- <-. pose proof (i_tree _ _ _ Hi) as Ht.
  assert (forall k, tstep (p_pid (prc s root_process)) (table s) (table (s <| psch := k |>)) Quiet) as Hq by (intros k; by apply same_sim).
  rw /wait_result in Hres. destruct r as [[v|e] o|]; simpl in *.
  - destruct Hres as (ch & Hch & _ & He & -> & -> & Hre & Hi'). apply (t_child _ Ht) in Hch as [_ Hp]. split_and!; [done| |apply (collect_sim s s' _ ch); try done; destruct st; auto].
    destruct Hre as (_ & [_ Eo] & _). rw Eo //. intros E. destruct (t_root _ Ht) as [[_ Hx] _]. by rw E in Hx.
  - destruct Hres as (-> & _ & _). split_and!; try done. by apply same_sim.
  - destruct Hres as (_ & _ & _ & (k & ->) & Hi'). by split_and!.
Qed.
Lemma exit_pinv s pc w c status b s' : pinv s pc w -> runs s pc c -> t_process (thr s c) <> root_process -> sys_exit c status s = Ok (b, s') ->
  pinv s' (<[c := LExited]> pc) w /\ p_pid (prc s' root_process) = p_pid (prc s root_process) /\
  tstep (p_pid (prc s root_process)) (table s) (table s') (Exit (p_pid (prc s (t_process (thr s c)))) status).
Proof using All.
  intros Hi Hc Hqr Hr. destruct (exit_spec s pc w c status Hi Hc Hqr) as (s'' & Hr' & Hi' & Hd). rw Hr in Hr'. injection Hr' as _ <-. pose proof (i_tree _ _ _ Hi) as Ht.
  destruct Hc as (_ & _ & _ & Hin). destruct (t_member _ Ht _ c Hin) as (_ & Hq & _). destruct (p_parent (prc s (t_process (thr s c)))) as [r|] eqn:Hp; [|by destruct (i_parent _ _ _ Hi _ (proj1 Hq) Hqr)].
  split_and!; [done| |by apply (exit_sim s s' _ r); [|apply (i_tree _ _ _ Hi')|..]]. destruct (t_root _ Ht) as [_ Hroot].
  rw (e_prc _ _ _ _ Hd) //; [congruence|]. intros [_ ?]%(t_child _ Ht). congruence.
Qed.
Lemma pstep_inv x l y : pstep x l y -> pinv x.1.1 x.1.2 x.2 ->
  pinv y.1.1 y.1.2 y.2 /\ p_pid (prc y.1.1 root_process) = p_pid (prc x.1.1 root_process) /\ tstep (p_pid (prc x.1.1 root_process)) (table x.1.1) (table y.1.1) l.
Proof using All.
  intros [s pc w c as_ok stack r s' Hc Hr|s pc w c pid st nohang r s' Hc Hr|s pc w c status b s' Hc Hqr Hr|s pc w c b s' Hc Hr|s pc w c k k' Hc Hm Ho Hr|s pc w c td e r k' Hc Hr]; simpl; intros Hi.
  - destruct (fork_pinv s pc w c as_ok stack Hi Hc) as (r' & s'' & Hr' & Hres). rw Hr in Hr'. by injection Hr' as <- <-.
  - by apply (wait_pinv s pc w c pid st nohang).
  - by apply (exit_pinv s pc w c status b).
  - destruct (reaper_spec s pc w c Hi Hc) as (b' & s'' & Hr' & Hi' & Hp & Hpt & _). rw Hr in Hr'. injection Hr' as <- <-. rw Hp. split_and!; [done..|by apply same_sim].
  - destruct (proc_kernel_spec s pc w c k Hi Hc Hm Ho) as (k'' & Hr' & Hi'). rw Hr in Hr'. injection Hr' as <-. split_and!; [done..|by apply same_sim].
  - destruct (proc_signal_spec s pc w c td e Hi Hc) as (r' & k'' & Hr' & Hi'). rw Hr in Hr'. injection Hr' as _ <-. split_and!; [done..|by apply same_sim].
Qed.
Lemma pexec_inv x ls y : pexec x ls y -> pinv x.1.1 x.1.2 x.2 ->
  pinv y.1.1 y.1.2 y.2 /\ p_pid (prc y.1.1 root_process) = p_pid (prc x.1.1 root_process) /\ texec (p_pid (prc x.1.1 root_process)) (table x.1.1) ls (table y.1.1).
Proof using All.
  induction 1 as [|ls y l z _ IH Hs]; intros Hi; [split_and!; [done..|constructor]|]. destruct (IH Hi) as (Hi' & Hroot & He). destruct (pstep_inv y l z Hs Hi') as (Hi2 & Hroot2 & Hs2).
  split_and!; [done|congruence|]. rw Hroot in Hs2. exact (texec_snoc _ _ ls (table y.1.1) l _ He Hs2).
Qed.
(** A status that can be collected is the one its process exited with. *)
Lemma texec_status root m ls m' u par st : texec root m ls m' -> m' u = Some (par, Some st) -> (exists par0, m u = Some (par0, Some st)) \/ Exit u st ∈ ls.
Proof using All.
  intros He. revert par. induction He as [|ls m' l m'' _ IH Hs]; intros par Hu; [left; by exists par|].
  assert ((exists par0, m' u = Some (par0, Some st)) \/ l = Exit u st) as [[par0 Hu']|Hl].
  { destruct Hs as [v x o H1' H2' H3' H4' H5'|v q status H1' H2' H3'|v x status o H1' H2' H3' H4'|H1'].
    - destruct (decide (u = x)) as [->|]; [congruence|]. rw H5' // in Hu. left. by exists par.
    - destruct (decide (u = v)) as [->|]; [right; congruence|]. left. rw H3' // in Hu. destruct (m' u) as [[[v'|] e]|]; simpl in Hu; [|by exists par|done].
      case_decide; [by destruct e|]. by exists par.
    - destruct (decide (u = x)) as [->|]; [congruence|]. rw H4' // in Hu. left. by exists par.
    - rw H1' in Hu. left. by exists par. }
  - destruct (IH par0 Hu') as [?|?]; [by left|right; set_solver].
  - right. subst l. set_solver.
Qed.

(** What the running thread may do, and what it gets. *)
Definition proc_calls s pc w c : Prop :=
  (forall as_ok stack, exists r s', sys_fork c as_ok stack s = Ok (r, s')) /\
  (forall pid st nohang, exists r s', sys_waitpid c pid st nohang s = Ok (r, s') /\ wait_result s s' pc w c pid st nohang r) /\
  (t_process (thr s c) <> root_process -> forall status, exists s', sys_exit c status s = Ok (false, s') /\ departed s s' (t_process (thr s c)) status) /\
  (exists b s', thread_reaper_task s = Ok (b, s')).


(** ** Processes with several threads *)

(** The test of [do_kill_other_threads_and_wait] has && for ||: the first and
    the last thread of a process do not wait for the others. *)
Theorem exit_leaves_threads s t : let l := thread_list s (t_process (thr s t)) in
  head l = Some t \/ last l = Some t -> wait_for_threads t s = Ok (false, s).
Proof using All. intros l Hl. rw /wait_for_threads {1}/mbind {1}/M_bind {1}/gets {1}/mbind {1}/M_bind {1}/gets. rw decide_False //. intros [? ?]. by destruct Hl. Qed.

(** A thread that exits detached belongs to the root process when the reaper
    frees it, so that a thread that waits for it in [sys_exit] stays asleep. *)
Theorem reaper_wakes_root s pc w c t l q : pinv s pc w -> runs s pc c ->
  thread_reaper_detached_thread_list s = t :: l -> t_process (thr s t) = root_process -> q <> root_process ->
  exists b s', thread_reaper_task s = Ok (b, s') /\ rendez (psch s') (thread_list_rendez q) = rendez (psch s) (thread_list_rendez q).
Proof using All.
  intros Hi Hc Hl Ht Hq. destruct (reaper_spec s pc w c Hi Hc) as (b & s' & Hr & _ & _ & _ & Hz). exists b, s'. split; [done|]. apply (Hz t l); [done|]. congruence.
Qed.

(** [sys_thread_exit] of the last thread ends the process without handing its
    children on: they are left with a parent that has exited, and is freed when
    its own parent collects it. *)
Theorem thread_exit_orphans s pc w c ch : let q := t_process (thr s c) in
  pinv s pc w -> runs s pc c -> q <> root_process -> ch ∈ child_list s q -> ~ exited s ch ->
  exists s', do_exit_thread c 0 s = Ok (tt, s') /\ exited s' q /\ p_parent (prc s' ch) = Some q /\ ~ exited s' ch /\ ~ tree s'.
Proof using All.
  intros q Hi (Hcur & Hpc & Hid & Hin) Hqr Hch Hne. fold q in Hin. pose proof Hi as [I1 I2 I3 I4 I5 I6 I7]. destruct (t_member _ I1 q c Hin) as (_ & Hrq & Hnr & _).
  destruct (I4 q Hrq Hqr) as [t Hl]. assert (t = c) as -> by (rw Hl in Hin; set_solver). destruct (p_parent (prc s q)) as [r|] eqn:Hp; [|by destruct (I6 q (proj1 Hrq) Hqr)].
  destruct (last_thread_run s pc c q r) as (s' & k & Hr & _ & _ & [Pq Po] & _); try done; [apply I2|]. apply (t_child _ I1) in Hch as [Hlc Hpc']. assert (ch <> q) as Hcq by (intros ->; by apply (t_self _ I1 q)).
  assert (exited s' q) as He by (rw /exited Pq; done). assert (p_parent (prc s' ch) = Some q) as Hpa by (by rw Po).
  exists s'. split_and!; try done; [by rw /exited Po|]. intros Ht. destruct (t_parent _ Ht ch q) as [_ Hx]; try done. by rw /live Po.
Qed.

(** [sys_exit] takes the process out of its group, so that [sys_waitpid] for the
    group does not find it. *)
Theorem group_wait_misses s s' q r status pid : departed s s' q status -> pid < -1 -> ~ matches s' r pid q.
Proof using All.
  intros Hd Hp. rw /matches (e_pgid _ _ _ _ Hd) /INVALID_PGID. destruct (Z.ltb_spec 0 pid); [lia|]. destruct (Z.eqb_spec pid 0); [lia|]. destruct (Z.eqb_spec pid (-1)); lia.
Qed.

(** [do_create_process] starts the thread it could not make. *)
Theorem create_process_faults s pc w c stack : pinv s pc w -> runs s pc c -> free_thread_list s = [] ->
  do_create_process c true stack s = Fault \/ exists s', do_create_process c true stack s = Ok (None, s') /\ unforked s s'.
Proof using All.
  intros Hi (Hcur & Hpc & Hid & Hin) Hf. pose proof Hi as [I1 I2 I3 _ _ _ _]. set q := t_process (thr s c) in Hin. destruct (t_member _ I1 q c Hin) as (_ & Hrq & _).
  destruct (alloc_process_spec s pc q I1 I2 Hrq) as ([n|] & s1 & Hr1 & Ht1 & Hq1 & Ho).
  - left. destruct Ho as [Hnl [v Hb]]. pose proof Hb as (Hs & [Bn Bo] & _). rw /do_create_process {1}/mbind {1}/M_bind {1}/gets {1}/mbind {1}/M_bind -/q Hr1 /=. rw {1}/mbind {1}/M_bind {1}/upd_prc {1}/modify -/(with_pgid INVALID_PGID n s1).
    destruct (with_pgid_ok INVALID_PGID n s1 pc Ht1 Hq1 (born_pool s s1 pc q n v I3 Hb)) as (Ht2 & Hq2 & Hp2). set s2 := with_pgid INVALID_PGID n s1 in Ht2, Hq2, Hp2 |- *.
    rw {1}/mbind {1}/M_bind /do_create_thread /alloc_thread_struct {1}/mbind {1}/M_bind {1}/mbind {1}/M_bind {1}/gets. change (free_thread_list s2) with (free_thread_list s1). rw (h_free _ _ Hs) Hf /=.
    rw {1}/mbind {1}/M_bind {1}/upd_prc {1}/modify -/(with_pgid INVALID_PGID n s2). destruct (with_pgid_ok INVALID_PGID n s2 pc Ht2 Hq2 Hp2) as (Ht3 & Hq3 & Hp3).
    destruct (free_new_spec s s1 (with_pgid INVALID_PGID n s2) pc q n v) as (s' & Hr & _); try done; [..|by rw {1}/mbind {1}/M_bind Hr].
    + intros x Hx. rw /s2 /=. by reads.
    + rw /s2 /=. by reads.
  - right. exists s1. rw /do_create_process {1}/mbind {1}/M_bind {1}/gets {1}/mbind {1}/M_bind -/q Hr1. split; [done|]. by apply unborn_unforked.
Qed.
End protocol.
