(* ===== verification/ProcPid.v ===== *)
(** * ProcPid: the processes over the table of pids

    proc/pid.c gives what the processes need of a table of pids. With it, a
    process exits and its parent collects the status; and what goes wrong when
    a process has several threads, or ends by [sys_thread_exit]. *)

From S2P Require Import Prelude Sched SchedQueue Bkl BklSteps Event EventThms Frames Pid Proc ProcInv ProcFork ProcThms.
Local Open Scope Z_scope.
Local Open Scope kernel_scope.

Section instance.
Context (max_pid : Z).
Implicit Types (s : pids) (i x : nat) (v : Z) (o : owner).

Definition owner_of (d : PidDesc) : option owner :=
  match pd_proc d, pd_thread d with Some p, _ => Some (OwnProc p) | None, Some t => Some (OwnThread t) | None, None => None end.
Definition own_desc o : PidDesc := match o with OwnProc p => zero_PidDesc <| pd_proc := Some p |> | OwnThread t => zero_PidDesc <| pd_thread := Some t |> end.
Definition pid_owner s v : option owner := match pid_to_piddesc max_pid v with Some i => owner_of (pid_table s i) | None => None end.
Definition alloc_pid_for o : M pids ret := match o with OwnProc p => alloc_pid_proc p | OwnThread t => alloc_pid_thread t end.
(** The last descriptor, whose pid cannot be looked up, is not free; the
    sessions and groups of descriptors have members. *)
Record pids_ok s : Prop := {
  po_free : free_pids_ok max_pid s;
  po_last : forall i, i ∈ free_piddesc_list s -> Z.of_nat i + 1 < max_pid;
  po_sess : forall i x, pd_session (pid_table s i) = Some x -> s_process_list (sess s x) <> [];
  po_grp : forall i x, pd_pgrp (pid_table s i) = Some x -> g_process_list (grp s x) <> [] }.

Lemma pid_alloc_ok s o : pids_ok s -> exists r s', alloc_pid_for o s = Ok (r, s') /\ pids_ok s' /\
  match r with
  | RVal v => 0 < v /\ pid_owner s v = None /\ pid_owner s' v = Some o /\ forall w, w <> v -> pid_owner s' w = pid_owner s w
  | RErr _ => s' = s
  end.
Proof.
  intros Hok. pose proof Hok as [[Hn Hf] Hl Hs Hg]. assert (alloc_pid_for o s = alloc_pid (own_desc o) s) as -> by (by destruct o).
  rw /alloc_pid {1}/mbind {1}/M_bind {1}/gets. destruct (free_piddesc_list s) as [|i l] eqn:E; [by exists (RErr ENOMEM), s|].
  destruct (Hf i) as [_ Hz]; [set_solver|]. assert (Z.of_nat i + 1 < max_pid) as Hi by (apply Hl; set_solver). apply NoDup_cons in Hn as [Hil Hn].
  rw {1}/mbind {1}/M_bind {1}/on_free_pd {1}/update E /= {1}/mbind {1}/M_bind {1}/upd_pd {1}/modify. eexists _, _. split; [reflexivity|].
  assert (forall w, w <> piddesc_to_pid i -> 0 < w -> i <> Z.to_nat (w - 1)) as Hne by (rw /piddesc_to_pid; lia).
  assert (pid_to_piddesc max_pid (piddesc_to_pid i) = Some i) as Hpi by (rw pid_to_piddesc_ok; [rw /piddesc_to_pid; lia|by rw piddesc_to_pid_ok]).
  split; [split; simpl|split_and!].
  - split; [done|]. simpl. intros j Hj. reads. apply Hf. set_solver.
  - intros j Hj. apply Hl. set_solver.
  - intros j x. destruct (decide (i = j)) as [<-|]; reads; [by destruct o|apply Hs].
  - intros j x. destruct (decide (i = j)) as [<-|]; reads; [by destruct o|apply Hg].
  - rw /piddesc_to_pid. lia.
  - by rw /pid_owner Hpi Hz.
  - rw /pid_owner Hpi /=. reads. by destruct o.
  - intros w Hw. rw /pid_owner. destruct (pid_to_piddesc_spec max_pid w) as [[Hb ->]|[_ ->]]; [|done]. simpl. rw fn_lookup_insert_ne //. apply Hne; [done|lia].
Qed.
Lemma pid_free_ok s v o : pids_ok s -> pid_owner s v = Some o ->
  exists s', free_pid max_pid v s = Ok (tt, s') /\ pids_ok s' /\ pid_owner s' v = None /\ forall w, w <> v -> pid_owner s' w = pid_owner s w.
Proof.
  intros [[Hn Hf] Hl Hs Hg] Ho. rw /pid_owner in Ho. destruct (pid_to_piddesc_spec max_pid v) as [[Hv Hd]|[_ Hd]]; rw Hd in Ho; [|done]. set i := Z.to_nat (v - 1) in Ho, Hd.
  assert (i ∉ free_piddesc_list s) as Hnf. { intros [_ Hz]%Hf. by rw Hz in Ho. }
  assert (forall w j, w <> v -> pid_to_piddesc max_pid w = Some j -> i <> j) as Hne.
  { intros w j Hw. destruct (pid_to_piddesc_spec max_pid w) as [[? ->]|[_ ->]]; [|done]. intros [= <-]. rw /i. lia. }
  set d := (pid_table s i) <| pd_proc := None |> <| pd_thread := None |>. set s1 := s <| pid_table ::= fun m => <[i := d]> m |>.
  assert (forall l, pids_ok (s1 <| free_piddesc_list := l |>) -> pids_ok (s1 <| free_piddesc_list := l |>) /\ pid_owner (s1 <| free_piddesc_list := l |>) v = None /\
    forall w, w <> v -> pid_owner (s1 <| free_piddesc_list := l |>) w = pid_owner s w) as Hout.
  { intros l Hok. split_and!; [done|by rw /pid_owner Hd /=; reads|]. intros w Hw. rw /pid_owner. destruct (pid_to_piddesc max_pid w) as [j|] eqn:Ej; [|done]. simpl. rw fn_lookup_insert_ne //. by apply (Hne w). }
  assert (forall l, NoDup l -> (forall j, j ∈ l -> j ∈ free_piddesc_list s \/ j = i /\ d = zero_PidDesc) -> pids_ok (s1 <| free_piddesc_list := l |>)) as Hok.
  { intros l Hnl Hsub. split; [split; [done|]|..]; simpl.
    - intros j [Hj|[-> Hz]]%Hsub; [|reads; split; [rw /i; lia|done]]. assert (i <> j) by (intros ->; done). reads. by apply Hf.
    - intros j [Hj|[-> _]]%Hsub; [by apply Hl|rw /i; lia].
    - intros j x. destruct (decide (i = j)) as [<-|]; reads; apply Hs.
    - intros j x. destruct (decide (i = j)) as [<-|]; reads; apply Hg. }
  assert (s1 <| free_piddesc_list := free_piddesc_list s |> = s1) as Es1 by done.
  rw /free_pid Hd {1}/mbind {1}/M_bind {1}/upd_pd {1}/modify -/d -/s1 {1}/mbind {1}/M_bind {1}/gets. assert (pid_table s1 i = d) as Ed by (rw /s1 /=; by reads). rw Ed.
  change (pd_session d) with (pd_session (pid_table s i)). change (pd_pgrp d) with (pd_pgrp (pid_table s i)).
  destruct (pd_session (pid_table s i)) as [x|] eqn:Ex, (pd_pgrp (pid_table s i)) as [y|] eqn:Ey.
  - pose proof (Hs i x Ex). pose proof (Hg i y Ey). mrun. reads. destruct (s_process_list (sess s x)); [done|]. reads. destruct (g_process_list (grp s y)); [done|]. reads. rw Ex.
    exists s1. split; [done|]. rw -Es1. apply Hout, Hok; [done|auto].
  - pose proof (Hs i x Ex). mrun. reads. destruct (s_process_list (sess s x)); [done|]. reads. rw Ex. exists s1. split; [done|]. rw -Es1. apply Hout, Hok; [done|auto].
  - pose proof (Hg i y Ey). mrun. reads. destruct (g_process_list (grp s y)); [done|]. reads. rw Ex Ey. exists s1. split; [done|]. rw -Es1. apply Hout, Hok; [done|auto].
  - mrun. reads. rw Ex Ey /on_free_pd /update /= dl_add_tail_ok //. eexists. split; [reflexivity|]. apply Hout, Hok.
    + apply NoDup_app. split_and!; [done|set_solver|apply NoDup_singleton].
    + intros j [?|?%list_elem_of_singleton]%elem_of_app; [by left|right]. split; [done|]. rw /d. destruct (pid_table s i). simpl in *. by subst.
Qed.
#[global] Instance pid_PidTable : PidTable pids :=
  { pt_alloc := alloc_pid_for; pt_free := free_pid max_pid; pt_get := pid_owner; pt_ok := pids_ok; pt_alloc_ok := pid_alloc_ok; pt_free_ok := pid_free_ok }.
End instance.

(** ** Process 1, with the pid 2, exits while thread 3 of the root process waits *)
Module ProcSample.
Definition threads : Threads.
Proof.
  refine {| tid := fun t => Z.of_nat t + 1; Event.get_thread := fun v => if 0 <? v then Some (Z.to_nat (v - 1)) else None; process_of := fun _ => 0%nat; thread_rendez := fun t => (4 * t + 5)%nat |}.
  intros t. destruct (Z.ltb_spec 0 (Z.of_nat t + 1)); [f_equal; lia|lia].
Defined.
Definition consts : ProcConsts :=
  {| child_list_rendez := fun p => (4 * p + 7)%nat; thread_list_rendez := fun p => (4 * p + 4)%nat; thread_reaper_rendez := 6%nat; root_process := 0%nat; max_process := 64 |}.
Definition table : pids :=
  mkPids (fun _ => mkProcess 0 0 0 None)
    (fun i => match i with 0 | 1 => own_desc (OwnProc i) | 2 => own_desc (OwnThread 0) | 3 => own_desc (OwnThread 2) | 4 => own_desc (OwnThread 3) | _ => zero_PidDesc end%nat)
    [5; 6]%nat (fun _ => mkSession 0 None 0 []) [] (fun _ => mkPgrp 0 0 []) [] (fun _ => 0).
Definition state : procs pids :=
  mkProcs BklSteps.Sample.state0 table
    (fun p => match p with
              | 0 => mkProc 1 1 None PROC_STATE_ALIVE 0 false (None, None)
              | 1 => mkProc 2 1 (Some 0) PROC_STATE_INIT 0 false (None, None)
              | _ => zero_Proc
              end%nat)
    (fun p => match p with 0 => [1] | _ => [] end%nat) (fun p => match p with 0 => [2; 3] | 1 => [0] | _ => [] end%nat) [2]%nat
    (fun t => match t with 0 => mkThr 1 3 true 0 None | 2 => mkThr 0 4 false 0 None | 3 => mkThr 0 5 false 0 None | _ => zero_Thr end%nat) [4; 5]%nat [].
Definition loc0 (t : nat) : loc := match t with 0 | 3 => LKernel | 1 | 2 => LUser | _ => LExited end%nat.
End ProcSample.
Import ProcSample.
#[local] Existing Instance threads.
#[local] Existing Instance consts.
#[local] Instance sample_pids : PidTable pids := pid_PidTable 16.

#[local] Instance sample_apart : Apart.
Proof. split; simpl; lia. Qed.
Lemma proc_sample_kinv : kinv (psch state) loc0.
Proof.
  destruct sample_kinv as [[K1 K2 K3 K4 K5 K6 K7 K8 K9 K10 K11] Hc]. split; [|exact Hc]. split; try done.
  - intros t Ht. by apply elem_of_nil in Ht.
  - intros r t Ht. destruct (K5 r t Ht) as (? & ? & ? & ? & Hpc). split_and!; try done. by destruct t as [|[|[|[|t]]]].
  - intros t Ht. destruct (K9 t Ht) as (Hpc & ? & ?). split_and!; try done. by destruct t as [|[|[|[|t]]]].
  - intros t Hpc Hne. apply K10; [|done]. by destruct t as [|[|[|[|t]]]].
  - intros t Hx _. rw sample_queued. destruct t as [|[|[|[|t]]]]; try done. split; [lia|done].
Qed.
Lemma sample_tree : tree state.
Proof.
  assert (forall p, live state p <-> p = 0%nat \/ p = 1%nat) as Hlive. { intros [|[|p]]; rw /live /=; naive_solver lia. }
  split; simpl.
  - split; [split; [by apply (bool_decide_unpack _)|]|..]; simpl; try done.
    + intros i. rw !elem_of_cons elem_of_nil. intros [->|[->|[]]]; done.
    + intros i. rw !elem_of_cons elem_of_nil. lia.
    + intros [|[|[|[|[|i]]]]]; done.
    + intros [|[|[|[|[|i]]]]]; done.
  - apply NoDup_singleton.
  - intros p ->%list_elem_of_singleton. by rw Hlive; lia.
  - intros p [->| ->]%Hlive; done.
  - intros v p. rw /pid_owner. destruct (pid_to_piddesc_spec 16 v) as [[Hv ->]|[_ ->]]; [|done]. destruct (Z.to_nat (v - 1)) as [|[|[|[|[|i]]]]] eqn:E; simpl; try done; intros [= <-]; rw Hlive; split; simpl; lia.
  - intros [|p]; [apply NoDup_singleton|apply NoDup_nil_2].
  - intros q ch. rw Hlive. destruct q as [|q], ch as [|[|ch]]; simpl; try set_solver.
  - intros p q [->| ->]%Hlive; simpl; [done|]. intros [= <-]. done.
  - done.
  - intros [|[|p]]; by apply (bool_decide_unpack _) || apply NoDup_nil_2.
  - intros [|[|p]] t; simpl; rw ?elem_of_cons ?elem_of_nil.
    + intros [->|[->|[]]]; split_and!; try done; set_solver.
    + intros [->|[]]; split_and!; try done; set_solver.
    + done.
  - by apply (bool_decide_unpack _).
  - intros p [->| ->]%Hlive; done.
Qed.
Lemma sample_rendez r t : t ∈ rendez (psch state) r -> r = 7%nat /\ t = 3%nat.
Proof. simpl. destruct (Nat.eqb_spec r 7); [|set_solver]. by intros ->%list_elem_of_singleton. Qed.
Lemma sample_pinv : pinv state loc0 (fun _ => -1).
Proof.
  split.
  - apply sample_tree.
  - split; [apply proc_sample_kinv|..].
    + intros q t [E ->]%sample_rendez. simpl in E. assert (q = 0%nat) as -> by lia. simpl. set_solver.
    + intros q t [E ->]%sample_rendez. simpl in E. lia.
  - split.
    + intros u t [E ->]%sample_rendez. simpl in E. lia.
    + intros t. simpl. rw !elem_of_cons !elem_of_nil. by intros [[->|[->|[]]]|[]].
    + apply NoDup_nil_2.
    + intros t. simpl. set_solver.
    + intros t [[p Hp]|Ht]; [|by apply elem_of_nil in Ht]. destruct p as [|[|p]]; simpl in Hp; rw ?elem_of_cons ?elem_of_nil in Hp; [by destruct Hp as [->|[->|[]]]|by destruct Hp as [->|[]]|done].
  - intros [|[|p]] Hr Hne; [done|by exists 0%nat|by destruct Hr].
  - intros [|[|p]] Hr; done.
  - intros [|[|p]] Hl Hne; done.
  - intros q t [E ->]%sample_rendez. simpl in E. assert (q = 0%nat) as -> by lia. split; [intros ch ->%list_elem_of_singleton _; done|]. left. exists 1%nat. simpl. split; [set_solver|done].
Qed.

Definition st1 : procs pids := match sys_exit 0 42 state with Ok (_, s) => s | _ => state end.
Definition k2 : sched := match KernelLock (psch st1) with Ok (_, k) => k | _ => psch st1 end.
Definition st2 : procs pids := st1 <| psch := k2 |>.
Definition st3 : procs pids := match sys_waitpid 3 (-1) (Some true) false st2 with Ok (_, s) => s | _ => state end.
(** Process 1 exits, thread 2 goes for the lock and blocks, and thread 3, woken
    by the exit, collects the status. *)
Lemma sample_trace : exists pc w, pexec (state, loc0, fun _ => -1) [Exit 2 42; ProcThms.Quiet; Collect 1 2 (Some 42)] (st3, pc, w).
Proof.
  do 2 eexists. change [Exit 2 42; ProcThms.Quiet; Collect 1 2 (Some 42)] with ((([] ++ [Exit 2 42]) ++ [ProcThms.Quiet]) ++ [Collect 1 2 (Some 42)]).
  eapply pexec_snoc; [eapply pexec_snoc; [eapply pexec_snoc; [apply pexec_nil|]|]|].
  - apply (p_exit state loc0 (fun _ => -1) 0 42 false st1); [split; [reflexivity|split; [reflexivity|split; [discriminate|apply (bool_decide_unpack _); vm_compute; reflexivity]]]|discriminate|vm_compute; reflexivity].
  - apply (p_kernel st1 _ _ 2 CLock k2); [vm_compute; reflexivity|split; [reflexivity|vm_compute; discriminate]|exact I|vm_compute; reflexivity].
  - apply (p_wait st2 _ _ 3 (-1) (Some true) false (WReturns (RVal 2) (Some 42)) st3); [split; [vm_compute; reflexivity|split; [reflexivity|split; [vm_compute; discriminate|apply (bool_decide_unpack _); vm_compute; reflexivity]]]|vm_compute; reflexivity].
Qed.
