(* ===== verification/MemRegionFrame.v ===== *)
(** * MemRegionFrame: operations on one address space and the others

    The operations of vm/memregion.c touch only the regions of the address
    space they work on and the unused ones. *)

From S2P Require Import Prelude MemRegion MemRegionInv MemRegionLife.
Import Ops Inv.
Local Open Scope Z_scope.
Local Open Scope kernel_scope.

Section footprint.
Context `{Board}.
Variables (F : nat -> Prop) (a : nat).

(** All regions of [a] and all unused ones are in [F]. *)
Definition in_as (b : AddressSpace) : Prop :=
  (forall x, x ∈ sorted_memregion_list b -> F x) /\ (forall x, x ∈ free_memregion_list b -> F x) /\ (forall x, hint b = Some x -> F x).
Definition inside (s : vm) : Prop := in_as (asp s a) /\ forall x, x ∈ unused_memregion_list s -> F x.
Definition outside_kept (s s' : vm) : Prop := (forall c, c <> a -> asp s' c = asp s c) /\ (forall x, ~ F x -> mr s' x = mr s x).
(** A computation that stays inside; its result has [R]. *)
Definition stays {A} (m : M vm A) (R : A -> Prop) : Prop := forall s, inside s ->
  match m s with Ok (r, s') => inside s' /\ outside_kept s s' /\ R r | _ => True end.

Lemma stays_bind {A B} (m : M vm A) (k : A -> M vm B) R R' : stays m R -> (forall r, R r -> stays (k r) R') -> stays (m ≫= k) R'.
Proof.
  intros Hm Hk s Hs. specialize (Hm s Hs). rw /mbind /M_bind. destruct (m s) as [[r s1]| |]; try done.
  destruct Hm as (Hs1 & [K1 K2] & Hr). specialize (Hk r Hr s1 Hs1). destruct (k r s1) as [[r' s2]| |]; try done.
  destruct Hk as (? & [K3 K4] & ?). split_and!; try done. split; intros; [rw K3 // K1 //|rw K4 // K2 //].
Qed.
Lemma stays_ret {A} (r : A) (R : A -> Prop) : R r -> stays (mret r) R.
Proof. by intros Hr s Hs. Qed.
Lemma stays_fault {A} (R : A -> Prop) : stays fault R.
Proof. by intros s Hs. Qed.
Lemma stays_gets {A} (f : vm -> A) (R : A -> Prop) : (forall s, inside s -> R (f s)) -> stays (gets f) R.
Proof. intros Hf s Hs. split_and!; try done. by apply Hf. Qed.
Lemma stays_upd_mr x f : F x -> stays (upd_mr x f) (fun _ => True).
Proof.
  intros Hx s [H1 H2]. split_and!; try done. split; [done|]. intros y Hy. assert (y <> x) by (intros ->; done). rw /upd_mr /modify /=. by reads.
Qed.
Lemma stays_upd_as f : (forall b, in_as b -> in_as (f b)) -> stays (upd_as a f) (fun _ => True).
Proof.
  intros Hf s [H1 H2]. split_and!; [|split; [|done]|done].
  - split; [|done]. rw /inside /=. reads. auto.
  - intros c Hc. simpl. by reads.
Qed.
Definition list_in (f : list nat -> outcome (list nat)) : Prop := forall l l', f l = Ok l' -> (forall x, x ∈ l -> F x) -> forall x, x ∈ l' -> F x.
Lemma stays_on_sorted f : list_in f -> stays (on_sorted a f) (fun _ => True).
Proof.
  intros Hf s [(H1 & H2 & H3) H4]. rw /on_sorted /update. destruct (f _) as [l| |] eqn:E; try done.
  split_and!; [|split; [|done]|done]; [|intros c Hc; simpl; by reads]. split; [|done]. simpl. reads. split_and!; try done. simpl. exact (Hf _ _ E H1).
Qed.
Lemma stays_on_free f : list_in f -> stays (on_free a f) (fun _ => True).
Proof.
  intros Hf s [(H1 & H2 & H3) H4]. rw /on_free /update. destruct (f _) as [l| |] eqn:E; try done.
  split_and!; [|split; [|done]|done]; [|intros c Hc; simpl; by reads]. split; [|done]. simpl. reads. split_and!; try done. simpl. exact (Hf _ _ E H2).
Qed.
Lemma stays_on_unused f : list_in f -> stays (on_unused f) (fun _ => True).
Proof.
  intros Hf s [H1 H4]. rw /on_unused /update. destruct (f _) as [l| |] eqn:E; try done. split_and!; [|done|done]. split; [done|]. exact (Hf _ _ E H4).
Qed.

(** The list operations. *)
Lemma in_add_head x : F x -> list_in (dl_add_head x).
Proof. intros Hx l l'. rw /dl_add_head. case_decide; [done|]. intros [= <-]. set_solver. Qed.
Lemma in_add_tail x : F x -> list_in (dl_add_tail x).
Proof. intros Hx l l'. rw /dl_add_tail. case_decide; [done|]. intros [= <-]. set_solver. Qed.
Lemma in_rem_head : list_in dl_rem_head.
Proof. intros [|y l] l'; [done|]. intros [= <-]. set_solver. Qed.
Lemma in_rem x : list_in (dl_rem x).
Proof.
  intros l l'. rw /dl_rem. case_decide as Hx; [|done]. intros [= <-] Hl y Hy. apply Hl. rewrite <-(list_remove1_perm x l Hx). by right.
Qed.
Lemma in_insert_after p x : F x -> list_in (dl_insert_after p x).
Proof.
  intros Hx l l'. rw /dl_insert_after. case_decide as Hp; [|done]. intros [= <-]. clear Hp. induction l as [|y l IH]; simpl; [set_solver|].
  case_decide; set_solver.
Qed.
Lemma in_insert_before p x : F x -> list_in (dl_insert_before p x).
Proof.
  intros Hx l l'. rw /dl_insert_before. case_decide as Hp; [|done]. intros [= <-]. clear Hp. induction l as [|y l IH]; simpl; [set_solver|].
  case_decide; set_solver.
Qed.
Lemma find_covering_in t l addr x : find_covering t l addr = Some x -> x ∈ l.
Proof. induction l as [|y l IH]; simpl; [done|]. destruct (covers _ _); [intros [= ->]; left|right; auto]. Qed.
Lemma first_fit_in t l size x ad : first_fit t l size = Some (x, ad) -> x ∈ l.
Proof. induction l as [|y l IH]; simpl; [done|]. destruct (_ && _); [intros [= -> _]; left|right; auto]. Qed.
Lemma dl_next_in x l y : dl_next x l = Some y -> y ∈ l.
Proof.
  induction l as [|z l IH]; simpl; [done|]. case_decide; [destruct l; [done|]; intros [= ->]; right; left|]. intros. right. auto.
Qed.
Lemma dl_prev_from_in q x l y : dl_prev_from q x l = Some y -> q = Some y \/ y ∈ l.
Proof.
  revert q. induction l as [|z l IH]; intros q; simpl; [done|]. case_decide; [auto|]. intros [[= ->]|]%IH; right; [left|by right].
Qed.

(** ** The operations *)
Ltac stay :=
  repeat match goal with
  | |- stays (mbind _ _) _ => eapply stays_bind; [|intros ? ?]
  | |- stays (upd_mr _ _) _ => apply stays_upd_mr; auto
  | |- stays (on_sorted _ _) _ => apply stays_on_sorted; auto using in_add_head, in_add_tail, in_rem_head, in_rem, in_insert_after, in_insert_before
  | |- stays (on_free _ _) _ => apply stays_on_free; auto using in_add_head, in_add_tail, in_rem_head, in_rem
  | |- stays (on_unused _) _ => apply stays_on_unused; auto using in_add_head, in_add_tail, in_rem_head, in_rem
  | |- stays (gets _) _ => apply (stays_gets _ (fun _ => True)); done
  | |- stays (if ?b then _ else _) _ => destruct b
  | |- stays (mret _) _ => apply stays_ret; auto
  end.
Abbreviation opt_in := (fun o : option nat => forall x, o = Some x -> F x).
Lemma stays_find list_of addr : (forall b, in_as b -> forall x, x ∈ list_of b -> F x) -> stays (memregion_find list_of a addr) opt_in.
Proof.
  intros Hl. eapply stays_bind; [apply (stays_gets id inside); auto|]. intros s [Hs _].
  assert (stays match find_covering (mr s) (list_of (asp s a)) addr with
    | Some x => _ ← upd_as a (fun b => b <| hint := Some x |>); mret (Some x) | None => mret None end opt_in) as Hsearch.
  { destruct (find_covering _ _ _) as [x|] eqn:E; [|by apply stays_ret]. apply find_covering_in in E. pose proof (Hl _ Hs x E).
    eapply stays_bind; [apply stays_upd_as|intros _ _; apply stays_ret; congruence].
    intros b (? & ? & _). split_and!; try done. simpl. congruence. }
  destruct (hint (asp s a)) as [h|] eqn:Eh; [|done]. destruct (covers _ _); [|done]. apply stays_ret. intros x [= <-]. by apply Hs.
Qed.
Lemma stays_find_free addr : stays (memregion_find_free a addr) opt_in.
Proof. apply stays_find. by intros b (_ & ? & _). Qed.
Lemma stays_find_sorted addr : stays (memregion_find_sorted a addr) opt_in.
Proof. apply stays_find. by intros b (? & _ & _). Qed.
Lemma stays_alloc : stays alloc_memregion opt_in.
Proof.
  eapply stays_bind; [apply (stays_gets _ (fun l => forall x, x ∈ l -> F x)); by intros s [_ ?]|]. intros [|x l] Hl; stay; [done|].
  intros y [= <-]. apply Hl. left.
Qed.
Lemma stays_create addr size flags type : stays (memregion_create a addr size flags type) (fun _ => True).
Proof.
  eapply (stays_bind _ _ (fun o => forall x ad, o = Some (x, ad) -> F x)).
  { rw /create_choose. destruct (has _ _).
    - eapply stays_bind; [apply stays_find_free|]. intros [x|] Hx; stay; [|done]. intros y ad. destruct (_ || _); [done|]. intros [= <- _]. auto.
    - apply stays_gets. intros s [(_ & Hf & _) _] x ad E%first_fit_in. auto. }
  intros [[x ad]|] Hx; [|by stay]. specialize (Hx x ad eq_refl). eapply stays_bind; [apply stays_alloc|]. intros [b|] Hb; [|by stay]. specialize (Hb b eq_refl).
  eapply stays_bind; [apply stays_alloc|]. intros [t|] Ht; [specialize (Ht t eq_refl)|by stay]. rw /create_carve. stay.
Qed.
Lemma stays_split addr : stays (memregion_split a addr) (fun _ => True).
Proof.
  eapply stays_bind; [apply stays_find_sorted|]. intros [x|] Hx; [|by stay]. specialize (Hx x eq_refl).
  eapply stays_bind; [by apply (stays_gets _ (fun _ => True))|intros r _]. destruct (_ || _); [by stay|].
  eapply stays_bind; [apply (stays_gets _ (fun l => forall x, x ∈ l -> F x)); by intros s [_ ?]|]. intros [|n l] Hl; [by stay|].
  assert (F n) by (apply Hl; left). eapply stays_bind; [apply stays_upd_as; by intros b (? & ? & _)|intros _ _]. stay.
Qed.
Lemma stays_absorb p x : F p -> F x -> stays (absorb a p x) (fun _ => True).
Proof. intros Hp Hx. rw /absorb. stay. Qed.
Lemma is_free_in s x p : inside s -> is_free s (dl_prev x (sorted s a)) = Some p -> F p.
Proof.
  intros [(Hs & _) _]. rw /is_free. destruct (dl_prev x _) as [q|] eqn:E; [|done]. case_bool_decide; [|done]. intros [= <-].
  apply dl_prev_from_in in E as [|]; [done|]. auto.
Qed.
Lemma stays_free_one x addr ceil : F x -> stays (free_one a x addr ceil) (fun _ => True).
Proof.
  intros Hx. eapply stays_bind; [apply (stays_gets id inside); auto|]. intros s Hs. cbv zeta. destruct (_ && _); [|by stay].
  destruct (is_free _ _) as [p|] eqn:E; [|by stay]. apply stays_absorb; [exact (is_free_in _ _ _ Hs E)|done].
Qed.
Lemma stays_free_loop n o addr ceil : opt_in o -> stays (free_loop n a o addr ceil) opt_in.
Proof.
  revert o. induction n as [|n IH]; intros o Ho; simpl; [apply stays_fault|]. destruct o as [x|]; [|by apply stays_ret].
  eapply stays_bind; [apply (stays_gets id inside); auto|]. intros s Hs. cbv zeta. destruct (_ <? _); [|by apply stays_ret].
  eapply stays_bind; [by apply stays_free_one, Ho|]. intros _ _. apply IH. intros y E%dl_next_in. destruct Hs as [(Hs & _) _]. auto.
Qed.
Lemma stays_free addr size : stays (memregion_free a addr size) (fun _ => True).
Proof.
  rw /memregion_free. eapply stays_bind; [apply stays_split|intros r1 _]. eapply stays_bind; [apply stays_split|intros r2 _].
  destruct (_ || _); [by stay|]. eapply stays_bind; [apply stays_find_sorted|]. intros [x|] Hx; [|by stay].
  eapply stays_bind; [apply stays_upd_as; by intros b (? & ? & _)|intros _ _].
  eapply stays_bind; [by apply (stays_gets _ (fun _ => True))|intros n _]. eapply stays_bind; [by apply stays_free_loop|]. intros [y|] Hy; [|by stay].
  eapply stays_bind; [apply (stays_gets id inside); auto|]. intros s Hs. eapply (stays_bind _ _ (fun _ => True)); [|by stay].
  destruct (bool_decide _); [|by stay]. destruct (is_free _ _) as [p|] eqn:E; [|by stay]. apply stays_absorb; [exact (is_free_in _ _ _ Hs E)|auto].
Qed.
Lemma stays_free_all : stays (memregion_free_all a) (fun _ => True).
Proof.
  eapply stays_bind; [by apply (stays_gets _ (fun _ => True))|intros n _].
  eapply (stays_bind _ _ (fun _ => True)); [|intros _ _; apply stays_upd_as; by intros b (? & ? & _)].
  induction n as [|n IH]; simpl; (eapply stays_bind; [apply (stays_gets _ (fun l => forall x, x ∈ l -> F x)); by intros s [(? & _) _]|]); intros [|x l] Hl; stay.
  - apply stays_fault.
  - rw /free_all_one. assert (F x) by (apply Hl; left). stay.
  - done.
Qed.
Lemma stays_init : stays (init_memregions a) (fun _ => True).
Proof.
  eapply stays_bind; [apply stays_upd_as; intros b _; split_and!; simpl; [set_solver|set_solver|done]|intros _ _].
  eapply stays_bind; [apply (stays_gets _ (fun l => forall x, x ∈ l -> F x)); by intros s [_ ?]|]. intros [|x l] Hl; [by stay|].
  assert (F x) by (apply Hl; left). stay.
Qed.
Lemma stays_fork old : stays (fork_memregions a old) (fun _ => True).
Proof.
  eapply stays_bind; [apply stays_upd_as; intros b _; split_and!; simpl; [set_solver|set_solver|done]|intros _ _].
  eapply stays_bind; [by apply (stays_gets _ (fun _ => True))|intros l _].
  eapply (stays_bind _ _ (fun _ => True)); [|intros [] _; [by stay|eapply stays_bind; [apply stays_free_all|intros _ _; by stay]]].
  induction l as [|o l IH]; simpl; [by stay|]. eapply stays_bind; [apply stays_alloc|]. intros [n|] Hn; [|by stay]. specialize (Hn n eq_refl). by stay.
Qed.
End footprint.

(** ** All address spaces *)
Section all.
Context `{Board}.
Implicit Types (r : vm) (L : nat -> Prop).
Definition no_regions : AddressSpace := mkAddressSpace [] [] None.
(** The live address spaces are well formed and share no regions; the others
    have none. *)
Record regs_ok L r : Prop := {
  ro_inv : forall a, L a -> as_inv r a;
  ro_disj : forall a b x, L a -> L b -> x ∈ sorted r a -> x ∈ sorted r b -> a = b;
  ro_dead : forall a, ~ L a -> asp r a = no_regions;
  ro_unused : NoDup (unused_memregion_list r) }.

Definition owned r (a x : nat) : Prop := x ∈ sorted r a \/ x ∈ unused_memregion_list r.
Lemma inside_owned L r a : regs_ok L r -> L a \/ ~ L a -> inside (owned r a) a r.
Proof.
  intros Hr [Ha|Ha]; split; try (by right).
  - destruct (ro_inv _ _ Hr a Ha) as [Hc Hf]. split_and!; [by left| |].
    + intros x Hx. left. rw Hf in Hx. by apply list_elem_of_filter in Hx as [_ ?].
    + intros x Hx. left. by apply (inv_hint _ _ Hc).
  - rw (ro_dead _ _ Hr a Ha). split_and!; simpl; [set_solver|set_solver|done].
Qed.
Lemma others_kept L r r' a : regs_ok L r -> L a \/ ~ L a -> inside (owned r a) a r' -> outside_kept (owned r a) a r r' -> NoDup (unused_memregion_list r') ->
  forall b, L b -> b <> a -> as_inv r' b /\ (forall z, view r' b z = view r b z) /\ asp r' b = asp r b /\ (forall x, x ∈ sorted r' a -> x ∉ sorted r' b).
Proof.
  intros Hr Ha [(Hin & _) Hun] [Has Hmr] Hnd b Hb Hne. destruct (ro_inv _ _ Hr b Hb) as [[] Hf].
  assert (forall x, owned r a x -> x ∉ sorted r b) as Hd.
  { intros x [Hx|Hx] Hxb; [|by apply (inv_disj0 x)]. destruct Ha as [Ha|Ha]; [by apply Hne, (ro_disj _ _ Hr b a x)|].
    rw (ro_dead _ _ Hr a Ha) /= in Hx. set_solver. }
  assert (forall x, x ∈ sorted r b -> mr r' x = mr r x) as Hm by (intros x Hx; apply Hmr; intros Ho; by apply (Hd x Ho)).
  pose proof (Has b Hne) as E. split_and!; [| |done|].
  - split; [split|]; rw ?/free_ok ?E; try done.
    + eapply tiles_frame; [|eassumption]. intros x Hx. by rw Hm.
    + intros x Hx. rw Hm //. auto.
    + intros x Hx. rw Hm //. auto.
    + intros x Hx. by apply Hd, Hun.
    + rw Hf. apply Permutation_refl', list_filter_ext. intros x Hx. by rw Hm.
  - intros z. rw /view E (find_covering_frame (mr r) (mr r')). { intros x Hx. by rw Hm. }
    destruct (find_covering _ _ _) as [x|] eqn:Ex; [|done]. apply find_covering_in in Ex. by rw Hm.
  - intros x Hx. rw E. by apply Hd, Hin.
Qed.
(** One operation on one address space that keeps its invariant keeps all. *)
Lemma op_regs_ok {A} L r r' a (m : M vm A) x R :
  regs_ok L r -> L a -> stays (owned r a) a m R -> m r = Ok (x, r') -> as_inv r' a ->
  regs_ok L r' /\ forall b, L b -> b <> a -> forall z, view r' b z = view r b z.
Proof.
  intros Hr Ha Hst E Hinv. specialize (Hst r (inside_owned L r a Hr (or_introl Ha))). rw E in Hst. destruct Hst as (Hin & Hout & _).
  assert (NoDup (unused_memregion_list r')) as Hnd by (destruct Hinv as [[] _]; done).
  pose proof (others_kept L r r' a Hr (or_introl Ha) Hin Hout Hnd) as Ho. split; [|intros b Hb Hne; by apply Ho]. split.
  - intros b Hb. destruct (decide (b = a)) as [->|]; [done|]. by apply Ho.
  - intros b c y Hb Hc. destruct (decide (b = a)) as [->|Hba], (decide (c = a)) as [->|Hca]; try done.
    + intros H1 H2. destruct (Ho c Hc Hca) as (_ & _ & _ & Hd). by destruct (Hd y).
    + intros H1 H2. destruct (Ho b Hb Hba) as (_ & _ & _ & Hd). by destruct (Hd y).
    + destruct (Ho b Hb Hba) as (_ & _ & -> & _), (Ho c Hc Hca) as (_ & _ & -> & _). by apply (ro_disj _ _ Hr).
  - intros b Hb. assert (b <> a) as Hba by (intros ->; done). destruct Hout as [Has _]. rw Has //. by apply (ro_dead _ _ Hr).
  - done.
Qed.
(** A new address space. *)
Lemma new_regs_ok {A} L r r' a (m : M vm A) x R :
  regs_ok L r -> ~ L a -> stays (owned r a) a m R -> m r = Ok (x, r') -> as_inv r' a ->
  regs_ok (fun b => L b \/ b = a) r' /\ forall b, L b -> forall z, view r' b z = view r b z.
Proof.
  intros Hr Ha Hst E Hinv. specialize (Hst r (inside_owned L r a Hr (or_intror Ha))). rw E in Hst. destruct Hst as (Hin & Hout & _).
  assert (NoDup (unused_memregion_list r')) as Hnd by (destruct Hinv as [[] _]; done).
  pose proof (others_kept L r r' a Hr (or_intror Ha) Hin Hout Hnd) as Ho.
  assert (forall b, L b -> b <> a) as Hne by (intros b Hb ->; done). split; [|intros b Hb; apply Ho; auto]. split.
  - intros b [Hb| ->]; [|done]. apply Ho; auto.
  - intros b c y [Hb| ->] [Hc| ->]; try done.
    + destruct (Ho b Hb (Hne b Hb)) as (_ & _ & -> & _), (Ho c Hc (Hne c Hc)) as (_ & _ & -> & _). by apply (ro_disj _ _ Hr).
    + intros H1 H2. destruct (Ho b Hb (Hne b Hb)) as (_ & _ & _ & Hd). by destruct (Hd y).
    + intros H1 H2. destruct (Ho c Hc (Hne c Hc)) as (_ & _ & _ & Hd). by destruct (Hd y).
  - intros b Hb. destruct Hout as [Has _]. rw Has; [intros ->; naive_solver|]. apply (ro_dead _ _ Hr). naive_solver.
  - done.
Qed.
(** An address space is given up. *)
Lemma dead_regs_ok L r : forall r' a (m : M vm unit) R,
  regs_ok L r -> L a -> stays (owned r a) a m R -> m r = Ok (tt, r') -> asp r' a = no_regions -> NoDup (unused_memregion_list r') ->
  regs_ok (fun b => L b /\ b <> a) r' /\ forall b, L b -> b <> a -> forall z, view r' b z = view r b z.
Proof.
  intros r' a m R Hr Ha Hst E Hno Hnd. specialize (Hst r (inside_owned L r a Hr (or_introl Ha))). rw E in Hst. destruct Hst as (Hin & Hout & _).
  pose proof (others_kept L r r' a Hr (or_introl Ha) Hin Hout Hnd) as Ho. split; [|intros b Hb Hne; by apply Ho]. split.
  - intros b [Hb Hne]. by apply Ho.
  - intros b c y [Hb Hba] [Hc Hca]. destruct (Ho b Hb Hba) as (_ & _ & -> & _), (Ho c Hc Hca) as (_ & _ & -> & _). by apply (ro_disj _ _ Hr).
  - intros b Hb. destruct (decide (b = a)) as [->|Hne]; [done|]. destruct Hout as [Has _]. rw Has //. apply (ro_dead _ _ Hr). naive_solver.
  - done.
Qed.
End all.
