(* ===== verification/Pmap.v ===== *)
(** * Pmap: page tables

    boards/raspberry_pi_4/pmap.c, with the page frames of vm/page.c as it sees
    them. A page directory has a word for each megabyte of addresses, which is
    invalid or the physical address of a page table; a page table is a page
    that holds 256 words, one for each page of the megabyte, and next to them
    the flags each page was mapped with ([PmapVPTE]). A page frame lists the
    entries that map it. *)

From S2P Require Import Prelude MemRegion.
Local Open Scope Z_scope.
Local Open Scope kernel_scope.

(** ** What the headers of the board and of the C library provide

    <machine/cheviot_hal.h> has the format of the tables and <sys/mman.h> the
    flags of mappings. [root_pagedir] is the directory made by the boot
    loader, and [max_page] the number of page frames. *)
Class Mmu := {
  L1_ADDR_BITS : Z; L1_IDX_SHIFT : Z; L1_TYPE_MASK : Z; L1_TYPE_INV : Z; L1_TYPE_C : Z; L1_C_ADDR_MASK : Z;
  L2_ADDR_BITS : Z; L2_IDX_SHIFT : Z; L2_TYPE_MASK : Z; L2_TYPE_INV : Z; L2_TYPE_S : Z; L2_ADDR_MASK : Z;
  L2_AP_RWKU : Z; L2_AP_RKU : Z; L2_NX : Z; L2_B : Z; L2_C : Z;
  PROT_READ : Z; PROT_WRITE : Z; PROT_EXEC : Z; MAP_PHYS : Z;
  VM_CACHE_MASK : Z; CACHE_DEFAULT : Z; CACHE_WRITEBACK : Z; CACHE_WRITETHRU : Z; CACHE_WRITECOMBINE : Z; CACHE_UNCACHEABLE : Z;
  root_pagedir : Z -> Z;
  max_page : nat }.

(** include/kernel/vm.h *)
Definition MAP_COW : Z := bit 26.
Definition MAP_USER : Z := bit 27.

(** ** State *)

(** What a page holds: bytes, or a page table, with the flags of its
    entries. The links of an entry are in the lists of the pages it maps. *)
Inductive content : Type := Data (d : Z -> Z) | Table (pte vflags : Z -> Z).
Record Page := mkPage { reference_cnt : Z; vpte_list : list nat; contents : content }.
Definition eta_Page p := mkPage (reference_cnt p) (vpte_list p) (contents p).
#[export] Instance set_reference_cnt : Setter reference_cnt := ltac:(solve_setter eta_Page).
#[export] Instance set_vpte_list : Setter vpte_list := ltac:(solve_setter eta_Page).
#[export] Instance set_contents : Setter contents := ltac:(solve_setter eta_Page).

(** Page frames and page directories by number, address spaces with their
    directories, and the regions of the address spaces. *)
Record pmaps := mkPmaps {
  page_table : nat -> Page;
  free_page_queue : list nat;
  pagedir_table : nat -> Z -> Z;
  free_pmappagedir_list : list nat;
  l1_table : nat -> option nat;
  regions : vm }.
Definition eta_pmaps s := mkPmaps (page_table s) (free_page_queue s) (pagedir_table s) (free_pmappagedir_list s) (l1_table s) (regions s).
#[export] Instance set_page_table : Setter page_table := ltac:(solve_setter eta_pmaps).
#[export] Instance set_free_page_queue : Setter free_page_queue := ltac:(solve_setter eta_pmaps).
#[export] Instance set_pagedir_table : Setter pagedir_table := ltac:(solve_setter eta_pmaps).
#[export] Instance set_free_pmappagedir_list : Setter free_pmappagedir_list := ltac:(solve_setter eta_pmaps).
#[export] Instance set_l1_table : Setter l1_table := ltac:(solve_setter eta_pmaps).
#[export] Instance set_regions : Setter regions := ltac:(solve_setter eta_pmaps).
Abbreviation PM := (M pmaps).

Section pmap.
Context `{Board, Mmu}.
(** What other threads do while this one sleeps, until there is a free page
    for it. *)
Variable others : pmaps -> pmaps.

(** ** Addresses and pages *)
Definition pmap_va_to_pa (vaddr : Z) : Z := wrap32 (vaddr - 0x80000000).
Definition pmap_pa_to_va (paddr : Z) : Z := wrap32 (paddr + 0x80000000).
Definition pmap_page_to_pa (p : nat) : Z := Z.of_nat p * PAGE_SIZE.
Definition pmap_pa_to_page (pa : Z) : nat := Z.to_nat (pa / PAGE_SIZE).
Definition pmap_page_to_va (p : nat) : Z := pmap_pa_to_va (pmap_page_to_pa p).
Definition pmap_va_to_page (va : Z) : nat := Z.to_nat (pmap_va_to_pa va / PAGE_SIZE).

Definition get_page (p : nat) : PM Page := if decide (p < max_page)%nat then gets (fun s => page_table s p) else fault.
Definition upd_page (p : nat) (f : Page -> Page) : PM unit :=
  _ ← get_page p; modify (fun s => s <| page_table ::= fun m => <[p := f (m p)]> m |>).
Definition on_free_pages (f : list nat -> outcome (list nat)) : PM unit := update free_page_queue (fun l s => s <| free_page_queue := l |>) f.

(** ** Page frames, of vm/page.c *)
Definition pmap_page_init (x : Page) : Page := x <| vpte_list := [] |>.
(** [alloc_page] does not return before there is a page. *)
Definition alloc_page : PM (option nat) :=
  _ ← modify (fun s => match free_page_queue s with [] => others s | _ => s end);
  l ← gets free_page_queue;
  match last l with
  | None => fault
  | Some p =>
    _ ← on_free_pages (dl_rem p);
    _ ← upd_page p (fun x => pmap_page_init (x <| contents := Data (fun _ => 0) |> <| reference_cnt := 0 |>));
    mret (Some p)
  end.
Definition free_page (p : nat) : PM unit :=
  _ ← kassert (bool_decide (p < max_page)%nat);
  _ ← upd_page p (fun x => x <| reference_cnt ::= fun n => n - 1 |>);
  x ← get_page p;
  if 0 <? reference_cnt x then mret tt else on_free_pages (dl_add_tail p).

(** ** Tables *)

(** The table at the kernel address [pt]. *)
Definition get_table (pt : Z) : PM ((Z -> Z) * (Z -> Z)) :=
  if pt mod PAGE_SIZE =? 0 then
    x ← get_page (pmap_va_to_page pt);
    match contents x with Table p v => mret (p, v) | Data _ => fault end
  else fault.
Definition put_table (pt : Z) (p v : Z -> Z) : PM unit := upd_page (pmap_va_to_page pt) (fun x => x <| contents := Table p v |>).
Definition pmap_write_l2 (pt i data : Z) : PM unit := t ← get_table pt; put_table pt (<[i := data]> t.1) t.2.
Definition write_vflags (pt i flags : Z) : PM unit := t ← get_table pt; put_table pt t.1 (<[i := flags]> t.2).
Definition pmap_write_l1 (d : nat) (i data : Z) : PM unit :=
  modify (fun s => s <| pagedir_table ::= fun m => <[d := <[i := data]> (m d)]> m |>).
(** The directory of an address space. *)
Definition l1_of (a : nat) : PM nat := o ← gets (fun s => l1_table s a); match o with Some d => mret d | None => fault end.

Definition pde_idx (va : Z) : Z := Z.shiftr (Z.land va L1_ADDR_BITS) L1_IDX_SHIFT.
Definition pte_idx (va : Z) : Z := Z.shiftr (Z.land va L2_ADDR_BITS) L2_IDX_SHIFT.
(** The address of an entry of [PmapVPTE]: its table and its index. *)
Definition vpte_at (pt i : Z) : nat := (pmap_va_to_page pt * 256 + Z.to_nat i)%nat.
Definition on_vptes (p : nat) (f : list nat -> outcome (list nat)) : PM unit :=
  x ← get_page p; l ← lift (f (vpte_list x)); upd_page p (fun x => x <| vpte_list := l |>).

Definition cache_bits (flags : Z) (dflt : Z) : Z :=
  if Z.land flags VM_CACHE_MASK =? CACHE_DEFAULT then dflt
  else if Z.land flags VM_CACHE_MASK =? CACHE_WRITEBACK then Z.lor L2_B L2_C
  else if Z.land flags VM_CACHE_MASK =? CACHE_WRITETHRU then L2_C
  else if Z.land flags VM_CACHE_MASK =? CACHE_WRITECOMBINE then L2_B
  else if Z.land flags VM_CACHE_MASK =? CACHE_UNCACHEABLE then 0
  else 0.
Definition pmap_calc_pa_bits (flags : Z) : Z :=
  let b := L2_TYPE_S in
  let b := if has flags PROT_WRITE && negb (has flags MAP_COW) then Z.lor b L2_AP_RWKU else Z.lor b L2_AP_RKU in
  let b := if Z.land flags PROT_EXEC =? PROT_EXEC then b else Z.lor b L2_NX in
  let b := if Z.land flags MAP_PHYS =? 0 then Z.lor b (cache_bits flags (Z.lor L2_C L2_B)) else b in
  if Z.land flags MAP_PHYS =? MAP_PHYS then Z.lor b (cache_bits flags 0) else b.

(** ** Mappings *)
Definition pmap_alloc_pagetable : PM (option Z) :=
  o ← alloc_page;
  match o with
  | None => mret None
  | Some p => _ ← upd_page p (fun x => x <| contents := Table (fun _ => L2_TYPE_INV) (fun _ => 0) |>); mret (Some (pmap_page_to_va p))
  end.
Definition pmap_free_pagetable (pt : Z) : PM unit := free_page (pmap_va_to_page pt).

Definition pmap_enter (a : nat) (va pa flags : Z) : PM ret :=
  if va =? 0 then mret (RErr EFAULT)
  else
    let pa_bits := pmap_calc_pa_bits flags in
    d ← l1_of a;
    w ← gets (fun s => pagedir_table s d (pde_idx va));
    o ← (if Z.land w L1_TYPE_MASK =? L1_TYPE_INV then
           o ← pmap_alloc_pagetable;
           match o with
           | None => mret None
           | Some pt => _ ← pmap_write_l1 d (pde_idx va) (Z.lor (pmap_va_to_pa pt) L1_TYPE_C); mret (Some pt)
           end
         else mret (Some (pmap_pa_to_va (Z.land w L1_C_ADDR_MASK))));
    match o with
    | None => mret (RErr ENOMEM)
    | Some pt =>
      t ← get_table pt;
      if negb (Z.land (t.1 (pte_idx va)) L2_TYPE_MASK =? L2_TYPE_INV) then
        _ ← pmap_write_l1 d (pde_idx va) L1_TYPE_INV;
        _ ← pmap_free_pagetable pt;
        mret (RErr EINVAL)
      else
        _ ← (if Z.land flags MAP_PHYS =? 0 then on_vptes (pmap_pa_to_page pa) (dl_add_head (vpte_at pt (pte_idx va))) else mret tt);
        _ ← write_vflags pt (pte_idx va) flags;
        _ ← upd_page (pmap_va_to_page pt) (fun x => x <| reference_cnt ::= fun n => n + 1 |>);
        _ ← pmap_write_l2 pt (pte_idx va) (Z.lor pa pa_bits);
        mret (RVal 0)
    end.

Definition pmap_remove (a : nat) (va : Z) : PM ret :=
  if va =? 0 then mret (RErr EFAULT)
  else
    d ← l1_of a;
    w ← gets (fun s => pagedir_table s d (pde_idx va));
    if Z.land w L1_TYPE_MASK =? L1_TYPE_INV then mret (RErr EINVAL)
    else
      let pt := pmap_pa_to_va (Z.land w L1_C_ADDR_MASK) in
      t ← get_table pt;
      let current_paddr := Z.land (t.1 (pte_idx va)) L2_ADDR_MASK in
      if Z.land (t.1 (pte_idx va)) L2_TYPE_MASK =? L2_TYPE_INV then mret (RErr EINVAL)
      else
        _ ← (if Z.land (t.2 (pte_idx va)) MAP_PHYS =? 0 then on_vptes (pmap_pa_to_page current_paddr) (dl_rem (vpte_at pt (pte_idx va))) else mret tt);
        _ ← write_vflags pt (pte_idx va) 0;
        _ ← pmap_write_l2 pt (pte_idx va) L2_TYPE_INV;
        _ ← upd_page (pmap_va_to_page pt) (fun x => x <| reference_cnt ::= fun n => n - 1 |>);
        x ← get_page (pmap_va_to_page pt);
        _ ← (if reference_cnt x =? 0 then _ ← pmap_write_l1 d (pde_idx va) L1_TYPE_INV; pmap_free_pagetable pt else mret tt);
        mret (RVal 0).

Definition pmap_protect (a : nat) (va flags : Z) : PM ret :=
  if va =? 0 then mret (RVal 0)
  else
    d ← l1_of a;
    w ← gets (fun s => pagedir_table s d (pde_idx va));
    if Z.land w L1_TYPE_MASK =? L1_TYPE_INV then panic
    else
      let pt := pmap_pa_to_va (Z.land w L1_C_ADDR_MASK) in
      t ← get_table pt;
      let pa := Z.land (t.1 (pte_idx va)) L2_ADDR_MASK in
      if Z.land (t.1 (pte_idx va)) L2_TYPE_MASK =? L2_TYPE_INV then panic
      else
        _ ← write_vflags pt (pte_idx va) flags;
        _ ← pmap_write_l2 pt (pte_idx va) (Z.lor pa (pmap_calc_pa_bits flags));
        mret (RVal 0).

(** The physical address and the flags; [None]: -1. *)
Definition pmap_extract (a : nat) (va : Z) : PM (option (Z * Z)) :=
  d ← l1_of a;
  w ← gets (fun s => pagedir_table s d (pde_idx va));
  if Z.land w L1_TYPE_MASK =? L1_TYPE_INV then mret None
  else
    t ← get_table (pmap_pa_to_va (Z.land w L1_C_ADDR_MASK));
    if Z.land (t.1 (pte_idx va)) L2_TYPE_MASK =? L2_TYPE_INV then mret None
    else mret (Some (Z.land (t.1 (pte_idx va)) L2_ADDR_MASK, t.2 (pte_idx va))).
Definition pmap_is_pagetable_present (a : nat) (addr : Z) : PM bool :=
  d ← l1_of a;
  w ← gets (fun s => pagedir_table s d (pde_idx addr));
  mret (negb (Z.land w L1_TYPE_MASK =? L1_TYPE_INV)).
Definition pmap_is_page_present (a : nat) (addr : Z) : PM bool :=
  d ← l1_of a;
  w ← gets (fun s => pagedir_table s d (pde_idx addr));
  if Z.land w L1_TYPE_MASK =? L1_TYPE_INV then mret false
  else
    t ← get_table (pmap_pa_to_va (Z.land w L1_C_ADDR_MASK));
    mret (negb (Z.land (t.1 (pte_idx addr)) L2_TYPE_MASK =? L2_TYPE_INV)).

(** ** Directories *)
Definition on_free_dirs (f : list nat -> outcome (list nat)) : PM unit :=
  update free_pmappagedir_list (fun l s => s <| free_pmappagedir_list := l |>) f.
Definition pmap_create (a : nat) : PM ret :=
  l ← gets free_pmappagedir_list;
  match l with
  | [] => mret (RVal (-1))
  | d :: _ =>
    _ ← on_free_dirs dl_rem_head;
    _ ← modify (fun s => s <| pagedir_table ::= fun m => <[d := fun t => if t <? 2048 then L1_TYPE_INV else root_pagedir t]> m |>);
    _ ← modify (fun s => s <| l1_table ::= fun m => <[a := Some d]> m |>);
    mret (RVal 0)
  end.
Definition pmap_destroy (a : nat) : PM unit := d ← l1_of a; on_free_dirs (dl_add_tail d).
End pmap.
