(* ===== verification/PmapInv.v ===== *)
(** * PmapInv: what page tables mean

    The format of the tables as the laws of a class, the meaning of the
    directories and tables as a partial map from pages to physical addresses
    and flags, the invariant that ties them to the page frames, and what the
    operations of [Pmap] do to it. *)

From S2P Require Import Prelude MemRegion Pmap.
Local Open Scope Z_scope.
Local Open Scope kernel_scope.

(** ** The format

    The short descriptors of the ARM architecture: a megabyte per entry of the
    directory, 4 KB pages, types in the low two bits, attributes below the
    address. Flags of mappings are single bits below [MAP_COW]. *)
Class ArmFormat `{Board, Mmu} : Prop := {
  af_page : PAGE_SIZE = 4096;
  af_l1 : L1_ADDR_BITS = 0xfff00000 /\ L1_IDX_SHIFT = 20 /\ L1_TYPE_MASK = 3 /\ L1_TYPE_INV = 0 /\ L1_TYPE_C = 1 /\ L1_C_ADDR_MASK = 0xfffffc00;
  af_l2 : L2_ADDR_BITS = 0x000ff000 /\ L2_IDX_SHIFT = 12 /\ L2_TYPE_MASK = 3 /\ L2_TYPE_INV = 0 /\ L2_TYPE_S = 2 /\ L2_ADDR_MASK = 0xfffff000;
  af_attr : Forall (fun b => 0 <= b < 4096) [L2_AP_RWKU; L2_AP_RKU; L2_NX; L2_B; L2_C];
  af_write : exists k, 0 <= k < 26 /\ PROT_WRITE = 2 ^ k;
  af_phys : exists k, 0 <= k < 26 /\ MAP_PHYS = 2 ^ k;
  af_distinct : PROT_WRITE <> MAP_PHYS;
  af_ram : Z.of_nat max_page * 4096 <= 2 ^ 31 }.

(** ** Words *)
Lemma land_high x k : 0 <= x < 2 ^ 32 -> 0 <= k <= 32 -> Z.land x (2 ^ 32 - 2 ^ k) = x / 2 ^ k * 2 ^ k.
Proof.
  intros Hx Hk. replace (2 ^ 32 - 2 ^ k) with (Z.shiftl (Z.ones (32 - k)) k).
  2: { rw Z.shiftl_mul_pow2 ?Z.ones_equiv; [lia|]. rw Z.mul_pred_l -Z.pow_add_r; [lia..|]. replace (32 - k + k) with 32; lia. }
  rw -Z.shiftr_div_pow2; [lia|]. rw -Z.shiftl_mul_pow2; [lia|]. apply Z.bits_inj'. intros n Hn.
  rw Z.land_spec. destruct (Z.ltb_spec n k).
  - rw !Z.shiftl_spec_low // andb_false_r //.
  - rw (Z.shiftl_spec_high (Z.ones _)); [lia..|]. rw (Z.shiftl_spec_high (Z.shiftr _ _)); [lia..|]. rw Z.shiftr_spec; [lia|]. replace (n - k + k) with n by lia.
    destruct (Z.ltb_spec n 32).
    + rw Z.ones_spec_low; [lia|]. by rw andb_true_r.
    + rw (Z.bits_above_log2 x); [lia| |done]. destruct (Z.eq_dec x 0) as [->|]; [simpl; lia|].
      assert (Z.log2 x < 32); [|lia]. apply Z.log2_lt_pow2; lia.
Qed.
Lemma lor_low x b k : 0 <= k -> x mod 2 ^ k = 0 -> 0 <= b < 2 ^ k -> Z.lor x b = x + b.
Proof.
  intros Hk Hx Hb. rw -Z.add_lor_land. enough (Z.land x b = 0) as -> by lia.
  apply Z.bits_inj'. intros n Hn. rw Z.land_spec Z.bits_0. destruct (Z.ltb_spec n k).
  - by rw -(Z.mod_pow2_bits_low x k n) ?Hx ?Z.bits_0; [lia|].
  - destruct (Z.eq_dec b 0) as [->|]; [by rw Z.bits_0 andb_false_r|].
    rw (Z.bits_above_log2 b); [lia| |by rw andb_false_r]. assert (Z.log2 b < k); [|lia]. apply Z.log2_lt_pow2; lia.
Qed.
Lemma lor_bound a b k : 0 <= k -> 0 <= a < 2 ^ k -> 0 <= b < 2 ^ k -> 0 <= Z.lor a b < 2 ^ k.
Proof.
  intros Hk Ha Hb. assert (0 <= Z.lor a b) as Hge by (apply Z.lor_nonneg; lia). split; [done|]. destruct (Z.eq_dec (Z.lor a b) 0) as [->|Hne]; [lia|].
  apply Z.log2_lt_pow2; [lia|]. rw Z.log2_lor; [lia..|].
  assert (forall c, 0 <= c < 2 ^ k -> Z.log2 c < k \/ c = 0) as Hl.
  { intros c Hc. destruct (Z.eq_dec c 0); [by right|left]. apply Z.log2_lt_pow2; lia. }
  destruct (Hl a Ha) as [?|Ea], (Hl b Hb) as [?|Eb]; pose proof (Z.log2_nonneg a); pose proof (Z.log2_nonneg b); [lia|..].
  - rw Eb. change (Z.log2 0) with 0. lia.
  - rw Ea. change (Z.log2 0) with 0. lia.
  - by rw Ea Eb in Hne.
Qed.

Section format.
Context `{Board, Mmu, !ArmFormat}.
Lemma pde_idx_eq va : u32 va -> pde_idx va = va / 2 ^ 20.
Proof.
  intros Hva. rw /pde_idx. destruct af_l1 as (-> & -> & _). replace 0xfff00000 with (2 ^ 32 - 2 ^ 20) by done.
  rw land_high // Z.shiftr_div_pow2 // Z.div_mul //.
Qed.
Lemma pte_idx_eq va : pte_idx va = va / 4096 mod 256.
Proof.
  rw /pte_idx. destruct af_l2 as (-> & -> & _). rw Z.shiftr_land. change (Z.shiftr 0xff000 12) with (Z.ones 8).
  by rw Z.land_ones // Z.shiftr_div_pow2.
Qed.
Lemma attr_in x : x ∈ [L2_AP_RWKU; L2_AP_RKU; L2_NX; L2_B; L2_C] -> 0 <= x < 2 ^ 12.
Proof. pose proof af_attr as Ha. rewrite ->Forall_forall in Ha. apply Ha. Qed.
Lemma cache_bits_bound flags x : 0 <= x < 2 ^ 12 -> 0 <= cache_bits flags x < 2 ^ 12.
Proof.
  intros Hx. rw /cache_bits. repeat case_match; try done; try lia; try apply lor_bound; try done; apply attr_in; set_solver.
Qed.
Lemma pa_bits_bound flags : 0 <= pmap_calc_pa_bits flags < 2 ^ 12.
Proof.
  rw /pmap_calc_pa_bits. destruct af_l2 as (_ & _ & _ & _ & -> & _).
  assert (0 <= cache_bits flags (Z.lor L2_C L2_B) < 2 ^ 12).
  { apply cache_bits_bound, lor_bound; try done; apply attr_in; set_solver. }
  assert (0 <= cache_bits flags 0 < 2 ^ 12) by by apply cache_bits_bound.
  repeat case_match; repeat (apply lor_bound; [done| |]); first [done|apply attr_in; set_solver].
Qed.
Lemma pa_bits_type flags : Z.testbit (pmap_calc_pa_bits flags) 1 = true.
Proof.
  rw /pmap_calc_pa_bits. destruct af_l2 as (_ & _ & _ & _ & -> & _). repeat case_match; by rw !Z.lor_spec /=.
Qed.

Definition l1_inv (w : Z) : bool := Z.land w L1_TYPE_MASK =? L1_TYPE_INV.
Definition l2_inv (w : Z) : bool := Z.land w L2_TYPE_MASK =? L2_TYPE_INV.
Lemma land_3 w : (Z.land w 3 =? 0) = (w mod 4 =? 0).
Proof. change 3 with (Z.ones 2). by rw Z.land_ones. Qed.

(** The word of a page and its flags. *)
Lemma entry_word pa flags : pa mod 4096 = 0 -> u32 pa ->
  let w := Z.lor pa (pmap_calc_pa_bits flags) in Z.land w L2_ADDR_MASK = pa /\ l2_inv w = false.
Proof.
  intros Hal Hu. pose proof (pa_bits_bound flags) as Hb. simpl. split.
  - rw (lor_low pa _ 12) //. destruct af_l2 as (_ & _ & _ & _ & _ & ->). replace 0xfffff000 with (2 ^ 32 - 2 ^ 12) by done.
    rw /u32 in Hu. change (2 ^ 12) with 4096 in *. change (2 ^ 32) with 4294967296 in Hu.
    assert (0 <= pa + pmap_calc_pa_bits flags < 4294967296) by (Z.div_mod_to_equations; lia).
    rw (land_high _ 12) //. change (2 ^ 12) with 4096. Z.div_mod_to_equations. lia.
  - rw /l2_inv. destruct af_l2 as (_ & _ & -> & -> & _). apply Z.eqb_neq. intros E.
    assert (Z.testbit (Z.land (Z.lor pa (pmap_calc_pa_bits flags)) 3) 1 = true) as E1 by by rw Z.land_spec Z.lor_spec pa_bits_type orb_true_r.
    by rw E in E1.
Qed.
Lemma l1_word_table t : (t < max_page)%nat ->
  let w := Z.lor (Z.of_nat t * 4096) L1_TYPE_C in
  w = Z.of_nat t * 4096 + 1 /\ Z.land w L1_C_ADDR_MASK = Z.of_nat t * 4096 /\ l1_inv w = false.
Proof.
  intros Ht. pose proof af_ram. rw /l1_inv. destruct af_l1 as (_ & _ & -> & -> & -> & ->).
  assert (Z.lor (Z.of_nat t * 4096) 1 = Z.of_nat t * 4096 + 1) as ->.
  { apply (lor_low _ _ 12); [done|by rw Z.mod_mul|done]. }
  split_and!; [done|..].
  - replace 0xfffffc00 with (2 ^ 32 - 2 ^ 10) by done. rw land_high; [lia..|]. change (2 ^ 10) with 1024. Z.div_mod_to_equations. lia.
  - rw land_3. apply Z.eqb_neq. Z.div_mod_to_equations. lia.
Qed.
Lemma page_addr p : (p < max_page)%nat ->
  pmap_page_to_pa p = Z.of_nat p * 4096 /\ pmap_pa_to_va (Z.of_nat p * 4096) = pmap_page_to_va p /\
  pmap_va_to_pa (pmap_page_to_va p) = Z.of_nat p * 4096 /\ pmap_va_to_page (pmap_page_to_va p) = p /\
  pmap_page_to_va p mod PAGE_SIZE = 0 /\ pmap_pa_to_page (Z.of_nat p * 4096) = p.
Proof.
  intros Hp. pose proof af_ram. rw /pmap_va_to_page /pmap_page_to_va /pmap_page_to_pa /pmap_va_to_pa /pmap_pa_to_va /pmap_pa_to_page af_page /wrap32.
  change (2 ^ 32) with 4294967296. change (2 ^ 31) with 2147483648 in *.
  rw (Z.mod_small (Z.of_nat p * 4096 + 0x80000000)); [lia|]. rw Z.mod_small; [lia|].
  replace (Z.of_nat p * 4096 + 0x80000000 - 0x80000000) with (Z.of_nat p * 4096) by lia.
  rw Z.div_mul // Nat2Z.id. split_and!; try done. Z.div_mod_to_equations. lia.
Qed.
End format.

(** ** Meaning *)
Section meaning.
Context `{Board, Mmu}.
Definition l1_word (s : pmaps) (a : nat) (i : Z) : Z := match l1_table s a with Some d => pagedir_table s d i | None => L1_TYPE_INV end.
(** The table for the [i]th megabyte of an address space. *)
Definition tab (s : pmaps) (a : nat) (i : Z) : option nat :=
  if l1_inv (l1_word s a i) then None else Some (pmap_pa_to_page (Z.land (l1_word s a i) L1_C_ADDR_MASK)).
(** An entry of a table: the physical address and the flags. *)
Definition ent (s : pmaps) (t : nat) (j : Z) : option (Z * Z) :=
  match contents (page_table s t) with
  | Table p v => if l2_inv (p j) then None else Some (Z.land (p j) L2_ADDR_MASK, v j)
  | Data _ => None
  end.
(** What page [v] of an address space is mapped to. *)
Definition pv (s : pmaps) (a : nat) (v : Z) : option (Z * Z) :=
  match tab s a (v / 256) with Some t => ent s t (v mod 256) | None => None end.

Definition phys (fl : Z) : bool := negb (Z.land fl MAP_PHYS =? 0).
Definition slot (t : nat) (j : Z) : nat := (t * 256 + Z.to_nat j)%nat.
(** The number of entries of a table. *)
Definition live (p : Z -> Z) : Z := Z.of_nat (length (filter (fun j => l2_inv (p (Z.of_nat j)) = false) (seq 0 256))).
Definition is_data (s : pmaps) (p : nat) : Prop := exists d, contents (page_table s p) = Data d.

(** A page table that is in use. *)
Definition table_ok (s : pmaps) (t : nat) : Prop :=
  (t < max_page)%nat /\ t ∉ free_page_queue s /\
  exists p v, contents (page_table s t) = Table p v /\ reference_cnt (page_table s t) = live p /\
    forall j, 0 <= j < 256 -> l2_inv (p j) = false ->
      exists pa, p j = Z.lor pa (pmap_calc_pa_bits (v j)) /\ pa mod 4096 = 0 /\ u32 pa.

(** The invariant, for the live address spaces [L]: directories and tables
    have one owner, tables count their entries, and the list of a page has
    exactly the entries that map it. *)
Record pmap_ok (L : nat -> Prop) (s : pmaps) : Prop := {
  ok_dir : forall a, L a -> exists d, l1_table s a = Some d /\ d ∉ free_pmappagedir_list s;
  ok_dir_inj : forall a b d, L a -> L b -> l1_table s a = Some d -> l1_table s b = Some d -> a = b;
  ok_dirs : NoDup (free_pmappagedir_list s);
  ok_tab : forall a i t, L a -> 0 <= i < 2048 -> tab s a i = Some t -> l1_word s a i = Z.of_nat t * 4096 + 1 /\ table_ok s t;
  ok_inj : forall a b i k t, L a -> L b -> 0 <= i < 2048 -> 0 <= k < 2048 -> tab s a i = Some t -> tab s b k = Some t -> a = b /\ i = k;
  ok_map : forall a i t j pa fl, L a -> 0 <= i < 2048 -> tab s a i = Some t -> 0 <= j < 256 -> ent s t j = Some (pa, fl) -> phys fl = false ->
    exists p, pa = Z.of_nat p * 4096 /\ (p < max_page)%nat /\ p ∉ free_page_queue s /\ is_data s p /\ slot t j ∈ vpte_list (page_table s p);
  ok_vpte : forall p x, (p < max_page)%nat -> p ∉ free_page_queue s -> x ∈ vpte_list (page_table s p) ->
    exists a i t j fl, L a /\ 0 <= i < 2048 /\ tab s a i = Some t /\ 0 <= j < 256 /\ ent s t j = Some (Z.of_nat p * 4096, fl) /\ phys fl = false /\ x = slot t j;
  ok_vnodup : forall p, (p < max_page)%nat -> p ∉ free_page_queue s -> NoDup (vpte_list (page_table s p));
  ok_free : NoDup (free_page_queue s);
  ok_free_max : forall p, p ∈ free_page_queue s -> (p < max_page)%nat }.
End meaning.

(** ** Counting entries *)
Section counting.
Context `{Mmu}.
Let valid (w : Z) : Z := if l2_inv w then 0 else 1.
Lemma live_entries p j w : 0 <= j < 256 -> live (<[j := w]> p) = live p + valid w - valid (p j).
Proof.
  intros Hj. rw /live. set n := Z.to_nat j.
  assert (forall l, NoDup l -> Z.of_nat (length (filter (fun k => l2_inv (<[j := w]> p (Z.of_nat k)) = false) l)) =
    Z.of_nat (length (filter (fun k => l2_inv (p (Z.of_nat k)) = false) l)) + if decide (n ∈ l) then valid w - valid (p j) else 0) as Hl.
  { induction l as [|k l IH]; intros Hnd; [done|]. apply NoDup_cons in Hnd as [Hk Hnd]. specialize (IH Hnd).
    rewrite !filter_cons. destruct (decide (k = n)) as [->|Hne].
    - replace (Z.of_nat n) with j by (rw /n; lia). rw fn_lookup_insert. rw (decide_True _ (P := n ∈ n :: l)); [set_solver|].
      rw decide_False // Z.add_0_r in IH. rw /valid. destruct (l2_inv w), (l2_inv (p j)); simpl; lia.
    - rw fn_lookup_insert_ne; [rw /n in Hne; lia|].
      assert ((if decide (n ∈ k :: l) then valid w - valid (p j) else 0) = if decide (n ∈ l) then valid w - valid (p j) else 0) as ->.
      { repeat case_decide; try done; set_solver. }
      destruct (l2_inv (p (Z.of_nat k))); simpl; lia. }
  rw Hl; [apply NoDup_seq|]. rw decide_True; [apply elem_of_seq; lia|]. lia.
Qed.
End counting.

(** ** Changes of the state *)
Section changes.
Context `{Board, Mmu, !ArmFormat}.
Implicit Types (s : pmaps) (L : nat -> Prop).

Definition set_page (p : nat) (f : Page -> Page) s : pmaps := s <| page_table ::= fun m => <[p := f (m p)]> m |>.
Definition set_l1 (d : nat) (i w : Z) s : pmaps := s <| pagedir_table ::= fun m => <[d := <[i := w]> (m d)]> m |>.
Lemma wp_get_page p Q s : (p < max_page)%nat -> Q (page_table s p) s -> wp (get_page p) Q s.
Proof. intros Hp HQ. by rw /get_page decide_True. Qed.
Lemma wp_upd_page p f Q s : (p < max_page)%nat -> Q tt (set_page p f s) -> wp (upd_page p f) Q s.
Proof. intros Hp HQ. apply wp_bind, wp_get_page; [done|]. by apply wp_modify. Qed.
Lemma wp_get_table t p v Q s : (t < max_page)%nat -> contents (page_table s t) = Table p v -> Q (p, v) s -> wp (get_table (pmap_page_to_va t)) Q s.
Proof.
  intros Ht Hc HQ. destruct (page_addr t Ht) as (_ & _ & _ & E & E' & _). rw /get_table E' /=. apply wp_bind. rw E.
  apply wp_get_page; [done|]. by rw Hc.
Qed.
Lemma wp_put_table t p v Q s : (t < max_page)%nat ->
  Q tt (set_page t (fun x => x <| contents := Table p v |>) s) -> wp (put_table (pmap_page_to_va t) p v) Q s.
Proof. intros Ht HQ. rw /put_table. destruct (page_addr t Ht) as (_ & _ & _ & -> & _). by apply wp_upd_page. Qed.

Lemma set_page_eq p f s : page_table (set_page p f s) p = f (page_table s p).
Proof. rw /set_page. by reads. Qed.
Lemma set_page_ne p q f s : q <> p -> page_table (set_page p f s) q = page_table s q.
Proof. intros ?. rw /set_page. by reads. Qed.
Lemma set_page_ent p f s t j : t <> p -> ent (set_page p f s) t j = ent s t j.
Proof. intros ?. by rw /ent set_page_ne. Qed.
Lemma ent_same s s' t j : contents (page_table s' t) = contents (page_table s t) -> ent s' t j = ent s t j.
Proof. rw /ent. by intros ->. Qed.
Lemma tab_same s s' a i : l1_table s' = l1_table s -> pagedir_table s' = pagedir_table s -> tab s' a i = tab s a i.
Proof. rw /tab /l1_word. by intros -> ->. Qed.

Lemma l1_word_set s a d i w : l1_table s a = Some d -> l1_word (set_l1 d i w s) a i = w.
Proof. rw /l1_word /set_l1 /=. intros ->. by reads. Qed.
Lemma l1_word_set_ne L s a d i w b k : pmap_ok L s -> L a -> L b -> l1_table s a = Some d -> (b, k) <> (a, i) ->
  l1_word (set_l1 d i w s) b k = l1_word s b k.
Proof.
  intros Hok Ha Hb Hd Hne. rw /l1_word /set_l1 /=. destruct (l1_table s b) as [e|] eqn:E; [|done].
  destruct (decide (e = d)) as [->|]; [|by reads]. pose proof (ok_dir_inj _ _ Hok _ _ _ Ha Hb Hd E) as <-.
  by reads.
Qed.

(** A new table. *)
Definition add_table (d : nat) (i : Z) (t : nat) s : pmaps :=
  set_l1 d i (Z.of_nat t * 4096 + 1) (set_page t (fun _ => mkPage 0 [] (Table (fun _ => L2_TYPE_INV) (fun _ => 0)))
    (s <| free_page_queue := list_remove1 t (free_page_queue s) |>)).
Lemma live_0 v : l2_inv v = true -> live (fun _ => v) = 0.
Proof.
  intros Hv. rw /live. enough (forall l : list nat, filter (fun _ : nat => l2_inv v = false) l = []) as -> by done.
  induction l as [|x l IH]; [done|]. rw filter_cons decide_False ?IH // Hv. done.
Qed.
Lemma l2_inv_inv : l2_inv L2_TYPE_INV = true.
Proof. rw /l2_inv. by destruct af_l2 as (_ & _ & -> & -> & _). Qed.
Lemma l1_inv_inv : l1_inv L1_TYPE_INV = true.
Proof. rw /l1_inv. by destruct af_l1 as (_ & _ & -> & -> & _). Qed.
Lemma ent_add_table d i t s t' j : ent (add_table d i t s) t' j = if decide (t' = t) then None else ent s t' j.
Proof.
  rw /add_table. case_decide as E; subst.
  - rw /ent /= fn_lookup_insert /=. by rw l2_inv_inv.
  - rw (ent_same s) //=. by reads.
Qed.
Lemma tab_word s a i t : (t < max_page)%nat -> l1_word s a i = Z.of_nat t * 4096 + 1 -> tab s a i = Some t.
Proof.
  intros Ht E. rw /tab E. destruct (l1_word_table t Ht) as (<- & -> & ->). f_equal. by destruct (page_addr t Ht) as (_ & _ & _ & _ & _ & ->).
Qed.
Lemma tab_ext s s' a i : l1_word s' a i = l1_word s a i -> tab s' a i = tab s a i.
Proof. rw /tab. by intros ->. Qed.

Section with_inv.
Context (L : nat -> Prop) (s : pmaps) (Hok : pmap_ok L s).
Lemma word_add_table a d i t b k : L a -> L b -> l1_table s a = Some d -> (b, k) <> (a, i) -> l1_word (add_table d i t s) b k = l1_word s b k.
Proof using All. intros Ha Hb Hd Hne. by rw -(l1_word_set_ne L s a d i (Z.of_nat t * 4096 + 1) b k). Qed.
Lemma tab_add_table a d i t b k : L a -> L b -> l1_table s a = Some d -> t ∈ free_page_queue s ->
  tab (add_table d i t s) b k = if decide ((b, k) = (a, i)) then Some t else tab s b k.
Proof using All.
  intros Ha Hb Hd Ht. pose proof (ok_free_max _ _ Hok _ Ht). case_decide as E.
  - injection E as -> ->. apply tab_word; [done|]. rw /add_table. by rw l1_word_set.
  - by apply tab_ext, (word_add_table a).
Qed.

Lemma table_not_free a i t : L a -> 0 <= i < 2048 -> tab s a i = Some t -> t ∉ free_page_queue s.
Proof using All. intros Ha Hi Ht. by destruct (ok_tab _ _ Hok _ _ _ Ha Hi Ht) as (_ & _ & ? & _). Qed.
Lemma table_ok_frame s' t : table_ok s t -> page_table s' t = page_table s t -> (t ∉ free_page_queue s') -> table_ok s' t.
Proof using All. intros (? & _ & ?) E ?. split_and!; [done|done|]. by rw E. Qed.

Lemma add_table_ok a d i t : L a -> 0 <= i < 2048 -> l1_table s a = Some d -> tab s a i = None -> t ∈ free_page_queue s ->
  pmap_ok L (add_table d i t s).
Proof using All.
  intros Ha Hi Hd Hnone Ht. pose proof (ok_free _ _ Hok) as Hnd. pose proof (ok_free_max _ _ Hok _ Ht) as Hm.
  assert (forall x, x ∈ list_remove1 t (free_page_queue s) <-> x ∈ free_page_queue s /\ x <> t) as Hf by (intros; by apply elem_of_list_remove1).
  assert (forall p, p <> t -> page_table (add_table d i t s) p = page_table s p) as Hp by (intros p ?; rw /add_table /=; by reads).
  assert (forall b k, L b -> tab (add_table d i t s) b k = if decide ((b, k) = (a, i)) then Some t else tab s b k) as Htab
    by (intros; by apply tab_add_table).
  assert (forall b k t', L b -> 0 <= k < 2048 -> tab s b k = Some t' -> t' <> t /\ (b, k) <> (a, i)) as Hold.
  { intros b k t' Hb Hk E. split; [|congruence]. intros ->. by apply (table_not_free b k t). }
  split.
  - apply Hok.
  - apply Hok.
  - apply Hok.
  - intros b k t' Hb Hk. rw Htab //. case_decide as E.
    + injection E as -> ->. intros [= <-]. split; [by rw /add_table l1_word_set|]. split_and!; [done| |].
      * change (t ∉ list_remove1 t (free_page_queue s)). rw Hf. naive_solver.
      * do 2 eexists. rw /add_table /= fn_lookup_insert /=. split_and!; [done|by rw live_0 // l2_inv_inv|].
        intros j _. by rw l2_inv_inv.
    + intros E'. destruct (ok_tab _ _ Hok _ _ _ Hb Hk E') as [Hw Htk]. split.
      * rw -Hw. by apply (word_add_table a).
      * destruct (Hold _ _ _ Hb Hk E'). apply table_ok_frame; [done|by apply Hp|]. change (t' ∉ list_remove1 t (free_page_queue s)). rw Hf.
        pose proof (table_not_free _ _ _ Hb Hk E'). naive_solver.
  - intros b c k l t' Hb Hc Hk Hl. rw !Htab //.
    destruct (decide ((b, k) = (a, i))) as [[= -> ->]|], (decide ((c, l) = (a, i))) as [[= -> ->]|]; [done|..|by apply Hok].
    + intros [= <-] E. by destruct (Hold _ _ _ Hc Hl E).
    + intros E [= <-]. by destruct (Hold _ _ _ Hb Hk E).
  - intros b k t' j pa fl Hb Hk. rw Htab //. rw ent_add_table.
    destruct (decide ((b, k) = (a, i))); [intros [= <-] _; by rw decide_True|]. intros E Hj. destruct (Hold _ _ _ Hb Hk E). rw decide_False //.
    intros Hen Hph. destruct (ok_map _ _ Hok _ _ _ _ _ _ Hb Hk E Hj Hen Hph) as (p & ? & ? & Hpf & [dd ?] & ?).
    assert (p <> t) by (intros ->; done). exists p. rw /is_data Hp //. split_and!; try done; [|by exists dd].
    change (p ∉ list_remove1 t (free_page_queue s)). rw Hf. naive_solver.
  - intros p x Hpm Hpf. change (p ∉ list_remove1 t (free_page_queue s)) in Hpf. rw Hf in Hpf.
    destruct (decide (p = t)) as [->|Hne]; [rw /add_table /= fn_lookup_insert /=; set_solver|]. rw Hp //. intros Hx.
    destruct (ok_vpte _ _ Hok p x Hpm) as (b & k & t' & j & fl & Hb & Hk & Ht' & Hj & Hen & Hph & ->); [naive_solver|done|].
    destruct (Hold _ _ _ Hb Hk Ht'). exists b, k, t', j, fl. rw Htab // ent_add_table !decide_False //.
  - intros p Hpm Hpf. change (p ∉ list_remove1 t (free_page_queue s)) in Hpf. rw Hf in Hpf.
    destruct (decide (p = t)) as [->|Hne]; [rw /add_table /= fn_lookup_insert /=; constructor|]. rw Hp //. apply Hok; naive_solver.
  - by apply NoDup_list_remove1.
  - intros p Hpf. change (p ∈ list_remove1 t (free_page_queue s)) in Hpf. rw Hf in Hpf. apply Hok. naive_solver.
Qed.

Lemma slot_inj t j t' j' : 0 <= j < 256 -> 0 <= j' < 256 -> slot t j = slot t' j' -> t = t' /\ j = j'.
Proof using Type. rw /slot. intros. lia. Qed.

(** An entry of a table changes, with the lists of the pages it mapped and
    maps. *)
Lemma entry_change_ok a i t j e s' :
  L a -> 0 <= i < 2048 -> tab s a i = Some t -> 0 <= j < 256 ->
  l1_table s' = l1_table s -> pagedir_table s' = pagedir_table s ->
  free_page_queue s' = free_page_queue s -> free_pmappagedir_list s' = free_pmappagedir_list s ->
  table_ok s' t ->
  (forall q, q <> t -> contents (page_table s' q) = contents (page_table s q)) ->
  (forall q, q <> t -> ~ is_data s q -> reference_cnt (page_table s' q) = reference_cnt (page_table s q)) ->
  ent s' t j = e -> (forall k, k <> j -> ent s' t k = ent s t k) ->
  (forall p, (p < max_page)%nat -> p ∉ free_page_queue s -> NoDup (vpte_list (page_table s' p)) /\
     forall x, x ∈ vpte_list (page_table s' p) <->
       (x ∈ vpte_list (page_table s p) /\ x <> slot t j) \/ (x = slot t j /\ exists fl, e = Some (Z.of_nat p * 4096, fl) /\ phys fl = false)) ->
  (forall pa fl, e = Some (pa, fl) -> phys fl = false ->
     exists p, pa = Z.of_nat p * 4096 /\ (p < max_page)%nat /\ p ∉ free_page_queue s /\ is_data s p) ->
  pmap_ok L s'.
Proof using All.
  intros Ha Hi Ht Hj Hl1 Hpd Hfq Hfd Htk Hco Hrc He Hee Hvp Hnew.
  assert (forall b k, tab s' b k = tab s b k) as Htab by (intros; by apply tab_same).
  assert (forall q k, q <> t -> ent s' q k = ent s q k) as Hent by (intros q k Hq; by apply ent_same, Hco).
  assert (~ is_data s t) as Hntd.
  { destruct (ok_tab _ _ Hok _ _ _ Ha Hi Ht) as (_ & _ & _ & p & v & E & _). intros [dd E']. congruence. }
  assert (forall q, is_data s q -> is_data s' q) as Hdata.
  { intros q [dd E]. exists dd. rw Hco //. intros ->. apply Hntd. by exists dd. }
  split; rw ?Hfd ?Hfq; try apply Hok.
  - rw Hl1. apply Hok.
  - rw Hl1. apply Hok.
  - intros b k q Hb Hk. rw Htab. intros E. destruct (ok_tab _ _ Hok _ _ _ Hb Hk E) as [Hw Hqk]. split.
    + rw -Hw. rw /l1_word Hl1 Hpd. done.
    + destruct (decide (q = t)) as [->|Hne]; [done|]. destruct Hqk as (? & ? & p & v & E1 & E2 & E3).
      split_and!; [done|by rw Hfq|]. exists p, v. rw Hco //. split_and!; [done| |done]. rw Hrc //. intros [dd ?]. congruence.
  - intros b c k l q Hb Hc Hk Hl. rw !Htab. by apply Hok.
  - intros b k q l pa fl Hb Hk. rw Htab. intros E Hl. destruct (decide (q = t /\ l = j)) as [[-> ->]|Hne].
    + rw He. intros He' Hph. destruct (Hnew _ _ He' Hph) as (p & -> & Hpm & Hpf & Hd). exists p. split_and!; auto.
      apply (Hvp p Hpm Hpf). right. eauto.
    + intros E' Hph. assert (ent s q l = Some (pa, fl)) as E''.
      { destruct (decide (q = t)) as [->|]; [rw -Hee //; naive_solver|by rw -Hent]. }
      destruct (ok_map _ _ Hok _ _ _ _ _ _ Hb Hk E Hl E'' Hph) as (p & ? & Hpm & Hpf & ? & Hin). exists p. split_and!; auto.
      apply (Hvp p Hpm Hpf). left. split; [done|]. intros Hs. apply slot_inj in Hs as [-> ->]; naive_solver.
  - intros p x Hpm Hpf Hx. destruct (Hvp p Hpm Hpf) as [_ Hx']. apply Hx' in Hx as [[Hx Hne]|[-> (fl & E & Hph)]].
    + destruct (ok_vpte _ _ Hok p x Hpm Hpf Hx) as (b & k & q & l & fl & Hb & Hk & Hq & Hl & E & Hph & ->).
      exists b, k, q, l, fl. rw Htab. split_and!; try done; try lia. destruct (decide (q = t)) as [->|]; [|by rw Hent].
      rw Hee //. congruence.
    + exists a, i, t, j, fl. rw Htab. split_and!; try done; try lia. congruence.
  - intros p Hpm Hpf. by apply Hvp.
Qed.

(** A table without entries goes back to the free pages. *)
Definition drop_table (d : nat) (i : Z) (t : nat) : pmaps :=
  set_page t (fun x => x <| reference_cnt ::= fun n => n - 1 |>) (set_l1 d i L1_TYPE_INV s) <| free_page_queue := free_page_queue s ++ [t] |>.
Lemma tab_drop_table a d i t b k : L a -> L b -> l1_table s a = Some d ->
  tab (drop_table d i t) b k = if decide ((b, k) = (a, i)) then None else tab s b k.
Proof using All.
  intros Ha Hb Hd. case_decide as E.
  - injection E as -> ->. rw /tab. rw (_ : l1_word _ a i = L1_TYPE_INV); [|by rw l1_inv_inv]. by apply (l1_word_set s a d i).
  - apply tab_ext. by apply (l1_word_set_ne L s a d i).
Qed.
Lemma drop_table_ok a d i t : L a -> 0 <= i < 2048 -> l1_table s a = Some d -> tab s a i = Some t ->
  (forall j, 0 <= j < 256 -> ent s t j = None) -> pmap_ok L (drop_table d i t).
Proof using All.
  intros Ha Hi Hd Ht Hnone. destruct (ok_tab _ _ Hok _ _ _ Ha Hi Ht) as (_ & Htm & Htf & p0 & v0 & Ec & _).
  assert (forall b k, L b -> tab (drop_table d i t) b k = if decide ((b, k) = (a, i)) then None else tab s b k) as Htab
    by (intros; by apply tab_drop_table).
  assert (forall p, contents (page_table (drop_table d i t) p) = contents (page_table s p) /\ vpte_list (page_table (drop_table d i t) p) = vpte_list (page_table s p)) as Hp.
  { intros p. rw /drop_table /set_page /=. destruct (decide (p = t)) as [->|]; by reads. }
  assert (forall q k, ent (drop_table d i t) q k = ent s q k) as Hent by (intros; by apply ent_same, Hp).
  assert (forall p, p ∉ free_page_queue (drop_table d i t) <-> p ∉ free_page_queue s /\ p <> t) as Hfree by (intros; rw /drop_table /=; set_solver).
  split; try apply Hok.
  - intros b k q Hb Hk. rw Htab //. case_decide as E; [done|]. intros Hq. destruct (ok_tab _ _ Hok _ _ _ Hb Hk Hq) as [Hw (Hm & Hf & p & v & E1 & E2 & E3)].
    assert (q <> t) as Hqt. { intros ->. destruct (ok_inj _ _ Hok _ _ _ _ _ Ha Hb Hi Hk Ht Hq) as [-> ->]. done. }
    split; [rw -Hw; by apply (l1_word_set_ne L s a d i)|]. split_and!; [done|by apply Hfree|]. exists p, v. destruct (Hp q) as [-> _].
    split_and!; try done. rw -E2 /drop_table /set_page /=. by reads.
  - intros b c k l q Hb Hc Hk Hl. rw !Htab //. repeat case_decide; try done. by apply Hok.
  - intros b k q l pa fl Hb Hk. rw Htab // Hent. case_decide as E; [done|]. intros Hq Hl He Hph.
    destruct (ok_map _ _ Hok _ _ _ _ _ _ Hb Hk Hq Hl He Hph) as (p & ? & ? & ? & [dd ?] & ?). exists p. destruct (Hp p) as [Hp1 ->].
    split_and!; try done; [|rw /is_data Hp1; by exists dd]. apply Hfree. split; [done|]. intros ->. congruence.
  - intros p x Hpm [Hpf Hne]%Hfree. destruct (Hp p) as [_ ->]. intros Hx.
    destruct (ok_vpte _ _ Hok p x Hpm Hpf Hx) as (b & k & q & l & fl & Hb & Hk & Hq & Hl & He & Hph & ->).
    exists b, k, q, l, fl. rw Htab // Hent. rw decide_False //. intros [= -> ->]. rw Ht in Hq. injection Hq as <-. rw Hnone // in He.
  - intros p Hpm [Hpf _]%Hfree. destruct (Hp p) as [_ ->]. by apply Hok.
  - rw /drop_table /=. apply NoDup_app. split_and!; [apply Hok| |apply NoDup_singleton]. set_solver.
  - intros p. rw /drop_table /=. intros [?| ->%list_elem_of_singleton]%elem_of_app; [by apply Hok|done].
Qed.

(** A new address space, and one that is given up, without tables. *)
Lemma create_ok a d l : ~ L a -> free_pmappagedir_list s = d :: l ->
  pmap_ok (fun b => L b \/ b = a) (s <| free_pmappagedir_list := l |>
    <| pagedir_table ::= fun m => <[d := fun t => if t <? 2048 then L1_TYPE_INV else root_pagedir t]> m |>
    <| l1_table ::= fun m => <[a := Some d]> m |>).
Proof using All.
  intros Ha Hl. set s' := setf _ _. pose proof (ok_dirs _ _ Hok) as Hnd. rw Hl in Hnd. apply NoDup_cons in Hnd as [Hd Hnd].
  assert (forall b, L b -> b <> a) as Hne by (intros b Hb ->; done).
  assert (forall b e, L b -> l1_table s b = Some e -> e <> d) as Hde.
  { intros b e Hb E ->. destruct (ok_dir _ _ Hok b Hb) as (e & E' & Hf). rw Hl in Hf. set_solver. }
  assert (forall b k, L b -> l1_word s' b k = l1_word s b k) as Hword.
  { intros b k Hb. rw /l1_word /s' /=. pose proof (Hne b Hb). reads. destruct (l1_table s b) as [e|] eqn:E; [|done]. pose proof (Hde _ _ Hb E). by reads. }
  assert (forall b k, L b -> tab s' b k = tab s b k) as Htab by (intros; by apply tab_ext, Hword).
  assert (forall k, 0 <= k < 2048 -> tab s' a k = None) as Hnone.
  { intros k Hk. rw /tab. rw (_ : l1_word s' a k = L1_TYPE_INV); [|by rw l1_inv_inv].
    rw /l1_word /s' /= !fn_lookup_insert. destruct (Z.ltb_spec k 2048); [done|lia]. }
  split; try apply Hok.
  - intros b [Hb| ->]; rw /s' /=; [|exists d; reads; done]. pose proof (Hne b Hb). reads. destruct (ok_dir _ _ Hok b Hb) as (e & ? & Hf).
    exists e. split; [done|]. rw Hl in Hf. set_solver.
  - intros b c e [Hb| ->] [Hc| ->]; rw /s' /=; try pose proof (Hne _ Hb); try pose proof (Hne _ Hc); reads; try done.
    + by apply Hok.
    + intros E [= <-]. by destruct (Hde _ _ Hb E).
    + intros [= <-] E. by destruct (Hde _ _ Hc E).
  - done.
  - intros b k q [Hb| ->] Hk; [|by rw Hnone]. rw Htab // Hword //. intros E. by apply (ok_tab _ _ Hok).
  - intros b c k l' q [Hb| ->] [Hc| ->] Hk Hl'; rw ?(Hnone k) ?(Hnone l') ?Htab //. by apply Hok.
  - intros b k q j pa fl [Hb| ->] Hk; [|by rw Hnone]. rw Htab //. intros E. by apply (ok_map _ _ Hok b k).
  - intros p x Hpm Hpf Hx. destruct (ok_vpte _ _ Hok p x Hpm Hpf Hx) as (b & k & q & j & fl & Hb & Hk & Hq & ?).
    exists b, k, q, j, fl. rw Htab //. eauto.
Qed.
Lemma destroy_ok a d : L a -> l1_table s a = Some d -> (forall i, 0 <= i < 2048 -> tab s a i = None) ->
  pmap_ok (fun b => L b /\ b <> a) (s <| free_pmappagedir_list := free_pmappagedir_list s ++ [d] |>).
Proof using All.
  intros Ha Hd Hnone. destruct (ok_dir _ _ Hok a Ha) as (d' & E & Hf). rw Hd in E. injection E as <-.
  split; try apply Hok.
  - intros b [Hb Hne]. destruct (ok_dir _ _ Hok b Hb) as (e & He & ?). exists e. split; [done|]. simpl.
    assert (e <> d); [|set_solver]. intros ->. by apply Hne, (ok_dir_inj _ _ Hok b a d).
  - intros b c e [Hb _] [Hc _]. by apply Hok.
  - simpl. apply NoDup_app. split_and!; [apply Hok|set_solver|apply NoDup_singleton].
  - intros b k q [Hb _]. by apply (ok_tab _ _ Hok).
  - intros b c k l q [Hb _] [Hc _]. by apply Hok.
  - intros b k q j pa fl [Hb _]. by apply (ok_map _ _ Hok).
  - intros p x Hpm Hpf Hx. destruct (ok_vpte _ _ Hok p x Hpm Hpf Hx) as (b & k & q & j & fl & Hb & Hk & Hq & ?).
    exists b, k, q, j, fl. split_and!; try naive_solver lia. intros ->. rw Hnone // in Hq.
Qed.
End with_inv.
End changes.
