(* ===== verification/PmapOps.v ===== *)
(** * PmapOps: what the operations on page tables do

    The operations of [Pmap] on states that satisfy the invariant: they change
    what one page is mapped to, and keep the invariant. States are compared
    up to the values of their tables. *)

From S2P Require Import Prelude MemRegion Pmap PmapInv.
Local Open Scope Z_scope.
Local Open Scope kernel_scope.

(** ** States up to the values of their tables *)
Record pequiv (s s' : pmaps) : Prop := {
  pe_page : forall p, page_table s p = page_table s' p;
  pe_free : free_page_queue s = free_page_queue s';
  pe_dir : forall d i, pagedir_table s d i = pagedir_table s' d i;
  pe_dirs : free_pmappagedir_list s = free_pmappagedir_list s';
  pe_l1 : forall a, l1_table s a = l1_table s' a;
  pe_regions : regions s = regions s' }.
#[export] Instance pequiv_equivalence : Equivalence pequiv.
Proof.
  split; [by split|intros ?? []; split; congruence|].
  intros s1 s2 s3 [] []. split; try (intros; etrans; eauto); congruence.
Qed.
#[export] Instance tab_proper `{Board, Mmu} : Proper (pequiv ==> eq ==> eq ==> eq) tab.
Proof. intros s s' E a _ <- i _ <-. apply tab_ext. rw /l1_word (pe_l1 _ _ E). case_match; [apply E|done]. Qed.
#[export] Instance ent_proper `{Board, Mmu} : Proper (pequiv ==> eq ==> eq ==> eq) ent.
Proof. intros s s' E t _ <- j _ <-. apply ent_same. by rw (pe_page _ _ E). Qed.
#[export] Instance pv_proper `{Board, Mmu} : Proper (pequiv ==> eq ==> eq ==> eq) pv.
Proof. intros s s' E a _ <- v _ <-. rw /pv. rewrite ->E. case_match; [by rewrite ->E|done]. Qed.
#[export] Instance pmap_ok_proper `{Board, Mmu} L : Proper (pequiv ==> iff) (pmap_ok L).
Proof.
  enough (forall s s', pequiv s s' -> pmap_ok L s -> pmap_ok L s') as Hh.
  { intros s s' E. split; apply Hh; [done|by symmetry]. }
  intros s s' E [].
  assert (forall b k, l1_word s' b k = l1_word s b k) as Hw.
  { intros b k. rw /l1_word (pe_l1 _ _ E). case_match; [by rw (pe_dir _ _ E)|done]. }
  assert (forall b k, tab s' b k = tab s b k) as Ht by (intros; by apply tab_ext).
  assert (forall t k, ent s' t k = ent s t k) as He by (intros; by rewrite ->E).
  assert (forall p, page_table s' p = page_table s p) as Hp by (intros; by rw (pe_page _ _ E)).
  split; rw -?(pe_dirs _ _ E) -?(pe_free _ _ E) //.
  all: try (setoid_rewrite <-(pe_l1 _ _ E)); try done.
  - intros a i t. rw Ht Hw. intros. rw /table_ok -(pe_free _ _ E) Hp. eauto.
  - intros a b i k t. rw !Ht. eauto.
  - intros a i t j pa fl. rw Ht He. intros. rw /is_data. setoid_rewrite Hp. eauto.
  - intros p x. rw Hp. setoid_rewrite Ht. setoid_rewrite He. eauto.
  - intros p. rw Hp. eauto.
Qed.

Lemma wp_bind_inv {S A B} (m : M S A) (k : A -> M S B) Q s : wp (m ≫= k) Q s -> wp m (fun a s' => wp (k a) Q s') s.
Proof. rw /wp /mbind /M_bind. by destruct (m s) as [[a s']| |]. Qed.

(** ** The operations *)
Section ops.
Context `{Board, Mmu, !ArmFormat}.
Implicit Types (s : pmaps) (L : nat -> Prop).

Lemma user_page v : 0 <= v < 2 ^ 19 ->
  pde_idx (v * 4096) = v / 256 /\ pte_idx (v * 4096) = v mod 256 /\ 0 <= v / 256 < 2048 /\ 0 <= v mod 256 < 256.
Proof.
  intros Hv. rw pde_idx_eq ?pte_idx_eq; [rw /u32; lia|]. rw Z.div_mul //. change (2 ^ 20) with (256 * 4096).
  rw Z.div_mul_cancel_r //. split_and!; try done; Z.div_mod_to_equations; lia.
Qed.
Lemma page_indices_inj v w : (v / 256, v mod 256) = (w / 256, w mod 256) -> v = w.
Proof. intros [= E1 E2]. rw (Z.div_mod v 256) // (Z.div_mod w 256) // E1 E2. done. Qed.

Lemma wp_l1_of a d Q s : l1_table s a = Some d -> Q d s -> wp (l1_of a) Q s.
Proof. intros Hd HQ. apply wp_bind, wp_gets. by rw Hd. Qed.
Lemma wp_alloc_page others p Q s : last (free_page_queue s) = Some p -> (p < max_page)%nat ->
  Q (Some p) (set_page p (fun _ => mkPage 0 [] (Data (fun _ => 0))) (s <| free_page_queue := list_remove1 p (free_page_queue s) |>)) ->
  wp (alloc_page others) Q s.
Proof.
  intros Hl Hp HQ. assert (p ∈ free_page_queue s) as Hin by (by apply last_Some_elem_of).
  apply wp_bind, wp_modify. destruct (free_page_queue s) as [|x l] eqn:E; [done|].
  apply wp_bind, wp_gets. rw E Hl. apply wp_bind. eapply wp_update; [rw E; by apply dl_rem_ok|].
  apply wp_bind, wp_upd_page; [done|]. apply wp_ret. exact HQ.
Qed.
Lemma wp_alloc_pagetable others p Q s : last (free_page_queue s) = Some p -> (p < max_page)%nat ->
  (forall s', pequiv s' (set_page p (fun _ => mkPage 0 [] (Table (fun _ => L2_TYPE_INV) (fun _ => 0))) (s <| free_page_queue := list_remove1 p (free_page_queue s) |>)) ->
    Q (Some (pmap_page_to_va p)) s') ->
  wp (pmap_alloc_pagetable others) Q s.
Proof.
  intros Hl Hp HQ. apply wp_bind, (wp_alloc_page others p); [done..|]. apply wp_bind, wp_upd_page; [done|]. apply wp_ret, HQ.
  split; try done. intros q. rw /set_page /=. destruct (decide (q = p)) as [->|]; by reads.
Qed.
Lemma last_in_free L s p : pmap_ok L s -> last (free_page_queue s) = Some p -> p ∈ free_page_queue s /\ (p < max_page)%nat.
Proof. intros Hok Hl. assert (p ∈ free_page_queue s) by by apply last_Some_elem_of. split; [done|]. by apply (ok_free_max L s). Qed.

(** What an operation on mappings leaves alone. *)
Record quiet s s' : Prop := {
  qu_regions : regions s' = regions s;
  qu_l1 : forall a, l1_table s' a = l1_table s a;
  qu_dirs : free_pmappagedir_list s' = free_pmappagedir_list s;
  qu_data : forall p, (p < max_page)%nat -> p ∉ free_page_queue s -> is_data s p ->
    p ∉ free_page_queue s' /\ contents (page_table s' p) = contents (page_table s p) /\ reference_cnt (page_table s' p) = reference_cnt (page_table s p);
  qu_back : forall p, (p < max_page)%nat -> p ∉ free_page_queue s' -> is_data s' p -> p ∉ free_page_queue s /\ is_data s p }.
Lemma quiet_refl s : quiet s s.
Proof. by split. Qed.
Lemma quiet_trans s1 s2 s3 : quiet s1 s2 -> quiet s2 s3 -> quiet s1 s3.
Proof.
  intros [??? Hd Hb] [??? Hd' Hb']. split; [congruence|intros a; congruence|congruence| |].
  2: { intros p Hm Hf Hd2. destruct (Hb' p Hm Hf Hd2). by apply Hb. }
  intros p Hm Hf [dd E]. destruct (Hd p Hm Hf) as (Hf' & Ec & Er); [by exists dd|].
  destruct (Hd' p Hm Hf') as (? & -> & ->); [exists dd; congruence|]. done.
Qed.
(** The number of entries that map a page. *)
Definition maps s (p : nat) : nat := length (vpte_list (page_table s p)).
Definition maps_to (o : option (Z * Z)) (p : nat) : nat :=
  match o with Some (pa, fl) => if decide (phys fl = false /\ pmap_pa_to_page pa = p) then 1 else 0 | None => 0 end%nat.

(** The address [v * 4096] is mapped to [e] and nothing else changes. *)
Definition remapped L s s' (a : nat) (v : Z) (e : option (Z * Z)) : Prop :=
  (forall b w, L b -> 0 <= w < 2 ^ 19 -> pv s' b w = if decide ((b, w) = (a, v)) then e else pv s b w) /\
  (forall p, (p < max_page)%nat -> p ∉ free_page_queue s -> is_data s p -> (maps s' p + maps_to (pv s a v) p = maps s p + maps_to e p)%nat).

(** The table for an address, that exists or is made. *)
Record ready L s s' (a : nat) (v : Z) (t : nat) : Prop := {
  rd_tab : tab s' a (v / 256) = Some t;
  rd_tabs : forall b k, L b -> (b, k) <> (a, v / 256) -> tab s' b k = tab s b k;
  rd_ok : pmap_ok L s';
  rd_quiet : quiet s s';
  rd_pv : forall b w, L b -> 0 <= w < 2 ^ 19 -> pv s' b w = pv s b w;
  rd_maps : forall p, (p < max_page)%nat -> p ∉ free_page_queue s -> maps s' p = maps s p;
  rd_free : forall p, p ∈ free_page_queue s' -> p ∈ free_page_queue s;
  rd_len : (length (free_page_queue s) <= S (length (free_page_queue s')))%nat;
  rd_same : tab s a (v / 256) <> None -> free_page_queue s' = free_page_queue s }.
Lemma ready_equiv L s s1 s2 a v t : pequiv s2 s1 -> ready L s s1 a v t -> ready L s s2 a v t.
Proof.
  intros E [? Htabs Hok [] Hpv Hm Hf Hl Hs]. split; try (by rewrite ->E).
  - intros b k. rewrite ->E. auto.
  - destruct E as [Ep Ef Ed Eds El Er]. split; [congruence|intros b; rw El; auto|congruence|..]; intros p; rw /is_data Ep Ef; auto.
  - intros b w. rewrite ->E. auto.
  - intros p Hp Hpf. rw -Hm // /maps (pe_page _ _ E) //.
  - rw (pe_free _ _ E). auto.
  - by rw (pe_free _ _ E).
  - by rw (pe_free _ _ E).
Qed.
Lemma ready_add L s a d v t : pmap_ok L s -> L a -> 0 <= v < 2 ^ 19 -> l1_table s a = Some d -> tab s a (v / 256) = None ->
  last (free_page_queue s) = Some t -> ready L s (add_table d (v / 256) t s) a v t.
Proof using All.
  intros Hok Ha Hv Hd Et El. destruct (user_page v Hv) as (_ & _ & Hi & Hj). destruct (last_in_free L s t Hok El) as [Htf Htm].
  assert (forall p, p <> t -> page_table (add_table d (v / 256) t s) p = page_table s p) as Hp by (intros p ?; rw /add_table /=; by reads).
  split.
  - rw (tab_add_table L s Hok a) // decide_True //.
  - intros b k Hb Hne. rw (tab_add_table L s Hok a) // decide_False //.
  - by apply (add_table_ok L s Hok a).
  - split; try done; intros p Hpm Hpf Hd'.
    + assert (p <> t) by (intros ->; done). rw Hp //. split_and!; try done.
      change (p ∉ list_remove1 t (free_page_queue s)). rw elem_of_list_remove1; [apply Hok|]. naive_solver.
    + change (p ∉ list_remove1 t (free_page_queue s)) in Hpf. rw elem_of_list_remove1 in Hpf; [apply Hok|]. destruct (decide (p = t)) as [->|].
      { destruct Hd' as [dd Hd']. by rw /add_table /= fn_lookup_insert in Hd'. }
      rw /is_data Hp // in Hd'. split; [naive_solver|done].
  - intros b w Hb Hw. rw /pv (tab_add_table L s Hok a) //. destruct (user_page w Hw) as (_ & _ & Hi' & _). case_decide as E.
    + injection E as -> E. by rw ent_add_table decide_True // E Et.
    + destruct (tab s b (w / 256)) as [t'|] eqn:E'; [|done]. rw ent_add_table decide_False //. intros ->. by apply (table_not_free L s Hok b (w / 256) t).
  - intros p Hpm Hpf. rw /maps Hp //. congruence.
  - intros p Hpf. change (p ∈ list_remove1 t (free_page_queue s)) in Hpf. apply elem_of_list_remove1 in Hpf; [naive_solver|apply Hok].
  - change (length (free_page_queue s) <= S (length (list_remove1 t (free_page_queue s))))%nat. rewrite <-(list_remove1_perm t (free_page_queue s)) at 1 by done. done.
  - congruence.
Qed.
Lemma ready_table others L s a v :
  pmap_ok L s -> L a -> 0 <= v < 2 ^ 19 -> (tab s a (v / 256) = None -> free_page_queue s <> []) ->
  exists d, l1_table s a = Some d /\
  wp (w ← gets (fun s => pagedir_table s d (v / 256));
      if Z.land w L1_TYPE_MASK =? L1_TYPE_INV then
        o ← pmap_alloc_pagetable others;
        match o with
        | None => mret None
        | Some pt => _ ← pmap_write_l1 d (v / 256) (Z.lor (pmap_va_to_pa pt) L1_TYPE_C); mret (Some pt)
        end
      else mret (Some (pmap_pa_to_va (Z.land w L1_C_ADDR_MASK))))
    (fun o s' => exists t, o = Some (pmap_page_to_va t) /\ ready L s s' a v t) s.
Proof using All.
  intros Hok Ha Hv Hfree. destruct (user_page v Hv) as (_ & _ & Hi & Hj). destruct (ok_dir _ _ Hok a Ha) as (d & Hd & _).
  exists d. split; [done|]. apply wp_bind, wp_gets. assert (pagedir_table s d (v / 256) = l1_word s a (v / 256)) as -> by (by rw /l1_word Hd).
  destruct (tab s a (v / 256)) as [t|] eqn:Et.
  - destruct (ok_tab _ _ Hok _ _ _ Ha Hi Et) as [Hw Htk]. destruct Htk as [Hm _]. destruct (l1_word_table t Hm) as (E1 & E2 & E3).
    rw Hw -E1 E2. rw /l1_inv in E3. rw E3. destruct (page_addr t Hm) as (_ & -> & _). apply wp_ret. exists t. split; [done|]. split; auto using quiet_refl.
  - assert (l1_inv (l1_word s a (v / 256)) = true) as Hinv by (rw /tab in Et; by destruct (l1_inv _)).
    rw /l1_inv in Hinv. rw Hinv. destruct (last (free_page_queue s)) as [t|] eqn:El.
    2: { apply last_None in El. by destruct (Hfree eq_refl). }
    destruct (last_in_free L s t Hok El) as [Htf Htm].
    apply wp_bind, (wp_alloc_pagetable others t); [done..|]. intros s1 Hs1. apply wp_bind, wp_modify, wp_ret.
    destruct (page_addr t Htm) as (_ & _ & -> & _). destruct (l1_word_table t Htm) as (-> & _ & _).
    exists t. split; [done|]. apply (ready_equiv _ _ (add_table d (v / 256) t s)); [|by apply ready_add].
    destruct Hs1. rw /add_table. split; simpl; auto. intros e k. rw /set_l1 /=.
    destruct (decide (e = d)) as [->|]; reads; auto. destruct (decide (k = v / 256)) as [->|]; reads; auto.
Qed.

(** An entry of a table is written. *)
Lemma entry_written s s' t j w fl p v :
  table_ok s t -> contents (page_table s t) = Table p v -> 0 <= j < 256 ->
  contents (page_table s' t) = Table (<[j := w]> p) (<[j := fl]> v) ->
  reference_cnt (page_table s' t) = reference_cnt (page_table s t) + (if l2_inv w then 0 else 1) - (if l2_inv (p j) then 0 else 1) ->
  free_page_queue s' = free_page_queue s ->
  (l2_inv w = false -> exists pa, w = Z.lor pa (pmap_calc_pa_bits fl) /\ pa mod 4096 = 0 /\ u32 pa) ->
  table_ok s' t /\ ent s' t j = (if l2_inv w then None else Some (Z.land w L2_ADDR_MASK, fl)) /\ (forall k, k <> j -> ent s' t k = ent s t k).
Proof.
  intros (Hm & Hf & p' & v' & E & Hrc & Hen) Ec Hj Ec' Hrc' Hfq Hw. rw Ec in E. injection E as <- <-. split_and!.
  - split_and!; [done|by rw Hfq|]. exists (<[j := w]> p), (<[j := fl]> v). split_and!; [done|by rw live_entries // Hrc' Hrc|].
    intros k Hk. destruct (decide (k = j)) as [->|]; reads; auto.
  - rw /ent Ec'. reads. done.
  - intros k Hk. rw /ent Ec Ec'. by reads.
Qed.
Definition mappable s (pa fl : Z) : Prop :=
  pa mod 4096 = 0 /\ u32 pa /\ (phys fl = false -> exists p, pa = Z.of_nat p * 4096 /\ (p < max_page)%nat /\ p ∉ free_page_queue s /\ is_data s p).
Lemma quiet_mappable s s' pa fl : quiet s s' -> mappable s pa fl -> mappable s' pa fl.
Proof.
  intros [_ _ _ Hq _] (? & ? & Hp). split_and!; [done..|]. intros (p & -> & Hm & Hf & [dd E])%Hp. exists p.
  destruct (Hq p Hm Hf) as (? & Ec & _); [by exists dd|]. split_and!; try done. exists dd. congruence.
Qed.
Lemma phys_test fl : (Z.land fl MAP_PHYS =? 0) = negb (phys fl).
Proof. rw /phys. by rw negb_involutive. Qed.
Lemma vpte_at_slot t j : (t < max_page)%nat -> vpte_at (pmap_page_to_va t) j = slot t j.
Proof. intros Ht. rw /vpte_at. by destruct (page_addr t Ht) as (_ & _ & _ & -> & _). Qed.
Lemma wp_write_vflags t i fl p v Q s : (t < max_page)%nat -> contents (page_table s t) = Table p v ->
  Q tt (set_page t (fun x => x <| contents := Table p (<[i := fl]> v) |>) s) -> wp (write_vflags (pmap_page_to_va t) i fl) Q s.
Proof. intros Ht Hc HQ. apply wp_bind, (wp_get_table t p v); [done..|]. by apply wp_put_table. Qed.
Lemma wp_write_l2 t i w p v Q s : (t < max_page)%nat -> contents (page_table s t) = Table p v ->
  Q tt (set_page t (fun x => x <| contents := Table (<[i := w]> p) v |>) s) -> wp (pmap_write_l2 (pmap_page_to_va t) i w) Q s.
Proof. intros Ht Hc HQ. apply wp_bind, (wp_get_table t p v); [done..|]. by apply wp_put_table. Qed.
Lemma wp_on_vptes q f l Q s : (q < max_page)%nat -> f (vpte_list (page_table s q)) = Ok l ->
  Q tt (set_page q (fun x => x <| vpte_list := l |>) s) -> wp (on_vptes q f) Q s.
Proof. intros Hq Hf HQ. apply wp_bind, wp_get_page; [done|]. apply wp_bind. eapply wp_lift; [exact Hf|]. by apply wp_upd_page. Qed.

(** The rest of [pmap_enter], when the table is there. *)
Definition enter_rest (pt va pa flags : Z) : PM ret :=
  _ ← (if Z.land flags MAP_PHYS =? 0 then on_vptes (pmap_pa_to_page pa) (dl_add_head (vpte_at pt (pte_idx va))) else mret tt);
  _ ← write_vflags pt (pte_idx va) flags;
  _ ← upd_page (pmap_va_to_page pt) (fun x => x <| reference_cnt ::= fun n => n + 1 |>);
  _ ← pmap_write_l2 pt (pte_idx va) (Z.lor pa (pmap_calc_pa_bits flags));
  mret (RVal 0).
(** The pages of [s'] are those of [s] with another table and other lists. *)
Definition repaged s s' (t : nat) (rc : Z) (c : content) (vl : nat -> list nat) : Prop :=
  (forall q, page_table s' q = mkPage (if decide (q = t) then rc else reference_cnt (page_table s q)) (vl q)
               (if decide (q = t) then c else contents (page_table s q))) /\
  l1_table s' = l1_table s /\ pagedir_table s' = pagedir_table s /\ free_page_queue s' = free_page_queue s /\
  free_pmappagedir_list s' = free_pmappagedir_list s /\ regions s' = regions s.
Lemma page_eta x : x = mkPage (reference_cnt x) (vpte_list x) (contents x).
Proof. by destruct x. Qed.
Lemma enter_rest_run L s a v t pa fl p0 v0 :
  pmap_ok L s -> L a -> 0 <= v < 2 ^ 19 -> tab s a (v / 256) = Some t -> mappable s pa fl ->
  contents (page_table s t) = Table p0 v0 -> ent s t (v mod 256) = None ->
  wp (enter_rest (pmap_page_to_va t) (v * 4096) pa fl) (fun r s' => r = RVal 0 /\
    repaged s s' t (reference_cnt (page_table s t) + 1) (Table (<[v mod 256 := Z.lor pa (pmap_calc_pa_bits fl)]> p0) (<[v mod 256 := fl]> v0))
      (fun q => if decide (phys fl = false /\ q = pmap_pa_to_page pa) then slot t (v mod 256) :: vpte_list (page_table s q) else vpte_list (page_table s q))) s.
Proof using All.
  intros Hok Ha Hv Ht (Hal & Hu & Hmap) Hc Hnone. destruct (user_page v Hv) as (_ & Epte & Hi & Hj).
  destruct (ok_tab _ _ Hok _ _ _ Ha Hi Ht) as [_ (Hm & Hf & _)].
  rw /enter_rest Epte vpte_at_slot //. destruct (page_addr t Hm) as (_ & _ & _ & -> & _). rw phys_test.
  apply wp_bind, (wp_mono _ (fun _ s1 => repaged s s1 t (reference_cnt (page_table s t)) (Table p0 v0)
    (fun q => if decide (phys fl = false /\ q = pmap_pa_to_page pa) then slot t (v mod 256) :: vpte_list (page_table s q) else vpte_list (page_table s q)))).
  { destruct (phys fl) eqn:Eph; simpl.
    - apply wp_ret. split_and!; try done. intros q. destruct (decide (true = false /\ q = pmap_pa_to_page pa)) as [[? _]|_]; [done|]. case_decide; subst; [|apply page_eta]. rw -Hc. apply page_eta.
    - destruct Hmap as (p & -> & Hpm & Hpf & Hd); [done|]. destruct (page_addr p Hpm) as (_ & _ & _ & _ & _ & ->).
      eapply wp_on_vptes; [done| |].
      { apply dl_add_head_ok. intros Hin. destruct (ok_vpte _ _ Hok _ _ Hpm Hpf Hin) as (b & k & t' & j & fl' & Hb & Hk & Ht' & Hj' & He & _ & Es).
        apply slot_inj in Es as [-> <-]; [|done..]. congruence. }
      split_and!; try done. intros q. destruct Hd as [dd Hd]. assert (p <> t) by congruence. destruct (decide (q = p)) as [->|Hqp].
      + by rw set_page_eq !(decide_False (P := p = t)) // decide_True.
      + rw set_page_ne //. destruct (decide (false = false /\ q = p)) as [[_ ?]|_]; [done|]. case_decide; subst; [rw -Hc|]; apply page_eta. }
  intros _ s1 (Hp1 & Hl1 & Hpd & Hfq & Hfd & Hrg).
  assert (contents (page_table s1 t) = Table p0 v0) as Hc1 by (rw Hp1 /= decide_True //).
  apply wp_bind, (wp_write_vflags t _ _ p0 v0); [done..|]. apply wp_bind, wp_upd_page; [done|].
  apply wp_bind, (wp_write_l2 t _ _ p0 (<[v mod 256 := fl]> v0)); [done|by rw !set_page_eq|]. apply wp_ret. split; [done|].
  split_and!; try done. intros q. destruct (decide (q = t)) as [->|Hne].
  - rw !set_page_eq Hp1 /=. by rw !(decide_True (P := t = t)).
  - rw !set_page_ne // Hp1. by rw !(decide_False (P := q = t)).
Qed.

Lemma repaged_ok L s s' a v t w fl rc p0 v0 vl e :
  pmap_ok L s -> L a -> 0 <= v < 2 ^ 19 -> tab s a (v / 256) = Some t -> contents (page_table s t) = Table p0 v0 ->
  repaged s s' t rc (Table (<[v mod 256 := w]> p0) (<[v mod 256 := fl]> v0)) vl ->
  rc = reference_cnt (page_table s t) + (if l2_inv w then 0 else 1) - (if l2_inv (p0 (v mod 256)) then 0 else 1) ->
  (l2_inv w = false -> exists pa, w = Z.lor pa (pmap_calc_pa_bits fl) /\ pa mod 4096 = 0 /\ u32 pa) ->
  e = (if l2_inv w then None else Some (Z.land w L2_ADDR_MASK, fl)) ->
  (forall p, (p < max_page)%nat -> p ∉ free_page_queue s -> NoDup (vl p) /\
     forall x, x ∈ vl p <-> (x ∈ vpte_list (page_table s p) /\ x <> slot t (v mod 256)) \/
       (x = slot t (v mod 256) /\ exists fl, e = Some (Z.of_nat p * 4096, fl) /\ phys fl = false)) ->
  (forall p, (p < max_page)%nat -> p ∉ free_page_queue s -> (length (vl p) + maps_to (pv s a v) p = maps s p + maps_to e p)%nat) ->
  (forall pa fl, e = Some (pa, fl) -> phys fl = false ->
     exists p, pa = Z.of_nat p * 4096 /\ (p < max_page)%nat /\ p ∉ free_page_queue s /\ is_data s p) ->
  pmap_ok L s' /\ quiet s s' /\ remapped L s s' a v e /\ (forall b k, tab s' b k = tab s b k) /\ free_page_queue s' = free_page_queue s.
Proof using All.
  intros Hok Ha Hv Ht Hc (Hp & Hl1 & Hpd & Hfq & Hfd & Hrg) -> Hw He Hvl Hlen Hnew. destruct (user_page v Hv) as (_ & _ & Hi & Hj).
  destruct (ok_tab _ _ Hok _ _ _ Ha Hi Ht) as [_ Htk].
  destruct (entry_written s s' t (v mod 256) w fl p0 v0) as (Htk' & Hej & Hek); try done; [by rw Hp /= decide_True..|].
  assert (forall q, q <> t -> contents (page_table s' q) = contents (page_table s q)) as Hco by (intros q Hq; by rw Hp /= decide_False).
  assert (forall q, q <> t -> reference_cnt (page_table s' q) = reference_cnt (page_table s q)) as Hrc by (intros q Hq; by rw Hp /= decide_False).
  assert (forall b k, tab s' b k = tab s b k) as Htab by (intros; by apply tab_same).
  split_and!; [| |split| |done]; [..|done].
  - eapply (entry_change_ok L s Hok a (v / 256) t (v mod 256) e s'); try done; [by intros; apply Hrc|by rw Hej|].
    intros p Hpm Hpf. rw Hp /=. by apply Hvl.
  - split; [done|by rw Hl1|done|..]; intros p Hpm Hpf [dd E].
    + assert (p <> t) by congruence. by rw Hfq Hco // Hrc.
    + rw Hfq in Hpf. split; [done|]. assert (p <> t); [|by exists dd; rw -Hco]. intros ->. by rw Hp /= decide_True in E.
  - intros b x Hb Hx. destruct (user_page x Hx) as (_ & _ & Hix & Hjx). rw /pv Htab. case_decide as E.
    + injection E as -> ->. by rw Ht Hej.
    + destruct (tab s b (x / 256)) as [q|] eqn:Eq; [|done]. destruct (decide (q = t)) as [->|Hq].
      * apply Hek. intros Ej. destruct (ok_inj _ _ Hok _ _ _ _ _ Ha Hb Hi Hix Ht Eq) as [-> Ei]. apply E. f_equal. apply page_indices_inj. congruence.
      * by apply ent_same, Hco.
  - intros p Hpm Hpf _. rw -Hlen // /maps Hp //.
Qed.

(** Fewer pages are free, by at most [n]. *)
Definition shrinks (n : nat) s s' : Prop :=
  (forall p, p ∈ free_page_queue s' -> p ∈ free_page_queue s) /\ (length (free_page_queue s) <= n + length (free_page_queue s'))%nat.
Lemma maps_quiet L s s' a v e s1 : quiet s s1 -> (forall b w, L b -> 0 <= w < 2 ^ 19 -> pv s1 b w = pv s b w) -> L a -> 0 <= v < 2 ^ 19 ->
  (forall p, (p < max_page)%nat -> p ∉ free_page_queue s -> maps s1 p = maps s p) ->
  remapped L s1 s' a v e -> remapped L s s' a v e.
Proof.
  intros [_ _ _ Hq _] Hpv Ha Hv Hm [H1' H2']. split.
  - intros b w Hb Hw. rw H1' // Hpv //.
  - intros p Hpm Hpf [dd E]. destruct (Hq p Hpm Hpf) as (? & Ec & _); [by exists dd|]. rw -Hpv // -Hm //. apply H2'; [done..|]. exists dd. congruence.
Qed.
(** Every page table is used. *)
Definition tight L s : Prop :=
  forall a i t, L a -> 0 <= i < 2048 -> tab s a i = Some t -> exists v, 0 <= v < 2 ^ 19 /\ v / 256 = i /\ pv s a v <> None.
Lemma tight_remapped L s s' a v e : tight L s -> 0 <= v < 2 ^ 19 -> remapped L s s' a v e ->
  (forall b k, L b -> (b, k) <> (a, v / 256) -> tab s' b k = tab s b k \/ tab s' b k = None) ->
  (tab s' a (v / 256) <> None -> exists w, 0 <= w < 2 ^ 19 /\ w / 256 = v / 256 /\ pv s' a w <> None) -> tight L s'.
Proof.
  intros Htight Hv [Hre _] Htab Hown b k t Hb Hk Ht. destruct (decide ((b, k) = (a, v / 256))) as [[= -> ->]|Hne].
  - apply Hown. congruence.
  - destruct (Htab b k Hb Hne) as [E|]; [|congruence]. destruct (Htight b k t Hb Hk) as (w & Hw & <- & Hp); [congruence|].
    exists w. split_and!; try done; try lia. rw Hre // decide_False //. congruence.
Qed.
Lemma pmap_enter_spec others L s a v pa fl :
  pmap_ok L s -> L a -> 0 < v < 2 ^ 19 -> pv s a v = None -> mappable s pa fl -> (tab s a (v / 256) = None -> free_page_queue s <> []) ->
  wp (pmap_enter others a (v * 4096) pa fl) (fun r s' => r = RVal 0 /\ pmap_ok L s' /\ quiet s s' /\
    remapped L s s' a v (Some (pa, fl)) /\ shrinks 1 s s' /\ (tight L s -> tight L s') /\ (tab s a (v / 256) <> None -> free_page_queue s' = free_page_queue s) /\
    (forall b k, L b -> (b, k) <> (a, v / 256) -> tab s' b k = tab s b k)) s.
Proof using All.
  intros Hok Ha Hv Hnone Hmap Hfree. destruct (user_page v ltac:(lia)) as (Epde & Epte & Hi & Hj).
  rw /pmap_enter (proj2 (Z.eqb_neq _ 0)); [lia|]. rw Epde.
  destruct (ready_table others L s a v Hok Ha ltac:(lia) Hfree) as (d & Hd & Hrd).
  apply wp_bind, (wp_l1_of _ d); [done|]. apply wp_bind, wp_gets, wp_bind. eapply wp_mono; [exact Hrd|].
  intros o s1 (t & -> & [Ht Htabs1 Hok1 Hq1 Hpv1 Hm1 Hf1 Hl1 Hsame1]). clear Hrd.
  destruct (ok_tab _ _ Hok1 _ _ _ Ha Hi Ht) as [_ (Hm & Hf & p0 & v0 & Hc & _)].
  assert (ent s1 t (v mod 256) = None) as Hent. { rw -Hnone -Hpv1 //; [lia|]. by rw /pv Ht. }
  assert (l2_inv (p0 (v mod 256)) = true) as Hinv by (rw /ent Hc in Hent; by destruct (l2_inv _)).
  pose proof (quiet_mappable _ _ _ _ Hq1 Hmap) as Hmap1.
  apply wp_bind, (wp_get_table t p0 v0); [done..|]. rw Epte. cbn [fst]. change (Z.land (p0 (v mod 256)) L2_TYPE_MASK =? L2_TYPE_INV) with (l2_inv (p0 (v mod 256))).
  rw Hinv -Epte. eapply wp_mono; [eapply (enter_rest_run L s1 a v t pa fl p0 v0); (done || lia)|].
  intros r s' [-> Hrp]. destruct Hmap1 as (Hal & Hu & Hmp). destruct (entry_word pa fl Hal Hu) as [Ew Einv].
  destruct (repaged_ok L s1 s' a v t _ fl _ p0 v0 _ (Some (pa, fl)) Hok1 Ha ltac:(lia) Ht Hc Hrp) as (Hok' & Hq' & Hre & Htab' & Hfq).
  - by rw Einv Hinv Z.sub_0_r.
  - eauto.
  - by rw Einv Ew.
  - intros p Hpm Hpf. assert (slot t (v mod 256) ∉ vpte_list (page_table s1 p)) as Hns.
    { intros Hin. destruct (ok_vpte _ _ Hok1 _ _ Hpm Hpf Hin) as (b & k & t' & j & fl' & Hb & Hk & Ht' & Hj' & He & _ & Es).
      apply slot_inj in Es as [-> <-]; [|done..]. congruence. }
    pose proof (ok_vnodup _ _ Hok1 p Hpm Hpf). destruct (decide (phys fl = false /\ p = pmap_pa_to_page pa)) as [[Eph Epq]|E].
    + destruct (Hmp Eph) as (q & Epa & Hqm & _). assert (p = q) as -> by (rw Epq Epa; by destruct (page_addr q Hqm) as (_ & _ & _ & _ & _ & ->)).
      split; [by apply NoDup_cons|]. intros x. rw elem_of_cons Epa.
      split; [intros [->|]; [right; eauto|left; split; [done|congruence]]|naive_solver].
    + split; [done|]. intros x. split; [intros Hx; left; split; [done|congruence]|]. intros [[? _]|[-> (fl' & [= -> ->] & Eph)]]; [done|].
      destruct E. split; [done|]. by destruct (page_addr p Hpm) as (_ & _ & _ & _ & _ & ->).
  - intros p Hpm Hpf. rw Hpv1 // ?Hnone; [lia|]. simpl. rw Nat.add_0_r /maps. repeat case_decide; simpl; try lia; naive_solver.
  - intros pa' fl' [= <- <-]. auto.
  - split_and!; [done|done|exact (quiet_trans _ _ _ Hq1 Hq')|apply (maps_quiet L s s' a v _ s1); (done || lia)|rw /shrinks Hfq; split; [done|lia]| |rw Hfq; auto|intros b k Hb Hne; by rw Htab' Htabs1].
    intros Htight. eapply (tight_remapped L s s' a v (Some (pa, fl))); [done|lia|apply (maps_quiet L s s' a v _ s1); (done || lia)| |].
    + intros b k Hb Hne. left. by rw Htab' Htabs1.
    + intros _. exists v. split_and!; try lia. rw (proj1 Hre) //; [lia|]. by rw decide_True.
Qed.

(** ** Lookups *)
Lemma word_of L s a v : pmap_ok L s -> L a -> 0 <= v < 2 ^ 19 ->
  exists d, l1_table s a = Some d /\ pagedir_table s d (pde_idx (v * 4096)) = l1_word s a (v / 256).
Proof using All.
  intros Hok Ha Hv. destruct (user_page v Hv) as (-> & _). destruct (ok_dir _ _ Hok a Ha) as (d & Hd & _). exists d. by rw /l1_word Hd.
Qed.
(** The table of an address, as the operations find it. *)
Lemma table_of L s a v : pmap_ok L s -> L a -> 0 <= v < 2 ^ 19 ->
  (l1_inv (l1_word s a (v / 256)) = true /\ pv s a v = None) \/
  exists t p0 v0, l1_inv (l1_word s a (v / 256)) = false /\ tab s a (v / 256) = Some t /\ (t < max_page)%nat /\
    pmap_pa_to_va (Z.land (l1_word s a (v / 256)) L1_C_ADDR_MASK) = pmap_page_to_va t /\
    contents (page_table s t) = Table p0 v0 /\
    pv s a v = if l2_inv (p0 (v mod 256)) then None else Some (Z.land (p0 (v mod 256)) L2_ADDR_MASK, v0 (v mod 256)).
Proof using All.
  intros Hok Ha Hv. destruct (user_page v Hv) as (_ & _ & Hi & Hj). rw /pv. destruct (tab s a (v / 256)) as [t|] eqn:Et.
  - right. destruct (ok_tab _ _ Hok _ _ _ Ha Hi Et) as [Hw (Hm & Hf & p0 & v0 & Hc & _)]. exists t, p0, v0.
    destruct (l1_word_table t Hm) as (E1 & E2 & E3). destruct (page_addr t Hm) as (_ & E4 & _). rw Hw -E1 E2 E3 E4 /ent Hc. done.
  - left. split; [|done]. rw /tab in Et. by destruct (l1_inv _).
Qed.
Lemma pmap_extract_spec L s a v : pmap_ok L s -> L a -> 0 <= v < 2 ^ 19 -> pmap_extract a (v * 4096) s = Ok (pv s a v, s).
Proof using All.
  intros Hok Ha Hv. enough (wp (pmap_extract a (v * 4096)) (fun o s' => o = pv s a v /\ s' = s) s) as (? & ? & -> & -> & ->)%wp_ok by done.
  destruct (user_page v Hv) as (_ & Ej & _). destruct (word_of L s a v Hok Ha Hv) as (d & Hd & Ew). apply wp_bind, (wp_l1_of _ d); [done|].
  apply wp_bind, wp_gets. rw Ew. destruct (table_of L s a v Hok Ha Hv) as [[Hinv Hpv]|(t & p0 & v0 & Hinv & _ & Hm & Ept & Hc & Hpv)].
  - rw /l1_inv in Hinv. rw Hinv Hpv. done.
  - rw /l1_inv in Hinv. rw Hinv Ept. apply wp_bind, (wp_get_table t p0 v0); [done..|]. rw Ej Hpv /l2_inv. cbn [fst snd]. by destruct (Z.land (p0 (v mod 256)) L2_TYPE_MASK =? L2_TYPE_INV).
Qed.
Lemma pmap_is_page_present_spec L s a v : pmap_ok L s -> L a -> 0 <= v < 2 ^ 19 ->
  pmap_is_page_present a (v * 4096) s = Ok (bool_decide (pv s a v <> None), s).
Proof using All.
  intros Hok Ha Hv. enough (wp (pmap_is_page_present a (v * 4096)) (fun o s' => o = bool_decide (pv s a v <> None) /\ s' = s) s) as (? & ? & -> & -> & ->)%wp_ok by done.
  destruct (user_page v Hv) as (_ & Ej & _). destruct (word_of L s a v Hok Ha Hv) as (d & Hd & Ew). apply wp_bind, (wp_l1_of _ d); [done|].
  apply wp_bind, wp_gets. rw Ew. destruct (table_of L s a v Hok Ha Hv) as [[Hinv Hpv]|(t & p0 & v0 & Hinv & _ & Hm & Ept & Hc & Hpv)].
  - rw /l1_inv in Hinv. rw Hinv Hpv. done.
  - rw /l1_inv in Hinv. rw Hinv Ept. apply wp_bind, (wp_get_table t p0 v0); [done..|]. rw Ej Hpv /l2_inv. cbn [fst snd]. by destruct (Z.land (p0 (v mod 256)) L2_TYPE_MASK =? L2_TYPE_INV).
Qed.
Lemma pmap_is_pagetable_present_spec L s a v : pmap_ok L s -> L a -> 0 <= v < 2 ^ 19 ->
  pmap_is_pagetable_present a (v * 4096) s = Ok (bool_decide (tab s a (v / 256) <> None), s).
Proof using All.
  intros Hok Ha Hv. destruct (word_of L s a v Hok Ha Hv) as (d & Hd & Ew).
  rw /pmap_is_pagetable_present /l1_of. mrun. rw Hd Ew /tab /l1_inv. by destruct (_ =? _).
Qed.

(** ** Removing *)
Lemma live_0_inv p j : live p = 0 -> 0 <= j < 256 -> l2_inv (p j) = true.
Proof.
  rw /live. intros Hl Hj. destruct (l2_inv (p j)) eqn:E; [done|].
  assert (Z.to_nat j ∈ filter (fun j => l2_inv (p (Z.of_nat j)) = false) (seq 0 256)) as Hin.
  { apply list_elem_of_filter. rw Z2Nat.id; [lia|]. split; [done|]. apply elem_of_seq. lia. }
  destruct (filter _ _); [by apply not_elem_of_nil in Hin|done].
Qed.
Lemma live_pos p : live p <> 0 -> exists j, 0 <= j < 256 /\ l2_inv (p j) = false.
Proof.
  rw /live. intros Hl. destruct (filter (fun j => l2_inv (p (Z.of_nat j)) = false) (seq 0 256)) as [|j l] eqn:E; [done|].
  assert (j ∈ filter (fun j => l2_inv (p (Z.of_nat j)) = false) (seq 0 256)) as [? Hin]%list_elem_of_filter by (rw E; left).
  apply elem_of_seq in Hin. exists (Z.of_nat j). split; [lia|done].
Qed.
(** The entry of a page that is mapped is taken out. *)
Definition remove_entry (pt va : Z) (t : (Z -> Z) * (Z -> Z)) : PM unit :=
  _ ← (if Z.land (t.2 (pte_idx va)) MAP_PHYS =? 0 then on_vptes (pmap_pa_to_page (Z.land (t.1 (pte_idx va)) L2_ADDR_MASK)) (dl_rem (vpte_at pt (pte_idx va))) else mret tt);
  _ ← write_vflags pt (pte_idx va) 0;
  _ ← pmap_write_l2 pt (pte_idx va) L2_TYPE_INV;
  upd_page (pmap_va_to_page pt) (fun x => x <| reference_cnt ::= fun n => n - 1 |>).
Lemma remove_entry_run L s a v t pa fl p0 v0 :
  pmap_ok L s -> L a -> 0 <= v < 2 ^ 19 -> tab s a (v / 256) = Some t -> contents (page_table s t) = Table p0 v0 -> ent s t (v mod 256) = Some (pa, fl) ->
  wp (remove_entry (pmap_page_to_va t) (v * 4096) (p0, v0)) (fun _ s' =>
    repaged s s' t (reference_cnt (page_table s t) - 1) (Table (<[v mod 256 := L2_TYPE_INV]> p0) (<[v mod 256 := 0]> v0))
      (fun q => if decide (phys fl = false /\ q = pmap_pa_to_page pa) then list_remove1 (slot t (v mod 256)) (vpte_list (page_table s q)) else vpte_list (page_table s q))) s.
Proof using All.
  intros Hok Ha Hv Ht Hc He. destruct (user_page v Hv) as (_ & Epte & Hi & Hj).
  destruct (ok_tab _ _ Hok _ _ _ Ha Hi Ht) as [_ (Hm & Hf & _)].
  assert (Z.land (p0 (v mod 256)) L2_ADDR_MASK = pa /\ v0 (v mod 256) = fl) as [Epa Efl] by (rw /ent Hc in He; by destruct (l2_inv _); simplify_eq).
  rw /remove_entry Epte vpte_at_slot //. destruct (page_addr t Hm) as (_ & _ & _ & -> & _). cbn [fst snd]. rw Epa Efl phys_test.
  apply wp_bind, (wp_mono _ (fun _ s1 => repaged s s1 t (reference_cnt (page_table s t)) (Table p0 v0)
    (fun q => if decide (phys fl = false /\ q = pmap_pa_to_page pa) then list_remove1 (slot t (v mod 256)) (vpte_list (page_table s q)) else vpte_list (page_table s q)))).
  { destruct (phys fl) eqn:Eph; simpl.
    - apply wp_ret. split_and!; try done. intros q. destruct (decide (true = false /\ q = pmap_pa_to_page pa)) as [[? _]|_]; [done|].
      case_decide; subst; [|apply page_eta]. rw -Hc. apply page_eta.
    - destruct (ok_map _ _ Hok _ _ _ _ _ _ Ha Hi Ht Hj He Eph) as (p & -> & Hpm & Hpf & Hd & Hin). destruct (page_addr p Hpm) as (_ & _ & _ & _ & _ & ->).
      eapply wp_on_vptes; [done|by apply dl_rem_ok|].
      split_and!; try done. intros q. destruct Hd as [dd Hd]. assert (p <> t) by congruence. destruct (decide (q = p)) as [->|Hqp].
      + by rw set_page_eq !(decide_False (P := p = t)) // decide_True.
      + rw set_page_ne //. destruct (decide (false = false /\ q = p)) as [[_ ?]|_]; [done|]. case_decide; subst; [rw -Hc|]; apply page_eta. }
  intros _ s1 (Hp1 & Hl1 & Hpd & Hfq & Hfd & Hrg).
  assert (contents (page_table s1 t) = Table p0 v0) as Hc1 by (rw Hp1 /= decide_True //).
  apply wp_bind, (wp_write_vflags t _ _ p0 v0); [done..|].
  apply wp_bind, (wp_write_l2 t _ _ p0 (<[v mod 256 := 0]> v0)); [done|by rw !set_page_eq|]. apply wp_upd_page; [done|].
  split_and!; try done. intros q. destruct (decide (q = t)) as [->|Hne].
  - rw !set_page_eq Hp1 /=. by rw !(decide_True (P := t = t)).
  - rw !set_page_ne // Hp1. by rw !(decide_False (P := q = t)).
Qed.
Lemma removed_ok L s s' a v t pa fl p0 v0 :
  pmap_ok L s -> L a -> 0 <= v < 2 ^ 19 -> tab s a (v / 256) = Some t -> contents (page_table s t) = Table p0 v0 -> ent s t (v mod 256) = Some (pa, fl) ->
  repaged s s' t (reference_cnt (page_table s t) - 1) (Table (<[v mod 256 := L2_TYPE_INV]> p0) (<[v mod 256 := 0]> v0))
      (fun q => if decide (phys fl = false /\ q = pmap_pa_to_page pa) then list_remove1 (slot t (v mod 256)) (vpte_list (page_table s q)) else vpte_list (page_table s q)) ->
  pmap_ok L s' /\ quiet s s' /\ remapped L s s' a v None /\ (forall b k, tab s' b k = tab s b k) /\ free_page_queue s' = free_page_queue s.
Proof using All.
  intros Hok Ha Hv Ht Hc He Hrp. destruct (user_page v Hv) as (_ & _ & Hi & Hj).
  assert (l2_inv (p0 (v mod 256)) = false) as Hinv by (rw /ent Hc in He; by destruct (l2_inv _)).
  apply (repaged_ok L s s' a v t _ _ _ p0 v0 _ None Hok Ha Hv Ht Hc Hrp); rw ?l2_inv_inv ?Hinv; try done.
  - lia.
  - intros p Hpm Hpf. pose proof (ok_vnodup _ _ Hok p Hpm Hpf) as Hnd. destruct (decide (phys fl = false /\ p = pmap_pa_to_page pa)) as [[Eph Epq]|E].
    + split; [by apply NoDup_list_remove1|]. intros x. rw elem_of_list_remove1 //. naive_solver.
    + split; [done|]. intros x. split; [|naive_solver]. intros Hx. left. split; [done|]. intros ->. destruct E.
      destruct (ok_vpte _ _ Hok _ _ Hpm Hpf Hx) as (b & k & t' & j & fl' & Hb & Hk & Ht' & Hj' & He' & Eph & Es).
      apply slot_inj in Es as [<- <-]; [|done..]. rw He in He'. injection He' as -> ->. split; [done|]. by destruct (page_addr p Hpm) as (_ & _ & _ & _ & _ & ->).
  - intros p Hpm Hpf. rw /pv Ht He /= Nat.add_0_r /maps. destruct (decide (phys fl = false /\ p = pmap_pa_to_page pa)) as [[Eph Epq]|E].
    + rw decide_True //. destruct (ok_map _ _ Hok _ _ _ _ _ _ Ha Hi Ht Hj He Eph) as (q & Eq & Hqm & _ & _ & Hin).
      assert (p = q) as -> by (rw Epq Eq; by destruct (page_addr q Hqm) as (_ & _ & _ & _ & _ & ->)).
      rewrite <-(list_remove1_perm _ _ Hin) at 2. simpl. lia.
    + rw decide_False; [naive_solver|]. lia.
Qed.

(** A page table may become free. *)
Definition grows s s' : Prop :=
  (forall p, p ∈ free_page_queue s -> p ∈ free_page_queue s') /\ (forall p, p ∈ free_page_queue s' -> p ∈ free_page_queue s \/ ~ is_data s p) /\
  (length (free_page_queue s) <= length (free_page_queue s'))%nat.
Lemma drop_quiet s d i t : ~ is_data s t -> quiet s (drop_table s d i t).
Proof.
  intros Ht. split; try done; intros p Hpm Hpf Hd.
  - assert (p <> t) by congruence. rw /drop_table /set_page /=. reads. split_and!; try done. set_solver.
  - assert (p <> t) by (intros ->; apply Hpf; rw /drop_table /=; set_solver). split; [rw /drop_table /= in Hpf; set_solver|].
    destruct Hd as [dd Hd]. exists dd. rw -Hd /drop_table /set_page /=. by reads.
Qed.
Lemma pmap_remove_spec L s a v pa fl :
  pmap_ok L s -> L a -> 0 < v < 2 ^ 19 -> pv s a v = Some (pa, fl) ->
  wp (pmap_remove a (v * 4096)) (fun r s' => r = RVal 0 /\ pmap_ok L s' /\ quiet s s' /\ remapped L s s' a v None /\ grows s s' /\ (tight L s -> tight L s')) s.
Proof using All.
  intros Hok Ha Hv He. destruct (user_page v ltac:(lia)) as (Epde & Epte & Hi & Hj).
  rw /pmap_remove (proj2 (Z.eqb_neq _ 0)); [lia|]. destruct (word_of L s a v Hok Ha ltac:(lia)) as (d & Hd & Ew).
  apply wp_bind, (wp_l1_of _ d); [done|]. apply wp_bind, wp_gets. rw Ew.
  destruct (table_of L s a v Hok Ha ltac:(lia)) as [[_ ?]|(t & p0 & v0 & Hinv & Ht & Hm & Ept & Hc & Hpv)]; [congruence|].
  rw /l1_inv in Hinv. rw Hinv Ept. apply wp_bind, (wp_get_table t p0 v0); [done..|]. rw {1}Epte. cbn [fst snd].
  change (Z.land (p0 (v mod 256)) L2_TYPE_MASK =? L2_TYPE_INV) with (l2_inv (p0 (v mod 256))). destruct (l2_inv (p0 (v mod 256))) eqn:Einv; [congruence|].
  assert (ent s t (v mod 256) = Some (pa, fl)) as Hent by (by rw /pv Ht in He).
  pose proof (remove_entry_run L s a v t pa fl p0 v0 Hok Ha ltac:(lia) Ht Hc Hent) as Hrun.
  apply wp_bind. apply wp_bind_inv in Hrun. eapply wp_mono; [exact Hrun|]. intros [] s4 H4%wp_bind_inv.
  apply wp_bind. eapply wp_mono; [exact H4|]. intros [] s3 H3%wp_bind_inv.
  apply wp_bind. eapply wp_mono; [exact H3|]. intros [] s2 H2.
  apply wp_bind. eapply wp_mono; [exact H2|]. intros [] s1 Hrp. clear H2 H3 H4 Hrun.
  destruct (removed_ok L s s1 a v t pa fl p0 v0 Hok Ha ltac:(lia) Ht Hc Hent Hrp) as (Hok1 & Hq1 & Hre & Htab & Hfq).
  destruct (page_addr t Hm) as (_ & _ & _ & Evt & _). rw Evt Epde. apply wp_bind, wp_get_page; [done|].
  assert (~ is_data s t) as Hnd by (intros [dd ?]; congruence).
  destruct (Z.eqb_spec (reference_cnt (page_table s1 t)) 0) as [E0|]; apply wp_bind.
  all: assert (tab s1 a (v / 256) = Some t) as Ht1 by (by rw Htab); destruct (ok_tab _ _ Hok1 _ _ _ Ha Hi Ht1) as [_ (_ & Hf1 & p1 & v1 & Hc1 & Hrc & _)].
  2: { do 2 apply wp_ret. split_and!; try done; [rw /grows Hfq; split_and!; [naive_solver..|lia]|]. intros Htight.
    apply (tight_remapped L s s1 a v None); [done|lia|done|intros b k _ _; left; by apply Htab|]. intros _. destruct (live_pos p1) as (j & Hj' & Hl); [congruence|].
    exists (v / 256 * 256 + j). assert ((v / 256 * 256 + j) / 256 = v / 256 /\ (v / 256 * 256 + j) mod 256 = j) as [E1 E2] by (Z.div_mod_to_equations; lia).
    split_and!; [Z.div_mod_to_equations; lia..|]. rw /pv E1 E2 Ht1 /ent Hc1 Hl. done. }
  assert (forall j, 0 <= j < 256 -> ent s1 t j = None) as Hnone.
  { intros j Hj'. rw /ent Hc1 live_0_inv //. congruence. }
  assert (l1_table s1 a = Some d) as Hd1 by by rw (qu_l1 _ _ Hq1).
  apply wp_bind, wp_modify. rw /pmap_free_pagetable Evt. apply wp_bind, wp_kassert; [by apply bool_decide_true|].
  apply wp_bind, wp_upd_page; [done|]. apply wp_bind, wp_get_page; [done|].
  rw set_page_eq. replace (0 <? _) with false by (symmetry; apply Z.ltb_ge; simpl; lia).
  eapply wp_update; [by apply dl_add_tail_ok|]. apply wp_ret. split; [done|].
  change (setf _ _) with (drop_table s1 d (v / 256) t).
  assert (~ is_data s1 t) as Hnd1 by (intros [dd ?]; congruence).
  assert (remapped L s (drop_table s1 d (v / 256) t) a v None) as Hre'.
  { destruct Hre as [Hre1 Hre2]. split.
    + intros b w Hb Hw. rw -Hre1 // /pv (tab_drop_table L s1 Hok1 a) //. destruct (user_page w Hw) as (_ & _ & _ & Hjw).
      destruct (decide ((b, w / 256) = (a, v / 256))) as [E|].
      * injection E as -> ->. by rw Ht1 Hnone.
      * destruct (tab s1 b (w / 256)) as [t'|]; [|done]. apply ent_same. rw /drop_table /set_page /=. destruct (decide (t' = t)) as [->|]; by reads.
    + intros p Hpm Hpf Hd'. rw -Hre2 // /maps. do 3 f_equal. rw /drop_table /set_page /=. destruct (decide (p = t)) as [->|]; by reads. }
  split_and!; [by apply (drop_table_ok L s1 Hok1 a)|exact (quiet_trans _ _ _ Hq1 (drop_quiet s1 d (v / 256) t Hnd1))|done|..].
  - rw /grows /drop_table /= -Hfq length_app. split_and!; [set_solver| |lia]. intros p [?| ->%list_elem_of_singleton]%elem_of_app; [by left|by right].
  - intros Htight. apply (tight_remapped L s _ a v None); [done|lia|done|..].
    + intros b k Hb Hne. left. by rw (tab_drop_table L s1 Hok1 a) // decide_False // Htab.
    + by rw (tab_drop_table L s1 Hok1 a) // decide_True.
Qed.

Lemma pmap_remove_none L s a v : pmap_ok L s -> L a -> 0 < v < 2 ^ 19 -> pv s a v = None -> pmap_remove a (v * 4096) s = Ok (RErr EINVAL, s).
Proof using All.
  intros Hok Ha Hv Hnone. enough (wp (pmap_remove a (v * 4096)) (fun r s' => r = RErr EINVAL /\ s' = s) s) as (? & ? & -> & -> & ->)%wp_ok by done.
  destruct (user_page v ltac:(lia)) as (_ & Ej & _). rw /pmap_remove (proj2 (Z.eqb_neq _ 0)); [lia|].
  destruct (word_of L s a v Hok Ha ltac:(lia)) as (d & Hd & Ew). apply wp_bind, (wp_l1_of _ d); [done|].
  apply wp_bind, wp_gets. rw Ew. destruct (table_of L s a v Hok Ha ltac:(lia)) as [[Hinv Hpv]|(t & p0 & v0 & Hinv & _ & Hm & Ept & Hc & Hpv)].
  - rw /l1_inv in Hinv. rw Hinv. done.
  - rw /l1_inv in Hinv. rw Hinv Ept. apply wp_bind, (wp_get_table t p0 v0); [done..|]. rw Ej. cbn [fst snd]. rw Hnone /l2_inv in Hpv.
    by destruct (Z.land (p0 (v mod 256)) L2_TYPE_MASK =? L2_TYPE_INV).
Qed.

(** ** Changing the flags *)
Lemma pmap_protect_spec L s a v pa fl fl' :
  pmap_ok L s -> L a -> 0 < v < 2 ^ 19 -> pv s a v = Some (pa, fl) -> phys fl' = phys fl ->
  wp (pmap_protect a (v * 4096) fl') (fun r s' => r = RVal 0 /\ pmap_ok L s' /\ quiet s s' /\
    remapped L s s' a v (Some (pa, fl')) /\ free_page_queue s' = free_page_queue s /\ (tight L s -> tight L s') /\ (forall b k, tab s' b k = tab s b k)) s.
Proof using All.
  intros Hok Ha Hv He Hph. destruct (user_page v ltac:(lia)) as (_ & Epte & Hi & Hj).
  rw /pmap_protect (proj2 (Z.eqb_neq _ 0)); [lia|]. destruct (word_of L s a v Hok Ha ltac:(lia)) as (d & Hd & Ew).
  apply wp_bind, (wp_l1_of _ d); [done|]. apply wp_bind, wp_gets. rw Ew.
  destruct (table_of L s a v Hok Ha ltac:(lia)) as [[_ ?]|(t & p0 & v0 & Hinv & Ht & Hm & Ept & Hc & Hpv)]; [congruence|].
  rw /l1_inv in Hinv. rw Hinv Ept. apply wp_bind, (wp_get_table t p0 v0); [done..|]. rw Epte. cbn [fst snd].
  change (Z.land (p0 (v mod 256)) L2_TYPE_MASK =? L2_TYPE_INV) with (l2_inv (p0 (v mod 256))). destruct (l2_inv (p0 (v mod 256))) eqn:Einv; [congruence|].
  rw He in Hpv. injection Hpv as Epa Efl. rw -Epa.
  destruct (ok_tab _ _ Hok _ _ _ Ha Hi Ht) as [_ (_ & _ & p1 & v1 & Hc1 & _ & Hen)]. rw Hc in Hc1. injection Hc1 as <- <-.
  destruct (Hen _ Hj Einv) as (pa' & Ew' & Hal & Hu). destruct (entry_word pa' (v0 (v mod 256)) Hal Hu) as [Emask _]. rw -Ew' -Epa in Emask. subst pa'.
  destruct (entry_word pa fl' Hal Hu) as [Emask' Einv'].
  apply wp_bind, (wp_write_vflags t _ _ p0 v0); [done..|]. apply wp_bind, (wp_write_l2 t _ _ p0 (<[v mod 256 := fl']> v0)); [done|by rw !set_page_eq|].
  apply wp_ret. split; [done|]. set s' := set_page _ _ _.
  assert (ent s t (v mod 256) = Some (pa, fl)) as Hent by (by rw /pv Ht in He).
  destruct (repaged_ok L s s' a v t (Z.lor pa (pmap_calc_pa_bits fl')) fl' (reference_cnt (page_table s t)) p0 v0 (fun q => vpte_list (page_table s q)) (Some (pa, fl'))
    Hok Ha ltac:(lia) Ht Hc) as (? & ? & Hre & Htab & ?); [..|split_and!; try done]; rw ?Einv ?Einv'; try done.
  - split_and!; try done. intros q. rw /s'. destruct (decide (q = t)) as [->|]; [by rw !set_page_eq|]. rw !set_page_ne //. apply page_eta.
  - lia.
  - eauto.
  - by rw Emask'.
  - intros p Hpm Hpf. split; [by apply Hok|]. intros x. destruct (decide (x = slot t (v mod 256))) as [->|]; [|naive_solver]. split.
    + intros Hx. right. split; [done|]. destruct (ok_vpte _ _ Hok _ _ Hpm Hpf Hx) as (b & k & t' & j & fl2 & Hb & Hk & Ht' & Hj' & He' & Eph & Es).
      apply slot_inj in Es as [<- <-]; [|done..]. rw Hent in He'. injection He' as -> <-. exists fl'. split; congruence.
    + intros [[_ ?]|(_ & fl2 & [= E <-] & Eph)]; [done|]. rw Hph in Eph. destruct (ok_map _ _ Hok _ _ _ _ _ _ Ha Hi Ht Hj Hent Eph) as (q & Eq & _ & _ & _ & Hin).
      assert (p = q) as -> by lia. done.
  - intros p Hpm Hpf. rw He /maps /= Hph. done.
  - intros pa' fl2 [= <- <-] Eph. rw Hph in Eph. destruct (ok_map _ _ Hok _ _ _ _ _ _ Ha Hi Ht Hj Hent Eph) as (q & ? & ? & ? & ? & _). eauto.
  - intros Htight. apply (tight_remapped L s _ a v _ Htight ltac:(lia) Hre); [intros b k _ _; left; apply Htab|].
    intros _. exists v. split_and!; try lia. rw (proj1 Hre) //; [lia|]. by rw decide_True.
Qed.

(** ** Directories *)
Lemma pmap_create_spec L s a : pmap_ok L s -> ~ L a ->
  wp (pmap_create a) (fun r s' => (forall p, page_table s' p = page_table s p) /\ free_page_queue s' = free_page_queue s /\ regions s' = regions s /\
    if decide (free_pmappagedir_list s = []) then r = RVal (-1) /\ s' = s
    else r = RVal 0 /\ pmap_ok (fun b => L b \/ b = a) s' /\ (forall i, 0 <= i < 2048 -> tab s' a i = None) /\ (forall b i, L b -> tab s' b i = tab s b i)) s.
Proof using All.
  intros Hok Ha. apply wp_bind, wp_gets. destruct (free_pmappagedir_list s) as [|d l] eqn:E; simpl; [by apply wp_ret|].
  apply wp_bind. eapply wp_update; [by rw E|]. apply wp_bind, wp_modify, wp_bind, wp_modify, wp_ret. split_and!; try done.
  { exact (create_ok L s Hok a d l Ha E). }
  - intros i Hi. rw /tab. rw (_ : l1_word _ a i = L1_TYPE_INV); [|by rw l1_inv_inv]. rw /l1_word /= !fn_lookup_insert. destruct (Z.ltb_spec i 2048); [done|lia].
  - intros b i Hb. assert (b <> a) by (intros ->; done).
    apply tab_ext. rw /l1_word /=. reads. destruct (l1_table s b) as [e|] eqn:Ee; [|done]. destruct (ok_dir _ _ Hok b Hb) as (e' & Ee' & Hf).
    assert (e <> d); [|by reads]. rw E in Hf. intros ->. rw Ee in Ee'. injection Ee' as <-. set_solver.
Qed.
Lemma pmap_destroy_spec L s a : pmap_ok L s -> L a -> (forall i, 0 <= i < 2048 -> tab s a i = None) ->
  wp (pmap_destroy a) (fun _ s' => pmap_ok (fun b => L b /\ b <> a) s' /\ (forall p, page_table s' p = page_table s p) /\ free_page_queue s' = free_page_queue s /\
    regions s' = regions s /\ (forall b i, tab s' b i = tab s b i)) s.
Proof using All.
  intros Hok Ha Ht. destruct (ok_dir _ _ Hok a Ha) as (d & Ed & Hd). apply wp_bind, (wp_l1_of a d); [done|].
  eapply wp_update; [by apply dl_add_tail_ok|]. split_and!; try done. by apply destroy_ok.
Qed.
End ops.
