(* ===== verification/Vm.v ===== *)
(** * Vm: address spaces, page faults and memory mappings

    vm/pagefault.c, vm/as.c and vm/mmap.c, the walk of the page tables of
    boards/raspberry_pi_4/pmap.c that faults pages in, and stores of a process
    to its memory, with the handler of data aborts
    (boards/raspberry_pi_4/exception.c). *)

From S2P Require Import Prelude Ids MemRegion Pmap.
Import Ops.
Local Open Scope Z_scope.
Local Open Scope kernel_scope.

(** The masks of <sys/mman.h>, the privileges of <sys/privileges.h>, the number
    of entries of a page table, the
    first address that has a page table in user space, and the access
    permission bits of an entry. *)
Class VmConsts := {
  VM_FLAGS_MASK : Z;
  VM_PROT_MASK : Z;
  PRIV_VALLOC : Z;
  PRIV_VALLOCPHYS : Z;
  N_PAGETABLE_PTE : Z;
  VM_USER_BASE_PAGETABLE_ALIGNED : Z;
  L2_AP_MASK : Z }.
Definition MEM_MASK : Z := 0xF0000000.
Definition VM_SYSTEM_MASK : Z := Z.lor MEM_MASK (Z.lor MAP_COW MAP_USER).

(** The addresses [lo], [lo + step], ... below [hi]. *)
Definition upto (lo hi step : Z) : list Z := (fun k => lo + Z.of_nat k * step) <$> seq 0 (Z.to_nat ((hi - lo + step - 1) / step)).

Section vm.
Context `{Board, Mmu, VmConsts}.
Variable others : pmaps -> pmaps.

Definition on_regions {A} (m : M vm A) : PM A := fun s =>
  match m (regions s) with Ok (a, r) => Ok (a, s <| regions := r |>) | Panic => Panic | Fault => Fault end.

(** A loop that ends early when its body returns [false]. *)
Fixpoint while_ok {A} (l : list A) (body : A -> PM bool) : PM bool :=
  match l with
  | [] => mret true
  | x :: l' => b ← body x; if (b : bool) then while_ok l' body else mret false
  end.

(** ** vm/pagefault.c *)

(** [memcpy(dst, src, PAGE_SIZE)], of the pages at two physical addresses *)
Definition copy_page (dst src : Z) : PM unit :=
  x ← get_page (pmap_va_to_page (pmap_pa_to_va src));
  upd_page (pmap_va_to_page (pmap_pa_to_va dst)) (fun y => y <| contents := contents x |>).

Definition cow_copy (a : nat) (addr paddr page_flags : Z) : PM ret :=
  o ← alloc_page others;
  match o with
  | None => mret (RVal (-1))
  | Some p =>
    _ ← copy_page (pmap_page_to_pa p) paddr;
    let page_flags := Z.ldiff (Z.lor page_flags PROT_WRITE) MAP_COW in
    r ← pmap_enter others a addr (pmap_page_to_pa p) page_flags;
    if decide (r = RVal 0) then _ ← upd_page p (fun x => x <| reference_cnt ::= fun n => n + 1 |>); mret (RVal 0)
    else _ ← free_page p; mret (RVal (-1))
  end.
(** [a] is the address space of the current process. *)
Definition page_fault (a : nat) (addr access : Z) : PM ret :=
  let addr := ALIGN_DOWN addr PAGE_SIZE in
  o ← pmap_extract a addr;
  match o with
  | None => mret (RVal (-1))
  | Some (paddr, page_flags) =>
    if Z.land page_flags MAP_PHYS =? MAP_PHYS then mret (RVal (-1))
    else if negb (has access PROT_WRITE) then mret (RVal (-1))
    else if Z.land page_flags (Z.lor PROT_WRITE MAP_COW) =? PROT_WRITE then mret (RVal (-1))
    else if negb (Z.land page_flags (Z.lor PROT_WRITE MAP_COW) =? Z.lor PROT_WRITE MAP_COW) then mret (RVal (-1))
    else
      let p := pmap_pa_to_page paddr in
      x ← get_page p;
      _ ← kassert (pmap_page_to_pa p =? paddr);
      if 1 <? reference_cnt x then
        _ ← upd_page p (fun x => x <| reference_cnt ::= fun n => n - 1 |>);
        r ← pmap_remove a addr;
        if decide (r = RVal 0) then cow_copy a addr paddr page_flags else mret (RVal (-1))
      else if reference_cnt x =? 1 then
        r ← pmap_remove a addr;
        if decide (r = RVal 0) then
          r ← pmap_enter others a addr paddr (Z.ldiff (Z.lor page_flags PROT_WRITE) MAP_COW);
          if decide (r = RVal 0) then mret (RVal 0)
          else _ ← upd_page p (fun x => x <| reference_cnt ::= fun n => n - 1 |>); mret (RVal (-1))
        else mret (RVal (-1))
      else panic
  end.

(** [pmap_pagetable_walk]: the kernel address, or an error. The fault is one
    of the current process [cur], whatever address space is walked. *)
Definition pmap_pagetable_walk (cur a : nat) (access vaddr : Z) : PM (Z + errno) :=
  let bvaddr := ALIGN_DOWN vaddr PAGE_SIZE in
  let page_offset := vaddr mod PAGE_SIZE in
  o ← pmap_extract a bvaddr;
  match o with
  | None => mret (inr EFAULT)
  | Some (bpaddr, flags) =>
    if has access PROT_WRITE && negb (has flags PROT_WRITE) then mret (inr EFAULT)
    else if has access PROT_WRITE && has flags MAP_COW then
      r ← page_fault cur bvaddr access;
      if decide (r = RVal 0) then
        o ← pmap_extract a bvaddr;
        match o with
        | None => mret (inr EFAULT)
        | Some (bpaddr, _) => mret (inl (pmap_pa_to_va (wrap32 (bpaddr + page_offset))))
        end
      else mret (inr EFAULT)
    else mret (inl (pmap_pa_to_va (wrap32 (bpaddr + page_offset))))
  end.

(** ** vm/as.c *)
Definition create_address_space (a : nat) : PM ret :=
  r ← pmap_create a;
  if decide (r = RVal 0) then
    r ← on_regions (init_memregions a);
    if decide (r = RVal 0) then mret (RVal 0) else _ ← pmap_destroy a; mret (RErr ENOMEM)
  else mret (RErr ENOMEM).

Definition free_address_space (a : nat) : PM unit := _ ← pmap_destroy a; on_regions (memregion_free_all a).

(** The page at [va] is given back. *)
Definition cleanup_page (a : nat) (va : Z) : PM unit :=
  b ← pmap_is_page_present a va;
  if negb b then mret tt
  else
    o ← pmap_extract a va;
    match o with
    | None => mret tt
    | Some (pa, flags) =>
      r ← pmap_remove a va;
      if decide (r = RVal 0) then
        if Z.land flags MAP_PHYS =? MAP_PHYS then mret tt
        else
          let p := pmap_pa_to_page pa in
          _ ← upd_page p (fun x => x <| reference_cnt ::= fun n => n - 1 |>);
          x ← get_page p;
          if reference_cnt x =? 0 then free_page p else mret tt
      else mret tt
    end.
Definition cleanup_table (a : nat) (vpt : Z) : PM unit :=
  b ← pmap_is_pagetable_present a vpt;
  if negb b then mret tt else mfor (upto vpt (vpt + PAGE_SIZE * N_PAGETABLE_PTE) PAGE_SIZE) (cleanup_page a).
Definition cleanup_address_space (a : nat) : PM ret :=
  _ ← mfor (upto VM_USER_BASE_PAGETABLE_ALIGNED (VM_USER_CEILING + 1) (PAGE_SIZE * N_PAGETABLE_PTE)) (cleanup_table a);
  _ ← on_regions (memregion_free_all a);
  r ← on_regions (init_memregions a);
  if decide (r = RVal 0) then mret (RVal 0) else mret (RErr ENOMEM).

(** [false]: goto cleanup *)
Definition fork_page (new old : nat) (va : Z) : PM bool :=
  b ← pmap_is_page_present old va;
  if negb b then mret true
  else
    o ← pmap_extract old va;
    match o with
    | None => mret false
    | Some (pa, flags) =>
      if negb (Z.land flags MAP_PHYS =? MAP_PHYS) && has flags PROT_WRITE then
        let flags := Z.lor flags MAP_COW in
        r ← pmap_protect old va flags;
        if decide (r = RVal 0) then
          r ← pmap_enter others new va pa flags;
          if decide (r = RVal 0) then _ ← upd_page (pmap_pa_to_page pa) (fun x => x <| reference_cnt ::= fun n => n + 1 |>); mret true
          else mret false
        else mret false
      else if negb (Z.land flags MAP_PHYS =? MAP_PHYS) then
        r ← pmap_enter others new va pa flags;
        if decide (r = RVal 0) then _ ← upd_page (pmap_pa_to_page pa) (fun x => x <| reference_cnt ::= fun n => n + 1 |>); mret true
        else mret false
      else
        r ← pmap_enter others new va pa (Z.lor (Z.lor MAP_PHYS PROT_READ) PROT_WRITE);
        mret (bool_decide (r = RVal 0))
    end.
Definition fork_table (new old : nat) (vpt : Z) : PM bool :=
  b ← pmap_is_pagetable_present old vpt;
  if negb b then mret true else while_ok (upto vpt (vpt + PAGE_SIZE * N_PAGETABLE_PTE) PAGE_SIZE) (fork_page new old).
Definition fork_address_space (new old : nat) : PM ret :=
  r ← pmap_create new;
  if decide (r = RVal 0) then
    r ← on_regions (fork_memregions new old);
    if decide (r = RVal 0) then
      b ← while_ok (upto VM_USER_BASE_PAGETABLE_ALIGNED VM_USER_CEILING (PAGE_SIZE * N_PAGETABLE_PTE)) (fork_table new old);
      if (b : bool) then mret (RVal 0)
      else _ ← cleanup_address_space new; _ ← free_address_space new; mret (RVal (-1))
    else _ ← pmap_destroy new; _ ← free_address_space new; mret (RVal (-1))
  else mret (RVal (-1)).

(** ** vm/mmap.c *)

(** The loops of [sys_mmap]: [inr va]: goto cleanup, at [va]. *)
Fixpoint mmap_phys (a : nat) (l : list Z) (pa flags : Z) : PM (unit + Z) :=
  match l with
  | [] => mret (inl tt)
  | va :: l' =>
    r ← pmap_enter others a va pa flags;
    if decide (r = RVal 0) then mmap_phys a l' (wrap32 (pa + PAGE_SIZE)) flags else mret (inr va)
  end.
Fixpoint mmap_anon (a : nat) (l : list Z) (flags : Z) : PM (unit + Z) :=
  match l with
  | [] => mret (inl tt)
  | va :: l' =>
    o ← alloc_page others;
    match o with
    | None => mret (inr va)
    | Some p =>
      r ← pmap_enter others a va (pmap_page_to_pa p) flags;
      if decide (r = RVal 0) then _ ← upd_page p (fun x => x <| reference_cnt := 1 |>); mmap_anon a l' flags
      else mret (inr va)
    end
  end.
Definition mmap_undo (a : nat) (phys : bool) (va : Z) : PM unit :=
  o ← pmap_extract a va;
  match o with
  | None => mret tt
  | Some (paddr, _) => _ ← (if phys then mret tt else free_page (pmap_pa_to_page paddr)); _ ← pmap_remove a va; mret tt
  end.
(** The address; [None]: MAP_FAILED. [c]: the credentials of the process *)
Definition sys_mmap (c : Cred) (a : nat) (addr len prot flags offset : Z) : PM (option Z) :=
  let flags := Z.land flags VM_FLAGS_MASK in
  let prot := Z.land prot VM_PROT_MASK in
  let privileges := if has flags MAP_PHYS then Z.lor PRIV_VALLOC PRIV_VALLOCPHYS else PRIV_VALLOC in
  if decide (check_privileges c privileges = RVal 0) then
    let addr := ALIGN_DOWN addr PAGE_SIZE in
    let len := ALIGN_UP len PAGE_SIZE in
    let offset := offset - Z.rem offset PAGE_SIZE in
    let flags := Z.lor (Z.lor (Z.ldiff flags VM_SYSTEM_MASK) MAP_USER) prot in
    o ← on_regions (memregion_create a addr len flags MR_TYPE_ALLOC);
    match o with
    | None => mret None
    | Some x =>
      addr ← gets (fun s => base_addr (mr (regions s) x));
      let l := upto addr (wrap32 (addr + len)) PAGE_SIZE in
      r ← (if has flags MAP_PHYS then mmap_phys a l (wrap32 offset) flags else mmap_anon a l flags);
      match r with
      | inl _ => mret (Some addr)
      | inr ceiling =>
        _ ← mfor (upto addr ceiling PAGE_SIZE) (mmap_undo a (has flags MAP_PHYS));
        _ ← on_regions (memregion_free a addr len);
        mret None
      end
    end
  else mret None.
Definition sys_munmap (a : nat) (addr len : Z) : PM ret :=
  let addr := ALIGN_DOWN addr PAGE_SIZE in
  let len := ALIGN_UP len PAGE_SIZE in
  _ ← mfor (upto addr (wrap32 (addr + len)) PAGE_SIZE) (fun va => _ ← pmap_remove a va; mret tt);
  _ ← on_regions (memregion_free a addr len);
  mret (RVal 0).
(** [sys_mprotect] does nothing. *)
Definition sys_mprotect (a : nat) (addr len prot : Z) : PM ret := mret (RVal 0).
(** 0: there is no such page. *)
Definition sys_virtualtophysaddr (c : Cred) (a : nat) (addr : Z) : PM Z :=
  let va := ALIGN_DOWN addr PAGE_SIZE in
  if decide (check_privileges c PRIV_VALLOCPHYS = RVal 0) then
    b ← pmap_is_page_present a va;
    if negb b then mret 0
    else o ← pmap_extract a va; mret (match o with Some (pa, _) => pa | None => 0 end)
  else mret 0.

(** ** Accesses of processes *)

(** The word that maps an address, as the processor finds it. *)
Definition hw_walk (s : pmaps) (a : nat) (va : Z) : option Z :=
  match l1_table s a with
  | None => None
  | Some d =>
    let w := pagedir_table s d (pde_idx va) in
    if Z.land w L1_TYPE_MASK =? L1_TYPE_INV then None
    else match contents (page_table s (pmap_pa_to_page (Z.land w L1_C_ADDR_MASK))) with
         | Table p _ => let e := p (pte_idx va) in if Z.land e L2_TYPE_MASK =? L2_TYPE_INV then None else Some e
         | Data _ => None
         end
  end.
Definition hw_writable (e : Z) : bool := Z.land e L2_AP_MASK =? L2_AP_RWKU.
(** A byte in the page that a word maps. *)
Definition hw_poke (e va b : Z) : PM unit :=
  upd_page (pmap_pa_to_page (Z.land e L2_ADDR_MASK))
    (fun x => match contents x with Data d => x <| contents := Data (<[va mod PAGE_SIZE := b]> d) |> | Table _ _ => x end).
(** A store to user memory: the processor writes, or calls
    [data_abort_handler] and tries again. [false]: [page_fault] returns an
    error, and the handler sends SIGSEGV and panics. *)
Definition user_store (a : nat) (va b : Z) : PM bool :=
  e ← gets (fun s => hw_walk s a va);
  match e with
  | Some e => if hw_writable e then _ ← hw_poke e va b; mret true
              else
                r ← page_fault a va PROT_WRITE;
                if decide (r = RVal 0) then
                  e ← gets (fun s => hw_walk s a va);
                  match e with
                  | Some e => if hw_writable e then _ ← hw_poke e va b; mret true else fault
                  | None => fault
                  end
                else mret false
  | None => r ← page_fault a va PROT_WRITE; if decide (r = RVal 0) then fault else mret false
  end.
(** A load, likewise: every page that is mapped may be read. *)
Definition user_load (a : nat) (va : Z) : PM (option Z) :=
  e ← gets (fun s => hw_walk s a va);
  match e with
  | Some e =>
    x ← get_page (pmap_pa_to_page (Z.land e L2_ADDR_MASK));
    match contents x with Data d => mret (Some (d (va mod PAGE_SIZE))) | Table _ _ => fault end
  | None => r ← page_fault a va PROT_READ; if decide (r = RVal 0) then fault else mret None
  end.
End vm.
