(* ===== verification/VmInv.v ===== *)
(** * VmInv: the memory of processes

    What the page tables give each process: a page holds bytes of its own or
    is a window on a physical address. The invariant says that a page frame
    that a process may write has no other user, and that the reference counts
    cover the mappings; this file has what it means and what the operations on
    one page do to it. *)

From S2P Require Import Prelude MemRegion MemRegionInv MemRegionFrame Pmap PmapInv PmapOps Vm.
Import Ops Inv.
Local Open Scope Z_scope.
Local Open Scope kernel_scope.

(** The layout of user space, and the access permissions of the processor:
    they are bits of their own. Protection bits are below [MAP_COW]. *)
Class VmLaws `{Board, Mmu, VmConsts} : Prop := {
  vl_pte : N_PAGETABLE_PTE = 256;
  vl_base : 0 <= VM_USER_BASE_PAGETABLE_ALIGNED <= VM_USER_BASE;
  vl_aligned : VM_USER_BASE_PAGETABLE_ALIGNED mod 2 ^ 20 = 0;
  vl_user : 0 < VM_USER_BASE;
  vl_ceiling : VM_USER_CEILING + 2 ^ 20 <= 2 ^ 31;
  vl_ap : Z.land L2_AP_RWKU L2_AP_MASK = L2_AP_RWKU /\ Z.land L2_AP_RKU L2_AP_MASK <> L2_AP_RWKU /\ 0 <= L2_AP_MASK < 4096;
  vl_ap_other : Forall (fun b => Z.land b L2_AP_MASK = 0) [L2_TYPE_S; L2_NX; L2_B; L2_C];
  vl_prot : Z.land VM_PROT_MASK MAP_COW = 0 }.

Section mem.
Context `{Board, Mmu, VmConsts}.
Implicit Types (s : pmaps) (L : nat -> Prop).
(** The flags of a mapping that the processor may write through. *)
Definition writable (fl : Z) : bool := has fl PROT_WRITE && negb (has fl MAP_COW).

(** A page of a process. *)
Inductive apage : Type := Anon (perm : Z) (d : Z -> Z) | Dev (perm pa : Z).
Definition mem s (a : nat) (v : Z) : option apage :=
  match pv s a v with
  | None => None
  | Some (pa, fl) =>
    if phys fl then Some (Dev fl pa)
    else match contents (page_table s (pmap_pa_to_page pa)) with Data d => Some (Anon (Z.ldiff fl MAP_COW) d) | Table _ _ => None end
  end.

Record mem_ok L s : Prop := {
  mo_pmap : pmap_ok L s;
  mo_tight : tight L s;
  mo_refs : forall p, (p < max_page)%nat -> p ∉ free_page_queue s -> is_data s p -> (0 < maps s p)%nat -> Z.of_nat (maps s p) <= reference_cnt (page_table s p);
  mo_cow : forall a v p fl, L a -> 0 <= v < 2 ^ 19 -> (p < max_page)%nat -> pv s a v = Some (Z.of_nat p * 4096, fl) -> phys fl = false -> writable fl = true -> maps s p = 1%nat }.
End mem.

Section pages.
Context `{Board, Mmu, !ArmFormat}.
Implicit Types (s : pmaps) (L : nat -> Prop).

(** Only a page of bytes changes. *)
Lemma touch_ok L s p f : pmap_ok L s -> is_data s p -> is_data (set_page p f s) p -> vpte_list (f (page_table s p)) = vpte_list (page_table s p) ->
  pmap_ok L (set_page p f s).
Proof.
  intros Hok [dd Hd] [dd' Hd'] Hv. rw set_page_eq in Hd'.
  assert (forall q, vpte_list (page_table (set_page p f s) q) = vpte_list (page_table s q)) as Hvl.
  { intros q. destruct (decide (q = p)) as [->|]; [by rw set_page_eq|by rw set_page_ne]. }
  assert (forall q j, ent (set_page p f s) q j = ent s q j) as Hent.
  { intros q j. destruct (decide (q = p)) as [->|]; [|by apply set_page_ent]. by rw /ent set_page_eq Hd' Hd. }
  assert (forall q, is_data s q -> is_data (set_page p f s) q) as Hdata.
  { intros q [e E]. destruct (decide (q = p)) as [->|]; [exists dd'; by rw set_page_eq|exists e; by rw set_page_ne]. }
  split; try apply Hok.
  - intros a i t Ha Hi Ht. destruct (ok_tab _ _ Hok a i t Ha Hi Ht) as [Hw (Hm & Hf & p0 & v0 & Hc & Hrest)]. split; [done|]. split_and!; try done.
    exists p0, v0. rw set_page_ne; [|done]. congruence.
  - intros a i t j pa fl Ha Hi Ht Hj. rw Hent. intros He Hph. destruct (ok_map _ _ Hok _ _ _ _ _ _ Ha Hi Ht Hj He Hph) as (q & ? & ? & ? & ? & ?).
    exists q. rw Hvl. split_and!; auto.
  - intros q x Hm Hf. rw Hvl. intros Hx. destruct (ok_vpte _ _ Hok q x Hm Hf Hx) as (a & i & t & j & fl & ?). exists a, i, t, j, fl. by rw Hent.
  - intros q. rw Hvl. apply Hok.
Qed.
(** A free page is taken for bytes. *)
Definition take_page (p : nat) s : pmaps := set_page p (fun _ => mkPage 0 [] (Data (fun _ => 0))) (s <| free_page_queue := list_remove1 p (free_page_queue s) |>).
Lemma take_page_ok L s p : pmap_ok L s -> p ∈ free_page_queue s ->
  pmap_ok L (take_page p s) /\ (forall b w, L b -> 0 <= w < 2 ^ 19 -> pv (take_page p s) b w = pv s b w) /\ (tight L s -> tight L (take_page p s)) /\
  (forall q, q <> p -> page_table (take_page p s) q = page_table s q) /\ page_table (take_page p s) p = mkPage 0 [] (Data (fun _ => 0)) /\
  (forall q, q ∈ free_page_queue (take_page p s) <-> q ∈ free_page_queue s /\ q <> p) /\
  length (free_page_queue s) = S (length (free_page_queue (take_page p s))).
Proof.
  intros Hok Hp. pose proof (ok_free _ _ Hok) as Hnd.
  assert (forall q, q <> p -> page_table (take_page p s) q = page_table s q) as Hpt by (intros q Hq; by rw /take_page set_page_ne).
  assert (page_table (take_page p s) p = mkPage 0 [] (Data (fun _ => 0))) as Hpp by by rw /take_page set_page_eq.
  assert (forall q, q ∈ free_page_queue (take_page p s) <-> q ∈ free_page_queue s /\ q <> p) as Hfr by (intros q; by apply elem_of_list_remove1).
  assert (forall a i t, L a -> 0 <= i < 2048 -> tab s a i = Some t -> t <> p) as Htp.
  { intros a i t Ha Hi Ht ->. by destruct (table_not_free L s Hok a i p Ha Hi Ht). }
  assert (forall a i t j, L a -> 0 <= i < 2048 -> tab s a i = Some t -> ent (take_page p s) t j = ent s t j) as Hent.
  { intros a i t j Ha Hi Ht. pose proof (Htp a i t Ha Hi Ht). apply ent_same. by rw Hpt. }
  assert (pmap_ok L (take_page p s)) as Hok'.
  { split; try apply Hok.
    - intros a i t Ha Hi Ht. destruct (ok_tab _ _ Hok a i t Ha Hi Ht) as [Hw (Hm & Hf & Hrest)]. split; [done|]. split_and!; [done|rw Hfr; naive_solver|].
      pose proof (Htp a i t Ha Hi Ht). by rw Hpt.
    - intros a i t j pa fl Ha Hi Ht Hj. rw (Hent a i) //. intros He Hph. destruct (ok_map _ _ Hok _ _ _ _ _ _ Ha Hi Ht Hj He Hph) as (q & ? & ? & Hqf & ? & ?).
      assert (q <> p) by (intros ->; done). exists q. rw /is_data Hpt //. split_and!; try done. rw Hfr. naive_solver.
    - intros q x Hm Hf. destruct (decide (q = p)) as [->|Hne]; [rw Hpp; set_solver|]. rw Hpt //. intros Hx.
      destruct (ok_vpte _ _ Hok q x Hm) as (a & i & t & j & fl & Ha & Hi & Ht & ?); [rw Hfr in Hf; naive_solver|done|]. exists a, i, t, j, fl. by rw (Hent a i).
    - intros q Hm Hf. destruct (decide (q = p)) as [->|Hne]; [rw Hpp; constructor|]. rw Hpt //. apply Hok; [done|]. rw Hfr in Hf. naive_solver.
    - by apply NoDup_list_remove1.
    - intros q [Hq _]%Hfr. by apply Hok. }
  assert (forall b w, L b -> 0 <= w < 2 ^ 19 -> pv (take_page p s) b w = pv s b w) as Hpv.
  { intros b w Hb Hw. destruct (user_page w Hw) as (_ & _ & Hi & _). rw /pv. change (tab (take_page p s) b (w / 256)) with (tab s b (w / 256)).
    destruct (tab s b (w / 256)) as [t|] eqn:E; [|done]. by apply (Hent b (w / 256)). }
  split_and!; try done.
  - intros Ht a i t Ha Hi E. destruct (Ht a i t Ha Hi E) as (v & Hv & Hvi & Hp'). exists v. by rw Hpv.
  - change (length (free_page_queue s) = S (length (list_remove1 p (free_page_queue s)))). rewrite <-(list_remove1_perm p (free_page_queue s)) at 1 by done. done.
Qed.
(** A page that is not mapped is given back. *)
Definition give_page (p : nat) (n : Z) s : pmaps := set_page p (fun x => x <| reference_cnt := n |>) s <| free_page_queue := free_page_queue s ++ [p] |>.
Lemma give_page_ok L s p n : pmap_ok L s -> (p < max_page)%nat -> p ∉ free_page_queue s -> is_data s p -> maps s p = 0%nat ->
  pmap_ok L (give_page p n s) /\ (forall b w, pv (give_page p n s) b w = pv s b w) /\ (tight L s -> tight L (give_page p n s)).
Proof.
  intros Hok Hm Hf [dd Hd] H0'.
  assert (forall q, contents (page_table (give_page p n s) q) = contents (page_table s q) /\ vpte_list (page_table (give_page p n s) q) = vpte_list (page_table s q)) as Hpt.
  { intros q. rw /give_page /set_page /=. destruct (decide (q = p)) as [->|]; by reads. }
  assert (forall q j, ent (give_page p n s) q j = ent s q j) as Hent by (intros q j; apply ent_same; by destruct (Hpt q)).
  assert (forall q, q ∉ free_page_queue (give_page p n s) <-> q ∉ free_page_queue s /\ q <> p) as Hfr by (intros q; rw /give_page /=; set_solver).
  assert (vpte_list (page_table s p) = []) as Hnil by by apply nil_length_inv.
  split_and!.
  - split; try apply Hok.
    + intros a i t Ha Hi Ht. destruct (ok_tab _ _ Hok a i t Ha Hi Ht) as [Hw (Htm & Htf & p0 & v0 & Hc & Hrest)]. split; [done|].
      assert (t <> p) by congruence. split_and!; [done|by rw Hfr|]. exists p0, v0. rw /give_page /set_page /=. by reads.
    + intros a i t j pa fl Ha Hi Ht Hj. rw Hent. intros He Hph. destruct (ok_map _ _ Hok _ _ _ _ _ _ Ha Hi Ht Hj He Hph) as (q & ? & ? & ? & ? & Hin).
      exists q. destruct (Hpt q) as [E1 E2]. rw /is_data E1 E2. split_and!; try done. apply Hfr. split; [done|]. intros ->. rw Hnil in Hin. set_solver.
    + intros q x Hqm [Hqf _]%Hfr. rw (proj2 (Hpt q)). intros Hx. destruct (ok_vpte _ _ Hok q x Hqm Hqf Hx) as (a & i & t & j & fl & ?). exists a, i, t, j, fl. by rw Hent.
    + intros q Hqm [Hqf _]%Hfr. rw (proj2 (Hpt q)). by apply Hok.
    + rw /give_page /=. apply NoDup_app. split_and!; [apply Hok|set_solver|apply NoDup_singleton].
    + intros q. rw /give_page /=. intros [?| ->%list_elem_of_singleton]%elem_of_app; [by apply Hok|done].
  - intros b w. rw /pv. change (tab (give_page p n s) b (w / 256)) with (tab s b (w / 256)). by destruct (tab s b _).
  - intros Ht a i t Ha Hi E. destruct (Ht a i t Ha Hi E) as (v & Hv & Hvi & Hp'). exists v. split_and!; try done; try lia.
    rw /pv. change (tab (give_page p n s) a (v / 256)) with (tab s a (v / 256)). rw /pv in Hp'. by destruct (tab s a _); rw ?Hent.
Qed.
End pages.

(** ** Flags *)
Section flags.
Context `{Board, Mmu, !ArmFormat}.
Lemma flag_bits : exists kw kp, 0 <= kw < 26 /\ 0 <= kp < 26 /\ kw <> kp /\
  (forall z, has z PROT_WRITE = Z.testbit z kw) /\ (forall z, phys z = Z.testbit z kp) /\ (forall z, has z MAP_COW = Z.testbit z 26) /\
  (forall z n, 0 <= n -> Z.testbit (Z.lor z MAP_COW) n = Z.testbit z n || bool_decide (n = 26)) /\
  (forall z n, 0 <= n -> Z.testbit (Z.ldiff z MAP_COW) n = Z.testbit z n && negb (bool_decide (n = 26))) /\
  (forall z n, 0 <= n -> Z.testbit (Z.lor z PROT_WRITE) n = Z.testbit z n || bool_decide (n = kw)).
Proof.
  destruct af_write as (kw & Hw & Ew), af_phys as (kp & Hp & Ep). pose proof af_distinct. exists kw, kp.
  assert (PROT_WRITE = bit kw) as Ew' by (by rw /bit Z.shiftl_1_l). assert (MAP_PHYS = bit kp) as Ep' by (by rw /bit Z.shiftl_1_l).
  assert (forall n m : Z, bool_decide (n = m) = bool_decide (m = n)) as Hsym by (intros n m; apply bool_decide_ext; lia).
  split_and!; try lia; try congruence.
  - intros z. rw Ew' has_bit //. lia.
  - intros z. rw -(has_bit z kp); [lia|]. by rw /phys /has Ep'.
  - intros z. by rw /MAP_COW has_bit.
  - intros z n Hn. by rw Z.lor_spec /MAP_COW bit_testbit // Hsym.
  - intros z n Hn. by rw Z.ldiff_spec /MAP_COW bit_testbit // Hsym.
  - intros z n Hn. rw Z.lor_spec Ew' bit_testbit; [lia|]. by rw Hsym.
Qed.
Ltac flags := let kw := fresh "kw" in let kp := fresh "kp" in
  destruct flag_bits as (kw & kp & ? & ? & ? & Hhw & Hhp & Hhc & Hlc & Hdc & Hlw); rw /writable ?Hhw ?Hhp ?Hhc;
  repeat first [rewrite ->Hlc by lia|rewrite ->Hdc by lia|rewrite ->Hlw by lia]; repeat case_bool_decide; try lia; rw ?orb_false_r ?andb_true_r ?orb_true_r ?andb_false_r //.
Lemma phys_cow fl : phys (Z.lor fl MAP_COW) = phys fl.
Proof. flags. Qed.
Lemma phys_uncow fl : phys (Z.ldiff (Z.lor fl PROT_WRITE) MAP_COW) = phys fl.
Proof. flags. Qed.
Lemma writable_cow fl : writable (Z.lor fl MAP_COW) = false.
Proof. flags. Qed.
Lemma writable_uncow fl : writable (Z.ldiff (Z.lor fl PROT_WRITE) MAP_COW) = true.
Proof. flags. Qed.
Lemma perm_cow fl : Z.ldiff (Z.lor fl MAP_COW) MAP_COW = Z.ldiff fl MAP_COW.
Proof.
  destruct flag_bits as (kw & kp & _ & _ & _ & _ & _ & _ & Hlc & Hdc & _). apply Z.bits_inj'. intros n Hn. rw !Hdc // Hlc //.
  case_bool_decide; by rw ?andb_false_r ?orb_false_r.
Qed.
Lemma perm_uncow fl : has fl PROT_WRITE = true -> Z.ldiff (Z.ldiff (Z.lor fl PROT_WRITE) MAP_COW) MAP_COW = Z.ldiff fl MAP_COW.
Proof.
  destruct flag_bits as (kw & kp & Hw & _ & _ & Hhw & _ & _ & _ & Hdc & Hlw). rw Hhw. intros E. apply Z.bits_inj'. intros n Hn. rw !Hdc // Hlw //.
  destruct (decide (n = kw)) as [->|]; [by rw E /= andb_diag|]. by rw (bool_decide_false (n = kw)) // orb_false_r -andb_assoc andb_diag.
Qed.
Lemma perm_write fl : has (Z.ldiff fl MAP_COW) PROT_WRITE = has fl PROT_WRITE.
Proof. flags. Qed.
Lemma phys_all fl : (Z.land fl MAP_PHYS =? MAP_PHYS) = phys fl.
Proof.
  destruct af_phys as (kp & Hp & Ep). rw /phys. destruct (Z.eqb_spec (Z.land fl MAP_PHYS) 0) as [E|E]; simpl.
  - rw E. apply Z.eqb_neq. rw Ep. lia.
  - apply Z.eqb_eq. rw Ep in E *. apply Z.bits_inj'. intros n Hn. rw Z.land_spec. destruct (decide (n = kp)) as [->|Hne].
    + rw Z.pow2_bits_true ?andb_true_r; [lia|]. destruct (Z.testbit fl kp) eqn:Et; [done|]. destruct E. apply Z.bits_inj'. intros m Hm. rw Z.land_spec Z.bits_0.
      destruct (decide (m = kp)) as [->|]; [by rw Et|]. rw Z.pow2_bits_false ?andb_false_r //. congruence.
    + rw Z.pow2_bits_false ?andb_false_r //. congruence.
Qed.

Lemma land_bit z k : 0 <= k -> Z.land z (2 ^ k) = if Z.testbit z k then 2 ^ k else 0.
Proof.
  intros Hk. apply Z.bits_inj'. intros n Hn. rw Z.land_spec. destruct (decide (n = k)) as [->|Hne].
  - rw Z.pow2_bits_true // andb_true_r. destruct (Z.testbit z k); [by rw Z.pow2_bits_true|by rw Z.bits_0].
  - assert (k <> n) by congruence. rw Z.pow2_bits_false // andb_false_r. destruct (Z.testbit z k); [by rw Z.pow2_bits_false|by rw Z.bits_0].
Qed.
Lemma cow_tests fl :
  (Z.land fl (Z.lor PROT_WRITE MAP_COW) =? PROT_WRITE) = writable fl /\
  (Z.land fl (Z.lor PROT_WRITE MAP_COW) =? Z.lor PROT_WRITE MAP_COW) = has fl PROT_WRITE && has fl MAP_COW.
Proof.
  destruct af_write as (kw & Hw & Ew). assert (PROT_WRITE = bit kw) as Ew' by (by rw /bit Z.shiftl_1_l).
  assert (has fl PROT_WRITE = Z.testbit fl kw) as Hw' by (rw Ew' has_bit //; lia). assert (has fl MAP_COW = Z.testbit fl 26) as Hc' by (by rw /MAP_COW has_bit).
  rw /writable Hw' Hc' Z.land_lor_distr_r /MAP_COW /bit Z.shiftl_1_l Ew !land_bit; [lia..|].
  assert (0 < 2 ^ kw < 2 ^ 26) as Hlt by (split; [lia|apply Z.pow_lt_mono_r; lia]).
  assert (Z.lor (2 ^ kw) (2 ^ 26) = 2 ^ kw + 2 ^ 26) as Elor.
  { rw Z.lor_comm Z.add_comm. apply (lor_low _ _ 26); [done|by rw Z.mod_same|lia]. }
  destruct (Z.testbit fl kw), (Z.testbit fl 26); rw ?Z.lor_0_r ?Z.lor_0_l ?Elor; split; cbn [andb negb]; first [apply Z.eqb_eq; lia|apply Z.eqb_neq; lia].
Qed.
End flags.
