(* ===== verification/VmPages.v ===== *)
(** * VmPages: operations on one page of a process

    Mapping, copying on a write, sharing at a fork and giving back one page:
    each changes that page of that process and keeps the invariant. *)

From S2P Require Import Prelude MemRegion MemRegionInv MemRegionFrame Pmap PmapInv PmapOps Vm VmInv.
Import Ops Inv.
Local Open Scope Z_scope.
Local Open Scope kernel_scope.

Section pages.
Context `{Board, Mmu, VmConsts, !ArmFormat}.
Implicit Types (s : pmaps) (L : nat -> Prop).

Lemma pv_page L s a v pa fl : pmap_ok L s -> L a -> 0 <= v < 2 ^ 19 -> pv s a v = Some (pa, fl) ->
  pa mod 4096 = 0 /\ u32 pa /\ (phys fl = false -> exists p, pa = Z.of_nat p * 4096 /\ pmap_pa_to_page pa = p /\
    (p < max_page)%nat /\ p ∉ free_page_queue s /\ is_data s p /\ (0 < maps s p)%nat).
Proof.
  intros Hok Ha Hv Hp. destruct (user_page v Hv) as (_ & _ & Hi & Hj). rw /pv in Hp. destruct (tab s a (v / 256)) as [t|] eqn:Et; [|done].
  destruct (ok_tab _ _ Hok _ _ _ Ha Hi Et) as [_ (_ & _ & p0 & v0 & Hc & _ & Hen)].
  assert (pa mod 4096 = 0 /\ u32 pa) as [? ?].
  { rw /ent Hc in Hp. destruct (l2_inv _) eqn:E; [done|]. injection Hp as Epa Efl. destruct (Hen _ Hj E) as (pa' & Ew & Hal & Hu).
    destruct (entry_word pa' (v0 (v mod 256)) Hal Hu) as [Em _]. rw -Ew in Em. by rw -Epa Em. }
  split_and!; try done. intros Hph. destruct (ok_map _ _ Hok _ _ _ _ _ _ Ha Hi Et Hj Hp Hph) as (p & -> & Hm & Hf & Hd & Hin). exists p.
  split_and!; try done; [by destruct (page_addr p Hm) as (_ & _ & _ & _ & _ & ->)|]. rw /maps. destruct (vpte_list _); [set_solver|simpl; lia].
Qed.
(** Two pages that map a page frame are two of its entries. *)
Lemma two_maps L s a v b w p fl fl' : pmap_ok L s -> L a -> L b -> 0 <= v < 2 ^ 19 -> 0 <= w < 2 ^ 19 -> (a, v) <> (b, w) -> (p < max_page)%nat ->
  pv s a v = Some (Z.of_nat p * 4096, fl) -> phys fl = false -> pv s b w = Some (Z.of_nat p * 4096, fl') -> phys fl' = false -> (2 <= maps s p)%nat.
Proof.
  intros Hok Ha Hb Hv Hw Hne Hm Hp Hph Hp' Hph'. destruct (user_page v Hv) as (_ & _ & Hi & Hj), (user_page w Hw) as (_ & _ & Hi' & Hj').
  rw /pv in Hp Hp'. destruct (tab s a (v / 256)) as [t|] eqn:Et; [|done]. destruct (tab s b (w / 256)) as [t'|] eqn:Et'; [|done].
  destruct (ok_map _ _ Hok _ _ _ _ _ _ Ha Hi Et Hj Hp Hph) as (q & Eq & _ & _ & _ & Hin). assert (q = p) as -> by lia.
  destruct (ok_map _ _ Hok _ _ _ _ _ _ Hb Hi' Et' Hj' Hp' Hph') as (q' & Eq' & _ & _ & _ & Hin'). assert (q' = p) as -> by lia.
  assert (slot t (v mod 256) <> slot t' (w mod 256)) as Hs.
  { intros [-> Ej]%slot_inj; [|done..]. destruct (ok_inj _ _ Hok _ _ _ _ _ Ha Hb Hi Hi' Et Et') as [-> Ei]. apply Hne. f_equal. apply page_indices_inj. congruence. }
  rw /maps. destruct (vpte_list (page_table s p)) as [|x [|y l]]; [set_solver|set_solver|simpl; lia].
Qed.
Lemma mem_same L s s' b w : pmap_ok L s -> L b -> 0 <= w < 2 ^ 19 -> pv s' b w = pv s b w ->
  (forall p fl, pv s b w = Some (Z.of_nat p * 4096, fl) -> phys fl = false -> (p < max_page)%nat -> p ∉ free_page_queue s -> is_data s p -> contents (page_table s' p) = contents (page_table s p)) ->
  mem s' b w = mem s b w.
Proof.
  intros Hok Hb Hw E Hc. rw /mem E. destruct (pv s b w) as [[pa fl]|] eqn:Ep; [|done]. destruct (phys fl) eqn:Eph; [done|].
  destruct (pv_page L s b w pa fl Hok Hb Hw Ep) as (_ & _ & Hpg). destruct (Hpg Eph) as (p & -> & -> & ? & ? & ? & _). by rw (Hc p fl).
Qed.
Lemma mem_None L s a v : pmap_ok L s -> L a -> 0 <= v < 2 ^ 19 -> mem s a v = None <-> pv s a v = None.
Proof.
  intros Hok Ha Hv. rw /mem. destruct (pv s a v) as [[pa fl]|] eqn:Ep; [|by split]. destruct (phys fl) eqn:Eph; [by split|].
  destruct (pv_page L s a v pa fl Hok Ha Hv Ep) as (_ & _ & Hpg). destruct (Hpg Eph) as (p & -> & -> & ? & ? & [dd ->] & _). by split.
Qed.
(** [s'] is [s] with another page at [v] of [a]. *)
Definition mem_change L s s' (a : nat) (v : Z) (e : option apage) : Prop :=
  forall b w, L b -> 0 <= w < 2 ^ 19 -> mem s' b w = if decide ((b, w) = (a, v)) then e else mem s b w.
Lemma remapped_mem L s s' a v e : pmap_ok L s -> L a -> 0 <= v < 2 ^ 19 -> quiet s s' -> remapped L s s' a v e -> mem_change L s s' a v (mem s' a v).
Proof.
  intros Hok Ha Hv [_ _ _ Hq _] [Hre _] b w Hb Hw. case_decide as E; [by injection E as -> ->|]. apply (mem_same L s s'); try done.
  - rw Hre // decide_False //.
  - intros p fl _ _ Hm Hf Hd. by apply Hq.
Qed.
Lemma maps_to_eq p fl : (p < max_page)%nat -> maps_to (Some (Z.of_nat p * 4096, fl)) p = if phys fl then 0%nat else 1%nat.
Proof. intros Hp. rw /maps_to. destruct (page_addr p Hp) as (_ & _ & _ & _ & _ & ->). destruct (decide (phys fl = false /\ p = p)) as [[-> _]|Hn]; [done|]. destruct (phys fl); naive_solver. Qed.
Lemma maps_to_ne p q fl : (p < max_page)%nat -> p <> q -> maps_to (Some (Z.of_nat p * 4096, fl)) q = 0%nat.
Proof. intros Hp Hne. rw /maps_to. destruct (page_addr p Hp) as (_ & _ & _ & _ & _ & ->). rw decide_False //. naive_solver. Qed.

(** ** Unmapping a page *)

(** The reference of the mapping may have been given up before. *)
Lemma remove_gen L s a v pa fl : pmap_ok L s -> tight L s -> L a -> 0 < v < 2 ^ 19 -> pv s a v = Some (pa, fl) ->
  (forall p, (p < max_page)%nat -> p ∉ free_page_queue s -> is_data s p -> (0 < maps s p)%nat -> Z.of_nat (maps s p) <= reference_cnt (page_table s p) + Z.of_nat (maps_to (Some (pa, fl)) p)) ->
  (forall a v p fl, L a -> 0 <= v < 2 ^ 19 -> (p < max_page)%nat -> pv s a v = Some (Z.of_nat p * 4096, fl) -> phys fl = false -> writable fl = true -> maps s p = 1%nat) ->
  wp (pmap_remove a (v * 4096)) (fun r s' => r = RVal 0 /\ mem_ok L s' /\ quiet s s' /\ remapped L s s' a v None /\ grows s s' /\ mem_change L s s' a v None) s.
Proof using All.
  intros Hok Ht Ha Hv Hp Hrefs Hcow. eapply wp_mono; [eapply (pmap_remove_spec L s a v pa fl); done|].
  intros r s' (-> & Hok' & Hq & Hre & Hg & Htt). split_and!; try done.
  - pose proof Hq as [_ _ _ Hqd Hqb]. destruct Hre as [Hpv Hmaps]. split; [done|auto|..].
    + intros p Hm Hf Hd Hpos. destruct (Hqb p Hm Hf Hd) as [Hf0 Hd0]. destruct (Hqd p Hm Hf0 Hd0) as (_ & _ & ->).
      specialize (Hmaps p Hm Hf0 Hd0). rw Nat.add_0_r Hp in Hmaps. specialize (Hrefs p Hm Hf0 Hd0). lia.
    + intros b w p fl' Hb Hw Hm. rw Hpv //. case_decide; [done|]. intros Hp' Hph Hwr. pose proof (Hcow b w p fl' Hb Hw Hm Hp' Hph Hwr) as H1'.
      destruct (pv_page L s b w _ fl' Hok Hb Hw Hp') as (_ & _ & Hpg). destruct (Hpg Hph) as (p' & Ep & _ & _ & Hf0 & Hd0 & _). assert (p' = p) as -> by lia.
      specialize (Hmaps p Hm Hf0 Hd0). rw Nat.add_0_r in Hmaps.
      destruct (pv_page L s' b w (Z.of_nat p * 4096) fl' Hok' Hb Hw) as (_ & _ & Hpg'); [rw Hpv // decide_False //|].
      destruct (Hpg' Hph) as (p' & Ep' & _ & _ & _ & _ & Hpos). assert (p' = p) as -> by lia. lia.
  - intros b w Hb Hw. rw (remapped_mem L s s' a v None) //; [lia|]. case_decide; [|done]. apply (mem_None L); [done|done|lia|].
    destruct Hre as [Hpv _]. rw Hpv //; [lia|]. by rw decide_True.
Qed.
Lemma remove_mem_ok L s a v pa fl : mem_ok L s -> L a -> 0 < v < 2 ^ 19 -> pv s a v = Some (pa, fl) ->
  wp (pmap_remove a (v * 4096)) (fun r s' => r = RVal 0 /\ mem_ok L s' /\ quiet s s' /\ remapped L s s' a v None /\ grows s s' /\ mem_change L s s' a v None) s.
Proof using All. intros [Hok Ht Hrefs Hcow] Ha Hv Hp. apply (remove_gen L s a v pa fl); try done. intros p Hm Hf Hd Hpos. specialize (Hrefs p Hm Hf Hd Hpos). lia. Qed.

(** ** A page of its own *)

(** The free page [p] has been taken, and holds [d]. *)
Definition fresh L s s1 (p : nat) (d : Z -> Z) : Prop :=
  pmap_ok L s1 /\ (forall b w, L b -> 0 <= w < 2 ^ 19 -> pv s1 b w = pv s b w) /\ (tight L s -> tight L s1) /\
  (forall q, q <> p -> page_table s1 q = page_table s q) /\ page_table s1 p = mkPage 0 [] (Data d) /\
  (forall q, q ∈ free_page_queue s1 <-> q ∈ free_page_queue s /\ q <> p) /\
  length (free_page_queue s) = S (length (free_page_queue s1)) /\ regions s1 = regions s.
Lemma fresh_enter others L s s1 p d a v fl : mem_ok L s -> p ∈ free_page_queue s -> fresh L s s1 p d ->
  L a -> 0 < v < 2 ^ 19 -> pv s a v = None -> phys fl = false -> (2 <= length (free_page_queue s))%nat ->
  wp (pmap_enter others a (v * 4096) (Z.of_nat p * 4096) fl) (fun r s2 => r = RVal 0 /\ reference_cnt (page_table s2 p) = 0 /\
    forall f, f (page_table s2 p) = (page_table s2 p) <| reference_cnt := 1 |> ->
      mem_ok L (set_page p f s2) /\ regions (set_page p f s2) = regions s /\ shrinks 2 s (set_page p f s2) /\
      mem_change L s (set_page p f s2) a v (Some (Anon (Z.ldiff fl MAP_COW) d)) /\ pv (set_page p f s2) a v = Some (Z.of_nat p * 4096, fl)) s1.
Proof using All.
  intros [Hok Ht Hrefs Hcow] Hpf (Hok1 & Hpv1 & Ht1 & Hpt1 & Hpp1 & Hfr1 & Hlen1 & Hrg1) Ha Hv Hnone Hph Hfree.
  pose proof (ok_free_max _ _ Hok p Hpf) as Hpm. destruct (page_addr p Hpm) as (_ & _ & _ & _ & _ & Epp).
  assert (is_data s1 p) as Hd1 by (exists d; by rw Hpp1). assert (p ∉ free_page_queue s1) as Hpf1 by (rw Hfr1; naive_solver).
  eapply wp_mono; [eapply (pmap_enter_spec others L s1 a v (Z.of_nat p * 4096) fl); try done|].
  { rw Hpv1 //. lia. }
  { split_and!; [by rw Z.mod_mul|rw /u32; pose proof af_ram; lia|]. intros _. exists p. done. }
  { intros _ E. rw E in Hlen1. simpl in Hlen1. lia. }
  intros r s2 (-> & Hok2 & Hq2 & [Hpv2 Hmaps2] & [Hsh2 Hle2] & Htt2 & _). split; [done|].
  pose proof Hq2 as [Hrg2 _ _ Hqd2 Hqb2]. destruct (Hqd2 p Hpm Hpf1 Hd1) as (Hpf2 & Hc2 & Hr2). split; [by rw Hr2 Hpp1|]. intros f Hf. set s3 := set_page p f s2.
  assert (is_data s2 p) as Hd2 by (exists d; by rw Hc2 Hpp1).
  assert (forall q, contents (page_table s3 q) = contents (page_table s2 q) /\ vpte_list (page_table s3 q) = vpte_list (page_table s2 q)) as Hpt3.
  { intros q. rw /s3. destruct (decide (q = p)) as [->|]; [by rw set_page_eq Hf|by rw set_page_ne]. }
  assert (pmap_ok L s3) as Hok3. { apply touch_ok; [done|done| |by rw Hf]. rw /is_data (proj1 (Hpt3 p)). done. }
  assert (forall b w, pv s3 b w = pv s2 b w) as Hpv3.
  { intros b w. rw /pv. change (tab s3 b (w / 256)) with (tab s2 b (w / 256)). destruct (tab s2 b _); [|done]. apply ent_same, Hpt3. }
  assert (forall q, maps s3 q = maps s2 q) as Hm3 by (intros q; by rw /maps (proj2 (Hpt3 q))).
  assert (forall q, (q < max_page)%nat -> q ∉ free_page_queue s1 -> is_data s1 q -> maps s2 q = (maps s1 q + (if decide (q = p) then 1 else 0))%nat) as Hmm.
  { intros q Hq Hqf Hqd. specialize (Hmaps2 q Hq Hqf Hqd). rw Hpv1 // in Hmaps2; [lia|]. rw Hnone in Hmaps2. change (maps_to None q) with 0%nat in Hmaps2.
    destruct (decide (q = p)) as [->|Hne]; [rw maps_to_eq // Hph in Hmaps2; lia|]. rw maps_to_ne // in Hmaps2; [congruence|lia]. }
  assert (maps s1 p = 0%nat) as Hm1 by (by rw /maps Hpp1).
  assert (forall q, (q < max_page)%nat -> q ∉ free_page_queue s2 -> is_data s2 q -> q <> p ->
    q ∉ free_page_queue s /\ is_data s q /\ maps s2 q = maps s q /\ reference_cnt (page_table s2 q) = reference_cnt (page_table s q) /\
    contents (page_table s2 q) = contents (page_table s q)) as Hold.
  { intros q Hq Hqf Hqd Hne. destruct (Hqb2 q Hq Hqf Hqd) as [Hqf1 Hqd1]. destruct (Hqd2 q Hq Hqf1 Hqd1) as (_ & -> & ->). rw Hmm // decide_False // Nat.add_0_r.
    rw /is_data /maps Hpt1 // in Hqd1 *. rw Hfr1 in Hqf1. split_and!; try done. naive_solver. }
  split_and!.
  - split; [done| | |].
    + intros b i t Hb Hi E. destruct (Htt2 (Ht1 Ht) b i t Hb Hi E) as (w & ? & ? & ?). exists w. by rw Hpv3.
    + intros q Hq Hqf [dd Hqd]. rw Hm3. destruct (decide (q = p)) as [->|Hne].
      * rw Hmm // decide_True // Hm1 /s3 set_page_eq Hf /=. lia.
      * rw (proj1 (Hpt3 q)) in Hqd. destruct (Hold q Hq Hqf) as (? & ? & -> & Er & _); [by exists dd|done|]. rw /s3 set_page_ne // Er. auto.
    + intros b w q fl' Hb Hw Hq. rw Hpv3 Hm3 Hpv2 //. case_decide as E.
      * intros [= Epq <-] _ _. assert (p = q) as <- by lia. by rw Hmm // decide_True // Hm1.
      * rw Hpv1 //. intros Hp' Hph' Hwr. destruct (pv_page L s b w _ fl' Hok Hb Hw Hp') as (_ & _ & Hpg). destruct (Hpg Hph') as (q' & Eq & _ & _ & Hqf & Hqd & _).
        assert (q' = q) as -> by lia. assert (q <> p) by (intros ->; done). assert (q ∉ free_page_queue s1) by (rw Hfr1; naive_solver).
        assert (is_data s1 q) by by rw /is_data Hpt1. rw Hmm // decide_False // Nat.add_0_r /maps Hpt1 //. by apply (Hcow b w q fl').
  - by rw -Hrg1 -Hrg2.
  - split; [|change (free_page_queue s3) with (free_page_queue s2); lia]. intros q Hq%Hsh2. rw Hfr1 in Hq. naive_solver.
  - intros b w Hb Hw. case_decide as E.
    + injection E as -> ->. rw /mem Hpv3 Hpv2 // decide_True // Hph. rw Epp (proj1 (Hpt3 p)) Hc2 Hpp1. done.
    + apply (mem_same L s s3); try done; [rw Hpv3 Hpv2 // decide_False // Hpv1 //|]. intros q fl' _ _ Hq Hqf Hqd. assert (q <> p) by (intros ->; done).
      rw (proj1 (Hpt3 q)). rw -(Hpt1 q) //. apply Hqd2; [done|rw Hfr1; naive_solver|by rw /is_data Hpt1].
  - rw Hpv3 Hpv2 //; [lia|]. by rw decide_True.
Qed.

Lemma take_fresh L s p : mem_ok L s -> p ∈ free_page_queue s -> fresh L s (take_page p s) p (fun _ => 0).
Proof using All. intros [Hok _ _ _] Hp. destruct (take_page_ok L s p Hok Hp) as (? & ? & ? & ? & ? & ? & ?). by split_and!. Qed.
Lemma some_free L s : mem_ok L s -> free_page_queue s <> [] -> exists p, last (free_page_queue s) = Some p /\ p ∈ free_page_queue s /\ (p < max_page)%nat.
Proof using All.
  intros [Hok _ _ _] Hne. destruct (last (free_page_queue s)) as [p|] eqn:El; [|by apply last_None in El]. exists p. split; [done|]. by apply (last_in_free L).
Qed.
(** A page of zeros *)
Lemma anon_page_ok others L s a v fl : mem_ok L s -> L a -> 0 < v < 2 ^ 19 -> pv s a v = None -> phys fl = false -> (2 <= length (free_page_queue s))%nat ->
  wp (alloc_page others) (fun o s1 => exists p, o = Some p /\ (p < max_page)%nat /\ wp (pmap_enter others a (v * 4096) (pmap_page_to_pa p) fl) (fun r s2 => r = RVal 0 /\
    let s' := set_page p (fun x => x <| reference_cnt := 1 |>) s2 in
    mem_ok L s' /\ regions s' = regions s /\ shrinks 2 s s' /\ mem_change L s s' a v (Some (Anon (Z.ldiff fl MAP_COW) (fun _ => 0)))) s1) s.
Proof using All.
  intros Hok Ha Hv Hnone Hph Hfree. destruct (some_free L s Hok) as (p & El & Hpf & Hpm); [by intros E; rw E /= in Hfree; lia|].
  apply (wp_alloc_page others p); [done..|]. exists p. split_and!; [done|done|]. destruct (page_addr p Hpm) as (-> & _).
  eapply wp_mono; [eapply (fresh_enter others L s (take_page p s) p (fun _ => 0)); try done; by apply take_fresh|].
  intros r s2 (-> & _ & Hs). split; [done|]. destruct (Hs (fun x => x <| reference_cnt := 1 |>) eq_refl) as (? & ? & ? & ? & _). by split_and!.
Qed.

(** ** Copying on a write *)
Definition uncow (fl : Z) : Z := Z.ldiff (Z.lor fl PROT_WRITE) MAP_COW.
Lemma cow_copy_ok others L s a v p d fl : mem_ok L s -> L a -> 0 < v < 2 ^ 19 -> pv s a v = None -> phys fl = false -> (2 <= length (free_page_queue s))%nat ->
  (p < max_page)%nat -> p ∉ free_page_queue s -> contents (page_table s p) = Data d ->
  wp (cow_copy others a (v * 4096) (Z.of_nat p * 4096) fl) (fun r s' => r = RVal 0 /\ mem_ok L s' /\ regions s' = regions s /\
    mem_change L s s' a v (Some (Anon (Z.ldiff (uncow fl) MAP_COW) d)) /\ exists pa, pv s' a v = Some (pa, uncow fl)) s.
Proof using All.
  intros Hok Ha Hv Hnone Hph Hfree Hpm Hpf Hpd. destruct (some_free L s Hok) as (q & El & Hqf & Hqm); [by intros E; rw E /= in Hfree; lia|].
  destruct (take_fresh L s q Hok Hqf) as (Hok1 & Hpv1 & Ht1 & Hpt1 & Hpp1 & Hfr1 & Hlen1 & Hrg1).
  apply wp_bind, (wp_alloc_page others q); [done..|]. change (set_page q _ _) with (take_page q s). set s1 := take_page q s in Hok1 Hpv1 Ht1 Hpt1 Hpp1 Hfr1 Hlen1 Hrg1 |- *.
  assert (p <> q) by (intros ->; done). destruct (page_addr q Hqm) as (Eq1 & Eq2 & _ & Eq4 & _). destruct (page_addr p Hpm) as (_ & Ep2 & _ & Ep4 & _).
  apply wp_bind. rw /copy_page Eq1 Ep2 Ep4 Eq2 Eq4. apply wp_bind, wp_get_page; [done|]. apply wp_upd_page; [done|]. set s2 := set_page q _ s1.
  assert (fresh L s s2 q d) as Hfresh.
  { assert (page_table s2 q = mkPage 0 [] (Data d)) as E2 by by rw /s2 set_page_eq Hpt1 // Hpd Hpp1.
    assert (pmap_ok L s2). { apply touch_ok; [done|by eexists; rw Hpp1|exists d; fold s2; by rw E2|done]. }
    assert (forall b w, L b -> 0 <= w < 2 ^ 19 -> pv s2 b w = pv s1 b w) as Hpv2.
    { intros b w Hb Hw. destruct (user_page w Hw) as (_ & _ & Hi & _). rw /pv. change (tab s2 b (w / 256)) with (tab s1 b (w / 256)).
      destruct (tab s1 b _) as [t|] eqn:Et; [|done]. apply set_page_ent. intros ->.
      destruct (ok_tab _ _ Hok1 _ _ _ Hb Hi Et) as [_ (_ & _ & ? & ? & Ec & _)]. by rw Hpp1 in Ec. }
    split_and!; try done.
    - intros b w Hb Hw. by rw Hpv2 // Hpv1.
    - intros Ht b i t Hb Hi Et. destruct (Ht1 Ht b i t Hb Hi Et) as (w & ? & ? & ?). exists w. by rw Hpv2.
    - intros x Hx. by rw /s2 set_page_ne // Hpt1. }
  apply wp_bind. eapply wp_mono; [eapply (fresh_enter others L s s2 q d a v (uncow fl)); try done; by rw /uncow phys_uncow|].
  intros r s3 (-> & Hr0 & Hs). destruct (decide (RVal 0 = RVal 0)) as [_|]; [|done]. apply wp_bind, wp_upd_page; [done|]. apply wp_ret.
  destruct (Hs (fun x => x <| reference_cnt ::= fun n => n + 1 |>)) as (? & ? & ? & ? & ?); [|split_and!; eauto].
  destruct (page_table s3 q) as [rc vl c] eqn:E. simpl in Hr0. by rw Hr0.
Qed.
(** The page keeps its address. *)
Lemma same_page_enter others L s a v p d fl : mem_ok L s -> L a -> 0 < v < 2 ^ 19 -> pv s a v = None -> phys fl = false -> (1 <= length (free_page_queue s))%nat ->
  (p < max_page)%nat -> p ∉ free_page_queue s -> contents (page_table s p) = Data d -> maps s p = 0%nat -> 1 <= reference_cnt (page_table s p) ->
  wp (pmap_enter others a (v * 4096) (Z.of_nat p * 4096) fl) (fun r s' => r = RVal 0 /\ mem_ok L s' /\ regions s' = regions s /\
    mem_change L s s' a v (Some (Anon (Z.ldiff fl MAP_COW) d)) /\ pv s' a v = Some (Z.of_nat p * 4096, fl)) s.
Proof using All.
  intros [Hok Ht Hrefs Hcow] Ha Hv Hnone Hph Hfree Hpm Hpf Hpd Hm0 Hr1. assert (is_data s p) as Hd by by exists d.
  eapply wp_mono; [eapply (pmap_enter_spec others L s a v (Z.of_nat p * 4096) fl); try done|].
  { split_and!; [by rw Z.mod_mul|rw /u32; pose proof af_ram; lia|]. intros _. exists p. done. }
  { intros _ E. rw E in Hfree. simpl in Hfree. lia. }
  intros r s' (-> & Hok' & Hq & Hre & Hsh & Htt & _). pose proof Hre as [Hpv Hmaps]. pose proof Hq as [Hrg _ _ Hqd Hqb].
  assert (pv s' a v = Some (Z.of_nat p * 4096, fl)) as Hpv' by (rw Hpv //; [lia|]; by rw decide_True).
  assert (forall q, (q < max_page)%nat -> q ∉ free_page_queue s -> is_data s q -> maps s' q = if decide (q = p) then 1%nat else maps s q) as Hmm.
  { intros q Hqm Hqf Hqd'. specialize (Hmaps q Hqm Hqf Hqd'). rw Hnone in Hmaps. change (maps_to None q) with 0%nat in Hmaps.
    destruct (decide (q = p)) as [->|]; [rw maps_to_eq // Hph in Hmaps; lia|]. rw maps_to_ne // in Hmaps; [congruence|lia]. }
  split_and!; try done.
  - split; [done|auto|..].
    + intros q Hqm Hqf Hqd' Hpos. destruct (Hqb q Hqm Hqf Hqd') as [Hf0 Hd0]. destruct (Hqd q Hqm Hf0 Hd0) as (_ & _ & ->).
      rw Hmm // in Hpos *. destruct (decide (q = p)) as [->|]; [done|auto].
    + intros b w q fl' Hb Hw Hqm. rw Hpv //. case_decide as E.
      * intros [= Epq <-] _ _. assert (q = p) as -> by lia. by rw Hmm // decide_True.
      * intros Hp' Hph' Hwr. destruct (pv_page L s b w _ fl' Hok Hb Hw Hp') as (_ & _ & Hpg). destruct (Hpg Hph') as (q' & Eq & _ & _ & Hqf & Hqd' & Hpos).
        assert (q' = q) as -> by lia. rw Hmm //. case_decide as E'; [done|]. by apply (Hcow b w q fl').
  - intros b w Hb Hw. rw (remapped_mem L s s' a v (Some (Z.of_nat p * 4096, fl))) //; [lia|]. case_decide; [|done].
    rw /mem Hpv' Hph. destruct (page_addr p Hpm) as (_ & _ & _ & _ & _ & ->). destruct (Hqd p Hpm Hpf Hd) as (_ & -> & _). by rw Hpd.
Qed.

Lemma align_page v z : v * 4096 <= z < (v + 1) * 4096 -> ALIGN_DOWN z PAGE_SIZE = v * 4096 /\ z mod PAGE_SIZE = z - v * 4096.
Proof using All. intros Hz. rw /ALIGN_DOWN af_page. Z.div_mod_to_equations. lia. Qed.
Lemma has_self : has PROT_WRITE PROT_WRITE = true.
Proof using All. destruct af_write as (k & Hk & ->). rw /has Z.land_diag. apply negb_true_iff, Z.eqb_neq. lia. Qed.
(** Only the count of a page changes. *)
Lemma refs_set L s p f : pmap_ok L s -> tight L s -> is_data s p -> contents (f (page_table s p)) = contents (page_table s p) -> vpte_list (f (page_table s p)) = vpte_list (page_table s p) ->
  let s1 := set_page p f s in
  pmap_ok L s1 /\ tight L s1 /\ (forall b w, pv s1 b w = pv s b w) /\ (forall q, maps s1 q = maps s q) /\ (forall b w, mem s1 b w = mem s b w) /\
  (forall q, contents (page_table s1 q) = contents (page_table s q)).
Proof using All.
  intros Hok Ht Hd Hfc Hfv s1. assert (forall q, contents (page_table s1 q) = contents (page_table s q) /\ vpte_list (page_table s1 q) = vpte_list (page_table s q)) as Hpt.
  { intros q. rw /s1. destruct (decide (q = p)) as [->|]; [by rw set_page_eq|by rw set_page_ne]. }
  assert (forall b w, pv s1 b w = pv s b w) as Hpv.
  { intros b w. rw /pv. change (tab s1 b (w / 256)) with (tab s b (w / 256)). destruct (tab s b _); [|done]. apply ent_same, Hpt. }
  split_and!; try done; [apply touch_ok; try done; rw /is_data (proj1 (Hpt p)); done|intros b i t Hb Hi Et|intros q; by rw /maps (proj2 (Hpt q))|intros b w|apply Hpt].
  - destruct (Ht b i t Hb Hi Et) as (w & ?). exists w. by rw Hpv.
  - rw /mem Hpv. destruct (pv s b w) as [[pa fl]|]; [|done]. by rw (proj1 (Hpt _)).
Qed.

(** The fault of a write: a page that is shared until it is written gets a
    frame of its own, and nobody sees a difference; all other faults are
    errors. *)
Lemma page_fault_ok others L s a v addr access : has access PROT_WRITE = true -> mem_ok L s -> L a -> 0 <= v < 2 ^ 19 -> (pv s a v <> None -> 0 < v) -> v * 4096 <= addr < (v + 1) * 4096 -> (2 <= length (free_page_queue s))%nat ->
  wp (page_fault others a addr access) (fun r s' =>
    match pv s a v with
    | Some (pa, fl) => if negb (phys fl) && has fl PROT_WRITE && has fl MAP_COW then
        r = RVal 0 /\ mem_ok L s' /\ regions s' = regions s /\ (forall b w, L b -> 0 <= w < 2 ^ 19 -> mem s' b w = mem s b w) /\ exists pa', pv s' a v = Some (pa', uncow fl)
      else r = RVal (-1) /\ s' = s
    | None => r = RVal (-1) /\ s' = s
    end) s.
Proof using All.
  intros Hself Hok Ha Hv Hv0 Hz Hfree. pose proof Hok as [Hpok Ht Hrefs Hcow]. rw /page_fault (proj1 (align_page v addr Hz)).
  apply wp_bind. rw /wp (pmap_extract_spec L s a v) //. fold (@wp pmaps ret).
  destruct (pv s a v) as [[pa fl]|] eqn:Hp; [|done]. assert (0 < v < 2 ^ 19) as Hv' by (split; [by apply Hv0|lia]). clear Hv Hv0. rename Hv' into Hv. rw phys_all Hself. destruct (phys fl) eqn:Hph; [done|]. cbn [negb andb].
  destruct (cow_tests fl) as [-> ->]. rw /writable. destruct (has fl PROT_WRITE) eqn:Hw, (has fl MAP_COW) eqn:Hc; cbn [negb andb]; try done.
  destruct (pv_page L s a v pa fl Hpok Ha ltac:(lia) Hp) as (_ & _ & Hpg). destruct (Hpg Hph) as (p & -> & -> & Hpm & Hpf & Hd & Hpos).
  destruct Hd as [d Hd]. assert (is_data s p) as Hd' by by exists d. specialize (Hrefs p Hpm Hpf Hd' Hpos) as Hrp.
  assert (mem s a v = Some (Anon (Z.ldiff fl MAP_COW) d)) as Hmem. { rw /mem Hp Hph. destruct (page_addr p Hpm) as (_ & _ & _ & _ & _ & ->). by rw Hd. }
  assert (Z.ldiff (uncow fl) MAP_COW = Z.ldiff fl MAP_COW) as Eperm by by apply perm_uncow.
  apply wp_bind, wp_get_page; [done|]. apply wp_bind, wp_kassert; [destruct (page_addr p Hpm) as (-> & _); apply Z.eqb_refl|].
  destruct (Z.ltb_spec 1 (reference_cnt (page_table s p))).
  - destruct (refs_set L s p (fun x : Page => x <| reference_cnt ::= fun n => n - 1 |>) Hpok Ht Hd') as (Hok1 & Ht1 & Hpv1 & Hm1 & Hme1 & Hc1); [done..|]. apply wp_bind, wp_upd_page; [done|]. set s1 := set_page p _ s in Hok1 Ht1 Hpv1 Hm1 Hme1 Hc1 |- *.
    apply wp_bind. eapply wp_mono; [eapply (remove_gen L s1 a v (Z.of_nat p * 4096) fl); try done|].
    { by rw Hpv1. }
    { intros q Hqm Hqf Hqd Hq. rw Hm1. assert (is_data s q) as Hqd' by by rw /is_data -(Hc1 q). specialize (Hrefs q Hqm Hqf Hqd'). rw Hm1 in Hq.
      destruct (decide (q = p)) as [->|]; [rw maps_to_eq // Hph /s1 set_page_eq /=; lia|]. rw maps_to_ne //; [congruence|]. rw /s1 set_page_ne //. lia. }
    { intros b w q fl' Hb Hw' Hq. rw Hpv1 Hm1. by apply Hcow. }
    intros r s2 (-> & Hok2 & Hq2 & [Hpv2 _] & (Hg1 & Hg2 & Hg3) & Hmc2). destruct (decide (RVal 0 = RVal 0)) as [_|]; [|done].
    destruct Hq2 as [Hrg2 _ _ Hqd2 _]. destruct (Hqd2 p Hpm Hpf) as (Hpf2 & Hpc2 & _); [rw /is_data Hc1; done|].
    eapply wp_mono; [eapply (cow_copy_ok others L s2 a v p d fl); try done|].
    { rw Hpv2 //; [lia|]. by rw decide_True. }
    { change (free_page_queue s1) with (free_page_queue s) in Hg3. lia. }
    { by rw Hpc2 Hc1. }
    intros r s3 (-> & Hok3 & Hrg3 & Hmc3 & Hpv3). split_and!; try done; [by rw Hrg3 Hrg2|]. intros b w Hb Hw'. rw Hmc3 //. case_decide as E.
    + injection E as -> ->. by rw Eperm Hmem.
    + rw Hmc2 // decide_False // Hme1 //.
  - assert (reference_cnt (page_table s p) = 1) as Hr1 by lia. rw Hr1 /=. apply wp_bind. eapply wp_mono; [by eapply (remove_mem_ok L s a v (Z.of_nat p * 4096) fl)|].
    intros r s1 (-> & Hok1 & Hq1 & [Hpv1 Hmaps1] & (Hg1 & Hg2 & Hg3) & Hmc1). destruct (decide (RVal 0 = RVal 0)) as [_|]; [|done].
    destruct Hq1 as [Hrg1 _ _ Hqd1 _]. destruct (Hqd1 p Hpm Hpf Hd') as (Hpf1 & Hpc1 & Hpr1).
    apply wp_bind. eapply wp_mono; [eapply (same_page_enter others L s1 a v p d (uncow fl)); try done|].
    { rw Hpv1 //; [lia|]. by rw decide_True. }
    { by rw /uncow phys_uncow. }
    { lia. }
    { by rw Hpc1. }
    { specialize (Hmaps1 p Hpm Hpf Hd'). rw Hp maps_to_eq // Hph in Hmaps1. simpl in Hmaps1. lia. }
    { rw Hpr1. lia. }
    intros r s2 (-> & Hok2 & Hrg2 & Hmc2 & Hpv2). destruct (decide (RVal 0 = RVal 0)) as [_|]; [|done]. apply wp_ret.
    split_and!; try done; [by rw Hrg2 Hrg1| |eauto]. intros b w Hb Hw'. rw Hmc2 //. case_decide as E.
    + injection E as -> ->. by rw Eperm Hmem.
    + rw Hmc1 // decide_False //.
Qed.
End pages.
