(* ===== verification/VmStore.v ===== *)
(** * VmStore: what a process sees when it writes to its memory *)

From S2P Require Import Prelude MemRegion MemRegionInv MemRegionFrame Pmap PmapInv PmapOps Vm VmInv VmPages.
Import Ops Inv.
Local Open Scope Z_scope.
Local Open Scope kernel_scope.

Section store.
Context `{Board, Mmu, VmConsts, !ArmFormat, !VmLaws}.
Implicit Types (s : pmaps) (L : nat -> Prop).

Lemma page_idx v z : 0 <= v < 2 ^ 19 -> v * 4096 <= z < (v + 1) * 4096 -> pde_idx z = v / 256 /\ pte_idx z = v mod 256.
Proof.
  intros Hv Hz. rw pde_idx_eq ?pte_idx_eq; [rw /u32; lia|]. assert (z / 4096 = v) as -> by (Z.div_mod_to_equations; lia).
  split; [|done]. change (2 ^ 20) with (4096 * 256). rw -Z.div_div //. by assert (z / 4096 = v) as -> by (Z.div_mod_to_equations; lia).
Qed.
(** What the processor finds. *)
Lemma hw_walk_pv L s a v z : pmap_ok L s -> L a -> 0 <= v < 2 ^ 19 -> v * 4096 <= z < (v + 1) * 4096 ->
  hw_walk s a z = match pv s a v with Some (pa, fl) => Some (Z.lor pa (pmap_calc_pa_bits fl)) | None => None end.
Proof.
  intros Hok Ha Hv Hz. destruct (page_idx v z Hv Hz) as [Ei Ej]. destruct (user_page v Hv) as (_ & _ & Hi & Hj).
  destruct (ok_dir _ _ Hok a Ha) as (d & Hd & _). rw /hw_walk Hd Ei Ej /pv.
  assert (pagedir_table s d (v / 256) = l1_word s a (v / 256)) as -> by (by rw /l1_word Hd). rw /tab.
  change (Z.land (l1_word s a (v / 256)) L1_TYPE_MASK =? L1_TYPE_INV) with (l1_inv (l1_word s a (v / 256))).
  destruct (l1_inv (l1_word s a (v / 256))) eqn:Einv; [done|].
  assert (tab s a (v / 256) = Some (pmap_pa_to_page (Z.land (l1_word s a (v / 256)) L1_C_ADDR_MASK))) as Et by by rw /tab Einv.
  set t := pmap_pa_to_page _ in Et |- *. destruct (ok_tab _ _ Hok _ _ _ Ha Hi Et) as [_ (_ & _ & p0 & v0 & Hc & _ & Hen)]. rw /ent Hc.
  change (Z.land (p0 (v mod 256)) L2_TYPE_MASK =? L2_TYPE_INV) with (l2_inv (p0 (v mod 256))). destruct (l2_inv _) eqn:E; [done|].
  destruct (Hen _ Hj E) as (pa & Ew & Hal & Hu). destruct (entry_word pa (v0 (v mod 256)) Hal Hu) as [Em _]. rw -Ew in Em. by rw Em Ew.
Qed.
Lemma hw_writable_eq pa fl : pa mod 4096 = 0 -> u32 pa -> hw_writable (Z.lor pa (pmap_calc_pa_bits fl)) = writable fl.
Proof.
  intros Hal Hu. rw /hw_writable Z.land_lor_distr_l. destruct vl_ap as (E1 & E2 & Hm).
  assert (Z.land pa L2_AP_MASK = 0) as ->.
  { apply Z.bits_inj'. intros n Hn. rw Z.land_spec Z.bits_0. destruct (Z.ltb_spec n 12).
    - by rw -(Z.mod_pow2_bits_low pa 12 n) ?Hal ?Z.bits_0.
    - rw (Z.bits_above_log2 L2_AP_MASK); [lia| |by rw andb_false_r]. destruct (Z.eq_dec L2_AP_MASK 0) as [->|]; [simpl; lia|].
      assert (Z.log2 L2_AP_MASK < 12); [|lia]. apply Z.log2_lt_pow2; lia. }
  rw Z.lor_0_l. pose proof vl_ap_other as Ho. rewrite ->!Forall_cons in Ho. destruct Ho as (ES & EN & EB & EC & _).
  assert (forall x, Z.land x L2_AP_MASK = 0 -> Z.land (cache_bits fl x) L2_AP_MASK = 0) as Hcb.
  { intros x Hx. rw /cache_bits. repeat case_match; try done; rw ?Z.land_lor_distr_l ?EB ?EC //. }
  assert (Z.land (cache_bits fl (Z.lor L2_C L2_B)) L2_AP_MASK = 0) as Hc1 by (apply Hcb; by rw Z.land_lor_distr_l EB EC).
  assert (Z.land (cache_bits fl 0) L2_AP_MASK = 0) as Hc0 by by apply Hcb.
  rw /pmap_calc_pa_bits. fold (writable fl).
  repeat match goal with |- context [if ?b then _ else _] => destruct b end; rw !Z.land_lor_distr_l ?ES ?EN ?Hc1 ?Hc0 ?E1 ?Z.lor_0_l ?Z.lor_0_r;
    first [apply Z.eqb_refl|by apply Z.eqb_neq].
Qed.

(** A byte is written through an entry that allows it: the page frame has no
    other user. *)
Lemma poke_ok L s a v z b p fl d : mem_ok L s -> L a -> 0 <= v < 2 ^ 19 -> v * 4096 <= z < (v + 1) * 4096 ->
  pv s a v = Some (Z.of_nat p * 4096, fl) -> phys fl = false -> writable fl = true -> (p < max_page)%nat -> contents (page_table s p) = Data d ->
  wp (hw_poke (Z.lor (Z.of_nat p * 4096) (pmap_calc_pa_bits fl)) z b) (fun _ s' => mem_ok L s' /\ regions s' = regions s /\
    mem_change L s s' a v (Some (Anon (Z.ldiff fl MAP_COW) (<[z - v * 4096 := b]> d)))) s.
Proof using All.
  intros Hok Ha Hv Hz Hp Hph Hwr Hpm Hd. pose proof Hok as [Hpok Ht Hrefs Hcow].
  destruct (pv_page L s a v _ fl Hpok Ha Hv Hp) as (Hal & Hu & _). destruct (entry_word _ fl Hal Hu) as [Ew _]. rw /hw_poke Ew.
  destruct (page_addr p Hpm) as (_ & _ & _ & _ & _ & Epp). rw Epp. apply wp_upd_page; [done|]. set s' := set_page p _ s.
  assert (page_table s' p = (page_table s p) <| contents := Data (<[z - v * 4096 := b]> d) |>) as E'.
  { rw /s' set_page_eq Hd. by rw (proj2 (align_page v z Hz)). }
  assert (forall q, q <> p -> page_table s' q = page_table s q) as Hne by (intros; by apply set_page_ne).
  assert (forall c w, pv s' c w = pv s c w) as Hpv.
  { intros c w. rw /pv. change (tab s' c (w / 256)) with (tab s c (w / 256)). destruct (tab s c _) as [t|]; [|done].
    destruct (decide (t = p)) as [->|]; [|by apply set_page_ent]. by rw /ent E' Hd. }
  assert (forall q, maps s' q = maps s q /\ reference_cnt (page_table s' q) = reference_cnt (page_table s q)) as Hmr.
  { intros q. rw /maps. destruct (decide (q = p)) as [->|]; [by rw E'|by rw Hne]. }
  split_and!; [|done|].
  - split.
    + apply touch_ok; [done|by exists d| |]. { exists (<[z - v * 4096 := b]> d). change (set_page p _ s) with s'. by rw E'. }
      rw Hd. done.
    + intros c i t Hc Hi Et. destruct (Ht c i t Hc Hi Et) as (w & ?). exists w. by rw Hpv.
    + intros q Hqm Hqf [dd Hqd]. destruct (Hmr q) as [-> ->]. apply Hrefs; [done..|]. destruct (decide (q = p)) as [->|]; [by exists d|exists dd; by rw -Hne].
    + intros c w q fl' Hc Hw Hq. rw Hpv (proj1 (Hmr q)). by apply Hcow.
  - intros c w Hc Hw. case_decide as E.
    + injection E as -> ->. by rw /mem Hpv Hp Hph Epp E'.
    + apply (mem_same L s s'); try done. intros q fl' Hq Eph Hqm Hqf Hqd. destruct (decide (q = p)) as [->|]; [|by rw Hne].
      pose proof (two_maps L s a v c w p fl fl' Hpok Ha Hc Hv Hw ltac:(congruence) Hpm Hp Hph Hq Eph) as H2'. rw (Hcow a v p fl) // in H2'. lia.
Qed.
(** A store to a page of a process changes that byte of that process, or is an
    error. *)
Lemma user_store_ok others L s a v z b : mem_ok L s -> L a -> 0 <= v < 2 ^ 19 -> (pv s a v <> None -> 0 < v) -> v * 4096 <= z < (v + 1) * 4096 ->
  (2 <= length (free_page_queue s))%nat -> (forall perm pa, mem s a v <> Some (Dev perm pa)) ->
  wp (user_store others a z b) (fun ok s' => mem_ok L s' /\ regions s' = regions s /\
    match mem s a v with
    | Some (Anon perm d) => if has perm PROT_WRITE then ok = true /\ mem_change L s s' a v (Some (Anon perm (<[z - v * 4096 := b]> d))) else ok = false /\ s' = s
    | _ => ok = false /\ s' = s
    end) s.
Proof using All.
  intros Hok Ha Hv Hv0 Hz Hfree Hdev. pose proof Hok as [Hpok Ht Hrefs Hcow]. pose proof (page_fault_ok others L s a v z PROT_WRITE has_self Hok Ha Hv Hv0 Hz Hfree) as Hpf.
  apply wp_bind, wp_gets. rw (hw_walk_pv L s a v z) //. destruct (pv s a v) as [[pa fl]|] eqn:Hp.
  2: { apply wp_bind. eapply wp_mono; [exact Hpf|]. intros r s' [-> ->]. apply wp_ret. by rw /mem Hp. }
  destruct (pv_page L s a v pa fl Hpok Ha Hv Hp) as (Hal & Hu & Hpg). rw hw_writable_eq //.
  destruct (phys fl) eqn:Hph; [exfalso; apply (Hdev fl pa); by rw /mem Hp Hph|]. destruct (Hpg eq_refl) as (p & -> & Epp & Hpm & Hpf' & [d Hd] & _).
  assert (mem s a v = Some (Anon (Z.ldiff fl MAP_COW) d)) as Hmem by (by rw /mem Hp Hph Epp Hd). rw Hmem perm_write.
  destruct (writable fl) eqn:Hwr.
  - apply wp_bind. eapply wp_mono; [by eapply (poke_ok L s a v z b p fl d)|]. intros _ s' (? & ? & ?). apply wp_ret. split_and!; try done.
    rw /writable in Hwr. destruct (has fl PROT_WRITE); done.
  - apply wp_bind. eapply wp_mono; [exact Hpf|]. intros r s1. rw /writable in Hwr. destruct (has fl PROT_WRITE) eqn:Ew, (has fl MAP_COW) eqn:Ec; cbn [negb andb] in *; try done.
    2,3: intros [-> ->]; apply wp_ret; done.
    intros (-> & Hok1 & Hrg1 & Hm1 & pa' & Hp1). destruct (decide (RVal 0 = RVal 0)) as [_|]; [|done].
    apply wp_bind, wp_gets. pose proof (mo_pmap _ _ Hok1) as Hpok1. rw (hw_walk_pv L s1 a v z) // Hp1.
    destruct (pv_page L s1 a v pa' (uncow fl) Hpok1 Ha Hv Hp1) as (Hal1 & Hu1 & Hpg1). rw hw_writable_eq // /uncow writable_uncow.
    destruct (Hpg1 ltac:(by rw /uncow phys_uncow)) as (q & -> & Epq & Hqm & _ & [d' Hd'] & _).
    assert (mem s1 a v = Some (Anon (Z.ldiff (uncow fl) MAP_COW) d')) as Hmem1 by (by rw /mem Hp1 /uncow phys_uncow Hph Epq Hd').
    rw Hm1 // Hmem in Hmem1. injection Hmem1 as Eperm <-.
    apply wp_bind. eapply wp_mono; [eapply (poke_ok L s1 a v z b q (uncow fl) d); try done; rw /uncow ?phys_uncow ?writable_uncow //|].
    intros _ s' (? & Hrg & Hmc). apply wp_ret. split_and!; try done; [by rw Hrg Hrg1|]. intros c w Hc Hw. rw Hmc // -Eperm. case_decide; [done|]. by apply Hm1.
Qed.
(** A load returns the byte that the process has there. *)
Lemma user_load_ok others L s a v z : mem_ok L s -> L a -> 0 <= v < 2 ^ 19 -> v * 4096 <= z < (v + 1) * 4096 -> (forall perm pa, mem s a v <> Some (Dev perm pa)) ->
  user_load others a z s = Ok (match mem s a v with Some (Anon _ d) => Some (d (z - v * 4096)) | _ => None end, s).
Proof using All.
  intros [Hok _ _ _] Ha Hv Hz Hdev. destruct (align_page v z Hz) as [Eal Emod]. rw /user_load. rw {1}/mbind {1}/M_bind {1}/gets (hw_walk_pv L s a v z) //. rw /mem in Hdev *.
  destruct (pv s a v) as [[pa fl]|] eqn:Hp.
  - destruct (pv_page L s a v pa fl Hok Ha Hv Hp) as (Hal & Hu & Hpg). destruct (phys fl) eqn:Hph; [by destruct (Hdev fl pa)|].
    destruct (Hpg eq_refl) as (p & -> & Epp & Hpm & Hpf & [d Hd] & _). destruct (entry_word (Z.of_nat p * 4096) fl Hal Hu) as [-> _].
    by rw Epp /get_page decide_True // {1}/mbind {1}/M_bind {1}/gets Hd Emod.
  - rw /page_fault Eal. rw {1}/mbind {1}/M_bind {1}/mbind {1}/M_bind (pmap_extract_spec L s a v) // Hp //.
Qed.
(** ** Accesses of the kernel *)

(** The kernel address of a page of the current process holds what the process
    sees, and for an access that writes it is a page frame of its own. *)
Lemma pagetable_walk_ok others L s a v z access : mem_ok L s -> L a -> 0 <= v < 2 ^ 19 -> (pv s a v <> None -> 0 < v) -> v * 4096 <= z < (v + 1) * 4096 ->
  (2 <= length (free_page_queue s))%nat -> (forall perm pa, mem s a v <> Some (Dev perm pa)) ->
  wp (pmap_pagetable_walk others a a access z) (fun r s' => mem_ok L s' /\ regions s' = regions s /\ (forall b w, L b -> 0 <= w < 2 ^ 19 -> mem s' b w = mem s b w) /\
    match mem s a v with
    | Some (Anon perm d) => if has access PROT_WRITE && negb (has perm PROT_WRITE) then r = inr EFAULT
        else exists p, r = inl (pmap_page_to_va p + (z - v * 4096)) /\ contents (page_table s' p) = Data d /\ (has access PROT_WRITE = true -> maps s' p = 1%nat)
    | _ => r = inr EFAULT
    end) s.
Proof using All.
  intros Hok Ha Hv Hv0 Hz Hfree Hdev. pose proof Hok as [Hpok Ht Hrefs Hcow]. destruct (align_page v z Hz) as [Eal Emod]. rw /pmap_pagetable_walk Eal Emod.
  apply wp_bind. rw /wp (pmap_extract_spec L s a v) //. fold (@wp pmaps (Z + errno)). destruct (pv s a v) as [[pa fl]|] eqn:Hp; [|assert (mem s a v = None) as -> by (by rw /mem Hp); apply wp_ret; by split_and!].
  destruct (phys fl) eqn:Hph; [destruct (Hdev fl pa); by rw /mem Hp Hph|].
  assert (forall s' p, (p < max_page)%nat -> pmap_pa_to_va (wrap32 (Z.of_nat p * 4096 + (z - v * 4096))) = pmap_page_to_va p + (z - v * 4096)) as Eva.
  { intros _ p Hpm. rw /pmap_page_to_va /pmap_pa_to_va /pmap_page_to_pa af_page /wrap32. pose proof af_ram. rw !Z.mod_small; lia. }
  assert (forall s' p fl', mem_ok L s' -> pv s' a v = Some (Z.of_nat p * 4096, fl') -> (p < max_page)%nat -> phys fl' = false -> mem s' a v = mem s a v -> (has access PROT_WRITE = true -> writable fl' = true) ->
    match mem s a v with Some (Anon perm d) => exists p', @inl Z errno (pmap_page_to_va p + (z - v * 4096)) = inl (pmap_page_to_va p' + (z - v * 4096)) /\ contents (page_table s' p') = Data d /\
      (has access PROT_WRITE = true -> maps s' p' = 1%nat) | _ => False end) as Hres.
  { intros s' p fl' [Hok' _ _ Hcow'] Hp' Hpm Hph' <- Hwr. destruct (pv_page L s' a v _ fl' Hok' Ha Hv Hp') as (_ & _ & Hpg). destruct (Hpg Hph') as (q & Eq & Epp & _ & _ & [d Hd] & _).
    assert (q = p) as -> by lia. rw /mem Hp' Hph' Epp Hd. exists p. split_and!; try done. intros Hw. by apply (Hcow' a v p fl'); auto. }
  assert (has (match mem s a v with Some (Anon perm _) => perm | _ => 0 end) PROT_WRITE = has fl PROT_WRITE /\ exists perm d, mem s a v = Some (Anon perm d)) as (Eperm & perm & d & Emem).
  { destruct (pv_page L s a v _ fl Hpok Ha Hv Hp) as (_ & _ & Hpg). destruct (Hpg Hph) as (q & -> & Epp & _ & _ & [d Hd] & _). rw /mem Hp Hph Epp Hd. split; [apply perm_write|eauto]. }
  destruct (pv_page L s a v _ fl Hpok Ha Hv Hp) as (_ & _ & Hpg). destruct (Hpg Hph) as (q & -> & _ & Hqm & _ & _ & _). rw Emem in Eperm Hres |- *. rw Eperm.
  destruct (has access PROT_WRITE) eqn:Hacc, (has fl PROT_WRITE) eqn:Hw; cbn [andb negb]; [|apply wp_ret; by split_and!|..].
  - destruct (has fl MAP_COW) eqn:Hc.
    + apply wp_bind. eapply wp_mono; [apply (page_fault_ok others L s a v (v * 4096) access); try done; [by rw Hp in Hv0 *|lia]|]. rw Hp Hph Hw Hc /=. intros r s1 (-> & Hok1 & Hrg1 & Hme1 & pa' & Hp1).
      destruct (decide (RVal 0 = RVal 0)) as [_|]; [|done]. apply wp_bind. rw /wp (pmap_extract_spec L s1 a v) //; [apply Hok1|]. fold (@wp pmaps (Z + errno)). rw Hp1.
      destruct (pv_page L s1 a v _ _ (mo_pmap _ _ Hok1) Ha Hv Hp1) as (_ & _ & Hpg1). destruct Hpg1 as (q1 & -> & _ & Hqm1 & _); [by rw /uncow phys_uncow|]. rw (Eva s1) //. apply wp_ret.
      split_and!; try done. apply (Hres s1 q1 (uncow fl)); try done; [by rw /uncow phys_uncow|rw -Emem; by apply Hme1|intros _; apply writable_uncow].
    + rw (Eva s) //. apply wp_ret. split_and!; try done. apply (Hres s q fl); try done. intros _. by rw /writable Hw Hc.
  - rw (Eva s) //. apply wp_ret. split_and!; try done. by apply (Hres s q fl).
  - rw (Eva s) //. apply wp_ret. split_and!; try done. by apply (Hres s q fl).
Qed.
End store.
