(* ===== verification/VmFork.v ===== *)
(** * VmFork: address spaces are copied and cleared

    [fork_address_space] and [cleanup_address_space] of vm/as.c, page by page:
    a fork gives the child the pages of its parent, shared until one of them
    writes, and a cleanup removes every page. *)

From S2P Require Import Prelude MemRegion MemRegionInv MemRegionFrame Pmap PmapInv PmapOps Vm VmInv VmPages.
Import Ops Inv.
Local Open Scope Z_scope.
Local Open Scope kernel_scope.

Section fork.
Context `{Board, Mmu, VmConsts, !ArmFormat}.
Implicit Types (s : pmaps) (L : nat -> Prop).

(** Both processes lose the right to write a page without a fault. *)
Lemma protect_cow L s a v pa fl : mem_ok L s -> L a -> 0 < v < 2 ^ 19 -> pv s a v = Some (pa, fl) -> phys fl = false ->
  wp (pmap_protect a (v * 4096) (Z.lor fl MAP_COW)) (fun r s' => r = RVal 0 /\ mem_ok L s' /\ regions s' = regions s /\ (forall b w, L b -> 0 <= w < 2 ^ 19 -> mem s' b w = mem s b w) /\
    (forall b w, L b -> 0 <= w < 2 ^ 19 -> pv s' b w = if decide ((b, w) = (a, v)) then Some (pa, Z.lor fl MAP_COW) else pv s b w) /\
    free_page_queue s' = free_page_queue s /\ (forall b k, tab s' b k = tab s b k) /\ free_pmappagedir_list s' = free_pmappagedir_list s) s.
Proof using All.
  intros [Hok Ht Hrefs Hcow] Ha Hv Hp Hph. eapply wp_mono; [apply (pmap_protect_spec L s a v pa fl); try done; apply phys_cow|].
  intros r s' (-> & Hok' & Hq & Hre & Hfr & Htt & Htab). pose proof Hre as [Hpv Hmaps]. pose proof Hq as [Hrg _ Hdl Hqd Hqb].
  destruct (pv_page L s a v pa fl Hok Ha ltac:(lia) Hp) as (_ & _ & Hpg). destruct (Hpg Hph) as (p & -> & Epp & Hpm & Hpf & [d Hd] & Hpos).
  assert (forall q, (q < max_page)%nat -> q ∉ free_page_queue s -> is_data s q -> maps s' q = maps s q) as Hmm.
  { intros q Hqm Hqf Hqd'. specialize (Hmaps q Hqm Hqf Hqd'). rw Hp in Hmaps. destruct (decide (q = p)) as [->|Hne].
    - rw !maps_to_eq // phys_cow Hph in Hmaps. lia.
    - rw !maps_to_ne // in Hmaps; congruence || lia. }
  split_and!; try done.
  - split; [done|auto|..].
    + intros q Hqm Hqf Hqd' Hpos'. destruct (Hqb q Hqm Hqf Hqd') as [Hf0 Hd0]. destruct (Hqd q Hqm Hf0 Hd0) as (_ & _ & ->). rw Hmm // in Hpos' *. auto.
    + intros b w q fl' Hb Hw Hqm. rw Hpv //. case_decide as E; [intros [= _ <-]; by rw writable_cow|]. intros Hp' Hph' Hwr.
      destruct (pv_page L s b w _ fl' Hok Hb Hw Hp') as (_ & _ & Hpg'). destruct (Hpg' Hph') as (q' & Eq & _ & _ & Hqf & Hqd' & _).
      assert (q' = q) as -> by lia. rw Hmm //. by apply (Hcow b w q fl').
  - intros b w Hb Hw. rw (remapped_mem L s s' a v (Some (Z.of_nat p * 4096, Z.lor fl MAP_COW))) //; [lia|]. case_decide as E; [|done]. injection E as -> ->.
    destruct (Hqd p Hpm Hpf) as (_ & Hc & _); [by exists d|]. rw /mem Hpv // decide_True // Hp phys_cow Hph Epp Hc Hd perm_cow //.
Qed.

(** A page that its owner may not write is mapped in another address space. *)
Lemma share_page others L s a new v p d fl : mem_ok L s -> L a -> L new -> 0 < v < 2 ^ 19 -> pv s a v = Some (Z.of_nat p * 4096, fl) -> phys fl = false -> writable fl = false ->
  (p < max_page)%nat -> p ∉ free_page_queue s -> contents (page_table s p) = Data d -> (0 < maps s p)%nat ->
  pv s new v = None -> (tab s new (v / 256) = None -> free_page_queue s <> []) ->
  wp (pmap_enter others new (v * 4096) (Z.of_nat p * 4096) fl) (fun r s2 => r = RVal 0 /\
    let s' := set_page p (fun x => x <| reference_cnt ::= fun n => n + 1 |>) s2 in
    mem_ok L s' /\ regions s' = regions s /\ shrinks 1 s s' /\ mem_change L s s' new v (Some (Anon (Z.ldiff fl MAP_COW) d)) /\
    (tab s new (v / 256) <> None -> free_page_queue s' = free_page_queue s) /\ (forall b k, L b -> (b, k) <> (new, v / 256) -> tab s' b k = tab s b k) /\
    tab s' new (v / 256) <> None /\ free_pmappagedir_list s' = free_pmappagedir_list s) s.
Proof using All.
  intros [Hok Ht Hrefs Hcow] Ha Hnew Hv Hp Hph Hwr Hpm Hpf Hpd Hpos Hnone Hfree. assert (is_data s p) as Hd by by exists d.
  eapply wp_mono; [eapply (pmap_enter_spec others L s new v (Z.of_nat p * 4096) fl); try done|].
  { split_and!; [by rw Z.mod_mul|rw /u32; pose proof af_ram; lia|]. intros _. exists p. done. }
  intros r s2 (-> & Hok2 & Hq & Hre & Hsh & Htt & Hfr & Htabs). split; [done|]. pose proof Hre as [Hpv Hmaps]. pose proof Hq as [Hrg _ Hdl Hqd Hqb].
  destruct (Hqd p Hpm Hpf Hd) as (Hpf2 & Hpc2 & Hpr2). assert (is_data s2 p) as Hd2 by (exists d; by rw Hpc2).
  assert (pv s2 new v = Some (Z.of_nat p * 4096, fl)) as Hpv' by (rw Hpv //; [lia|]; by rw decide_True).
  destruct (refs_set L s2 p (fun x : Page => x <| reference_cnt ::= fun n => n + 1 |>) Hok2 (Htt Ht) Hd2) as (Hok3 & Ht3 & Hpv3 & Hm3 & Hme3 & Hc3); [done..|].
  set s3 := set_page p _ s2 in Hok3 Ht3 Hpv3 Hm3 Hme3 Hc3 |- *. cbv zeta.
  assert (forall q, (q < max_page)%nat -> q ∉ free_page_queue s -> is_data s q -> maps s2 q = (maps s q + (if decide (q = p) then 1 else 0))%nat) as Hmm.
  { intros q Hqm Hqf Hqd'. specialize (Hmaps q Hqm Hqf Hqd'). rw Hnone in Hmaps. change (maps_to None q) with 0%nat in Hmaps.
    destruct (decide (q = p)) as [->|]; [rw maps_to_eq // Hph in Hmaps; lia|]. rw maps_to_ne // in Hmaps; [congruence|lia]. }
  split_and!.
  - split; [done|done|..].
    + intros q Hqm Hqf [dq Hqd']. rw Hc3 in Hqd'. destruct (Hqb q Hqm Hqf) as [Hf0 Hd0]; [by exists dq|]. destruct (Hqd q Hqm Hf0 Hd0) as (_ & _ & Er).
      rw Hm3 Hmm //. specialize (Hrefs q Hqm Hf0 Hd0). destruct (decide (q = p)) as [->|Hne].
      * rw /s3 set_page_eq /= Er. lia.
      * rw /s3 set_page_ne // Er. lia.
    + intros b w q fl' Hb Hw Hqm. rw Hpv3 Hpv // Hm3. case_decide as E; [intros [= _ <-]; by rw Hwr|]. intros Hp' Hph' Hwr'.
      destruct (pv_page L s b w _ fl' Hok Hb Hw Hp') as (_ & _ & Hpg'). destruct (Hpg' Hph') as (q' & Eq & _ & _ & Hqf & Hqd' & _).
      assert (q' = q) as -> by lia. pose proof (Hcow b w q fl' Hb Hw Hqm Hp' Hph' Hwr') as H1'. rw Hmm //. case_decide as E'; [|lia]. subst q.
      assert ((a, v) <> (b, w)) by (intros [= <- <-]; congruence). pose proof (two_maps L s a v b w p fl fl' Hok Ha Hb ltac:(lia) Hw ltac:(done) Hpm Hp Hph Hp' Hph'). lia.
  - done.
  - done.
  - intros b w Hb Hw. rw Hme3 (remapped_mem L s s2 new v (Some (Z.of_nat p * 4096, fl))) //; [lia|]. case_decide; [|done].
    rw /mem Hpv' Hph. destruct (page_addr p Hpm) as (_ & _ & _ & _ & _ & ->). by rw Hpc2 Hpd.
  - done.
  - intros b k Hb Hne. rw -(Htabs b k) //.
  - change (tab s3 new (v / 256)) with (tab s2 new (v / 256)). intros E. by rw /pv E in Hpv'.
  - done.
Qed.

(** A window on a physical address. *)
Lemma dev_page_ok others L s a v pa fl : mem_ok L s -> L a -> 0 < v < 2 ^ 19 -> pv s a v = None -> phys fl = true -> pa mod 4096 = 0 -> u32 pa ->
  (tab s a (v / 256) = None -> free_page_queue s <> []) ->
  wp (pmap_enter others a (v * 4096) pa fl) (fun r s' => r = RVal 0 /\ mem_ok L s' /\ regions s' = regions s /\ shrinks 1 s s' /\ mem_change L s s' a v (Some (Dev fl pa)) /\
    (tab s a (v / 256) <> None -> free_page_queue s' = free_page_queue s) /\ (forall b k, L b -> (b, k) <> (a, v / 256) -> tab s' b k = tab s b k) /\
    tab s' a (v / 256) <> None /\ free_pmappagedir_list s' = free_pmappagedir_list s) s.
Proof using All.
  intros [Hok Ht Hrefs Hcow] Ha Hv Hnone Hph Hal Hu Hfree. eapply wp_mono; [eapply (pmap_enter_spec others L s a v pa fl); try done; split_and!; try done; congruence|].
  intros r s' (-> & Hok' & Hq & Hre & Hsh & Htt & Hfr & Htabs). pose proof Hre as [Hpv Hmaps]. pose proof Hq as [Hrg _ Hdl Hqd Hqb].
  assert (pv s' a v = Some (pa, fl)) as Hpv' by (rw Hpv //; [lia|]; by rw decide_True).
  assert (forall q, (q < max_page)%nat -> q ∉ free_page_queue s -> is_data s q -> maps s' q = maps s q) as Hmm.
  { intros q Hqm Hqf Hqd'. specialize (Hmaps q Hqm Hqf Hqd'). rw Hnone /maps_to decide_False in Hmaps; [rw Hph; naive_solver|]. lia. }
  split_and!; try done.
  - split; [done|auto|..].
    + intros q Hqm Hqf Hqd' Hpos. destruct (Hqb q Hqm Hqf Hqd') as [Hf0 Hd0]. destruct (Hqd q Hqm Hf0 Hd0) as (_ & _ & ->). rw Hmm // in Hpos *. auto.
    + intros b w q fl' Hb Hw Hqm. rw Hpv //. case_decide as E; [intros [= _ <-]; congruence|]. intros Hp' Hph' Hwr.
      destruct (pv_page L s b w _ fl' Hok Hb Hw Hp') as (_ & _ & Hpg'). destruct (Hpg' Hph') as (q' & Eq & _ & _ & Hqf & Hqd' & _).
      assert (q' = q) as -> by lia. rw Hmm //. by apply (Hcow b w q fl').
  - intros b w Hb Hw. rw (remapped_mem L s s' a v (Some (pa, fl))) //; [lia|]. case_decide; [|done]. by rw /mem Hpv' Hph.
  - intros E. by rw /pv E in Hpv'.
Qed.

(** What a child gets for a page of its parent. *)
Definition dev_flags : Z := Z.lor (Z.lor MAP_PHYS PROT_READ) PROT_WRITE.
Definition child (p : option apage) : option apage := match p with Some (Dev _ pa) => Some (Dev dev_flags pa) | _ => p end.
Lemma phys_dev : phys dev_flags = true.
Proof using All.
  destruct af_phys as (k & Hk & Ek). rw /phys /dev_flags Ek. apply negb_true_iff, Z.eqb_neq. intros E. apply (f_equal (fun z => Z.testbit z k)) in E.
  rw Z.land_spec !Z.lor_spec Z.bits_0 !Z.pow2_bits_true in E; [lia|]. done.
Qed.

(** The state of a copy between two pages: the tables of the parent are
    there, and one more page is enough for the table of this megabyte. *)
Definition room s (new : nat) (i : Z) : Prop := tab s new i = None -> free_page_queue s <> [].
Definition used s s' (new : nat) (i : Z) : Prop :=
  (tab s new i <> None -> free_page_queue s' = free_page_queue s /\ tab s' new i <> None) /\
  (tab s new i = None -> (free_page_queue s' = free_page_queue s /\ tab s' new i = None) \/ (shrinks 1 s s' /\ tab s' new i <> None)).
Record copied L s s' (new old : nat) (i : Z) : Prop := {
  cp_ok : mem_ok L s';
  cp_regions : regions s' = regions s;
  cp_used : used s s' new i;
  cp_tabs : forall k, tab s' old k = tab s old k;
  cp_dirs : free_pmappagedir_list s' = free_pmappagedir_list s }.
Lemma fork_page_ok others L s new old v : mem_ok L s -> L new -> L old -> new <> old -> 0 <= v < 2 ^ 19 -> (pv s old v <> None -> 0 < v) -> pv s new v = None -> room s new (v / 256) ->
  wp (fork_page others new old (v * 4096)) (fun b s' => b = true /\ copied L s s' new old (v / 256) /\ mem_change L s s' new v (child (mem s old v))) s.
Proof using All.
  intros Hok Hnew Hold Hne Hv Hv0 Hnone Hroom. pose proof Hok as [Hpok Ht Hrefs Hcow]. apply wp_bind. rw /wp (pmap_is_page_present_spec L s old v) //. fold (@wp pmaps bool).
  destruct (pv s old v) as [[pa fl]|] eqn:Hp; last first.
  { rw bool_decide_false; [naive_solver|]. simpl. apply wp_ret. split_and!; [done| |].
    - split; try done. split; [done|]. intros E. by left.
    - intros b w Hb Hw. case_decide as E; [|done]. injection E as -> ->. rw (proj2 (mem_None L s new v Hpok Hnew Hv) Hnone) (proj2 (mem_None L s old v Hpok Hold Hv) Hp) //. }
  assert (0 < v < 2 ^ 19) as Hv' by (split; [by apply Hv0|lia]). rw bool_decide_true //. simpl. apply wp_bind. rw /wp (pmap_extract_spec L s old v) // Hp. fold (@wp pmaps bool). rw phys_all.
  assert (forall s1 s', free_page_queue s1 = free_page_queue s -> (forall b k, tab s1 b k = tab s b k) -> shrinks 1 s1 s' -> (tab s1 new (v / 256) <> None -> free_page_queue s' = free_page_queue s1) ->
    tab s' new (v / 256) <> None -> used s s' new (v / 256)) as Hused.
  { intros s1 s' Ef Et [Hs1 Hs2] Hf Ht'. rw Et Ef in Hf. split; [auto|]. intros _. right. by rw /shrinks -Ef. }
  destruct (phys fl) eqn:Hph; cbn [negb andb].
  - destruct (pv_page L s old v pa fl Hpok Hold Hv Hp) as (Hal & Hu & _). apply wp_bind. eapply wp_mono; [apply (dev_page_ok others L s new v pa dev_flags); try done; apply phys_dev|].
    intros r s' (-> & Hok' & Hrg & Hsh & Hmc & Hf & Htabs & Htn & Hdl). apply wp_ret. rw bool_decide_true //. split_and!; [done|split|]; try done.
    + by apply (Hused s).
    + intros k. apply Htabs; [done|congruence].
    + by rw {1}/mem Hp Hph.
  - destruct (pv_page L s old v pa fl Hpok Hold Hv Hp) as (_ & _ & Hpg). destruct (Hpg Hph) as (p & -> & Epp & Hpm & Hpf & [d Hd] & Hpos).
    assert (child (mem s old v) = Some (Anon (Z.ldiff fl MAP_COW) d)) as -> by by rw /mem Hp Hph Epp Hd.
    destruct (has fl PROT_WRITE) eqn:Hw.
    + apply wp_bind. eapply wp_mono; [by apply (protect_cow L s old v (Z.of_nat p * 4096) fl)|].
      intros r s1 (-> & Hok1 & Hrg1 & Hme1 & Hpv1 & Hfr1 & Htab1 & Hdl1). destruct (decide (RVal 0 = RVal 0)) as [_|]; [|done].
      apply wp_bind. pose proof (Hpv1 old v Hold Hv) as Hpv1o. rw decide_True // in Hpv1o.
      destruct (pv_page L s1 old v _ _ (mo_pmap _ _ Hok1) Hold Hv Hpv1o) as (_ & _ & Hpg1). destruct Hpg1 as (p' & Ep & _ & _ & Hpf1 & [d1 Hd1] & Hpos1); [by rw phys_cow|].
      assert (p' = p) as -> by lia. assert (d1 = d) as ->.
      { specialize (Hme1 old v Hold Hv). rw /mem Hpv1o Hp phys_cow Hph Epp Hd Hd1 in Hme1. by injection Hme1. }
      eapply wp_mono; [apply (share_page others L s1 old new v p d (Z.lor fl MAP_COW)); try done|].
      { by rw phys_cow. }
      { apply writable_cow. }
      { rw Hpv1 // decide_False //. congruence. }
      { by rw Htab1 Hfr1. }
      intros r s2 (-> & Hok2 & Hrg2 & Hsh2 & Hmc2 & Hf2 & Htabs2 & Htn2 & Hdl2). destruct (decide (RVal 0 = RVal 0)) as [_|]; [|done]. rw Epp. apply wp_bind, wp_upd_page; [done|]. apply wp_ret.
      split_and!; [done|split|].
      * done.
      * by rw Hrg2 Hrg1.
      * by apply (Hused s1).
      * intros k. rw Htabs2 ?Htab1 //. congruence.
      * by rw Hdl2 Hdl1.
      * intros b w Hb Hw'. rw Hmc2 // perm_cow. case_decide; [done|]. by apply Hme1.
    + apply wp_bind. eapply wp_mono; [apply (share_page others L s old new v p d fl); try done; by rw /writable Hw|].
      intros r s2 (-> & Hok2 & Hrg2 & Hsh2 & Hmc2 & Hf2 & Htabs2 & Htn2 & Hdl2). destruct (decide (RVal 0 = RVal 0)) as [_|]; [|done]. rw Epp. apply wp_bind, wp_upd_page; [done|]. apply wp_ret.
      split_and!; [done|split|]; try done; [by apply (Hused s)|]. intros k. apply Htabs2; [done|congruence].
Qed.

(** ** Loops over pages *)

(** [s'] is [s] with the pages [e] at the pages [l] of [a]. *)
Definition mem_set L s s' (a : nat) (l : list Z) (e : Z -> option apage) : Prop :=
  forall b w, L b -> 0 <= w < 2 ^ 19 -> mem s' b w = if decide (b = a /\ w ∈ l) then e w else mem s b w.
Lemma mem_set_nil L s s' a e : (forall b w, L b -> 0 <= w < 2 ^ 19 -> mem s' b w = mem s b w) -> mem_set L s s' a [] e.
Proof. intros Hm b w Hb Hw. rw Hm // decide_False //. set_solver. Qed.
Lemma mem_set_cons L s s1 s' a v l e : mem_change L s s1 a v (e v) -> mem_set L s1 s' a l e -> mem_set L s s' a (v :: l) e.
Proof.
  intros H1' H2' b w Hb Hw. rw H2' //. destruct (decide (b = a /\ w ∈ l)) as [[-> Hl]|Hn]; [rw decide_True //; set_solver|].
  rw H1' //. destruct (decide ((b, w) = (a, v))) as [[= -> ->]|Hne]; [rw decide_True //; set_solver|]. rw decide_False //.
  intros [-> [->|Hl]%elem_of_cons]; [done|]. by apply Hn.
Qed.
Lemma mem_set_app L s s1 s' a l l' e : mem_set L s s1 a l e -> mem_set L s1 s' a l' e -> mem_set L s s' a (l ++ l') e.
Proof.
  intros H1' H2' b w Hb Hw. rw H2' // H1' //. repeat case_decide; try done; set_solver.
Qed.
Lemma mem_set_ext L s s' a l e e' : (forall w, w ∈ l -> 0 <= w < 2 ^ 19 -> e w = e' w) -> mem_set L s s' a l e -> mem_set L s s' a l e'.
Proof. intros He Hs b w Hb Hw. rw Hs //. case_decide as E; [|done]. apply He; [apply E|done]. Qed.

Definition pages (v : Z) (n : nat) : list Z := (fun k => v + Z.of_nat k) <$> seq 0 n.
Lemma elem_pages v n w : w ∈ pages v n <-> v <= w < v + Z.of_nat n.
Proof.
  rw /pages list_elem_of_fmap. split.
  - intros (k & -> & Hk%elem_of_seq). lia.
  - intros Hw. exists (Z.to_nat (w - v)). split; [lia|]. apply elem_of_seq. lia.
Qed.
Lemma NoDup_pages v n : NoDup (pages v n).
Proof. apply NoDup_fmap; [intros x y; lia|apply NoDup_seq]. Qed.
Lemma upto_pages v n : upto (v * 4096) (v * 4096 + Z.of_nat n * 4096) 4096 = (fun w => w * 4096) <$> pages v n.
Proof.
  rw /upto /pages. replace (Z.to_nat _) with n by (Z.div_mod_to_equations; lia). rewrite <-list_fmap_compose. apply list_fmap_ext. intros k x _. unfold compose. lia.
Qed.
Lemma upto_tables i hi : upto (i * 2 ^ 20) hi (2 ^ 20) = (fun j => j * 2 ^ 20) <$> pages i (Z.to_nat ((hi - i * 2 ^ 20 + 2 ^ 20 - 1) / 2 ^ 20)).
Proof.
  rw /upto /pages. rewrite <-list_fmap_compose. apply list_fmap_ext. intros k x _. unfold compose. lia.
Qed.
Definition table_pages (i : Z) : list Z := pages (256 * i) 256.
Lemma elem_table_pages i w : w ∈ table_pages i <-> w / 256 = i.
Proof. rw /table_pages elem_pages. split; intros; Z.div_mod_to_equations; lia. Qed.

Lemma copied_trans L s s1 s2 new old i : copied L s s1 new old i -> copied L s1 s2 new old i -> copied L s s2 new old i.
Proof.
  intros [_ Hr1 [Hu1 Hu1'] Ht1 Hd1] [? Hr2 [Hu2 Hu2'] Ht2 Hd2]. split; [done|congruence| |congruence|congruence]. split.
  - intros E. destruct (Hu1 E) as [E1 E1']. destruct (Hu2 E1') as [E2 E2']. split; [congruence|done].
  - intros E. destruct (Hu1' E) as [[E1 E1']|[E1 E1']].
    + destruct (Hu2' E1') as [[E2 E2']|[E2 E2']]; [left; split; congruence|]. right. by rw /shrinks -E1.
    + destruct (Hu2 E1') as [E2 E2']. right. by rw /shrinks E2.
Qed.
Lemma room_copied L s s' new old i : room s new i -> copied L s s' new old i -> room s' new i.
Proof.
  intros Hr [_ _ [Hu Hu'] _ _] E. destruct (decide (tab s new i = None)) as [E'|E']; [|by destruct (Hu E')].
  destruct (Hu' E') as [[-> _]|[_ ?]]; [by apply Hr|done].
Qed.
Lemma fork_pages_ok others L new old i l : forall s, mem_ok L s -> L new -> L old -> new <> old -> 0 <= i < 2048 -> NoDup l -> (forall v, v ∈ l -> v / 256 = i) ->
  (forall v, v ∈ l -> pv s old v <> None -> 0 < v) -> (forall v, v ∈ l -> pv s new v = None) -> room s new i ->
  wp (while_ok ((fun w => w * 4096) <$> l) (fork_page others new old)) (fun b s' => b = true /\ copied L s s' new old i /\ mem_set L s s' new l (fun w => child (mem s old w))) s.
Proof using All.
  induction l as [|v l IH]; intros s Hok Hnew Hold Hne Hi Hnd Hl Hv0 Hnone Hroom; simpl.
  { apply wp_ret. split_and!; [done|split; try done|by apply mem_set_nil]. split; [done|]. intros E. by left. }
  assert (v / 256 = i) as Ev by (apply Hl; set_solver). assert (0 <= v < 2 ^ 19) as Hv by (Z.div_mod_to_equations; lia). apply NoDup_cons in Hnd as [Hvl Hnd].
  apply wp_bind. eapply wp_mono; [apply (fork_page_ok others L s new old v); try done; [apply Hv0|apply Hnone|by rw Ev]; set_solver|].
  intros b s1 (-> & Hcp & Hmc). rw Ev in Hcp. pose proof Hcp as [Hok1 _ _ _ _].
  assert (forall w, 0 <= w < 2 ^ 19 -> mem s1 old w = mem s old w) as Hold1. { intros w Hw. rw Hmc // decide_False //. congruence. }
  assert (forall w, w ∈ l -> 0 <= w < 2 ^ 19) as Hrange. { intros w Hw. assert (w / 256 = i) by (apply Hl; set_solver). Z.div_mod_to_equations; lia. }
  eapply wp_mono; [apply (IH s1); try done|].
  - set_solver.
  - intros w Hw Hp. apply Hv0; [set_solver|]. pose proof (Hrange w Hw). rw -(mem_None L) // in Hp; [apply Hok1|]. rw Hold1 // (mem_None L) // in Hp. apply Hok.
  - intros w Hw. pose proof (Hrange w Hw). apply (mem_None L); [apply Hok1|done|done|]. rw Hmc // decide_False; [congruence|]. apply (mem_None L); [apply Hok|done|done|]. apply Hnone. set_solver.
  - by apply (room_copied L s s1 new old i).
  - intros b s2 (-> & Hcp2 & Hms). split_and!; [done|by apply (copied_trans L s s1 s2)|]. apply (mem_set_cons L s s1); [exact Hmc|]. eapply mem_set_ext; [|exact Hms].
    intros w _ Hw. simpl. by rw Hold1.
Qed.

(** ** Copying an address space *)
Lemma tab_None_pv s a v : tab s a (v / 256) = None -> pv s a v = None.
Proof. intros E. by rw /pv E. Qed.
Lemma table_loop i : N_PAGETABLE_PTE = 256 -> upto (i * 2 ^ 20) (i * 2 ^ 20 + PAGE_SIZE * N_PAGETABLE_PTE) PAGE_SIZE = (fun w => w * 4096) <$> table_pages i.
Proof using All. intros En. rw af_page En /table_pages. rewrite <-upto_pages. f_equal; lia. Qed.
Definition has_tab s (a : nat) (i : Z) : nat := (if decide (tab s a i = None) then 0 else 1)%nat.
Lemma fork_table_ok others L s new old i : N_PAGETABLE_PTE = 256 -> mem_ok L s -> L new -> L old -> new <> old -> 0 <= i < 2048 ->
  (forall v, 0 <= v < 2 ^ 19 -> pv s old v <> None -> 0 < v) -> (forall v, 0 <= v < 2 ^ 19 -> v / 256 = i -> pv s new v = None) -> (has_tab s old i <= length (free_page_queue s))%nat ->
  wp (fork_table others new old (i * 2 ^ 20)) (fun b s' => b = true /\ mem_ok L s' /\ regions s' = regions s /\ mem_set L s s' new (table_pages i) (fun w => child (mem s old w)) /\
    (forall k, tab s' old k = tab s old k) /\ free_pmappagedir_list s' = free_pmappagedir_list s /\ (length (free_page_queue s) <= has_tab s old i + length (free_page_queue s'))%nat) s.
Proof using All.
  intros En Hok Hnew Hold Hne Hi Hv0 Hnone Hfree. rw /fork_table table_loop //. apply wp_bind. replace (i * 2 ^ 20) with (256 * i * 4096) by lia.
  assert (256 * i / 256 = i) as Ei by (Z.div_mod_to_equations; lia).
  rw /wp (pmap_is_pagetable_present_spec L s old (256 * i)) //; [apply Hok|lia|]. fold (@wp pmaps bool). rw Ei. rw /has_tab in Hfree *. case_decide as Et.
  - rw bool_decide_false; [naive_solver|]. apply wp_ret. split_and!; try done. intros b w Hb Hw. case_decide as E; [|done]. destruct E as [-> Ew%elem_table_pages].
    assert (mem s new w = None) as ->. { apply (mem_None L); [apply Hok|done|done|]. by apply Hnone. }
    assert (mem s old w = None) as ->; [|done]. apply (mem_None L); [apply Hok|done|done|]. apply tab_None_pv. by rw Ew.
  - rw bool_decide_true //. eapply wp_mono; [apply (fork_pages_ok others L new old i); try done|].
    + apply NoDup_pages.
    + by intros v ?%elem_table_pages.
    + intros v Hv%elem_table_pages. apply Hv0. Z.div_mod_to_equations; lia.
    + intros v Hv%elem_table_pages. apply Hnone; [|done]. Z.div_mod_to_equations; lia.
    + intros _ E. rw E in Hfree. simpl in Hfree. lia.
    + intros b s' (-> & [? ? [Hu Hu'] ? ?] & ?). split_and!; try done. destruct (decide (tab s new i = None)) as [E|E].
      * destruct (Hu' E) as [[-> _]|[[_ ?] _]]; lia.
      * destruct (Hu E) as [-> _]. lia.
Qed.

Definition tables s (a : nat) (l : list Z) : nat := list_sum (has_tab s a <$> l).
Lemma fork_tables_ok others L new old l : forall s, N_PAGETABLE_PTE = 256 -> mem_ok L s -> L new -> L old -> new <> old -> NoDup l -> (forall i, i ∈ l -> 0 <= i < 2048) ->
  (forall v, 0 <= v < 2 ^ 19 -> pv s old v <> None -> 0 < v) -> (forall v, 0 <= v < 2 ^ 19 -> v / 256 ∈ l -> pv s new v = None) -> (tables s old l <= length (free_page_queue s))%nat ->
  wp (while_ok ((fun i => i * 2 ^ 20) <$> l) (fork_table others new old)) (fun b s' => b = true /\ mem_ok L s' /\ regions s' = regions s /\
    mem_set L s s' new (l ≫= table_pages) (fun w => child (mem s old w)) /\ free_pmappagedir_list s' = free_pmappagedir_list s) s.
Proof using All.
  induction l as [|i l IH]; intros s En Hok Hnew Hold Hne Hnd Hl Hv0 Hnone Hfree; cbn [fmap list_fmap while_ok].
  { apply wp_ret. split_and!; try done. by apply mem_set_nil. }
  assert (0 <= i < 2048) as Hi by (apply Hl; set_solver). apply NoDup_cons in Hnd as [Hil Hnd]. rw /tables in Hfree. change (list_sum (has_tab s old <$> i :: l)) with (has_tab s old i + tables s old l)%nat in Hfree.
  apply wp_bind. eapply wp_mono; [apply (fork_table_ok others L s new old i); try done; [intros v Hv Ev; apply Hnone; set_solver|lia]|].
  intros b s1 (-> & Hok1 & Hrg1 & Hms1 & Htab1 & Hdl1 & Hfree1).
  assert (forall w, 0 <= w < 2 ^ 19 -> mem s1 old w = mem s old w) as Hold1. { intros w Hw. rw Hms1 // decide_False //. naive_solver. }
  assert (forall v, 0 <= v < 2 ^ 19 -> pv s1 old v <> None -> pv s old v <> None) as Hpo.
  { intros v Hv. rw -(mem_None L s1) //; [apply Hok1|]. rw Hold1 // (mem_None L s) //. apply Hok. }
  eapply wp_mono; [apply (IH s1); try done|].
  - set_solver.
  - intros v Hv Hp. apply Hv0; auto.
  - intros v Hv Hvl. apply (mem_None L); [apply Hok1|done|done|]. rw Hms1 // decide_False; [rw elem_table_pages; intros [_ E]; by rw E in Hvl|].
    apply (mem_None L); [apply Hok|done|done|]. apply Hnone; set_solver.
  - assert (tables s1 old l = tables s old l) as ->; [|lia]. rw /tables. f_equal. apply list_fmap_ext. intros k x _. by rw /has_tab Htab1.
  - intros b s2 (-> & Hok2 & Hrg2 & Hms2 & Hdl2). split_and!; try done; [congruence| |congruence]. cbn [mbind list_bind]. apply (mem_set_app L s s1); [done|].
    eapply mem_set_ext; [|exact Hms2]. intros w _ Hw. simpl. by rw Hold1.
Qed.

(** ** Giving pages back *)
Lemma wp_free_page p Q s : (p < max_page)%nat -> p ∉ free_page_queue s -> reference_cnt (page_table s p) <= 1 ->
  Q tt (give_page p (reference_cnt (page_table s p) - 1) s) -> wp (free_page p) Q s.
Proof using All.
  intros Hm Hf Hr HQ. apply wp_bind, wp_kassert; [by rw bool_decide_true|]. apply wp_bind, wp_upd_page; [done|]. apply wp_bind, wp_get_page; [done|]. rw set_page_eq.
  destruct (Z.ltb_spec 0 (reference_cnt ((page_table s p) <| reference_cnt ::= fun n => n - 1 |>))) as [E|E]; [simpl in E; lia|].
  eapply (wp_update _ _ _ (free_page_queue s ++ [p])); [by apply dl_add_tail_ok|exact HQ].
Qed.
Lemma give_mem_ok L s p n : mem_ok L s -> (p < max_page)%nat -> p ∉ free_page_queue s -> is_data s p -> maps s p = 0%nat ->
  mem_ok L (give_page p n s) /\ (forall b w, L b -> 0 <= w < 2 ^ 19 -> mem (give_page p n s) b w = mem s b w).
Proof using All.
  intros [Hok Ht Hrefs Hcow] Hm Hf Hd Hm0. destruct (give_page_ok L s p n Hok Hm Hf Hd Hm0) as (Hok' & Hpv & Ht').
  assert (forall q, contents (page_table (give_page p n s) q) = contents (page_table s q) /\ vpte_list (page_table (give_page p n s) q) = vpte_list (page_table s q)) as Hpt.
  { intros q. rw /give_page /set_page /=. destruct (decide (q = p)) as [->|]; by reads. }
  assert (forall q, maps (give_page p n s) q = maps s q) as Hmm by (intros q; by rw /maps (proj2 (Hpt q))).
  split.
  - split; [done|auto|..].
    + intros q Hqm Hqf [d Hqd]. rw (proj1 (Hpt q)) in Hqd. assert (q ∉ free_page_queue s /\ q <> p) as [Hqf' Hne] by (rw /give_page /= in Hqf; set_solver).
      rw Hmm. assert (page_table (give_page p n s) q = page_table s q) as ->; [rw /give_page /set_page /=; by reads|]. apply Hrefs; try done. by exists d.
    + intros b w q fl Hb Hw Hqm. rw Hpv Hmm. by apply Hcow.
  - intros b w Hb Hw. apply (mem_same L s); try done. intros q fl _ _ _ _ _. apply Hpt.
Qed.
Lemma cleanup_page_ok L s a v : mem_ok L s -> L a -> 0 <= v < 2 ^ 19 -> (pv s a v <> None -> 0 < v) ->
  wp (cleanup_page a (v * 4096)) (fun _ s' => mem_ok L s' /\ regions s' = regions s /\ mem_change L s s' a v None /\ free_pmappagedir_list s' = free_pmappagedir_list s) s.
Proof using All.
  intros Hok Ha Hv Hv0. pose proof Hok as [Hpok Ht Hrefs Hcow]. apply wp_bind. rw /wp (pmap_is_page_present_spec L s a v) //. fold (@wp pmaps unit).
  destruct (pv s a v) as [[pa fl]|] eqn:Hp; last first.
  { rw bool_decide_false; [naive_solver|]. apply wp_ret. split_and!; try done. intros b w Hb Hw. case_decide as E; [|done]. injection E as -> ->. by apply (mem_None L). }
  assert (0 < v < 2 ^ 19) as Hv' by (split; [by apply Hv0|lia]). rw bool_decide_true //. simpl. apply wp_bind. rw /wp (pmap_extract_spec L s a v) // Hp. fold (@wp pmaps unit).
  apply wp_bind. eapply wp_mono; [by apply (remove_mem_ok L s a v pa fl)|]. intros r s1 (-> & Hok1 & [Hrg _ Hdl Hqd Hqb] & [Hpv1 Hmaps1] & _ & Hmc).
  destruct (decide (RVal 0 = RVal 0)) as [_|]; [|done]. rw phys_all. destruct (phys fl) eqn:Hph; [apply wp_ret; by split_and!|].
  destruct (pv_page L s a v pa fl Hpok Ha Hv Hp) as (_ & _ & Hpg). destruct (Hpg Hph) as (p & -> & Epp & Hpm & Hpf & Hd & Hpos). rw Epp. cbv zeta.
  destruct (Hqd p Hpm Hpf Hd) as (Hpf1 & Hpc1 & Hpr1). assert (is_data s1 p) as Hd1 by (by rw /is_data Hpc1).
  specialize (Hmaps1 p Hpm Hpf Hd). rw Hp maps_to_eq // Hph in Hmaps1. simpl in Hmaps1. specialize (Hrefs p Hpm Hpf Hd Hpos) as Hrp.
  pose proof Hok1 as [Hpok1 Ht1 Hrefs1 Hcow1].
  destruct (refs_set L s1 p (fun x : Page => x <| reference_cnt ::= fun n => n - 1 |>) Hpok1 Ht1 Hd1) as (Hok2 & Ht2 & Hpv2 & Hm2 & Hme2 & Hc2); [done..|].
  apply wp_bind, wp_upd_page; [done|]. set s2 := set_page p _ s1 in Hok2 Ht2 Hpv2 Hm2 Hme2 Hc2 |- *.
  assert (reference_cnt (page_table s2 p) = reference_cnt (page_table s p) - 1) as Er2 by (rw /s2 set_page_eq /= Hpr1 //).
  assert (mem_ok L s2) as Hmok2.
  { split; [done|done|..].
    - intros q Hqm Hqf [d Hqd']. rw Hc2 in Hqd'. assert (is_data s1 q) as Hqd'' by by exists d. rw Hm2. specialize (Hrefs1 q Hqm Hqf Hqd'').
      destruct (decide (q = p)) as [->|]; [rw Er2; lia|]. by rw /s2 set_page_ne.
    - intros b w q fl' Hb Hw Hqm. rw Hpv2 Hm2. by apply Hcow1. }
  assert (mem_change L s s2 a v None) as Hmc2 by (intros b w Hb Hw; rw Hme2; by apply Hmc).
  apply wp_bind, wp_get_page; [done|]. destruct (Z.eqb_spec (reference_cnt (page_table s2 p)) 0) as [E|E]; [|apply wp_ret; by split_and!].
  apply wp_free_page; [done|done|lia|]. destruct (give_mem_ok L s2 p (reference_cnt (page_table s2 p) - 1) Hmok2 Hpm Hpf1) as [? Hme3].
  { by rw /is_data Hc2. }
  { rw Hm2. lia. }
  split_and!; try done. intros b w Hb Hw. rw Hme3 //. by apply Hmc2.
Qed.
Lemma cleanup_pages_ok L a l : forall s, mem_ok L s -> L a -> (forall v, v ∈ l -> 0 <= v < 2 ^ 19) -> (forall v, v ∈ l -> pv s a v <> None -> 0 < v) ->
  wp (mfor ((fun w => w * 4096) <$> l) (cleanup_page a)) (fun _ s' => mem_ok L s' /\ regions s' = regions s /\ mem_set L s s' a l (fun _ => None) /\ free_pmappagedir_list s' = free_pmappagedir_list s) s.
Proof using All.
  induction l as [|v l IH]; intros s Hok Ha Hl Hv0; simpl; [apply wp_ret; split_and!; try done; by apply mem_set_nil|].
  assert (0 <= v < 2 ^ 19) as Hv by (apply Hl; set_solver). apply wp_bind. eapply wp_mono; [apply (cleanup_page_ok L s a v); try done; apply Hv0; set_solver|].
  intros _ s1 (Hok1 & Hrg1 & Hmc1 & Hdl1). eapply wp_mono; [apply (IH s1); try done|].
  - set_solver.
  - intros w Hw Hp. apply Hv0; [set_solver|]. assert (0 <= w < 2 ^ 19) as Hw' by (apply Hl; set_solver). rw -(mem_None L) // in Hp; [apply Hok1|]. rw Hmc1 // in Hp.
    case_decide; [done|]. rw (mem_None L) // in Hp. apply Hok.
  - intros _ s2 (Hok2 & Hrg2 & Hms2 & Hdl2). split_and!; [done|congruence| |congruence]. by apply (mem_set_cons L s s1).
Qed.
End fork.
