(* ===== verification/VmMap.v ===== *)
(** * VmMap: loops over ranges of pages

    The loops of [cleanup_address_space] over page tables (vm/as.c) and those
    of [sys_mmap] and [sys_munmap] over pages (vm/mmap.c). *)

From S2P Require Import Prelude MemRegion MemRegionInv MemRegionFrame Pmap PmapInv PmapOps Vm VmInv VmPages VmFork.
Import Ops Inv.
Local Open Scope Z_scope.
Local Open Scope kernel_scope.

Section loops.
Context `{Board, Mmu, VmConsts, !ArmFormat}.
Implicit Types (s : pmaps) (L : nat -> Prop).

(** A page that is not there is not there after other pages have changed. *)
Lemma pv_kept L s s' a l e w : mem_ok L s -> mem_ok L s' -> mem_set L s s' a l e -> L a -> 0 <= w < 2 ^ 19 -> w ∉ l -> pv s' a w = None <-> pv s a w = None.
Proof using All.
  intros Hok Hok' Hms Ha Hw Hl. rewrite <-(mem_None L s') by (try done; apply Hok'). rewrite <-(mem_None L s) by (try done; apply Hok). rw Hms // decide_False //. naive_solver.
Qed.
Lemma change_set L s s' a v e : mem_change L s s' a v e -> mem_set L s s' a [v] (fun _ => e).
Proof. intros Hm b w Hb Hw. rw Hm //. repeat case_decide; try done; set_solver. Qed.

Lemma cleanup_table_ok L s a i : N_PAGETABLE_PTE = 256 -> mem_ok L s -> L a -> 0 <= i < 2048 -> (forall v, 0 <= v < 2 ^ 19 -> pv s a v <> None -> 0 < v) ->
  wp (cleanup_table a (i * 2 ^ 20)) (fun _ s' => mem_ok L s' /\ regions s' = regions s /\ mem_set L s s' a (table_pages i) (fun _ => None)) s.
Proof using All.
  intros En Hok Ha Hi Hv0. rw /cleanup_table table_loop //. apply wp_bind. replace (i * 2 ^ 20) with (256 * i * 4096) by lia.
  assert (256 * i / 256 = i) as Ei by (Z.div_mod_to_equations; lia).
  rw /wp (pmap_is_pagetable_present_spec L s a (256 * i)) //; [apply Hok|lia|]. fold (@wp pmaps unit). rw Ei. destruct (decide (tab s a i = None)) as [Et|Et].
  - rw bool_decide_false; [naive_solver|]. apply wp_ret. split_and!; try done. intros b w Hb Hw. case_decide as E; [|done]. destruct E as [-> Ew%elem_table_pages].
    apply (mem_None L); [apply Hok|done|done|]. apply tab_None_pv. by rw Ew.
  - rw bool_decide_true //. assert (forall v, v ∈ table_pages i -> 0 <= v < 2 ^ 19) as Hr by (intros v Hv%elem_table_pages; Z.div_mod_to_equations; lia).
    eapply wp_mono; [apply (cleanup_pages_ok L a (table_pages i) s); auto|]. intros _ s' (? & ? & ? & _). by split_and!.
Qed.
Lemma cleanup_tables_ok L a l : forall s, N_PAGETABLE_PTE = 256 -> mem_ok L s -> L a -> (forall i, i ∈ l -> 0 <= i < 2048) -> (forall v, 0 <= v < 2 ^ 19 -> pv s a v <> None -> 0 < v) ->
  wp (mfor ((fun i => i * 2 ^ 20) <$> l) (cleanup_table a)) (fun _ s' => mem_ok L s' /\ regions s' = regions s /\ mem_set L s s' a (l ≫= table_pages) (fun _ => None)) s.
Proof using All.
  induction l as [|i l IH]; intros s En Hok Ha Hl Hv0; cbn [fmap list_fmap mfor]; [apply wp_ret; split_and!; try done; by apply mem_set_nil|].
  apply wp_bind. eapply wp_mono; [apply (cleanup_table_ok L s a i); try done; apply Hl; set_solver|]. intros _ s1 (Hok1 & Hrg1 & Hms1).
  eapply wp_mono; [apply (IH s1); try done; [set_solver|]|].
  - intros v Hv Hp. apply Hv0; [done|]. intros E. apply Hp. destruct (decide (v ∈ table_pages i)) as [Hi|Hi]; [|by apply (pv_kept L s s1 a (table_pages i) (fun _ => None))].
    apply (mem_None L); [apply Hok1|done|done|]. rw Hms1 // decide_True //.
  - intros _ s2 (Hok2 & Hrg2 & Hms2). split_and!; [done|congruence|]. cbn [mbind list_bind]. by apply (mem_set_app L s s1).
Qed.

(** ** Mapping *)
Lemma mmap_anon_ok others L a fl l : forall s, mem_ok L s -> L a -> NoDup l -> (forall v, v ∈ l -> 0 < v < 2 ^ 19 /\ pv s a v = None) -> phys fl = false ->
  (2 * length l <= length (free_page_queue s))%nat ->
  wp (mmap_anon others a ((fun w => w * 4096) <$> l) fl) (fun r s' => r = inl tt /\ mem_ok L s' /\ regions s' = regions s /\
    mem_set L s s' a l (fun _ => Some (Anon (Z.ldiff fl MAP_COW) (fun _ => 0)))) s.
Proof using All.
  induction l as [|v l IH]; intros s Hok Ha Hnd Hl Hph Hfree; cbn [fmap list_fmap mmap_anon]; [apply wp_ret; split_and!; try done; by apply mem_set_nil|].
  destruct (Hl v ltac:(set_solver)) as [Hv Hnone]. apply NoDup_cons in Hnd as [Hvl Hnd]. cbn [length] in Hfree.
  apply wp_bind. eapply wp_mono; [apply (anon_page_ok others L s a v fl); try done; lia|]. intros o s1 (p & -> & Hpm & Hs1). apply wp_bind. eapply wp_mono; [exact Hs1|].
  intros r s2 (-> & Hok2 & Hrg2 & [_ Hsh2] & Hmc2). destruct (decide (RVal 0 = RVal 0)) as [_|]; [|done]. apply wp_bind, wp_upd_page; [done|]. set s3 := set_page p _ s2 in Hok2 Hrg2 Hsh2 Hmc2 |- *.
  eapply wp_mono; [apply (IH s3); try done; [|lia]|].
  - intros w Hw. destruct (Hl w ltac:(set_solver)) as [Hw' Hnone']. split; [done|]. apply (pv_kept L s s3 a [v] _ w Hok Hok2 (change_set _ _ _ _ _ _ Hmc2)); [done|lia| |done]. set_solver.
  - intros r s4 (-> & Hok4 & Hrg4 & Hms4). split_and!; [done|done|congruence|]. by apply (mem_set_cons L s s3).
Qed.
Lemma mmap_phys_ok others L a fl n : forall s v pa, mem_ok L s -> L a -> 0 < v -> v + Z.of_nat n <= 2 ^ 19 -> (forall w, w ∈ pages v n -> pv s a w = None) -> phys fl = true ->
  pa mod 4096 = 0 -> u32 pa -> (n <= length (free_page_queue s))%nat ->
  wp (mmap_phys others a ((fun w => w * 4096) <$> pages v n) pa fl) (fun r s' => r = inl tt /\ mem_ok L s' /\ regions s' = regions s /\
    mem_set L s s' a (pages v n) (fun w => Some (Dev fl (wrap32 (pa + (w - v) * 4096))))) s.
Proof using All.
  induction n as [|n IH]; intros s v pa Hok Ha Hv Hvn Hnone Hph Hal Hu Hfree; [apply wp_ret; split_and!; try done; by apply mem_set_nil|].
  assert (pages v (S n) = v :: pages (v + 1) n) as ->.
  { rw /pages. cbn [seq fmap list_fmap]. f_equal; [lia|]. rewrite <-fmap_S_seq, <-list_fmap_compose. apply list_fmap_ext. intros k x _. unfold compose. lia. }
  cbn [fmap list_fmap mmap_phys]. apply wp_bind. eapply wp_mono; [apply (dev_page_ok others L s a v pa fl); try done; [lia|apply Hnone, elem_pages; lia|]|].
  { intros _ E. rw E in Hfree. simpl in Hfree. lia. }
  intros r s1 (-> & Hok1 & Hrg1 & [_ Hsh1] & Hmc1 & _). destruct (decide (RVal 0 = RVal 0)) as [_|]; [|done]. rw af_page.
  eapply wp_mono; [apply (IH s1); try done; [lia|lia| | | |lia]|].
  - intros w Hw%elem_pages. apply (pv_kept L s s1 a [v] _ w Hok Hok1 (change_set _ _ _ _ _ _ Hmc1)); [done|lia| |]; [|apply Hnone, elem_pages; lia]. rw list_elem_of_singleton. lia.
  - rw /wrap32. Z.div_mod_to_equations; lia.
  - rw /u32 /wrap32. Z.div_mod_to_equations; lia.
  - intros r s2 (-> & Hok2 & Hrg2 & Hms2). split_and!; [done|done|congruence|]. apply (mem_set_cons L s s1).
    + replace (wrap32 _) with pa; [done|]. rw /wrap32 Z.sub_diag Z.add_0_r Z.mod_small //.
    + eapply mem_set_ext; [|exact Hms2]. intros w _ _. simpl. do 2 f_equal. rw /wrap32. Z.div_mod_to_equations; lia.
Qed.

(** ** Unmapping *)
Lemma munmap_ok L a l : forall s, mem_ok L s -> L a -> (forall v, v ∈ l -> 0 < v < 2 ^ 19) ->
  wp (mfor ((fun w => w * 4096) <$> l) (fun va => _ ← pmap_remove a va; mret tt)) (fun _ s' => mem_ok L s' /\ regions s' = regions s /\ mem_set L s s' a l (fun _ => None)) s.
Proof using All.
  induction l as [|v l IH]; intros s Hok Ha Hl; cbn [fmap list_fmap mfor]; [apply wp_ret; split_and!; try done; by apply mem_set_nil|].
  assert (0 < v < 2 ^ 19) as Hv by (apply Hl; set_solver). apply wp_bind, wp_bind.
  assert (wp (pmap_remove a (v * 4096)) (fun _ s1 => mem_ok L s1 /\ regions s1 = regions s /\ mem_change L s s1 a v None) s) as Hone.
  { destruct (pv s a v) as [[pa fl]|] eqn:Hp.
    - eapply wp_mono; [by apply (remove_mem_ok L s a v pa fl)|]. intros r s1 (_ & ? & [? _ _ _ _] & _ & _ & ?). by split_and!.
    - rw /wp (pmap_remove_none L s a v) //; [apply Hok|]. split_and!; try done. intros b w Hb Hw. case_decide as E; [|done]. injection E as -> ->.
      apply (mem_None L); try done. apply Hok. }
  eapply wp_mono; [exact Hone|]. intros _ s1 (Hok1 & Hrg1 & Hmc1). apply wp_ret. eapply wp_mono; [apply (IH s1); try done; set_solver|].
  intros _ s2 (Hok2 & Hrg2 & Hms2). split_and!; [done|congruence|]. by apply (mem_set_cons L s s1).
Qed.
End loops.
