(* ===== verification/VmSpec.v ===== *)
(** * VmSpec: the memory of processes, as they see it

    An abstract machine in which every process has memory of its own, and the
    calls of vm/as.c, vm/mmap.c and vm/pagefault.c on it. Each call of the
    code is shown to do what the machine does. *)

From S2P Require Import Prelude Ids MemRegion MemRegionInv MemRegionCreate MemRegionFree MemRegionLife MemRegionFrame.
From S2P Require Import Pmap PmapInv PmapOps Vm VmInv VmPages VmStore VmFork VmMap.
Import Ops Inv.
Local Open Scope Z_scope.
Local Open Scope kernel_scope.

(** ** The machine *)

(** The memory of a process: its pages, by number. *)
Abbreviation memory := (Z -> option apage).
Abbreviation machine := (nat -> option memory).
Definition live (m : machine) (a : nat) : Prop := is_Some (m a).

Inductive call : Type :=
  | Create (a : nat)
  | Mmap (a : nat) (addr len prot flags offset : Z)
  | Munmap (a : nat) (addr len : Z)
  | Fork (new old : nat)
  | Store (a : nat) (va b : Z)
  | Load (a : nat) (va : Z)
  | Cleanup (a : nat)
  | Free (a : nat).
Inductive answer : Type := Int (r : ret) | Addr (o : option Z) | Done (b : bool) | Byte (o : option Z).

Section machine.
Context `{Board, Mmu, VmConsts}.
(** The flags [sys_mmap] maps pages with. *)
Definition mmap_flags (prot flags : Z) : Z := Z.lor (Z.lor (Z.ldiff (Z.land flags VM_FLAGS_MASK) VM_SYSTEM_MASK) MAP_USER) (Z.land prot VM_PROT_MASK).
(** The page that is [k] pages above the start of a new mapping. *)
Definition new_page (fl offset k : Z) : apage :=
  if phys fl then Dev fl (wrap32 (offset - Z.rem offset PAGE_SIZE + k * PAGE_SIZE)) else Anon fl (fun _ => 0).
Definition page_of (va : Z) : Z := va / PAGE_SIZE.
Definition set_pages (lo n : Z) (e : Z -> option apage) (m : memory) : memory := fun v => if decide (lo <= v < lo + n) then e v else m v.

Inductive machine_step (m : machine) : call -> answer -> machine -> Prop :=
  | StCreate a : m a = None -> machine_step m (Create a) (Int (RVal 0)) (<[a := Some (fun _ => None)]> m)
  | StCreateErr a : machine_step m (Create a) (Int (RErr ENOMEM)) m
  | StMmap a addr len prot flags offset p ad : let n := page_of (ALIGN_UP len PAGE_SIZE) in let fl := mmap_flags prot flags in
      m a = Some p -> ad mod PAGE_SIZE = 0 -> VM_USER_BASE <= ad -> ad + n * PAGE_SIZE <= VM_USER_CEILING -> (has fl MAP_FIXED = true -> ad = ALIGN_DOWN addr PAGE_SIZE) ->
      (forall v, page_of ad <= v < page_of ad + n -> p v = None) ->
      machine_step m (Mmap a addr len prot flags offset) (Addr (Some ad))
        (<[a := Some (set_pages (page_of ad) n (fun v => Some (new_page fl offset (v - page_of ad))) p)]> m)
  | StMmapErr a addr len prot flags offset : machine_step m (Mmap a addr len prot flags offset) (Addr None) m
  | StMunmap a addr len p : m a = Some p ->
      machine_step m (Munmap a addr len) (Int (RVal 0)) (<[a := Some (set_pages (page_of addr) (page_of (ALIGN_UP len PAGE_SIZE)) (fun _ => None) p)]> m)
  | StFork new old p : m old = Some p -> m new = None -> machine_step m (Fork new old) (Int (RVal 0)) (<[new := Some (fun v => child (p v))]> m)
  | StForkErr new old : machine_step m (Fork new old) (Int (RVal (-1))) m
  | StStore a va b p perm d : m a = Some p -> p (page_of va) = Some (Anon perm d) -> has perm PROT_WRITE = true ->
      machine_step m (Store a va b) (Done true) (<[a := Some (<[page_of va := Some (Anon perm (<[va mod PAGE_SIZE := b]> d))]> p)]> m)
  | StStoreErr a va b p : m a = Some p -> (forall perm d, p (page_of va) = Some (Anon perm d) -> has perm PROT_WRITE = false) -> machine_step m (Store a va b) (Done false) m
  | StLoad a va p perm d : m a = Some p -> p (page_of va) = Some (Anon perm d) -> machine_step m (Load a va) (Byte (Some (d (va mod PAGE_SIZE)))) m
  | StLoadErr a va p : m a = Some p -> p (page_of va) = None -> machine_step m (Load a va) (Byte None) m
  | StCleanup a : live m a -> machine_step m (Cleanup a) (Int (RVal 0)) (<[a := Some (fun _ => None)]> m)
  | StFree a : live m a -> machine_step m (Free a) (Done true) (<[a := None]> m).

(** ** The code *)
Variables (others : pmaps -> pmaps) (creds : nat -> Cred).
Definition vm_call (c : call) : PM answer :=
  match c with
  | Create a => r ← create_address_space a; mret (Int r)
  | Mmap a addr len prot flags offset => o ← sys_mmap others (creds a) a addr len prot flags offset; mret (Addr o)
  | Munmap a addr len => r ← sys_munmap a addr len; mret (Int r)
  | Fork new old => r ← fork_address_space others new old; mret (Int r)
  | Store a va b => ok ← user_store others a va b; mret (Done ok)
  | Load a va => o ← user_load others a va; mret (Byte o)
  | Cleanup a => r ← cleanup_address_space a; mret (Int r)
  | Free a => _ ← free_address_space a; mret (Done true)
  end.

(** A state of the code that stands for a state of the machine: the invariants
    hold, the pages hold what they should, and they are in regions that are
    allocated. *)
Record refines (m : machine) (s : pmaps) : Prop := {
  rf_mem : mem_ok (live m) s;
  rf_regs : regs_ok (live m) (regions s);
  rf_pages : forall a p v, m a = Some p -> 0 <= v < 2 ^ 19 -> mem s a v = p v;
  rf_alloc : forall a v, live m a -> 0 <= v < 2 ^ 19 -> mem s a v <> None -> exists fl, view (regions s) a (v * 4096) = Some (MR_TYPE_ALLOC, fl) }.

(** The page tables a fork copies. *)
Definition fork_tables : list Z := pages (VM_USER_BASE_PAGETABLE_ALIGNED / 2 ^ 20) (Z.to_nat ((VM_USER_CEILING - VM_USER_BASE_PAGETABLE_ALIGNED + 2 ^ 20 - 1) / 2 ^ 20)).
(** What the caller and the rest of the kernel owe to a call. There must be
    enough free pages, for otherwise it sleeps; a fork needs regions; and
    memory that is unmapped must be allocated, with the address above it. *)
Definition ready_for (m : machine) (s : pmaps) (c : call) : Prop :=
  match c with
  | Create a => m a = None
  | Mmap a addr len prot flags offset => live m a /\ 0 <= addr /\ 0 < len /\ addr + len + 8192 < 2 ^ 32 /\ 2 * page_of (ALIGN_UP len PAGE_SIZE) <= Z.of_nat (length (free_page_queue s))
  | Munmap a addr len => live m a /\ addr mod PAGE_SIZE = 0 /\ 0 < len /\ VM_USER_BASE <= addr /\ addr + len + 4096 < VM_USER_CEILING /\ (2 <= length (unused_memregion_list (regions s)))%nat /\
      forall z fl, addr <= z <= addr + ALIGN_UP len PAGE_SIZE -> view (regions s) a z <> Some (MR_TYPE_FREE, fl)
  | Fork new old => m new = None /\ live m old /\ (length (sorted (regions s) old) <= length (unused_memregion_list (regions s)))%nat /\ (tables s old fork_tables <= length (free_page_queue s))%nat
  | Store a va b => exists p, m a = Some p /\ 0 <= va < 2 ^ 31 /\ (2 <= length (free_page_queue s))%nat /\ forall perm pa, p (page_of va) <> Some (Dev perm pa)
  | Load a va => exists p, m a = Some p /\ 0 <= va < 2 ^ 31 /\ forall perm pa, p (page_of va) <> Some (Dev perm pa)
  | Cleanup a => live m a
  | Free a => exists p, m a = Some p /\ forall v, p v = None
  end.
End machine.

(** ** States *)
Section states.
Context `{Board, Mmu, VmConsts, !ArmFormat, !VmLaws}.
Implicit Types (s : pmaps) (L : nat -> Prop) (m : machine) (p : memory).

Lemma mem_ok_iff L L' s : (forall a, L a <-> L' a) -> mem_ok L s -> mem_ok L' s.
Proof using All.
  intros HL [[? ? ? ? ? ? Hvp ? ? ?] Ht Hr Hc]. split; [split|..]; try done.
  - intros a ?%HL. auto.
  - intros a b d ?%HL ?%HL. eauto.
  - intros a i t ?%HL. eauto.
  - intros a b i k t ?%HL ?%HL. eauto.
  - intros a i t j pa fl ?%HL. eauto.
  - intros q x Hm Hf Hx. destruct (Hvp q x Hm Hf Hx) as (a & i & t & j & fl & ?%HL & ?). exists a, i, t, j, fl. done.
  - intros a i t ?%HL. eauto.
  - intros a v q fl ?%HL. eauto.
Qed.
Lemma regs_ok_iff L L' r : (forall a, L a <-> L' a) -> regs_ok L r -> regs_ok L' r.
Proof using All.
  intros HL [? ? ? ?]. split; try done.
  - intros a ?%HL. auto.
  - intros a b x ?%HL ?%HL. eauto.
  - intros a Ha. rw -HL in Ha. auto.
Qed.
(** The regions are no part of the page tables. *)
Lemma mem_ok_regions L s r : mem_ok L s -> mem_ok L (s <| regions := r |>).
Proof using All. intros [[] ? ? ?]. split; [split|..]; done. Qed.
Lemma live_insert m a p b : live (<[a := Some p]> m) b <-> live m b \/ b = a.
Proof using All. rw /live. destruct (decide (b = a)) as [->|]; reads; [split; [by right|intros _; by eexists]|split; [by left|by intros [|]]]. Qed.
Lemma live_same m a p b : live m a -> live m b <-> live (<[a := Some p]> m) b.
Proof using All. intros Ha. rw live_insert. split; [by left|]. by intros [| ->]. Qed.
Lemma live_delete m a b : live (<[a := None]> m) b <-> live m b /\ b <> a.
Proof using All. rw /live. destruct (decide (b = a)) as [->|]; reads; split; try done; by intros []. Qed.
Lemma live_dec m a : live m a \/ ~ live m a.
Proof using All. rw /live. destruct (m a); [by left|]. right. by intros []. Qed.

(** One process changes. *)
Lemma refines_set m s s' a p : refines m s -> live m a -> mem_ok (live m) s' -> regs_ok (live m) (regions s') ->
  (forall b v, live m b -> b <> a -> 0 <= v < 2 ^ 19 -> mem s' b v = mem s b v /\ view (regions s') b (v * 4096) = view (regions s) b (v * 4096)) ->
  (forall v, 0 <= v < 2 ^ 19 -> mem s' a v = p v) ->
  (forall v, 0 <= v < 2 ^ 19 -> p v <> None -> exists fl, view (regions s') a (v * 4096) = Some (MR_TYPE_ALLOC, fl)) ->
  refines (<[a := Some p]> m) s'.
Proof using All.
  intros Hr Ha Hok Hreg Hoth Hp Hal. split.
  - apply (mem_ok_iff (live m)); [|done]. intros b. by apply live_same.
  - apply (regs_ok_iff (live m)); [|done]. intros b. by apply live_same.
  - intros b q v. destruct (decide (b = a)) as [->|Hne]; reads; [intros [= <-]; auto|]. intros Hb Hv. destruct (Hoth b v) as [-> _]; [by exists q|done..|]. by apply (rf_pages _ _ Hr).
  - intros b v Hb Hv Hm. destruct (decide (b = a)) as [->|Hne]; [apply Hal; [done|]; by rw -Hp|]. rw -live_same // in Hb.
    destruct (Hoth b v Hb Hne Hv) as [Em ->]. apply (rf_alloc _ _ Hr); [done..|]. by rw -Em.
Qed.
(** Only the region structures changed, and not their meaning. *)
Lemma refines_same m s s' : refines m s -> mem_ok (live m) s' -> regs_ok (live m) (regions s') ->
  (forall b v, live m b -> 0 <= v < 2 ^ 19 -> mem s' b v = mem s b v /\ view (regions s') b (v * 4096) = view (regions s) b (v * 4096)) -> refines m s'.
Proof using All.
  intros Hr Hok Hreg Hoth. split; [done|done|..].
  - intros b q v Hb Hv. destruct (Hoth b v) as [-> _]; [by exists q|done|]. by apply (rf_pages _ _ Hr).
  - intros b v Hb Hv Hm. destruct (Hoth b v Hb Hv) as [Em ->]. apply (rf_alloc _ _ Hr); [done..|]. by rw -Em.
Qed.

(** Pages are in the user range. *)
Lemma view_range r a z e : as_inv r a -> view r a z = Some e -> VM_USER_BASE <= z < VM_USER_CEILING.
Proof using All.
  intros [Hc _]. rw /view. destruct (find_covering (mr r) (sorted r a) z) as [x|] eqn:E; [|done]. intros _.
  destruct (find_covering_Some _ _ _ _ E) as [Hx Hcv%covers_iff]. pose proof (tiles_bounds _ _ _ _ x (inv_tiles _ _ Hc) Hx). lia.
Qed.
Lemma refines_user m s a v : refines m s -> live m a -> 0 <= v < 2 ^ 19 -> pv s a v <> None -> VM_USER_BASE <= v * 4096 < VM_USER_CEILING.
Proof using All.
  intros Hr Ha Hv Hp. destruct (rf_alloc _ _ Hr a v Ha Hv) as [fl Hvw]; [rw (mem_None (live m)) //; apply Hr|]. apply (view_range (regions s) a _ (MR_TYPE_ALLOC, fl)); [by apply Hr|exact Hvw].
Qed.
Lemma refines_pos m s a : refines m s -> live m a -> forall v, 0 <= v < 2 ^ 19 -> pv s a v <> None -> 0 < v.
Proof using All. intros Hr Ha v Hv Hp. pose proof (refines_user m s a v Hr Ha Hv Hp). pose proof vl_user. lia. Qed.

Lemma wp_on_regions {A} (k : M vm A) x r Q s : k (regions s) = Ok (x, r) -> Q x (s <| regions := r |>) -> wp (on_regions k) Q s.
Proof using All. intros E HQ. by rw /wp /on_regions E. Qed.
End states.
