(* ===== verification/VmCalls.v ===== *)
(** * VmCalls: each call does what the abstract machine does *)

From S2P Require Import Prelude Ids MemRegion MemRegionInv MemRegionCreate MemRegionFree MemRegionLife MemRegionFrame.
From S2P Require Import Pmap PmapInv PmapOps Vm VmInv VmPages VmStore VmFork VmMap VmSpec.
Import Ops Inv.
Local Open Scope Z_scope.
Local Open Scope kernel_scope.

Section calls.
Context `{Board, Mmu, VmConsts, !ArmFormat, !VmLaws}.
Variables (others : pmaps -> pmaps) (creds : nat -> Cred).
Implicit Types (s : pmaps) (L : nat -> Prop) (m : machine) (p : memory).

Definition good m s (c : call) : Prop := wp (vm_call others creds c) (fun r s' => exists m', machine_step m c r m' /\ refines m' s') s.

(** ** Address spaces come and go *)

(** The pages of an address space without tables. *)
Lemma same_tabs s s' b v : (forall q, page_table s' q = page_table s q) -> (forall i, tab s' b i = tab s b i) -> pv s' b v = pv s b v /\ mem s' b v = mem s b v.
Proof using All.
  intros Hpt Ht. assert (pv s' b v = pv s b v) as E. { rw /pv Ht. destruct (tab s b _); [|done]. apply ent_same. by rw Hpt. }
  split; [done|]. rw /mem E. destruct (pv s b v) as [[pa fl]|]; [|done]. by rw Hpt.
Qed.
Lemma mem_ok_tabs L L' s s' : mem_ok L s -> pmap_ok L' s' -> (forall q, page_table s' q = page_table s q) -> free_page_queue s' = free_page_queue s ->
  (forall b, L' b -> (L b /\ forall i, tab s' b i = tab s b i) \/ forall i, 0 <= i < 2048 -> tab s' b i = None) -> mem_ok L' s'.
Proof using All.
  intros [Hok Ht Hr Hc] Hok' Hpt Hf Hb. split; [done|..].
  - intros b i t Hb' Hi E. destruct (Hb b Hb') as [[Hl Hs]|Hn]; [|by rw Hn in E]. rw Hs in E. destruct (Ht b i t Hl Hi E) as (v & ? & ? & ?). exists v.
    destruct (same_tabs s s' b v Hpt Hs) as [-> _]. done.
  - intros q Hq. rw Hf /is_data /maps !Hpt. by apply Hr.
  - intros b v q fl Hb' Hv Hq E. destruct (Hb b Hb') as [[Hl Hs]|Hn]; [|rw /pv Hn // in E; Z.div_mod_to_equations; lia].
    destruct (same_tabs s s' b v Hpt Hs) as [E' _]. rw E' in E. rw /maps Hpt. by apply (Hc b v q fl).
Qed.
Lemma no_tabs_mem s a v : (forall i, 0 <= i < 2048 -> tab s a i = None) -> 0 <= v < 2 ^ 19 -> mem s a v = None.
Proof using All. intros Ht Hv. rw /mem /pv Ht //. Z.div_mod_to_equations; lia. Qed.
(** No pages, no tables. *)
Lemma no_pages_tabs L s a : mem_ok L s -> L a -> (forall v, 0 <= v < 2 ^ 19 -> mem s a v = None) -> forall i, 0 <= i < 2048 -> tab s a i = None.
Proof using All.
  intros Hok Ha Hn i Hi. destruct (tab s a i) as [t|] eqn:E; [|done]. destruct (mo_tight _ _ Hok a i t Ha Hi E) as (v & Hv & _ & Hp). destruct Hp. apply (mem_None L); [apply Hok|done|done|auto].
Qed.

(** A new address space. *)
Lemma refines_new m s s' a p : refines m s -> m a = None -> mem_ok (fun b => live m b \/ b = a) s' -> regs_ok (fun b => live m b \/ b = a) (regions s') ->
  (forall b v, live m b -> 0 <= v < 2 ^ 19 -> mem s' b v = mem s b v /\ view (regions s') b (v * 4096) = view (regions s) b (v * 4096)) ->
  (forall v, 0 <= v < 2 ^ 19 -> mem s' a v = p v) -> (forall v, 0 <= v < 2 ^ 19 -> p v <> None -> exists fl, view (regions s') a (v * 4096) = Some (MR_TYPE_ALLOC, fl)) ->
  refines (<[a := Some p]> m) s'.
Proof using All.
  intros Hr Ha Hok Hrg Hb Hn Hal. split.
  - eapply mem_ok_iff; [|exact Hok]. intros b. by rw live_insert.
  - eapply regs_ok_iff; [|exact Hrg]. intros b. by rw live_insert.
  - intros b q v. destruct (decide (b = a)) as [->|Hne]; reads; [intros [= <-]; auto|]. intros Ep Hv. destruct (Hb b v) as [-> _]; [by exists q|done|]. by apply (rf_pages _ _ Hr).
  - intros b v Hl Hv Hm. destruct (decide (b = a)) as [->|Hne]; [apply Hal; [done|]; by rw -Hn|]. apply live_insert in Hl as [Hl|]; [|done].
    destruct (Hb b v Hl Hv) as [Em ->]. apply (rf_alloc _ _ Hr); [done..|]. by rw -Em.
Qed.
Lemma not_live m a : m a = None -> ~ live m a.
Proof using All. intros E [p Hp]. congruence. Qed.

Lemma create_good m s a : refines m s -> ready_for m s (Create a) -> good m s (Create a).
Proof using All.
  intros Hr Ha. simpl in Ha. pose proof (not_live m a Ha) as Hna. pose proof Hr as [Hok Hrg _ _]. apply wp_bind, wp_bind. eapply wp_mono; [apply (pmap_create_spec (live m)); [apply Hok|done]|].
  intros r s1 (Hpt & Hf & Hrg1 & Hcase). destruct (decide (free_pmappagedir_list s = [])).
  { destruct Hcase as [-> ->]. apply wp_ret, wp_ret. exists m. split; [apply StCreateErr|done]. }
  destruct Hcase as (-> & Hok1 & Hta & Htb). destruct (decide (RVal 0 = RVal 0)) as [_|]; [|done].
  assert (mem_ok (fun b => live m b \/ b = a) s1) as Hm1. { apply (mem_ok_tabs (live m) _ s); try done. intros b [Hb| ->]; [by left; auto|by right]. }
  destruct (unused_memregion_list (regions s)) as [|x ul] eqn:Eu.
  - apply wp_bind. eapply wp_on_regions; [rw Hrg1 /init_memregions {1}/mbind {1}/M_bind {1}/upd_as {1}/modify {1}/mbind {1}/M_bind {1}/gets; simpl; by rw Eu|]. simpl.
    set r1 := setf _ (regions s). set s2 := s1 <| regions := r1 |>.
    apply wp_bind. eapply wp_mono; [apply (pmap_destroy_spec (fun b => live m b \/ b = a) s2); [apply (mem_ok_regions _ _ r1 Hm1)|by right|done]|].
    intros _ s3 (Hok3 & Hpt3 & Hf3 & Hrg3 & Htb3). apply wp_ret, wp_ret. exists m. split; [apply StCreateErr|].
    assert (forall c, asp r1 c = asp (regions s) c) as Hasp. { intros c. rw /r1. destruct (decide (c = a)) as [->|]; reads; [|done]. by rw (ro_dead _ _ Hrg). }
    assert (forall b, live m b -> b <> a) as Hba by (intros b Hb ->; done). apply (refines_same m s); [done|..].
    + apply (mem_ok_iff (fun b => (live m b \/ b = a) /\ b <> a)); [intros b; split; [by intros [[|] ?]|auto]|].
      apply (mem_ok_tabs (fun b => live m b \/ b = a) _ s1); try done. intros b [Hb _]. left. split; [done|]. intros i. by rw Htb3.
    + rw Hrg3. change (regs_ok (live m) r1). destruct Hrg as [Hi Hd Hde Hu]. split; [|..].
      * intros b Hb. apply (as_inv_frame (regions s)); try done; auto.
      * intros b c x Hb Hc. rw !Hasp. by apply Hd.
      * intros b Hb. rw Hasp. auto.
      * done.
    + intros b v Hb Hv. rw Hrg3. change (regions s2) with r1. split; [|by rw /view Hasp].
      destruct (same_tabs s1 s3 b v Hpt3) as [_ ->]; [intros i; by rw Htb3|]. by destruct (same_tabs s s1 b v Hpt) as [_ ->]; [intros i; apply Htb|].
  - destruct (init_spec (regions s) a x ul Eu) as (r1 & Hrun & Hinv1 & Hu1 & Hc1 & Hv1); [rw -Eu; apply Hrg|].
    apply wp_bind. eapply wp_on_regions; [rw Hrg1; exact Hrun|]. destruct (decide (RVal 0 = RVal 0)) as [_|]; [|done]. apply wp_ret, wp_ret. eexists. split; [by apply StCreate|].
    destruct (new_regs_ok (live m) (regions s) r1 a (init_memregions a) (RVal 0) _ Hrg Hna (stays_init _ _) Hrun Hinv1) as [Hrg2 Hview].
    apply (refines_new m s); try done.
    + by apply mem_ok_regions.
    + intros b v Hb Hv. split; [|by apply Hview]. by apply (same_tabs s (s1 <| regions := r1 |>) b v Hpt); intros i; apply Htb.
    + intros v Hv. by apply (no_tabs_mem (s1 <| regions := r1 |>)).
Qed.

Lemma free_all_run L r a : regs_ok L r -> L a -> exists r', memregion_free_all a r = Ok (tt, r') /\ regs_ok (fun b => L b /\ b <> a) r' /\ unused_memregion_list r' <> [] /\
  (forall b, L b -> b <> a -> forall z, view r' b z = view r b z).
Proof using All.
  intros Hrg Ha. destruct (memregion_free_all_correct r a (ro_inv _ _ Hrg a Ha)) as (r' & Hrun & Has & Hu & Hnd & _). exists r'.
  destruct (dead_regs_ok L r r' a _ _ Hrg Ha (stays_free_all _ _) Hrun Has Hnd) as [Hrg' Hv]. split_and!; try done.
  intros E. rw E in Hu. apply Permutation_nil in Hu. destruct (ro_inv _ _ Hrg a Ha) as [Hc _]. pose proof (inv_tiles _ _ Hc) as Ht. destruct (sorted r a); [|done]. simpl in Ht.
  pose proof user_range. lia.
Qed.
Lemma free_good m s a : refines m s -> ready_for m s (Free a) -> good m s (Free a).
Proof using All.
  intros Hr (p & Ep & Hn). pose proof Hr as [Hok Hrg Hpg Hal]. assert (live m a) as Ha by by exists p.
  assert (forall i, 0 <= i < 2048 -> tab s a i = None) as Ht. { apply (no_pages_tabs (live m)); [done|done|]. intros v Hv. by rw (Hpg a p). }
  apply wp_bind, wp_bind. eapply wp_mono; [apply (pmap_destroy_spec (live m) s); [apply Hok|done|done]|]. intros _ s1 (Hok1 & Hpt1 & Hf1 & Hrg1 & Ht1).
  destruct (free_all_run (live m) (regions s) a Hrg Ha) as (r' & Hrun & Hrg' & _ & Hv). eapply wp_on_regions; [rw Hrg1; exact Hrun|]. apply wp_ret. eexists. split; [by apply StFree|].
  assert (forall b v, mem (s1 <| regions := r' |>) b v = mem s b v) as Hm. { intros b v. destruct (same_tabs s (s1 <| regions := r' |>) b v) as [_ ?]; [exact Hpt1|intros i; apply Ht1|done]. }
  split.
  - apply (mem_ok_iff (fun b => live m b /\ b <> a)); [intros b; by rw live_delete|]. apply mem_ok_regions, (mem_ok_tabs (live m) _ s); try done. intros b [Hb _]. left. auto.
  - apply (regs_ok_iff (fun b => live m b /\ b <> a)); [intros b; by rw live_delete|done].
  - intros b q v. destruct (decide (b = a)) as [->|Hne]; reads; [done|]. rw Hm. apply Hpg.
  - intros b v [Hb Hne]%live_delete Hv'. rw Hm. intros Hm'. change (regions _) with r'. rw Hv //. by apply Hal.
Qed.

(** The tables that the loops visit. *)
Lemma tables_loop hi : upto VM_USER_BASE_PAGETABLE_ALIGNED hi (PAGE_SIZE * N_PAGETABLE_PTE) =
  (fun i => i * 2 ^ 20) <$> pages (VM_USER_BASE_PAGETABLE_ALIGNED / 2 ^ 20) (Z.to_nat ((hi - VM_USER_BASE_PAGETABLE_ALIGNED + 2 ^ 20 - 1) / 2 ^ 20)).
Proof using All.
  assert (VM_USER_BASE_PAGETABLE_ALIGNED / 2 ^ 20 * 2 ^ 20 = VM_USER_BASE_PAGETABLE_ALIGNED) as E. { pose proof vl_aligned. Z.div_mod_to_equations; lia. }
  rewrite <-E at 1 3. rewrite <-upto_tables. rw E af_page vl_pte //.
Qed.
Lemma tables_in hi i : VM_USER_CEILING <= hi <= VM_USER_CEILING + 1 ->
  i ∈ pages (VM_USER_BASE_PAGETABLE_ALIGNED / 2 ^ 20) (Z.to_nat ((hi - VM_USER_BASE_PAGETABLE_ALIGNED + 2 ^ 20 - 1) / 2 ^ 20)) -> 0 <= i < 2048.
Proof using All. intros Hhi Hi%elem_pages. pose proof vl_aligned. pose proof vl_base. pose proof vl_ceiling. Z.div_mod_to_equations; lia. Qed.
Lemma tables_all hi v : VM_USER_CEILING <= hi -> VM_USER_BASE <= v * 4096 < VM_USER_CEILING ->
  v ∈ (pages (VM_USER_BASE_PAGETABLE_ALIGNED / 2 ^ 20) (Z.to_nat ((hi - VM_USER_BASE_PAGETABLE_ALIGNED + 2 ^ 20 - 1) / 2 ^ 20)) ≫= table_pages).
Proof using All.
  intros Hhi Hv. apply list_elem_of_bind. exists (v / 256). split; [by apply elem_table_pages|]. apply elem_pages. pose proof vl_aligned. pose proof vl_base. Z.div_mod_to_equations; lia.
Qed.

Lemma cleanup_good m s a : refines m s -> ready_for m s (Cleanup a) -> good m s (Cleanup a).
Proof using All.
  intros Hr Ha. simpl in Ha. pose proof Hr as [Hok Hrg Hpg Hal]. apply wp_bind, wp_bind. rw tables_loop.
  eapply wp_mono; [apply (cleanup_tables_ok (live m)); [apply vl_pte|done|done| |by apply (refines_pos m)]|].
  { intros i. apply tables_in. lia. }
  intros _ s1 (Hok1 & Hrg1 & Hms). destruct (free_all_run (live m) (regions s) a Hrg Ha) as (r1 & Hrun1 & Hrg1' & Hu1 & Hv1).
  apply wp_bind. eapply wp_on_regions; [rw Hrg1; exact Hrun1|]. destruct (unused_memregion_list r1) as [|x ul] eqn:Eu; [done|].
  destruct (init_spec r1 a x ul Eu) as (r2 & Hrun2 & Hinv2 & Hu2 & Hc2 & Hv2); [rw -Eu; apply Hrg1'|].
  apply wp_bind. eapply wp_on_regions; [exact Hrun2|]. destruct (decide (RVal 0 = RVal 0)) as [_|]; [|done]. apply wp_ret, wp_ret. eexists. split; [by apply StCleanup|].
  destruct (new_regs_ok _ r1 r2 a (init_memregions a) (RVal 0) _ Hrg1' ltac:(by intros [_ []]) (stays_init _ _) Hrun2 Hinv2) as [Hrg2 Hview].
  apply (refines_set m s); [done|done| | | | |done].
  - by apply mem_ok_regions, mem_ok_regions.
  - eapply regs_ok_iff; [|exact Hrg2]. intros b. destruct (decide (b = a)) as [->|]; naive_solver.
  - intros b v Hb Hne Hv. split; [|change (view r2 b (v * 4096) = view (regions s) b (v * 4096)); rw Hview //; by apply Hv1].
    change (mem s1 b v = mem s b v). rw Hms // decide_False //. naive_solver.
  - intros v Hv. change (mem s1 a v = None). rw Hms //. case_decide as E; [done|]. apply (mem_None (live m)); [apply Hok|done|done|].
    destruct (pv s a v) eqn:Ep; [|done]. destruct E. split; [done|]. apply tables_all; [lia|]. apply (refines_user m s a); [done..|]. by rw Ep.
Qed.

(** ** Stores and loads *)
Lemma page_range va : 0 <= va < 2 ^ 31 -> 0 <= page_of va < 2 ^ 19 /\ page_of va * 4096 <= va < (page_of va + 1) * 4096 /\ va mod PAGE_SIZE = va - page_of va * 4096.
Proof using All. intros Hva. rw /page_of af_page. Z.div_mod_to_equations; lia. Qed.
Lemma store_good m s a va b : refines m s -> ready_for m s (Store a va b) -> good m s (Store a va b).
Proof using All.
  intros Hr (p & Ep & Hva & Hfree & Hdev). pose proof Hr as [Hok Hrg Hpg Hal]. assert (live m a) as Ha by by exists p. destruct (page_range va Hva) as (Hv & Hz & Emod).
  assert (mem s a (page_of va) = p (page_of va)) as Em by by apply Hpg.
  apply wp_bind. eapply wp_mono; [apply (user_store_ok others (live m) s a (page_of va)); try done; [by apply (refines_pos m s a)|by rw Em]|].
  intros ok s' (Hok' & Hrg' & Hcase). apply wp_ret. rw Em in Hcase. destruct (p (page_of va)) as [[perm d|perm pa]|] eqn:Epv; [|by destruct (Hdev perm pa)|].
  - destruct (has perm PROT_WRITE) eqn:Hw.
    + destruct Hcase as [-> Hmc]. eexists. split; [by apply (StStore _ a va b p perm d)|]. rw Emod. apply (refines_set m s); try done.
      * by rw Hrg'.
      * intros c v Hc Hne Hv'. rw Hrg'. split; [|done]. rw Hmc // decide_False //. congruence.
      * intros v Hv'. rw Hmc //. destruct (decide ((a, v) = (a, page_of va))) as [[= ->]|Hne]; reads; [done|by apply Hpg].
      * intros v Hv' Hm. rw Hrg'. apply (Hal a v); try done. rw (Hpg a p) //. destruct (decide (v = page_of va)) as [->|]; [by rw Epv|]. by rewrite ->fn_lookup_insert_ne in Hm by congruence.
    + destruct Hcase as [-> ->]. eexists. split; [apply (StStoreErr _ a va b p); [done|]; congruence|done].
  - destruct Hcase as [-> ->]. eexists. split; [apply (StStoreErr _ a va b p); [done|]; congruence|done].
Qed.
Lemma load_good m s a va : refines m s -> ready_for m s (Load a va) -> good m s (Load a va).
Proof using All.
  intros Hr (p & Ep & Hva & Hdev). pose proof Hr as [Hok Hrg Hpg Hal]. assert (live m a) as Ha by by exists p. destruct (page_range va Hva) as (Hv & Hz & Emod).
  assert (mem s a (page_of va) = p (page_of va)) as Em by by apply Hpg.
  apply wp_bind. rw /wp (user_load_ok others (live m) s a (page_of va)) //; [by rw Em|]. rw Em -Emod. apply wp_ret. exists m. split; [|done].
  destruct (p (page_of va)) as [[perm d|perm pa]|] eqn:Epv; [by apply (StLoad _ a va p perm d)|by destruct (Hdev perm pa)|by apply (StLoadErr _ a va p)].
Qed.

(** ** Mappings *)
Lemma align_len len : 0 < len -> len + 4096 < 2 ^ 32 -> let n := page_of (ALIGN_UP len PAGE_SIZE) in ALIGN_UP len PAGE_SIZE = n * 4096 /\ 0 < n /\ len <= n * 4096 < len + 4096.
Proof using All.
  intros Hl Hu. destruct (ALIGN_UP_spec len) as [Hb Hm]; [lia|rw af_page; lia|]. rw /page_of. rw af_page in Hb Hm *. cbv zeta. Z.div_mod_to_equations; lia.
Qed.
Lemma pages_loop v n : 0 <= v -> 0 <= n -> v * 4096 + n * 4096 < 2 ^ 32 -> upto (v * 4096) (wrap32 (v * 4096 + n * 4096)) PAGE_SIZE = (fun w => w * 4096) <$> pages v (Z.to_nat n).
Proof using All. intros Hv Hn Hu. rw wrap32_id; [rw /u32; lia|]. rw af_page -upto_pages Z2Nat.id //. Qed.

Lemma munmap_good m s a addr len : refines m s -> ready_for m s (Munmap a addr len) -> good m s (Munmap a addr len).
Proof using All.
  intros Hr ([p Ep] & Hal & Hlen & Hb & Hc & Hu & Halloc). pose proof Hr as [Hok Hrg Hpg Hall]. assert (live m a) as Ha by by exists p. pose proof user_ceiling_u32 as Hcu. pose proof vl_ceiling as Hcc. pose proof vl_user as Hbu.
  destruct (align_len len Hlen) as (En & Hn & Hln); [lia|]. set n := page_of (ALIGN_UP len PAGE_SIZE) in En Hn Hln |- *. set v0 := page_of addr.
  assert (addr = v0 * 4096) as Ea. { rw /v0 /page_of. rw af_page in Hal *. Z.div_mod_to_equations; lia. }
  apply wp_bind. rw /sys_munmap En. rw (_ : ALIGN_DOWN addr PAGE_SIZE = addr). { rw /ALIGN_DOWN. lia. }
  cbv zeta. rw (_ : upto addr (wrap32 (addr + n * 4096)) PAGE_SIZE = (fun w => w * 4096) <$> pages v0 (Z.to_nat n)). { rw Ea. apply pages_loop; lia. }
  apply wp_bind. eapply wp_mono; [apply (munmap_ok (live m)); [done|done|]|].
  { intros v Hv%elem_pages. lia. }
  intros _ s1 (Hok1 & Hrg1 & Hms). rw En in Halloc.
  destruct (memregion_free_run (regions s) a addr (n * 4096) (ro_inv _ _ Hrg a Ha)) as (r' & Hrun & Hco & Has & Hvw & Hfo & _); [lia|done|lia|done|intros z Hz fl; apply Halloc; lia|].
  apply wp_bind. eapply wp_on_regions; [rw Hrg1; exact Hrun|]. apply wp_ret, wp_ret. eexists. split; [by apply (StMunmap _ a addr len p)|].
  assert (as_inv r' a) as Hinv. { split; [done|]. apply Hfo. intros fl. apply Halloc. lia. }
  destruct (op_regs_ok (live m) (regions s) r' a _ _ _ Hrg Ha (stays_free _ _ addr (n * 4096)) Hrun Hinv) as [Hrg' Hvo].
  apply (refines_set m s); try done.
  - by apply mem_ok_regions.
  - intros b v Hb' Hne Hv. split; [|by apply Hvo]. change (mem s1 b v = mem s b v). rw Hms // decide_False //. naive_solver.
  - intros v Hv. change (mem s1 a v = set_pages v0 n (fun _ => None) p v). rw Hms // /set_pages (Hpg a p) //. destruct (decide (v0 <= v < v0 + n)) as [E|E].
    + rw decide_True //. split; [done|]. apply elem_pages. lia.
    + rw decide_False //. intros [_ E'%elem_pages]. lia.
  - intros v Hv. rw /set_pages. case_decide as E; [done|]. intros Hp. change (exists fl, view r' a (v * 4096) = Some (MR_TYPE_ALLOC, fl)). rw Hvw decide_False; [lia|].
    apply Hall; try done. by rw (Hpg a p).
Qed.

Lemma mmap_flags_cow prot flags : Z.ldiff (mmap_flags prot flags) MAP_COW = mmap_flags prot flags.
Proof using All.
  apply Z.bits_inj'. intros k Hk. rw Z.ldiff_spec. destruct (Z.testbit MAP_COW k) eqn:E; [|by rw andb_true_r]. assert (k = 26) as ->. { rw /MAP_COW bit_testbit // in E. by apply bool_decide_eq_true in E. }
  rw andb_false_r. symmetry. rw /mmap_flags !Z.lor_spec Z.ldiff_spec. apply orb_false_iff. split; [apply orb_false_iff; split; [by rw andb_false_r|done]|].
  rw Z.land_spec. pose proof (f_equal (fun z => Z.testbit z 26) vl_prot) as Ev. cbv beta in Ev. rw Z.land_spec E Z.bits_0 andb_true_r in Ev. by rw Ev andb_false_r.
Qed.
Lemma wp_ret_bind {A B} (x : A) (k : A -> PM B) Q s : wp (k x) Q s -> wp (mret x ≫= k) Q s.
Proof. intros Hk. by apply wp_bind, wp_ret. Qed.
(** The pages of a range, which have none yet, get new ones. *)
Lemma mmap_loop m s a v n fl offset : mem_ok (live m) s -> live m a -> 0 < v -> 0 < n -> v + n <= 2 ^ 19 -> (forall w, v <= w < v + n -> pv s a w = None) -> Z.ldiff fl MAP_COW = fl ->
  2 * n <= Z.of_nat (length (free_page_queue s)) -> let l := (fun w => w * 4096) <$> pages v (Z.to_nat n) in
  wp (if has fl MAP_PHYS then mmap_phys others a l (wrap32 (offset - Z.rem offset PAGE_SIZE)) fl else mmap_anon others a l fl) (fun r s' => r = inl tt /\ mem_ok (live m) s' /\
    regions s' = regions s /\ mem_set (live m) s s' a (pages v (Z.to_nat n)) (fun w => Some (new_page fl offset (w - v)))) s.
Proof using All.
  intros Hok Ha Hv Hn Hvn Hnone Hcow Hfree l. change (has fl MAP_PHYS) with (phys fl). rw /new_page af_page. destruct (phys fl) eqn:Hph.
  - set o := offset - Z.rem offset 4096. assert (o mod 4096 = 0) as Ho. { pose proof (Z.quot_rem' offset 4096) as Eq. replace o with (Z.quot offset 4096 * 4096) by (rw /o; lia). by apply Z.mod_mul. }
    eapply wp_mono; [apply (mmap_phys_ok others (live m) a fl (Z.to_nat n) s v (wrap32 o)); try done|].
    + lia.
    + intros w Hw%elem_pages. apply Hnone. lia.
    + rw /wrap32. Z.div_mod_to_equations; lia.
    + apply wrap32_u32.
    + lia.
    + intros r s' (-> & Hok' & Hrg' & Hms). split_and!; try done. eapply mem_set_ext; [|exact Hms]. intros w _ _. simpl. do 2 f_equal. rw /wrap32. Z.div_mod_to_equations; lia.
  - eapply wp_mono; [apply (mmap_anon_ok others (live m) a fl (pages v (Z.to_nat n)) s); try done|].
    + apply NoDup_pages.
    + intros w Hw%elem_pages. split; [lia|]. apply Hnone. lia.
    + rw length_fmap length_seq. lia.
    + intros r s' (-> & Hok' & Hrg' & Hms). rw Hcow in Hms. by split_and!.
Qed.
Lemma mmap_good m s a addr len prot flags offset : let c := Mmap a addr len prot flags offset in refines m s -> ready_for m s c -> good m s c.
Proof using All.
  intros c Hr ([p Ep] & Haddr & Hlen & Hu & Hfree). pose proof Hr as [Hok Hrg Hpg Hall]. assert (live m a) as Ha by by exists p. pose proof vl_ceiling as Hcc. pose proof vl_user as Hbu.
  destruct (align_len len Hlen) as (En & Hn & Hln); [lia|]. set n := page_of (ALIGN_UP len PAGE_SIZE) in En Hn Hln Hfree |- *. set fl := mmap_flags prot flags.
  assert (0 <= ALIGN_DOWN addr PAGE_SIZE <= addr /\ ALIGN_DOWN addr PAGE_SIZE mod 4096 = 0) as [Had Hadm]. { rw /ALIGN_DOWN af_page. Z.div_mod_to_equations; lia. }
  destruct (memregion_create_run (regions s) a (ALIGN_DOWN addr PAGE_SIZE) (n * 4096) fl MR_TYPE_ALLOC (ro_inv _ _ Hrg a Ha)) as (r & r1 & Hrun & Hinv & Has & Hcr); [lia|intros _; lia|done|done|].
  destruct (op_regs_ok (live m) (regions s) r1 a _ _ _ Hrg Ha (stays_create _ _ _ _ _ _) Hrun Hinv) as [Hrg1 Hvo]. pose proof (mem_ok_regions (live m) s r1 Hok) as Hok1.
  apply wp_bind. rw /sys_mmap En. destruct (decide (check_privileges _ _ = RVal 0)) as [_|]; [|done]. fold (mmap_flags prot flags). fold fl. apply wp_bind. eapply wp_on_regions; [exact Hrun|]. set s1 := s <| regions := r1 |> in Hok1 |- *.
  destruct r as [x|]; last first.
  { destruct Hcr as [Hv _]. apply wp_ret, wp_ret. exists m. split; [apply StMmapErr|]. apply (refines_same m s); try done. intros b v Hb _. split; [done|]. change (regions s1) with r1.
    destruct (decide (b = a)) as [->|]; [done|by apply Hvo]. }
  destruct Hcr as (ad & Ead & _ & _ & Hfix & Hold & Hnew). assert (ad mod 4096 = 0) as Hadal. { destruct (has fl MAP_FIXED); [by rw Hfix|by rw -af_page]. }
  assert (VM_USER_BASE <= ad /\ ad + n * 4096 <= VM_USER_CEILING) as [Hlo Hhi].
  { pose proof (view_range _ a ad _ (ro_inv _ _ Hrg a Ha) (Hold ad ltac:(lia))). pose proof (view_range _ a (ad + n * 4096 - 1) _ (ro_inv _ _ Hrg a Ha) (Hold (ad + n * 4096 - 1) ltac:(lia))). lia. }
  set v0 := page_of ad. assert (ad = v0 * 4096) as Ev0. { rw /v0 /page_of af_page. Z.div_mod_to_equations; lia. }
  apply wp_bind, wp_gets. change (base_addr (mr (regions s1) x)) with (base_addr (mr r1 x)). rw Ead. rw (_ : upto ad (wrap32 (ad + n * 4096)) PAGE_SIZE = (fun w => w * 4096) <$> pages v0 (Z.to_nat n)).
  { rw Ev0. apply pages_loop; lia. }
  assert (forall w, v0 <= w < v0 + n -> pv s1 a w = None) as Hnone.
  { intros w Hw. change (pv s a w = None). destruct (pv s a w) eqn:E; [|done]. destruct (Hall a w Ha ltac:(lia)) as [fl' Hvw]; [rw (mem_None (live m)); [apply Hok|done|lia|by rw E]|]. rw Hold in Hvw; [lia|done]. }
  apply wp_bind. eapply wp_mono; [apply (mmap_loop m s1 a v0 n fl offset); try done; [lia|lia|apply mmap_flags_cow]|].
  intros r s2 (-> & Hok2 & Hrg2 & Hms). apply wp_ret, wp_ret. eexists. split; [apply (StMmap _ a addr len prot flags offset p ad); [done|by rw af_page|done|fold n; rw {1}af_page; lia|..]|].
  { fold fl. intros E. by rw E in Hfix. }
  { intros v Hv. rw -(Hpg a p) //; [lia|]. apply (mem_None (live m)); [apply Hok|done|lia|]. by apply (Hnone v). }
  fold n fl v0. change (mem_set (live m) s s2 a (pages v0 (Z.to_nat n)) (fun w => Some (new_page fl offset (w - v0)))) in Hms. apply (refines_set m s); try done.
  - by rw Hrg2.
  - intros b v Hb Hne Hv. rw Hrg2. split; [|by apply Hvo]. rw Hms // decide_False //. naive_solver.
  - intros v Hv. rw Hms // /set_pages (Hpg a p) //. destruct (decide (v0 <= v < v0 + n)) as [E|E].
    + rw decide_True //. split; [done|]. apply elem_pages. lia.
    + rw decide_False //. intros [_ E'%elem_pages]. lia.
  - intros v Hv. rw Hrg2. change (regions s1) with r1. rw /set_pages Hnew. destruct (decide (v0 <= v < v0 + n)).
    + intros _. rw decide_True; [lia|]. by exists fl.
    + intros Hp. rw decide_False; [lia|]. apply Hall; try done. by rw (Hpg a p).
Qed.

(** ** Fork *)
Lemma fork_good m s new old : refines m s -> ready_for m s (Fork new old) -> good m s (Fork new old).
Proof using All.
  intros Hr (Hnew & [p Ep] & Hreg & Htabs). pose proof (not_live m new Hnew) as Hnn. pose proof Hr as [Hok Hrg Hpg Hall]. assert (live m old) as Ho by by exists p.
  assert (new <> old) as Hne by congruence. apply wp_bind, wp_bind. eapply wp_mono; [apply (pmap_create_spec (live m)); [apply Hok|done]|]. intros r s1 (Hpt & Hf & Hrg1 & Hcase).
  destruct (decide (free_pmappagedir_list s = [])).
  { destruct Hcase as [-> ->]. apply wp_ret, wp_ret. exists m. split; [apply StForkErr|done]. }
  destruct Hcase as (-> & Hok1 & Htn & Htb). destruct (decide (RVal 0 = RVal 0)) as [_|]; [|done]. set L' := fun b => live m b \/ b = new.
  assert (mem_ok L' s1) as Hm1. { apply (mem_ok_tabs (live m) _ s); try done. intros b [Hb| ->]; [by left; auto|by right]. }
  destruct (fork_memregions_run (regions s) new old (ro_inv _ _ Hrg old Ho) Hne) as (r & r1 & Hrun & _ & _ & Hvold & Hfk). rw /forked decide_True // in Hfk. destruct Hfk as (-> & Hinv & Hvnew & _).
  destruct (new_regs_ok (live m) (regions s) r1 new _ _ _ Hrg Hnn (stays_fork _ _ old) Hrun Hinv) as [Hrg2 Hvo].
  apply wp_bind. eapply wp_on_regions; [rw Hrg1; exact Hrun|]. destruct (decide (RVal 0 = RVal 0)) as [_|]; [|done]. set s2 := s1 <| regions := r1 |>.
  assert (forall b v, live m b -> pv s2 b v = pv s b v /\ mem s2 b v = mem s b v) as Hsame. { intros b v Hb. apply (same_tabs s s2 b v Hpt). intros i. by apply Htb. }
  apply wp_bind. rw tables_loop. eapply wp_mono; [apply (fork_tables_ok others L' new old); [apply vl_pte|by apply mem_ok_regions|by right|by left|done|apply NoDup_pages| | | |]|].
  { intros i. apply tables_in. lia. }
  { intros v Hv. destruct (Hsame old v Ho) as [-> _]. by apply (refines_pos m s old). }
  { intros v Hv _. apply tab_None_pv. apply Htn. Z.div_mod_to_equations; lia. }
  { change (free_page_queue s2) with (free_page_queue s1). rw Hf. fold fork_tables. assert (tables s2 old fork_tables = tables s old fork_tables) as ->; [|done].
    rw /tables. f_equal. apply list_fmap_ext. intros k i _. rw /has_tab. change (tab s2 old i) with (tab s1 old i). by rw Htb. }
  intros b s3 (-> & Hok3 & Hrg3 & Hms & _). apply wp_ret, wp_ret. eexists. split; [by apply (StFork _ new old p)|].
  assert (forall v, 0 <= v < 2 ^ 19 -> p v <> None -> exists fl, view (regions s) old (v * 4096) = Some (MR_TYPE_ALLOC, fl)) as Halo. { intros v Hv Hp. apply Hall; try done. by rw (Hpg old p). }
  apply (refines_new m s); try done.
  - by rw Hrg3.
  - intros b v Hb Hv. rw Hrg3. split; [|by apply Hvo]. rw Hms //; [by left|]. rw decide_False; [intros [-> _]; done|]. by apply Hsame.
  - intros v Hv. rw Hms //; [by right|]. rw (proj2 (Hsame old v Ho)) (Hpg old p) //. case_decide as E; [done|]. rw (no_tabs_mem s2) //.
    destruct (p v) eqn:E'; [|done]. destruct E. split; [done|]. apply tables_all; [lia|]. destruct (Halo v Hv) as [fl Hvw]; [by rw E'|]. by apply (view_range (regions s) old _ (MR_TYPE_ALLOC, fl)); [apply Hrg|].
  - intros v Hv Hp. rw Hrg3. change (regions s2) with r1. rw Hvnew. apply Halo; [done|]. intros E. by rw E in Hp.
Qed.

(** Every call does what the machine does. *)
Lemma call_good m s c : refines m s -> ready_for m s c -> good m s c.
Proof using All.
  destruct c; [apply create_good|apply mmap_good|apply munmap_good|apply fork_good|apply store_good|apply load_good|apply cleanup_good|apply free_good].
Qed.
End calls.
