(* ===== verification/VmThms.v ===== *)
(** * VmThms: processes have memory of their own

    The main theorem on virtual memory, for all sequences of calls from the
    state the kernel starts in, and runs of the code on a small machine: one
    that meets the theorem's hypotheses, and some that the hypotheses rule
    out. *)

From S2P Require Import Prelude Ids MemRegion MemRegionInv MemRegionLife MemRegionFrame Pmap PmapInv PmapOps Vm VmInv VmPages VmFork VmSpec VmCalls.
Import Ops Inv.
Local Open Scope Z_scope.
Local Open Scope kernel_scope.

Section private.
Context `{Board, Mmu, VmConsts, !ArmFormat, !VmLaws}.
Variables (others : pmaps -> pmaps) (creds : nat -> Cred).
Implicit Types (s : pmaps) (m : machine).

(** The kernel has started: no address spaces, and no page is mapped. *)
Record vm_started s : Prop := {
  vs_pages : NoDup (free_page_queue s) /\ forall p, p ∈ free_page_queue s -> (p < max_page)%nat;
  vs_vptes : forall p, (p < max_page)%nat -> vpte_list (page_table s p) = [];
  vs_dirs : NoDup (free_pmappagedir_list s);
  vs_regions : NoDup (unused_memregion_list (regions s)) /\ forall a, asp (regions s) a = no_regions }.
Lemma started_refines s : vm_started s -> refines (fun _ => None) s.
Proof using All.
  intros [[Hnd Hmax] Hv Hd [Hu Ha]]. assert (forall a, ~ live (fun _ => None) a) as Hno by (by intros a []). split; [split; [split|..]|split|..]; try done; try by (intros a; intros; by destruct (Hno a)).
  - intros p x Hm _. rw Hv //. set_solver.
  - intros p Hm _. rw Hv //. constructor.
  - intros p Hm _ _. rw /maps Hv //=. lia.
Qed.

(** The answer of a call determines what the machine does. *)
Lemma machine_step_det m c r m1 m2 : machine_step m c r m1 -> machine_step m c r m2 -> m1 = m2.
Proof using All.
  intros H1' H2'. inversion H1'; subst; inversion H2'; subst; repeat match goal with E : ?x = Some _, E' : ?x = Some _ |- _ => rewrite E in E'; injection E' as ? end; subst; try done; congruence.
Qed.

(** Calls one after the other, and what the machine does meanwhile. *)
Inductive vm_trace m s : machine -> pmaps -> Prop :=
  | TraceNil : vm_trace m s m s
  | TraceCall m1 s1 c r m2 s2 : vm_trace m s m1 s1 -> ready_for m1 s1 c -> vm_call others creds c s1 = Ok (r, s2) -> machine_step m1 c r m2 -> vm_trace m s m2 s2.
Lemma trace_refines m s m' s' : refines m s -> vm_trace m s m' s' -> refines m' s'.
Proof using All.
  intros Hr Ht. induction Ht as [|m1 s1 c r m2 s2 Ht IH Hc Hrun Hst]; [done|]. pose proof (call_good others creds m1 s1 c IH Hc) as Hg. rw /good /wp Hrun in Hg.
  destruct Hg as (m2' & Hst' & Hr'). by rewrite ->(machine_step_det m1 c r m2 m2' Hst Hst').
Qed.

End private.

(** ** A small machine *)

(** The layout of the Raspberry Pi 1, the descriptors of the ARM
    architecture, and 16 page frames, of which the first [n] are free. *)
Module Sample.
#[export] Instance sample_board : Board := rpi1_board.
#[export] Instance sample_mmu : Mmu := {|
  L1_ADDR_BITS := 0xfff00000; L1_IDX_SHIFT := 20; L1_TYPE_MASK := 3; L1_TYPE_INV := 0; L1_TYPE_C := 1; L1_C_ADDR_MASK := 0xfffffc00;
  L2_ADDR_BITS := 0x000ff000; L2_IDX_SHIFT := 12; L2_TYPE_MASK := 3; L2_TYPE_INV := 0; L2_TYPE_S := 2; L2_ADDR_MASK := 0xfffff000;
  L2_AP_RWKU := 0x30; L2_AP_RKU := 0x230; L2_NX := 1; L2_B := 4; L2_C := 8;
  PROT_READ := 1; PROT_WRITE := 2; PROT_EXEC := 4; MAP_PHYS := bit 16;
  VM_CACHE_MASK := 0x700000; CACHE_DEFAULT := 0; CACHE_WRITEBACK := 0x100000; CACHE_WRITETHRU := 0x200000; CACHE_WRITECOMBINE := 0x300000; CACHE_UNCACHEABLE := 0x400000;
  root_pagedir := fun _ => 0; max_page := 16 |}.
#[export] Instance sample_consts : VmConsts :=
  {| VM_FLAGS_MASK := 0x7ffff0; VM_PROT_MASK := 7; PRIV_VALLOC := 1; PRIV_VALLOCPHYS := 2; N_PAGETABLE_PTE := 256; VM_USER_BASE_PAGETABLE_ALIGNED := 0x00400000; L2_AP_MASK := 0x230 |}.
#[export] Instance sample_format : ArmFormat.
Proof.
  split; try done.
  - repeat constructor; done.
  - by exists 1.
  - by exists 16.
Qed.
#[export] Instance sample_laws : VmLaws.
Proof. split; try done. repeat constructor. Qed.

Definition idle (s : pmaps) : pmaps := s.
Definition nobody (a : nat) : Cred := mkCred 0 0 0 0 0 0 0 [] 0 0.
Definition start (n : nat) : pmaps :=
  mkPmaps (fun _ => mkPage 0 [] (Data (fun _ => 0))) (seq 0 n) (fun _ _ => 0) [0; 1; 2; 3]%nat (fun _ => None)
    (mkVm (fun _ => mkMemRegion 0 0 None MR_TYPE_UNALLOCATED 0 0) (seq 0 20) (fun _ => mkAddressSpace [] [] None)).
Definition answer_of {A} (r : outcome (A * pmaps)) : option A := match r with Ok (x, _) => Some x | _ => None end.
Definition after {A} (k : PM A) (s : pmaps) : pmaps := match k s with Ok (_, s') => s' | _ => s end.
Lemma run_eq {A} (k : PM A) s x : answer_of (k s) = Some x -> k s = Ok (x, after k s).
Proof. rw /answer_of /after. destruct (k s) as [[y s']| |]; [|done..]. by intros [= ->]. Qed.

(** A process maps two pages and writes a byte; it forks, and its child writes
    another. *)
Definition c1 : call := Create 0.
Definition c2 : call := Mmap 0 0x400000 0x2000 3 16 0.
Definition c3 : call := Store 0 0x400005 77.
Definition c4 : call := Fork 1 0.
Definition c5 : call := Store 1 0x400005 99.
Definition c6 : call := Load 0 0x400005.
Abbreviation go c s := (after (vm_call idle nobody c) s).
Definition s0 : pmaps := start 12.
Definition s1 : pmaps := go c1 s0.
Definition s2 : pmaps := go c2 s1.
Definition s3 : pmaps := go c3 s2.
Definition s4 : pmaps := go c4 s3.
Definition s5 : pmaps := go c5 s4.
Lemma sample_answers : answer_of (vm_call idle nobody c1 s0) = Some (Int (RVal 0)) /\ answer_of (vm_call idle nobody c2 s1) = Some (Addr (Some 0x400000)) /\
  answer_of (vm_call idle nobody c3 s2) = Some (Done true) /\ answer_of (vm_call idle nobody c4 s3) = Some (Int (RVal 0)) /\ answer_of (vm_call idle nobody c5 s4) = Some (Done true) /\
  answer_of (vm_call idle nobody c6 s5) = Some (Byte (Some 77)).
Proof. vm_compute. done. Qed.

Definition fl0 : Z := mmap_flags 3 16.
Definition p1 : memory := fun _ => None.
Definition p2 : memory := set_pages (page_of 0x400000) (page_of (ALIGN_UP 0x2000 PAGE_SIZE)) (fun v => Some (new_page fl0 0 (v - page_of 0x400000))) p1.
Definition p3 : memory := <[page_of 0x400005 := Some (Anon fl0 (<[0x400005 mod PAGE_SIZE := 77]> (fun _ => 0)))]> p2.
Definition p4 : memory := fun v => child (p3 v).
Definition p5 : memory := <[page_of 0x400005 := Some (Anon fl0 (<[0x400005 mod PAGE_SIZE := 99]> (<[0x400005 mod PAGE_SIZE := 77]> (fun _ => 0))))]> p4.
Definition m0 : machine := fun _ => None.
Definition m1 : machine := <[0%nat := Some p1]> m0.
Definition m2 : machine := <[0%nat := Some p2]> m1.
Definition m3 : machine := <[0%nat := Some p3]> m2.
Definition m4 : machine := <[1%nat := Some p4]> m3.
Definition m5 : machine := <[1%nat := Some p5]> m4.
Lemma sample_started : vm_started s0.
Proof.
  split; try done.
  - split; [apply (NoDup_seq 0 12)|]. intros p Hp. apply (elem_of_seq 0 12 p) in Hp. change (p < 16)%nat. lia.
  - apply (NoDup_seq 0 4).
  - split; [apply (NoDup_seq 0 20)|done].
Qed.
Lemma sample_steps : machine_step m0 c1 (Int (RVal 0)) m1 /\ machine_step m1 c2 (Addr (Some 0x400000)) m2 /\ machine_step m2 c3 (Done true) m3 /\
  machine_step m3 c4 (Int (RVal 0)) m4 /\ machine_step m4 c5 (Done true) m5.
Proof.
  split_and!.
  - by apply StCreate.
  - by apply StMmap.
  - by apply (StStore _ 0 _ _ p2 fl0 (fun _ => 0)).
  - by apply (StFork _ 1 0 p3).
  - by apply (StStore _ 1 _ _ p4 fl0 (<[0x400005 mod PAGE_SIZE := 77]> (fun _ => 0))).
Qed.
Lemma sample_ready : ready_for m0 s0 c1 /\ ready_for m1 s1 c2 /\ ready_for m2 s2 c3 /\ ready_for m3 s3 c4 /\ ready_for m4 s4 c5 /\ ready_for m5 s5 c6.
Proof.
  split_and!.
  - done.
  - split_and!; [by exists p1|done..|]. vm_compute. congruence.
  - exists p2. split_and!; try done. vm_compute. lia.
  - split_and!; [done|by exists p3|vm_compute; lia|vm_compute; lia].
  - exists p4. split_and!; try done. vm_compute. lia.
  - exists p3. by split_and!.
Qed.
Lemma vm_sample_trace : vm_trace idle nobody (fun _ => None) s0 m5 s5.
Proof.
  destruct sample_answers as (A1 & A2 & A3 & A4 & A5 & _), sample_steps as (S1 & S2 & S3 & S4 & S5), sample_ready as (R1 & R2 & R3 & R4 & R5 & _).
  apply (TraceCall _ _ _ _ m4 s4 c5 (Done true)); [|exact R5|exact (run_eq _ _ _ A5)|exact S5]. apply (TraceCall _ _ _ _ m3 s3 c4 (Int (RVal 0))); [|exact R4|exact (run_eq _ _ _ A4)|exact S4].
  apply (TraceCall _ _ _ _ m2 s2 c3 (Done true)); [|exact R3|exact (run_eq _ _ _ A3)|exact S3]. apply (TraceCall _ _ _ _ m1 s1 c2 (Addr (Some 0x400000))); [|exact R2|exact (run_eq _ _ _ A2)|exact S2].
  apply (TraceCall _ _ _ _ m0 s0 c1 (Int (RVal 0))); [apply TraceNil|exact R1|exact (run_eq _ _ _ A1)|exact S1].
Qed.
End Sample.
Import Sample.


(** ** What the hypotheses rule out *)

(** Entering a page that is mapped takes away the page table, and with it the
    other pages of the megabyte. *)
Lemma enter_mapped_run :
  answer_of ((o ← user_load idle 0 0x401000; r ← pmap_enter idle 0 0x400000 0x3000 3; o' ← user_load idle 0 0x401000; mret (o, r, o')) s2) = Some (Some 0, RErr EINVAL, None).
Proof. vm_compute. done. Qed.

(** [sys_munmap] does not give page frames back: the process maps a page and
    another above it, unmaps the first and exits, and one of the twelve page
    frames is lost. *)
Lemma munmap_leaks_run :
  answer_of ((_ ← create_address_space 0; _ ← sys_mmap idle (nobody 0%nat) 0 0x400000 0x1000 3 16 0; _ ← sys_mmap idle (nobody 0%nat) 0 0x401000 0x1000 3 16 0;
    r ← sys_munmap 0 0x400000 0x1000; r' ← cleanup_address_space 0; _ ← free_address_space 0; l ← gets (fun s => length (free_page_queue s)); mret (r, r', l)) s0) = Some (RVal 0, RVal 0, 11%nat).
Proof. vm_compute. done. Qed.

(** Without enough regions a fork gives the page directory back twice. *)
Lemma fork_frees_twice_run : fork_address_space idle 1 0 (s3 <| regions ::= fun r => r <| unused_memregion_list := [] |> |>) = Fault.
Proof. vm_compute. done. Qed.

(** With four page frames, a child that writes has to sleep for a page to
    copy to, after it has dropped its reference. If the parent exits
    meanwhile, the page they shared is free: the child gets the page that it
    is about to copy, cleared. *)
Definition parent_exits (s : pmaps) : pmaps := after (cleanup_address_space 0) s.
Lemma fault_race_run :
  answer_of ((_ ← create_address_space 0; _ ← sys_mmap idle (nobody 0%nat) 0 0x400000 0x2000 3 16 0; _ ← user_store idle 0 0x401005 77; _ ← fork_address_space idle 1 0;
    o ← user_load idle 1 0x401005; ok ← user_store parent_exits 1 0x401006 99; o' ← user_load idle 1 0x401005; mret (o, ok, o')) (start 4)) = Some (Some 77, true, Some 0).
Proof. vm_compute. done. Qed.

(** A page table walk for another process: the fault is handled in the
    current process. When that has no such page, the walk fails although the
    page may be written; when it has one, the walk gives the address of a page
    frame that the other process shares, and what the kernel writes there its
    sibling reads. *)
Definition kernel_store (ka b : Z) : PM unit :=
  upd_page (pmap_va_to_page ka) (fun x => match contents x with Data d => x <| contents := Data (<[ka mod PAGE_SIZE := b]> d) |> | Table _ _ => x end).
Definition family : PM unit :=
  _ ← create_address_space 0; _ ← sys_mmap idle (nobody 0%nat) 0 0x400000 0x1000 3 16 0; _ ← user_store idle 0 0x400005 77;
  _ ← fork_address_space idle 1 0; _ ← fork_address_space idle 2 0; _ ← create_address_space 3; mret tt.
Lemma walk_of_other_run :
  answer_of ((_ ← family; r ← pmap_pagetable_walk idle 3 1 PROT_WRITE 0x400005; ok ← user_store idle 1 0x400005 78; mret (r, ok)) s0) = Some (inr EFAULT, true) /\
  answer_of ((_ ← family; r ← pmap_pagetable_walk idle 0 1 PROT_WRITE 0x400005; _ ← match r with inl ka => kernel_store ka 99 | inr _ => mret tt end;
    o ← user_load idle 2 0x400005; mret o) s0) = Some (Some 99).
Proof. vm_compute. done. Qed.
