(* ===== verification/Irq.v ===== *)
(** * Irq: interrupt servers, proc/interrupt.c

    Device drivers are processes. A thread that asks for the interrupts of a
    device gets a handler: a structure on the list of the interrupt and on that
    of the thread. When the interrupt occurs it is masked, and the event of
    every handler on its list is sent to the handler's thread, which unmasks
    the interrupt when it has served the device. The interrupt controller is
    that of the Raspberry Pi 4 (boards/raspberry_pi_4/interrupt.c), the events
    are those of [Event]. *)

From S2P Require Import Prelude Ids Sched SchedQueue Bkl BklSteps Event.
Local Open Scope Z_scope.
Local Open Scope kernel_scope.

(** boards/raspberry_pi_4/include/kernel/board/interrupt.h *)
Definition NIRQ : Z := 192.
Definition BASE_USER_IRQ : Z := 96.
Definition IRQ_TIMER3 : Z := 99.
Definition IRQ_SPURIOUS : Z := 1023.
(** <sys/privileges.h> *)
Class IrqConsts := { PRIV_INTERRUPT : Z }.

Record ISRHandler := mkISRHandler { isr_thread : option nat; isr_irq : Z; isr_event : Z }.
Definition eta_ISRHandler x := mkISRHandler (isr_thread x) (isr_irq x) (isr_event x).
#[export] Instance set_isr_thread : Setter isr_thread := ltac:(solve_setter eta_ISRHandler).
#[export] Instance set_isr_irq : Setter isr_irq := ltac:(solve_setter eta_ISRHandler).
#[export] Instance set_isr_event : Setter isr_event := ltac:(solve_setter eta_ISRHandler).

(** The tables of proc/globals.c, the handlers and the process of each thread,
    which lines the controller has enabled, and the threads. *)
Record irqs := mkIrqs {
  isr_handler_table : nat -> ISRHandler;
  isr_handler_free_list : list nat;
  isr_handler_list : Z -> list nat;
  thread_isrs : nat -> list nat;
  thread_process : nat -> nat;
  irq_handler_cnt : Z -> Z;
  irq_mask_cnt : Z -> Z;
  irq_enabled : Z -> bool;
  threads : sched }.
Definition eta_irqs s := mkIrqs (isr_handler_table s) (isr_handler_free_list s) (isr_handler_list s) (thread_isrs s) (thread_process s)
  (irq_handler_cnt s) (irq_mask_cnt s) (irq_enabled s) (threads s).
#[export] Instance set_isr_handler_table : Setter isr_handler_table := ltac:(solve_setter eta_irqs).
#[export] Instance set_isr_handler_free_list : Setter isr_handler_free_list := ltac:(solve_setter eta_irqs).
#[export] Instance set_isr_handler_list : Setter isr_handler_list := ltac:(solve_setter eta_irqs).
#[export] Instance set_thread_isrs : Setter thread_isrs := ltac:(solve_setter eta_irqs).
#[export] Instance set_thread_process : Setter thread_process := ltac:(solve_setter eta_irqs).
#[export] Instance set_irq_handler_cnt : Setter irq_handler_cnt := ltac:(solve_setter eta_irqs).
#[export] Instance set_irq_mask_cnt : Setter irq_mask_cnt := ltac:(solve_setter eta_irqs).
#[export] Instance set_irq_enabled : Setter irq_enabled := ltac:(solve_setter eta_irqs).
#[export] Instance set_threads : Setter threads := ltac:(solve_setter eta_irqs).
Abbreviation IM := (M irqs).

Section ops.
Context `{IrqConsts}.

(** ** State access *)
Definition on_threads {A} (m : M sched A) : IM A := fun s =>
  match m (threads s) with Ok (a, k) => Ok (a, s <| threads := k |>) | Panic => Panic | Fault => Fault end.
(** The arrays have [NIRQ] entries. *)
Definition in_array (irq : Z) : IM unit := if (0 <=? irq) && (irq <? NIRQ) then mret tt else fault.
Definition on_irq_list (irq : Z) (f : list nat -> outcome (list nat)) : IM unit :=
  _ ← in_array irq; update (fun s => isr_handler_list s irq) (fun l s => s <| isr_handler_list ::= fun m => <[irq := l]> m |>) f.
Definition on_thread_list (t : nat) (f : list nat -> outcome (list nat)) : IM unit :=
  update (fun s => thread_isrs s t) (fun l s => s <| thread_isrs ::= fun m => <[t := l]> m |>) f.
Definition on_free_isrs (f : list nat -> outcome (list nat)) : IM unit :=
  update isr_handler_free_list (fun l s => s <| isr_handler_free_list := l |>) f.
Definition upd_cnt (irq : Z) (f : Z -> Z) : IM unit := _ ← in_array irq; modify (fun s => s <| irq_handler_cnt ::= fun m => <[irq := f (m irq)]> m |>).
Definition upd_mask (irq : Z) (f : Z -> Z) : IM unit := _ ← in_array irq; modify (fun s => s <| irq_mask_cnt ::= fun m => <[irq := f (m irq)]> m |>).
Definition get_mask (irq : Z) : IM Z := _ ← in_array irq; gets (fun s => irq_mask_cnt s irq).

(** ** The interrupt controller

    Each line has one bit in the registers that enable and disable interrupts;
    that the writes also clear an edge that is pending is left out. *)
Definition enable_irq (irq : Z) : IM unit := modify (fun s => s <| irq_enabled ::= fun m => <[irq := true]> m |>).
Definition disable_irq (irq : Z) : IM unit := modify (fun s => s <| irq_enabled ::= fun m => <[irq := false]> m |>).

(** ** Handlers *)
Definition alloc_isrhandler : IM (option nat) :=
  l ← gets isr_handler_free_list;
  match l with [] => mret None | h :: _ => _ ← on_free_isrs dl_rem_head; mret (Some h) end.
Definition free_isrhandler (h : nat) : IM unit := on_free_isrs (dl_add_head h).
Definition isrhandler_to_isrid (h : nat) : Z := Z.of_nat h.

(** The test before [disable_irq] compares the array [irq_mask_cnt], not its
    entry, with 0. *)
Definition sys_addinterruptserver (c : Cred) (irq event : Z) : IM ret :=
  cur ← on_threads get_current_thread;
  if decide (check_privileges c PRIV_INTERRUPT = RVal 0) then
    let irq := irq + BASE_USER_IRQ in
    if (irq <? 0) || (NIRQ <? irq) then mret (RErr EINVAL)
    else
      o ← alloc_isrhandler;
      match o with
      | None => mret (RErr ENOMEM)
      | Some h =>
        _ ← modify (fun s => s <| isr_handler_table ::= fun m => <[h := mkISRHandler (Some cur) irq event]> m |>);
        _ ← on_thread_list cur (dl_add_tail h);
        _ ← on_irq_list irq (dl_add_tail h);
        _ ← upd_cnt irq (fun n => n + 1);
        _ ← upd_mask irq (fun n => n + 1);
        _ ← disable_irq irq;
        mret (RVal (isrhandler_to_isrid h))
      end
  else mret (RErr EPERM).

Definition do_free_isrhandler (proc t h : nat) : IM ret :=
  x ← gets (fun s => isr_handler_table s h);
  p ← gets (fun s => thread_process s t);
  if negb (p =? proc)%nat || negb (bool_decide (isr_thread x = Some t)) then mret (RErr EINVAL)
  else
    let irq := isr_irq x in
    _ ← on_thread_list t (dl_rem h);
    _ ← on_irq_list irq (dl_rem h);
    _ ← upd_cnt irq (fun n => n - 1);
    n ← gets (fun s => irq_handler_cnt s irq);
    _ ← (if n =? 0 then _ ← upd_mask irq (fun _ => 0); disable_irq irq else mret tt);
    _ ← free_isrhandler h;
    mret (RVal 0).

(** The loop of [sys_reminterruptserver] over the list of the thread. *)
Fixpoint rem_loop (proc t : nat) (l : list nat) (isrid : Z) : IM unit :=
  match l with
  | [] => mret tt
  | h :: l' => if isrhandler_to_isrid h =? isrid then _ ← do_free_isrhandler proc t h; mret tt else rem_loop proc t l' isrid
  end.
Definition sys_reminterruptserver (isrid : Z) : IM ret :=
  cur ← on_threads get_current_thread;
  proc ← gets (fun s => thread_process s cur);
  l ← gets (fun s => thread_isrs s cur);
  match l with
  | [] => mret (RErr ENOENT)
  | _ => _ ← rem_loop proc cur l isrid; mret (RVal 0)
  end.
(** [n] turns of the loop; [true]: it is over. *)
Fixpoint do_free_all_isrhandlers (n : nat) (proc t : nat) : IM bool :=
  l ← gets (fun s => thread_isrs s t);
  match l, n with
  | [], _ => mret true
  | _, O => mret false
  | h :: _, S n' => _ ← do_free_isrhandler proc t h; do_free_all_isrhandlers n' proc t
  end.

(** ** Masks *)
Definition sys_maskinterrupt (c : Cred) (irq : Z) : IM ret :=
  if decide (check_privileges c PRIV_INTERRUPT = RVal 0) then
    if (irq <? 0) || (NIRQ - BASE_USER_IRQ <=? irq) then mret (RErr EINVAL)
    else
      let irq := irq + BASE_USER_IRQ in
      _ ← upd_mask irq (fun n => n + 1);
      n ← get_mask irq;
      _ ← (if 0 <? n then disable_irq irq else mret tt);
      mret (RVal n)
  else mret (RErr EPERM).
Definition sys_unmaskinterrupt (c : Cred) (irq : Z) : IM ret :=
  if decide (check_privileges c PRIV_INTERRUPT = RVal 0) then
    if (irq <? 0) || (NIRQ - BASE_USER_IRQ <=? irq) then mret (RErr EINVAL)
    else
      let irq := irq + BASE_USER_IRQ in
      n ← get_mask irq;
      _ ← (if 0 <? n then upd_mask irq (fun n => n - 1) else mret tt);
      n ← get_mask irq;
      _ ← (if n =? 0 then enable_irq irq else disable_irq irq);
      mret (RVal n)
  else mret (RErr EPERM).

(** ** Interrupts *)
Definition interrupt_server_broadcast_event (irq : Z) : IM ret :=
  _ ← in_array irq;
  l ← gets (fun s => isr_handler_list s irq);
  _ ← mfor l (fun h => x ← gets (fun s => isr_handler_table s h); _ ← on_threads (isr_thread_event_signal (isr_thread x) (isr_event x)); mret tt);
  mret (RVal 0).

(** [irq] is what the controller says has occurred; [timer] is
    [interrupt_top_half_timer]. *)
Variable timer : IM unit.
Definition interrupt_top_half (irq : Z) : IM unit :=
  if irq =? IRQ_SPURIOUS then mret tt
  else if irq =? IRQ_TIMER3 then timer
  else
    _ ← upd_mask irq (fun n => n + 1);
    _ ← disable_irq irq;
    _ ← interrupt_server_broadcast_event irq;
    mret tt.
End ops.
