(* ===== verification/IrqThms.v ===== *)
(** * IrqThms: interrupts reach their servers

    The invariant of the handlers, what the calls of proc/interrupt.c do to the
    servers of an interrupt, and the theorem that an interrupt is masked and
    that its events reach all its servers, whatever threads do. *)

From S2P Require Import Prelude Ids Sched SchedQueue Bkl BklSteps Event EventThms Irq.
Local Open Scope Z_scope.
Local Open Scope kernel_scope.

(** ** Raising events, seen from all threads *)
Section raise.
Implicit Types (s : sched) (t c : nat) (pc : nat -> loc) (ep : nat -> bool).

(** What raising events leaves of the other threads: nobody loses an event or
    falls asleep, and those who wake up wait for the lock. *)
Record louder s s' : Prop := {
  lo_pending : forall y n, Z.testbit (pending_events (th s y)) n = true -> Z.testbit (pending_events (th s' y)) n = true;
  lo_waits : forall y, intr_flags (th s' y) = intr_flags (th s y) /\ event_mask (th s' y) = event_mask (th s y);
  lo_asleep : forall y, asleep s' y -> asleep s y;
  lo_woken : forall y, asleep s y -> asleep s' y \/ (y ∈ B s' /\ ~ asleep s' y);
  lo_lock : forall y, y ∈ B s -> y ∈ B s' }.
#[export] Instance louder_preorder : PreOrder louder.
Proof.
  split.
  - intros s. split; auto.
  - intros s1 s2 s3 [P1 W1 A1 K1 L1] [P2 W2 A2 K2 L2]. split; auto.
    + intros y. destruct (W1 y) as [<- <-]. apply W2.
    + intros y Hy. destruct (K1 y Hy) as [H1|[H1 H1']]; [auto|]. right. auto.
Qed.
Lemma raise_louder s pc ep c t e : kinv s pc -> current_thread s = Some c -> pc c = LKernel -> ev_ok s ep -> 0 <= e < 32 ->
  exists s', raise_event t e s = Ok (tt, s') /\ kinv s' pc /\ ev_ok s' ep /\ current_thread s' = Some c /\ louder s s' /\
    Z.testbit (pending_events (th s' t)) e = true /\
    (asleep s t -> has (intr_flags (th s t)) INTRF_EVENT = true -> Z.testbit (event_mask (th s t)) e = true -> t ∈ B s' /\ ~ asleep s' t).
Proof.
  intros Hi Hc Hpc Hok He. destruct (raise_spec s pc ep c t e Hi Hc Hpc Hok) as (s' & Hrun & Hi' & Hok' & Hp & Hw).
  destruct (raise_cases s pc c t e Hi Hc Hpc) as (s2 & Hrun2 & _ & Hcase). rw Hrun in Hrun2. injection Hrun2 as <-. exists s'.
  assert (forall y, pending_events (th (raised t e s) y) = if decide (y = t) then Z.lor (pending_events (th s y)) (event_bit e) else pending_events (th s y)) as Hpd.
  { intros y. rw /raised /=. case_decide as E; [subst y|]; by reads. }
  assert (forall y, intr_flags (th (raised t e s) y) = intr_flags (th s y) /\ event_mask (th (raised t e s) y) = event_mask (th s y)) as Hfl.
  { intros y. rw /raised /=. destruct (decide (y = t)) as [->|]; by reads. }
  assert (forall y n, Z.testbit (pending_events (th s y)) n = true -> Z.testbit (pending_events (th (raised t e s) y)) n = true) as Hmono.
  { intros y n Hn. rw Hpd. case_decide; [|done]. by rw Z.lor_spec Hn. }
  split_and!; try done.
  - destruct Hcase as [[-> _]|(r & _ & _ & ->)]; done.
  - destruct Hcase as [[-> _]|(r & Hr & _ & ->)]; [split; auto|]. pose proof (raised_woken s pc t e r Hi Hr) as Hrw.
    assert (forall y, ev (th (woken (raised t e s) r t (list_remove1 t (rendez s r))) y) = ev (th (raised t e s) y)) as Hev by (intros y; by apply (woken_fields ev)).
    split.
    + intros y n Hn. destruct (ev_parts _ _ (Hev y)) as (_ & -> & _). auto.
    + intros y. destruct (ev_parts _ _ (Hev y)) as (-> & _ & ->). apply Hfl.
    + intros y [r' [Hy _]%Hrw]. by exists r'.
    + intros y [r' Hy]. destruct (decide (y = t)) as [->|Hne]; [right|left; exists r'; by apply Hrw]. split; [rw /woken /=; set_solver|]. intros [r2 []%Hrw]. done.
    + intros y Hy. rw /woken /=. set_solver.
  - rw Hp Z.lor_spec event_bit_set // orb_true_r //.
  - intros Ha Hf Hm. apply Hw; [done..|]. intros E. apply (f_equal (fun z => Z.testbit z e)) in E. rw Z.land_spec Z.lor_spec event_bit_set // orb_true_r Hm Z.bits_0 // in E.
Qed.
End raise.

(** ** Handlers *)
Section handlers.
Context `{IrqConsts}.
Implicit Types (s : irqs) (h t c : nat) (i : Z).
Abbreviation tb s h := (isr_handler_table s h).

(** A handler is free, or on the list of its interrupt and of its thread; the
    counts are right; and an interrupt that has servers is enabled exactly
    when nobody masks it. *)
Record irq_ok s : Prop := {
  io_free : NoDup (isr_handler_free_list s);
  io_irqs : forall i, NoDup (isr_handler_list s i);
  io_threads : forall t, NoDup (thread_isrs s t);
  io_irq : forall i h, h ∈ isr_handler_list s i -> 0 <= i < NIRQ /\ h ∉ isr_handler_free_list s /\ isr_irq (tb s h) = i /\ exists t, isr_thread (tb s h) = Some t /\ h ∈ thread_isrs s t;
  io_thread : forall t h, h ∈ thread_isrs s t -> h ∉ isr_handler_free_list s /\ isr_thread (tb s h) = Some t /\ h ∈ isr_handler_list s (isr_irq (tb s h));
  io_cnt : forall i, 0 <= i < NIRQ -> irq_handler_cnt s i = Z.of_nat (length (isr_handler_list s i));
  io_mask : forall i, 0 <= i < NIRQ -> 0 <= irq_mask_cnt s i;
  io_enabled : forall i, 0 <= i < NIRQ -> irq_enabled s i = true -> irq_mask_cnt s i = 0;
  io_served : forall i, 0 <= i < NIRQ -> isr_handler_list s i <> [] -> irq_mask_cnt s i = 0 -> irq_enabled s i = true;
  io_event : forall i h, h ∈ isr_handler_list s i -> 0 <= isr_event (tb s h) < 32 }.

Lemma wp_in_array i Q s : 0 <= i < NIRQ -> Q tt s -> wp (in_array i) Q s.
Proof. intros Hi HQ. rw /in_array. destruct (Z.leb_spec 0 i), (Z.ltb_spec i NIRQ); try lia. by apply wp_ret. Qed.
Lemma wp_on_threads {A} (m : M sched A) a k Q s : m (threads s) = Ok (a, k) -> Q a (s <| threads := k |>) -> wp (on_threads m) Q s.
Proof. intros E HQ. by rw /wp /on_threads E. Qed.
Lemma wp_irq_list i f l Q s : 0 <= i < NIRQ -> f (isr_handler_list s i) = Ok l -> Q tt (s <| isr_handler_list ::= fun m => <[i := l]> m |>) -> wp (on_irq_list i f) Q s.
Proof. intros Hi Hf HQ. apply wp_bind, wp_in_array; [done|]. eapply wp_update; [exact Hf|exact HQ]. Qed.
Lemma wp_upd_cnt i f Q s : 0 <= i < NIRQ -> Q tt (s <| irq_handler_cnt ::= fun m => <[i := f (m i)]> m |>) -> wp (upd_cnt i f) Q s.
Proof. intros Hi HQ. apply wp_bind, wp_in_array; [done|]. by apply wp_modify. Qed.
Lemma wp_upd_mask i f Q s : 0 <= i < NIRQ -> Q tt (s <| irq_mask_cnt ::= fun m => <[i := f (m i)]> m |>) -> wp (upd_mask i f) Q s.
Proof. intros Hi HQ. apply wp_bind, wp_in_array; [done|]. by apply wp_modify. Qed.
Lemma wp_get_mask i Q s : 0 <= i < NIRQ -> Q (irq_mask_cnt s i) s -> wp (get_mask i) Q s.
Proof. intros Hi HQ. apply wp_bind, wp_in_array; [done|]. by apply wp_gets. Qed.

(** The lists of two interrupts, or of two threads, are disjoint. *)
Lemma one_irq s i j h : irq_ok s -> h ∈ isr_handler_list s i -> h ∈ isr_handler_list s j -> i = j.
Proof. intros Hok Hi Hj. destruct (io_irq _ Hok i h Hi) as (_ & _ & <- & _). by destruct (io_irq _ Hok j h Hj) as (_ & _ & <- & _). Qed.
Lemma one_thread s t u h : irq_ok s -> h ∈ thread_isrs s t -> h ∈ thread_isrs s u -> t = u.
Proof. intros Hok Ht Hu. destruct (io_thread _ Hok t h Ht) as (_ & Et & _), (io_thread _ Hok u h Hu) as (_ & Eu & _). congruence. Qed.

(** A server is added at the end of the list of its interrupt, which is
    masked. *)
Definition server_added s s' h t i e : Prop :=
  (h ∉ isr_handler_list s i) /\ isr_handler_list s' i = isr_handler_list s i ++ [h] /\ tb s' h = mkISRHandler (Some t) i e /\
  (forall j, j <> i -> isr_handler_list s' j = isr_handler_list s j /\ irq_mask_cnt s' j = irq_mask_cnt s j /\ irq_enabled s' j = irq_enabled s j) /\
  (forall g, g <> h -> tb s' g = tb s g) /\ irq_mask_cnt s' i = irq_mask_cnt s i + 1 /\ irq_enabled s' i = false.
Lemma add_server_ok s cr c irq event : irq_ok s -> 0 <= event < 32 -> current_thread (threads s) = Some c -> irq <> NIRQ - BASE_USER_IRQ ->
  wp (sys_addinterruptserver cr irq event) (fun r s' => irq_ok s' /\ threads s' = threads s /\ thread_process s' = thread_process s /\
    if (irq + BASE_USER_IRQ <? 0) || (NIRQ <? irq + BASE_USER_IRQ) then r = RErr EINVAL /\ s' = s
    else match isr_handler_free_list s with
         | [] => r = RErr ENOMEM /\ s' = s
         | h :: _ => r = RVal (Z.of_nat h) /\ server_added s s' h c (irq + BASE_USER_IRQ) event
         end) s.
Proof.
  intros Hok Hev Hc Hne. apply wp_bind. eapply wp_on_threads; [exact (current_run _ c Hc)|]. destruct s as [tbl fr il ti tp hc mc en k]. simpl in Hc |- *.
  destruct (decide (check_privileges cr PRIV_INTERRUPT = RVal 0)) as [_|]; [|done]. set i := irq + BASE_USER_IRQ.
  destruct (Z.ltb_spec i 0) as [|Hi0]; simpl; [apply wp_ret; by split_and!|]. destruct (Z.ltb_spec NIRQ i) as [|Hi1]; simpl; [apply wp_ret; by split_and!|]. assert (0 <= i < NIRQ) as Hi by (rw /i in Hi0 Hi1 *; lia).
  destruct Hok as [Hf Hil Hti Hoi Hot Hcnt Hmk Hen Hsv Hevs]. simpl in *. apply wp_bind, wp_bind, wp_gets. simpl. destruct fr as [|h fr]; [apply wp_ret, wp_ret; by split_and!|].
  apply NoDup_cons in Hf as [Hhf Hf]. assert (h ∉ il i) as Hhi. { intros Hin. destruct (Hoi i h Hin) as (_ & Hn & _). set_solver. }
  assert (h ∉ ti c) as Hht. { intros Hin. destruct (Hot c h Hin) as (Hn & _). set_solver. }
  assert (forall j, h ∉ il j) as Hhj. { intros j Hin. destruct (Hoi j h Hin) as (_ & Hn & _). set_solver. }
  assert (forall u, h ∉ ti u) as Hhu. { intros u Hin. destruct (Hot u h Hin) as (Hn & _). set_solver. }
  apply wp_bind. eapply wp_update; [done|]. apply wp_ret, wp_bind, wp_modify, wp_bind. eapply wp_update; [by apply dl_add_tail_ok|]. apply wp_bind. eapply wp_irq_list; [done|by apply dl_add_tail_ok|].
  apply wp_bind, wp_upd_cnt; [done|]. apply wp_bind, wp_upd_mask; [done|]. apply wp_bind, wp_modify, wp_ret. simpl. split_and!; try done; [split; simpl|..].
  - done.
  - intros j. destruct (decide (j = i)) as [->|]; reads; [|done]. apply NoDup_app. split_and!; [done|set_solver|apply NoDup_singleton].
  - intros u. destruct (decide (u = c)) as [->|]; reads; [|done]. apply NoDup_app. split_and!; [done|set_solver|apply NoDup_singleton].
  - intros j g Hg. destruct (decide (g = h)) as [->|Hgh].
    + destruct (decide (j = i)) as [->|]; [|by rewrite ->fn_lookup_insert_ne in Hg by congruence; destruct (Hhj j)]. reads. split_and!; try done; try lia. exists c. reads. set_solver.
    + assert (g ∈ il j) as Hg'. { destruct (decide (j = i)) as [->|]; revert Hg; reads; [|done]. set_solver. } destruct (Hoi j g Hg') as (? & Hn & ? & t & ? & ?).
      rewrite ->fn_lookup_insert_ne by congruence. split; [done|]. split; [set_solver|]. split; [done|]. exists t. split; [done|]. destruct (decide (t = c)) as [->|]; reads; [set_solver|done].
  - intros u g Hg. destruct (decide (g = h)) as [->|Hgh].
    + destruct (decide (u = c)) as [->|]; [|by rewrite ->fn_lookup_insert_ne in Hg by congruence; destruct (Hhu u)]. reads. split_and!; try done. set_solver.
    + assert (g ∈ ti u) as Hg'. { destruct (decide (u = c)) as [->|]; revert Hg; reads; [|done]. set_solver. } destruct (Hot u g Hg') as (Hn & ? & Hin).
      rewrite ->fn_lookup_insert_ne by congruence. split_and!; try done; [set_solver|]. destruct (decide (isr_irq (tbl g) = i)) as [E|]; [rw E; reads; rw -E; set_solver|by reads].
  - intros j Hj. destruct (decide (j = i)) as [->|]; reads; [|by apply Hcnt]. rw length_app Hcnt //=. lia.
  - intros j Hj. destruct (decide (j = i)) as [->|]; reads; [|by apply Hmk]. specialize (Hmk i Hi). lia.
  - intros j Hj. destruct (decide (j = i)) as [->|]; reads; [done|by apply Hen].
  - intros j Hj. destruct (decide (j = i)) as [->|]; reads; [|by apply Hsv]. specialize (Hmk i Hi). lia.
  - intros j g Hg. destruct (decide (g = h)) as [->|Hgh]; reads; [done|]. apply (Hevs j). destruct (decide (j = i)) as [->|]; revert Hg; reads; [set_solver|done].
  - rw /server_added /=. reads. split_and!; try done; [|intros g Hg; by reads]. intros j Hj. by reads.
Qed.

(** The handlers [l] are gone. An interrupt that loses its last server is
    masked and forgets who masked it. *)
Record gone (l : list nat) s s' : Prop := {
  go_table : isr_handler_table s' = isr_handler_table s;
  go_irqs : forall i, isr_handler_list s' i = filter (fun g => g ∉ l) (isr_handler_list s i);
  go_threads : forall u, thread_isrs s' u = filter (fun g => g ∉ l) (thread_isrs s u);
  go_masks : forall i, 0 <= i < NIRQ -> (irq_mask_cnt s' i, irq_enabled s' i) =
    if decide (isr_handler_list s' i = [] /\ isr_handler_list s i <> []) then (0, false) else (irq_mask_cnt s i, irq_enabled s i);
  go_rest : threads s' = threads s /\ thread_process s' = thread_process s }.
Lemma filter_nop h (l : list nat) : h ∉ l -> filter (fun g => g ∉ [h]) l = l.
Proof. induction l as [|y l IH]; [done|]. intros Hx. rw filter_cons_True; [set_solver|]. f_equal. apply IH. set_solver. Qed.
Lemma remove1_filter h (l : list nat) : NoDup l -> list_remove1 h l = filter (fun g => g ∉ [h]) l.
Proof.
  induction l as [|x l IH]; intros Hnd; [done|]. apply NoDup_cons in Hnd as [Hx Hnd]. cbn [list_remove1]. destruct (decide (x = h)) as [->|Hne].
  - rw decide_True // filter_cons_False; [set_solver|]. symmetry. by apply filter_nop.
  - rw decide_False; [congruence|]. rw filter_cons_True; [set_solver|]. f_equal. by apply IH.
Qed.
Lemma filter_both h l (k : list nat) : filter (fun g => g ∉ l) (filter (fun g => g ∉ [h]) k) = filter (fun g => g ∉ h :: l) k.
Proof. rw list_filter_filter. apply list_filter_iff. intros g. set_solver. Qed.
Lemma gone_cons h l s s1 s2 : gone [h] s s1 -> gone l s1 s2 -> gone (h :: l) s s2.
Proof.
  intros [T1 I1 U1 M1 [R1 P1]] [T2 I2 U2 M2 [R2 P2]]. split; [congruence| | | |split; congruence].
  - intros i. by rw I2 I1 filter_both.
  - intros u. by rw U2 U1 filter_both.
  - intros i Hi. rw M2 //. specialize (M1 i Hi). destruct (decide (isr_handler_list s1 i = [])) as [E1|E1].
    + assert (isr_handler_list s2 i = []) as E2 by by rw I2 E1. rw decide_False; [naive_solver|]. rw M1. destruct (decide (isr_handler_list s i = [])) as [E|E]; [rw !decide_False //; naive_solver|rw !decide_True //].
    + assert (isr_handler_list s i <> []) as E. { intros E. apply E1. by rw I1 E. }
      rw (decide_False (P := isr_handler_list s1 i = [] /\ _)) in M1; [naive_solver|]. destruct (decide (isr_handler_list s2 i = [])); [rw !decide_True //|rw !decide_False //; naive_solver].
Qed.
Lemma free_handler_ok s t h : irq_ok s -> h ∈ thread_isrs s t -> wp (do_free_isrhandler (thread_process s t) t h) (fun r s' => r = RVal 0 /\ irq_ok s' /\ gone [h] s s') s.
Proof.
  intros Hok Hh. destruct (io_thread _ Hok t h Hh) as (Hfr & Et & Hin). destruct (io_irq _ Hok _ h Hin) as (Hi & _). set i := isr_irq (tb s h) in Hin Hi |- *.
  destruct s as [tbl fr il ti tp hc mc en k]. pose proof Hok as [Hf Hil Hti Hoi Hot Hcnt Hmk Hen Hsv Hevs]. simpl in *.
  apply wp_bind, wp_gets, wp_bind, wp_gets. simpl. rw Nat.eqb_refl bool_decide_true //. simpl. fold i.
  apply wp_bind. eapply wp_update; [by apply dl_rem_ok|]. apply wp_bind. eapply wp_irq_list; [done|by apply dl_rem_ok|]. simpl. apply wp_bind, wp_upd_cnt; [done|]. apply wp_bind, wp_gets. simpl. rw fn_lookup_insert.
  assert (forall u g, g ∈ <[t := list_remove1 h (ti t)]> ti u <-> g ∈ ti u /\ g <> h) as Hti'.
  { intros u g. destruct (decide (u = t)) as [->|Hne]; reads; [by apply elem_of_list_remove1|]. split; [|naive_solver]. intros Hg. split; [done|]. intros ->. apply Hne. by apply (one_thread _ u t h Hok). }
  assert (forall j g, g ∈ <[i := list_remove1 h (il i)]> il j <-> g ∈ il j /\ g <> h) as Hil'.
  { intros j g. destruct (decide (j = i)) as [->|Hne]; reads; [by apply elem_of_list_remove1|]. split; [|naive_solver]. intros Hg. split; [done|]. intros ->. apply Hne. by apply (one_irq _ j i h Hok). }
  assert (S (length (list_remove1 h (il i))) = length (il i)) as Hlen. { rewrite <-(list_remove1_perm h (il i)) at 2 by done. done. }
  set mc' := if hc i - 1 =? 0 then <[i := 0]> mc else mc. set en' := if hc i - 1 =? 0 then <[i := false]> en else en.
  assert (forall Q : unit -> irqs -> Prop, Q tt (mkIrqs tbl fr (<[i := list_remove1 h (il i)]> il) (<[t := list_remove1 h (ti t)]> ti) tp (<[i := hc i - 1]> hc) mc' en' k) ->
    wp (if hc i - 1 =? 0 then _ ← upd_mask i (fun _ => 0); disable_irq i else mret tt) Q (mkIrqs tbl fr (<[i := list_remove1 h (il i)]> il) (<[t := list_remove1 h (ti t)]> ti) tp (<[i := hc i - 1]> hc) mc en k)) as Hmask.
  { intros Q HQ. rw /mc' /en' in HQ. destruct (hc i - 1 =? 0); [|by apply wp_ret]. apply wp_bind, wp_upd_mask; [done|]. by apply wp_modify. }
  apply wp_bind, Hmask. clear Hmask. apply wp_bind. eapply wp_update; [by apply dl_add_head_ok|]. apply wp_ret. simpl.
  assert ((hc i - 1 =? 0) = bool_decide (list_remove1 h (il i) = [])) as Hz.
  { rw Hcnt //. destruct (list_remove1 h (il i)) eqn:E; simpl in Hlen; case_bool_decide; [apply Z.eqb_eq; lia|done|done|apply Z.eqb_neq; lia]. }
  assert (forall j, 0 <= j < NIRQ -> (mc' j, en' j) = if decide (j = i /\ list_remove1 h (il i) = []) then (0, false) else (mc j, en j)) as Hme.
  { intros j Hj. rw /mc' /en' Hz. case_bool_decide as E; [|rw decide_False //; naive_solver]. destruct (decide (j = i)) as [->|Hne]; [reads; by rw decide_True|]. reads. rw decide_False //. naive_solver. }
  split_and!; [done|split; simpl|split; simpl].
  - apply NoDup_cons. done.
  - intros j. destruct (decide (j = i)) as [->|]; reads; [by apply NoDup_list_remove1|done].
  - intros u. destruct (decide (u = t)) as [->|]; reads; [by apply NoDup_list_remove1|done].
  - intros j g [Hg Hgh]%Hil'. destruct (Hoi j g Hg) as (? & ? & ? & u & ? & ?). split; [done|]. split; [set_solver|]. split; [done|]. exists u. split; [done|]. by apply Hti'.
  - intros u g [Hg Hgh]%Hti'. destruct (Hot u g Hg) as (? & ? & ?). split; [set_solver|]. split; [done|]. by apply Hil'.
  - intros j Hj. destruct (decide (j = i)) as [->|]; reads; [|by apply Hcnt]. rw Hcnt //. lia.
  - intros j Hj. specialize (Hme j Hj). specialize (Hmk j Hj). case_decide; injection Hme as -> _; [done|done].
  - intros j Hj. specialize (Hme j Hj). specialize (Hen j Hj). case_decide; injection Hme as -> ->; [done|done].
  - intros j Hj Hne. specialize (Hme j Hj). specialize (Hsv j Hj). case_decide as E; injection Hme as -> ->.
    + destruct E as [-> E]. reads. rewrite ->fn_lookup_insert in Hne. done.
    + apply Hsv. intros E'. destruct (decide (j = i)) as [->|]; [rw E' in Hin; set_solver|]. by rewrite ->fn_lookup_insert_ne in Hne by congruence.
  - intros j g [Hg _]%Hil'. by apply (Hevs j).
  - done.
  - intros j. destruct (decide (j = i)) as [->|Hne]; reads; [by apply remove1_filter|]. symmetry. apply filter_nop. intros Hj. apply Hne. by apply (one_irq _ j i h Hok).
  - intros u. destruct (decide (u = t)) as [->|Hne]; reads; [by apply remove1_filter|]. symmetry. apply filter_nop. intros Hu. apply Hne. by apply (one_thread _ u t h Hok).
  - intros j Hj. rw Hme //. destruct (decide (j = i)) as [->|Hne]; reads.
    + destruct (decide (list_remove1 h (il i) = [])); [rw !decide_True //; split; [done|]; intros E; rw E in Hin; set_solver|rw !decide_False //; naive_solver].
    + rw !decide_False //; naive_solver.
  - done.
Qed.

Lemma gone_nil s : irq_ok s -> gone [] s s.
Proof.
  intros Hok. assert (forall l : list nat, l = filter (fun g => g ∉ []) l) as Hf. { intros l. induction l as [|x l IH]; [done|]. rw filter_cons_True; [set_solver|]. by f_equal. }
  split; auto. intros i Hi. rw decide_False //. naive_solver.
Qed.
(** [sys_reminterruptserver] removes the handler if it is one of the thread's. *)
Lemma rem_server_ok s c isrid : irq_ok s -> current_thread (threads s) = Some c ->
  wp (sys_reminterruptserver isrid) (fun r s' => irq_ok s' /\ r = (if decide (thread_isrs s c = []) then RErr ENOENT else RVal 0) /\
    ((exists h, h ∈ thread_isrs s c /\ isrid = Z.of_nat h /\ gone [h] s s') \/ (forall h, h ∈ thread_isrs s c -> isrid <> Z.of_nat h) /\ s' = s)) s.
Proof.
  intros Hok Hc. apply wp_bind. eapply wp_on_threads; [exact (current_run _ c Hc)|]. replace (s <| threads := threads s |>) with s by by destruct s. apply wp_bind, wp_gets, wp_bind, wp_gets.
  destruct (thread_isrs s c) as [|x l] eqn:El; [apply wp_ret; split_and!; try done; right; split; [set_solver|done]|].
  assert (forall l', (forall h, h ∈ l' -> h ∈ thread_isrs s c) -> wp (rem_loop (thread_process s c) c l' isrid) (fun _ s' => irq_ok s' /\
    ((exists h, h ∈ l' /\ isrid = Z.of_nat h /\ gone [h] s s') \/ (forall h, h ∈ l' -> isrid <> Z.of_nat h) /\ s' = s)) s) as Hloop.
  { intros l'. induction l' as [|h l' IH]; intros Hl'; simpl; [apply wp_ret; split; [done|right; split; [set_solver|done]]|]. rw /isrhandler_to_isrid. destruct (Z.eqb_spec (Z.of_nat h) isrid) as [E|E].
    - apply wp_bind. eapply wp_mono; [apply (free_handler_ok s c h); [done|apply Hl'; set_solver]|]. intros r s' (-> & Hok' & Hg). apply wp_ret. split; [done|]. left. exists h. set_solver.
    - eapply wp_mono; [apply IH; set_solver|]. intros _ s' (Hok' & [(g & Hg & Eg & Hgo)|[Hn ->]]); (split; [done|]); [left; exists g; set_solver|right; split; [|done]]. intros g [->|Hg]%elem_of_cons; [congruence|by apply Hn]. }
  apply wp_bind. eapply wp_mono; [apply (Hloop (x :: l)); by rw El|]. intros _ s' [Hok' Hcase]. apply wp_ret. by split_and!.
Qed.
(** A thread that exits loses all its handlers, when it belongs to the process
    that is given ... *)
Lemma free_all_ok t n : forall s, irq_ok s -> (length (thread_isrs s t) <= n)%nat ->
  wp (do_free_all_isrhandlers n (thread_process s t) t) (fun b s' => b = true /\ irq_ok s' /\ gone (thread_isrs s t) s s') s.
Proof.
  induction n as [|n IH]; intros s Hok Hlen; cbn [do_free_all_isrhandlers]; apply wp_bind, wp_gets; (destruct (thread_isrs s t) as [|h l] eqn:El; [apply wp_ret; split_and!; try done; by apply gone_nil|]); [simpl in Hlen; lia|].
  apply wp_bind. eapply wp_mono; [apply (free_handler_ok s t h); [done|rw El; set_solver]|]. intros r s1 (-> & Hok1 & Hg1).
  assert (thread_isrs s1 t = l) as El1. { rw (go_threads _ _ _ Hg1) El filter_cons_False; [set_solver|]. apply filter_nop. pose proof (io_threads _ Hok t) as Hnd. rw El in Hnd. by apply NoDup_cons in Hnd as []. }
  replace (thread_process s t) with (thread_process s1 t) by (by destruct Hg1 as [_ _ _ _ [_ ->]]). eapply wp_mono; [apply (IH s1); [done|rw El1; simpl in Hlen; lia]|].
  intros b s2 (-> & Hok2 & Hg2). rw El1 in Hg2. split_and!; try done. by apply (gone_cons h l s s1 s2).
Qed.
(** ... and when it does not, the loop never ends. [do_exit_thread] gives the
    last thread of a process to the root process before it calls this. *)
Lemma free_all_hangs t proc n s : thread_isrs s t <> [] -> thread_process s t <> proc -> do_free_all_isrhandlers n proc t s = Ok (false, s).
Proof.
  intros Hne Hp. induction n as [|n IH]; cbn [do_free_all_isrhandlers]; rw {1}/mbind {1}/M_bind {1}/gets; (destruct (thread_isrs s t) as [|h l] eqn:El; [done|]); [done|].
  rw {1}/mbind {1}/M_bind {1}/do_free_isrhandler {1}/mbind {1}/M_bind {1}/gets {1}/mbind {1}/M_bind {1}/gets. destruct (Nat.eqb_spec (thread_process s t) proc); [done|]. exact IH.
Qed.

(** ** Masks *)
Lemma mask_change s i n e : irq_ok s -> 0 <= n -> (e = true <-> n = 0) ->
  irq_ok (s <| irq_mask_cnt ::= fun m => <[i := n]> m |> <| irq_enabled ::= fun m => <[i := e]> m |>).
Proof.
  intros [Hf Hil Hti Hoi Hot Hcnt Hmk Hen Hsv Hevs] Hn He. split; try done; simpl; intros j Hj; (destruct (decide (j = i)) as [->|]; reads; [|by auto]); [done|by intros ?%He|by intros _ ?%He].
Qed.
Definition user_irq (irq : Z) : bool := (0 <=? irq) && (irq <? NIRQ - BASE_USER_IRQ).
(** The interrupt is masked [n] times, and nothing else changes. *)
Definition masked_to s s' i n : Prop :=
  irq_mask_cnt s' i = n /\ irq_enabled s' i = (n =? 0) /\ (forall j, j <> i -> irq_mask_cnt s' j = irq_mask_cnt s j /\ irq_enabled s' j = irq_enabled s j) /\
  isr_handler_list s' = isr_handler_list s /\ isr_handler_table s' = isr_handler_table s /\ threads s' = threads s.
Lemma user_irq_range irq : if user_irq irq then 0 <= irq + BASE_USER_IRQ < NIRQ /\ (irq <? 0) || (NIRQ - BASE_USER_IRQ <=? irq) = false else (irq <? 0) || (NIRQ - BASE_USER_IRQ <=? irq) = true.
Proof. rw /user_irq /NIRQ /BASE_USER_IRQ. destruct (Z.leb_spec 0 irq), (Z.ltb_spec irq (192 - 96)), (Z.ltb_spec irq 0), (Z.leb_spec (192 - 96) irq); simpl; lia || split; done || lia. Qed.
Lemma mask_ok s cr irq : irq_ok s ->
  wp (sys_maskinterrupt cr irq) (fun r s' => irq_ok s' /\ let n := irq_mask_cnt s (irq + BASE_USER_IRQ) + 1 in
    if user_irq irq then r = RVal n /\ masked_to s s' (irq + BASE_USER_IRQ) n else r = RErr EINVAL /\ s' = s) s.
Proof.
  intros Hok. rw /sys_maskinterrupt. destruct (decide (check_privileges cr PRIV_INTERRUPT = RVal 0)) as [_|]; [|done]. pose proof (user_irq_range irq) as Hr. set i := irq + BASE_USER_IRQ in Hr |- *.
  destruct (user_irq irq); [destruct Hr as [Hi ->]|rw Hr; by apply wp_ret]. apply wp_bind, wp_upd_mask; [done|]. apply wp_bind, wp_get_mask; [done|]. simpl. rw fn_lookup_insert. pose proof (io_mask _ Hok i Hi).
  destruct (Z.ltb_spec 0 (irq_mask_cnt s i + 1)); [|lia]. apply wp_bind, wp_modify, wp_ret. split; [apply (mask_change s i (irq_mask_cnt s i + 1) false); [done|lia|split; [done|lia]]|]. split; [done|].
  rw /masked_to /= !fn_lookup_insert. split_and!; try done; [symmetry; apply Z.eqb_neq; lia|]. intros j Hj. by reads.
Qed.
Lemma unmask_ok s cr irq : irq_ok s ->
  wp (sys_unmaskinterrupt cr irq) (fun r s' => irq_ok s' /\ let n := Z.max 0 (irq_mask_cnt s (irq + BASE_USER_IRQ) - 1) in
    if user_irq irq then r = RVal n /\ masked_to s s' (irq + BASE_USER_IRQ) n else r = RErr EINVAL /\ s' = s) s.
Proof.
  intros Hok. rw /sys_unmaskinterrupt. destruct (decide (check_privileges cr PRIV_INTERRUPT = RVal 0)) as [_|]; [|done]. pose proof (user_irq_range irq) as Hr. set i := irq + BASE_USER_IRQ in Hr |- *.
  destruct (user_irq irq); [destruct Hr as [Hi ->]|rw Hr; by apply wp_ret]. apply wp_bind, wp_get_mask; [done|]. pose proof (io_mask _ Hok i Hi). set n := Z.max 0 (irq_mask_cnt s i - 1).
  assert (forall s1, irq_mask_cnt s1 i = n -> irq_ok (s1 <| irq_enabled ::= fun m => <[i := n =? 0]> m |>) -> masked_to s (s1 <| irq_enabled ::= fun m => <[i := n =? 0]> m |>) i n ->
    wp (m ← get_mask i; _ ← (if m =? 0 then enable_irq i else disable_irq i); mret (RVal m)) (fun r s' => irq_ok s' /\ r = RVal n /\ masked_to s s' i n) s1) as Hend.
  { intros s1 E Hok1 Hm1. apply wp_bind, wp_get_mask; [done|]. rw E. apply wp_bind. destruct (n =? 0); apply wp_modify, wp_ret; by split_and!. }
  apply wp_bind. destruct (Z.ltb_spec 0 (irq_mask_cnt s i)).
  - assert (n = irq_mask_cnt s i - 1) as En by (rw /n; lia). apply wp_upd_mask; [done|]. change (setf _ s) with (s <| irq_mask_cnt ::= fun m => <[i := irq_mask_cnt s i - 1]> m |>). rw -En. apply Hend.
    + simpl. by rw fn_lookup_insert.
    + apply (mask_change s i n (n =? 0)); [done|lia|]. by rw Z.eqb_eq.
    + rw /masked_to /= !fn_lookup_insert. split_and!; try done. intros j Hj. by reads.
  - assert (n = 0) as En by (rw /n; lia). assert (irq_mask_cnt s i = n) as Em by lia. apply wp_ret, Hend; [done|..].
    + destruct Hok as [Hf Hil Hti Hoi Hot Hcnt Hmk Hen Hsv Hevs]. split; try done; simpl; intros j Hj; (destruct (decide (j = i)) as [->|]; reads; [|by auto]); [intros _; lia|]. intros _ _. by apply Z.eqb_eq.
    + rw /masked_to /= !fn_lookup_insert. split_and!; try done. intros j Hj. by reads.
Qed.
End handlers.

(** ** Interrupts *)
Section interrupts.
Context `{IrqConsts, Threads}.
Implicit Types (s : irqs) (h t c : nat) (i : Z) (pc : nat -> loc) (ep : nat -> bool).
(** The thread of a handler has its event, and if it slept for it it waits for
    the lock. *)
Definition notified s s' h : Prop := forall t e, isr_thread (isr_handler_table s h) = Some t -> isr_event (isr_handler_table s h) = e ->
  Z.testbit (pending_events (th (threads s') t)) e = true /\
  (asleep (threads s) t -> has (intr_flags (th (threads s) t)) INTRF_EVENT = true -> Z.testbit (event_mask (th (threads s) t)) e = true -> t ∈ B (threads s') /\ ~ asleep (threads s') t).
Lemma broadcast_ok pc ep c l : forall s, kinv (threads s) pc -> ev_ok (threads s) ep -> current_thread (threads s) = Some c -> pc c = LKernel ->
  (forall h, h ∈ l -> is_Some (isr_thread (isr_handler_table s h)) /\ 0 <= isr_event (isr_handler_table s h) < 32) ->
  wp (mfor l (fun h => x ← gets (fun s => isr_handler_table s h); _ ← on_threads (isr_thread_event_signal (isr_thread x) (isr_event x)); mret tt)) (fun _ s' => exists k, s' = s <| threads := k |> /\
    kinv k pc /\ ev_ok k ep /\ current_thread k = Some c /\ louder (threads s) k /\ forall h, h ∈ l -> notified s s' h) s.
Proof.
  induction l as [|h l IH]; intros s Hk He Hc Hpc Hl; simpl. { apply wp_ret. exists (threads s). split_and!; try done; [by destruct s|reflexivity|set_solver]. }
  destruct (Hl h ltac:(set_solver)) as [[t Et] Hev]. destruct (raise_louder (threads s) pc ep c t (isr_event (isr_handler_table s h)) Hk Hc Hpc He Hev) as (k1 & Hrun & Hk1 & He1 & Hc1 & Hl1 & Hp1 & Hw1).
  apply wp_bind, wp_bind, wp_gets, wp_bind. eapply (wp_on_threads _ (RVal 0) k1); [rw Et /isr_thread_event_signal {1}/mbind {1}/M_bind Hrun //|]. apply wp_ret.
  eapply wp_mono; [apply (IH (s <| threads := k1 |>)); try done; set_solver|]. intros _ s' (k & -> & Hk2 & He2 & Hc2 & Hl2 & Hn2). exists k. split_and!; try done; [etrans; [exact Hl1|exact Hl2]|].
  intros g [->|Hg]%elem_of_cons; intros u e Eu Ee; simpl.
  - assert (u = t) as -> by congruence. subst e. split; [by apply (lo_pending _ _ Hl2)|]. intros Ha Hf Hm. destruct (Hw1 Ha Hf Hm) as [HB Hna]. split; [by apply (lo_lock _ _ Hl2)|]. intros Ha'. by apply Hna, (lo_asleep _ _ Hl2).
  - destruct (Hn2 g Hg u e Eu Ee) as [Hp Hw]. simpl in Hp, Hw. split; [done|]. intros Ha Hf Hm. destruct (lo_woken _ _ Hl1 u Ha) as [Ha1|[HB Hna]].
    + destruct (lo_waits _ _ Hl1 u) as [E1 E2]. apply Hw; [done|by rw E1|by rw E2].
    + split; [by apply (lo_lock _ _ Hl2)|]. intros Ha'. by apply Hna, (lo_asleep _ _ Hl2).
Qed.

Variable timer : IM unit.
Lemma top_half_ok s pc ep c i : irq_ok s -> kinv (threads s) pc -> ev_ok (threads s) ep -> current_thread (threads s) = Some c -> pc c = LKernel -> 0 <= i < NIRQ -> i <> IRQ_TIMER3 ->
  wp (interrupt_top_half timer i) (fun _ s' => irq_ok s' /\ kinv (threads s') pc /\ ev_ok (threads s') ep /\
    irq_mask_cnt s' i = irq_mask_cnt s i + 1 /\ irq_enabled s' i = false /\ isr_handler_list s' = isr_handler_list s /\ isr_handler_table s' = isr_handler_table s /\
    louder (threads s) (threads s') /\ forall h, h ∈ isr_handler_list s i -> notified s s' h) s.
Proof.
  intros Hok Hk He Hc Hpc Hi Hne. rw /interrupt_top_half. destruct (Z.eqb_spec i IRQ_SPURIOUS) as [E|_]; [rw E /NIRQ /IRQ_SPURIOUS in Hi; lia|]. destruct (Z.eqb_spec i IRQ_TIMER3); [done|].
  apply wp_bind, wp_upd_mask; [done|]. apply wp_bind, wp_modify. simpl. set s1 := setf _ (setf _ s). pose proof (io_mask _ Hok i Hi) as Hm.
  assert (irq_ok s1) as Hok1. { apply (mask_change s i (irq_mask_cnt s i + 1) false); [done|lia|]. split; [done|lia]. }
  apply wp_bind, wp_bind, wp_in_array; [done|]. apply wp_bind, wp_gets, wp_bind. change (isr_handler_list s1 i) with (isr_handler_list s i).
  eapply wp_mono; [apply (broadcast_ok pc ep c (isr_handler_list s i) s1); try done|].
  { intros h Hh. destruct (io_irq _ Hok i h Hh) as (_ & _ & _ & t & Et & _). split; [by exists t|]. by apply (io_event _ Hok i). }
  intros _ s' (k & -> & Hk' & He' & _ & Hl & Hn). apply wp_ret, wp_ret. split_and!; try done.
  - destruct Hok1. by split.
  - simpl. by rw fn_lookup_insert.
  - simpl. by rw fn_lookup_insert.
Qed.

(** ** The kernel *)

(** Threads run, and call proc/interrupt.c from inside the kernel; processes
    change; and interrupts that are enabled occur. *)
Inductive istep : irqs * (nat -> loc) * (nat -> bool) -> irqs * (nat -> loc) * (nat -> bool) -> Prop :=
  | i_threads s pc ep k pc' ep' : estep (threads s, pc, ep) (k, pc', ep') -> istep (s, pc, ep) (s <| threads := k |>, pc', ep')
  | i_process s pc ep f : istep (s, pc, ep) (s <| thread_process := f |>, pc, ep)
  | i_add s pc ep c cr irq event r s' : current_thread (threads s) = Some c -> irq <> NIRQ - BASE_USER_IRQ -> 0 <= event < 32 ->
      sys_addinterruptserver cr irq event s = Ok (r, s') -> istep (s, pc, ep) (s', pc, ep)
  | i_rem s pc ep c isrid r s' : current_thread (threads s) = Some c -> sys_reminterruptserver isrid s = Ok (r, s') -> istep (s, pc, ep) (s', pc, ep)
  | i_exit s pc ep t s' : do_free_all_isrhandlers (length (thread_isrs s t)) (thread_process s t) t s = Ok (true, s') -> istep (s, pc, ep) (s', pc, ep)
  | i_mask s pc ep cr irq r s' : sys_maskinterrupt cr irq s = Ok (r, s') -> istep (s, pc, ep) (s', pc, ep)
  | i_unmask s pc ep cr irq r s' : sys_unmaskinterrupt cr irq s = Ok (r, s') -> istep (s, pc, ep) (s', pc, ep)
  | i_interrupt s pc ep c i s' : current_thread (threads s) = Some c -> pc c = LKernel -> 0 <= i < NIRQ -> i <> IRQ_TIMER3 -> irq_enabled s i = true ->
      interrupt_top_half timer i s = Ok (tt, s') -> istep (s, pc, ep) (s', pc, ep).
Definition inv (x : irqs * (nat -> loc) * (nat -> bool)) : Prop := irq_ok x.1.1 /\ kinv (threads x.1.1) x.1.2 /\ ev_ok (threads x.1.1) x.2.
Lemma wp_result {S A} (m : M S A) Q (x : S) a x' : wp m Q x -> m x = Ok (a, x') -> Q a x'.
Proof. intros Hw E. by rw /wp E in Hw. Qed.
Lemma istep_inv x y : istep x y -> inv x -> inv y.
Proof.
  intros Hs (Hok & Hk & He). destruct Hs as [s pc ep k pc' ep' Hst|s pc ep f|s pc ep c cr irq event r s' Hc Hne Hev Hr|s pc ep c isrid r s' Hc Hr|s pc ep t s' Hr|s pc ep cr irq r s' Hr|s pc ep cr irq r s' Hr|s pc ep c i s' Hc Hpc Hi Hnt Hen Hr]; simpl in *.
  - destruct (estep_inv _ _ Hst Hk He) as [? ?]. split; [|done]. destruct Hok. by split.
  - split; [|done]. destruct Hok. by split.
  - destruct (wp_result _ _ _ _ _ (add_server_ok s cr c irq event Hok Hev Hc Hne) Hr) as (? & Et & _). by rw /inv /= Et.
  - destruct (wp_result _ _ _ _ _ (rem_server_ok s c isrid Hok Hc) Hr) as (? & _ & [(h & _ & _ & [_ _ _ _ [Et _]])|[_ ->]]); [|done]. by rw /inv /= Et.
  - destruct (wp_result _ _ _ _ _ (free_all_ok t _ s Hok (le_n _)) Hr) as (_ & ? & [_ _ _ _ [Et _]]). by rw /inv /= Et.
  - destruct (wp_result _ _ _ _ _ (mask_ok s cr irq Hok) Hr) as [? Hm]. destruct (user_irq irq); [destruct Hm as (_ & _ & _ & _ & _ & _ & Et)|destruct Hm as [_ ->]]; [|done]. by rw /inv /= Et.
  - destruct (wp_result _ _ _ _ _ (unmask_ok s cr irq Hok) Hr) as [? Hm]. destruct (user_irq irq); [destruct Hm as (_ & _ & _ & _ & _ & _ & Et)|destruct Hm as [_ ->]]; [|done]. by rw /inv /= Et.
  - by destruct (wp_result _ _ _ _ _ (top_half_ok s pc ep c i Hok Hk He Hc Hpc Hi Hnt) Hr) as (? & ? & ? & _).
Qed.

(** C27: interrupts reach their servers. Whatever threads do, however servers
    are added, for interrupts of the controller and events of which a thread
    has a bit (0 to 31), and removed, interrupts masked and unmasked, and
    interrupts occur: an interrupt that has servers is enabled exactly when its
    mask count is 0. When an interrupt other than the kernel's timer occurs the
    handler returns without a panic or a fault, the interrupt is masked once
    more, the servers stay as they are, every server's thread has the server's
    event, also if several servers share the interrupt or the thread, and a
    thread that slept for that event is awake and waits for the lock; no thread
    loses an event or falls asleep. Not covered: servers of the timer's
    interrupt, which are accepted but never told ([timer_not_delivered]); the
    number after the last interrupt ([add_past_end_run]). The count stays up
    when a server goes away that has not unmasked ([shared_stays_masked_run]).
    *)
Theorem interrupts_delivered s0 pc0 ep0 s pc ep :
  irq_ok s0 -> kinv (threads s0) pc0 -> ev_ok (threads s0) ep0 -> rtc istep (s0, pc0, ep0) (s, pc, ep) ->
  (forall i, 0 <= i < NIRQ -> isr_handler_list s i <> [] -> irq_enabled s i = true <-> irq_mask_cnt s i = 0) /\
  forall c i, current_thread (threads s) = Some c -> pc c = LKernel -> 0 <= i < NIRQ -> i <> IRQ_TIMER3 ->
    exists s', interrupt_top_half timer i s = Ok (tt, s') /\ irq_mask_cnt s' i = irq_mask_cnt s i + 1 /\ irq_enabled s' i = false /\
      isr_handler_list s' = isr_handler_list s /\ isr_handler_table s' = isr_handler_table s /\ louder (threads s) (threads s') /\
      forall h, h ∈ isr_handler_list s i -> notified s s' h.
Proof.
  intros Hok Hk He Hs. assert (inv (s, pc, ep)) as (Hok' & Hk' & He'). { assert (inv (s0, pc0, ep0)) as Hi0 by done. revert Hi0. induction Hs as [|x y z Hxy _ IH]; [done|]. intros Hi. by apply IH, (istep_inv x y). }
  simpl in Hok', Hk', He'. split.
  - intros i Hi Hne. split; [by apply Hok'|]. intros Hm. by apply (io_served _ Hok').
  - intros c i Hc Hpc Hi Hnt. destruct (proj1 (wp_ok _ _ _) (top_half_ok s pc ep c i Hok' Hk' He' Hc Hpc Hi Hnt)) as ([] & s' & Hr & _ & _ & _ & Hrest). by exists s'.
Qed.
End interrupts.

(** ** Runs on the threads of [Sample], thread 0 running in the kernel *)
Import Sample.
#[local] Instance irq_consts : IrqConsts := {| PRIV_INTERRUPT := 1 |}.
#[local] Instance irq_threads : Threads := plain_threads.
Definition no_cred : Cred := mkCred 0 0 0 0 0 0 0 [] 0 0.
Definition irq0 : irqs := mkIrqs (fun _ => mkISRHandler None 0 0) [0; 1; 2]%nat (fun _ => []) (fun _ => []) (fun _ => 5%nat) (fun _ => 0) (fun _ => 0) (fun _ => false) state0.
Definition irq_after {A} (m : IM A) (s : irqs) : irqs := match m s with Ok (_, s') => s' | _ => s end.
Definition irq1 : irqs := irq_after (sys_addinterruptserver no_cred 10 4) irq0.
Definition irq2 : irqs := irq_after (sys_unmaskinterrupt no_cred 10) irq1.
Lemma irq0_ok : irq_ok irq0.
Proof.
  split; try done; simpl.
  - by apply (bool_decide_unpack _).
  - intros _. apply NoDup_nil_2.
  - intros _. apply NoDup_nil_2.
  - intros i h Hh. by apply not_elem_of_nil in Hh.
  - intros t h Hh. by apply not_elem_of_nil in Hh.
Qed.
(** Thread 0 serves interrupt 106 with event 4, and unmasks it. *)
Lemma irq_steps : rtc (istep (mret tt)) (irq0, pc0, fun _ => false) (irq2, pc0, fun _ => false).
Proof.
  eapply rtc_l; [apply (i_add _ irq0 pc0 _ 0%nat no_cred 10 4 (RVal 0) irq1); [done|done|lia|reflexivity]|].
  eapply rtc_l; [apply (i_unmask _ irq1 pc0 _ no_cred 10 (RVal 0) irq2); reflexivity|]. apply rtc_refl.
Qed.
Lemma irq_server : 0%nat ∈ isr_handler_list irq2 106 /\ isr_thread (isr_handler_table irq2 0%nat) = Some 0%nat /\ isr_event (isr_handler_table irq2 0%nat) = 4.
Proof. split; [vm_compute; left|by vm_compute]. Qed.
Lemma interrupts_delivered_witness :
  exists s', interrupt_top_half (mret tt) 106 irq2 = Ok (tt, s') /\ irq_enabled s' 106 = false /\ Z.testbit (pending_events (th (threads s') 0%nat)) 4 = true.
Proof.
  destruct (interrupts_delivered (mret tt) irq0 pc0 (fun _ => false) irq2 pc0 (fun _ => false)) as [_ Hd]; [apply irq0_ok|apply sample_kinv|apply sample_ev_ok|apply irq_steps|].
  destruct (Hd 0%nat 106) as (s' & Hr & _ & He & _ & _ & _ & Hn); [reflexivity|reflexivity|split; [discriminate|reflexivity]|discriminate|]. destruct irq_server as (Hin & Et & Ev).
  exists s'. split; [exact Hr|]. split; [exact He|]. exact (proj1 (Hn 0%nat Hin 0%nat 4 Et Ev)).
Defined.

(** ** What the calls do not check *)

(** The number after the last passes the test of [sys_addinterruptserver] and
    is out of the arrays. *)
Lemma add_past_end_run : sys_addinterruptserver no_cred (NIRQ - BASE_USER_IRQ) 4 irq0 = Fault.
Proof. reflexivity. Qed.
(** A server of the interrupt of the kernel's timer is not told when that
    occurs. *)
Lemma timer_not_delivered (timer : IM unit) s : interrupt_top_half timer IRQ_TIMER3 s = timer s.
Proof. reflexivity. Qed.
(** The timer of the kernel is the user's interrupt 3: masking it stops the
    clock. *)
Lemma mask_timer_run : irq_enabled (irq_after (sys_unmaskinterrupt no_cred 3) irq0) IRQ_TIMER3 = true /\
  irq_enabled (irq_after (_ ← sys_unmaskinterrupt no_cred 3; sys_maskinterrupt no_cred 3) irq0) IRQ_TIMER3 = false.
Proof. by vm_compute. Qed.
(** A server that goes away before it unmasks leaves the interrupt masked for
    the others. *)
Lemma shared_stays_masked_run :
  let s := irq_after (_ ← sys_addinterruptserver no_cred 10 5; sys_reminterruptserver 1) irq2 in
  irq_enabled irq2 106 = true /\ isr_handler_list s 106 = isr_handler_list irq2 106 /\ irq_enabled s 106 = false.
Proof. vm_compute. done. Qed.
(** The exit of the last thread of a process that has a server never ends. *)
Lemma exit_hangs_run n : do_free_all_isrhandlers n 5 0 (irq2 <| thread_process := fun _ => 1%nat |>) = Ok (false, irq2 <| thread_process := fun _ => 1%nat |>).
Proof. by apply free_all_hangs. Qed.
