(* ===== verification/ExecArgs.v ===== *)
(** * ExecArgs: the arguments of a new program, fs/exec.c

    When a process runs another program the strings of its arguments and of
    its environment are copied to a buffer of the kernel, for the address space
    they are in goes away, and from there to the stack of the new program.
    Memory is bytes by address here: [pool] is the buffer [execargs_buf], which
    is defined from [execargs_buf] up to [execargs_buf + MAX_ARGS_SZ] only, and
    [user] is what the process can access. *)

From S2P Require Import Prelude Sched MemRegion Cstring.
Local Open Scope Z_scope.
Local Open Scope kernel_scope.

Definition MAX_ARGS_SZ : Z := 0x10000.
Definition sizeof_ptr : Z := 4.

(** The structure of <sys/execargs.h>. *)
Record execargs := mkExecargs { argv : Z; argc : Z; envv : Z; envc : Z; total_size : Z }.

(** The address of the buffer and its rendez; and [copyin] of the structure at
    an address, whose layout is that of the header. *)
Class ExecConsts := {
  execargs_buf : Z;
  execargs_rendez : nat;
  copyin_execargs : (Z -> option Z) -> Z -> option execargs }.

(** [writable]: the addresses the process can write to. *)
Record exec := mkExec { pool : Z -> option Z; user : Z -> option Z; writable : Z -> bool; execargs_busy : bool; xsch : sched }.
Definition eta_exec s := mkExec (pool s) (user s) (writable s) (execargs_busy s) (xsch s).
#[export] Instance set_pool : Setter pool := ltac:(solve_setter eta_exec).
#[export] Instance set_user : Setter user := ltac:(solve_setter eta_exec).
#[export] Instance set_writable : Setter writable := ltac:(solve_setter eta_exec).
#[export] Instance set_execargs_busy : Setter execargs_busy := ltac:(solve_setter eta_exec).
#[export] Instance set_xsch : Setter xsch := ltac:(solve_setter eta_exec).
Abbreviation XM := (M exec).

(** ** Words, the least significant byte first *)
Definition word (b0 b1 b2 b3 : Z) : Z := b0 + 2 ^ 8 * b1 + 2 ^ 16 * b2 + 2 ^ 24 * b3.
Definition byte_of (w i : Z) : Z := w / 2 ^ (8 * i) mod 2 ^ 8.

Section ops.
Context `{ExecConsts}.

(** ** Memory *)
Definition get_byte (a : Z) : XM Z := o ← gets (fun s => pool s a); match o with Some b => mret b | None => fault end.
Definition put_byte (a b : Z) : XM unit := _ ← get_byte a; modify (fun s => s <| pool ::= fun m => <[a := Some b]> m |>).
Definition get_word (a : Z) : XM Z :=
  b0 ← get_byte a; b1 ← get_byte (a + 1); b2 ← get_byte (a + 2); b3 ← get_byte (a + 3); mret (word b0 b1 b2 b3).
Definition put_word (a w : Z) : XM unit :=
  _ ← put_byte a (byte_of w 0); _ ← put_byte (a + 1) (byte_of w 1); _ ← put_byte (a + 2) (byte_of w 2); put_byte (a + 3) (byte_of w 3).

(** The loops of boards/raspberry_pi_4/copyin.S: [true] for 0. *)
Fixpoint copyin (dst src : Z) (n : nat) : XM bool :=
  match n with
  | O => mret true
  | S n' =>
    o ← gets (fun s => user s src);
    match o with None => mret false | Some b => _ ← put_byte dst b; copyin (dst + 1) (src + 1) n' end
  end.
Fixpoint copyinstring (dst src : Z) (n : nat) : XM bool :=
  match n with
  | O => mret false
  | S n' =>
    o ← gets (fun s => user s src);
    match o with
    | None => mret false
    | Some b => _ ← put_byte dst b; if b =? 0 then mret true else copyinstring (dst + 1) (src + 1) n'
    end
  end.
Fixpoint copyout (dst src : Z) (n : nat) : XM bool :=
  match n with
  | O => mret true
  | S n' =>
    b ← get_byte src;
    w ← gets (fun s => writable s dst);
    if (w : bool) then _ ← modify (fun s => s <| user ::= fun m => <[dst := Some b]> m |>); copyout (dst + 1) (src + 1) n' else mret false
  end.
(** [StrLen] of a string in the buffer: the array goes on to its end. *)
Definition rest_of_pool (m : Z -> option Z) (a : Z) : list Z := omap m (seqZ a (execargs_buf + MAX_ARGS_SZ - a)).
Definition pool_StrLen (a : Z) : XM nat := m ← gets pool; lift (StrLen (rest_of_pool m a)).

(** ** The buffer *)
Definition on_xsch {A} (m : M sched A) : XM A := fun s =>
  match m (xsch s) with Ok (a, k) => Ok (a, s <| xsch := k |>) | Panic => Panic | Fault => Fault end.
(** One turn of the loop of [alloc_arg_pool]; [None]: the thread sleeps, and
    tries again when it is woken. *)
Definition alloc_arg_pool : XM (option Z) :=
  b ← gets execargs_busy;
  if (b : bool) then _ ← on_xsch (TaskSleep execargs_rendez); mret None
  else _ ← modify (fun s => s <| execargs_busy := true |>); mret (Some execargs_buf).
Definition free_arg_pool : XM unit :=
  _ ← modify (fun s => s <| execargs_busy := false |>);
  on_xsch (TaskWakeupAll execargs_rendez).

(** ** From the process to the buffer *)

(** The loop over [argv] or [envv], from the entry at [vec] on, [n] entries:
    [dst] and [remaining] at its end, [None] when a string could not be
    copied. *)
Fixpoint copy_strings (n : nat) (vec dst remaining : Z) : XM (option (Z * Z)) :=
  match n with
  | O => mret (Some (dst, remaining))
  | S n' =>
    src ← get_word vec;
    ok ← copyinstring dst src (Z.to_nat (wrap32 remaining));
    if (ok : bool) then
      _ ← put_word vec dst;
      l ← pool_StrLen dst;
      let sz := Z.of_nat l + 1 in
      copy_strings n' (vec + sizeof_ptr) (dst + sz) (remaining - sz)
    else mret None
  end.

Definition args_failed (a : execargs) : XM (ret * execargs) := mret (RErr EFAULT, a).
(** The result, and the structure [args] at the end. *)
Definition copy_in_argv (_args : Z) : XM (ret * execargs) :=
  if _args =? 0 then _ ← free_arg_pool; mret (RVal 0, mkExecargs 0 0 0 0 0)
  else
    u ← gets user;
    match copyin_execargs u _args with
    | None => args_failed (mkExecargs 0 0 0 0 0)
    | Some a =>
      let av := execargs_buf in
      let ev := wrap32 (av + (argc a + 1) * sizeof_ptr) in
      let string_table := wrap32 (ev + (envc a + 1) * sizeof_ptr) in
      ok ← copyin av (argv a) (Z.to_nat (wrap32 (argc a * sizeof_ptr)));
      if negb ok then args_failed a
      else
        ok ← copyin ev (envv a) (Z.to_nat (wrap32 (envc a * sizeof_ptr)));
        if negb ok then args_failed a
        else
          o ← copy_strings (Z.to_nat (argc a)) av string_table (execargs_buf + MAX_ARGS_SZ - string_table);
          match o with
          | None => args_failed a
          | Some (dst, remaining) =>
            _ ← put_word (wrap32 (av + argc a * sizeof_ptr)) 0;
            o ← copy_strings (Z.to_nat (envc a)) ev dst remaining;
            match o with
            | None => args_failed a
            | Some (dst, _) =>
              _ ← put_word (wrap32 (ev + envc a * sizeof_ptr)) 0;
              mret (RVal 0, mkExecargs av (argc a) ev (envc a) (dst - execargs_buf))
            end
          end
    end.

(** ** From the buffer to the stack *)
Fixpoint relocate (n : nat) (vec difference : Z) : XM unit :=
  match n with
  | O => mret tt
  | S n' => p ← get_word vec; _ ← put_word vec (wrap32 (p - difference)); relocate n' (vec + sizeof_ptr) difference
  end.
Definition args_base (stack_base stack_size size : Z) : Z := wrap32 (stack_base + stack_size - Ops.ALIGN_UP size 16).
(** The structure [args] at the end. *)
Definition copy_out_argv (stack_base stack_size : Z) (a : execargs) : XM execargs :=
  let base := args_base stack_base stack_size (total_size a) in
  let difference := wrap32 (execargs_buf - base) in
  _ ← relocate (Z.to_nat (argc a)) (argv a) difference;
  _ ← relocate (Z.to_nat (envc a)) (envv a) difference;
  _ ← copyout base execargs_buf (Z.to_nat (wrap32 (total_size a)));
  mret (mkExecargs (wrap32 (argv a - difference)) (argc a) (wrap32 (envv a - difference)) (envc a) (total_size a)).
End ops.
