(* ===== verification/ExecArgsThms.v ===== *)
(** * ExecArgsThms: a new program gets the arguments it was given

    What the copies of fs/exec.c do to memory, and the round trip: the strings
    of the process that calls exec are those on the stack of the new program. *)

From S2P Require Import Prelude Sched SchedQueue Bkl BklSteps MemRegion Cstring ExecArgs.
Local Open Scope Z_scope.
Local Open Scope kernel_scope.

(** ** Strings and vectors in memory *)
Section memory.
Implicit Types (m k u : Z -> option Z) (a b p vec dst off : Z) (cs : list Z) (strs : list (list Z)).

Definition word_at m a : option Z := b0 ← m a; b1 ← m (a + 1); b2 ← m (a + 2); b3 ← m (a + 3); Some (word b0 b1 b2 b3).
Fixpoint str_at m a cs : Prop :=
  match cs with [] => m a = Some 0 | c :: cs' => m a = Some c /\ c <> 0 /\ str_at m (a + 1) cs' end.
(** The entries at [vec] in [k] point to the strings in [u]. *)
Fixpoint svec k u vec strs : Prop :=
  match strs with [] => True | cs :: r => (exists p, word_at k vec = Some p /\ str_at u p cs) /\ svec k u (vec + 4) r end.
Definition vec_at m vec strs : Prop := svec m m vec strs.
(** The bytes of the strings, with their NULs. *)
Definition len cs : Z := Z.of_nat (length cs).
Fixpoint size strs : Z := match strs with [] => 0 | cs :: r => len cs + 1 + size r end.
Definition cnt strs : Z := Z.of_nat (length strs).
(** The strings are one after the other from [dst] on, and the entries at [vec]
    point [off] past them. *)
Fixpoint placed off m vec dst strs : Prop :=
  match strs with
  | [] => True
  | cs :: r => word_at m vec = Some (dst + off) /\ str_at m dst cs /\ placed off m (vec + 4) (dst + (len cs + 1)) r
  end.
Definition same_dom m k : Prop := forall a, is_Some (k a) <-> is_Some (m a).

Lemma len_cons c cs : len (c :: cs) = len cs + 1.
Proof. rw /len /=. lia. Qed.
Lemma cnt_cons cs strs : cnt (cs :: strs) = cnt strs + 1.
Proof. rw /cnt /=. lia. Qed.
Lemma len_pos cs : 0 <= len cs.
Proof. rw /len. lia. Qed.
Lemma cnt_pos strs : 0 <= cnt strs.
Proof. rw /cnt. lia. Qed.
Lemma size_pos strs : 0 <= size strs.
Proof. induction strs as [|cs r IH]; simpl; [done|]. pose proof (len_pos cs). lia. Qed.
Lemma same_dom_trans m k u : same_dom m k -> same_dom k u -> same_dom m u.
Proof. intros H1 H2 a. rw (H2 a). apply H1. Qed.

Lemma word_at_shift m k a b : (forall i, 0 <= i < 4 -> k (b + i) = m (a + i)) -> word_at k b = word_at m a.
Proof. intros E. rw /word_at. pose proof (E 0 ltac:(lia)) as E0. rw !Z.add_0_r in E0. by rw E0 (E 1) // (E 2) // (E 3). Qed.
Lemma str_at_shift m k cs : forall a b, (forall i, 0 <= i <= len cs -> k (b + i) = m (a + i)) -> str_at m a cs -> str_at k b cs.
Proof.
  induction cs as [|c cs IH]; intros a b E; simpl; pose proof (E 0 ltac:(rw /len /=; lia)) as E0; rw !Z.add_0_r in E0; rw E0; [done|].
  intros (? & ? & Hs). split_and!; [done..|]. apply (IH (a + 1)); [|done]. intros i Hi. rw -!Z.add_assoc. apply E. rw len_cons. lia.
Qed.
Lemma str_at_fun m cs cs' : forall a, str_at m a cs -> str_at m a cs' -> cs = cs'.
Proof.
  revert cs'. induction cs as [|c cs IH]; intros [|c' cs'] a; simpl; [done|intros E (E' & Hn & _); congruence|intros (E & Hn & _) E'; congruence|].
  intros (E & _ & Hs) (E' & _ & Hs'). f_equal; [congruence|]. by apply (IH _ (a + 1)).
Qed.
Lemma svec_shift k k' u strs : forall a b, (forall i, 0 <= i < 4 * cnt strs -> k' (b + i) = k (a + i)) -> svec k u a strs -> svec k' u b strs.
Proof.
  induction strs as [|cs r IH]; intros a b E; simpl; [done|]. rw cnt_cons in E. pose proof (cnt_pos r). intros [(p & Hp & Hs) Hr]. split.
  - exists p. rw (word_at_shift k k' a) //. intros i Hi. apply E. lia.
  - apply (IH (a + 4)); [|done]. intros i Hi. rw -!Z.add_assoc. apply E. lia.
Qed.
Lemma svec_fun k u strs strs' : forall a, svec k u a strs -> svec k u a strs' -> length strs = length strs' -> strs = strs'.
Proof.
  revert strs'. induction strs as [|cs r IH]; intros [|cs' r'] a; simpl; try done. intros [(p & Hp & Hs) Hr] [(p' & Hp' & Hs') Hr'] [= Hl].
  f_equal; [apply (str_at_fun u _ _ p); [done|]; congruence|by apply (IH _ (a + 4))].
Qed.
Lemma svec_dom k u strs : forall a, svec k u a strs -> forall i, 0 <= i < 4 * cnt strs -> is_Some (k (a + i)).
Proof.
  induction strs as [|cs r IH]; intros a; simpl; [rw /cnt /=; lia|]. rw cnt_cons. intros [(p & Hp & _) Hr] i Hi. destruct (decide (i < 4)).
  - rw /word_at in Hp. assert (i = 0 \/ i = 1 \/ i = 2 \/ i = 3) as Hc by lia. destruct (k a) eqn:E0, (k (a + 1)) eqn:E1, (k (a + 2)) eqn:E2, (k (a + 3)) eqn:E3; try done. destruct Hc as [->|[->|[->| ->]]]; rw ?Z.add_0_r ?E0 ?E1 ?E2 ?E3; by eexists.
  - replace (a + i) with (a + 4 + (i - 4)) by lia. apply IH; [done|lia].
Qed.
Lemma placed_shift off d m k strs : forall vec dst,
  (forall i, 0 <= i < 4 * cnt strs -> k (vec + d + i) = m (vec + i)) -> (forall i, 0 <= i < size strs -> k (dst + d + i) = m (dst + i)) ->
  placed off m vec dst strs -> placed (off - d) k (vec + d) (dst + d) strs.
Proof.
  induction strs as [|cs r IH]; intros vec dst Ev Es; simpl; [done|]. rw cnt_cons in Ev. simpl in Es. pose proof (cnt_pos r). pose proof (size_pos r). pose proof (len_pos cs). intros (Hw & Hs & Hr). split_and!.
  - rw (word_at_shift m k vec); [intros i Hi; apply Ev; lia|]. rw Hw. f_equal. lia.
  - apply (str_at_shift m k _ dst); [|done]. intros i Hi. apply Es. lia.
  - replace (vec + d + 4) with (vec + 4 + d) by lia. replace (dst + d + (len cs + 1)) with (dst + (len cs + 1) + d) by lia. apply IH; [..|done].
    + intros i Hi. replace (vec + 4 + d + i) with (vec + d + (4 + i)) by lia. replace (vec + 4 + i) with (vec + (4 + i)) by lia. apply Ev. lia.
    + intros i Hi. replace (dst + (len cs + 1) + d + i) with (dst + d + (len cs + 1 + i)) by lia. replace (dst + (len cs + 1) + i) with (dst + (len cs + 1 + i)) by lia. apply Es. lia.
Qed.
Lemma placed_frame off m k strs vec dst :
  (forall a, vec <= a < vec + 4 * cnt strs \/ dst <= a < dst + size strs -> k a = m a) -> placed off m vec dst strs -> placed off k vec dst strs.
Proof.
  intros E Hp. pose proof (placed_shift off 0 m k strs vec dst) as Hs. rw !Z.add_0_r Z.sub_0_r in Hs. apply Hs; [..|done]; intros i Hi; apply E; lia.
Qed.
Lemma placed_vec m strs : forall vec dst, placed 0 m vec dst strs -> vec_at m vec strs.
Proof.
  rw /vec_at. induction strs as [|cs r IH]; intros vec dst; simpl; [done|]. rw Z.add_0_r. intros (Hw & Hs & Hr). split; [by exists dst|]. by apply (IH _ _ Hr).
Qed.
Lemma word_byte_of w : u32 w -> word (byte_of w 0) (byte_of w 1) (byte_of w 2) (byte_of w 3) = w.
Proof.
  rw /u32 /word /byte_of. change (2 ^ (8 * 0)) with 1. change (2 ^ (8 * 1)) with 256. change (2 ^ (8 * 2)) with 65536. change (2 ^ (8 * 3)) with 16777216. change (2 ^ 8) with 256. change (2 ^ 16) with 65536. change (2 ^ 24) with 16777216. change (2 ^ 32) with 4294967296.
  rw Z.div_1_r. intros Hw. Z.to_euclidean_division_equations. lia.
Qed.
End memory.

(** ** The copies *)
Section copies.
Context `{ExecConsts}.
Implicit Types (s : exec) (m : Z -> option Z) (a b src dst vec : Z) (cs : list Z) (strs : list (list Z)).

Lemma set_pool_same s : s <| pool := pool s |> = s.
Proof. by destruct s. Qed.
Lemma wp_get_byte a b Q s : pool s a = Some b -> Q b s -> wp (get_byte a) Q s.
Proof. intros E HQ. rw /get_byte. apply wp_bind, wp_gets. rw E. by apply wp_ret. Qed.
Lemma wp_put_byte a b Q s : is_Some (pool s a) -> Q tt (s <| pool ::= fun m => <[a := Some b]> m |>) -> wp (put_byte a b) Q s.
Proof. intros [x E] HQ. apply wp_bind, (wp_get_byte a x); [done|]. by apply wp_modify. Qed.
Lemma wp_get_word a w Q s : word_at (pool s) a = Some w -> Q w s -> wp (get_word a) Q s.
Proof.
  rw /word_at. intros E HQ. destruct (pool s a) as [b0|] eqn:E0, (pool s (a + 1)) as [b1|] eqn:E1, (pool s (a + 2)) as [b2|] eqn:E2, (pool s (a + 3)) as [b3|] eqn:E3; try done. injection E as <-.
  apply wp_bind, (wp_get_byte _ b0); [done|]. apply wp_bind, (wp_get_byte _ b1); [done|]. apply wp_bind, (wp_get_byte _ b2); [done|]. apply wp_bind, (wp_get_byte _ b3); [done|]. by apply wp_ret.
Qed.
Lemma word_at_some m a : (forall i, 0 <= i < 4 -> is_Some (m (a + i))) -> is_Some (word_at m a).
Proof.
  intros Hd. pose proof (Hd 0 ltac:(lia)) as [b0 E0]. pose proof (Hd 1 ltac:(lia)) as [b1 E1]. pose proof (Hd 2 ltac:(lia)) as [b2 E2]. pose proof (Hd 3 ltac:(lia)) as [b3 E3].
  rw Z.add_0_r in E0. rw /word_at E0 E1 E2 E3. by eexists.
Qed.
Lemma wp_put_word a w Q s : (forall i, 0 <= i < 4 -> is_Some (pool s (a + i))) -> u32 w ->
  (forall m, word_at m a = Some w -> (forall b, ~ a <= b < a + 4 -> m b = pool s b) -> same_dom (pool s) m -> Q tt (s <| pool := m |>)) -> wp (put_word a w) Q s.
Proof.
  intros Hd Hw HQ. pose proof (Hd 0 ltac:(lia)) as H0. pose proof (Hd 1 ltac:(lia)) as H1. pose proof (Hd 2 ltac:(lia)) as H2. pose proof (Hd 3 ltac:(lia)) as H3. rw Z.add_0_r in H0.
  set m := <[a + 3 := Some (byte_of w 3)]> (<[a + 2 := Some (byte_of w 2)]> (<[a + 1 := Some (byte_of w 1)]> (<[a := Some (byte_of w 0)]> (pool s)))).
  assert (forall b, m b = if decide (a <= b < a + 4) then Some (byte_of w (b - a)) else pool s b) as Hm.
  { intros b. rw /m. destruct (decide (b = a + 3)) as [->|]; [reads; rw decide_True; [lia|]; by replace (a + 3 - a) with 3 by lia|]. destruct (decide (b = a + 2)) as [->|]; [reads; rw decide_True; [lia|]; by replace (a + 2 - a) with 2 by lia|].
    destruct (decide (b = a + 1)) as [->|]; [reads; rw decide_True; [lia|]; by replace (a + 1 - a) with 1 by lia|]. destruct (decide (b = a)) as [->|]; [reads; rw decide_True; [lia|]; by rw Z.sub_diag|]. reads. rw decide_False //. lia. }
  assert (same_dom (pool s) m) as Hsd.
  { intros b. rw Hm. case_decide as E; [|done]. split; [|by eexists]. intros _. replace b with (a + (b - a)) by lia. apply Hd. lia. }
  do 3 (apply wp_bind, wp_put_byte; [simpl; by do 3 try (rewrite ->fn_lookup_insert_ne by lia)|]). apply wp_put_byte; [simpl; by do 3 try (rewrite ->fn_lookup_insert_ne by lia)|].
  apply (HQ m); [|intros b Hb; by rw Hm decide_False|done]. rw /word_at !Hm !decide_True; try lia. rw Z.sub_diag. replace (a + 1 - a) with 1 by lia. replace (a + 2 - a) with 2 by lia. replace (a + 3 - a) with 3 by lia. simpl. by rw word_byte_of.
Qed.

Lemma copyin_spec n : forall s dst src, (forall i, 0 <= i < Z.of_nat n -> is_Some (pool s (dst + i))) ->
  wp (copyin dst src n) (fun ok s' => exists m, s' = s <| pool := m |> /\ same_dom (pool s) m /\ (forall a, ~ dst <= a < dst + Z.of_nat n -> m a = pool s a) /\
    if ok then forall i, 0 <= i < Z.of_nat n -> m (dst + i) = user s (src + i) /\ is_Some (user s (src + i)) else exists i, 0 <= i < Z.of_nat n /\ user s (src + i) = None) s.
Proof.
  induction n as [|n IH]; intros s dst src Hd; simpl.
  { apply wp_ret. exists (pool s). rw set_pool_same. split_and!; try done. intros i Hi. lia. }
  apply wp_bind, wp_gets. destruct (user s src) as [b|] eqn:Eb.
  2:{ apply wp_ret. exists (pool s). rw set_pool_same. split_and!; try done. exists 0. rw Z.add_0_r. split; [lia|done]. }
  pose proof (Hd 0 ltac:(lia)) as Hd0. rw Z.add_0_r in Hd0. apply wp_bind, wp_put_byte; [done|].
  set s1 := setf _ s. assert (same_dom (pool s) (pool s1)) as Hs1. { intros a. rw /s1 /=. destruct (decide (a = dst)) as [->|]; reads; naive_solver. }
  eapply wp_mono; [apply (IH s1 (dst + 1) (src + 1))|].
  { intros i Hi. rw Hs1 -Z.add_assoc. apply Hd. lia. }
  intros ok s' (m & -> & Hsd & Hfr & Hok). exists m. split_and!; [done|by apply (same_dom_trans _ (pool s1))|..].
  - intros a Ha. rw Hfr; [lia|]. rw /s1 /=. by rewrite ->fn_lookup_insert_ne by lia.
  - destruct ok; [|destruct Hok as (i & Hi & Hn); exists (1 + i); rw Z.add_assoc; split; [lia|done]]. intros i Hi. destruct (decide (i = 0)) as [->|].
    + rw !Z.add_0_r Eb Hfr; [lia|]. rw /s1 /=. reads. split; [done|by eexists].
    + pose proof (Hok (i - 1) ltac:(lia)) as Hx. replace (dst + 1 + (i - 1)) with (dst + i) in Hx by lia. by replace (src + 1 + (i - 1)) with (src + i) in Hx by lia.
Qed.

Lemma copyinstring_spec n : forall s dst src, (forall i, 0 <= i < Z.of_nat n -> is_Some (pool s (dst + i))) ->
  wp (copyinstring dst src n) (fun ok s' => exists m, s' = s <| pool := m |> /\ same_dom (pool s) m /\
    if ok then exists cs, str_at (user s) src cs /\ len cs < Z.of_nat n /\ str_at m dst cs /\ (forall a, ~ dst <= a <= dst + len cs -> m a = pool s a)
    else (forall cs, str_at (user s) src cs -> Z.of_nat n <= len cs)) s.
Proof.
  induction n as [|n IH]; intros s dst src Hd; simpl.
  { apply wp_ret. exists (pool s). rw set_pool_same. split_and!; try done. intros cs _. rw /len. lia. }
  apply wp_bind, wp_gets. destruct (user s src) as [b|] eqn:Eb.
  2:{ apply wp_ret. exists (pool s). rw set_pool_same. split_and!; try done. intros [|c cs]; simpl; rw Eb; [done|]. by intros []. }
  pose proof (Hd 0 ltac:(lia)) as Hd0. rw Z.add_0_r in Hd0. apply wp_bind, wp_put_byte; [done|].
  set s1 := setf _ s. assert (same_dom (pool s) (pool s1)) as Hs1. { intros a. rw /s1 /=. destruct (decide (a = dst)) as [->|]; reads; naive_solver. }
  destruct (Z.eqb_spec b 0) as [->|Hb].
  { apply wp_ret. exists (pool s1). split_and!; [done|done|]. exists []. rw /= Eb /s1 /=. split_and!; [done|rw /len /=; lia|by reads|]. intros a Ha. rw /len /= in Ha. by rewrite ->fn_lookup_insert_ne by lia. }
  eapply wp_mono; [apply (IH s1 (dst + 1) (src + 1))|].
  { intros i Hi. rw Hs1 -Z.add_assoc. apply Hd. lia. }
  intros ok s' (m & -> & Hsd & Hok). exists m. split_and!; [done|by apply (same_dom_trans _ (pool s1))|]. destruct ok.
  - destruct Hok as (cs & Hu & Hl & Hm & Hfr). pose proof (len_pos cs). exists (b :: cs). rw len_cons. simpl. split_and!; [done|done|done|lia|..|done|done|].
    + rw Hfr; [lia|]. rw /s1 /=. by reads.
    + intros a Ha. rw Hfr; [lia|]. rw /s1 /=. by rewrite ->fn_lookup_insert_ne by lia.
  - intros [|c cs]; simpl; rw Eb; [congruence|]. intros (_ & _ & Hs). rw len_cons. pose proof (Hok cs Hs). lia.
Qed.

Lemma StrLen_at m e cs : forall a, str_at m a cs -> a + len cs < e -> StrLen (omap m (seqZ a (e - a))) = Ok (length cs).
Proof.
  assert (forall a, a < e -> seqZ a (e - a) = a :: seqZ (a + 1) (e - (a + 1))) as Hz.
  { intros a Ha. rw seqZ_cons; [lia|]. by replace (Z.pred (e - a)) with (e - (a + 1)) by lia. }
  induction cs as [|c cs IH]; intros a; simpl; [rw /len /=; intros E Hl; rw Hz /= ?E //; lia|]. rw len_cons. pose proof (len_pos cs). intros (E & Hc & Hs) Hl.
  rw Hz; [lia|]. rw /= E /=. destruct (Z.eqb_spec c 0); [done|]. rw IH //. lia.
Qed.
Lemma pool_StrLen_spec a cs Q s : str_at (pool s) a cs -> a + len cs < execargs_buf + MAX_ARGS_SZ -> Q (length cs) s -> wp (pool_StrLen a) Q s.
Proof. intros Hs Hl HQ. apply wp_bind, wp_gets. apply (wp_lift _ (length cs)); [|done]. by apply StrLen_at. Qed.

(** ** From the process to the buffer *)
Context (buf_pos : 0 <= execargs_buf) (buf_end : execargs_buf + MAX_ARGS_SZ < 2 ^ 32).
Lemma copy_strings_spec n : forall s vec dst rem,
  (forall a, vec <= a < vec + 4 * Z.of_nat n \/ dst <= a < dst + rem -> is_Some (pool s a)) ->
  vec + 4 * Z.of_nat n <= dst -> 0 <= vec -> 0 <= rem -> dst + rem = execargs_buf + MAX_ARGS_SZ ->
  wp (copy_strings n vec dst rem) (fun o s' => exists m, s' = s <| pool := m |> /\ same_dom (pool s) m /\
    match o with
    | Some (d, r) => exists strs, length strs = n /\ svec (pool s) (user s) vec strs /\ d = dst + size strs /\ r = rem - size strs /\ size strs <= rem /\
        placed 0 m vec dst strs /\ (forall a, ~ vec <= a < vec + 4 * Z.of_nat n -> ~ dst <= a < dst + size strs -> m a = pool s a)
    | None => forall strs, length strs = n -> svec (pool s) (user s) vec strs -> rem < size strs
    end) s.
Proof using buf_pos buf_end.
  induction n as [|n IH]; intros s vec dst rem Hd Hv Hv0 Hr He.
  { cbn [copy_strings]. apply wp_ret. exists (pool s). rw set_pool_same. split_and!; [done|done|]. exists []. simpl. split_and!; try done; lia. }
  cbn [copy_strings]. destruct (word_at_some (pool s) vec) as [p Hp]. { intros i Hi. apply Hd. lia. }
  apply wp_bind, (wp_get_word _ p); [done|]. apply wp_bind. rw wrap32_id; [rw /u32; lia|].
  eapply wp_mono; [apply copyinstring_spec|]. { intros i Hi. apply Hd. lia. } rw Z2Nat.id //.
  intros ok s1 (m1 & -> & Hd1 & Hok). destruct ok.
  2:{ apply wp_ret. exists m1. split_and!; try done. intros [|cs strs]; [done|]. intros _ [(p' & Hp' & Hs) _]. assert (p' = p) as -> by congruence. pose proof (Hok cs Hs). pose proof (size_pos strs). simpl. lia. }
  destruct Hok as (cs & Hu & Hl & Hm1 & Hf1). pose proof (len_pos cs).
  assert (forall a, vec <= a < vec + 4 * Z.of_nat (S n) \/ dst <= a < dst + rem -> is_Some (m1 a)) as Hdm1 by (intros a Ha; rw Hd1; auto).
  apply wp_bind, wp_put_word; [intros i Hi; apply Hdm1; lia|rw /u32; lia|]. intros m2 Hw Hf2 Hd2. simpl in Hf2, Hd2.
  assert (str_at m2 dst cs) as Hm2. { apply (str_at_shift m1 m2 cs dst dst); [|done]. intros i Hi. apply Hf2. lia. }
  apply wp_bind, (pool_StrLen_spec _ cs); [done|lia|]. change (Z.of_nat (length cs)) with (len cs). set s2 := setf _ _.
  eapply wp_mono; [apply (IH s2 (vec + sizeof_ptr) (dst + (len cs + 1)) (rem - (len cs + 1))); rw /sizeof_ptr; try lia|].
  { intros a Ha. rw Hd2. apply Hdm1. lia. }
  intros o s3 (m3 & -> & Hd3 & Ho). simpl in Hd3, Ho. rw /sizeof_ptr in Ho. exists m3. split_and!; [done|by eapply same_dom_trans, same_dom_trans|].
  assert (forall strs, length strs = n -> svec m2 (user s) (vec + 4) strs <-> svec (pool s) (user s) (vec + 4) strs) as Hsv.
  { intros strs Hn. assert (forall i, 0 <= i < 4 * cnt strs -> m2 (vec + 4 + i) = pool s (vec + 4 + i)) as Heq by (rw /cnt Hn; intros i Hi; rw Hf2; [lia|]; apply Hf1; lia).
    split; apply svec_shift; intros i Hi; [symmetry|]; by apply Heq. }
  destruct o as [[d r]|].
  - destruct Ho as (strs & Hn & Hs & -> & -> & Hsz & Hpl & Hf3). exists (cs :: strs). simpl. split_and!; try lia.
    + by exists p.
    + by apply Hsv.
    + rw Z.add_0_r (word_at_shift m2 m3 vec) //. intros i Hi. apply Hf3; lia.
    + apply (str_at_shift m2 m3 cs dst dst); [|done]. intros i Hi. apply Hf3; lia.
    + done.
    + pose proof (size_pos strs). intros a Ha1 Ha2. rw Hf3; [lia|lia|]. rw Hf2; [lia|]. apply Hf1. lia.
  - intros [|cs' strs]; [done|]. intros [= Hn] [(p' & Hp' & Hs) Hr']. assert (p' = p) as -> by congruence. assert (cs' = cs) as -> by by apply (str_at_fun (user s) _ _ p). simpl.
    pose proof (Ho strs Hn (proj2 (Hsv strs Hn) Hr')). lia.
Qed.

(** The arguments of a process: what [args] says is in its memory. *)
Definition user_args (u : Z -> option Z) (a : execargs) (avs evs : list (list Z)) : Prop :=
  cnt avs = argc a /\ cnt evs = envc a /\ vec_at u (argv a) avs /\ vec_at u (envv a) evs.
Definition vectors_size (a : execargs) : Z := 4 * (argc a + 1) + 4 * (envc a + 1).
Definition args_size (a : execargs) avs evs : Z := vectors_size a + size avs + size evs.
(** The two vectors and the strings as [copy_in_argv] lays them out from [base]
    on, with pointers that are off by [off]. *)
Definition layout off m base (a : execargs) avs evs : Prop :=
  placed off m base (base + vectors_size a) avs /\ word_at m (base + 4 * argc a) = Some 0 /\
  placed off m (base + 4 * (argc a + 1)) (base + vectors_size a + size avs) evs /\ word_at m (base + 4 * (argc a + 1) + 4 * envc a) = Some 0.

Lemma copy_in_spec s _args (a : execargs) : _args <> 0 -> copyin_execargs (user s) _args = Some a -> 0 <= argc a -> 0 <= envc a -> vectors_size a <= MAX_ARGS_SZ ->
  (forall x, execargs_buf <= x < execargs_buf + MAX_ARGS_SZ -> is_Some (pool s x)) ->
  wp (copy_in_argv _args) (fun r s' => exists m, s' = s <| pool := m |> /\ same_dom (pool s) m /\
    ((exists avs evs, r = (RVal 0, mkExecargs execargs_buf (argc a) (execargs_buf + 4 * (argc a + 1)) (envc a) (args_size a avs evs)) /\
       user_args (user s) a avs evs /\ args_size a avs evs <= MAX_ARGS_SZ /\ layout 0 m execargs_buf a avs evs) \/
     (r.1 = RErr EFAULT /\ forall avs evs, user_args (user s) a avs evs -> MAX_ARGS_SZ < args_size a avs evs))) s.
Proof using buf_pos buf_end.
  intros Hn Ha Hac Hec Hsz Hd. rw /copy_in_argv /sizeof_ptr. destruct (Z.eqb_spec _args 0); [done|]. apply wp_bind, wp_gets. rw Ha.
  assert (vectors_size a = (argc a + 1) * 4 + (envc a + 1) * 4) as Ev by (rw /vectors_size; lia). rw Ev in Hsz. assert (MAX_ARGS_SZ = 65536) as EM by done.
  rw !wrap32_id; try (rw /u32; lia). set ev := execargs_buf + (argc a + 1) * 4. set st := ev + (envc a + 1) * 4.
  assert (forall avs evs, user_args (user s) a avs evs -> forall i, (0 <= i < argc a * 4 -> is_Some (user s (argv a + i))) /\ (0 <= i < envc a * 4 -> is_Some (user s (envv a + i)))) as Hrd.
  { intros avs evs (E1 & E2 & V1 & V2) i. split; intros Hi; [apply (svec_dom _ _ _ _ V1)|apply (svec_dom _ _ _ _ V2)]; lia. }
  apply wp_bind. eapply wp_mono; [apply copyin_spec; intros i Hi; apply Hd; lia|]. rw Z2Nat.id; [lia|]. intros ok s1 (m1 & -> & Hd1 & Hf1 & Hok1). destruct ok; simpl.
  2:{ apply wp_ret. exists m1. split_and!; try done. right. split; [done|]. intros avs evs Hu. destruct Hok1 as (i & Hi & Hno). destruct (Hrd _ _ Hu i) as [[x Hx] _]; [done|congruence]. }
  apply wp_bind. eapply wp_mono; [apply copyin_spec; intros i Hi; simpl; rw Hd1; apply Hd; lia|]. simpl. rw Z2Nat.id; [lia|]. intros ok s2 (m2 & -> & Hd2 & Hf2 & Hok2). destruct ok; simpl.
  2:{ apply wp_ret. exists m2. split_and!; [done|eauto using same_dom_trans|]. right. split; [done|]. intros avs evs Hu. destruct Hok2 as (i & Hi & Hno). destruct (Hrd _ _ Hu i) as [_ [x Hx]]; [done|congruence]. }
  assert (same_dom (pool s) m2) as Hds2 by eauto using same_dom_trans.
  assert (forall strs, cnt strs = argc a -> svec m2 (user s) execargs_buf strs <-> vec_at (user s) (argv a) strs) as Hav.
  { intros strs Hc. assert (forall i, 0 <= i < 4 * cnt strs -> m2 (execargs_buf + i) = user s (argv a + i)) as E by (intros i Hi; rw Hf2; [lia|]; apply Hok1; lia). split; apply svec_shift; intros i Hi; [symmetry|]; by apply E. }
  apply wp_bind. eapply wp_mono; [apply copy_strings_spec; [intros x Hx; simpl; rw Hds2; apply Hd|..]; lia|]. rw Z2Nat.id //. simpl.
  intros o s3 (m3 & -> & Hd3 & Ho). destruct o as [[d r]|].
  2:{ apply wp_ret. exists m3. split_and!; [done|eauto using same_dom_trans|]. right. split; [done|]. intros avs evs (E1 & E2 & V1 & V2). pose proof (Ho avs ltac:(rw /cnt in E1; lia) (proj2 (Hav avs E1) V1)). pose proof (size_pos evs). rw /args_size Ev. lia. }
  destruct Ho as (avs & Hla & Hva & -> & -> & Hsa & Hpa & Hf3). simpl in *. assert (cnt avs = argc a) as Hca by (rw /cnt; lia). apply Hav in Hva; [|done]. pose proof (size_pos avs).
  assert (same_dom (pool s) m3) as Hds3 by eauto using same_dom_trans.
  apply wp_bind, wp_put_word; [intros i Hi; simpl; rw Hds3; apply Hd; lia|rw /u32; lia|]. intros m4 Hw4 Hf4 Hd4. simpl in Hf4, Hd4. set s4 := setf _ _.
  assert (same_dom (pool s) m4) as Hds4 by eauto using same_dom_trans.
  assert (forall strs, cnt strs = envc a -> svec m4 (user s) ev strs <-> vec_at (user s) (envv a) strs) as Hev.
  { intros strs Hc. assert (forall i, 0 <= i < 4 * cnt strs -> m4 (ev + i) = user s (envv a + i)) as E by (intros i Hi; rw Hf4; [lia|]; rw Hf3; [lia|lia|]; apply Hok2; lia). split; apply svec_shift; intros i Hi; [symmetry|]; by apply E. }
  apply wp_bind. eapply wp_mono; [apply (copy_strings_spec _ s4); [intros x Hx; rw /s4 /= Hds4; apply Hd|..]; lia|]. rw Z2Nat.id //. simpl.
  intros o s5 (m5 & -> & Hd5 & Ho). destruct o as [[d r]|].
  2:{ apply wp_ret. exists m5. split_and!; [done|eauto using same_dom_trans|]. right. split; [done|]. intros avs' evs (E1 & E2 & V1 & V2). pose proof (Ho evs ltac:(rw /cnt in E2; lia) (proj2 (Hev evs E2) V2)).
      assert (avs' = avs) as -> by (apply (svec_fun _ _ _ _ _ V1 Hva); rw /cnt in E1; lia). rw /args_size Ev. lia. }
  destruct Ho as (evs & Hle & Hve & -> & -> & Hse & Hpe & Hf5). assert (cnt evs = envc a) as Hce by (rw /cnt; lia). apply Hev in Hve; [|done]. pose proof (size_pos evs).
  apply wp_bind, wp_put_word; [intros i Hi; simpl; rw Hd5 Hds4; apply Hd; lia|rw /u32; lia|]. intros m6 Hw6 Hf6 Hd6. simpl in Hf6, Hd6. apply wp_ret. exists m6.
  split_and!; [done|eauto using same_dom_trans|]. left. exists avs, evs. rw /args_size Ev. split_and!; [f_equal; f_equal; lia|done..|lia|].
  rw /layout Ev. replace (execargs_buf + ((argc a + 1) * 4 + (envc a + 1) * 4)) with st by lia. replace (execargs_buf + 4 * (argc a + 1)) with ev by lia. split_and!.
  - apply (placed_frame 0 m3); [|done]. rw Hca. intros x Hx. rw Hf6; [lia|]. rw Hf5; [lia|lia|]. apply Hf4. lia.
  - rw -Hw4. replace (execargs_buf + 4 * argc a) with (execargs_buf + argc a * 4) by lia. apply word_at_shift. intros i Hi. rw Hf6; [lia|]. apply Hf5; lia.
  - apply (placed_frame 0 m5); [|done]. rw Hce. intros x Hx. apply Hf6. lia.
  - by replace (ev + 4 * envc a) with (ev + envc a * 4) by lia.
Qed.

(** ** From the buffer to the stack *)
Lemma relocate_spec off diff strs : forall s vec dst, placed 0 (pool s) vec dst strs -> (forall a, vec <= a < vec + 4 * cnt strs -> is_Some (pool s a)) -> vec + 4 * cnt strs <= dst ->
  (forall x, dst <= x < dst + size strs -> wrap32 (x - diff) = x + off) ->
  wp (relocate (length strs) vec diff) (fun _ s' => exists m, s' = s <| pool := m |> /\ same_dom (pool s) m /\ placed off m vec dst strs /\ forall a, ~ vec <= a < vec + 4 * cnt strs -> m a = pool s a) s.
Proof using Type.
  induction strs as [|cs r IH]; intros s vec dst Hp Hd Hv Hx.
  { cbn [relocate length]. apply wp_ret. exists (pool s). rw set_pool_same. by split_and!. }
  cbn [relocate length]. destruct Hp as (Hw & Hs & Hp). rw Z.add_0_r in Hw. rw cnt_cons in Hd Hv |- *. simpl in Hx. pose proof (cnt_pos r). pose proof (size_pos r). pose proof (len_pos cs).
  apply wp_bind, (wp_get_word _ dst); [done|]. apply wp_bind, wp_put_word; [intros i Hi; apply Hd; lia|apply wrap32_u32|]. intros m1 Hw1 Hf1 Hd1. rw Hx in Hw1; [lia|].
  eapply wp_mono; [apply (IH (s <| pool := m1 |>) (vec + sizeof_ptr) (dst + (len cs + 1))); rw /sizeof_ptr /=; try lia|].
  - apply (placed_frame 0 (pool s)); [|done]. intros a Ha. apply Hf1. lia.
  - intros a Ha. rw Hd1. apply Hd. lia.
  - intros x Hx'. apply Hx. lia.
  - intros _ s' (m & -> & Hd2 & Hp2 & Hf2). simpl in *. rw /sizeof_ptr in Hp2 Hf2. exists m. split_and!; [done|eauto using same_dom_trans|..|done|].
    + rw -Hw1. apply word_at_shift. intros i Hi. apply Hf2. lia.
    + apply (str_at_shift (pool s) m cs dst dst); [|done]. intros i Hi. rw Hf2; [lia|]. apply Hf1. lia.
    + intros a Ha. rw Hf2; [lia|]. apply Hf1. lia.
Qed.
Lemma copyout_spec n : forall s dst src, (forall i, 0 <= i < Z.of_nat n -> is_Some (pool s (src + i)) /\ writable s (dst + i) = true) ->
  wp (copyout dst src n) (fun _ s' => exists u, s' = s <| user := u |> /\ (forall i, 0 <= i < Z.of_nat n -> u (dst + i) = pool s (src + i)) /\ forall a, ~ dst <= a < dst + Z.of_nat n -> u a = user s a) s.
Proof using Type.
  induction n as [|n IH]; intros s dst src Hd; cbn [copyout].
  { apply wp_ret. exists (user s). split_and!; [by destruct s|lia|done]. }
  destruct (Hd 0) as [[b Eb] Ew]; [lia|]. rw !Z.add_0_r in Eb Ew. apply wp_bind, (wp_get_byte _ b); [done|]. apply wp_bind, wp_gets. rw Ew. apply wp_bind, wp_modify. set s1 := setf _ s.
  eapply wp_mono; [apply (IH s1)|]. { intros i Hi. rw -!Z.add_assoc. apply Hd. lia. }
  intros _ s' (u & -> & Hu & Hf). exists u. split_and!; [done|..].
  - intros i Hi. destruct (decide (i = 0)) as [->|]; [rw !Z.add_0_r Hf /= ?Eb; [lia|]; by reads|]. pose proof (Hu (i - 1) ltac:(lia)) as E. replace (dst + 1 + (i - 1)) with (dst + i) in E by lia. by replace (src + 1 + (i - 1)) with (src + i) in E by lia.
  - intros x Hx. rw Hf; [lia|]. simpl. by rewrite ->fn_lookup_insert_ne by lia.
Qed.
Lemma layout_shift off d m k base (a : execargs) avs evs : cnt avs = argc a -> cnt evs = envc a ->
  (forall i, 0 <= i < args_size a avs evs -> k (base + d + i) = m (base + i)) -> layout off m base a avs evs -> layout (off - d) k (base + d) a avs evs.
Proof using Type.
  intros Ea Ee. rw /args_size /layout. assert (vectors_size a = 4 * (argc a + 1) + 4 * (envc a + 1)) as Ev by done. pose proof (cnt_pos avs). pose proof (cnt_pos evs). pose proof (size_pos avs). pose proof (size_pos evs).
  intros E (P1 & W1 & P2 & W2). assert (forall x, base <= x < base + vectors_size a + size avs + size evs -> k (x + d) = m x) as Ex. { intros x Hx. pose proof (E (x - base) ltac:(lia)) as E'. replace (base + d + (x - base)) with (x + d) in E' by lia. by replace (base + (x - base)) with x in E' by lia. }
  split_and!.
  - replace (base + d + vectors_size a) with (base + vectors_size a + d) by lia. apply (placed_shift _ _ m); [..|done]; intros i Hi; [replace (base + d + i) with (base + i + d) by lia|replace (base + vectors_size a + d + i) with (base + vectors_size a + i + d) by lia]; apply Ex; lia.
  - rw -W1. apply word_at_shift. intros i Hi. replace (base + d + 4 * argc a + i) with (base + 4 * argc a + i + d) by lia. apply Ex. lia.
  - replace (base + d + 4 * (argc a + 1)) with (base + 4 * (argc a + 1) + d) by lia. replace (base + d + vectors_size a + size avs) with (base + vectors_size a + size avs + d) by lia. apply (placed_shift _ _ m); [..|done]; intros i Hi;
      [replace (base + 4 * (argc a + 1) + d + i) with (base + 4 * (argc a + 1) + i + d) by lia|replace (base + vectors_size a + size avs + d + i) with (base + vectors_size a + size avs + i + d) by lia]; apply Ex; lia.
  - rw -W2. apply word_at_shift. intros i Hi. replace (base + d + 4 * (argc a + 1) + 4 * envc a + i) with (base + 4 * (argc a + 1) + 4 * envc a + i + d) by lia. apply Ex. lia.
Qed.
Lemma align16 T : 0 <= T <= MAX_ARGS_SZ -> T <= Ops.ALIGN_UP T 16 <= MAX_ARGS_SZ.
Proof using Type.
  rw /MAX_ARGS_SZ /Ops.ALIGN_UP. intros HT. rw (wrap32_id (T + 16 - 1)); [rw /u32; lia|]. rw wrap32_id; [rw /u32|]; Z.to_euclidean_division_equations; lia.
Qed.
Lemma copy_out_spec s stack_base stack_size (a : execargs) avs evs : let T := args_size a avs evs in let base := stack_base + stack_size - Ops.ALIGN_UP T 16 in
  cnt avs = argc a -> cnt evs = envc a -> T <= MAX_ARGS_SZ -> layout 0 (pool s) execargs_buf a avs evs -> (forall x, execargs_buf <= x < execargs_buf + MAX_ARGS_SZ -> is_Some (pool s x)) ->
  0 <= stack_base -> MAX_ARGS_SZ <= stack_size -> stack_base + stack_size < 2 ^ 32 -> (forall x, stack_base <= x < stack_base + stack_size -> writable s x = true) ->
  wp (copy_out_argv stack_base stack_size (mkExecargs execargs_buf (argc a) (execargs_buf + 4 * (argc a + 1)) (envc a) T))
    (fun (a' : execargs) s' => a' = mkExecargs base (argc a) (base + 4 * (argc a + 1)) (envc a) T /\ layout 0 (user s') base a avs evs /\ forall x, ~ base <= x < base + T -> user s' x = user s x) s.
Proof using buf_pos buf_end.
  intros T base Ea Ee HT (P1 & W1 & P2 & W2) Hd Hs0 Hs1 Hs2 Hw. pose proof (cnt_pos avs). pose proof (cnt_pos evs). pose proof (size_pos avs). pose proof (size_pos evs).
  assert (T = vectors_size a + size avs + size evs) as ET by done. assert (vectors_size a = 4 * (argc a + 1) + 4 * (envc a + 1)) as Ev by done. assert (MAX_ARGS_SZ = 65536) as EM by done.
  pose proof (align16 T ltac:(lia)) as Hal. assert (args_base stack_base stack_size T = base) as Eb by (rw /args_base wrap32_id //; rw /u32; lia). rw /copy_out_argv /= Eb. set diff := wrap32 (execargs_buf - base). set off := base - execargs_buf.
  assert (forall x, execargs_buf <= x <= execargs_buf + T -> wrap32 (x - diff) = x + off) as Hx.
  { intros x Hx. rw /diff /wrap32 Zminus_mod_idemp_r. replace (x - (execargs_buf - base)) with (x + off) by lia. apply Z.mod_small. lia. }
  replace (Z.to_nat (argc a)) with (length avs) by (rw /cnt in Ea; lia). replace (Z.to_nat (envc a)) with (length evs) by (rw /cnt in Ee; lia).
  apply wp_bind. eapply wp_mono; [apply (relocate_spec off diff avs s execargs_buf (execargs_buf + vectors_size a)); try done; [intros x Hx'; apply Hd; lia|lia|intros x Hx'; apply Hx; lia]|].
  intros _ s1 (m1 & -> & Hd1 & Q1 & Hf1).
  apply wp_bind. eapply wp_mono; [apply (relocate_spec off diff evs (s <| pool := m1 |>) (execargs_buf + 4 * (argc a + 1)) (execargs_buf + vectors_size a + size avs)); simpl; try lia|].
  { apply (placed_frame 0 (pool s)); [|done]. intros x Hx'. apply Hf1. lia. } { intros x Hx'. rw Hd1. apply Hd. lia. } { intros x Hx'. apply Hx. lia. }
  intros _ s2 (m2 & -> & Hd2 & Q2 & Hf2). simpl in Hd2, Q2, Hf2.
  assert (layout off m2 execargs_buf a avs evs) as HL.
  { split_and!; [apply (placed_frame off m1); [|done]; intros x Hx'; apply Hf2; lia|rw -W1; apply word_at_shift|done|rw -W2; apply word_at_shift]; intros i Hi; (rw Hf2; [lia|]); apply Hf1; lia. }
  apply wp_bind. rw wrap32_id; [rw /u32; lia|]. eapply wp_mono; [apply copyout_spec|]. { intros i Hi. simpl. split; [rw Hd2 Hd1; apply Hd; lia|apply Hw; lia]. }
  rw Z2Nat.id; [lia|]. simpl. intros _ s3 (u & -> & Hu & Hf3). apply wp_ret. rw /= !Hx; [lia|lia|]. split_and!; [f_equal; lia| |done].
  pose proof (layout_shift off off m2 u execargs_buf a avs evs Ea Ee) as HS. rw Z.sub_diag in HS. replace (execargs_buf + off) with base in HS by lia. apply HS; [|done]. intros i Hi. apply Hu. lia.
Qed.

(** C26: a new program gets the arguments it was given. Whatever is in the
    memory of the process, if the counts are not negative and the two vectors
    fit in the buffer then [copy_in_argv] writes nothing outside of the buffer
    and returns. When all pointers lead to strings and they fit too it
    succeeds, and otherwise it returns EFAULT. After success, and for any new
    address space with a stack of 64 kB or more that can be written,
    [copy_out_argv] leaves at the top of the stack a vector of pointers to the
    same strings, in the same order, for arguments and environment, each with a
    NULL at its end, and changes nothing else. Vectors that do not fit overrun
    the buffer ([argv_overruns]); without any arguments the buffer is released
    twice ([pool_shared_run]). *)
Theorem exec_args_roundtrip s _args (a : execargs) :
  _args <> 0 -> copyin_execargs (user s) _args = Some a -> 0 <= argc a -> 0 <= envc a -> vectors_size a <= MAX_ARGS_SZ ->
  (forall x, execargs_buf <= x < execargs_buf + MAX_ARGS_SZ -> is_Some (pool s x)) ->
  exists r (a1 : execargs) s1, copy_in_argv _args s = Ok ((r, a1), s1) /\
    ((r = RErr EFAULT /\ forall avs evs, user_args (user s) a avs evs -> MAX_ARGS_SZ < args_size a avs evs) \/
     exists avs evs, r = RVal 0 /\ user_args (user s) a avs evs /\ args_size a avs evs <= MAX_ARGS_SZ /\
       forall u w stack_base stack_size, let top := stack_base + stack_size in let base := top - Ops.ALIGN_UP (args_size a avs evs) 16 in
         0 <= stack_base -> MAX_ARGS_SZ <= stack_size -> top < 2 ^ 32 -> (forall x, stack_base <= x < top -> w x = true) ->
         exists (a2 : execargs) s2, copy_out_argv stack_base stack_size a1 (s1 <| user := u |> <| writable := w |>) = Ok (a2, s2) /\
           argc a2 = argc a /\ vec_at (user s2) (argv a2) avs /\ word_at (user s2) (argv a2 + 4 * argc a) = Some 0 /\
           envc a2 = envc a /\ vec_at (user s2) (envv a2) evs /\ word_at (user s2) (envv a2 + 4 * envc a) = Some 0 /\
           forall x, ~ base <= x < top -> user s2 x = u x).
Proof using buf_pos buf_end.
  intros Hn Ha Hac Hec Hsz Hd. destruct (proj1 (wp_ok _ _ _) (copy_in_spec s _args a Hn Ha Hac Hec Hsz Hd)) as ([r a1] & s1 & Hr & m & -> & Hsd & Hcase). exists r, a1, (s <| pool := m |>). split; [done|].
  destruct Hcase as [(avs & evs & E & Hu & HT & HL)|[E Hno]]; [|by left]. right. injection E as -> ->. exists avs, evs. split_and!; try done. intros u w sb sz top base Hs0 Hs1 Hs2 Hw.
  destruct Hu as (Ea & Ee & _). set s2 := setf _ (setf _ _).
  destruct (proj1 (wp_ok _ _ _) (copy_out_spec s2 sb sz a avs evs Ea Ee HT HL (fun x Hx => proj2 (Hsd x) (Hd x Hx)) Hs0 Hs1 Hs2 Hw)) as (a2 & s3 & Hr2 & -> & (P1 & W1 & P2 & W2) & Hf).
  eexists _, s3. split; [exact Hr2|]. simpl. split_and!; try done; [by apply placed_vec in P1|by apply placed_vec in P2|]. intros x Hx. apply Hf. pose proof (size_pos avs). pose proof (size_pos evs).
  assert (0 <= args_size a avs evs) by (rw /args_size /vectors_size; lia). pose proof (align16 (args_size a avs evs) ltac:(lia)). lia.
Qed.
End copies.

(** ** A process with the arguments "ls" and "-l", and its environment "A=" *)
#[local] Instance exec_consts : ExecConsts := {| execargs_buf := 0x80000000; execargs_rendez := 0%nat;
  copyin_execargs := fun _ p => if p =? 16 then Some (mkExecargs 100 2 120 1 0) else None |}.
Definition bytes_at (a : Z) (l : list Z) (m : Z -> option Z) : Z -> option Z := fun x => if decide (a <= x < a + Z.of_nat (length l)) then l !! Z.to_nat (x - a) else m x.
Definition args_user : Z -> option Z :=
  bytes_at 100 [200; 0; 0; 0; 210; 0; 0; 0] (bytes_at 120 [220; 0; 0; 0] (bytes_at 200 [108; 115; 0] (bytes_at 210 [45; 108; 0] (bytes_at 220 [65; 61; 0] (fun _ => None))))).
Definition exec0 : exec := mkExec (fun x => if decide (0x80000000 <= x < 0x80010000) then Some 0 else None) args_user (fun _ => false) false Sample.state0.
Lemma exec0_args : user_args args_user (mkExecargs 100 2 120 1 0) [[108; 115]; [45; 108]] [[65; 61]].
Proof. rw /user_args /vec_at. cbn [svec]. split_and!; try done; (eexists; split; [reflexivity|by vm_compute]). Qed.
#[local] Opaque copy_in_argv copy_out_argv.
Lemma exec_args_roundtrip_witness :
  exists a1 s1 a2 s2, copy_in_argv 16 exec0 = Ok ((RVal 0, a1), s1) /\
    copy_out_argv 0x30000000 0x20000 a1 (s1 <| user := fun _ => None |> <| writable := fun _ => true |>) = Ok (a2, s2) /\
    argc a2 = 2 /\ vec_at (user s2) (argv a2) [[108; 115]; [45; 108]] /\ envc a2 = 1 /\ vec_at (user s2) (envv a2) [[65; 61]].
Proof.
  assert (0 <= execargs_buf) as B1 by (simpl; lia). assert (execargs_buf + MAX_ARGS_SZ < 2 ^ 32) as B2 by (rw /MAX_ARGS_SZ /=; lia).
  destruct (exec_args_roundtrip B1 B2 exec0 16 (mkExecargs 100 2 120 1 0)) as (r & a1 & s1 & H1 & Hc); [discriminate|reflexivity|simpl; lia|simpl; lia|rw /vectors_size /MAX_ARGS_SZ /=; lia| |].
  { intros x Hx. simpl. rw decide_True; [exact Hx|by eexists]. }
  destruct Hc as [[_ Hno]|(avs & evs & -> & (Ea & Ee & Va & Ve) & _ & Hout)].
  { exfalso. pose proof (Hno _ _ exec0_args) as Hx. vm_compute in Hx. discriminate. }
  destruct exec0_args as (_ & _ & Va' & Ve'). pose proof (svec_fun _ _ _ _ _ Va Va') as E1. pose proof (svec_fun _ _ _ _ _ Ve Ve') as E2. rw /cnt /= in Ea Ee. rw E1 in Hout; [simpl; lia|]. rw E2 in Hout; [simpl; lia|].
  destruct (Hout (fun _ => None) (fun _ => true) 0x30000000 0x20000) as (a2 & s2 & H2 & Hc & Hv & _ & He & Hv' & _); [lia|rw /MAX_ARGS_SZ; lia|lia|reflexivity|].
  exists a1, s1, a2, s2. split_and!; assumption.
Defined.
#[local] Transparent copy_in_argv copy_out_argv.

(** ** What the calls do not check *)

(** A vector that does not fit in the buffer is copied past its end. *)
Lemma copyin_overruns `{ExecConsts} n : forall s dst src j, (forall i, 0 <= i < Z.of_nat n -> is_Some (user s (src + i))) -> 0 <= j < Z.of_nat n -> pool s (dst + j) = None -> copyin dst src n s = Fault.
Proof.
  induction n as [|n IH]; intros s dst src j Hu Hj Hp; [lia|]. destruct (Hu 0) as [b Eb]; [lia|]. rw Z.add_0_r in Eb. cbn [copyin]. rw {1}/mbind {1}/M_bind {1}/gets Eb {1}/mbind {1}/M_bind {1}/put_byte {1}/get_byte.
  rw {1}/mbind {1}/M_bind {1}/mbind {1}/M_bind {1}/gets. destruct (pool s dst) as [x|] eqn:Ep; [|done]. simpl. assert (j <> 0) by (intros ->; rw Z.add_0_r in Hp; congruence).
  apply (IH _ _ _ (j - 1)); [intros i Hi; rw -Z.add_assoc; apply Hu; lia|lia|]. simpl. rewrite ->fn_lookup_insert_ne by lia. by replace (dst + 1 + (j - 1)) with (dst + j) by lia.
Qed.
Lemma argv_overruns `{ExecConsts} s _args (a : execargs) : _args <> 0 -> copyin_execargs (user s) _args = Some a -> MAX_ARGS_SZ < 4 * argc a < 2 ^ 32 ->
  (forall x, ~ execargs_buf <= x < execargs_buf + MAX_ARGS_SZ -> pool s x = None) -> (forall i, 0 <= i < 4 * argc a -> is_Some (user s (argv a + i))) -> copy_in_argv _args s = Fault.
Proof.
  intros Hn Ha Hac Hp Hu. assert (MAX_ARGS_SZ = 65536) as EM by done. rw /copy_in_argv. destruct (Z.eqb_spec _args 0); [done|]. rw {1}/mbind {1}/M_bind {1}/gets Ha {1}/mbind {1}/M_bind (copyin_overruns _ s _ _ MAX_ARGS_SZ) //; rw /sizeof_ptr.
  - rw wrap32_id; [rw /u32; lia|]. intros i Hi. apply Hu. lia.
  - rw wrap32_id; [rw /u32; lia|]. lia.
  - apply Hp. lia.
Qed.
(** An exec without arguments releases the buffer twice: the second time it may
    be another's, and then two have it at once. *)
Definition result {A} (x : outcome (A * exec)) : option A := match x with Ok (a, _) => Some a | _ => None end.
Lemma pool_shared_run : result ((_ ← alloc_arg_pool; _ ← copy_in_argv 0; o1 ← alloc_arg_pool; _ ← free_arg_pool; o2 ← alloc_arg_pool; mret (o1, o2)) exec0) = Some (Some execargs_buf, Some execargs_buf).
Proof. vm_compute. reflexivity. Qed.
